(* ===== verification/_CoqProject ===== *)
-Q . S2P
Prelude.v
Postgres.v
Float4.v
Fieldnorm.v
TopK.v
SegmentFormat.v
Compression.v
Storage.v
Vector.v
VectorFacts.v
Catalog.v
CatalogFacts.v
SegmentIO.v
Docmap.v
SegmentScan.v
ScanFacts.v
Memtable.v
MemtableFacts.v
SegmentWrite.v
SegmentEmit.v
SegmentWriteFacts.v
SegmentLayout.v
SegmentOpen.v
SegmentContent.v
SegmentDocs.v
SegmentRoundtrip.v
Bmw.v
BmwSingle.v
BmwQuery.v
BmwTerms.v
BmwOrder.v
BmwSteps.v
BmwSums.v
BmwPass.v
BmwWand.v
BmwRound.v
BmwMulti.v
Metapage.v
MetapageFacts.v
DocidChain.v
DocidEvents.v
TenantPages.v
Merge.v
MergeWrite.v
Lifecycle.v
MergeReaders.v
MergeTerms.v
MergePostings.v
MergeDocs.v
MergeEmit.v
MergePlan.v
MergeSegment.v
MergeLevel.v
MergeProperties.v
Levels.v
SpillFacts.v
IndexDocs.v
IndexProperties.v
SortDocs.v
SortFacts.v
Score.v
ScoreFacts.v
Query.v
QueryFacts.v
IndexScan.v
IndexScanFacts.v
InsertFacts.v
Build.v
BuildFacts.v
Vacuum.v
RecoveryFacts.v
