(* ===== verification/Prelude.v ===== *)
(** * pg_textsearch: a verification development

    pg_textsearch is a PostgreSQL extension, an index access method for BM25 text
    search.  New documents enter an inverted index in shared memory (the memtable)
    and their row pointers (CTIDs) a chain of pages for crash recovery; full memtables
    are written to immutable segments, byte streams spread over index pages and
    chained in levels; full levels are merged; a query scores the memtable and the
    segments of every level into a bounded heap, skipping blocks of postings that
    cannot enter it, and an index scan returns the best rows batch by batch.  This
    development models the C and Rust code of that life, from the insertion of a
    document to the rows of a scan, and proves it correct, or shows where it is not.

    ** The parts, and the files that model them

    - Generic: this file (machine integers, bytes, results [res], computations with
      state and errors [rst], their specifications [ensures] and [runs]), Postgres
      (the server as classes of operations with laws: CTID order, qsort, shared
      memory, free space map, hash tables), Float4 (IEEE single and double
      precision by the Standard Library's [SpecFloat], BM25 and IDF of
      rust/src/scoring.rs).
    - Fieldnorm: rust/src/fieldnorm.rs and segment/fieldnorm.h, document lengths in
      one byte.
    - TopK: the heap of query/bmw.c and bmw.h.
    - SegmentFormat, Compression: the structures of segment/segment.h byte by byte,
      the posting blocks of rust/src/compression.rs.
    - Storage, SegmentIO: the pages of the relation, segment/pagemapper.h, the
      writer, the page index and the reader of segment/segment.c.
    - Docmap: segment/docmap.c, the numbering of the documents of a segment.
    - Memtable, MemtableFacts: memtable/ (posting.c, stringtable.c, tenant_stats.c,
      source.c), segment/dictionary.c and the parts of state/state.c that clear the
      memtable, over a store of allocated chunks.
    - SegmentWrite (model), SegmentEmit, SegmentLayout, SegmentWriteFacts,
      SegmentOpen, SegmentContent, SegmentDocs, SegmentRoundtrip (proofs):
      [tp_write_segment] of segment/segment.c, from a memtable to the pages of a
      segment and back.
    - SegmentScan (model), ScanFacts (proofs): segment/scan.c, dictionary search,
      posting iterator, seeks, exhaustive scoring.
    - Bmw (model), BmwSingle, BmwQuery (one term), BmwTerms, BmwOrder, BmwSteps,
      BmwSums, BmwPass, BmwWand, BmwRound, BmwMulti (several terms: WAND):
      query/bmw.c.
    - SortDocs, Score (models), SortFacts, ScoreFacts (proofs): query/score.c, the
      statistics of corpus and terms, the choice of the path, the exhaustive path
      and its partial quicksort.
    - Metapage, TenantPages (models and proofs), MetapageFacts, DocidChain,
      DocidEvents (proofs): state/metapage.c, the metapage, the chain of docid pages
      and the chain of tenant statistics.
    - Merge, MergeWrite (models), MergeReaders, MergeTerms, MergePostings, MergeDocs,
      MergeEmit, MergePlan, MergeSegment, MergeLevel, MergeProperties, Levels
      (proofs): segment/merge.c, merging a level and compaction.
    - Lifecycle (model), SpillFacts, IndexDocs, IndexProperties, InsertFacts,
      RecoveryFacts (proofs): insertion with its automatic spill, spilling and bulk
      loads of am/build.c and state/state.c, recovery of state/state.c.
    - Vacuum: am/vacuum.c.
    - Vector (model), VectorFacts (proofs): the type bm25vector of types/vector.c.
    - Catalog (model), CatalogFacts (proofs): index names and the indexes that may
      answer a query, of am/scan.c and types/query.c.
    - Query (model), QueryFacts (proofs): the type bm25query and the operators [<@>]
      of types/query.c.
    - IndexScan (model), IndexScanFacts (proofs): am/scan.c, memtable/scan.c,
      state/limit.c, the scan with its limits and batches.

    ** How they interact

    A function of the source is a definition of the same name.  A function that
    raises errors or changes state is a computation [rst S A] over the state it
    uses: the shared memory of the index ([TpLocalIndexState]), the relation and
    the pages ([Storage]), a segment reader, both of the first two with the cache of
    a backend ([Index] of Lifecycle), or the scan descriptor ([Session] of
    IndexScan).  Where the source has an interface the model has a class:
    [SegmentAccess] is what scan.c and bmw.c call of a reader, [SegmentAccessLaws]
    what they rely on, and SegmentIO's reader is shown to satisfy it;
    [TpDataSource] is the source's own record of functions.  An index scan calls
    scoring through a parameter; its theorems rest on [ranks_with], that a batch of
    [n] results is the front of one ranking, which the exhaustive path of Score is
    shown to satisfy.  The server's operations are class parameters with their
    documented laws, with a concrete instance for the witnesses.

    ** The theorems

    - The life of an index: [index_inv] (InsertFacts) says that the memtable holds
      the documents inserted last and the segments of the levels the others, with
      the totals and the docid chain.  Insertion keeps it, spilling and compaction
      keep the documents (IndexProperties), compaction ends, recovery restores the
      memtable from the docid chain (RecoveryFacts), vacuum reports every document
      (Vacuum).
    - Queries: the heap keeps the best [k] candidates (TopK); block skipping is
      exact for one term when the recorded bounds are bounds (BmwSingle), also for
      a whole query over memtable and segments (BmwQuery), and WAND is exact for
      several terms but for ties (BmwMulti); a query of one term ranks the postings
      of the whole index with the frequencies of the whole index (ScoreFacts); the
      partial quicksort extracts the front of the ranking (SortFacts); a scan
      returns the ranking row by row across its batches (IndexScanFacts).
    - Round trips: fieldnorms, structures, compressed blocks, byte ranges through
      writer, page index and reader, tenant statistics, the types bm25vector and
      bm25query; and the main one, from the documents inserted in the memtable
      through [tp_write_segment] to what the iterators of the opened segment return
      (SegmentRoundtrip.written_segment_is_searchable).
    - Refinements: the memtable implements a finite map from terms to posting lists
      and frees exactly its memory (MemtableFacts); a merged segment is the union of
      its sources (IndexProperties.merge_keeps_documents); the docid pages are a
      list of CTIDs whatever the interleaving of backends with valid caches
      (DocidEvents); the cache of the operators changes no score (QueryFacts).
    - Defects shown by theorems: the bounds of posting blocks that lose the best
      document, the read past the end of a compressed segment, the sentinel tenant
      of the document map, the stale docid cache, documents not counted or doubled
      by recovery, the read past the operators' cache, scans that repeat a row or
      fail on a large LIMIT, queries without a text configuration.

    ** Bounds and fuel

    Loops that are not structural take fuel computed from their inputs, and running
    out of it is the error [OUT_OF_FUEL], which no function of the source raises;
    a theorem that a computation returns therefore shows that its loops end.  A walk
    over the segments of a level has one round for every block of the relation, and
    two more.  Unsigned C types wrap where the code computes in them ([u8], [u16],
    [u32]); arrays are lists, and an access past the end is the error
    [OUT_OF_BOUNDS_ACCESS].

    ** Not modelled

    Locks, buffer pins, WAL records and palloc contexts (operations on shared state
    are atomic, except where histories of several backends are the subject); the
    registry and the attachment to shared memory; building an index from a heap
    scan and parallel builds; the local memtable, which nothing calls; the planner
    hooks, which rewrite the server's trees, and cost estimates; the debugging
    dump; the Rust port of reader, writer, merge and heap, which the C code does not
    call. *)
From stdpp Require Export base list list_numbers gmap sets strings sorting.
From Stdlib Require Export ZArith Lia Bool ZifyNat.
From Stdlib Require Export Strings.Byte.

#[global] Open Scope Z_scope.

(** ** Machine integers

    A C integer is a [Z]; the wrap-around of an unsigned [w]-bit type is
    written out where the code computes in that type. *)

Definition wrap (w x : Z) : Z := x mod 2 ^ w.
Abbreviation u8 := (wrap 8).
Abbreviation u16 := (wrap 16).
Abbreviation u32 := (wrap 32).
Abbreviation u64 := (wrap 64).

Definition UINT32_MAX : Z := 4294967295.

Lemma wrap_range w x : 0 <= w -> 0 <= wrap w x < 2 ^ w.
Proof. intros Hw. apply Z.mod_pos_bound. by apply Z.pow_pos_nonneg. Qed.

Lemma wrap_small w x : 0 <= x < 2 ^ w -> wrap w x = x.
Proof. apply Z.mod_small. Qed.

(** Signed types wrap too (the server is compiled with [-fwrapv]). *)
Definition swrap (w x : Z) : Z := (x + 2 ^ (w - 1)) mod 2 ^ w - 2 ^ (w - 1).
Abbreviation i32 := (swrap 32).
Abbreviation i64 := (swrap 64).

Lemma swrap_small w x : 0 < w -> - 2 ^ (w - 1) <= x < 2 ^ (w - 1) -> swrap w x = x.
Proof.
  intros Hw Hx. unfold swrap.
  assert (2 ^ w = 2 * 2 ^ (w - 1)) by (rewrite <- Z.pow_succ_r by lia; f_equal; lia).
  rewrite Z.mod_small by lia. lia.
Qed.

(** ** Bytes, and little-endian integers *)

#[global] Instance byte_eq_dec : EqDecision byte := Byte.byte_eq_dec.

Definition byte_of_Z (z : Z) : byte :=
  match Byte.of_N (Z.to_N (z mod 256)) with Some b => b | None => x00 end.

Definition Z_of_byte (b : byte) : Z := Z.of_N (Byte.to_N b).

Lemma Z_of_byte_range b : 0 <= Z_of_byte b < 256.
Proof. unfold Z_of_byte. pose proof (Byte.to_N_bounded b). lia. Qed.

Lemma Z_of_byte_of_Z z : Z_of_byte (byte_of_Z z) = z mod 256.
Proof.
  unfold byte_of_Z, Z_of_byte.
  pose proof (Z.mod_pos_bound z 256 ltac:(lia)) as Hb.
  destruct (Byte.of_N _) as [b|] eqn:E.
  - apply Byte.to_of_N in E. rewrite E. lia.
  - apply Byte.of_N_None_iff in E. lia.
Qed.

Lemma byte_of_Z_of_byte b : byte_of_Z (Z_of_byte b) = b.
Proof.
  unfold byte_of_Z, Z_of_byte.
  pose proof (Byte.to_N_bounded b).
  rewrite Z.mod_small by lia. rewrite N2Z.id, Byte.of_to_N. done.
Qed.

(** The [n] low bytes of [z], least significant first (the layout of an
    integer field on the little-endian machines the extension runs on). *)
Fixpoint le_bytes (n : nat) (z : Z) : list byte :=
  match n with
  | O => []
  | S n' => byte_of_Z z :: le_bytes n' (z / 256)
  end.

Fixpoint le_value (bs : list byte) : Z :=
  match bs with
  | [] => 0
  | b :: bs' => Z_of_byte b + 256 * le_value bs'
  end.

Lemma length_le_bytes n z : length (le_bytes n z) = n.
Proof. revert z. induction n; intros; simpl; auto. Qed.

Lemma le_value_bytes n z :
  le_value (le_bytes n z) = z mod 256 ^ Z.of_nat n.
Proof.
  revert z. induction n as [|n IH]; intros z.
  - simpl. by rewrite Z.mod_1_r.
  - cbn [le_bytes le_value].
    rewrite IH, Z_of_byte_of_Z, Nat2Z.inj_succ, Z.pow_succ_r by lia.
    rewrite Z.rem_mul_r by lia. lia.
Qed.

Lemma le_value_bytes_small n z :
  0 <= z < 256 ^ Z.of_nat n -> le_value (le_bytes n z) = z.
Proof. intros. rewrite le_value_bytes. by apply Z.mod_small. Qed.

Lemma le_value_range bs : 0 <= le_value bs < 256 ^ Z.of_nat (length bs).
Proof.
  induction bs as [|b bs IH]; simpl length; [simpl; lia|].
  cbn [le_value].
  rewrite Nat2Z.inj_succ, Z.pow_succ_r by lia.
  pose proof (Z_of_byte_range b). lia.
Qed.

Lemma le_bytes_value bs : le_bytes (length bs) (le_value bs) = bs.
Proof.
  induction bs as [|b bs IH]; [done|].
  cbn [length le_bytes le_value].
  pose proof (Z_of_byte_range b).
  f_equal.
  - rewrite <- (byte_of_Z_of_byte b) at 2. unfold byte_of_Z.
    by rewrite (Z.mul_comm 256), Z.mod_add by lia.
  - etransitivity; [|exact IH]. f_equal.
    symmetry. apply (Z.div_unique _ _ _ (Z_of_byte b)); lia.
Qed.

(** ** Results

    An [ereport(ERROR, ...)] leaves the function: it is the [Err] of a
    result, with the error class the code raises. *)

Inductive tp_error :=
  | ERRCODE_INTERNAL_ERROR
  | ERRCODE_DATA_CORRUPTED
  | ERRCODE_PROGRAM_LIMIT_EXCEEDED
  | ERRCODE_INVALID_TEXT_REPRESENTATION
  | ERRCODE_INVALID_PARAMETER_VALUE
  | ERRCODE_NULL_VALUE_NOT_ALLOWED
  | ERRCODE_UNDEFINED_TABLE
  | ERRCODE_UNDEFINED_OBJECT
  | ERRCODE_UNDEFINED_COLUMN
  | ERRCODE_FEATURE_NOT_SUPPORTED
  | ERRCODE_WRONG_OBJECT_TYPE
  | ERRCODE_OBJECT_NOT_IN_PREREQUISITE_STATE
  | ERRCODE_DATA_EXCEPTION
  | ERRCODE_PROTOCOL_VIOLATION  (** raised by the server's message functions *)
  | OUT_OF_BOUNDS_ACCESS    (** an access past the end of a C array *)
  | OUT_OF_FUEL.            (** not an error of the code: a loop ran longer than its bound *)

Inductive res (A : Type) : Type :=
  | Ok (a : A)
  | Err (e : tp_error).
Arguments Ok {A} _.
Arguments Err {A} _.

#[global] Instance res_ret : MRet res := @Ok.
#[global] Instance res_bind : MBind res := fun A B f r =>
  match r with Ok a => f a | Err e => Err e end.
#[global] Instance res_fmap : FMap res := fun A B f r =>
  match r with Ok a => Ok (f a) | Err e => Err e end.

Definition res_guard (b : bool) (e : tp_error) : res unit :=
  if b then Ok tt else Err e.

(** Reading an array at a C index. *)
Definition zget {A} (l : list A) (i : Z) : option A :=
  if 0 <=? i then l !! Z.to_nat i else None.

Definition zread {A} (l : list A) (i : Z) : res A :=
  match zget l i with Some a => Ok a | None => Err OUT_OF_BOUNDS_ACCESS end.

(** [bytes[off .. off+len)] *)
Definition sub_list {A} (off len : Z) (l : list A) : list A :=
  take (Z.to_nat len) (drop (Z.to_nat off) l).

Definition zlen {A} (l : list A) : Z := Z.of_nat (length l).

(** ** Lists *)

Lemma StronglySorted_lookup {A} (R : A -> A -> Prop) l (i j : nat) x y :
  StronglySorted R l -> l !! i = Some x -> l !! j = Some y -> (i < j)%nat -> R x y.
Proof.
  intros Hs. revert i j. induction Hs as [|z l Hs IH Hz]; intros i j Hx Hy Hij; [done|].
  destruct j as [|j]; [lia|]. destruct i as [|i]; simpl in *.
  - injection Hx as ->. rewrite Forall_forall in Hz.
    apply Hz. by eapply list_elem_of_lookup_2.
  - apply (IH i j); auto with lia.
Qed.

Lemma zget_nat {A} (l : list A) (i : nat) : zget l (Z.of_nat i) = l !! i.
Proof. unfold zget. rewrite (proj2 (Z.leb_le 0 _)) by lia. by rewrite Nat2Z.id. Qed.

Lemma zget_Some {A} (l : list A) (i : Z) x : zget l i = Some x -> 0 <= i < zlen l.
Proof.
  unfold zget, zlen. destruct (Z.leb_spec 0 i); [|done].
  intros Hx%lookup_lt_Some. lia.
Qed.

Lemma zget_lookup {A} (l : list A) (i : Z) : 0 <= i -> zget l i = l !! Z.to_nat i.
Proof. intros. unfold zget. by rewrite (proj2 (Z.leb_le 0 i)). Qed.

Lemma zget_is_Some {A} (l : list A) (i : Z) : 0 <= i < zlen l -> is_Some (zget l i).
Proof.
  intros Hi. rewrite zget_lookup by lia. apply lookup_lt_is_Some. unfold zlen in Hi. lia.
Qed.

Lemma zget_fmap {A B} (f : A -> B) l i : zget (f <$> l) i = f <$> zget l i.
Proof. unfold zget. case_match; [|done]. apply list_lookup_fmap. Qed.

(** ** Slices *)

Lemma zlen_app {A} (l1 l2 : list A) : zlen (l1 ++ l2) = zlen l1 + zlen l2.
Proof. unfold zlen. rewrite length_app. lia. Qed.

Lemma zlen_cons {A} (x : A) l : zlen (x :: l) = 1 + zlen l.
Proof. unfold zlen. simpl. lia. Qed.

Lemma zlen_nil {A} : zlen (@nil A) = 0.
Proof. done. Qed.

Lemma zlen_nonneg {A} (l : list A) : 0 <= zlen l.
Proof. unfold zlen. lia. Qed.

Lemma zlen_fmap {A B} (f : A -> B) (l : list A) : zlen (f <$> l) = zlen l.
Proof. unfold zlen. by rewrite length_fmap. Qed.

Lemma zlen_sub_list {A} off len (l : list A) :
  0 <= off -> 0 <= len -> off + len <= zlen l -> zlen (sub_list off len l) = len.
Proof. unfold zlen, sub_list. intros. rewrite length_take, length_drop. lia. Qed.

Lemma sub_list_split {A} off n m (l : list A) :
  0 <= off -> 0 <= n -> 0 <= m ->
  sub_list off (n + m) l = sub_list off n l ++ sub_list (off + n) m l.
Proof.
  intros. unfold sub_list. rewrite !Z2Nat.inj_add by lia.
  rewrite <- take_take_drop. by rewrite drop_drop.
Qed.

Lemma sub_list_app_r {A} off len (l1 l2 : list A) :
  zlen l1 <= off -> sub_list off len (l1 ++ l2) = sub_list (off - zlen l1) len l2.
Proof.
  unfold zlen, sub_list. intros. rewrite drop_app_ge by lia. do 2 f_equal. lia.
Qed.

Lemma sub_list_app_l {A} off len (l1 l2 : list A) :
  0 <= off -> off + len <= zlen l1 -> sub_list off len (l1 ++ l2) = sub_list off len l1.
Proof.
  unfold zlen, sub_list. intros.
  destruct (decide (len <= 0)).
  { by replace (Z.to_nat len) with 0%nat by lia. }
  rewrite drop_app_le by lia.
  rewrite take_app_le; [done|]. rewrite length_drop. lia.
Qed.

Lemma sub_list_0_all {A} (l : list A) : sub_list 0 (zlen l) l = l.
Proof. unfold sub_list, zlen. rewrite Nat2Z.id. apply firstn_all. Qed.

(** A slice of a prefix is a slice of the whole. *)
Lemma sub_list_prefix {A} off len n (l : list A) :
  0 <= off -> off + len <= n -> sub_list off len (take (Z.to_nat n) l) = sub_list off len l.
Proof.
  intros. unfold sub_list. destruct (decide (len <= 0)).
  { by replace (Z.to_nat len) with 0%nat by lia. }
  rewrite skipn_firstn_comm, take_take. f_equal. lia.
Qed.

Lemma filter_all {A} (Q : A -> Prop) `{forall x, Decision (Q x)} l :
  Forall Q l -> filter Q l = l.
Proof. induction 1; [done|]. rewrite filter_cons_True by done. congruence. Qed.

Lemma filter_none {A} (Q : A -> Prop) `{forall x, Decision (Q x)} l :
  Forall (fun x => ~ Q x) l -> filter Q l = [].
Proof. induction 1; [done|]. by rewrite filter_cons_False. Qed.

(** ** Automation *)

(** Lengths of concrete shapes: [autorewrite with zlen]. *)
Create HintDb zlen.
#[export] Hint Rewrite @zlen_app @zlen_cons @zlen_nil @zlen_fmap : zlen.

(** Slices and array reads under side conditions that [lia] proves. *)
Create HintDb slices.
#[export] Hint Rewrite @zlen_sub_list @sub_list_prefix using lia : slices.
#[export] Hint Resolve zlen_nonneg le_value_range Z_of_byte_range : slices.

(** A bound that holds of all elements implies another by arithmetic. *)
Ltac forall_lia H := eapply Forall_impl; [exact H|]; simpl; intros; lia.

(** A [Forall] over a concrete list, each element decided by computation. *)
Ltac forall_compute :=
  repeat first [apply Forall_nil; exact I | apply Forall_cons; split; [by vm_compute|]].

(** ** Computations with state and errors *)

Definition rst (S A : Type) : Type := S -> res (A * S).

#[global] Instance rst_ret S : MRet (rst S) := fun A a s => Ok (a, s).
#[global] Instance rst_bind S : MBind (rst S) := fun A B f m s =>
  match m s with Ok (a, s') => f a s' | Err e => Err e end.
#[global] Instance rst_fmap S : FMap (rst S) := fun A B f m s =>
  match m s with Ok (a, s') => Ok (f a, s') | Err e => Err e end.

Definition rst_lift {S A} (r : res A) : rst S A := fun s =>
  match r with Ok a => Ok (a, s) | Err e => Err e end.
Definition rst_gets {S A} (f : S -> A) : rst S A := fun s => Ok (f s, s).
Definition rst_modify {S} (f : S -> S) : rst S unit := fun s => Ok (tt, f s).
Definition rst_fail {S A} (e : tp_error) : rst S A := fun _ => Err e.

(** [ensures m s Q]: from [s], [m] returns a value and a state that satisfy [Q]. *)
Definition ensures {S A} (m : rst S A) (s : S) (Q : A -> S -> Prop) : Prop :=
  exists a s', m s = Ok (a, s') /\ Q a s'.

Lemma ensures_ret {S A} (s : S) (a : A) (Q : A -> S -> Prop) : Q a s -> ensures (mret a) s Q.
Proof. intros. by exists a, s. Qed.

Lemma ensures_bind {S A B} (m : rst S A) (f : A -> rst S B) s (Q : B -> S -> Prop) :
  ensures m s (fun a s' => ensures (f a) s' Q) -> ensures (m ≫= f) s Q.
Proof.
  intros (a & s1 & E & b & s2 & E2 & HQ). exists b, s2. split; [|done].
  unfold mbind, rst_bind. by rewrite E.
Qed.

Lemma ensures_bind_inv {S A B} (m : rst S A) (f : A -> rst S B) s (Q : B -> S -> Prop) :
  ensures (m ≫= f) s Q -> ensures m s (fun a s' => ensures (f a) s' Q).
Proof.
  intros (b & s2 & E & HQ). unfold mbind, rst_bind in E. destruct (m s) as [[a s1]|] eqn:Em; [|done].
  exists a, s1. split; [done|]. by exists b, s2.
Qed.

Lemma ensures_fmap {S A B} (f : A -> B) (m : rst S A) s (Q : B -> S -> Prop) :
  ensures m s (fun a s' => Q (f a) s') -> ensures (f <$> m) s Q.
Proof.
  intros (a & s1 & E & HQ). exists (f a), s1. split; [|done].
  unfold fmap, rst_fmap. by rewrite E.
Qed.

Lemma ensures_lift {S A} (r : res A) (s : S) a (Q : A -> S -> Prop) :
  r = Ok a -> Q a s -> ensures (rst_lift r) s Q.
Proof. intros -> HQ. by exists a, s. Qed.

Lemma ensures_gets {S A} (f : S -> A) s (Q : A -> S -> Prop) :
  Q (f s) s -> ensures (rst_gets f) s Q.
Proof. intros HQ. by exists (f s), s. Qed.

Lemma ensures_modify {S} (f : S -> S) s (Q : unit -> S -> Prop) :
  Q tt (f s) -> ensures (rst_modify f) s Q.
Proof. intros HQ. by exists tt, (f s). Qed.

Lemma ensures_mono {S A} (m : rst S A) s (Q Q' : A -> S -> Prop) :
  ensures m s Q -> (forall a s', Q a s' -> Q' a s') -> ensures m s Q'.
Proof. intros (a & s' & E & HQ) HQ'. exists a, s'. auto. Qed.

(** [runs I m s a]: [m] returns [a] in a state where [I] holds. *)
Definition runs {S A} (I : S -> Prop) (m : rst S A) (s : S) (a : A) : Prop :=
  ensures m s (fun a' s' => a' = a /\ I s').

Lemma runs_ensures {S A} (I : S -> Prop) (m : rst S A) s a (Q : A -> S -> Prop) :
  runs I m s a -> (forall s', I s' -> Q a s') -> ensures m s Q.
Proof. intros Hr HQ. apply (ensures_mono _ _ _ _ Hr). intros ? ? [-> ?]. auto. Qed.

(** Sequencing with a computation whose result is known. *)
Lemma ensures_bind_runs {S A B} (I : S -> Prop) (m : rst S A) (f : A -> rst S B) s a
    (Q : B -> S -> Prop) :
  runs I m s a -> (forall s', I s' -> ensures (f a) s' Q) -> ensures (m ≫= f) s Q.
Proof. intros Hr Hf. apply ensures_bind. by apply (runs_ensures I _ _ a). Qed.

Lemma runs_fmap {S A B} (I : S -> Prop) (f : A -> B) (m : rst S A) s a :
  runs I m s a -> runs I (f <$> m) s (f a).
Proof. intros Hr. apply ensures_fmap. by apply (runs_ensures I _ _ a). Qed.
