(* ===== verification/Postgres.v ===== *)
(** * What the extension uses of PostgreSQL and of the C library

    The server code the extension calls is not part of the repository: it is a
    parameter of the development.  Each class below declares the operations the
    modelled code uses and, apart, the documented behaviour it relies on.  The
    instances at the end are concrete functions with that behaviour; only
    witnesses use them. *)
From S2P Require Import Prelude.

(** ** Item pointers (heap tuple identifiers, "CTIDs") *)

Record ItemPointerData := mkItemPointer { ip_blkid : Z; ip_posid : Z }.

#[global] Instance ItemPointerData_eq_dec : EqDecision ItemPointerData.
Proof. solve_decision. Defined.

#[global] Instance ItemPointerData_countable : Countable ItemPointerData :=
  inj_countable' (fun p => (ip_blkid p, ip_posid p))
    (fun q => mkItemPointer q.1 q.2) ltac:(by intros []).

(** Block numbers come first, then line pointers. *)
Definition ip_lt (a b : ItemPointerData) : Prop :=
  ip_blkid a < ip_blkid b \/
  (ip_blkid a = ip_blkid b /\ ip_posid a < ip_posid b).

Definition InvalidBlockNumber : Z := 4294967295.

Definition InvalidOid : Z := 0.
Definition OidIsValid (oid : Z) : bool := negb (oid =? InvalidOid).

Class ItemPointerOps := {
  ItemPointerCompare : ItemPointerData -> ItemPointerData -> Z;
  ItemPointerIsValid : ItemPointerData -> bool;
  ItemPointerInvalid : ItemPointerData; (** what [ItemPointerSetInvalid] stores *)
}.

Class ItemPointerLaws `{ItemPointerOps} : Prop := {
  ItemPointerCompare_lt a b : ItemPointerCompare a b < 0 <-> ip_lt a b;
  ItemPointerCompare_gt a b : 0 < ItemPointerCompare a b <-> ip_lt b a;
  ItemPointerInvalid_not_valid : ItemPointerIsValid ItemPointerInvalid = false;
}.

(** ** Sorting *)

(** A comparator is usable on the elements of [l] when it is total and
    transitive there (ties allowed: [qsort] is not stable). *)
Definition comparator_on {A} (cmp : A -> A -> Z) (l : list A) : Prop :=
  (forall a b, a ∈ l -> b ∈ l -> cmp a b <= 0 \/ cmp b a <= 0) /\
  (forall a b c, a ∈ l -> b ∈ l -> c ∈ l ->
     cmp a b <= 0 -> cmp b c <= 0 -> cmp a c <= 0).

Definition cmp_le {A} (cmp : A -> A -> Z) (a b : A) : Prop := cmp a b <= 0.

Class QSort := qsort : forall A : Type, (A -> A -> Z) -> list A -> list A.
Arguments qsort {_ A} cmp l.

Class QSortLaws `{QSort} : Prop := {
  qsort_perm A (cmp : A -> A -> Z) l : qsort cmp l ≡ₚ l;
  qsort_sorted A (cmp : A -> A -> Z) l :
    comparator_on cmp l -> StronglySorted (cmp_le cmp) (qsort cmp l);
}.

(** ** Hash tables (dynahash, dshash)

    A table is a finite map; a sequential scan meets every entry once, in an
    order the server does not specify. *)
Class HashSeq := hash_seq :
  forall (K V : Type) `{Countable K}, gmap K V -> list (K * V).
Arguments hash_seq {_ K V _ _} m.

Class HashSeqLaws `{HashSeq} : Prop :=
  hash_seq_perm (K V : Type) `{Countable K} (m : gmap K V) :
    hash_seq m ≡ₚ map_to_list m.

(** ** Facts that follow from the laws *)

Section ItemPointerFacts.
Context `{ItemPointerLaws}.

Lemma ip_lt_irrefl a : ~ ip_lt a a.
Proof. unfold ip_lt. lia. Qed.

Lemma ip_lt_trans a b c : ip_lt a b -> ip_lt b c -> ip_lt a c.
Proof. unfold ip_lt. lia. Qed.

Lemma ip_lt_total a b : ip_lt a b \/ a = b \/ ip_lt b a.
Proof.
  unfold ip_lt. destruct a as [ab ap], b as [bb bp]; simpl.
  destruct (Z.lt_trichotomy ab bb) as [?|[->|?]]; [lia| |lia].
  destruct (Z.lt_trichotomy ap bp) as [?|[->|?]]; [lia| |lia].
  auto.
Qed.

Lemma ItemPointerCompare_eq a b : ItemPointerCompare a b = 0 <-> a = b.
Proof.
  pose proof (ItemPointerCompare_lt a b). pose proof (ItemPointerCompare_gt a b).
  destruct (ip_lt_total a b) as [?|[->|?]].
  - assert (ItemPointerCompare a b < 0) by tauto.
    split; [lia|]. intros ->. by destruct (ip_lt_irrefl b).
  - pose proof (ip_lt_irrefl b). split; [done|]. intros _.
    destruct (Z.lt_trichotomy (ItemPointerCompare b b) 0) as [?|[?|?]]; tauto.
  - assert (0 < ItemPointerCompare a b) by tauto.
    split; [lia|]. intros ->. by destruct (ip_lt_irrefl b).
Qed.

Lemma ItemPointerCompare_le a b : ItemPointerCompare a b <= 0 <-> ~ ip_lt b a.
Proof. rewrite <- ItemPointerCompare_gt. lia. Qed.

Lemma ip_le_trans a b c : ~ ip_lt b a -> ~ ip_lt c b -> ~ ip_lt c a.
Proof. unfold ip_lt. lia. Qed.

Lemma ItemPointerCompare_comparator l : comparator_on ItemPointerCompare l.
Proof.
  split.
  - intros a b _ _. rewrite !ItemPointerCompare_le. unfold ip_lt. lia.
  - intros a b c _ _ _. rewrite !ItemPointerCompare_le. apply ip_le_trans.
Qed.
End ItemPointerFacts.

(** The entries of a [TSVector]: a lexeme and, if it has positions, their number. *)
Abbreviation TSVector := (list (list byte * option Z)).

(** ** C strings

    A [char *] is the list of its bytes; a NUL ends it. *)
Fixpoint c_str (s : list byte) : list byte :=
  match s with
  | [] => []
  | b :: s' => if Byte.eqb b x00 then [] else b :: c_str s'
  end.

Fixpoint bytes_compare (a b : list byte) : Z :=
  match a, b with
  | [], [] => 0
  | [], _ :: _ => -1
  | _ :: _, [] => 1
  | x :: a', y :: b' =>
      if Z_of_byte x =? Z_of_byte y then bytes_compare a' b'
      else if Z_of_byte x <? Z_of_byte y then -1 else 1
  end.

Definition strcmp (a b : list byte) : Z := bytes_compare (c_str a) (c_str b).
Definition strlen (a : list byte) : Z := zlen (c_str a).

Lemma Z_of_byte_inj x y : Z_of_byte x = Z_of_byte y -> x = y.
Proof.
  intros E. rewrite <- (byte_of_Z_of_byte x), E. apply byte_of_Z_of_byte.
Qed.

Lemma bytes_compare_eq a b : bytes_compare a b = 0 <-> a = b.
Proof.
  revert b. induction a as [|x a IH]; intros [|y b]; simpl; try (split; [lia|congruence]); [done|].
  destruct (Z.eqb_spec (Z_of_byte x) (Z_of_byte y)) as [E|N].
  - rewrite IH. apply Z_of_byte_inj in E. split; congruence.
  - destruct (Z.ltb_spec (Z_of_byte x) (Z_of_byte y)); split; intros; simplify_eq; lia.
Qed.

Lemma bytes_compare_opp a b : bytes_compare a b = - bytes_compare b a.
Proof.
  revert b. induction a as [|x a IH]; intros [|y b]; simpl; try lia.
  rewrite (Z.eqb_sym (Z_of_byte y)).
  destruct (Z.eqb_spec (Z_of_byte x) (Z_of_byte y)); [apply IH|].
  destruct (Z.ltb_spec (Z_of_byte x) (Z_of_byte y)),
    (Z.ltb_spec (Z_of_byte y) (Z_of_byte x)); lia.
Qed.

Lemma bytes_compare_lt_trans a b c :
  bytes_compare a b < 0 -> bytes_compare b c < 0 -> bytes_compare a c < 0.
Proof.
  revert b c. induction a as [|x a IH]; intros [|y b] [|z c]; simpl; try lia.
  repeat case_match; rewrite ?Z.eqb_eq, ?Z.eqb_neq, ?Z.ltb_lt, ?Z.ltb_ge in *; try lia.
  eauto.
Qed.

Lemma bytes_compare_le_trans a b c :
  bytes_compare a b <= 0 -> bytes_compare b c <= 0 -> bytes_compare a c <= 0.
Proof.
  intros Hab Hbc.
  destruct (Z.eq_dec (bytes_compare a b) 0) as [->%bytes_compare_eq|]; [done|].
  destruct (Z.eq_dec (bytes_compare b c) 0) as [E%bytes_compare_eq|]; [by subst|].
  apply Z.lt_le_incl, (bytes_compare_lt_trans a b c); lia.
Qed.

(** The order of terms. *)
Definition term_lt (a b : list byte) : Prop := bytes_compare a b < 0.

Lemma term_lt_irrefl t : ~ term_lt t t.
Proof. unfold term_lt. by rewrite (proj2 (bytes_compare_eq _ _) eq_refl). Qed.

Lemma c_str_no_nul s : x00 ∉ c_str s.
Proof.
  induction s as [|b s IH]; simpl; [apply not_elem_of_nil|].
  destruct (Byte.eqb b x00) eqn:E; [apply not_elem_of_nil|].
  apply not_elem_of_cons. split; [|done]. intros <-. done.
Qed.

Lemma c_str_id s : x00 ∉ s -> c_str s = s.
Proof.
  induction s as [|b s IH]; intros Hs; [done|]. simpl.
  apply not_elem_of_cons in Hs as [Hb Hs]. rewrite IH by done.
  destruct (Byte.eqb b x00) eqn:E; [|done].
  by apply Byte.byte_dec_bl in E as ->.
Qed.

Lemma c_str_terminated t : x00 ∉ t -> c_str (t ++ [x00]) = t.
Proof.
  induction t as [|b t IH]; intros Ht; [done|]. simpl.
  apply not_elem_of_cons in Ht as [Hb Ht]. rewrite IH by done.
  destruct (Byte.eqb b x00) eqn:E; [|done]. by apply Byte.byte_dec_bl in E as ->.
Qed.

Lemma c_str_app s : x00 ∉ s -> forall rest, c_str (s ++ x00 :: rest) = s.
Proof.
  intros Hs rest. induction s as [|b s IH]; [done|]. simpl.
  apply not_elem_of_cons in Hs as [Hb Hs]. rewrite IH by done.
  destruct (Byte.eqb b x00) eqn:E; [|done]. by apply Byte.byte_dec_bl in E as ->.
Qed.

(** ** Concrete instances, for the witnesses *)

#[global] Instance ItemPointerOps_concrete : ItemPointerOps := {|
  ItemPointerCompare a b :=
    if ip_blkid a <? ip_blkid b then -1
    else if ip_blkid b <? ip_blkid a then 1
    else if ip_posid a <? ip_posid b then -1
    else if ip_posid b <? ip_posid a then 1 else 0;
  ItemPointerIsValid a := negb (ip_posid a =? 0);
  ItemPointerInvalid := mkItemPointer InvalidBlockNumber 0;
|}.

#[global] Instance ItemPointerLaws_concrete : ItemPointerLaws.
Proof.
  split; [..|done]; intros a b; unfold ip_lt; simpl;
    repeat case_match; rewrite ?Z.ltb_lt, ?Z.ltb_ge in *; lia.
Qed.

Fixpoint insert_by {A} (cmp : A -> A -> Z) (x : A) (l : list A) : list A :=
  match l with
  | [] => [x]
  | y :: l' => if cmp x y <=? 0 then x :: y :: l' else y :: insert_by cmp x l'
  end.

#[global] Instance QSort_concrete : QSort :=
  fun A cmp l => foldr (insert_by cmp) [] l.

Lemma insert_by_perm {A} (cmp : A -> A -> Z) x l : insert_by cmp x l ≡ₚ x :: l.
Proof.
  induction l as [|y l IH]; simpl; [done|]. case_match; [done|].
  rewrite IH. apply Permutation_swap.
Qed.

Lemma insert_by_sorted {A} (cmp : A -> A -> Z) x l :
  comparator_on cmp (x :: l) -> StronglySorted (cmp_le cmp) l ->
  StronglySorted (cmp_le cmp) (insert_by cmp x l).
Proof.
  intros [Htot Htr] Hs. induction Hs as [|y l Hs IH Hy]; simpl.
  { by repeat constructor. }
  destruct (Z.leb_spec (cmp x y) 0) as [Hle|Hgt].
  - constructor; [by constructor|]. constructor; [done|].
    rewrite Forall_forall in *. intros z Hz. unfold cmp_le.
    eapply (Htr _ y); [set_solver..|done|]. apply Hy, Hz.
  - constructor.
    + apply IH; intros; [eapply Htot|eapply Htr]; set_solver.
    + rewrite insert_by_perm. constructor; [|done].
      destruct (Htot x y); [set_solver..| lia|done].
Qed.

#[global] Instance QSortLaws_concrete : QSortLaws.
Proof.
  assert (Hp : forall A (cmp : A -> A -> Z) l, foldr (insert_by cmp) [] l ≡ₚ l).
  { intros A cmp l. induction l as [|x l IH]; simpl; [done|].
    by rewrite insert_by_perm, IH. }
  split; [apply Hp|].
  intros A cmp l Hc. unfold qsort, QSort_concrete.
  induction l as [|x l IH]; simpl; [constructor|].
  apply insert_by_sorted.
  - destruct Hc as [Htot Htr]. pose proof (Hp _ cmp l) as P.
    split; intros *; rewrite !elem_of_cons, ?P, <- ?elem_of_cons;
      [apply Htot|apply Htr].
  - apply IH. destruct Hc as [Htot Htr].
    split; intros; [eapply Htot|eapply Htr]; set_solver.
Qed.

#[global] Instance HashSeq_concrete : HashSeq :=
  fun K V _ _ m => map_to_list m.

#[global] Instance HashSeqLaws_concrete : HashSeqLaws.
Proof. intros K V ?? m. done. Qed.
