(* ===== verification/Float4.v ===== *)
(** * Single and double precision arithmetic, as the scoring code uses it

    [float4] is C [float] (Rust [f32]) and [float8] is C [double]: IEEE 754
    numbers with round-to-nearest operations, computed by the Standard Library's
    [SpecFloat].  The comparisons are shown to be a strict weak order as soon as
    no operand is a NaN, which is what the heap and the sorts need.  Models
    [rust/src/scoring.rs], which [src/query/bmw.c] and [src/query/score.c] call. *)
From S2P Require Import Prelude.
From Stdlib Require Import SpecFloat.

Abbreviation float4 := spec_float.
Abbreviation float8 := spec_float.

Definition f4_add : float4 -> float4 -> float4 := SFadd 24 128.
Definition f4_sub : float4 -> float4 -> float4 := SFsub 24 128.
Definition f4_mul : float4 -> float4 -> float4 := SFmul 24 128.
Definition f4_div : float4 -> float4 -> float4 := SFdiv 24 128.
Definition f8_add : float8 -> float8 -> float8 := SFadd 53 1024.
Definition f8_sub : float8 -> float8 -> float8 := SFsub 53 1024.
Definition f8_mul : float8 -> float8 -> float8 := SFmul 53 1024.
Definition f8_div : float8 -> float8 -> float8 := SFdiv 53 1024.

(** Conversions from integers, and between the two formats. *)
Definition f4_of_Z (z : Z) : float4 := binary_normalize 24 128 z 0 false.
Definition f8_of_Z (z : Z) : float8 := binary_normalize 53 1024 z 0 false.

Definition f8_of_f4 (x : float4) : float8 :=
  match x with
  | S754_finite s m e =>
      binary_normalize 53 1024 (if s then Zneg m else Zpos m) e s
  | _ => x
  end.

Definition f4_of_f8 (x : float8) : float4 :=
  match x with
  | S754_finite s m e =>
      binary_normalize 24 128 (if s then Zneg m else Zpos m) e s
  | _ => x
  end.

(** C's [a < b], [a > b], [a == b] on floats. *)
Definition f4_lt (a b : float4) : bool := SFltb a b.
Definition f4_gt (a b : float4) : bool := f4_lt b a.
Definition f4_eq (a b : float4) : bool := SFeqb a b.
Definition f4_le (a b : float4) : bool := SFleb a b.

Definition is_nan (x : float4) : bool :=
  match x with S754_nan => true | _ => false end.

(** ** BM25 (rust/src/scoring.rs) *)

Definition f4_one : float4 := f4_of_Z 1.

(** [bm25_score] *)
Definition bm25_score (idf : float4) (tf dl : Z) (k1 b avgdl : float4) : float4 :=
  let tf_f := f4_of_Z tf in
  let dl_f := f4_of_Z dl in
  let len_norm := f4_add (f4_sub f4_one b) (f4_mul b (f4_div dl_f avgdl)) in
  let tf_component :=
    f4_div (f4_mul tf_f (f4_add k1 f4_one)) (f4_add tf_f (f4_mul k1 len_norm)) in
  f4_mul idf tf_component.

(** [calculate_idf]: the logarithm is the C library's. *)
Definition calculate_idf (ln : float8 -> float8) (doc_freq total_docs : Z) : float4 :=
  let half := f8_div (f8_of_Z 1) (f8_of_Z 2) in
  let numerator := f8_add (f8_of_Z (total_docs - doc_freq)) half in
  let denominator := f8_add (f8_of_Z doc_freq) half in
  let ratio := f8_div numerator denominator in
  f4_of_f8 (ln (f8_add (f8_of_Z 1) ratio)).

(** ** The order of the comparisons

    A float is ranked by sign, exponent and mantissa; ranks are compared
    lexicographically. *)

Definition rank (x : float4) : Z * Z * Z :=
  match x with
  | S754_nan => (0, 0, 0)
  | S754_zero _ => (0, 0, 0)
  | S754_infinity false => (2, 0, 0)
  | S754_infinity true => (-2, 0, 0)
  | S754_finite false m e => (1, e, Zpos m)
  | S754_finite true m e => (-1, - e, Zneg m)
  end.

Definition rank_lt (p q : Z * Z * Z) : Prop :=
  p.1.1 < q.1.1 \/
  (p.1.1 = q.1.1 /\ (p.1.2 < q.1.2 \/ (p.1.2 = q.1.2 /\ p.2 < q.2))).

Lemma f4_lt_rank a b :
  is_nan a = false -> is_nan b = false ->
  f4_lt a b = true <-> rank_lt (rank a) (rank b).
Proof.
  intros Ha Hb. unfold f4_lt, SFltb, rank_lt.
  destruct a as [sa|[]| |[] ma ea], b as [sb|[]| |[] mb eb]; try done;
    cbn [SFcompare rank fst snd]; try (split; [done|lia]); try (split; [lia|done]).
  - destruct (Z.compare_spec ea eb); [|split; [done|lia]|split; [lia|done]].
    change (Pos.compare_cont Eq ma mb) with (Pos.compare ma mb).
    destruct (Pos.compare_spec ma mb); cbn; split; intros; (done || lia).
  - destruct (Z.compare_spec ea eb); [|split; [lia|done]|split; [done|lia]].
    change (Pos.compare_cont Eq ma mb) with (Pos.compare ma mb).
    destruct (Pos.compare_spec ma mb); cbn; split; intros; (done || lia).
Qed.

Section Order.
Implicit Types a b c : float4.

Lemma f4_lt_nan_l a : f4_lt S754_nan a = false.
Proof. done. Qed.
Lemma f4_lt_nan_r a : f4_lt a S754_nan = false.
Proof. by destruct a. Qed.

Lemma f4_lt_irrefl a : f4_lt a a = false.
Proof.
  destruct (is_nan a) eqn:Ha; [by destruct a|].
  apply not_true_iff_false. rewrite f4_lt_rank by done. unfold rank_lt. lia.
Qed.

Lemma f4_lt_trans a b c : f4_lt a b = true -> f4_lt b c = true -> f4_lt a c = true.
Proof.
  destruct (is_nan a) eqn:Ha; [by destruct a|].
  destruct (is_nan b) eqn:Hb; [destruct b; try done; by rewrite f4_lt_nan_r|].
  destruct (is_nan c) eqn:Hc; [destruct c; try done; by rewrite (f4_lt_nan_r b)|].
  rewrite !f4_lt_rank by done. unfold rank_lt. lia.
Qed.

Lemma f4_lt_asym a b : f4_lt a b = true -> f4_lt b a = false.
Proof.
  intros Hab. apply not_true_iff_false. intros Hba.
  pose proof (f4_lt_trans _ _ _ Hab Hba) as H. by rewrite f4_lt_irrefl in H.
Qed.

(** [a <= b] in the order of scores: [b] is not below [a]. *)
Lemma f4_ge_trans a b c :
  is_nan a = false -> is_nan b = false -> is_nan c = false ->
  f4_lt b a = false -> f4_lt c b = false -> f4_lt c a = false.
Proof.
  intros Ha Hb Hc Hba Hcb. rewrite <- not_true_iff_false in Hba, Hcb |- *.
  rewrite f4_lt_rank in Hba, Hcb |- * by done. unfold rank_lt in *. lia.
Qed.

Lemma f4_lt_total a b :
  is_nan a = false -> is_nan b = false ->
  f4_lt a b = false -> f4_lt b a = false -> f4_eq a b = true.
Proof.
  intros Ha Hb. unfold f4_lt, f4_eq, SFltb, SFeqb.
  destruct a as [sa|[]| |[] ma ea], b as [sb|[]| |[] mb eb]; try done; cbn;
    destruct (Z.compare_spec ea eb), (Z.compare_spec eb ea); try lia; try done;
    change (Pos.compare_cont Eq ma mb) with (Pos.compare ma mb);
    change (Pos.compare_cont Eq mb ma) with (Pos.compare mb ma);
    rewrite (Pos.compare_antisym ma mb); destruct (Pos.compare ma mb); done.
Qed.

Lemma f4_lt_ge_trans a b c :
  is_nan a = false -> is_nan c = false ->
  f4_lt a b = true -> f4_lt c b = false -> f4_lt a c = true.
Proof.
  intros Ha Hc Hab Hcb.
  destruct (is_nan b) eqn:Hb; [destruct b; try done; by rewrite f4_lt_nan_r in Hab|].
  rewrite <- not_true_iff_false in Hcb.
  rewrite f4_lt_rank in Hab, Hcb |- * by done. unfold rank_lt in *. lia.
Qed.

Lemma f4_ge_lt_trans a b c :
  is_nan a = false -> f4_lt b a = false -> f4_lt b c = true -> f4_lt a c = true.
Proof.
  intros Ha Hba Hbc.
  destruct (is_nan b) eqn:Hb; [by destruct b|].
  destruct (is_nan c) eqn:Hc; [destruct c; try done; by rewrite f4_lt_nan_r in Hbc|].
  rewrite <- not_true_iff_false in Hba.
  rewrite f4_lt_rank in Hba, Hbc |- * by done. unfold rank_lt in *. lia.
Qed.
End Order.

Example idf_is_half_way :
  f4_lt (bm25_score f4_one 1 10 f4_one f4_one (f4_of_Z 10))
        (bm25_score f4_one 2 10 f4_one f4_one (f4_of_Z 10)) = true.
Proof. vm_compute. reflexivity. Qed.
