(* ===== verification/Fieldnorm.v ===== *)
(** * Quantised document lengths (rust/src/fieldnorm.rs, src/segment/fieldnorm.h)

    A document length is stored in one byte, the index of the largest entry of
    [FIELDNORM_DECODE_TABLE] that does not exceed it, found by binary search.
    The search is correct for every 32-bit length, decoding then encoding is the
    identity, and the quantisation error is bounded. *)
From S2P Require Import Prelude.

Definition FIELDNORM_DECODE_TABLE : list Z :=
  [
   0; 1; 2; 3; 4; 5; 6; 7;
   8; 9; 10; 11; 12; 13; 14; 15;
   16; 17; 18; 19; 20; 21; 22; 23;
   24; 25; 26; 27; 28; 29; 30; 31;
   32; 33; 34; 35; 36; 37; 38; 39;
   40; 42; 44; 46; 48; 50; 52; 54;
   56; 60; 64; 68; 72; 76; 80; 84;
   88; 96; 104; 112; 120; 128; 136; 144;
   152; 168; 184; 200; 216; 232; 248; 264;
   280; 312; 344; 376; 408; 440; 472; 504;
   536; 600; 664; 728; 792; 856; 920; 984;
   1048; 1176; 1304; 1432; 1560; 1688; 1816; 1944;
   2072; 2328; 2584; 2840; 3096; 3352; 3608; 3864;
   4120; 4632; 5144; 5656; 6168; 6680; 7192; 7704;
   8216; 9240; 10264; 11288; 12312; 13336; 14360; 15384;
   16408; 18456; 20504; 22552; 24600; 26648; 28696; 30744;
   32792; 36888; 40984; 45080; 49176; 53272; 57368; 61464;
   65560; 73752; 81944; 90136; 98328; 106520; 114712; 122904;
   131096; 147480; 163864; 180248; 196632; 213016; 229400; 245784;
   262168; 294936; 327704; 360472; 393240; 426008; 458776; 491544;
   524312; 589848; 655384; 720920; 786456; 851992; 917528; 983064;
   1048600; 1179672; 1310744; 1441816; 1572888; 1703960; 1835032; 1966104;
   2097176; 2359320; 2621464; 2883608; 3145752; 3407896; 3670040; 3932184;
   4194328; 4718616; 5242904; 5767192; 6291480; 6815768; 7340056; 7864344;
   8388632; 9437208; 10485784; 11534360; 12582936; 13631512; 14680088; 15728664;
   16777240; 18874392; 20971544; 23068696; 25165848; 27263000; 29360152; 31457304;
   33554456; 37748760; 41943064; 46137368; 50331672; 54525976; 58720280; 62914584;
   67108888; 75497496; 83886104; 92274712; 100663320; 109051928; 117440536; 125829144;
   134217752; 150994968; 167772184; 184549400; 201326616; 218103832; 234881048; 251658264;
   268435480; 301989912; 335544344; 369098776; 402653208; 436207640; 469762072; 503316504;
   536870936; 603979800; 671088664; 738197528; 805306392; 872415256; 939524120; 1006632984;
   1073741848; 1207959576; 1342177304; 1476395032; 1610612760; 1744830488; 1879048216; 2013265944].

(** Decoding indexes the 256 entries with a byte. *)
Definition decode_fieldnorm (norm_id : Z) : Z :=
  default 0 (zget FIELDNORM_DECODE_TABLE norm_id).

(** [while lo < hi]: the interval at least halves, so 8 rounds close [0, 255]. *)
Fixpoint encode_loop (fuel : nat) (lo hi length : Z) : Z :=
  match fuel with
  | O => lo
  | S fuel' =>
      if lo <? hi then
        let mid := lo + (hi - lo + 1) / 2 in
        if decode_fieldnorm mid <=? length
        then encode_loop fuel' mid hi length
        else encode_loop fuel' lo (mid - 1) length
      else lo
  end.

Definition encode_fieldnorm (length : Z) : Z := u8 (encode_loop 8 0 255 length).

(** ** The table is increasing *)

Definition table_step_ok (i : nat) : bool :=
  decode_fieldnorm (Z.of_nat i) <? decode_fieldnorm (Z.of_nat i + 1).

Lemma decode_step i : 0 <= i < 255 -> decode_fieldnorm i < decode_fieldnorm (i + 1).
Proof.
  intros Hi.
  assert (H : forallb table_step_ok (seq 0 255) = true) by (vm_compute; reflexivity).
  rewrite forallb_forall in H. specialize (H (Z.to_nat i)). unfold table_step_ok in H.
  rewrite Z2Nat.id in H by lia. apply Z.ltb_lt, H, in_seq. lia.
Qed.

Lemma decode_mono i j : 0 <= i -> i <= j -> j <= 255 ->
  decode_fieldnorm i <= decode_fieldnorm j.
Proof.
  intros Hi Hij Hj. replace j with (i + Z.of_nat (Z.to_nat (j - i))) in * by lia.
  induction (Z.to_nat (j - i)) as [|n IH]; [by rewrite Z.add_0_r|].
  pose proof (decode_step (i + Z.of_nat n) ltac:(lia)).
  replace (i + Z.of_nat (S n)) with (i + Z.of_nat n + 1) in * by lia. lia.
Qed.

Lemma decode_strict_mono i j : 0 <= i -> i < j -> j <= 255 ->
  decode_fieldnorm i < decode_fieldnorm j.
Proof.
  intros Hi Hij Hj. pose proof (decode_step i ltac:(lia)).
  pose proof (decode_mono (i + 1) j ltac:(lia) ltac:(lia) ltac:(lia)). lia.
Qed.

(** The search keeps [decode lo <= length < decode (hi + 1)]. *)
Lemma encode_loop_spec fuel lo hi len :
  0 <= lo -> lo <= hi -> hi <= 255 -> hi - lo < 2 ^ Z.of_nat fuel ->
  decode_fieldnorm lo <= len -> (hi < 255 -> len < decode_fieldnorm (hi + 1)) ->
  let r := encode_loop fuel lo hi len in
  lo <= r <= hi /\ decode_fieldnorm r <= len /\ (r < 255 -> len < decode_fieldnorm (r + 1)).
Proof.
  revert lo hi. induction fuel as [|fuel IH]; intros lo hi H0 Hlh Hhi Hf Hlo Hnext; simpl.
  - simpl in Hf. assert (lo = hi) as -> by lia. auto with lia.
  - rewrite Nat2Z.inj_succ, Z.pow_succ_r in Hf by lia.
    destruct (Z.ltb_spec lo hi) as [L|L]; cycle 1.
    { assert (lo = hi) as -> by lia. auto with lia. }
    set (mid := lo + (hi - lo + 1) / 2).
    assert (lo < mid <= hi) by (unfold mid; lia).
    destruct (Z.leb_spec (decode_fieldnorm mid) len) as [D|D].
    + destruct (IH mid hi) as (R & Hr); [lia..|done|done|]. split; [lia|done].
    + destruct (IH lo (mid - 1)) as (R & Hr); [lia..|done| |split; [lia|done]].
      intros _. by rewrite Z.sub_add.
Qed.

Lemma encode_spec len : 0 <= len ->
  let r := encode_fieldnorm len in
  0 <= r <= 255 /\ decode_fieldnorm r <= len /\ (r < 255 -> len < decode_fieldnorm (r + 1)).
Proof.
  intros Hl. unfold encode_fieldnorm.
  destruct (encode_loop_spec 8 0 255 len) as (R & ? & ?); try done; try lia.
  rewrite wrap_small by lia. auto.
Qed.

Lemma encode_range len : 0 <= len -> 0 <= encode_fieldnorm len <= 255.
Proof. intros Hl. by apply encode_spec. Qed.

(** C3: the binary search finds the largest table entry not above the length:
    for every 32-bit length the byte is in range, decodes to at most the length,
    and the next entry is larger; it follows that encoding is monotone. *)
Theorem encode_fieldnorm_correct (len : Z) :
  0 <= len <= UINT32_MAX ->
  (0 <= encode_fieldnorm len <= 255 /\
   decode_fieldnorm (encode_fieldnorm len) <= len /\
   forall i, 0 <= i <= 255 -> decode_fieldnorm i <= len -> i <= encode_fieldnorm len) /\
  forall len', len <= len' -> encode_fieldnorm len <= encode_fieldnorm len'.
Proof.
  intros Hl. destruct (encode_spec len ltac:(lia)) as (R & Hle & Hnext).
  assert (Hmax : forall x i, 0 <= x -> 0 <= i <= 255 -> decode_fieldnorm i <= x ->
                   i <= encode_fieldnorm x).
  { intros x i Hx Hi Hd. destruct (encode_spec x Hx) as (Rx & _ & Hnx).
    destruct (Z.le_gt_cases i (encode_fieldnorm x)) as [|G]; [done|].
    pose proof (decode_mono (encode_fieldnorm x + 1) i ltac:(lia) ltac:(lia) ltac:(lia)).
    pose proof (Hnx ltac:(lia)). lia. }
  split; [split; [done|split; [done|]]|].
  - intros i Hi Hd. apply Hmax; [lia..|done].
  - intros len' Hlen'. apply Hmax; lia.
Qed.

Lemma encode_decode b : 0 <= b <= 255 -> encode_fieldnorm (decode_fieldnorm b) = b.
Proof.
  intros Hb. assert (0 <= decode_fieldnorm b).
  { etransitivity; [|apply (decode_mono 0 b); lia]. done. }
  destruct (encode_spec (decode_fieldnorm b)) as (R & Hle & Hnext); [done|].
  set (r := encode_fieldnorm _) in *.
  destruct (Z.lt_trichotomy r b) as [L|[E|G]]; [|done|].
  - pose proof (decode_mono (r + 1) b ltac:(lia) ltac:(lia) ltac:(lia)).
    specialize (Hnext ltac:(lia)). lia.
  - pose proof (decode_strict_mono b r ltac:(lia) ltac:(lia) ltac:(lia)). lia.
Qed.

(** Encoding is the inverse of decoding on the 256 bytes, so a stored
    length survives being decoded and encoded again (as a merge does), and
    lengths up to 39 are stored exactly. *)
Theorem fieldnorm_roundtrip (b : Z) :
  0 <= b <= 255 ->
  encode_fieldnorm (decode_fieldnorm b) = b /\ (b <= 39 -> decode_fieldnorm b = b).
Proof.
  intros Hb. split; [by apply encode_decode|].
  intros H39.
  assert (H : forallb (fun i => decode_fieldnorm (Z.of_nat i) =? Z.of_nat i) (seq 0 40) = true)
    by (vm_compute; reflexivity).
  rewrite forallb_forall in H. specialize (H (Z.to_nat b)).
  rewrite Z2Nat.id in H by lia. apply Z.eqb_eq, H, in_seq. lia.
Qed.

Definition gap_ok (i : nat) : bool :=
  9 * (decode_fieldnorm (Z.of_nat i + 1) - 1 - decode_fieldnorm (Z.of_nat i))
    <=? decode_fieldnorm (Z.of_nat i + 1) - 1.

(** Below the last entry, a stored length is low by at most one ninth; the
    bound is reached up to rounding, so the documented error of about 6% does
    not hold: the length 18874391 is stored as 16777240, 11.1% less. *)
Theorem fieldnorm_error_bound (len : Z) :
  0 <= len < decode_fieldnorm 255 ->
  9 * (len - decode_fieldnorm (encode_fieldnorm len)) <= len /\
  decode_fieldnorm (encode_fieldnorm 18874391) = 16777240 /\
  100 * (18874391 - 16777240) > 11 * 18874391.
Proof.
  intros Hl. split; [|split; [by vm_compute|lia]].
  destruct (encode_spec len ltac:(lia)) as (R & Hle & Hnext).
  set (r := encode_fieldnorm len) in *.
  assert (r < 255) by (destruct (Z.eq_dec r 255) as [E|]; [rewrite E in Hle; lia|lia]).
  specialize (Hnext ltac:(lia)).
  assert (H' : forallb gap_ok (seq 0 255) = true) by (vm_compute; reflexivity).
  rewrite forallb_forall in H'. specialize (H' (Z.to_nat r)). unfold gap_ok in H'.
  rewrite Z2Nat.id in H' by lia.
  assert (In (Z.to_nat r) (seq 0 255)) as Hin by (apply in_seq; lia).
  apply H', Z.leb_le in Hin. lia.
Qed.

(** ** Witnesses *)

Lemma encode_fieldnorm_correct_witness : encode_fieldnorm 100 <= encode_fieldnorm 1000.
Proof. apply (encode_fieldnorm_correct 100); unfold UINT32_MAX; lia. Defined.

Lemma fieldnorm_roundtrip_witness : encode_fieldnorm (decode_fieldnorm 77) = 77.
Proof. apply (fieldnorm_roundtrip 77). lia. Defined.

Lemma fieldnorm_error_bound_witness :
  9 * (1000000 - decode_fieldnorm (encode_fieldnorm 1000000)) <= 1000000.
Proof.
  apply (fieldnorm_error_bound 1000000).
  change (decode_fieldnorm 255) with 2013265944. lia.
Defined.
