(* ===== verification/TopK.v ===== *)
(** * The top-k heap (src/query/bmw.c, src/query/bmw.h)

    [TpTopKHeap] keeps the best [k] results seen so far in a binary min-heap.
    The C structure holds four parallel arrays which are always swapped and
    written together; here an entry is the record of their values at one index,
    and [entries] is the used prefix of the arrays ([heap->size] is its length).

    Main results: sifting restores the heap order; a sequence of additions keeps
    exactly the [k] best candidates, for the order on scores whatever mixture of
    memtable and segment results is added, and for the order on (score, CTID)
    when every candidate has its CTID; extraction is sorted. *)
From S2P Require Import Prelude Postgres Float4.

Record HeapEntry := mkHeapEntry {
  he_ctid : ItemPointerData;
  he_seg_block : Z;
  he_doc_id : Z;
  he_score : float4;
}.

Record TpTopKHeap := mkTpTopKHeap {
  entries : list HeapEntry;
  capacity : nat;
}.

Section TopK.
Context `{ItemPointerOps} `{QSort}.
Local Open Scope nat_scope.

Definition tp_topk_init (k : nat) : TpTopKHeap := mkTpTopKHeap [] k.

Definition heap_size (h : TpTopKHeap) : nat := length (entries h).

(** The arrays are released: no entry, no capacity. *)
Definition tp_topk_free (h : TpTopKHeap) : TpTopKHeap := mkTpTopKHeap [] 0.

Definition heap_swap (l : list HeapEntry) (i j : nat) : list HeapEntry :=
  match l !! i, l !! j with
  | Some tmp, Some ej => <[j := tmp]> (<[i := ej]> l)
  | _, _ => l
  end.

(** [heap_less] on the entries at two positions. *)
Definition entry_less (a b : HeapEntry) : bool :=
  if f4_lt (he_score a) (he_score b) then true
  else if f4_gt (he_score a) (he_score b) then false
  else if ItemPointerIsValid (he_ctid a) && ItemPointerIsValid (he_ctid b) then
    Z.ltb 0 (ItemPointerCompare (he_ctid a) (he_ctid b))
  else if negb (Z.eqb (he_doc_id a) (he_doc_id b)) then
    Z.ltb (he_doc_id b) (he_doc_id a)
  else Z.ltb (he_seg_block b) (he_seg_block a).

Definition heap_less (l : list HeapEntry) (i j : nat) : bool :=
  match l !! i, l !! j with
  | Some a, Some b => entry_less a b
  | _, _ => false
  end.

Definition parent (i : nat) : nat := (i - 1) / 2.

(** [while (i > 0)]: the index at least halves, so [i] rounds are enough. *)
Fixpoint sift_up_loop (fuel : nat) (l : list HeapEntry) (i : nat) : list HeapEntry :=
  match fuel with
  | O => l
  | S fuel' =>
      if i =? 0 then l
      else if negb (heap_less l i (parent i)) then l
      else sift_up_loop fuel' (heap_swap l i (parent i)) (parent i)
  end.

Definition heap_sift_up (l : list HeapEntry) (i : nat) : list HeapEntry :=
  sift_up_loop i l i.

(** The child to swap with, or [i] itself. *)
Definition smallest_of (l : list HeapEntry) (i : nat) : nat :=
  let left := 2 * i + 1 in
  let right := 2 * i + 2 in
  let smallest := if (left <? length l) && heap_less l left i then left else i in
  if (right <? length l) && heap_less l right smallest then right else smallest.

(** [while (true)]: the index grows and stays below the size. *)
Fixpoint sift_down_loop (fuel : nat) (l : list HeapEntry) (i : nat) : list HeapEntry :=
  match fuel with
  | O => l
  | S fuel' =>
      let smallest := smallest_of l i in
      if smallest =? i then l
      else sift_down_loop fuel' (heap_swap l i smallest) smallest
  end.

Definition heap_sift_down (l : list HeapEntry) (i : nat) : list HeapEntry :=
  sift_down_loop (length l) l i.

(** [heap_beats_root]; [ctid] is [None] for C's NULL.  The root exists: the
    heap is full and [max_results > 0] (checked by [tp_score_documents]). *)
Definition entry_beats (root : HeapEntry) (score : float4)
    (ctid : option ItemPointerData) (doc_id : Z) : bool :=
  if f4_gt score (he_score root) then true
  else if f4_lt score (he_score root) then false
  else
    match ctid with
    | Some c =>
        if ItemPointerIsValid c && ItemPointerIsValid (he_ctid root)
        then Z.ltb (ItemPointerCompare c (he_ctid root)) 0
        else false
    | None =>
        if negb (ItemPointerIsValid (he_ctid root))
        then Z.ltb doc_id (he_doc_id root)
        else false
    end.

Definition heap_beats_root (h : TpTopKHeap) (score : float4)
    (ctid : option ItemPointerData) (doc_id : Z) : bool :=
  match entries h !! 0 with
  | Some root => entry_beats root score ctid doc_id
  | None => false
  end.

(** The common shape of the two [tp_topk_add_*] functions. *)
Definition heap_push (h : TpTopKHeap) (e : HeapEntry) : TpTopKHeap :=
  mkTpTopKHeap (heap_sift_up (entries h ++ [e]) (heap_size h)) (capacity h).

Definition heap_replace_root (h : TpTopKHeap) (e : HeapEntry) : TpTopKHeap :=
  mkTpTopKHeap (heap_sift_down (<[0 := e]> (entries h)) 0) (capacity h).

Definition tp_topk_add_memtable (h : TpTopKHeap) (ctid : ItemPointerData)
    (score : float4) : TpTopKHeap :=
  let e := mkHeapEntry ctid InvalidBlockNumber 0 score in
  if heap_size h <? capacity h then heap_push h e
  else if heap_beats_root h score (Some ctid) 0 then heap_replace_root h e
  else h.

Definition tp_topk_add_segment (h : TpTopKHeap) (seg_block doc_id : Z)
    (score : float4) : TpTopKHeap :=
  let e := mkHeapEntry ItemPointerInvalid seg_block doc_id score in
  if heap_size h <? capacity h then heap_push h e
  else if heap_beats_root h score None doc_id then heap_replace_root h e
  else h.

(** [tp_topk_threshold], [tp_topk_dominated] (bmw.h) *)
Definition tp_topk_threshold (h : TpTopKHeap) : float4 :=
  if capacity h <=? heap_size h then
    match entries h !! 0 with Some e => he_score e | None => f4_of_Z 0 end
  else f4_of_Z 0.

Definition tp_topk_dominated (h : TpTopKHeap) (score : float4) : bool :=
  (capacity h <=? heap_size h) &&
  match entries h !! 0 with Some e => f4_lt score (he_score e) | None => false end.

(** [tp_topk_resolve_ctids]: [open_ex] opens a segment and looks CTIDs up. *)
Section Resolve.
Context (open_ex : Z -> option (Z -> ItemPointerData)).

Definition resolve_from (seg : Z) (lookup : Z -> ItemPointerData) (i : nat)
    (l : list HeapEntry) : list HeapEntry :=
  imap (fun j e =>
    if (i <=? j) && Z.eqb (he_seg_block e) seg then
      mkHeapEntry (lookup (he_doc_id e)) InvalidBlockNumber (he_doc_id e) (he_score e)
    else e) l.

Definition resolve_step (l : list HeapEntry) (i : nat) : list HeapEntry :=
  match l !! i with
  | None => l
  | Some e =>
      if Z.eqb (he_seg_block e) InvalidBlockNumber then l
      else match open_ex (he_seg_block e) with
           | None => l
           | Some lookup => resolve_from (he_seg_block e) lookup i l
           end
  end.

Definition tp_topk_resolve_ctids (h : TpTopKHeap) : TpTopKHeap :=
  mkTpTopKHeap (foldl resolve_step (entries h) (seq 0 (heap_size h))) (capacity h).
End Resolve.

(** [compare_heap_entries], applied to the entries at two indices. *)
Definition compare_entries (a b : HeapEntry) : Z :=
  if f4_gt (he_score a) (he_score b) then -1
  else if f4_lt (he_score a) (he_score b) then 1
  else ItemPointerCompare (he_ctid a) (he_ctid b).

Definition compare_heap_entries (l : list HeapEntry) (i j : nat) : Z :=
  match l !! i, l !! j with
  | Some a, Some b => compare_entries a b
  | _, _ => 0%Z
  end.

(** Results (CTID, score) in output order, and the emptied heap. *)
Definition tp_topk_extract (h : TpTopKHeap)
    : list (ItemPointerData * float4) * TpTopKHeap :=
  let indices := qsort (compare_heap_entries (entries h)) (seq 0 (heap_size h)) in
  (omap (fun idx => (fun e => (he_ctid e, he_score e)) <$> entries h !! idx) indices,
   mkTpTopKHeap [] (capacity h)).

(** A result the scoring loops offer to the heap. *)
Inductive candidate :=
  | MemtableResult (ctid : ItemPointerData) (score : float4)
  | SegmentResult (seg_block doc_id : Z) (score : float4).

Definition candidate_entry (c : candidate) : HeapEntry :=
  match c with
  | MemtableResult ctid score => mkHeapEntry ctid InvalidBlockNumber 0 score
  | SegmentResult seg doc score => mkHeapEntry ItemPointerInvalid seg doc score
  end.

Definition tp_topk_add (h : TpTopKHeap) (c : candidate) : TpTopKHeap :=
  match c with
  | MemtableResult ctid score => tp_topk_add_memtable h ctid score
  | SegmentResult seg doc score => tp_topk_add_segment h seg doc score
  end.

(** Whether a candidate evicts [root] from a full heap. *)
Definition candidate_beats (root : HeapEntry) (c : candidate) : bool :=
  match c with
  | MemtableResult ctid score => entry_beats root score (Some ctid) 0
  | SegmentResult _ doc score => entry_beats root score None doc
  end.

End TopK.

(** ** The heap order is restored

    [le a b] says that [a] may sit above [b] (it is no better than [b]).  The
    section is used twice: for the order on scores alone, which holds of any
    mixture of entries, and for the order on (score, CTID). *)

#[global] Instance HeapEntry_inhabited : Inhabited HeapEntry :=
  populate (mkHeapEntry (mkItemPointer 0 0) 0 0 (f4_of_Z 0)).

Section HeapOrder.
Context `{ItemPointerOps}.
Context (P : HeapEntry -> Prop) (le : HeapEntry -> HeapEntry -> Prop).
Hypothesis le_refl : forall a, P a -> le a a.
Hypothesis le_trans : forall a b c, P a -> P b -> P c -> le a b -> le b c -> le a c.
Hypothesis less_le : forall a b, P a -> P b -> entry_less a b = true -> le a b.
Hypothesis not_less_le : forall a b, P a -> P b -> entry_less a b = false -> le b a.
Local Open Scope nat_scope.

Definition heap_ordered (l : list HeapEntry) : Prop :=
  forall i, 0 < i < length l -> le (l !!! parent i) (l !!! i).

Lemma parent_lt i : 0 < i -> parent i < i.
Proof. unfold parent. intros. pose proof (Nat.div_mod_eq (i - 1) 2). lia. Qed.

Lemma parent_child i j : 0 < j -> parent j = i <-> j = 2 * i + 1 \/ j = 2 * i + 2.
Proof.
  unfold parent. intros.
  pose proof (Nat.div_mod_eq (j - 1) 2). pose proof (Nat.mod_upper_bound (j - 1) 2). lia.
Qed.

Lemma parent_left i : parent (2 * i + 1) = i.
Proof. apply parent_child; lia. Qed.
Lemma parent_right i : parent (2 * i + 2) = i.
Proof. apply parent_child; lia. Qed.

Lemma lookup_P l i : Forall P l -> i < length l -> P (l !!! i).
Proof.
  intros HP Hi. apply (Forall_lookup_1 _ _ i _ HP).
  by apply list_lookup_lookup_total_lt.
Qed.

Lemma heap_less_total l i j : i < length l -> j < length l ->
  heap_less l i j = entry_less (l !!! i) (l !!! j).
Proof.
  intros Hi Hj. unfold heap_less.
  by rewrite (list_lookup_lookup_total_lt l i), (list_lookup_lookup_total_lt l j) by done.
Qed.

Lemma heap_swap_perm l i j : heap_swap l i j ≡ₚ l.
Proof.
  unfold heap_swap. destruct (l !! i) eqn:Ei, (l !! j) eqn:Ej; try done.
  by apply Permutation_insert_swap.
Qed.

Lemma length_heap_swap l i j : length (heap_swap l i j) = length l.
Proof. by rewrite heap_swap_perm. Qed.

Lemma heap_swap_total l i j k : i < length l -> j < length l ->
  heap_swap l i j !!! k =
    if decide (k = j) then l !!! i
    else if decide (k = i) then l !!! j else l !!! k.
Proof.
  intros Hi Hj. unfold heap_swap.
  rewrite (list_lookup_lookup_total_lt l i), (list_lookup_lookup_total_lt l j) by done.
  repeat case_decide; subst.
  - by rewrite list_lookup_total_insert_eq by (by rewrite length_insert).
  - rewrite list_lookup_total_insert_ne by done.
    by rewrite list_lookup_total_insert_eq.
  - by rewrite !list_lookup_total_insert_ne by done.
Qed.

Definition up_inv (l : list HeapEntry) (i : nat) : Prop :=
  (forall j, 0 < j < length l -> j <> i -> le (l !!! parent j) (l !!! j)) /\
  (forall j, 0 < j < length l -> parent j = i -> 0 < i -> le (l !!! parent i) (l !!! j)).

Lemma up_inv_swap l i :
  Forall P l -> 0 < i < length l -> up_inv l i ->
  le (l !!! i) (l !!! parent i) -> up_inv (heap_swap l i (parent i)) (parent i).
Proof.
  intros HP Hi [Ho Hc] Hle. pose proof (parent_lt i).
  split; intros j Hj; rewrite length_heap_swap in Hj; pose proof (parent_lt j);
    pose proof (lookup_P l i HP); pose proof (lookup_P l (parent i) HP);
    pose proof (lookup_P l j HP); pose proof (lookup_P l (parent (parent i)) HP).
  - intros Hne. rewrite !heap_swap_total by lia.
    repeat case_decide; subst; try lia; try congruence; try done.
    + apply (le_trans _ (l !!! parent i)); auto with lia.
      replace (parent i) with (parent j) by done. apply Ho; lia.
    + apply Hc; lia.
    + apply Ho; lia.
  - intros Hp Hpos. pose proof (parent_lt (parent i)).
    rewrite !heap_swap_total by lia. repeat case_decide; subst; try lia.
    + apply Ho; lia.
    + apply (le_trans _ (l !!! parent i)); auto with lia.
      replace (parent i) with (parent j) by done. apply Ho; lia.
Qed.

Lemma sift_up_ordered fuel l i :
  Forall P l -> i < length l -> i <= fuel -> up_inv l i ->
  heap_ordered (sift_up_loop fuel l i).
Proof.
  revert l i. induction fuel as [|fuel IH]; intros l i HP Hi Hf Hinv; simpl.
  - destruct Hinv as [Ho _]. intros j Hj. apply Ho; lia.
  - destruct (Nat.eqb_spec i 0) as [->|Hi0].
    { destruct Hinv as [Ho _]. intros j Hj. apply Ho; lia. }
    pose proof (parent_lt i).
    rewrite heap_less_total by lia.
    destruct (entry_less (l !!! i) (l !!! parent i)) eqn:E; simpl.
    + apply IH; rewrite ?length_heap_swap; try lia.
      * by rewrite heap_swap_perm.
      * apply up_inv_swap; auto with lia.
        apply less_le; auto using lookup_P with lia.
    + destruct Hinv as [Ho _]. intros j Hj.
      destruct (decide (j = i)) as [->|]; [|apply Ho; lia].
      apply not_less_le; auto using lookup_P with lia.
Qed.

Lemma sift_up_perm fuel l i : sift_up_loop fuel l i ≡ₚ l.
Proof.
  revert l i. induction fuel as [|fuel IH]; intros l i; simpl; [done|].
  case_match; [done|]. case_match; [done|]. by rewrite IH, heap_swap_perm.
Qed.

Definition down_inv (l : list HeapEntry) (i : nat) : Prop :=
  (forall j, 0 < j < length l -> parent j <> i -> le (l !!! parent j) (l !!! j)) /\
  (forall j, 0 < j < length l -> parent j = i -> 0 < i -> le (l !!! parent i) (l !!! j)).

(** The selected child is no better than its sibling and its parent. *)
Lemma smallest_of_spec l i : Forall P l -> i < length l ->
  let s := smallest_of l i in
  (s = i \/ (parent s = i /\ 0 < s < length l)) /\
  le (l !!! s) (l !!! i) /\
  forall j, 0 < j < length l -> parent j = i -> le (l !!! s) (l !!! j).
Proof.
  intros HP Hi. unfold smallest_of. cbv zeta.
  set (s1 := if (2 * i + 1 <? length l) && heap_less l (2 * i + 1) i
             then 2 * i + 1 else i).
  assert (H1 : (s1 = i \/ s1 = 2 * i + 1) /\ s1 < length l /\
    le (l !!! s1) (l !!! i) /\
    (2 * i + 1 < length l -> le (l !!! s1) (l !!! (2 * i + 1)))).
  { unfold s1. destruct (Nat.ltb_spec (2 * i + 1) (length l)) as [Hl|Hl]; simpl andb.
    - rewrite heap_less_total by lia.
      pose proof (lookup_P l i HP Hi). pose proof (lookup_P l (2 * i + 1) HP Hl).
      destruct (entry_less _ _) eqn:E; auto 10.
    - split; [by left|]. split; [done|]. split; [|lia]. by apply le_refl, lookup_P. }
  destruct H1 as (Hs1 & Hlen & Hle1 & Hleft). clearbody s1.
  assert (Hs1' : s1 = i \/ parent s1 = i /\ 0 < s1 < length l).
  { destruct Hs1 as [->| ->]; [by left|right; split; [apply parent_left|lia]]. }
  pose proof (lookup_P l i HP Hi). pose proof (lookup_P l s1 HP Hlen).
  pose proof (lookup_P l (2 * i + 1) HP).
  destruct (Nat.ltb_spec (2 * i + 2) (length l)) as [Hr|Hr]; simpl andb; cycle 1.
  { split; [done|]. split; [done|].
    intros j Hj [->| ->]%parent_child; [apply Hleft|..]; lia. }
  rewrite heap_less_total by lia. pose proof (lookup_P l (2 * i + 2) HP Hr).
  destruct (entry_less _ _) eqn:E.
  - apply less_le in E; [|done..].
    split; [right; split; [apply parent_right|lia]|].
    split; [by apply (le_trans _ (l !!! s1))|].
    intros j Hj [->| ->]%parent_child; [| |lia].
    + apply (le_trans _ (l !!! s1)); auto with lia.
    + by apply le_refl.
  - apply not_less_le in E; [|done..].
    split; [done|]. split; [done|].
    intros j Hj [->| ->]%parent_child; [| |lia]; auto with lia.
Qed.

Lemma down_inv_swap l i s :
  Forall P l -> i < length l -> parent s = i -> 0 < s < length l ->
  le (l !!! s) (l !!! i) ->
  (forall j, 0 < j < length l -> parent j = i -> le (l !!! s) (l !!! j)) ->
  down_inv l i -> down_inv (heap_swap l i s) s.
Proof.
  intros HP Hi Hps Hs Hsi Hch [Ho Hc]. pose proof (parent_lt s).
  split; intros j Hj; rewrite length_heap_swap in Hj; pose proof (parent_lt j).
  - intros Hne. rewrite !heap_swap_total by lia.
    repeat case_decide; subst; try congruence; try lia; auto with lia.
  - intros Hp Hpos. rewrite !heap_swap_total by lia.
    repeat case_decide; subst; try congruence; try lia.
    apply Ho; lia.
Qed.

Lemma sift_down_ordered fuel l i :
  Forall P l -> i < length l -> length l - i <= fuel -> down_inv l i ->
  heap_ordered (sift_down_loop fuel l i).
Proof.
  revert l i. induction fuel as [|fuel IH]; intros l i HP Hi Hf Hinv; simpl; [lia|].
  pose proof (smallest_of_spec l i HP Hi) as (Hs & Hsi & Hch).
  destruct (Nat.eqb_spec (smallest_of l i) i) as [E|E].
  - rewrite E in Hch. destruct Hinv as [Ho _]. intros j Hj.
    destruct (decide (parent j = i)) as [<-|]; [by apply Hch|by apply Ho].
  - destruct Hs as [?|[Hp Hs]]; [done|]. pose proof (parent_lt (smallest_of l i)).
    apply IH; rewrite ?length_heap_swap; try lia.
    + by rewrite heap_swap_perm.
    + by apply down_inv_swap.
Qed.

Lemma sift_down_perm fuel l i : sift_down_loop fuel l i ≡ₚ l.
Proof.
  revert l i. induction fuel as [|fuel IH]; intros l i; simpl; [done|].
  case_match; [done|]. by rewrite IH, heap_swap_perm.
Qed.

(** The root is no better than any entry. *)
Lemma heap_root_least l i :
  Forall P l -> heap_ordered l -> i < length l -> le (l !!! 0) (l !!! i).
Proof.
  intros HP Ho. induction i as [i IH] using lt_wf_ind. intros Hi.
  destruct (decide (i = 0)) as [->|Hne]; [apply le_refl, lookup_P; auto|].
  pose proof (parent_lt i).
  apply (le_trans _ (l !!! parent i)); auto using lookup_P with lia.
Qed.
End HeapOrder.

(** ** A sequence of additions keeps the k best candidates *)

Section KeepsBest.
Context `{ItemPointerOps}.
Context (P : HeapEntry -> Prop) (le : HeapEntry -> HeapEntry -> Prop).
Hypothesis le_refl : forall a, P a -> le a a.
Hypothesis le_trans : forall a b c, P a -> P b -> P c -> le a b -> le b c -> le a c.
Hypothesis less_le : forall a b, P a -> P b -> entry_less a b = true -> le a b.
Hypothesis not_less_le : forall a b, P a -> P b -> entry_less a b = false -> le b a.
Hypothesis beats_le : forall a c, P a -> P (candidate_entry c) ->
  candidate_beats a c = true -> le a (candidate_entry c).
Hypothesis not_beats_le : forall a c, P a -> P (candidate_entry c) ->
  candidate_beats a c = false -> le (candidate_entry c) a.
Local Open Scope nat_scope.

(** [h] holds the best entries of [L]: what was left out is no better. *)
Definition keeps_best (L : list HeapEntry) (h : TpTopKHeap) : Prop :=
  heap_ordered le (entries h) /\ heap_size h <= capacity h /\
  exists rejected,
    entries h ++ rejected ≡ₚ L /\
    (heap_size h < capacity h -> rejected = []) /\
    forall x y, x ∈ entries h -> y ∈ rejected -> le y x.

Lemma tp_topk_add_unfold h c :
  tp_topk_add h c =
    if heap_size h <? capacity h then heap_push h (candidate_entry c)
    else if match entries h !! 0 with
            | Some root => candidate_beats root c
            | None => false
            end
    then heap_replace_root h (candidate_entry c) else h.
Proof.
  unfold tp_topk_add, tp_topk_add_memtable, tp_topk_add_segment, heap_beats_root,
    candidate_beats, candidate_entry.
  destruct c; destruct (_ <? _); try done; by destruct (entries h !! 0).
Qed.

(** A dominated candidate does not enter the heap. *)
Lemma add_dominated h c :
  tp_topk_dominated h (he_score (candidate_entry c)) = true -> tp_topk_add h c = h.
Proof.
  unfold tp_topk_dominated. intros [Hfull%Nat.leb_le Hd]%andb_prop.
  rewrite tp_topk_add_unfold. rewrite (proj2 (Nat.ltb_ge _ _)) by done.
  destruct (entries h !! 0) as [root|]; [|done].
  replace (candidate_beats root c) with false; [done|].
  pose proof (f4_lt_asym _ _ Hd) as Hd'.
  destruct c; simpl in *; unfold entry_beats, f4_gt; by rewrite Hd, Hd'.
Qed.

Lemma capacity_add h c : capacity (tp_topk_add h c) = capacity h.
Proof. rewrite tp_topk_add_unfold. by repeat case_match. Qed.

Lemma push_keeps_best L h e :
  Forall P L -> P e -> heap_size h < capacity h ->
  keeps_best L h -> keeps_best (e :: L) (heap_push h e).
Proof.
  intros HP He Hlt (Ho & Hcap & R & HL & HR & Hle). rewrite HR in HL by done.
  rewrite app_nil_r in HL.
  assert (Hent : Forall P (entries h ++ [e])).
  { apply Forall_app. rewrite HL. auto. }
  unfold heap_push, keeps_best, heap_size, heap_sift_up in *. simpl.
  split; [|split].
  - eapply sift_up_ordered; eauto; rewrite ?length_app; simpl; try lia.
    split; intros j; rewrite length_app; simpl.
    + intros Hj Hj'. pose proof (parent_lt j). rewrite !lookup_total_app_l by lia. apply Ho. lia.
    + intros Hj Hp _. unfold parent in Hp. pose proof (Nat.div_mod_eq (j - 1) 2). lia.
  - rewrite sift_up_perm, length_app. simpl. lia.
  - exists []. rewrite app_nil_r, sift_up_perm, HL.
    split; [by rewrite Permutation_app_comm|]. split; [done|set_solver].
Qed.

Lemma replace_keeps_best L h root c :
  Forall P L -> P (candidate_entry c) -> capacity h <= heap_size h ->
  entries h !! 0 = Some root -> candidate_beats root c = true ->
  keeps_best L h -> keeps_best (candidate_entry c :: L) (heap_replace_root h (candidate_entry c)).
Proof.
  intros HP He Hfull Hroot Hb (Ho & Hcap & R & HL & HR & Hle).
  set (e := candidate_entry c) in *.
  destruct h as [[|r l] k]; simpl in *; [done|]. injection Hroot as ->.
  assert (HPl : P root /\ Forall P l /\ Forall P R).
  { rewrite <- HL in HP. apply Forall_cons in HP as [? HP].
    by apply Forall_app in HP as [? ?]. }
  destruct HPl as (HPr & HPl & HPR).
  assert (Hrl : forall x, x ∈ l -> le root x).
  { intros x (i & Hi)%list_elem_of_lookup.
    pose proof (lookup_lt_Some _ _ _ Hi).
    pose proof (heap_root_least P le le_refl le_trans (root :: l) (S i)
      ltac:(auto) Ho ltac:(simpl; lia)) as Hx.
    simpl in Hx. by rewrite (list_lookup_total_correct _ _ _ Hi) in Hx. }
  apply beats_le in Hb; [|done..].
  unfold heap_replace_root, keeps_best, heap_size, heap_sift_down in *.
  cbn [entries capacity length list_insert insert] in *.
  split; [|split].
  - eapply sift_down_ordered; eauto; simpl; try lia.
    split; intros j Hj Hp; [|lia]. simpl in Hj.
    pose proof (parent_lt j). specialize (Ho j ltac:(simpl; lia)).
    destruct (parent j) as [|q] eqn:E; [done|]. destruct j; [lia|]. exact Ho.
  - by rewrite sift_down_perm.
  - exists (root :: R). rewrite sift_down_perm.
    split; [|split; [simpl; lia|]].
    + rewrite <- HL. cbn [app]. constructor. symmetry. apply Permutation_middle.
    + intros x y Hx Hy. rewrite sift_down_perm in Hx.
      rewrite elem_of_cons in Hx, Hy. destruct Hx as [Hx|Hx], Hy as [Hy|Hy]; subst; auto.
      * apply (le_trans _ root); auto; [by eapply Forall_forall|].
        apply Hle; [by left|done].
      * apply Hle; [by right|done].
Qed.

Lemma add_keeps_best L h c :
  Forall P L -> P (candidate_entry c) -> 0 < capacity h ->
  keeps_best L h -> keeps_best (candidate_entry c :: L) (tp_topk_add h c).
Proof.
  intros HP He Hk Hkb. rewrite tp_topk_add_unfold.
  destruct (Nat.ltb_spec (heap_size h) (capacity h)) as [Hlt|Hge].
  { by apply push_keeps_best. }
  destruct (entries h !! 0) as [root|] eqn:Hroot; cycle 1.
  { apply lookup_ge_None in Hroot. unfold heap_size in *. lia. }
  destruct (candidate_beats root c) eqn:Hb; [by eapply replace_keeps_best|].
  destruct Hkb as (Ho & Hcap & R & HL & HR & Hle).
  split; [done|]. split; [done|]. exists (candidate_entry c :: R).
  assert (HPe : Forall P (entries h)).
  { rewrite <- HL in HP. by apply Forall_app in HP as [? ?]. }
  split; [|split; [lia|]].
  - rewrite <- HL. by rewrite <- Permutation_middle.
  - intros x y Hx [->|Hy]%elem_of_cons; [|by apply Hle].
    pose proof Hx as (i & Hi)%list_elem_of_lookup.
    pose proof (lookup_lt_Some _ _ _ Hi).
    assert (P root) by (eapply Forall_lookup_1; eauto).
    apply (le_trans _ root); auto; [by eapply Forall_forall|].
    pose proof (heap_root_least P le le_refl le_trans _ i HPe Ho ltac:(done)) as Hx'.
    rewrite (list_lookup_total_correct _ _ _ Hi) in Hx'.
    by rewrite (list_lookup_total_correct _ _ _ Hroot) in Hx'.
Qed.

Lemma fold_keeps_best cs k :
  0 < k -> Forall (fun c => P (candidate_entry c)) cs ->
  let h := foldl tp_topk_add (tp_topk_init k) cs in
  capacity h = k /\ keeps_best (reverse (candidate_entry <$> cs)) h.
Proof.
  intros Hk. induction cs as [|c cs IH] using rev_ind; intros HP; simpl.
  - split; [done|]. split; [intros i; simpl; lia|].
    split; [unfold heap_size; simpl; lia|]. exists []. set_solver.
  - apply Forall_app in HP as [HP [Hc _]%Forall_cons].
    destruct (IH HP) as [Hcap Hkb]. rewrite foldl_app. simpl.
    rewrite capacity_add. split; [done|].
    rewrite fmap_app, reverse_app. simpl. apply add_keeps_best; auto; [|lia].
    rewrite reverse_Permutation. by apply Forall_fmap.
Qed.
End KeepsBest.

(** ** The orders the heap implements *)

Section Orders.
Context `{ItemPointerLaws}.

Definition comparable (e : HeapEntry) : Prop := is_nan (he_score e) = false.

(** [a] is no better than [b]: a lower score, or an equal one and [a] is not
    preferred by the tie-break. *)
Definition no_better (preferred : HeapEntry -> HeapEntry -> Prop)
    (a b : HeapEntry) : Prop :=
  f4_lt (he_score a) (he_score b) = true \/
  (f4_lt (he_score b) (he_score a) = false /\ ~ preferred a b).

Definition no_preference (a b : HeapEntry) : Prop := False.
Definition smaller_ctid (a b : HeapEntry) : Prop := ip_lt (he_ctid a) (he_ctid b).
Definition smaller_doc_id (a b : HeapEntry) : Prop := he_doc_id a < he_doc_id b.

Lemma no_better_refl pref a : ~ pref a a -> no_better pref a a.
Proof. intros Ha. right. split; [apply f4_lt_irrefl|done]. Qed.

Lemma no_better_trans (pref : HeapEntry -> HeapEntry -> Prop) a b c :
  (~ pref a b -> ~ pref b c -> ~ pref a c) ->
  comparable a -> comparable b -> comparable c ->
  no_better pref a b -> no_better pref b c -> no_better pref a c.
Proof.
  intros Hp Ha Hb Hc [Hab|[Hab Nab]] [Hbc|[Hbc Nbc]].
  - left. by eapply f4_lt_trans.
  - left. by eapply f4_lt_ge_trans.
  - left. destruct (f4_lt (he_score a) (he_score c)) eqn:E; [done|].
    pose proof (f4_lt_ge_trans (he_score b) (he_score c) (he_score a) Hb Ha Hbc E).
    congruence.
  - right. split; [by apply (f4_ge_trans _ (he_score b))|auto].
Qed.

Lemma no_better_score pref a b :
  no_better pref a b -> f4_lt (he_score b) (he_score a) = false.
Proof. intros [?%f4_lt_asym|[? _]]; done. Qed.

Lemma entry_less_no_better (pref : HeapEntry -> HeapEntry -> Prop) a b :
  (f4_lt (he_score a) (he_score b) = false -> f4_lt (he_score b) (he_score a) = false ->
   if entry_less a b then ~ pref a b else ~ pref b a) ->
  if entry_less a b then no_better pref a b else no_better pref b a.
Proof.
  intros Hp. unfold no_better.
  destruct (f4_lt (he_score a) (he_score b)) eqn:E1.
  { replace (entry_less a b) with true by (unfold entry_less; by rewrite E1). auto. }
  destruct (f4_lt (he_score b) (he_score a)) eqn:E2.
  { replace (entry_less a b) with false
      by (unfold entry_less, f4_gt; by rewrite E1, E2). auto. }
  specialize (Hp eq_refl eq_refl). destruct (entry_less a b); auto.
Qed.

Lemma candidate_beats_no_better (pref : HeapEntry -> HeapEntry -> Prop) a c :
  let e := candidate_entry c in
  (f4_lt (he_score a) (he_score e) = false -> f4_lt (he_score e) (he_score a) = false ->
   if candidate_beats a c then ~ pref a e else ~ pref e a) ->
  if candidate_beats a c then no_better pref a e else no_better pref e a.
Proof.
  intros e Hp. unfold no_better.
  destruct (f4_lt (he_score a) (he_score e)) eqn:E1.
  { replace (candidate_beats a c) with true
      by (subst e; destruct c; simpl in *; unfold entry_beats, f4_gt; by rewrite E1). auto. }
  destruct (f4_lt (he_score e) (he_score a)) eqn:E2.
  { replace (candidate_beats a c) with false
      by (subst e; destruct c; simpl in *; unfold entry_beats, f4_gt; by rewrite E1, E2). auto. }
  specialize (Hp eq_refl eq_refl). destruct (candidate_beats a c); auto.
Qed.
End Orders.

(** ** What the heap promises *)

Section Properties.
Context `{ItemPointerLaws} `{QSortLaws}.
Local Open Scope nat_scope.

(** The heap holds the best [k] of the candidates for the order [pref]. *)
Definition holds_best (pref : HeapEntry -> HeapEntry -> Prop) (k : nat)
    (cs : list candidate) (h : TpTopKHeap) : Prop :=
  heap_size h = Nat.min k (length cs) /\
  exists rejected,
    entries h ++ rejected ≡ₚ (candidate_entry <$> cs) /\
    forall x y, x ∈ entries h -> y ∈ rejected -> no_better pref y x.

Lemma keeps_best_holds pref k cs h :
  capacity h = k ->
  keeps_best (no_better pref) (reverse (candidate_entry <$> cs)) h ->
  holds_best pref k cs h.
Proof.
  intros Hk (_ & Hcap & R & HL & HR & Hle). rewrite reverse_Permutation in HL.
  split; [|by exists R].
  pose proof (Permutation_length HL) as Hlen. rewrite length_app, length_fmap in Hlen.
  unfold heap_size in *. destruct (decide (length (entries h) < capacity h)) as [Hlt|].
  - rewrite (HR Hlt) in Hlen. simpl in Hlen. lia.
  - lia.
Qed.

Lemma fold_holds_best (P : HeapEntry -> Prop) pref k cs :
  0 < k -> Forall (fun c => P (candidate_entry c)) cs ->
  (forall a, P a -> comparable a) ->
  (forall a, P a -> ~ pref a a) ->
  (forall a b c, P a -> P b -> P c -> ~ pref a b -> ~ pref b c -> ~ pref a c) ->
  (forall a b, P a -> P b ->
     f4_lt (he_score a) (he_score b) = false -> f4_lt (he_score b) (he_score a) = false ->
     if entry_less a b then ~ pref a b else ~ pref b a) ->
  (forall a c, P a -> P (candidate_entry c) ->
     let e := candidate_entry c in
     f4_lt (he_score a) (he_score e) = false -> f4_lt (he_score e) (he_score a) = false ->
     if candidate_beats a c then ~ pref a e else ~ pref e a) ->
  keeps_best (no_better pref) (reverse (candidate_entry <$> cs))
    (foldl tp_topk_add (tp_topk_init k) cs) /\
  capacity (foldl tp_topk_add (tp_topk_init k) cs) = k.
Proof.
  intros Hk HP Hcmp Hirr Htr Hless Hbeats.
  assert (Hl : forall a b, P a -> P b ->
    if entry_less a b then no_better pref a b else no_better pref b a).
  { intros a b Ha Hb. apply entry_less_no_better. by apply Hless. }
  assert (Hb : forall a c, P a -> P (candidate_entry c) ->
    if candidate_beats a c then no_better pref a (candidate_entry c)
    else no_better pref (candidate_entry c) a).
  { intros a c Ha Hc. apply candidate_beats_no_better. by apply Hbeats. }
  apply and_comm, (fold_keeps_best P (no_better pref)); try done.
  - intros a Ha. by apply no_better_refl, Hirr.
  - intros a b c Ha Hb' Hc. apply no_better_trans; eauto.
  - intros a b Ha Hb' E. specialize (Hl a b Ha Hb'). by rewrite E in Hl.
  - intros a b Ha Hb' E. specialize (Hl a b Ha Hb'). by rewrite E in Hl.
  - intros a c Ha Hc E. specialize (Hb a c Ha Hc). by rewrite E in Hb.
  - intros a c Ha Hc E. specialize (Hb a c Ha Hc). by rewrite E in Hb.
Qed.

Lemma fold_scores k cs :
  0 < k -> Forall (fun c => comparable (candidate_entry c)) cs ->
  keeps_best (no_better no_preference) (reverse (candidate_entry <$> cs))
    (foldl tp_topk_add (tp_topk_init k) cs) /\
  capacity (foldl tp_topk_add (tp_topk_init k) cs) = k.
Proof.
  intros Hk Hcs. apply (fold_holds_best comparable); unfold no_preference; auto;
    intros; try case_match; tauto.
Qed.

(** The lexicographic orders used when all candidates come from one source. *)
Lemma fold_ctids k cs :
  0 < k ->
  Forall (fun c => comparable (candidate_entry c) /\
            ItemPointerIsValid (he_ctid (candidate_entry c)) = true) cs ->
  keeps_best (no_better smaller_ctid) (reverse (candidate_entry <$> cs))
    (foldl tp_topk_add (tp_topk_init k) cs) /\
  capacity (foldl tp_topk_add (tp_topk_init k) cs) = k.
Proof.
  intros Hk Hcs. unfold smaller_ctid.
  apply (fold_holds_best (fun e => comparable e /\ ItemPointerIsValid (he_ctid e) = true));
    try done; simpl.
  - tauto.
  - intros a _. apply ip_lt_irrefl.
  - intros a b c _ _ _ Hab Hbc. by apply (ip_le_trans _ (he_ctid b)).
  - intros a b [_ Ha] [_ Hb] E1 E2. unfold entry_less, f4_gt.
    rewrite E1, E2, Ha, Hb. simpl.
    destruct (Z.ltb_spec 0 (ItemPointerCompare (he_ctid a) (he_ctid b))) as [L|L].
    + apply ItemPointerCompare_gt in L. unfold ip_lt in *. lia.
    + by apply ItemPointerCompare_le.
  - intros a [ctid score|seg doc score] [_ Ha] [_ Hc] E1 E2; simpl in *.
    + unfold entry_beats, f4_gt. rewrite E1, E2, Ha, Hc. simpl.
      destruct (Z.ltb_spec (ItemPointerCompare ctid (he_ctid a)) 0) as [L|L].
      * apply ItemPointerCompare_lt in L. unfold ip_lt in *. lia.
      * rewrite <- ItemPointerCompare_lt. lia.
    + by rewrite ItemPointerInvalid_not_valid in Hc.
Qed.

Lemma fold_doc_ids k seg ds :
  0 < k -> seg <> InvalidBlockNumber -> Forall (fun d => is_nan d.2 = false) ds ->
  let cs := (fun d => SegmentResult seg d.1 d.2) <$> ds in
  keeps_best (no_better smaller_doc_id) (reverse (candidate_entry <$> cs))
    (foldl tp_topk_add (tp_topk_init k) cs) /\
  capacity (foldl tp_topk_add (tp_topk_init k) cs) = k.
Proof.
  intros Hk Hseg Hds cs. unfold smaller_doc_id.
  apply (fold_holds_best (fun e => comparable e /\
    ItemPointerIsValid (he_ctid e) = false /\ he_seg_block e = seg)); try done; simpl.
  - unfold cs. apply Forall_fmap. eapply Forall_impl; [exact Hds|].
    intros d Hd. simpl. by rewrite ItemPointerInvalid_not_valid.
  - tauto.
  - lia.
  - lia.
  - intros a b (_ & Ha & Sa) (_ & Hb & Sb) E1 E2. unfold entry_less, f4_gt.
    rewrite E1, E2, Ha, Hb. simpl.
    destruct (Z.eqb_spec (he_doc_id a) (he_doc_id b)) as [E|N]; simpl.
    + case_match; lia.
    + destruct (Z.ltb_spec (he_doc_id b) (he_doc_id a)); lia.
  - intros a [ctid score|seg' doc score] (_ & Ha & Sa) (_ & Hc & Sc) E1 E2; simpl in *.
    + by rewrite <- Sc in Hseg.
    + unfold entry_beats, f4_gt. rewrite E1, E2, Ha. simpl.
      destruct (Z.ltb_spec doc (he_doc_id a)); lia.
Qed.

(** *** Extraction *)

Definition result_of (e : HeapEntry) : ItemPointerData * float4 :=
  (he_ctid e, he_score e).

(** Output order: higher scores first, equal scores by CTID. *)
Definition result_before (r1 r2 : ItemPointerData * float4) : Prop :=
  f4_lt r2.2 r1.2 = true \/
  (f4_lt r1.2 r2.2 = false /\ ~ ip_lt r2.1 r1.1).

Lemma compare_entries_no_better a b :
  comparable a -> comparable b ->
  (compare_entries a b <= 0)%Z <-> no_better smaller_ctid b a.
Proof.
  intros Ha Hb. unfold compare_entries, no_better, smaller_ctid, f4_gt.
  destruct (f4_lt (he_score b) (he_score a)) eqn:E1; [split; [by left|lia]|].
  destruct (f4_lt (he_score a) (he_score b)) eqn:E2.
  - split; [lia|]. intros [?|[? _]]; congruence.
  - rewrite ItemPointerCompare_le. split; [by right|]. intros [?|[_ ?]]; congruence.
Qed.

Lemma compare_heap_entries_comparator (l : list HeapEntry) :
  Forall comparable l -> comparator_on (compare_heap_entries l) (seq 0 (length l)).
Proof.
  intros HF.
  assert (Hget : forall i, i ∈ seq 0 (length l) -> exists a, l !! i = Some a /\ comparable a).
  { intros i [_ Hi]%elem_of_seq.
    destruct (lookup_lt_is_Some_2 l i Hi) as [a Ha].
    exists a. split; [done|]. by eapply Forall_lookup_1. }
  split.
  - intros i j (a & Ha & Ca)%Hget (b & Hb & Cb)%Hget.
    unfold compare_heap_entries. rewrite Ha, Hb.
    rewrite !compare_entries_no_better by done. unfold no_better, smaller_ctid.
    destruct (f4_lt (he_score a) (he_score b)) eqn:E1; [auto|].
    destruct (f4_lt (he_score b) (he_score a)) eqn:E2; [auto|].
    destruct (ip_lt_total (he_ctid a) (he_ctid b)) as [L|[E|L]];
      [left|left|right]; right; (split; [done|]); unfold ip_lt in *; rewrite ?E; lia.
  - intros i j k (a & Ha & Ca)%Hget (b & Hb & Cb)%Hget (c & Hc & Cc)%Hget.
    unfold compare_heap_entries. rewrite Ha, Hb, Hc.
    rewrite !compare_entries_no_better by done. unfold smaller_ctid. intros H1' H2'.
    apply (no_better_trans _ c b a); try done.
    intros Hx Hy. by apply (ip_le_trans _ (he_ctid b)).
Qed.

Lemma omap_seq_lookup {A} (p l : list A) :
  omap ((p ++ l) !!.) (seq (length p) (length l)) = l.
Proof.
  revert p. induction l as [|x l IH]; intros p; [done|]. simpl.
  rewrite list_lookup_middle by done. f_equal.
  specialize (IH (p ++ [x])). rewrite length_app, Nat.add_comm in IH. simpl in IH.
  by rewrite <- app_assoc in IH.
Qed.

Lemma extract_spec h :
  Forall comparable (entries h) ->
  fst (tp_topk_extract h) ≡ₚ (result_of <$> entries h) /\
  StronglySorted result_before (fst (tp_topk_extract h)).
Proof.
  intros HF. unfold tp_topk_extract, heap_size. cbn [fst].
  set (l := entries h) in *. set (idx := qsort _ _).
  assert (Hperm : idx ≡ₚ seq 0 (length l)) by apply qsort_perm.
  assert (Hs : StronglySorted (cmp_le (compare_heap_entries l)) idx)
    by (apply qsort_sorted, compare_heap_entries_comparator, HF).
  split.
  - rewrite Hperm. rewrite <- list_fmap_omap.
    pose proof (omap_seq_lookup [] l) as E. simpl in E. by rewrite E.
  - clear Hperm. induction Hs as [|i idx' Hs IH Hi]; simpl; [constructor|].
    destruct (l !! i) as [a|] eqn:Ea; simpl; [|done].
    constructor; [done|]. apply Forall_forall. intros r Hr.
    apply list_elem_of_omap in Hr as (j & Hj & Er).
    destruct (l !! j) as [b|] eqn:Eb; simpl in Er; [|done]. injection Er as <-.
    rewrite Forall_forall in Hi. specialize (Hi j Hj).
    unfold cmp_le, compare_heap_entries in Hi. rewrite Ea, Eb in Hi.
    apply compare_entries_no_better in Hi; [|by eapply Forall_lookup_1..].
    exact Hi.
Qed.

(** *** Resolution *)

(** What resolution means for one entry. *)
Definition resolve_entry (open_ex : Z -> option (Z -> ItemPointerData))
    (e : HeapEntry) : HeapEntry :=
  if Z.eqb (he_seg_block e) InvalidBlockNumber then e
  else match open_ex (he_seg_block e) with
       | None => e
       | Some lookup =>
           mkHeapEntry (lookup (he_doc_id e)) InvalidBlockNumber (he_doc_id e) (he_score e)
       end.

Section ResolveFacts.
Context (open_ex : Z -> option (Z -> ItemPointerData)).

Lemma resolve_entry_score e : he_score (resolve_entry open_ex e) = he_score e.
Proof. unfold resolve_entry. by repeat case_match. Qed.

Lemma resolve_entry_idemp e :
  resolve_entry open_ex (resolve_entry open_ex e) = resolve_entry open_ex e.
Proof.
  unfold resolve_entry at 2 3. destruct (Z.eqb _ _) eqn:E1.
  { unfold resolve_entry. by rewrite E1. }
  destruct (open_ex _) eqn:E2; [done|]. unfold resolve_entry. by rewrite E1, E2.
Qed.

(** Entry [j] after the first [i] rounds, knowing entry [j] before. *)
Definition half_resolved (l0 : list HeapEntry) (i : nat) (l : list HeapEntry) : Prop :=
  length l = length l0 /\
  forall j e0 e, l0 !! j = Some e0 -> l !! j = Some e ->
    e = resolve_entry open_ex e0 \/ (i <= j /\ e = e0).

Lemma lookup_resolve_from seg lookup i l j e :
  l !! j = Some e ->
  resolve_from seg lookup i l !! j =
    Some (if (i <=? j) && Z.eqb (he_seg_block e) seg then
            mkHeapEntry (lookup (he_doc_id e)) InvalidBlockNumber (he_doc_id e) (he_score e)
          else e).
Proof. intros Hj. unfold resolve_from. by rewrite list_lookup_imap, Hj. Qed.

Lemma half_resolved_step l0 i l :
  i < length l0 -> half_resolved l0 i l ->
  half_resolved l0 (S i) (resolve_step open_ex l i).
Proof.
  intros Hi [Hlen Hl]. unfold resolve_step.
  destruct (lookup_lt_is_Some_2 l i ltac:(lia)) as [x Hx]. rewrite Hx.
  destruct (lookup_lt_is_Some_2 l0 i Hi) as [x0 Hx0].
  assert (Hkeep : resolve_entry open_ex x = x -> half_resolved l0 (S i) l).
  { intros Ex. split; [done|]. intros j e0 e He0 He.
    destruct (Hl j e0 e He0 He) as [->|[Hij ->]]; [by left|].
    destruct (decide (i = j)) as [<-|]; [|right; split; [lia|done]].
    left. destruct (Hl i _ _ Hx0 Hx) as [E|[_ E]]; congruence. }
  destruct (Z.eqb_spec (he_seg_block x) InvalidBlockNumber) as [Ei|Ni].
  { apply Hkeep. unfold resolve_entry. by rewrite (proj2 (Z.eqb_eq _ _) Ei). }
  destruct (open_ex (he_seg_block x)) as [lookup|] eqn:Eo; cycle 1.
  { apply Hkeep. unfold resolve_entry. rewrite (proj2 (Z.eqb_neq _ _) Ni). by rewrite Eo. }
  clear Hkeep. split; [by unfold resolve_from; rewrite length_imap|].
  intros j e0 e He0 He.
  destruct (lookup_lt_is_Some_2 l j) as [y Hy].
  { rewrite Hlen. by eapply lookup_lt_Some. }
  rewrite (lookup_resolve_from _ _ _ _ _ _ Hy) in He. injection He as <-.
  destruct (Nat.leb_spec i j) as [Hij|Hij]; simpl; cycle 1.
  { destruct (Hl j e0 y He0 Hy) as [->|[? _]]; [by left|lia]. }
  assert (Hres : he_seg_block y = he_seg_block x ->
    resolve_entry open_ex y =
      mkHeapEntry (lookup (he_doc_id y)) InvalidBlockNumber (he_doc_id y) (he_score y)).
  { intros Es. unfold resolve_entry. rewrite Es, (proj2 (Z.eqb_neq _ _) Ni).
    by rewrite Eo. }
  destruct (Z.eqb_spec (he_seg_block y) (he_seg_block x)) as [Es|Ns].
  - left. rewrite <- Hres by done.
    destruct (Hl j e0 y He0 Hy) as [->|[_ ->]]; [apply resolve_entry_idemp|done].
  - destruct (Hl j e0 y He0 Hy) as [->|[_ ->]]; [by left|].
    right. split; [|done]. destruct (decide (i = j)) as [<-|]; [|lia]. congruence.
Qed.

Lemma resolve_entries_spec l0 :
  foldl (resolve_step open_ex) l0 (seq 0 (length l0)) = resolve_entry open_ex <$> l0.
Proof.
  assert (Hinv : forall n, n <= length l0 ->
    half_resolved l0 n (foldl (resolve_step open_ex) l0 (seq 0 n))).
  { induction n as [|n IH]; intros Hn.
    - split; [done|]. intros j e0 e He0 He. right. simpl in He. split; [lia|congruence].
    - rewrite seq_S, foldl_app. simpl. apply half_resolved_step; [lia|]. apply IH. lia. }
  destruct (Hinv (length l0)) as [Hlen Hl]; [done|].
  apply list_eq_same_length with (length l0); rewrite ?length_fmap; try done.
  intros i x y Hi Hx. rewrite list_lookup_fmap.
  destruct (l0 !! i) as [e0|] eqn:He0; [|done]. simpl. intros [= <-].
  destruct (Hl i e0 x He0 Hx) as [->|[? _]]; [done|lia].
Qed.
End ResolveFacts.

(** *** The claims *)

Lemma keeps_best_length pref k cs h :
  capacity h = k -> keeps_best (no_better pref) (reverse (candidate_entry <$> cs)) h ->
  heap_size h = Nat.min k (length cs).
Proof. intros Hk Hb. by destruct (keeps_best_holds pref k cs h Hk Hb). Qed.

Lemma keeps_best_comparable pref cs h :
  Forall (fun c => comparable (candidate_entry c)) cs ->
  keeps_best (no_better pref) (reverse (candidate_entry <$> cs)) h ->
  Forall comparable (entries h).
Proof.
  intros HF (_ & _ & R & HL & _). apply Forall_fmap in HF.
  unfold compose in HF. rewrite reverse_Permutation in HL.
  rewrite <- HL in HF. by apply Forall_app in HF as [? _].
Qed.

(** The root has the lowest score. *)
Lemma root_least k cs root e :
  0 < k -> Forall (fun c => comparable (candidate_entry c)) cs ->
  entries (foldl tp_topk_add (tp_topk_init k) cs) !! 0 = Some root ->
  e ∈ entries (foldl tp_topk_add (tp_topk_init k) cs) ->
  f4_lt (he_score e) (he_score root) = false.
Proof.
  intros Hk HF Hroot (i & Hi)%list_elem_of_lookup.
  destruct (fold_scores k cs Hk HF) as [Hb _].
  pose proof (keeps_best_comparable _ _ _ HF Hb) as HC. destruct Hb as (Ho & _).
  pose proof (lookup_lt_Some _ _ _ Hi). apply (no_better_score no_preference).
  rewrite <- (list_lookup_total_correct _ _ _ Hi), <- (list_lookup_total_correct _ _ _ Hroot).
  apply (heap_root_least comparable); try done.
  - intros a _. apply no_better_refl. intros [].
  - intros a b d. apply no_better_trans. intros _ _ [].
Qed.

(** Candidates that are comparable and not negative, as the scoring offers them. *)
Definition scores_ok (cs : list candidate) : Prop :=
  Forall (fun c => is_nan (he_score (candidate_entry c)) = false /\
                   f4_lt (he_score (candidate_entry c)) (f4_of_Z 0) = false) cs.

Lemma scores_ok_comparable cs : scores_ok cs ->
  Forall (fun c => comparable (candidate_entry c)) cs.
Proof. intros HF. eapply Forall_impl; [exact HF|]. by intros c [? _]. Qed.

(** Every entry of the heap was offered. *)
Lemma fold_entries k cs e :
  0 < k -> scores_ok cs -> e ∈ entries (foldl tp_topk_add (tp_topk_init k) cs) ->
  is_nan (he_score e) = false /\ f4_lt (he_score e) (f4_of_Z 0) = false.
Proof.
  intros Hk HF He. destruct (fold_scores k cs Hk (scores_ok_comparable _ HF)) as [(_ & _ & R & HL & _) _].
  rewrite reverse_Permutation in HL.
  assert (Hin : e ∈ candidate_entry <$> cs) by (rewrite <- HL; set_solver).
  apply list_elem_of_fmap in Hin as (c & -> & Hc). unfold scores_ok in HF. rewrite Forall_forall in HF. by apply HF.
Qed.

Lemma threshold_ok k cs : 0 < k -> scores_ok cs ->
  let th := tp_topk_threshold (foldl tp_topk_add (tp_topk_init k) cs) in
  is_nan th = false /\ f4_lt th (f4_of_Z 0) = false.
Proof.
  intros Hk HF th. unfold th, tp_topk_threshold. case_match; [|by split].
  destruct (entries _ !! 0) as [e|] eqn:E; [|by split].
  apply (fold_entries k cs); [done..|]. by eapply list_elem_of_lookup_2.
Qed.

(** The threshold only rises. *)
Lemma threshold_mono k cs c : 0 < k -> scores_ok (cs ++ [c]) ->
  f4_lt (tp_topk_threshold (foldl tp_topk_add (tp_topk_init k) (cs ++ [c])))
        (tp_topk_threshold (foldl tp_topk_add (tp_topk_init k) cs)) = false.
Proof.
  intros Hk HF. pose proof (threshold_ok k (cs ++ [c]) Hk HF) as [_ Hpos].
  pose proof HF as [HF0 [[Hnc _] _]%Forall_cons]%Forall_app.
  unfold tp_topk_threshold at 2.
  destruct (Nat.leb_spec (capacity (foldl tp_topk_add (tp_topk_init k) cs))
              (heap_size (foldl tp_topk_add (tp_topk_init k) cs))) as [Hfull|]; [|done].
  destruct (entries (foldl tp_topk_add (tp_topk_init k) cs) !! 0) as [root|] eqn:Eroot; [|done].
  pose proof (scores_ok_comparable _ HF0) as HC0.
  pose proof (fun e => root_least k cs root e Hk HC0 Eroot) as Hleast.
  rewrite foldl_app. cbn [foldl]. set (h := foldl tp_topk_add (tp_topk_init k) cs) in *.
  unfold tp_topk_threshold. rewrite capacity_add. rewrite tp_topk_add_unfold.
  rewrite (proj2 (Nat.ltb_ge _ _)) by done. rewrite Eroot.
  destruct (candidate_beats root c) eqn:Ebeats; cycle 1.
  { rewrite (proj2 (Nat.leb_le _ _)) by done. rewrite Eroot. apply f4_lt_irrefl. }
  assert (Hbeats : f4_lt (he_score (candidate_entry c)) (he_score root) = false).
  { apply (no_better_score no_preference).
    pose proof (candidate_beats_no_better no_preference root c) as Hcb. cbv zeta in Hcb.
    rewrite Ebeats in Hcb. apply Hcb. intros _ _. intros []. }
  assert (Hperm : entries (heap_replace_root h (candidate_entry c)) ≡ₚ
                  candidate_entry c :: tail (entries h)).
  { unfold heap_replace_root. cbn [entries]. unfold heap_sift_down. rewrite sift_down_perm.
    destruct (entries h); [done|]. done. }
  rewrite (proj2 (Nat.leb_le _ _)); cycle 1.
  { unfold heap_size in *. rewrite (Permutation_length Hperm). cbn [length].
    destruct (entries h); [done|]. simpl in *. lia. }
  destruct (entries (heap_replace_root h (candidate_entry c)) !! 0) as [root'|] eqn:Eroot'; cycle 1.
  { apply lookup_ge_None in Eroot'. rewrite (Permutation_length Hperm) in Eroot'. simpl in Eroot'. lia. }
  apply list_elem_of_lookup_2 in Eroot'. rewrite Hperm in Eroot'.
  apply elem_of_cons in Eroot' as [->|Hin]; [done|]. apply Hleast.
  destruct (entries h); [by apply elem_of_nil in Hin|]. by right.
Qed.

Lemma fold_memtable_candidates h rs :
  foldl (fun h r => tp_topk_add_memtable h r.1 r.2) h rs =
  foldl tp_topk_add h ((fun r => MemtableResult r.1 r.2) <$> rs).
Proof. revert h. induction rs as [|r rs IH]; intros h; simpl; auto. Qed.

Lemma fold_segment_candidates h seg ds :
  foldl (fun h d => tp_topk_add_segment h seg d.1 d.2) h ds =
  foldl tp_topk_add h ((fun d => SegmentResult seg d.1 d.2) <$> ds).
Proof. revert h. induction ds as [|d ds IH]; intros h; simpl; auto. Qed.

Lemma result_of_memtable (rs : list (ItemPointerData * float4)) :
  result_of <$> (candidate_entry <$> ((fun r => MemtableResult r.1 r.2) <$> rs)) = rs.
Proof.
  rewrite <- !list_fmap_compose. rewrite (list_fmap_ext _ id); [by rewrite list_fmap_id|].
  by intros _ [] _.
Qed.

(** C1: whatever memtable results are scored, the heap followed by extraction
    returns the k best of them in (score descending, CTID ascending) order:
    the output is sorted, nothing is lost or duplicated, and each result that
    was left out comes after every result that was returned. *)
Theorem topk_memtable_results (k : nat) (rs : list (ItemPointerData * float4)) :
  0 < k ->
  Forall (fun r => is_nan r.2 = false /\ ItemPointerIsValid r.1 = true) rs ->
  let h := foldl (fun h r => tp_topk_add_memtable h r.1 r.2) (tp_topk_init k) rs in
  let results := fst (tp_topk_extract h) in
  length results = Nat.min k (length rs) /\
  StronglySorted result_before results /\
  exists rejected, results ++ rejected ≡ₚ rs /\
    forall x y, x ∈ results -> y ∈ rejected -> result_before x y.
Proof.
  intros Hk HF h results. set (cs := (fun r => MemtableResult r.1 r.2) <$> rs).
  assert (Hcs : Forall (fun c => comparable (candidate_entry c) /\
      ItemPointerIsValid (he_ctid (candidate_entry c)) = true) cs)
    by (unfold cs; by apply Forall_fmap).
  assert (Hc : Forall (fun c => comparable (candidate_entry c)) cs)
    by (eapply Forall_impl; [exact Hcs|by intros c []]).
  destruct (fold_ctids k cs Hk Hcs) as [Hb Hcap].
  unfold cs in Hb, Hcap. rewrite <- fold_memtable_candidates in Hb, Hcap. fold h in Hb, Hcap.
  pose proof (keeps_best_length _ _ _ _ Hcap Hb) as Hlen. rewrite length_fmap in Hlen.
  destruct (extract_spec h (keeps_best_comparable _ _ _ Hc Hb)) as [Hp Hs].
  destruct Hb as (_ & _ & R & HL & _ & Hle). rewrite reverse_Permutation in HL.
  fold results in Hp, Hs. split; [by rewrite Hp, length_fmap|]. split; [done|].
  exists (result_of <$> R). split.
  - by rewrite Hp, <- fmap_app, HL, result_of_memtable.
  - intros x y. rewrite Hp. intros (a & -> & Ha)%list_elem_of_fmap (b & -> & Hb)%list_elem_of_fmap.
    exact (Hle a b Ha Hb).
Qed.

(** C2: for any mixture of memtable and segment results, the whole pipeline
    (additions, CTID resolution, extraction) returns min(k, n) results sorted by
    score; they are the resolved entries of candidates that were offered, and
    no candidate left out has a higher score than one returned. *)
Theorem topk_query_results (k : nat) (cs : list candidate)
    (open_ex : Z -> option (Z -> ItemPointerData)) :
  0 < k ->
  Forall (fun c => is_nan (he_score (candidate_entry c)) = false) cs ->
  let h := tp_topk_resolve_ctids open_ex (foldl tp_topk_add (tp_topk_init k) cs) in
  let results := fst (tp_topk_extract h) in
  length results = Nat.min k (length cs) /\
  StronglySorted result_before results /\
  exists kept rejected,
    kept ++ rejected ≡ₚ (candidate_entry <$> cs) /\
    results ≡ₚ (fun e => result_of (resolve_entry open_ex e)) <$> kept /\
    forall x y, x ∈ kept -> y ∈ rejected -> f4_lt (he_score x) (he_score y) = false.
Proof.
  intros Hk HF h results. destruct (fold_scores k cs Hk HF) as [Hb Hcap].
  set (h0 := foldl tp_topk_add _ cs) in *.
  pose proof (keeps_best_length _ _ _ _ Hcap Hb) as Hlen.
  pose proof (keeps_best_comparable _ _ _ HF Hb) as HC.
  assert (Eh : entries h = resolve_entry open_ex <$> entries h0)
    by (apply resolve_entries_spec).
  destruct (extract_spec h) as [Hp Hs].
  { rewrite Eh. apply Forall_fmap. eapply Forall_impl; [exact HC|].
    intros e He. unfold compose, comparable. by rewrite resolve_entry_score. }
  rewrite Eh in Hp. fold results in Hp, Hs.
  destruct Hb as (_ & _ & R & HL & _ & Hle). rewrite reverse_Permutation in HL.
  split; [by rewrite Hp, !length_fmap|]. split; [done|].
  exists (entries h0), R. split; [done|]. split; [by rewrite Hp, <- list_fmap_compose|].
  intros x y Hx Hy. by apply (no_better_score no_preference), Hle.
Qed.

(** Over one segment the heap keeps the k best documents for (score
    descending, doc_id ascending), which is CTID order inside a segment. *)
Theorem topk_segment_keeps_best (k : nat) (seg : Z) (ds : list (Z * float4)) :
  0 < k -> seg <> InvalidBlockNumber -> Forall (fun d => is_nan d.2 = false) ds ->
  let h := foldl (fun h d => tp_topk_add_segment h seg d.1 d.2) (tp_topk_init k) ds in
  heap_size h = Nat.min k (length ds) /\
  exists kept rejected, kept ++ rejected ≡ₚ ds /\
    ((fun e => (he_doc_id e, he_score e)) <$> entries h) = kept /\
    forall x y, x ∈ kept -> y ∈ rejected ->
      f4_lt y.2 x.2 = true \/ (f4_lt x.2 y.2 = false /\ ~ (y.1 < x.1)%Z).
Proof.
  intros Hk Hseg HF h. destruct (fold_doc_ids k seg ds Hk Hseg HF) as [Hb Hcap].
  rewrite <- fold_segment_candidates in Hb, Hcap. fold h in Hb, Hcap.
  pose proof (keeps_best_length _ _ _ _ Hcap Hb) as Hlen. rewrite length_fmap in Hlen.
  split; [done|]. destruct Hb as (_ & _ & R & HL & _ & Hle).
  rewrite reverse_Permutation in HL. set (key := fun e => (he_doc_id e, he_score e)).
  exists (key <$> entries h), (key <$> R). split; [|split; [done|]].
  - rewrite <- fmap_app, HL. rewrite <- !list_fmap_compose.
    rewrite (list_fmap_ext _ id); [by rewrite list_fmap_id|]. by intros _ [] _.
  - intros x y (a & -> & Ha)%list_elem_of_fmap (b & -> & Hb)%list_elem_of_fmap.
    exact (Hle a b Ha Hb).
Qed.

(** Pruning is safe.  In any heap reached by additions, a full heap's
    threshold is its lowest score, and a candidate whose score is dominated
    leaves the heap exactly as it was, so the scoring loops may skip it. *)
Theorem dominated_candidate_is_rejected (k : nat) (cs : list candidate) (c : candidate) :
  0 < k ->
  Forall (fun c => is_nan (he_score (candidate_entry c)) = false) cs ->
  let h := foldl tp_topk_add (tp_topk_init k) cs in
  (k <= length cs ->
   forall e, e ∈ entries h -> f4_lt (he_score e) (tp_topk_threshold h) = false) /\
  (tp_topk_dominated h (he_score (candidate_entry c)) = true -> tp_topk_add h c = h).
Proof.
  intros Hk HF h. destruct (fold_scores k cs Hk HF) as [Hb Hcap]. fold h in Hb, Hcap.
  pose proof (keeps_best_length _ _ _ _ Hcap Hb) as Hlen.
  split.
  - intros Hfull e He. unfold tp_topk_threshold.
    rewrite Hcap, (proj2 (Nat.leb_le k (heap_size h))) by lia.
    destruct (entries h !! 0) as [root|] eqn:Eroot; [by apply (root_least k cs)|].
    apply lookup_ge_None in Eroot. unfold heap_size in Hlen. lia.
  - apply add_dominated.
Qed.

(** Resolution opens each segment once, for the remaining entries of that
    segment together, and has the effect of resolving every entry on its own. *)
Theorem resolve_ctids_is_pointwise (open_ex : Z -> option (Z -> ItemPointerData))
    (h : TpTopKHeap) :
  tp_topk_resolve_ctids open_ex h =
    mkTpTopKHeap (resolve_entry open_ex <$> entries h) (capacity h).
Proof. unfold tp_topk_resolve_ctids, heap_size. by rewrite resolve_entries_spec. Qed.
End Properties.

(** Across segments the tie-break is by doc_id, not by CTID: with two
    segments whose documents tie on score, the heap can keep the document with
    the larger CTID, unlike the exhaustive path it is meant to agree with. *)
Theorem tie_break_across_segments :
  let lookup_a := fun d : Z => mkItemPointer 1 d in
  let lookup_b := fun d : Z => mkItemPointer 2 d in
  let open_ex := fun seg => if seg =? 9 then Some lookup_a else Some lookup_b in
  let h := foldl tp_topk_add (tp_topk_init 1)
             [SegmentResult 9 5 f4_one; SegmentResult 7 2 f4_one] in
  fst (tp_topk_extract (tp_topk_resolve_ctids open_ex h)) = [(lookup_b 2, f4_one)] /\
  ip_lt (lookup_a 5) (lookup_b 2).
Proof. split; [by vm_compute|]. unfold ip_lt. simpl. lia. Qed.

(** ** Witnesses *)

Definition demo_results : list (ItemPointerData * float4) :=
  [(mkItemPointer 1 1, f4_of_Z 3); (mkItemPointer 1 2, f4_of_Z 5);
   (mkItemPointer 1 3, f4_of_Z 3); (mkItemPointer 0 7, f4_of_Z 3)].

Definition demo_candidates : list candidate :=
  [MemtableResult (mkItemPointer 1 1) (f4_of_Z 3); SegmentResult 7 0 (f4_of_Z 4);
   SegmentResult 7 1 (f4_of_Z 2); SegmentResult 9 0 (f4_of_Z 4)].

Lemma topk_memtable_results_witness :
  fst (tp_topk_extract (foldl (fun h r => tp_topk_add_memtable h r.1 r.2)
         (tp_topk_init 2) demo_results)) =
    [(mkItemPointer 1 2, f4_of_Z 5); (mkItemPointer 0 7, f4_of_Z 3)] /\
  exists rejected : list (ItemPointerData * float4), length rejected = 2%nat.
Proof.
  split; [by vm_compute|].
  destruct (topk_memtable_results 2 demo_results) as (Hl & _ & R & HR & _);
    [lia|by repeat constructor|].
  exists R. apply Permutation_length in HR. rewrite length_app, Hl in HR.
  simpl in HR. lia.
Defined.

Lemma topk_query_results_witness :
  length (fst (tp_topk_extract (tp_topk_resolve_ctids
    (fun seg => if seg =? 7 then Some (mkItemPointer 8) else None)
    (foldl tp_topk_add (tp_topk_init 3) demo_candidates)))) = 3%nat.
Proof.
  destruct (topk_query_results 3 demo_candidates
    (fun seg => if seg =? 7 then Some (mkItemPointer 8) else None)) as (Hl & _);
    [lia|by repeat constructor|exact Hl].
Defined.

Lemma topk_segment_keeps_best_witness :
  heap_size (foldl (fun h d => tp_topk_add_segment h 7 d.1 d.2) (tp_topk_init 2)
    [(4, f4_one); (3, f4_one); (1, f4_one)]) = 2%nat.
Proof.
  destruct (topk_segment_keeps_best 2 7 [(4, f4_one); (3, f4_one); (1, f4_one)])
    as (Hl & _); [lia|done|by repeat constructor|exact Hl].
Defined.

Lemma dominated_candidate_is_rejected_witness :
  let h := foldl tp_topk_add (tp_topk_init 2) demo_candidates in
  tp_topk_dominated h (f4_of_Z 1) = true /\
  tp_topk_add h (SegmentResult 9 3 (f4_of_Z 1)) = h.
Proof.
  split; [by vm_compute|].
  apply (dominated_candidate_is_rejected 2 demo_candidates (SegmentResult 9 3 (f4_of_Z 1)));
    [lia|by repeat constructor|by vm_compute].
Defined.
