(* ===== verification/SegmentFormat.v ===== *)
(** * On-disk structures (src/segment/segment.h, src/constants.h)

    The C structs that are copied to and from segment pages with [memcpy], as
    records with their little-endian byte layout; padding bytes are fields.  A
    struct is described by the widths of its fields, so that one lemma gives
    every round trip. *)
From S2P Require Import Prelude.

(** ** Constants (src/constants.h, src/segment/segment.h) *)

Definition TP_METAPAGE_MAGIC : Z := 0x5450494D.
Definition TP_DOCID_PAGE_MAGIC : Z := 0x54504944.
Definition TP_SEGMENT_MAGIC : Z := 0x54505347.
Definition TP_PAGE_INDEX_MAGIC : Z := 0x54505049.
Definition TP_METAPAGE_VERSION : Z := 7.
Definition TP_DOCID_PAGE_VERSION : Z := 1.
Definition TP_PAGE_INDEX_VERSION : Z := 1.
Definition TP_PAGE_FILE_INDEX : Z := 2.
Definition TP_SEGMENT_FORMAT_V3 : Z := 3.
Definition TP_SEGMENT_FORMAT_V4 : Z := 4.
Definition TP_SEGMENT_FORMAT_VERSION : Z := 4.
Definition TP_BLOCK_SIZE : Z := 128.
Definition TP_TENANT_MODE_NONE : Z := 0.
Definition TP_TENANT_MODE_SINGLE : Z := 1.
Definition TP_TENANT_MODE_MIXED : Z := 2.
Definition TP_FLAG_HAS_TENANT_DATA : Z := 1.
Definition TP_FLAG_TENANT_ORDERED : Z := 2.
Definition TP_BLOCK_FLAG_UNCOMPRESSED : Z := 0.
Definition TP_BLOCK_FLAG_DELTA : Z := 1.

(** ** Layouts *)

(** A struct layout: the width in bytes of each field, in order. *)
Fixpoint encode_fields (ws : list nat) (vs : list Z) : list byte :=
  match ws, vs with
  | w :: ws', v :: vs' => le_bytes w v ++ encode_fields ws' vs'
  | _, _ => []
  end.

Fixpoint decode_fields (ws : list nat) (bs : list byte) : list Z :=
  match ws with
  | [] => []
  | w :: ws' => le_value (take w bs) :: decode_fields ws' (drop w bs)
  end.

Definition layout_size (ws : list nat) : nat := list_sum ws.

Definition fits (w : nat) (v : Z) : Prop := 0 <= v < 256 ^ Z.of_nat w.

Lemma length_encode_fields ws vs :
  length ws = length vs -> length (encode_fields ws vs) = layout_size ws.
Proof.
  revert vs. induction ws as [|w ws IH]; intros [|v vs] E; simplify_eq/=; [done|].
  by rewrite length_app, length_le_bytes, IH.
Qed.

Lemma decode_encode_fields ws vs rest :
  Forall2 fits ws vs -> decode_fields ws (encode_fields ws vs ++ rest) = vs.
Proof.
  induction 1 as [|w v ws vs Hv Hvs IH]; [done|]. simpl.
  rewrite <- app_assoc, take_app_length', drop_app_length' by (by rewrite length_le_bytes).
  rewrite IH. by rewrite le_value_bytes_small.
Qed.

(** ** The structs *)

Record TpSegmentHeader := mkSegmentHeader {
  magic : Z;
  version : Z;
  created_at : Z;
  num_pages : Z;
  data_size : Z;
  level : Z;
  next_segment : Z;
  dictionary_offset : Z;
  strings_offset : Z;
  entries_offset : Z;
  postings_offset : Z;
  skip_index_offset : Z;
  fieldnorm_offset : Z;
  ctid_pages_offset : Z;
  ctid_offsets_offset : Z;
  num_terms : Z;
  num_docs : Z;
  total_tokens : Z;
  page_index : Z;
  tenant_map_offset : Z;
  tenant_stats_offset : Z;
  tenant_docfreq_offset : Z;
  tenant_ranges_offset : Z;
  flags : Z;
}.

Definition TpSegmentHeader_layout : list nat :=
  [4; 4; 8; 4; 4; 4; 4; 4; 4; 4; 4; 4; 4; 4; 4; 4; 4; 8; 4; 4; 4; 4; 4; 4]%nat.

Definition header_fields (h : TpSegmentHeader) : list Z :=
  [magic h; version h; created_at h; num_pages h; data_size h; level h; next_segment h;
   dictionary_offset h; strings_offset h; entries_offset h; postings_offset h;
   skip_index_offset h; fieldnorm_offset h; ctid_pages_offset h; ctid_offsets_offset h;
   num_terms h; num_docs h; total_tokens h; page_index h; tenant_map_offset h;
   tenant_stats_offset h; tenant_docfreq_offset h; tenant_ranges_offset h; flags h].

(** [header->next_segment = next] *)
Definition with_next_segment (h : TpSegmentHeader) (next : Z) : TpSegmentHeader :=
  mkSegmentHeader (magic h) (version h) (created_at h) (num_pages h) (data_size h) (level h) next
    (dictionary_offset h) (strings_offset h) (entries_offset h) (postings_offset h)
    (skip_index_offset h) (fieldnorm_offset h) (ctid_pages_offset h) (ctid_offsets_offset h)
    (num_terms h) (num_docs h) (total_tokens h) (page_index h) (tenant_map_offset h)
    (tenant_stats_offset h) (tenant_docfreq_offset h) (tenant_ranges_offset h) (flags h).

Definition encode_header (h : TpSegmentHeader) : list byte :=
  encode_fields TpSegmentHeader_layout (header_fields h).

Definition decode_header (bs : list byte) : TpSegmentHeader :=
  match decode_fields TpSegmentHeader_layout bs with
  | [a; b; c; d; e; f; g; h; i; j; k; l; m; n; o; p; q; r; s; t; u; v; w; x] =>
      mkSegmentHeader a b c d e f g h i j k l m n o p q r s t u v w x
  | _ => mkSegmentHeader 0 0 0 0 0 0 0 0 0 0 0 0 0 0 0 0 0 0 0 0 0 0 0 0
  end.

Record TpDictEntry := mkDictEntry {
  de_skip_index_offset : Z;
  de_block_count : Z;
  de_doc_freq : Z;
}.

Definition TpDictEntry_layout : list nat := [4; 2; 2; 4]%nat.

Definition encode_dict_entry (d : TpDictEntry) : list byte :=
  encode_fields TpDictEntry_layout [de_skip_index_offset d; de_block_count d; 0; de_doc_freq d].

Definition decode_dict_entry (bs : list byte) : TpDictEntry :=
  match decode_fields TpDictEntry_layout bs with
  | [s; c; _; f] => mkDictEntry s c f
  | _ => mkDictEntry 0 0 0
  end.

(** Packed: 16 bytes.  [sk_tenant_mode] is [reserved[0]], [sk_tenant_low16] the
    two remaining reserved bytes. *)
Record TpSkipEntry := mkSkipEntry {
  sk_last_doc_id : Z;
  sk_doc_count : Z;
  sk_block_max_tf : Z;
  sk_block_max_norm : Z;
  sk_posting_offset : Z;
  sk_flags : Z;
  sk_tenant_mode : Z;
  sk_tenant_low16 : Z;
}.

Definition TpSkipEntry_layout : list nat := [4; 1; 2; 1; 4; 1; 1; 2]%nat.

Definition encode_skip_entry (s : TpSkipEntry) : list byte :=
  encode_fields TpSkipEntry_layout
    [sk_last_doc_id s; sk_doc_count s; sk_block_max_tf s; sk_block_max_norm s;
     sk_posting_offset s; sk_flags s; sk_tenant_mode s; sk_tenant_low16 s].

Definition decode_skip_entry (bs : list byte) : TpSkipEntry :=
  match decode_fields TpSkipEntry_layout bs with
  | [a; b; c; d; e; f; g; h] => mkSkipEntry a b c d e f g h
  | _ => mkSkipEntry 0 0 0 0 0 0 0 0
  end.

Record TpBlockPosting := mkBlockPosting {
  bp_doc_id : Z;
  bp_frequency : Z;
  bp_fieldnorm : Z;
}.

Definition TpBlockPosting_layout : list nat := [4; 2; 1; 1]%nat.

Definition encode_block_posting (p : TpBlockPosting) : list byte :=
  encode_fields TpBlockPosting_layout [bp_doc_id p; bp_frequency p; bp_fieldnorm p; 0].

Definition decode_block_posting (bs : list byte) : TpBlockPosting :=
  match decode_fields TpBlockPosting_layout bs with
  | [d; f; n; _] => mkBlockPosting d f n
  | _ => mkBlockPosting 0 0 0
  end.

Record TpPageIndexSpecial := mkPageIndexSpecial {
  pi_magic : Z;
  pi_version : Z;
  pi_page_type : Z;
  pi_next_page : Z;
  pi_num_entries : Z;
  pi_flags : Z;
}.

Definition TpPageIndexSpecial_layout : list nat := [4; 2; 2; 4; 2; 2]%nat.

Definition encode_page_index_special (s : TpPageIndexSpecial) : list byte :=
  encode_fields TpPageIndexSpecial_layout
    [pi_magic s; pi_version s; pi_page_type s; pi_next_page s; pi_num_entries s; pi_flags s].

Definition decode_page_index_special (bs : list byte) : TpPageIndexSpecial :=
  match decode_fields TpPageIndexSpecial_layout bs with
  | [a; b; c; d; e; f] => mkPageIndexSpecial a b c d e f
  | _ => mkPageIndexSpecial 0 0 0 0 0 0
  end.

(** ** Arrays of structs *)

Definition encode_array {A} (enc : A -> list byte) (l : list A) : list byte :=
  concat (enc <$> l).

(** [n] elements of [w] bytes. *)
Fixpoint decode_array {A} (w : nat) (dec : list byte -> A) (n : nat) (bs : list byte)
    : list A :=
  match n with
  | O => []
  | S n' => dec (take w bs) :: decode_array w dec n' (drop w bs)
  end.

Definition u32_bytes (z : Z) : list byte := le_bytes 4 z.
Definition u16_bytes (z : Z) : list byte := le_bytes 2 z.

Lemma length_encode_array {A} (enc : A -> list byte) w l :
  (forall a, length (enc a) = w) -> length (encode_array enc l) = (w * length l)%nat.
Proof.
  intros Hw. unfold encode_array. induction l as [|a l IH]; csimpl; [lia|].
  rewrite length_app, Hw, IH. lia.
Qed.

Lemma decode_encode_array {A} (enc : A -> list byte) (dec : list byte -> A) w l rest :
  (forall a, length (enc a) = w) -> (forall a, a ∈ l -> dec (enc a) = a) ->
  decode_array w dec (length l) (encode_array enc l ++ rest) = l.
Proof.
  intros Hw. unfold encode_array. induction l as [|a l IH]; intros Hd; csimpl; [done|].
  rewrite <- app_assoc, take_app_length', drop_app_length' by (by rewrite Hw).
  rewrite IH by (intros; apply Hd; by right). by rewrite Hd by (by left).
Qed.

(** An element of an encoded array, at its offset. *)
Lemma encode_array_slice {A} (enc : A -> list byte) w l (i : nat) a :
  (forall a, length (enc a) = w) -> l !! i = Some a ->
  take w (drop (w * i) (encode_array enc l)) = enc a.
Proof.
  intros Hw Hi. unfold encode_array.
  rewrite <- (take_drop_middle l i a Hi), fmap_app, concat_app.
  assert (E : length (concat (enc <$> take i l)) = (w * i)%nat).
  { change (concat (enc <$> take i l)) with (encode_array enc (take i l)).
    rewrite (length_encode_array _ w) by done.
    rewrite length_take. pose proof (lookup_lt_Some _ _ _ Hi). f_equal. lia. }
  rewrite drop_app_length' by done. csimpl. by rewrite take_app_length' by (by rewrite Hw).
Qed.

(** ** Sizes and round trips *)

Lemma length_encode_header h : length (encode_header h) = 104%nat.
Proof. by apply length_encode_fields. Qed.
Lemma length_encode_dict_entry d : length (encode_dict_entry d) = 12%nat.
Proof. by apply length_encode_fields. Qed.
Lemma length_encode_skip_entry s : length (encode_skip_entry s) = 16%nat.
Proof. by apply length_encode_fields. Qed.
Lemma length_encode_block_posting p : length (encode_block_posting p) = 8%nat.
Proof. by apply length_encode_fields. Qed.
Lemma length_encode_page_index_special s : length (encode_page_index_special s) = 16%nat.
Proof. by apply length_encode_fields. Qed.
Lemma length_u32_bytes z : length (u32_bytes z) = 4%nat.
Proof. apply length_le_bytes. Qed.
Lemma length_u16_bytes z : length (u16_bytes z) = 2%nat.
Proof. apply length_le_bytes. Qed.

Definition header_ok (h : TpSegmentHeader) : Prop :=
  Forall2 fits TpSegmentHeader_layout (header_fields h).
Definition dict_entry_ok (d : TpDictEntry) : Prop :=
  fits 4 (de_skip_index_offset d) /\ fits 2 (de_block_count d) /\ fits 4 (de_doc_freq d).
Definition skip_entry_ok (s : TpSkipEntry) : Prop :=
  fits 4 (sk_last_doc_id s) /\ fits 1 (sk_doc_count s) /\ fits 2 (sk_block_max_tf s) /\
  fits 1 (sk_block_max_norm s) /\ fits 4 (sk_posting_offset s) /\ fits 1 (sk_flags s) /\
  fits 1 (sk_tenant_mode s) /\ fits 2 (sk_tenant_low16 s).
Definition block_posting_ok (p : TpBlockPosting) : Prop :=
  fits 4 (bp_doc_id p) /\ fits 2 (bp_frequency p) /\ fits 1 (bp_fieldnorm p).
Definition page_index_special_ok (s : TpPageIndexSpecial) : Prop :=
  fits 4 (pi_magic s) /\ fits 2 (pi_version s) /\ fits 2 (pi_page_type s) /\
  fits 4 (pi_next_page s) /\ fits 2 (pi_num_entries s) /\ fits 2 (pi_flags s).

Lemma fits_0 w : fits w 0.
Proof. split; [done|]. apply Z.pow_pos_nonneg; lia. Qed.


Lemma decode_encode_header h rest : header_ok h -> decode_header (encode_header h ++ rest) = h.
Proof.
  intros Hok. unfold decode_header, encode_header.
  rewrite decode_encode_fields by done. by destruct h.
Qed.

Lemma decode_encode_dict_entry d rest :
  dict_entry_ok d -> decode_dict_entry (encode_dict_entry d ++ rest) = d.
Proof.
  destruct d. intros (? & ? & ?). unfold decode_dict_entry, encode_dict_entry.
  rewrite decode_encode_fields; [done|]. repeat (constructor; auto using fits_0).
Qed.

Lemma decode_encode_skip_entry s rest :
  skip_entry_ok s -> decode_skip_entry (encode_skip_entry s ++ rest) = s.
Proof.
  destruct s. intros (? & ? & ? & ? & ? & ? & ? & ?).
  unfold decode_skip_entry, encode_skip_entry.
  rewrite decode_encode_fields; [done|]. repeat (constructor; auto).
Qed.

Lemma decode_encode_block_posting p rest :
  block_posting_ok p -> decode_block_posting (encode_block_posting p ++ rest) = p.
Proof.
  destruct p. intros (? & ? & ?). unfold decode_block_posting, encode_block_posting.
  rewrite decode_encode_fields; [done|]. repeat (constructor; auto using fits_0).
Qed.

Lemma decode_encode_page_index_special s rest :
  page_index_special_ok s ->
  decode_page_index_special (encode_page_index_special s ++ rest) = s.
Proof.
  destruct s. intros (? & ? & ? & ? & ? & ?).
  unfold decode_page_index_special, encode_page_index_special.
  rewrite decode_encode_fields; [done|]. repeat (constructor; auto).
Qed.

(** Bytes read back as an integer. *)
Lemma u32_bytes_value z : 0 <= z < 2 ^ 32 -> le_value (u32_bytes z) = z.
Proof. intros. by apply le_value_bytes_small. Qed.
Lemma u16_bytes_value z : 0 <= z < 2 ^ 16 -> le_value (u16_bytes z) = z.
Proof. intros. by apply le_value_bytes_small. Qed.
