(* ===== verification/Compression.v ===== *)
(** * Block compression (rust/src/compression.rs, src/segment/compression.c)

    A block of at most 128 postings is stored as two header bytes (bit widths),
    the bit-packed document id deltas, the bit-packed frequencies and the
    fieldnorm bytes.  The packed stream of values [v_i] of [bits] bits is the
    little-endian number [sum v_i * 2^(bits * i)]; with that reading the encoder
    and the decoder are inverse, whatever follows the packed bytes.  The C file
    only forwards to these functions. *)
From S2P Require Import Prelude SegmentFormat.

Definition TP_MAX_COMPRESSED_BLOCK_SIZE : Z := 898.

(** [while bits < 32 && (1 << bits) <= max_value]; 31 rounds at most. *)
Fixpoint bit_width_loop (fuel : nat) (bits max_value : Z) : Z :=
  match fuel with
  | O => bits
  | S fuel' =>
      if (bits <? 32) && (2 ^ bits <=? max_value)
      then bit_width_loop fuel' (bits + 1) max_value else bits
  end.

Definition compute_bit_width (max_value : Z) : Z :=
  if max_value =? 0 then 1 else bit_width_loop 31 1 max_value.

Definition bit_mask (bits : Z) : Z :=
  if bits =? 32 then UINT32_MAX else 2 ^ bits - 1.

(** [while buf_bits >= 8]: the bytes written, and what stays in the buffer. *)
Fixpoint emit_bytes (fuel : nat) (buffer buf_bits : Z) : list Z * Z * Z :=
  match fuel with
  | O => ([], buffer, buf_bits)
  | S fuel' =>
      if 8 <=? buf_bits then
        let '(out, b, n) := emit_bytes fuel' (Z.shiftr buffer 8) (buf_bits - 8) in
        (Z.land buffer 0xFF :: out, b, n)
      else ([], buffer, buf_bits)
  end.

(** A value adds at most 32 bits to the less than 8 left: 5 rounds at most. *)
Fixpoint encode_values (values : list Z) (bits buffer buf_bits : Z) : list Z :=
  match values with
  | [] => if 0 <? buf_bits then [Z.land buffer 0xFF] else []
  | val :: values' =>
      let buffer1 := Z.lor buffer (u64 (Z.shiftl (Z.land val (bit_mask bits)) buf_bits)) in
      let '(out, b, n) := emit_bytes 5 buffer1 (buf_bits + bits) in
      out ++ encode_values values' bits b n
  end.

Definition bitpack_encode (values : list Z) (bits : Z) : list Z :=
  encode_values values bits 0 0.

(** [while buf_bits < bits]: bytes are pulled from the input, 4 at most. *)
Fixpoint fill_buffer (fuel : nat) (bits buffer buf_bits : Z) (input : list Z)
    : res (Z * Z * list Z) :=
  match fuel with
  | O => Ok (buffer, buf_bits, input)
  | S fuel' =>
      if buf_bits <? bits then
        match input with
        | [] => Err OUT_OF_BOUNDS_ACCESS
        | b :: input' =>
            fill_buffer fuel' bits (Z.lor buffer (u64 (Z.shiftl b buf_bits))) (buf_bits + 8) input'
        end
      else Ok (buffer, buf_bits, input)
  end.

Fixpoint decode_values (count : nat) (bits buffer buf_bits : Z) (input : list Z)
    : res (list Z) :=
  match count with
  | O => Ok []
  | S count' =>
      '(b, n, input1) ← fill_buffer 4 bits buffer buf_bits input;
      rest ← decode_values count' bits (Z.shiftr b bits) (n - bits) input1;
      Ok (Z.land (u32 b) (bit_mask bits) :: rest)
  end.

Definition bitpack_decode (input : list Z) (count : nat) (bits : Z) : res (list Z) :=
  decode_values count bits 0 0 input.

(** The deltas, in [u32]. *)
Fixpoint doc_deltas (prev_doc : Z) (doc_ids : list Z) : list Z :=
  match doc_ids with
  | [] => []
  | d :: ds => u32 (d - prev_doc) :: doc_deltas d ds
  end.

Definition list_max (l : list Z) : Z := foldl (fun m x => if m <? x then x else m) 0 l.

Definition compress_block (postings : list TpBlockPosting) : list Z :=
  match postings with
  | [] => []
  | _ :: _ =>
      let deltas := doc_deltas 0 (bp_doc_id <$> postings) in
      let frequencies := bp_frequency <$> postings in
      let doc_id_bits := compute_bit_width (list_max deltas) in
      let freq_bits := compute_bit_width (list_max frequencies) in
      [doc_id_bits; freq_bits] ++ bitpack_encode deltas doc_id_bits
        ++ bitpack_encode frequencies freq_bits ++ (bp_fieldnorm <$> postings)
  end.

Definition div_ceil_8 (n : Z) : Z := (n + 7) / 8.

(** Running sums from [prev_doc], in [u32]. *)
Fixpoint undelta (prev_doc : Z) (deltas : list Z) : list Z :=
  match deltas with
  | [] => []
  | d :: ds => let doc_id := u32 (prev_doc + d) in doc_id :: undelta doc_id ds
  end.

Definition make_posting (x : Z * Z * Z) : TpBlockPosting :=
  mkBlockPosting x.1.1 (u16 x.1.2) x.2.

Definition decompress_block (compressed : list Z) (count : nat) (first_doc_id : Z)
    : res (list TpBlockPosting) :=
  match count with
  | O => Ok []
  | S _ =>
      doc_id_bits ← zread compressed 0;
      freq_bits ← zread compressed 1;
      let doc_id_bytes := div_ceil_8 (Z.of_nat count * doc_id_bits) in
      let freq_bytes := div_ceil_8 (Z.of_nat count * freq_bits) in
      deltas ← bitpack_decode (drop 2 compressed) count doc_id_bits;
      let freq_start := 2 + doc_id_bytes in
      frequencies ← bitpack_decode (drop (Z.to_nat freq_start) compressed) count freq_bits;
      let fieldnorm_start := freq_start + freq_bytes in
      let norms := sub_list fieldnorm_start (Z.of_nat count) compressed in
      if zlen norms <? Z.of_nat count then Err OUT_OF_BOUNDS_ACCESS
      else Ok (make_posting <$> zip (zip (undelta first_doc_id deltas) frequencies) norms)
  end.

Definition compressed_block_size (compressed : list Z) (count : Z) : res Z :=
  if count =? 0 then Ok 0
  else
    doc_id_bits ← zread compressed 0;
    freq_bits ← zread compressed 1;
    Ok (2 + div_ceil_8 (count * doc_id_bits) + div_ceil_8 (count * freq_bits) + count).

(** ** Packed streams as numbers *)

Fixpoint stream_value (bits : Z) (values : list Z) : Z :=
  match values with
  | [] => 0
  | v :: vs => v + 2 ^ bits * stream_value bits vs
  end.

Fixpoint bytes_value (bs : list Z) : Z :=
  match bs with
  | [] => 0
  | b :: bs' => b + 256 * bytes_value bs'
  end.

Lemma lor_shiftl a b n : 0 <= n -> 0 <= a < 2 ^ n -> Z.lor a (Z.shiftl b n) = a + b * 2 ^ n.
Proof.
  intros Hn Ha. rewrite <- Z.lxor_lor, <- Z.add_nocarry_lxor; [by rewrite Z.shiftl_mul_pow2|..].
  all: apply Z.bits_inj'; intros i Hi; rewrite Z.land_spec, Z.bits_0.
  all: destruct (Z.lt_ge_cases i n);
    [rewrite Z.shiftl_spec_low by done; apply andb_false_r|].
  all: destruct (Z.eq_dec a 0) as [->|]; [by rewrite Z.bits_0|].
  all: rewrite (Z.bits_above_log2 a i); [done|lia|].
  all: apply Z.log2_lt_pow2; [lia|]; eapply Z.lt_le_trans; [apply Ha|]; apply Z.pow_le_mono_r; lia.
Qed.

Lemma land_mask v bits : 0 <= bits <= 32 -> Z.land v (bit_mask bits) = v mod 2 ^ bits.
Proof.
  intros Hb. unfold bit_mask. destruct (Z.eqb_spec bits 32) as [->|].
  - change UINT32_MAX with (Z.ones 32). by rewrite Z.land_ones.
  - rewrite <- (Z.land_ones v bits) by lia. by rewrite Z.ones_equiv.
Qed.

Lemma land_255 v : Z.land v 0xFF = v mod 256.
Proof. change 0xFF with (Z.ones 8). by rewrite Z.land_ones. Qed.

Lemma compute_bit_width_spec v : 0 <= v < 2 ^ 32 ->
  1 <= compute_bit_width v <= 32 /\ v < 2 ^ compute_bit_width v.
Proof.
  intros Hv. unfold compute_bit_width.
  destruct (Z.eqb_spec v 0) as [->|Hn]; [done|].
  assert (Hloop : forall fuel bits, 1 <= bits <= 32 -> 32 - bits <= Z.of_nat fuel ->
    1 <= bit_width_loop fuel bits v <= 32 /\ v < 2 ^ bit_width_loop fuel bits v).
  { induction fuel as [|fuel IH]; intros bits Hb Hf; cbn [bit_width_loop].
    - replace bits with 32 by lia. lia.
    - destruct (Z.ltb_spec bits 32) as [L|L]; cbn [andb].
      + destruct (Z.leb_spec (2 ^ bits) v); [apply IH; lia|lia].
      + replace bits with 32 by lia. lia. }
  apply Hloop; lia.
Qed.

Lemma list_max_ge l x : x ∈ l -> x <= list_max l.
Proof.
  unfold list_max. assert (H : forall l m, m <= foldl (fun m x => if m <? x then x else m) m l /\
    forall x, x ∈ l -> x <= foldl (fun m x => if m <? x then x else m) m l).
  { clear. induction l as [|y l IH]; intros m; simpl; [split; [lia|set_solver]|].
    destruct (IH (if m <? y then y else m)) as [Hm Hx].
    split; [destruct (Z.ltb_spec m y); lia|].
    intros x [->|Hin]%elem_of_cons; [|by apply Hx]. destruct (Z.ltb_spec m y); lia. }
  intros Hx. by apply H.
Qed.

Lemma list_max_lt l n : 0 < n -> Forall (fun x => 0 <= x < n) l -> 0 <= list_max l < n.
Proof.
  intros Hn HF. unfold list_max.
  assert (H : forall m, 0 <= m < n -> 0 <= foldl (fun m x => if m <? x then x else m) m l < n).
  { induction HF as [|y l Hy HF IH]; intros m Hm; simpl; [done|]. apply IH. case_match; lia. }
  apply H. lia.
Qed.

(** ** Encoding *)

Lemma emit_bytes_spec fuel : forall buffer n,
  0 <= n -> 0 <= buffer < 2 ^ n -> n < 8 * Z.of_nat fuel + 8 ->
  exists out b m, emit_bytes fuel buffer n = (out, b, m) /\ 0 <= m < 8 /\ 0 <= b < 2 ^ m /\
    n = 8 * zlen out + m /\ Forall (fun x => 0 <= x < 256) out /\
    forall X, bytes_value out + 2 ^ (8 * zlen out) * (b + 2 ^ m * X) = buffer + 2 ^ n * X.
Proof.
  induction fuel as [|fuel IH]; intros buffer n Hn Hb Hf; cbn [emit_bytes].
  { exists [], buffer, n. split; [done|]. split; [lia|]. split; [done|].
    split; [unfold zlen; simpl; lia|]. split; [constructor|]. intros X.
    cbn [bytes_value]. change (zlen (@nil Z)) with 0; rewrite Z.mul_0_r, Z.pow_0_r. lia. }
  destruct (Z.leb_spec 8 n) as [L|L].
  - assert (Hshift : 0 <= Z.shiftr buffer 8 < 2 ^ (n - 8)).
    { rewrite Z.shiftr_div_pow2 by lia. split; [apply Z.div_pos; lia|].
      apply Z.div_lt_upper_bound; [done|]. rewrite <- Z.pow_add_r by lia.
      replace (8 + (n - 8)) with n by lia. lia. }
    destruct (IH (Z.shiftr buffer 8) (n - 8)) as (out & b & m & -> & Hm & Hb' & Hlen & HF & HX);
      [lia|done|lia|].
    exists (Z.land buffer 0xFF :: out), b, m. split; [done|]. split; [done|]. split; [done|].
    rewrite zlen_cons. split; [lia|]. rewrite land_255.
    pose proof (Z.mod_pos_bound buffer 256 ltac:(lia)).
    split; [by constructor|]. intros X. cbn [bytes_value].
    pose proof (zlen_nonneg out).
    replace (8 * (1 + zlen out)) with (8 + 8 * zlen out) by lia. rewrite Z.pow_add_r by lia.
    specialize (HX X). rewrite Z.shiftr_div_pow2 in HX by lia.
    replace n with (8 + (n - 8)) by lia. rewrite Z.pow_add_r by lia.
    change (2 ^ 8) with 256 in *.
    pose proof (Z.div_mod buffer 256 ltac:(lia)). nia.
  - exists [], buffer, n. split; [done|]. split; [lia|]. split; [done|].
    split; [unfold zlen; simpl; lia|]. split; [constructor|]. intros X.
    cbn [bytes_value]. change (zlen (@nil Z)) with 0; rewrite Z.mul_0_r, Z.pow_0_r. lia.
Qed.

Lemma stream_value_range bits vs : 0 <= bits ->
  Forall (fun v => 0 <= v < 2 ^ bits) vs -> 0 <= stream_value bits vs < 2 ^ (bits * zlen vs).
Proof.
  intros Hb. induction 1 as [|v vs Hv Hvs IH]; [change (zlen (@nil Z)) with 0; rewrite Z.mul_0_r; done|].
  cbn [stream_value]. rewrite zlen_cons. pose proof (zlen_nonneg vs).
  replace (bits * (1 + zlen vs)) with (bits + bits * zlen vs) by lia.
  rewrite Z.pow_add_r by nia. nia.
Qed.

Lemma encode_values_spec bits : 1 <= bits <= 32 -> forall vs buffer n,
  Forall (fun v => 0 <= v < 2 ^ bits) vs -> 0 <= n < 8 -> 0 <= buffer < 2 ^ n ->
  let out := encode_values vs bits buffer n in
  Forall (fun x => 0 <= x < 256) out /\ zlen out = div_ceil_8 (n + bits * zlen vs) /\
  bytes_value out = buffer + 2 ^ n * stream_value bits vs.
Proof.
  intros Hbits. induction vs as [|v vs IH]; intros buffer n HF Hn Hb; cbn [encode_values stream_value].
  - change (zlen (@nil Z)) with 0. rewrite Z.mul_0_r, Z.add_0_r. unfold div_ceil_8.
    destruct (Z.ltb_spec 0 n) as [L|L].
    + assert (Hlt : buffer < 256).
      { eapply Z.lt_le_trans; [apply Hb|]. change 256 with (2 ^ 8). apply Z.pow_le_mono_r; lia. }
      rewrite land_255, Z.mod_small by lia. simpl.
      split; [repeat constructor; lia|]. split; [|lia]. change (zlen [buffer]) with 1. lia.
    + assert (n = 0) as -> by lia. simpl in Hb. split; [constructor|]. split; [done|]. simpl. lia.
  - apply Forall_cons in HF as [Hv HF]. rewrite (land_mask v) by lia.
    rewrite (Z.mod_small v) by lia.
    assert (Hv' : 0 <= Z.shiftl v n < 2 ^ 64).
    { rewrite Z.shiftl_mul_pow2 by lia. split; [apply Z.mul_nonneg_nonneg; lia|].
      apply Z.lt_le_trans with (2 ^ bits * 2 ^ n); [apply Z.mul_lt_mono_pos_r; lia|].
      rewrite <- Z.pow_add_r by lia. apply Z.pow_le_mono_r; lia. }
    rewrite (wrap_small 64) by done. rewrite lor_shiftl by lia.
    assert (Hb1 : 0 <= buffer + v * 2 ^ n < 2 ^ (n + bits)).
    { rewrite Z.pow_add_r by lia. nia. }
    destruct (emit_bytes_spec 5 (buffer + v * 2 ^ n) (n + bits))
      as (out & b & m & -> & Hm & Hb' & Hlen & HFo & HX); [lia|done|lia|].
    destruct (IH b m HF Hm Hb') as (HFr & Hlr & Hvr). clear IH.
    pose proof (zlen_nonneg out). pose proof (zlen_nonneg vs).
    split; [by apply Forall_app|]. split.
    + rewrite zlen_app, zlen_cons, Hlr. unfold div_ceil_8.
      replace (n + bits * (1 + zlen vs) + 7) with (m + bits * zlen vs + 7 + zlen out * 8) by lia.
      rewrite Z.div_add by lia. lia.
    + assert (Happ : forall l1 l2, bytes_value (l1 ++ l2) =
        bytes_value l1 + 2 ^ (8 * zlen l1) * bytes_value l2).
      { clear. induction l1 as [|x l1 IH]; intros l2; [cbn [app bytes_value]; change (zlen (@nil Z)) with 0; rewrite Z.mul_0_r, Z.pow_0_r; lia|]. cbn [app bytes_value]. rewrite IH, zlen_cons.
        pose proof (zlen_nonneg l1).
        replace (8 * (1 + zlen l1)) with (8 + 8 * zlen l1) by lia. rewrite Z.pow_add_r by lia.
        change (2 ^ 8) with 256. lia. }
      rewrite Happ, Hvr, HX, Z.pow_add_r by lia. lia.
Qed.

(** ** Decoding *)

Fixpoint digits (count : nat) (bits V : Z) : list Z :=
  match count with
  | O => []
  | S count' => V mod 2 ^ bits :: digits count' bits (V / 2 ^ bits)
  end.

Lemma digits_stream_value bits vs X : 0 <= bits ->
  Forall (fun v => 0 <= v < 2 ^ bits) vs ->
  digits (length vs) bits (stream_value bits vs + 2 ^ (bits * zlen vs) * X) = vs.
Proof.
  intros Hb. induction 1 as [|v vs Hv Hvs IH]; [done|].
  cbn [length digits stream_value]. rewrite zlen_cons. pose proof (zlen_nonneg vs).
  replace (bits * (1 + zlen vs)) with (bits + bits * zlen vs) by lia.
  rewrite Z.pow_add_r by nia.
  replace (v + 2 ^ bits * stream_value bits vs + 2 ^ bits * 2 ^ (bits * zlen vs) * X)
    with (v + (stream_value bits vs + 2 ^ (bits * zlen vs) * X) * 2 ^ bits) by lia.
  assert (0 < 2 ^ bits) by lia.
  rewrite Z.mod_add, Z.div_add, Z.mod_small, Z.div_small by lia. by rewrite Z.add_0_l, IH.
Qed.

Definition is_byte (x : Z) : Prop := 0 <= x < 256.

Lemma fill_buffer_spec bits : bits <= 32 -> forall fuel buffer n input,
  0 <= n -> 0 <= buffer < 2 ^ n -> Forall is_byte input ->
  bits <= n + 8 * Z.of_nat fuel -> bits <= n + 8 * zlen input -> n < bits + 8 ->
  exists b m rest, fill_buffer fuel bits buffer n input = Ok (b, m, rest) /\
    bits <= m < bits + 8 /\ 0 <= b < 2 ^ m /\ Forall is_byte rest /\
    m + 8 * zlen rest = n + 8 * zlen input /\
    b + 2 ^ m * bytes_value rest = buffer + 2 ^ n * bytes_value input.
Proof.
  intros Hbits. induction fuel as [|fuel IH]; intros buffer n input Hn Hb HF Hf Hin Hlt;
    cbn [fill_buffer].
  { exists buffer, n, input. repeat (split; [done || lia|]). done. }
  destruct (Z.ltb_spec n bits) as [L|L]; cycle 1.
  { exists buffer, n, input. repeat (split; [done || lia|]). done. }
  destruct input as [|x input].
  { change (zlen (@nil Z)) with 0 in Hin. lia. }
  apply Forall_cons in HF as [Hx HF]. unfold is_byte in Hx. rewrite zlen_cons in Hin.
  assert (Hsh : 0 <= Z.shiftl x n < 2 ^ 64).
  { rewrite Z.shiftl_mul_pow2 by lia. split; [apply Z.mul_nonneg_nonneg; lia|].
    apply Z.lt_le_trans with (2 ^ 8 * 2 ^ n); [apply Z.mul_lt_mono_pos_r; lia|].
    rewrite <- Z.pow_add_r by lia. apply Z.pow_le_mono_r; lia. }
  rewrite (wrap_small 64) by done. rewrite lor_shiftl by lia.
  destruct (IH (buffer + x * 2 ^ n) (n + 8) input) as (b & m & rest & -> & Hm & Hb' & HFr & Hl & HV);
    try done; try lia.
  { rewrite Z.pow_add_r by lia. change (2 ^ 8) with 256. nia. }
  exists b, m, rest. split; [done|]. split; [done|]. split; [done|]. split; [done|].
  rewrite zlen_cons. split; [lia|]. rewrite HV, Z.pow_add_r by lia. cbn [bytes_value].
  change (2 ^ 8) with 256. lia.
Qed.

Lemma decode_values_spec bits : 1 <= bits <= 32 -> forall count buffer n input,
  0 <= n < 8 -> 0 <= buffer < 2 ^ n -> Forall is_byte input ->
  bits * Z.of_nat count <= n + 8 * zlen input ->
  decode_values count bits buffer n input =
    Ok (digits count bits (buffer + 2 ^ n * bytes_value input)).
Proof.
  intros Hbits. induction count as [|count IH]; intros buffer n input Hn Hb HF Hin;
    cbn [decode_values digits]; [done|].
  destruct (fill_buffer_spec bits ltac:(lia) 4 buffer n input) as
    (b & m & rest & -> & Hm & Hb' & HFr & Hl & HV); [lia|lia|done|lia|nia|lia|].
  cbn [mbind res_bind].
  assert (Hpow : 2 ^ m = 2 ^ bits * 2 ^ (m - bits)) by (rewrite <- Z.pow_add_r by lia; f_equal; lia).
  assert (Hp1 : 0 < 2 ^ bits) by lia. assert (Hp2 : 0 < 2 ^ (m - bits)) by lia.
  assert (Hsr : 0 <= Z.shiftr b bits < 2 ^ (m - bits)).
  { rewrite Z.shiftr_div_pow2 by lia. split; [apply Z.div_pos; lia|].
    apply Z.div_lt_upper_bound; lia. }
  rewrite (IH (Z.shiftr b bits) (m - bits) rest) by (done || lia || nia).
  cbn [mbind res_bind]. rewrite <- HV, land_mask by lia. unfold wrap.
  assert (E1 : (b mod 2 ^ 32) mod 2 ^ bits = b mod 2 ^ bits).
  { replace 32 with (bits + (32 - bits)) by lia. rewrite Z.pow_add_r by lia.
    assert (0 < 2 ^ (32 - bits)) by lia.
    rewrite Z.rem_mul_r by lia. by rewrite (Z.mul_comm (2 ^ bits)), Z.mod_add, Z.mod_mod by lia. }
  rewrite E1, Hpow. do 2 f_equal.
  - replace (b + 2 ^ bits * 2 ^ (m - bits) * bytes_value rest)
      with (b + 2 ^ (m - bits) * bytes_value rest * 2 ^ bits) by lia.
    by rewrite Z.mod_add by lia.
  - f_equal. rewrite Z.shiftr_div_pow2 by lia.
    replace (b + 2 ^ bits * 2 ^ (m - bits) * bytes_value rest)
      with (b + 2 ^ (m - bits) * bytes_value rest * 2 ^ bits) by lia.
    by rewrite Z.div_add by lia.
Qed.

Lemma bytes_value_app l1 l2 :
  bytes_value (l1 ++ l2) = bytes_value l1 + 2 ^ (8 * zlen l1) * bytes_value l2.
Proof.
  induction l1 as [|x l1 IH]; cbn [app bytes_value].
  { change (zlen (@nil Z)) with 0. rewrite Z.mul_0_r, Z.pow_0_r. lia. }
  rewrite IH, zlen_cons. pose proof (zlen_nonneg l1).
  replace (8 * (1 + zlen l1)) with (8 + 8 * zlen l1) by lia. rewrite Z.pow_add_r by lia.
  change (2 ^ 8) with 256. lia.
Qed.

(** Packing then unpacking, whatever bytes follow. *)
Lemma bitpack_roundtrip bits vs rest :
  1 <= bits <= 32 -> Forall (fun v => 0 <= v < 2 ^ bits) vs -> Forall is_byte rest ->
  zlen (bitpack_encode vs bits) = div_ceil_8 (bits * zlen vs) /\
  Forall is_byte (bitpack_encode vs bits) /\
  bitpack_decode (bitpack_encode vs bits ++ rest) (length vs) bits = Ok vs.
Proof.
  intros Hbits HF Hrest. unfold bitpack_encode, bitpack_decode.
  destruct (encode_values_spec bits Hbits vs 0 0 HF ltac:(lia) ltac:(done)) as (HB & Hl & HV).
  set (out := encode_values vs bits 0 0) in *. rewrite Z.add_0_l in Hl.
  split; [done|]. split; [done|].
  assert (Hge : bits * zlen vs <= 8 * zlen out) by (rewrite Hl; unfold div_ceil_8; lia).
  rewrite decode_values_spec; [|done|lia|done|by apply Forall_app|].
  - f_equal. rewrite bytes_value_app, HV.
    rewrite Z.add_0_l, Z.pow_0_r, Z.mul_1_l, Z.add_0_l, Z.mul_1_l.
    replace (8 * zlen out) with (bits * zlen vs + (8 * zlen out - bits * zlen vs)) by lia.
    pose proof (zlen_nonneg vs). rewrite Z.pow_add_r by nia.
    rewrite <- Z.mul_assoc. apply digits_stream_value; [lia|done].
  - rewrite zlen_app. pose proof (zlen_nonneg rest). unfold zlen in *. lia.
Qed.

(** ** Blocks *)

(** Document ids never decrease inside a block. *)
Fixpoint increasing_from (prev : Z) (ids : list Z) : Prop :=
  match ids with
  | [] => True
  | d :: ds => prev <= d /\ increasing_from d ds
  end.

Lemma doc_deltas_range prev ids : 0 <= prev -> Forall (fun d => d < 2 ^ 32) ids ->
  increasing_from prev ids -> Forall (fun d => 0 <= d < 2 ^ 32) (doc_deltas prev ids).
Proof.
  intros Hp HF. revert prev Hp. induction HF as [|d ds Hd HF IH]; intros prev Hp Hi; simpl in *;
    constructor.
  - rewrite wrap_small; lia.
  - apply IH; [lia|tauto].
Qed.

Lemma undelta_doc_deltas prev ids : 0 <= prev -> Forall (fun d => d < 2 ^ 32) ids ->
  increasing_from prev ids -> undelta prev (doc_deltas prev ids) = ids.
Proof.
  intros Hp HF. revert prev Hp. induction HF as [|d ds Hd HF IH]; intros prev Hp Hi; simpl in *;
    [done|].
  destruct Hi as [Hle Hi]. rewrite (wrap_small 32 (d - prev)) by lia.
  rewrite (wrap_small 32) by lia. replace (prev + (d - prev)) with d by lia.
  f_equal. apply IH; [lia|done].
Qed.

Lemma length_doc_deltas prev ids : length (doc_deltas prev ids) = length ids.
Proof. revert prev. induction ids; intros; simpl; auto. Qed.

Lemma list_max_width l : Forall (fun x => 0 <= x < 2 ^ 32) l ->
  let bits := compute_bit_width (list_max l) in
  1 <= bits <= 32 /\ Forall (fun x => 0 <= x < 2 ^ bits) l.
Proof.
  intros HF bits. pose proof (list_max_lt l (2 ^ 32) ltac:(lia) HF) as Hm.
  destruct (compute_bit_width_spec (list_max l) Hm) as [Hb Hlt]. split; [done|].
  apply Forall_forall. intros x Hx. pose proof (list_max_ge l x Hx).
  rewrite Forall_forall in HF. apply HF in Hx. fold bits in Hlt. lia.
Qed.

Lemma zip_postings (ps : list TpBlockPosting) :
  Forall block_posting_ok ps ->
  make_posting <$> zip (zip (bp_doc_id <$> ps) (bp_frequency <$> ps)) (bp_fieldnorm <$> ps) = ps.
Proof.
  induction 1 as [|[d f n] ps (Hd & Hf & Hn) HF IH]; csimpl; [done|]. f_equal; [|done].
  unfold make_posting. simpl. unfold fits in Hf. simpl in Hf. rewrite wrap_small; [done|lia].
Qed.

Lemma compress_block_nonempty ps : ps <> [] ->
  let deltas := doc_deltas 0 (bp_doc_id <$> ps) in
  let freqs := bp_frequency <$> ps in
  let b1 := compute_bit_width (list_max deltas) in
  let b2 := compute_bit_width (list_max freqs) in
  compress_block ps = [b1; b2] ++ bitpack_encode deltas b1 ++ bitpack_encode freqs b2
    ++ (bp_fieldnorm <$> ps).
Proof. by destruct ps. Qed.

(** A compressed block followed by any bytes is decompressed to the block. *)
Lemma decompress_compress ps rest :
  Forall block_posting_ok ps -> increasing_from 0 (bp_doc_id <$> ps) -> Forall is_byte rest ->
  decompress_block (compress_block ps ++ rest) (length ps) 0 = Ok ps.
Proof.
  intros HF Hinc Hrest. destruct ps as [|p0 ps0] eqn:Eps; [done|]. rewrite <- Eps in *.
  set (deltas := doc_deltas 0 (bp_doc_id <$> ps)). set (freqs := bp_frequency <$> ps).
  assert (Hids : Forall (fun d => d < 2 ^ 32) (bp_doc_id <$> ps)).
  { apply Forall_fmap. eapply Forall_impl; [exact HF|]. intros p (Hd & _). unfold fits in Hd.
    simpl in Hd. simpl. lia. }
  assert (Hd : Forall (fun d => 0 <= d < 2 ^ 32) deltas) by (by apply doc_deltas_range).
  assert (Hf : Forall (fun d => 0 <= d < 2 ^ 32) freqs).
  { apply Forall_fmap. eapply Forall_impl; [exact HF|]. intros p (_ & Hp & _). unfold fits in Hp.
    simpl in Hp. simpl. lia. }
  assert (Hn : Forall is_byte (bp_fieldnorm <$> ps)).
  { apply Forall_fmap. eapply Forall_impl; [exact HF|]. intros p (_ & _ & Hp). unfold fits in Hp.
    simpl in Hp. unfold is_byte. simpl. lia. }
  destruct (list_max_width deltas Hd) as [Hb1 Hd']. destruct (list_max_width freqs Hf) as [Hb2 Hf'].
  set (b1 := compute_bit_width (list_max deltas)) in *.
  set (b2 := compute_bit_width (list_max freqs)) in *.
  assert (Ec : compress_block ps = [b1; b2] ++ bitpack_encode deltas b1 ++ bitpack_encode freqs b2
    ++ (bp_fieldnorm <$> ps)) by (apply compress_block_nonempty; by rewrite Eps).
  assert (Ecount : exists c, length ps = S c) by (rewrite Eps; by eexists).
  destruct Ecount as [c Ecount]. unfold decompress_block. rewrite Ecount at 1. clear Ecount.
  rewrite Ec. cbn [app].
  assert (Ez0 : forall l, zread (b1 :: b2 :: l) 0 = Ok b1) by done.
  assert (Ez1 : forall l, zread (b1 :: b2 :: l) 1 = Ok b2) by done.
  rewrite Ez0, Ez1. cbn [mbind res_bind]. rewrite <- !app_assoc.
  set (tail2 := (bp_fieldnorm <$> ps) ++ rest). set (tail1 := bitpack_encode freqs b2 ++ tail2).
  assert (Ht2 : Forall is_byte tail2) by (by apply Forall_app).
  assert (Elen1 : length deltas = length ps) by (unfold deltas; by rewrite length_doc_deltas, length_fmap).
  assert (Elen2 : length freqs = length ps) by (unfold freqs; by rewrite length_fmap).
  destruct (bitpack_roundtrip b2 freqs tail2 Hb2 Hf' Ht2) as (Hz2 & HB2 & Hr2).
  assert (Ht1 : Forall is_byte tail1) by (by apply Forall_app).
  destruct (bitpack_roundtrip b1 deltas tail1 Hb1 Hd' Ht1) as (Hz1 & HB1 & Hr1).
  rewrite Elen1 in Hr1. rewrite Elen2 in Hr2.
  assert (Edrop : forall n l, drop (S (S n)) (b1 :: b2 :: l) = drop n l) by done.
  rewrite (Edrop 0%nat), drop_0, Hr1. cbn [mbind res_bind].
  replace (Z.of_nat (length ps) * b1) with (b1 * zlen deltas) by (unfold zlen; rewrite Elen1; lia).
  replace (Z.of_nat (length ps) * b2) with (b2 * zlen freqs) by (unfold zlen; rewrite Elen2; lia).
  rewrite <- Hz1, <- Hz2.
  set (L1 := zlen (bitpack_encode deltas b1)) in *. set (L2 := zlen (bitpack_encode freqs b2)) in *.
  assert (HL1 : 0 <= L1) by apply zlen_nonneg. assert (HL2 : 0 <= L2) by apply zlen_nonneg.
  replace (Z.to_nat (2 + L1)) with (S (S (length (bitpack_encode deltas b1))))
    by (unfold L1, zlen; lia).
  rewrite Edrop, drop_app_length. fold tail1 in Hr2. rewrite Hr2. cbn [mbind res_bind].
  assert (Hnorms : sub_list (2 + L1 + L2) (Z.of_nat (length ps))
    (b1 :: b2 :: bitpack_encode deltas b1 ++ tail1) = (bp_fieldnorm <$> ps)).
  { unfold sub_list. replace (Z.to_nat (2 + L1 + L2)) with
      (S (S (length (bitpack_encode deltas b1) + length (bitpack_encode freqs b2))))
      by (unfold L1, L2, zlen; lia).
    rewrite Edrop, <- drop_drop, drop_app_length. unfold tail1. rewrite drop_app_length.
    unfold tail2. rewrite take_app_length'; [done|]. rewrite length_fmap. lia. }
  rewrite Hnorms. rewrite (proj2 (Z.ltb_ge _ _)) by (unfold zlen; rewrite length_fmap; lia).
  unfold deltas. rewrite undelta_doc_deltas by done. unfold freqs. by rewrite zip_postings.
Qed.

Lemma length_compress_block ps :
  ps <> [] -> Forall block_posting_ok ps -> increasing_from 0 (bp_doc_id <$> ps) ->
  let b1 := compute_bit_width (list_max (doc_deltas 0 (bp_doc_id <$> ps))) in
  let b2 := compute_bit_width (list_max (bp_frequency <$> ps)) in
  1 <= b1 <= 32 /\ 1 <= b2 <= 16 /\
  zlen (compress_block ps) =
    2 + div_ceil_8 (b1 * zlen ps) + div_ceil_8 (b2 * zlen ps) + zlen ps.
Proof.
  intros Hne HF Hinc b1 b2.
  assert (Hids : Forall (fun d => d < 2 ^ 32) (bp_doc_id <$> ps)).
  { apply Forall_fmap. eapply Forall_impl; [exact HF|]. intros p (Hd & _).
    unfold fits in Hd. simpl in Hd |- *. lia. }
  assert (Hf : Forall (fun d => 0 <= d < 2 ^ 16) (bp_frequency <$> ps)).
  { apply Forall_fmap. eapply Forall_impl; [exact HF|]. intros p (_ & Hp & _).
    unfold fits in Hp. simpl in Hp |- *. lia. }
  destruct (list_max_width _ (doc_deltas_range 0 _ ltac:(lia) Hids Hinc)) as [Hb1 Hd'].
  destruct (list_max_width (bp_frequency <$> ps)) as [Hb2 Hf'].
  { eapply Forall_impl; [exact Hf|]. simpl. lia. }
  fold b1 in Hb1, Hd'. fold b2 in Hb2, Hf'.
  split; [done|]. split.
  - split; [lia|]. unfold b2, compute_bit_width.
    pose proof (list_max_lt _ (2 ^ 16) ltac:(lia) Hf) as Hm. set (m := list_max (bp_frequency <$> ps)) in *.
    destruct (Z.eqb_spec m 0); [lia|].
    assert (Hloop : forall fuel bits, bits <= 16 -> bit_width_loop fuel bits m <= 16).
    { induction fuel as [|fuel IH]; intros bits Hb; cbn [bit_width_loop]; [done|].
      destruct (Z.ltb_spec bits 32) as [L|L]; [cbn [andb]|lia].
      destruct (Z.leb_spec (2 ^ bits) m) as [L'|L']; [|done].
      apply IH. assert (bits <> 16) by (intros ->; lia). lia. }
    by apply Hloop.
  - rewrite (compress_block_nonempty ps Hne). fold b1 b2. rewrite !zlen_app, zlen_fmap.
    destruct (bitpack_roundtrip b1 _ [] Hb1 Hd' (Forall_nil_2 _)) as (-> & _).
    destruct (bitpack_roundtrip b2 _ [] Hb2 Hf' (Forall_nil_2 _)) as (-> & _).
    unfold zlen. rewrite length_doc_deltas, !length_fmap. simpl. lia.
Qed.

Lemma compress_block_limit ps :
  Forall block_posting_ok ps -> increasing_from 0 (bp_doc_id <$> ps) -> zlen ps <= 128 ->
  zlen (compress_block ps) <= TP_MAX_COMPRESSED_BLOCK_SIZE.
Proof.
  intros HF Hinc Hlen. unfold TP_MAX_COMPRESSED_BLOCK_SIZE.
  destruct (decide (ps = [])) as [->|Hne]; [done|].
  destruct (length_compress_block ps Hne HF Hinc) as (Hb1 & Hb2 & ->).
  set (b1 := compute_bit_width _) in *. set (b2 := compute_bit_width (list_max (bp_frequency <$> ps))) in *.
  pose proof (zlen_nonneg ps). unfold div_ceil_8.
  assert (b1 * zlen ps <= 4096) by nia. assert (b2 * zlen ps <= 2048) by nia. lia.
Qed.


(** C5: the size computed from the header alone is the number of bytes written,
    and a full block never exceeds the 898 bytes reserved for it. *)
Theorem compressed_size_correct (ps : list TpBlockPosting) (rest : list Z) :
  Forall block_posting_ok ps -> increasing_from 0 (bp_doc_id <$> ps) ->
  zlen ps <= TP_BLOCK_SIZE ->
  compressed_block_size (compress_block ps ++ rest) (zlen ps) = Ok (zlen (compress_block ps)) /\
  zlen (compress_block ps) <= TP_MAX_COMPRESSED_BLOCK_SIZE.
Proof.
  intros HF Hinc Hlen. unfold TP_BLOCK_SIZE, TP_MAX_COMPRESSED_BLOCK_SIZE in *.
  destruct (decide (ps = [])) as [->|Hne]; [done|].
  destruct (length_compress_block ps Hne HF Hinc) as (Hb1 & Hb2 & Hl).
  set (b1 := compute_bit_width (list_max (doc_deltas 0 (bp_doc_id <$> ps)))) in *.
  set (b2 := compute_bit_width (list_max (bp_frequency <$> ps))) in *.
  split.
  - unfold compressed_block_size. rewrite (proj2 (Z.eqb_neq _ _)).
    + rewrite Hl, (compress_block_nonempty ps Hne). fold b1 b2. cbn [app].
      assert (Ez0 : forall l, zread (b1 :: b2 :: l) 0 = Ok b1) by done.
      assert (Ez1 : forall l, zread (b1 :: b2 :: l) 1 = Ok b2) by done.
      rewrite Ez0, Ez1. cbn [mbind res_bind].
      by rewrite (Z.mul_comm (zlen ps) b1), (Z.mul_comm (zlen ps) b2).
    + intros E. apply Hne, length_zero_iff_nil. unfold zlen in E. lia.
  - by apply compress_block_limit.
Qed.

(** ** Witnesses *)

Definition demo_block : list TpBlockPosting :=
  [mkBlockPosting 3 1 10; mkBlockPosting 3000000000 65535 255; mkBlockPosting 3000000001 2 0].

Lemma demo_block_ok : Forall block_posting_ok demo_block.
Proof. repeat (constructor; [repeat split; vm_compute; done|]). constructor. Qed.


Lemma compressed_size_correct_witness :
  compressed_block_size (compress_block demo_block ++ []) 3 = Ok 23.
Proof.
  destruct (compressed_size_correct demo_block [] demo_block_ok) as [H _];
    [simpl; lia|by vm_compute|].
  exact H.
Defined.
