(* ===== verification/Storage.v ===== *)
(** * Pages of the index relation (buffer manager, free space map)

    The relation is a list of pages addressed by block number.  The buffer
    manager, [PageInit] and the free space map belong to the server: the page
    geometry is a parameter, [GetFreeIndexPage] is a parameter with the one
    property the code relies on.  [allocate_segment_page] (src/segment/segment.c)
    and the page functions of src/segment/pagemapper.h are modelled here. *)
From S2P Require Import Prelude Postgres SegmentFormat.

Class PgLayout := {
  BLCKSZ : Z;
  SizeOfPageHeaderData : Z;
}.

(** The header is MAXALIGNed and leaves room for a page index entry. *)
Class PgLayoutLaws `{PgLayout} : Prop := {
  SizeOfPageHeaderData_pos : 0 < SizeOfPageHeaderData;
  BLCKSZ_room : SizeOfPageHeaderData + 20 <= BLCKSZ;
  BLCKSZ_limit : BLCKSZ <= 32768;
}.

Definition MAXALIGN (z : Z) : Z := (z + 7) / 8 * 8.

(** The part of a page after its header, and where its special area starts. *)
Record Page := mkPage {
  pd_special : Z;
  contents : list byte;
}.

(** [pool_next] is the atomic counter the workers of a parallel build share. *)
Record Storage := mkStorage {
  st_pages : list Page;
  st_fsm : list Z;
  pool_next : Z;
}.

(** [GetFreeIndexPage] takes one of the recorded pages out of the map. *)
Class FreeSpaceMap := get_free_page : list Z -> option (Z * list Z).

Class FreeSpaceMapLaws `{FreeSpaceMap} : Prop :=
  get_free_page_recorded l b l' : get_free_page l = Some (b, l') -> l ≡ₚ b :: l'.

Section Storage.
Context `{PgLayout} `{FreeSpaceMap}.

(** ** src/segment/pagemapper.h *)

Definition SEGMENT_DATA_PER_PAGE : Z := BLCKSZ - SizeOfPageHeaderData.
Definition tp_logical_page (logical_offset : Z) : Z := logical_offset / SEGMENT_DATA_PER_PAGE.
Definition tp_page_offset (logical_offset : Z) : Z := logical_offset mod SEGMENT_DATA_PER_PAGE.
Definition tp_bytes_remaining_on_page (logical_offset : Z) : Z :=
  SEGMENT_DATA_PER_PAGE - tp_page_offset logical_offset.
Definition tp_fits_on_page (logical_offset len : Z) : bool :=
  u32 (tp_page_offset logical_offset + len) <=? SEGMENT_DATA_PER_PAGE.

(** ** Pages *)

Definition PageInit (special_size : Z) : Page :=
  mkPage (BLCKSZ - MAXALIGN special_size) (replicate (Z.to_nat SEGMENT_DATA_PER_PAGE) x00).

Definition nblocks (st : Storage) : Z := zlen (st_pages st).

Definition ReadBuffer (st : Storage) (block : Z) : res Page :=
  match zget (st_pages st) block with
  | Some p => Ok p
  | None => Err ERRCODE_INTERNAL_ERROR
  end.

Definition put_page (st : Storage) (block : Z) (p : Page) : Storage :=
  mkStorage (<[Z.to_nat block := p]> (st_pages st)) (st_fsm st) (pool_next st).

(** [ReadBufferExtended(..., P_NEW, ...)] *)
Definition extend_relation (st : Storage) (p : Page) : Z * Storage :=
  (nblocks st, mkStorage (st_pages st ++ [p]) (st_fsm st) (pool_next st)).

Definition RecordFreeIndexPage (st : Storage) (block : Z) : Storage :=
  mkStorage (st_pages st) (block :: st_fsm st) (pool_next st).

(** [memcpy] into a byte array. *)
Definition overwrite (off : Z) (src dst : list byte) : list byte :=
  take (Z.to_nat off) dst ++ src ++ drop (Z.to_nat off + length src) dst.

(** [allocate_segment_page]: a recycled page if there is one, else a new one;
    either way it is initialised. *)
Definition allocate_segment_page (st : Storage) : res (Z * Storage) :=
  match get_free_page (st_fsm st) with
  | Some (block, fsm') =>
      _ ← ReadBuffer st block;
      Ok (block, put_page (mkStorage (st_pages st) fsm' (pool_next st)) block (PageInit 0))
  | None => Ok (extend_relation st (PageInit 0))
  end.
End Storage.

(** ** The logical byte stream of a list of pages *)

Section Stream.
Context `{PgLayoutLaws} `{FreeSpaceMapLaws}.

Lemma data_per_page_pos : 0 < SEGMENT_DATA_PER_PAGE.
Proof. unfold SEGMENT_DATA_PER_PAGE. pose proof BLCKSZ_room. lia. Qed.

Definition page_at (st : Storage) (block : Z) : option Page := zget (st_pages st) block.

Definition page_data (st : Storage) (block : Z) : list byte :=
  match page_at st block with Some p => contents p | None => [] end.

Lemma page_at_data st st' b : page_at st' b = page_at st b -> page_data st' b = page_data st b.
Proof. intros E. unfold page_data. by rewrite E. Qed.

Definition stream (st : Storage) (blocks : list Z) : list byte :=
  concat (page_data st <$> blocks).

(** Every page holds a full data area, and free pages are distinct pages of the
    relation other than the metapage. *)
Record storage_wf (st : Storage) : Prop := {
  swf_pages : Forall (fun p => zlen (contents p) = SEGMENT_DATA_PER_PAGE) (st_pages st);
  swf_fsm : Forall (fun b => 0 < b < nblocks st) (st_fsm st);
  swf_fsm_nodup : NoDup (st_fsm st);
  swf_metapage : 0 < nblocks st;
}.

Definition in_relation (st : Storage) (b : Z) : Prop := 0 <= b < nblocks st.

Lemma length_page_data st b : storage_wf st -> in_relation st b ->
  zlen (page_data st b) = SEGMENT_DATA_PER_PAGE.
Proof.
  intros Hwf Hb. unfold page_data, page_at. destruct (zget_is_Some (st_pages st) b Hb) as [p Hp].
  rewrite Hp. pose proof (swf_pages st Hwf) as HF. unfold zget in Hp.
  destruct (0 <=? b); [|done]. by apply (Forall_lookup_1 _ _ _ _ HF Hp).
Qed.

Lemma length_stream st bs : storage_wf st -> Forall (in_relation st) bs ->
  zlen (stream st bs) = zlen bs * SEGMENT_DATA_PER_PAGE.
Proof.
  intros Hwf HF. unfold stream. induction HF as [|b bs Hb HF IH]; csimpl; [done|].
  pose proof (length_page_data st b Hwf Hb).
  unfold zlen in *. rewrite length_app. simpl. lia.
Qed.

Lemma stream_app st bs bs' : stream st (bs ++ bs') = stream st bs ++ stream st bs'.
Proof. unfold stream. by rewrite fmap_app, concat_app. Qed.

Lemma page_data_put_eq st b p : in_relation st b -> page_data (put_page st b p) b = contents p.
Proof.
  intros [Hb Hn]. unfold page_data, page_at, put_page. simpl. rewrite zget_lookup by done.
  rewrite list_lookup_insert_eq; [done|]. unfold nblocks, zlen in Hn. lia.
Qed.

Lemma page_at_put_ne st b b' p : 0 <= b -> b <> b' -> page_at (put_page st b p) b' = page_at st b'.
Proof.
  intros Hb Hne. unfold page_at, put_page, zget. simpl.
  destruct (Z.leb_spec 0 b'); [|done].
  rewrite list_lookup_insert_ne; [done|lia].
Qed.

Lemma page_data_put_ne st b b' p : 0 <= b -> b <> b' ->
  page_data (put_page st b p) b' = page_data st b'.
Proof. intros. by apply page_at_data, page_at_put_ne. Qed.

Lemma nblocks_put st b p : nblocks (put_page st b p) = nblocks st.
Proof. unfold nblocks, zlen. simpl. by rewrite length_insert. Qed.

Lemma stream_put_ne st b p bs : 0 <= b -> b ∉ bs -> stream (put_page st b p) bs = stream st bs.
Proof.
  intros Hb Hn. unfold stream. f_equal. apply list_fmap_ext. intros i x Hx.
  apply page_data_put_ne; [done|]. intros ->. apply Hn. by eapply list_elem_of_lookup_2.
Qed.

Lemma put_page_wf st b p : zlen (contents p) = SEGMENT_DATA_PER_PAGE ->
  storage_wf st -> storage_wf (put_page st b p).
Proof.
  intros Hp [H1' H2' H3' H4']. split; unfold put_page; simpl; try done.
  - by apply Forall_insert.
  - eapply Forall_impl; [exact H2'|]. intros x Hx.
    unfold nblocks, zlen in *. simpl. by rewrite length_insert.
  - unfold nblocks, zlen in *. simpl. by rewrite length_insert.
Qed.

Lemma length_PageInit s : zlen (contents (PageInit s)) = SEGMENT_DATA_PER_PAGE.
Proof.
  unfold zlen, PageInit. simpl. rewrite length_replicate.
  pose proof data_per_page_pos. lia.
Qed.

Lemma ReadBuffer_ok st b : in_relation st b -> exists p, ReadBuffer st b = Ok p /\
  zget (st_pages st) b = Some p.
Proof.
  intros Hb. unfold ReadBuffer. destruct (zget_is_Some _ _ Hb) as [p Hp].
  exists p. by rewrite Hp.
Qed.

(** What the allocation of a page changes: nothing that was in use. *)
Record fresh_page (st st' : Storage) (b : Z) : Prop := {
  fp_in : 0 < b < nblocks st';
  fp_new : b ∈ st_fsm st \/ nblocks st <= b;
  fp_mono : nblocks st <= nblocks st' <= nblocks st + 1;
  fp_keep : forall b', in_relation st b' -> b' <> b -> page_at st' b' = page_at st b';
  fp_fsm : b ∉ st_fsm st';
  fp_fsm_sub : forall b', b' ∈ st_fsm st' -> b' ∈ st_fsm st;
}.

Lemma extend_fresh st p : storage_wf st -> zlen (contents p) = SEGMENT_DATA_PER_PAGE ->
  storage_wf (extend_relation st p).2 /\
  fresh_page st (extend_relation st p).2 (extend_relation st p).1.
Proof.
  intros [H1' H2' H3' H4'] Hp.
  assert (Hn : nblocks (extend_relation st p).2 = nblocks st + 1)
    by (unfold nblocks, zlen; simpl; rewrite length_app; simpl; lia).
  split; split; try rewrite Hn; simpl; try done; try lia.
  - apply Forall_app; auto.
  - eapply Forall_impl; [exact H2'|]. simpl. lia.
  - intros b' [Hb' Hlt] _. unfold page_at. simpl. rewrite !zget_lookup by done.
    rewrite lookup_app_l; [done|]. unfold nblocks, zlen in Hlt. lia.
  - intros Hin. rewrite Forall_forall in H2'. apply H2' in Hin. lia.
Qed.

Lemma allocate_fresh st : storage_wf st ->
  exists b st', allocate_segment_page st = Ok (b, st') /\ storage_wf st' /\
    fresh_page st st' b /\ pool_next st' = pool_next st.
Proof.
  intros Hwf. unfold allocate_segment_page.
  destruct (get_free_page (st_fsm st)) as [[b fsm']|] eqn:E; cycle 1.
  { exists (nblocks st), (extend_relation st (PageInit 0)).2.
    destruct (extend_fresh st (PageInit 0)) as [? ?]; [done|apply length_PageInit|].
    auto. }
  apply get_free_page_recorded in E.
  pose proof (swf_fsm st Hwf) as Hf. rewrite E in Hf. apply Forall_cons in Hf as [Hb Hf].
  pose proof (swf_fsm_nodup st Hwf) as Hnd. rewrite E in Hnd. apply NoDup_cons in Hnd as [Hni Hnd].
  destruct (ReadBuffer_ok st b) as (p & -> & _); [unfold in_relation; lia|].
  set (st1 := mkStorage (st_pages st) fsm' (pool_next st)).
  exists b, (put_page st1 b (PageInit 0)). split; [done|]. split; [|split; [|done]].
  - apply put_page_wf; [apply length_PageInit|]. by destruct Hwf.
  - split; rewrite ?nblocks_put; try done; try lia.
    + left. rewrite E. by left.
    + change (nblocks st1) with (nblocks st). lia.
    + intros b' Hb' Hne. by rewrite page_at_put_ne by lia.
    + intros b' Hb'. rewrite E. by right.
Qed.
End Stream.

(** ** Concrete instances, for the witnesses: small pages *)

Definition small_layout : PgLayout := {| BLCKSZ := 64; SizeOfPageHeaderData := 24 |}.
Definition standard_layout : PgLayout := {| BLCKSZ := 8192; SizeOfPageHeaderData := 24 |}.
Lemma small_layout_laws : @PgLayoutLaws small_layout.
Proof. by split. Qed.

(** Room for the metapage. *)
Definition wide_layout : PgLayout := {| BLCKSZ := 256; SizeOfPageHeaderData := 24 |}.
Lemma wide_layout_laws : @PgLayoutLaws wide_layout.
Proof. by split. Qed.

Definition first_fit : FreeSpaceMap := fun l =>
  match l with [] => None | b :: l' => Some (b, l') end.
Lemma first_fit_laws : @FreeSpaceMapLaws first_fit.
Proof. intros [|b l] b' l' E; [done|]. by injection E as -> ->. Qed.
