(* ===== verification/Vector.v ===== *)
(** * The bm25vector type (types/vector.c, types/vector.h)

    A [TpVector] is the struct of vector.h: three header fields and a flexible
    array, [data], that holds the index name and the entries one after the other,
    each at a [MAXALIGN]ed distance from the one before.  The accessors compute
    offsets into [data] as the code does and an access outside it is the error
    [OUT_OF_BOUNDS_ACCESS]; C strings are the lists of their bytes, ended by the
    first NUL. *)
From S2P Require Import Prelude Postgres Storage.

(** ** C library: [strchr], [atoi] and the conversion [%d] *)

(** The offset of the first [c] of a C string. *)
Fixpoint strchr (s : list byte) (c : byte) : option Z :=
  match s with
  | [] => None
  | b :: s' => if Byte.eqb b c then Some 0 else Z.succ <$> strchr s' c
  end.

Definition isspace (b : byte) : bool :=
  let z := Z_of_byte b in (z =? 32) || ((9 <=? z) && (z <=? 13)).

Definition isdigit (b : byte) : bool := let z := Z_of_byte b in (48 <=? z) && (z <=? 57).

Fixpoint skip_spaces (s : list byte) : list byte :=
  match s with b :: s' => if isspace b then skip_spaces s' else s | [] => [] end.

Fixpoint digits_value (v : Z) (s : list byte) : Z :=
  match s with
  | b :: s' => if isdigit b then digits_value (10 * v + (Z_of_byte b - 48)) s' else v
  | [] => v
  end.

(** [strtol] in base 10 saturates at the bounds of [long]. *)
Definition strtol (s : list byte) : Z :=
  let v := match skip_spaces s with
           | x2d :: s' => - digits_value 0 s'
           | x2b :: s' => digits_value 0 s'
           | s' => digits_value 0 s'
           end in
  Z.max (- 2 ^ 63) (Z.min (2 ^ 63 - 1) v).

Definition atoi (s : list byte) : Z := i32 (strtol s).

Definition digit (n : Z) : byte := byte_of_Z (48 + n).

Fixpoint digits (fuel : nat) (n : Z) (acc : list byte) : list byte :=
  match fuel with
  | O => acc
  | S fuel => if n <? 10 then digit n :: acc
              else digits fuel (n / 10) (digit (n mod 10) :: acc)
  end.

(** An [int32] has at most ten decimal digits. *)
Definition fmt_d (n : Z) : list byte :=
  if n <? 0 then x2d :: digits 10 (- n) [] else digits 10 n [].

(** ** Memory *)

Definition buf_read (off len : Z) (buf : list byte) : res (list byte) :=
  if (0 <=? off) && (0 <=? len) && (off + len <=? zlen buf) then Ok (sub_list off len buf)
  else Err OUT_OF_BOUNDS_ACCESS.

Definition buf_write (off : Z) (bs buf : list byte) : res (list byte) :=
  if (0 <=? off) && (off + zlen bs <=? zlen buf) then
    Ok (take (Z.to_nat off) buf ++ bs ++ drop (Z.to_nat (off + zlen bs)) buf)
  else Err OUT_OF_BOUNDS_ACCESS.

(** [palloc] raises an error for a request the server's allocator refuses, which
    is one over [MaxAllocSize] (a negative [int] is a huge [Size]). *)
Class Palloc := palloc_ok : Z -> bool.
Definition MaxAllocSize : Z := 1073741823.
Class PallocLaws `{Palloc} : Prop :=
  palloc_ok_iff n : palloc_ok n = true <-> 0 <= n <= MaxAllocSize.

Definition palloc `{Palloc} (n : Z) : res unit :=
  if palloc_ok n then Ok tt else Err ERRCODE_INTERNAL_ERROR.
Definition palloc0 `{Palloc} (n : Z) : res (list byte) :=
  if palloc_ok n then Ok (replicate (Z.to_nat n) x00) else Err ERRCODE_INTERNAL_ERROR.

#[global] Instance Palloc_concrete : Palloc := fun n => (0 <=? n) && (n <=? MaxAllocSize).
#[global] Instance PallocLaws_concrete : PallocLaws.
Proof. intros n. unfold palloc_ok, Palloc_concrete. lia. Qed.

(** ** The structures *)

Definition sizeof_TpVector : Z := 12.
Definition sizeof_TpVectorEntry : Z := 8.
Definition TP_MAX_INDEX_NAME_LENGTH : Z := 1024.

Record TpVector := mkTpVector {
  vl_len_ : Z;          (** what [VARSIZE] returns *)
  index_name_len : Z;
  entry_count : Z;
  data : list byte;
}.

#[global] Instance TpVector_eq_dec : EqDecision TpVector.
Proof. solve_decision. Defined.

(** Offsets in [data]. *)
Definition TPVECTOR_INDEX_NAME_PTR : Z := 0.
Definition TPVECTOR_ENTRIES_PTR (v : TpVector) : Z := MAXALIGN (index_name_len v + 1).

Record LexemeFreqPair := mkPair { pair_lexeme : list byte; pair_frequency : Z }.

Definition strcmp_wrapper (a b : LexemeFreqPair) : Z := strcmp (pair_lexeme a) (pair_lexeme b).

(** The entry at an offset of [data]. *)
Record TpVectorEntry := mkEntry { frequency : Z; lexeme_len : Z; lexeme : list byte }.

Definition read_i32 (off : Z) (buf : list byte) : res Z := bs ← buf_read off 4 buf; mret (i32 (le_value bs)).

Definition entry_at (v : TpVector) (off : Z) : res TpVectorEntry :=
  f ← read_i32 off (data v);
  n ← read_i32 (off + 4) (data v);
  l ← buf_read (off + sizeof_TpVectorEntry) n (data v);
  mret (mkEntry f n l).

(** ** Access *)

Definition get_tpvector_index_name (v : TpVector) : res (list byte) :=
  if vl_len_ v <? sizeof_TpVector then Err ERRCODE_DATA_CORRUPTED else
  let name_len := index_name_len v in
  if (name_len <? 0) || (TP_MAX_INDEX_NAME_LENGTH <? name_len) then Err ERRCODE_DATA_CORRUPTED else
  if vl_len_ v <? sizeof_TpVector + TPVECTOR_INDEX_NAME_PTR + name_len then Err ERRCODE_DATA_CORRUPTED
  else c_str <$> buf_read TPVECTOR_INDEX_NAME_PTR name_len (data v).

(** [None] is the null pointer. *)
Definition get_tpvector_first_entry (v : TpVector) : option Z :=
  if entry_count v =? 0 then None else Some (TPVECTOR_ENTRIES_PTR v).

Definition get_tpvector_next_entry (current : Z) (e : TpVectorEntry) : Z :=
  current + MAXALIGN (sizeof_TpVectorEntry + lexeme_len e).

(** The first [n] entries from offset [ptr]. *)
Fixpoint entries_from (v : TpVector) (n : nat) (ptr : Z) : res (list TpVectorEntry) :=
  match n with
  | O => mret []
  | S n =>
      e ← entry_at v ptr;
      rest ← entries_from v n (get_tpvector_next_entry ptr e);
      mret (e :: rest)
  end.

(** ** Construction *)

Section Construction.
Context `{Palloc} `{QSort}.

Fixpoint add_entry_sizes (lexemes : list (list byte)) (total_size : Z) : Z :=
  match lexemes with
  | [] => total_size
  | l :: rest =>
      add_entry_sizes rest (i32 (total_size + MAXALIGN (sizeof_TpVectorEntry + i32 (strlen l))))
  end.

(** The stores of the entries, from [entry_ptr] on. *)
Fixpoint store_entries (pairs : list LexemeFreqPair) (entry_ptr : Z) (buf : list byte) : res (list byte) :=
  match pairs with
  | [] => mret buf
  | p :: rest =>
      let lexeme_len := i32 (strlen (pair_lexeme p)) in
      buf ← buf_write entry_ptr (le_bytes 4 (pair_frequency p)) buf;
      buf ← buf_write (entry_ptr + 4) (le_bytes 4 lexeme_len) buf;
      buf ← buf_write (entry_ptr + sizeof_TpVectorEntry) (c_str (pair_lexeme p)) buf;
      store_entries rest (entry_ptr + MAXALIGN (sizeof_TpVectorEntry + lexeme_len)) buf
  end.

(** [lexemes] and [frequencies] are the two arrays ([None]: null pointers). *)
Definition create_tpvector_from_strings (index_name : list byte) (entry_count : Z)
    (arrays : option (list (list byte) * list Z)) : res TpVector :=
  let index_name_len := i32 (strlen index_name) in
  if index_name_len =? 0 then Err ERRCODE_INVALID_PARAMETER_VALUE else
  let '(lexemes, frequencies) := default ([], []) arrays in
  let total_size :=
    add_entry_sizes (take (Z.to_nat entry_count) lexemes)
      (i32 (MAXALIGN sizeof_TpVector + MAXALIGN (index_name_len + 1))) in
  result ← palloc0 total_size;
  buf ← buf_write TPVECTOR_INDEX_NAME_PTR (c_str index_name ++ [x00])
          (drop (Z.to_nat sizeof_TpVector) result);
  buf ← (if bool_decide (is_Some arrays) && (0 <? entry_count) then
           _ ← palloc (entry_count * 16);
           pairs ← mapM (fun i => l ← zread lexemes i; f ← zread frequencies i; mret (mkPair l f))
                     (seqZ 0 entry_count);
           let pairs := if 1 <? entry_count then qsort strcmp_wrapper pairs else pairs in
           store_entries pairs (MAXALIGN (index_name_len + 1)) buf
         else mret buf);
  mret (mkTpVector total_size index_name_len entry_count buf).

(** ** Text input *)

Definition comma : byte := x2c.
Definition colon : byte := x3a.

Definition count_commas (s : list byte) : Z := zlen (filter (fun b => b = comma) s).

(** The loop over the entries: [ptr] is the rest of the text. *)
Fixpoint parse_entries (n : nat) (ptr : list byte) : res (list (list byte) * list Z) :=
  match n with
  | O => mret ([], [])
  | S n =>
      let comma_pos := strchr ptr comma in
      match strchr ptr colon with
      | None => Err ERRCODE_INVALID_TEXT_REPRESENTATION
      | Some entry_colon_pos =>
          if match comma_pos with Some k => k <? entry_colon_pos | None => false end
          then Err ERRCODE_INVALID_TEXT_REPRESENTATION
          else
            let lexeme := sub_list 0 entry_colon_pos ptr in
            let freq_str := drop (Z.to_nat (entry_colon_pos + 1)) ptr in
            _ ← palloc (entry_colon_pos + 1);
            match comma_pos with
            | Some k =>
                '(lexemes, frequencies) ← parse_entries n (drop (Z.to_nat (k + 1)) ptr);
                mret (lexeme :: lexemes,
                      atoi (sub_list 0 (k - (entry_colon_pos + 1)) freq_str) :: frequencies)
            | None =>
                '(lexemes, frequencies) ← parse_entries n ptr;
                mret (lexeme :: lexemes, atoi freq_str :: frequencies)
            end
      end
  end.

Definition tpvector_in (cstring : list byte) : res TpVector :=
  let str := c_str cstring in
  match strchr str colon with
  | None => Err ERRCODE_INVALID_TEXT_REPRESENTATION
  | Some colon_pos =>
      let index_name := sub_list 0 colon_pos str in
      let entries_str := drop (Z.to_nat (colon_pos + 1)) str in
      _ ← palloc (colon_pos + 1);
      if (zlen entries_str <? 2) || negb (bool_decide (head entries_str = Some x7b))
         || negb (bool_decide (last entries_str = Some x7d))
      then Err ERRCODE_INVALID_TEXT_REPRESENTATION
      else
        let entries_str := sub_list 1 (zlen entries_str - 2) entries_str in
        let entry_count := if 0 <? zlen entries_str then i32 (1 + count_commas entries_str) else 0 in
        if 0 <? entry_count then
          _ ← palloc (entry_count * 8);
          _ ← palloc (entry_count * 4);
          arrays ← parse_entries (Z.to_nat entry_count) entries_str;
          create_tpvector_from_strings index_name entry_count (Some arrays)
        else create_tpvector_from_strings index_name entry_count None
  end.
End Construction.

(** ** Text output *)

Definition fmt_entry (e : TpVectorEntry) : list byte := c_str (lexeme e) ++ colon :: fmt_d (frequency e).

Fixpoint print_entries (v : TpVector) (n : nat) (first : bool) (ptr : Z) (out : list byte) : res (list byte) :=
  match n with
  | O => mret out
  | S n =>
      e ← entry_at v ptr;
      print_entries v n false (get_tpvector_next_entry ptr e)
        ((if first then out else out ++ [comma]) ++ fmt_entry e)
  end.

Definition tpvector_out (v : TpVector) : res (list byte) :=
  if vl_len_ v <? sizeof_TpVector then Err ERRCODE_DATA_CORRUPTED else
  index_name ← get_tpvector_index_name v;
  out ← print_entries v (Z.to_nat (entry_count v)) true (TPVECTOR_ENTRIES_PTR v)
          (index_name ++ [colon; x7b]);
  mret (out ++ [x7d]).

(** ** Equality *)

Definition entry_header (v : TpVector) (off : Z) : res (Z * Z) :=
  f ← read_i32 off (data v);
  n ← read_i32 (off + 4) (data v);
  mret (f, n).

(** The inner loop: an entry of [v2] with the header and the lexeme of the one at
    [off1] in [v1]. *)
Fixpoint find_match (v1 : TpVector) (off1 : Z) (v2 : TpVector) (n : nat) (off2 : Z) : res bool :=
  match n with
  | O => mret false
  | S n =>
      '(f1, n1) ← entry_header v1 off1;
      '(f2, n2) ← entry_header v2 off2;
      same ← (if (n1 =? n2) && (f1 =? f2) then
                l1 ← buf_read (off1 + sizeof_TpVectorEntry) n1 (data v1);
                l2 ← buf_read (off2 + sizeof_TpVectorEntry) n1 (data v2);
                mret (bool_decide (l1 = l2))
              else mret false);
      if same : bool then mret true
      else find_match v1 off1 v2 n (off2 + MAXALIGN (sizeof_TpVectorEntry + n2))
  end.

Fixpoint match_entries (v1 v2 : TpVector) (n : nat) (off1 : Z) : res bool :=
  match n with
  | O => mret true
  | S n =>
      found ← match get_tpvector_first_entry v2 with
              | Some off2 => find_match v1 off1 v2 (Z.to_nat (entry_count v2)) off2
              | None => mret false
              end;
      '(_, n1) ← entry_header v1 off1;
      if found : bool then match_entries v1 v2 n (off1 + MAXALIGN (sizeof_TpVectorEntry + n1))
      else mret false
  end.

Definition tpvector_eq (v1 v2 : TpVector) : res bool :=
  index_name1 ← get_tpvector_index_name v1;
  index_name2 ← get_tpvector_index_name v2;
  if negb (strcmp index_name1 index_name2 =? 0) then mret false
  else if negb (entry_count v1 =? entry_count v2) then mret false
  else match get_tpvector_first_entry v1 with
       | Some off1 => match_entries v1 v2 (Z.to_nat (entry_count v1)) off1
       | None => mret true
       end.

(** ** Binary input and output

    The server's message buffers: [pq_sendint32] and [pq_getmsgint] write and read
    an integer, [pq_sendbytes] and [pq_copymsgbytes] bytes. *)

Class PqFormat := {
  pq_int32 : Z -> list byte;                        (** what [pq_sendint32] appends *)
  pq_getmsgint : list byte -> res (Z * list byte);  (** of four bytes *)
  pq_copymsgbytes : Z -> list byte -> res (list byte * list byte);
}.

Class PqFormatLaws `{PqFormat} : Prop := {
  pq_getmsgint_int32 n rest : - 2 ^ 31 <= n < 2 ^ 31 -> pq_getmsgint (pq_int32 n ++ rest) = Ok (n, rest);
  pq_copymsgbytes_ok bs rest : pq_copymsgbytes (zlen bs) (bs ++ rest) = Ok (bs, rest);
}.

(** The bytes of the structure after its varlena header. *)
Definition after_header (v : TpVector) : list byte :=
  le_bytes 4 (index_name_len v) ++ le_bytes 4 (entry_count v) ++ data v.

(** The structure received: its fields are those of the bytes copied after the
    header (a reader of a structure shorter than [TpVector] stops at its size). *)
Definition of_after_header (total_size : Z) (bs : list byte) : TpVector :=
  mkTpVector total_size (i32 (le_value (sub_list 0 4 bs))) (i32 (le_value (sub_list 4 4 bs)))
    (drop 8 bs).

Definition tpvector_send `{PqFormat} (v : TpVector) : list byte :=
  let total_size := vl_len_ v in
  pq_int32 total_size ++ sub_list 0 (total_size - 4) (after_header v).

Definition tpvector_recv `{Palloc} `{PqFormat} (msg : list byte) : res TpVector :=
  '(total_size, msg) ← pq_getmsgint msg;
  _ ← palloc0 total_size;
  '(bs, _) ← pq_copymsgbytes (total_size - 4) msg;
  mret (of_after_header total_size bs).
