(* ===== verification/VectorFacts.v ===== *)
(** * The bm25vector type: proofs

    Every vector the input function builds is the layout of an index name and of
    a list of entries sorted by lexeme ([tpvector_in_is_well_typed]); on layouts the
    output function prints the text that the input function reads back
    ([tpvector_text_roundtrip]), binary output and input are inverse, and equality
    is equality of the entries when no lexeme repeats. *)
From S2P Require Import Prelude Postgres Storage Vector.

(** ** Decimal numbers *)

Lemma digit_value n : 0 <= n < 10 -> isdigit (digit n) = true /\ Z_of_byte (digit n) - 48 = n.
Proof.
  intros Hn. unfold isdigit, digit. rewrite Z_of_byte_of_Z, Z.mod_small by lia. lia.
Qed.

(** Reading what [digits] wrote, in front of any text. *)
Lemma digits_value_digits fuel n acc v : 0 <= n < 10 ^ Z.of_nat fuel -> (0 < fuel)%nat ->
  exists m, digits_value v (digits fuel n acc) = digits_value (v * 10 ^ m + n) acc /\ 1 <= m.
Proof.
  revert n acc. induction fuel as [|fuel IH]; intros n acc Hn Hf; [lia|].
  cbn [digits]. destruct (Z.ltb_spec n 10) as [Hlt|Hge].
  - exists 1. destruct (digit_value n ltac:(lia)) as [Hd Hv]. cbn [digits_value].
    rewrite Hd, Hv. split; [f_equal; lia|lia].
  - assert (Hq : 0 <= n / 10 < 10 ^ Z.of_nat fuel).
    { rewrite Nat2Z.inj_succ, Z.pow_succ_r in Hn by lia.
      split; [apply Z.div_pos; lia|apply Z.div_lt_upper_bound; lia]. }
    assert (Hf' : (0 < fuel)%nat).
    { destruct fuel; [|lia]. assert (1 <= n / 10) by (apply Z.div_le_lower_bound; lia).
      simpl in Hq. lia. }
    destruct (IH (n / 10) (digit (n mod 10) :: acc) Hq Hf') as [m [E Hm]].
    exists (m + 1). rewrite E. cbn [digits_value].
    destruct (digit_value (n mod 10) (Z.mod_pos_bound n 10 ltac:(lia))) as [Hd Hv].
    rewrite Hd, Hv. split; [|lia]. f_equal.
    rewrite Z.pow_add_r by lia. pose proof (Z.div_mod n 10 ltac:(lia)). lia.
Qed.

Lemma digits_head fuel n acc : 0 <= n < 10 ^ Z.of_nat fuel -> (0 < fuel)%nat ->
  exists b rest, digits fuel n acc = b :: rest /\ isdigit b = true.
Proof.
  revert n acc. induction fuel as [|fuel IH]; intros n acc Hn Hf; [lia|].
  cbn [digits]. destruct (Z.ltb_spec n 10) as [Hlt|Hge].
  - exists (digit n), acc. split; [done|]. apply digit_value; lia.
  - assert (Hq : 0 <= n / 10 < 10 ^ Z.of_nat fuel).
    { rewrite Nat2Z.inj_succ, Z.pow_succ_r in Hn by lia.
      split; [apply Z.div_pos; lia|apply Z.div_lt_upper_bound; lia]. }
    destruct fuel; [|by apply IH; [|lia]].
    assert (1 <= n / 10) by (apply Z.div_le_lower_bound; lia). simpl in Hq. lia.
Qed.

Lemma digits_forall (P : byte -> Prop) fuel n acc : (forall d, 0 <= d < 10 -> P (digit d)) ->
  0 <= n -> Forall P acc -> Forall P (digits fuel n acc).
Proof.
  intros HP. revert n acc. induction fuel as [|fuel IH]; intros n acc Hn Ha; [done|].
  cbn [digits]. destruct (Z.ltb_spec n 10).
  - constructor; [apply HP; lia|done].
  - apply IH; [apply Z.div_pos; lia|]. constructor; [|done].
    apply HP, Z.mod_pos_bound. lia.
Qed.

Definition int32_range (n : Z) : Prop := - 2 ^ 31 <= n < 2 ^ 31.

Lemma digits_value_nonneg n : 0 <= n <= 2 ^ 31 -> digits_value 0 (digits 10 n []) = n.
Proof.
  intros Hn. destruct (digits_value_digits 10 n [] 0) as [m [-> _]]; [lia..|]. by cbn.
Qed.

Lemma atoi_fmt_d n : int32_range n -> atoi (fmt_d n) = n.
Proof.
  unfold int32_range. intros Hn. unfold atoi, fmt_d.
  destruct (Z.ltb_spec n 0).
  - unfold strtol. cbn [skip_spaces]. change (isspace x2d) with false. cbn iota beta.
    rewrite digits_value_nonneg by lia.
    replace (Z.max _ _) with n by lia. apply swrap_small; lia.
  - destruct (digits_head 10 n [] ltac:(lia) ltac:(lia)) as (b & rest & E & Hb).
    assert (Hs : strtol (digits 10 n []) = n).
    { unfold strtol. rewrite E. cbn [skip_spaces].
      assert (Hsp : isspace b = false) by (unfold isdigit, isspace in *; lia).
      rewrite Hsp. assert (Hv : digits_value 0 (b :: rest) = n) by (rewrite <- E; apply digits_value_nonneg; lia).
      destruct b; try discriminate Hb; rewrite Hv; lia. }
    rewrite Hs. apply swrap_small; lia.
Qed.

(** A number has no separator in it. *)
Definition plain (b : byte) : Prop := b <> comma /\ b <> colon /\ b <> x00.

Lemma fmt_d_plain n : Forall plain (fmt_d n).
Proof.
  assert (Hd : forall d, 0 <= d < 10 -> plain (digit d)).
  { intros d Hd. unfold plain, digit. repeat split; intros E; apply (f_equal Z_of_byte) in E;
      rewrite Z_of_byte_of_Z, Z.mod_small in E by lia; cbn in E; lia. }
  unfold fmt_d. destruct (Z.ltb_spec n 0).
  - constructor; [done|]. apply digits_forall; [done|lia|done].
  - apply digits_forall; [done|lia|done].
Qed.

(** ** Splitting a text at its separators *)

Lemma strchr_app s c r : c ∉ s -> strchr (s ++ c :: r) c = Some (zlen s).
Proof.
  induction s as [|b s IH]; intros Hs; cbn.
  - by rewrite (@Byte.byte_dec_lb c c eq_refl).
  - apply not_elem_of_cons in Hs as [Hb Hs]. destruct (Byte.eqb b c) eqn:E.
    { apply Byte.byte_dec_bl in E. congruence. }
    rewrite IH by done. cbn. f_equal. rewrite zlen_cons. lia.
Qed.

Lemma strchr_none s c : strchr s c = None <-> c ∉ s.
Proof.
  induction s as [|b s IH]; cbn.
  - split; [intros _; apply not_elem_of_nil|done].
  - rewrite not_elem_of_cons. destruct (Byte.eqb b c) eqn:E.
    + apply Byte.byte_dec_bl in E. split; [done|intros [? _]; congruence].
    + assert (c <> b) by (intros ->; by rewrite (@Byte.byte_dec_lb b b eq_refl) in E).
      rewrite fmap_None, IH. tauto.
Qed.

Lemma strchr_Some s c k : strchr s c = Some k ->
  0 <= k < zlen s /\ c ∉ sub_list 0 k s /\ s = sub_list 0 k s ++ c :: drop (Z.to_nat (k + 1)) s.
Proof.
  revert k. induction s as [|b s IH]; intros k E; cbn in E; [done|]. rewrite zlen_cons.
  destruct (Byte.eqb b c) eqn:Eb.
  - apply Byte.byte_dec_bl in Eb as ->. simplify_eq.
    split; [pose proof (zlen_nonneg s); lia|]. split; [apply not_elem_of_nil|done].
  - apply fmap_Some in E as (k' & Ek & ->). destruct (IH _ Ek) as (Hk & Hc & Es).
    assert (Hbc : c <> b) by (intros ->; by rewrite (@Byte.byte_dec_lb b b eq_refl) in Eb).
    split; [lia|]. unfold sub_list in *.
    replace (Z.to_nat (Z.succ k')) with (S (Z.to_nat k')) by lia.
    replace (Z.to_nat (Z.succ k' + 1)) with (S (Z.to_nat (k' + 1))) by lia.
    change (Z.to_nat 0) with 0%nat in *. rewrite drop_0 in *. cbn.
    split; [by apply not_elem_of_cons|]. by f_equal.
Qed.

Lemma count_commas_app a b : count_commas (a ++ b) = count_commas a + count_commas b.
Proof. unfold count_commas. by rewrite filter_app, zlen_app. Qed.

Lemma count_commas_plain s : comma ∉ s -> count_commas s = 0.
Proof.
  intros Hs. unfold count_commas. rewrite filter_none; [done|].
  apply Forall_forall. intros x Hx ->. done.
Qed.

Lemma plain_not_in s : Forall plain s -> comma ∉ s /\ colon ∉ s /\ x00 ∉ s.
Proof.
  intros Hs. rewrite Forall_forall in Hs. repeat split; intros E; apply Hs in E; by destruct E as (? & ? & ?).
Qed.

(** ** Writing in a buffer *)

Lemma buf_write_middle a old bs c : zlen old = zlen bs ->
  buf_write (zlen a) bs (a ++ old ++ c) = Ok (a ++ bs ++ c).
Proof.
  intros E. unfold buf_write. rewrite !zlen_app. pose proof (zlen_nonneg a). pose proof (zlen_nonneg c).
  destruct (Z.leb_spec 0 (zlen a)); [|lia]. destruct (Z.leb_spec (zlen a + zlen bs) (zlen a + (zlen old + zlen c))); [|lia].
  cbn [andb]. unfold zlen in *. rewrite Nat2Z.id, take_app_length. do 3 f_equal.
  rewrite drop_app_ge by lia. replace (_ - _)%nat with (length old) by lia. by rewrite drop_app_length.
Qed.

Lemma buf_read_middle a b c : buf_read (zlen a) (zlen b) (a ++ b ++ c) = Ok b.
Proof.
  unfold buf_read. rewrite !zlen_app. pose proof (zlen_nonneg a). pose proof (zlen_nonneg b).
  pose proof (zlen_nonneg c). destruct (_ && _) eqn:E; [|lia]. f_equal.
  unfold sub_list, zlen. by rewrite !Nat2Z.id, drop_app_length, take_app_length.
Qed.

Definition zeros (n : Z) : list byte := replicate (Z.to_nat n) x00.

Lemma zlen_zeros n : 0 <= n -> zlen (zeros n) = n.
Proof. intros. unfold zlen, zeros. rewrite length_replicate. lia. Qed.

Lemma zeros_app a b : 0 <= a -> 0 <= b -> zeros (a + b) = zeros a ++ zeros b.
Proof. intros. unfold zeros. by rewrite Z2Nat.inj_add, replicate_add by lia. Qed.

Lemma buf_write_zeros a bs n : zlen bs <= n ->
  buf_write (zlen a) bs (a ++ zeros n) = Ok ((a ++ bs) ++ zeros (n - zlen bs)).
Proof.
  intros Hn. pose proof (zlen_nonneg bs).
  replace n with (zlen bs + (n - zlen bs)) at 1 by lia. rewrite zeros_app by lia.
  rewrite (buf_write_middle a _ bs) by (apply zlen_zeros; lia). by rewrite app_assoc.
Qed.

(** ** The layout of a vector *)

Lemma MAXALIGN_bounds n : 0 <= n -> n <= MAXALIGN n <= n + 7 /\ MAXALIGN n mod 8 = 0.
Proof.
  intros Hn. unfold MAXALIGN. rewrite Z.mod_mul by lia.
  pose proof (Z.div_mod (n + 7) 8 ltac:(lia)). pose proof (Z.mod_pos_bound (n + 7) 8 ltac:(lia)). lia.
Qed.

Lemma MAXALIGN_add8 n : MAXALIGN (8 + n) = 8 + MAXALIGN n.
Proof. unfold MAXALIGN. replace (8 + n + 7) with (n + 7 + 1 * 8) by lia. rewrite Z.div_add by lia. lia. Qed.

Definition entry_size (l : list byte) : Z := MAXALIGN (sizeof_TpVectorEntry + zlen l).
Definition entries_size (ps : list LexemeFreqPair) : Z :=
  foldr (fun p s => entry_size (pair_lexeme p) + s) 0 ps.

Definition entry_bytes (p : LexemeFreqPair) : list byte :=
  le_bytes 4 (pair_frequency p) ++ le_bytes 4 (zlen (pair_lexeme p)) ++ pair_lexeme p ++
  zeros (entry_size (pair_lexeme p) - (sizeof_TpVectorEntry + zlen (pair_lexeme p))).

Definition entries_bytes (ps : list LexemeFreqPair) : list byte := concat (entry_bytes <$> ps).

Definition name_bytes (name : list byte) : list byte :=
  name ++ [x00] ++ zeros (MAXALIGN (zlen name + 1) - (zlen name + 1)).

Definition layout_size (name : list byte) (ps : list LexemeFreqPair) : Z :=
  16 + MAXALIGN (zlen name + 1) + entries_size ps.

Definition layout (name : list byte) (ps : list LexemeFreqPair) : TpVector :=
  mkTpVector (layout_size name ps) (zlen name) (zlen ps)
    (name_bytes name ++ entries_bytes ps ++ zeros 4).

Record pair_ok (p : LexemeFreqPair) : Prop := {
  pair_no_nul : x00 ∉ pair_lexeme p;
  pair_int32 : int32_range (pair_frequency p);
}.

(** The vectors the program means to build: a layout of at most the size the
    allocator gives, sorted by lexeme. *)
Record vector_ok (name : list byte) (ps : list LexemeFreqPair) : Prop := {
  vo_name : x00 ∉ name /\ name <> [];
  vo_pairs : Forall pair_ok ps;
  vo_size : layout_size name ps <= MaxAllocSize;
  vo_sorted : StronglySorted (cmp_le strcmp_wrapper) ps;
}.

Definition well_typed (v : TpVector) : Prop := exists name ps, vector_ok name ps /\ v = layout name ps.

Lemma entry_size_bounds l : 8 + zlen l <= entry_size l <= 15 + zlen l /\ entry_size l mod 8 = 0.
Proof.
  unfold entry_size, sizeof_TpVectorEntry. pose proof (zlen_nonneg l).
  destruct (MAXALIGN_bounds (8 + zlen l)); lia.
Qed.

Lemma entries_size_nonneg ps : 0 <= entries_size ps.
Proof.
  induction ps as [|p ps IH]; [done|]. cbn [entries_size foldr]. fold (entries_size ps).
  pose proof (entry_size_bounds (pair_lexeme p)). pose proof (zlen_nonneg (pair_lexeme p)). lia.
Qed.

Lemma entries_size_app a b : entries_size (a ++ b) = entries_size a + entries_size b.
Proof. induction a as [|p a IH]; [done|]. cbn [app entries_size foldr].
  fold (entries_size (a ++ b)) (entries_size a). lia. Qed.

Lemma entries_size_perm a b : a ≡ₚ b -> entries_size a = entries_size b.
Proof. unfold entries_size. induction 1; cbn [foldr]; lia. Qed.

Lemma zlen_le_bytes n z : zlen (le_bytes n z) = Z.of_nat n.
Proof. unfold zlen. by rewrite length_le_bytes. Qed.

Lemma zlen_entry_bytes p : zlen (entry_bytes p) = entry_size (pair_lexeme p).
Proof.
  unfold entry_bytes. rewrite !zlen_app, !zlen_le_bytes.
  pose proof (entry_size_bounds (pair_lexeme p)). unfold sizeof_TpVectorEntry. rewrite zlen_zeros by lia. lia.
Qed.

Lemma zlen_concat_entries ps : zlen (entries_bytes ps) = entries_size ps.
Proof.
  induction ps as [|p ps IH]; [done|]. change (entries_bytes (p :: ps)) with (entry_bytes p ++ entries_bytes ps).
  by rewrite zlen_app, zlen_entry_bytes, IH.
Qed.

Lemma zlen_name_bytes name : zlen (name_bytes name) = MAXALIGN (zlen name + 1).
Proof.
  unfold name_bytes. rewrite !zlen_app. pose proof (zlen_nonneg name).
  destruct (MAXALIGN_bounds (zlen name + 1)); [lia|]. rewrite zlen_zeros by lia.
  change (zlen [x00]) with 1. lia.
Qed.

(** ** Creation *)

Lemma swrap_congr x : exists k, i32 x = x + k * 2 ^ 32.
Proof.
  unfold swrap. exists (- ((x + 2 ^ (32 - 1)) / 2 ^ 32)).
  pose proof (Z.div_mod (x + 2 ^ (32 - 1)) (2 ^ 32) ltac:(lia)). lia.
Qed.

(** Whatever the wrap-around, the total is the sum of the sizes modulo [2 ^ 32]. *)
Lemma add_entry_sizes_congr (ps : list LexemeFreqPair) t :
  Forall pair_ok ps -> Forall (fun p => zlen (pair_lexeme p) <= MaxAllocSize) ps ->
  exists k, add_entry_sizes (pair_lexeme <$> ps) t = t + entries_size ps + k * 2 ^ 32.
Proof.
  revert t. induction ps as [|p ps IH]; intros t HF HL; cbn [fmap list_fmap add_entry_sizes].
  - exists 0. cbn. lia.
  - apply Forall_cons in HF as [Hp HF]. apply Forall_cons in HL as [Hl HL]. cbn beta in Hl.
    unfold strlen. rewrite (c_str_id _ (pair_no_nul _ Hp)).
    rewrite (swrap_small 32 (zlen _)) by (pose proof (zlen_nonneg (pair_lexeme p)); unfold MaxAllocSize in *; lia).
    destruct (IH (i32 (t + MAXALIGN (sizeof_TpVectorEntry + zlen (pair_lexeme p)))) HF HL) as [k E].
    rewrite E. destruct (swrap_congr (t + MAXALIGN (sizeof_TpVectorEntry + zlen (pair_lexeme p)))) as [k' ->].
    exists (k + k'). cbn [entries_size foldr]. fold (entries_size ps). unfold entry_size. lia.
Qed.

Lemma store_entries_layout ps pre n : Forall pair_ok ps ->
  Forall (fun p => zlen (pair_lexeme p) <= MaxAllocSize) ps -> entries_size ps <= n ->
  store_entries ps (zlen pre) (pre ++ zeros n) =
    Ok (pre ++ entries_bytes ps ++ zeros (n - entries_size ps)).
Proof.
  revert pre n. induction ps as [|p ps IH]; intros pre n HF HL Hn; cbn [store_entries].
  - cbn. do 2 f_equal. by rewrite Z.sub_0_r.
  - apply Forall_cons in HF as [Hp HF]. apply Forall_cons in HL as [Hl HL]. cbn beta in Hl.
    cbn [entries_size foldr] in Hn. fold (entries_size ps) in Hn.
    destruct (entry_size_bounds (pair_lexeme p)) as [Hb _]. pose proof (entries_size_nonneg ps).
    pose proof (zlen_nonneg (pair_lexeme p)). unfold strlen.
    rewrite (c_str_id _ (pair_no_nul _ Hp)), (swrap_small 32 (zlen _)) by (unfold MaxAllocSize in *; lia).
    rewrite buf_write_zeros by (rewrite zlen_le_bytes; lia). cbn [mbind res_bind].
    rewrite zlen_le_bytes. replace (zlen pre + 4) with (zlen (pre ++ le_bytes 4 (pair_frequency p)))
      by (rewrite zlen_app, zlen_le_bytes; lia).
    rewrite buf_write_zeros by (rewrite zlen_le_bytes; lia). cbn [mbind res_bind].
    replace (zlen pre + sizeof_TpVectorEntry) with
      (zlen ((pre ++ le_bytes 4 (pair_frequency p)) ++ le_bytes 4 (zlen (pair_lexeme p))))
      by (rewrite !zlen_app, !zlen_le_bytes; unfold sizeof_TpVectorEntry; lia).
    rewrite zlen_le_bytes, buf_write_zeros by lia. cbn [mbind res_bind].
    set (pad := entry_size (pair_lexeme p) - (sizeof_TpVectorEntry + zlen (pair_lexeme p))).
    replace (n - Z.of_nat 4 - Z.of_nat 4 - zlen (pair_lexeme p)) with (pad + (n - entry_size (pair_lexeme p)))
      by (unfold pad, sizeof_TpVectorEntry; lia).
    rewrite zeros_app by (unfold pad, sizeof_TpVectorEntry; lia).
    rewrite app_assoc, <- !(app_assoc pre).
    replace ((le_bytes 4 (pair_frequency p) ++ le_bytes 4 (zlen (pair_lexeme p))) ++ pair_lexeme p) with
      (le_bytes 4 (pair_frequency p) ++ le_bytes 4 (zlen (pair_lexeme p)) ++ pair_lexeme p) by apply app_assoc.
    replace (zlen pre + MAXALIGN (sizeof_TpVectorEntry + zlen (pair_lexeme p))) with (zlen (pre ++ entry_bytes p))
      by (rewrite zlen_app, zlen_entry_bytes; done).
    assert (Ep : (le_bytes 4 (pair_frequency p) ++ le_bytes 4 (zlen (pair_lexeme p)) ++ pair_lexeme p) ++
                 zeros pad = entry_bytes p) by (unfold entry_bytes; fold pad; by rewrite <- !app_assoc).
    rewrite Ep, app_assoc.
    rewrite IH by (done || lia). change (entries_bytes (p :: ps)) with (entry_bytes p ++ entries_bytes ps).
    cbn [entries_size foldr]. fold (entries_size ps). rewrite <- !app_assoc. do 5 f_equal. lia.
Qed.

Lemma mapM_pairs (ps pre : list LexemeFreqPair) :
  mapM (fun i => l ← zread (pair_lexeme <$> pre ++ ps) i;
                 f ← zread (pair_frequency <$> pre ++ ps) i; mret (mkPair l f))
    (seqZ (zlen pre) (zlen ps)) = Ok ps.
Proof.
  revert pre. induction ps as [|p ps IH]; intros pre; [done|].
  rewrite zlen_cons, seqZ_cons by (pose proof (zlen_nonneg ps); lia). cbn [mapM].
  assert (Hr : forall A (g : LexemeFreqPair -> A), zread (g <$> pre ++ p :: ps) (zlen pre) = Ok (g p)).
  { intros A g. unfold zread. rewrite zget_fmap. unfold zlen. rewrite zget_nat, list_lookup_middle by done. done. }
  rewrite !Hr. cbn [mbind res_bind mret res_ret].
  replace (Z.pred (1 + zlen ps)) with (zlen ps) by lia.
  replace (Z.succ (zlen pre)) with (zlen (pre ++ [p])) by (rewrite zlen_app; done).
  specialize (IH (pre ++ [p])). rewrite <- app_assoc in IH. cbn [app] in IH. rewrite IH. by destruct p.
Qed.

Section Facts.
Context `{PallocLaws} `{QSortLaws}.

Lemma strcmp_wrapper_comparator l : comparator_on strcmp_wrapper l.
Proof.
  unfold strcmp_wrapper, strcmp. split; intros *.
  - intros _ _. rewrite (bytes_compare_opp (c_str (pair_lexeme b))). lia.
  - intros _ _ _. apply bytes_compare_le_trans.
Qed.

Lemma qsort_pairs_sorted ps : StronglySorted (cmp_le strcmp_wrapper) (qsort strcmp_wrapper ps).
Proof. apply qsort_sorted, strcmp_wrapper_comparator. Qed.

Lemma qsort_short {A} (cmp : A -> A -> Z) l : zlen l <= 1 -> qsort cmp l = l.
Proof.
  intros Hl. pose proof (qsort_perm _ cmp l) as P. destruct l as [|x [|y l]].
  - by apply Permutation_nil_r.
  - by apply Permutation_singleton_r.
  - rewrite !zlen_cons in Hl. pose proof (zlen_nonneg l). lia.
Qed.

Lemma i32_range x : - 2 ^ 31 <= i32 x < 2 ^ 31.
Proof. unfold swrap. pose proof (Z.mod_pos_bound (x + 2 ^ (32 - 1)) (2 ^ 32) ltac:(lia)). lia. Qed.

Lemma add_entry_sizes_range ls t : - 2 ^ 31 <= t < 2 ^ 31 -> - 2 ^ 31 <= add_entry_sizes ls t < 2 ^ 31.
Proof. revert t. induction ls as [|l ls IH]; intros t Ht; [done|]. apply IH, i32_range. Qed.

Lemma buf_write_start bs n : zlen bs <= n ->
  buf_write TPVECTOR_INDEX_NAME_PTR bs (zeros n) = Ok (bs ++ zeros (n - zlen bs)).
Proof. apply (buf_write_zeros []). Qed.

(** The total size the code computes, in [int]. *)
Lemma total_size_computed name ps : zlen name <= MaxAllocSize -> Forall pair_ok ps ->
  Forall (fun p => zlen (pair_lexeme p) <= MaxAllocSize) ps ->
  add_entry_sizes (pair_lexeme <$> ps) (i32 (MAXALIGN sizeof_TpVector + MAXALIGN (zlen name + 1))) =
    i32 (layout_size name ps).
Proof.
  intros Hn HF HL. pose proof (zlen_nonneg name).
  destruct (MAXALIGN_bounds (zlen name + 1) ltac:(lia)) as [Ha _].
  change (MAXALIGN sizeof_TpVector) with 16.
  rewrite (swrap_small 32 (16 + _)) by (unfold MaxAllocSize in *; lia).
  destruct (add_entry_sizes_congr ps (16 + MAXALIGN (zlen name + 1)) HF HL) as [k E].
  destruct (swrap_congr (layout_size name ps)) as [k' E']. pose proof (i32_range (layout_size name ps)).
  pose proof (add_entry_sizes_range (pair_lexeme <$> ps) (16 + MAXALIGN (zlen name + 1))
    ltac:(unfold MaxAllocSize in *; lia)).
  rewrite E, E' in *. unfold layout_size in *. lia.
Qed.

(** The stores of a construction, in a buffer of the size of the layout. *)
Lemma stores_layout name ps : x00 ∉ name -> Forall pair_ok ps ->
  Forall (fun p => zlen (pair_lexeme p) <= MaxAllocSize) ps ->
  (buf ← buf_write TPVECTOR_INDEX_NAME_PTR (name ++ [x00]) (zeros (layout_size name ps - 12));
   store_entries ps (MAXALIGN (zlen name + 1)) buf) = Ok (data (layout name ps)).
Proof.
  intros Hn HF HL. pose proof (zlen_nonneg name). pose proof (entries_size_nonneg ps).
  destruct (MAXALIGN_bounds (zlen name + 1) ltac:(lia)) as [Ha _].
  rewrite buf_write_start by (rewrite zlen_app; change (zlen [x00]) with 1; unfold layout_size; lia).
  rewrite zlen_app. change (zlen [x00]) with 1. cbn [mbind res_bind].
  set (pad := MAXALIGN (zlen name + 1) - (zlen name + 1)).
  replace (layout_size name ps - 12 - (zlen name + 1)) with (pad + (entries_size ps + 4))
    by (unfold layout_size, pad; lia).
  rewrite zeros_app by (unfold pad; lia).
  assert (En : (name ++ [x00]) ++ zeros pad = name_bytes name) by (unfold name_bytes, pad; by rewrite <- app_assoc).
  rewrite app_assoc, En, <- zlen_name_bytes, store_entries_layout by (done || lia).
  cbn [layout data]. do 4 f_equal. lia.
Qed.

(** The outcome of a construction from as many lexemes as frequencies. *)
Lemma create_cases name ps : x00 ∉ name -> name <> [] -> zlen name <= MaxAllocSize ->
  Forall pair_ok ps -> Forall (fun p => zlen (pair_lexeme p) <= MaxAllocSize) ps ->
  layout_size name ps < 2 ^ 32 ->
  create_tpvector_from_strings name (zlen ps) (Some (pair_lexeme <$> ps, pair_frequency <$> ps)) =
    if palloc_ok (i32 (layout_size name ps)) && ((zlen ps =? 0) || palloc_ok (zlen ps * 16))
    then Ok (layout name (qsort strcmp_wrapper ps)) else Err ERRCODE_INTERNAL_ERROR.
Proof.
  intros Hn Hne Hnl HF HL HT. unfold create_tpvector_from_strings, strlen.
  rewrite (c_str_id _ Hn). pose proof (zlen_nonneg ps). pose proof (zlen_nonneg name).
  rewrite (swrap_small 32 (zlen name)) by (unfold MaxAllocSize in *; lia).
  destruct (Z.eqb_spec (zlen name) 0) as [E|_]; [by destruct name|]. cbn [default id].
  rewrite take_ge by (rewrite length_fmap; unfold zlen; lia).
  rewrite total_size_computed by done. unfold palloc0, palloc.
  destruct (palloc_ok (i32 (layout_size name ps))) eqn:Ep; [|done]. cbn [mbind res_bind andb].
  apply palloc_ok_iff in Ep. pose proof (entries_size_nonneg ps).
  destruct (MAXALIGN_bounds (zlen name + 1) ltac:(lia)) as [Ha _].
  assert (Es : i32 (layout_size name ps) = layout_size name ps).
  { destruct (swrap_congr (layout_size name ps)) as [k E]. unfold MaxAllocSize, layout_size in *. lia. }
  rewrite Es in *. rewrite drop_replicate.
  replace (Z.to_nat (layout_size name ps) - Z.to_nat sizeof_TpVector)%nat with
    (Z.to_nat (layout_size name ps - 12)) by (unfold sizeof_TpVector; lia).
  fold (zeros (layout_size name ps - 12)). rewrite bool_decide_eq_true_2 by done. cbn [andb].
  destruct (Z.eqb_spec (zlen ps) 0) as [Hz|Hz].
  { destruct ps as [|p ps]; [|rewrite zlen_cons in Hz; pose proof (zlen_nonneg ps); lia].
    rewrite qsort_short by done. pose proof (stores_layout name [] Hn HF HL) as Hs.
    destruct (buf_write _ _ _); [|done]. cbn [mbind res_bind store_entries] in Hs.
    injection Hs as ->. done. }
  destruct (Z.ltb_spec 0 (zlen ps)); [|lia]. cbn [orb].
  pose proof (mapM_pairs ps []) as Em. cbn [app] in Em. change (zlen []) with 0 in Em.
  assert (Eq : (if 1 <? zlen ps then qsort strcmp_wrapper ps else ps) = qsort strcmp_wrapper ps)
    by (destruct (Z.ltb_spec 1 (zlen ps)); [done|]; by rewrite qsort_short by lia).
  pose proof (qsort_perm _ strcmp_wrapper ps) as P.
  assert (El : layout_size name ps = layout_size name (qsort strcmp_wrapper ps))
    by (unfold layout_size; by rewrite (entries_size_perm _ _ P)).
  pose proof (stores_layout name (qsort strcmp_wrapper ps) Hn) as Hs. rewrite <- El in Hs.
  specialize (Hs ltac:(by rewrite P) ltac:(by rewrite P)).
  destruct (buf_write _ _ _); [|done]. cbn [mbind res_bind] in *.
  destruct (palloc_ok (zlen ps * 16)); [|done]. cbn [mbind res_bind].
  rewrite Em. cbn [mbind res_bind]. rewrite Eq, Hs. cbn [mbind res_bind mret res_ret].
  unfold layout. do 2 f_equal; [done|]. unfold zlen. by rewrite P.
Qed.

(** ** Parsing *)

Definition lexemes_length (ps : list LexemeFreqPair) : Z :=
  foldr (fun p s => zlen (pair_lexeme p) + s) 0 ps.

(** An error a malformed or too long text may give. *)
Definition input_error (e : tp_error) : Prop :=
  e = ERRCODE_INVALID_TEXT_REPRESENTATION \/ e = ERRCODE_INVALID_PARAMETER_VALUE \/
  e = ERRCODE_INTERNAL_ERROR.

Lemma atoi_range s : int32_range (atoi s).
Proof. apply i32_range. Qed.

Lemma no_nul_drop (s : list byte) n : x00 ∉ s -> x00 ∉ drop n s.
Proof. intros Hs Hin. apply Hs. rewrite <- (take_drop n s), elem_of_app. by right. Qed.

Lemma no_nul_sub_list (s : list byte) off n : x00 ∉ s -> x00 ∉ sub_list off n s.
Proof.
  intros Hs Hin. unfold sub_list in Hin. apply (no_nul_drop s (Z.to_nat off) Hs).
  rewrite <- (take_drop (Z.to_nat n) (drop _ s)), elem_of_app. by left.
Qed.

Lemma count_commas_step ptr k : strchr ptr comma = Some k ->
  count_commas ptr = 1 + count_commas (drop (Z.to_nat (k + 1)) ptr).
Proof.
  intros E. destruct (strchr_Some _ _ _ E) as (Hk & Hc & Er). rewrite Er at 1.
  rewrite count_commas_app, count_commas_plain by done. unfold count_commas at 1.
  by rewrite filter_cons_True, zlen_cons by done.
Qed.

(** One round per comma, and one for the last entry. *)
Lemma parse_entries_typed n ptr : x00 ∉ ptr -> Z.of_nat n = 1 + count_commas ptr ->
  match parse_entries n ptr with
  | Ok (ls, fs) => exists ps, ls = pair_lexeme <$> ps /\ fs = pair_frequency <$> ps /\
      length ps = n /\ Forall pair_ok ps /\ lexemes_length ps <= zlen ptr
  | Err e => input_error e
  end.
Proof.
  revert ptr. induction n as [|n IH]; intros ptr Hnul Hn.
  { unfold count_commas in Hn. pose proof (zlen_nonneg (filter (fun b => b = comma) ptr)). lia. }
  cbn [parse_entries]. destruct (strchr ptr colon) as [c|] eqn:Ec; [|by left].
  destruct (strchr_Some _ _ _ Ec) as [Hc _].
  destruct (match strchr ptr comma with Some k => k <? c | None => false end) eqn:Ek; [by left|].
  unfold palloc. destruct (palloc_ok (c + 1)); [|by right; right]. cbn [mbind res_bind].
  assert (Hok : forall s, pair_ok (mkPair (sub_list 0 c ptr) (atoi s)))
    by (intros s; split; [by apply no_nul_sub_list|apply atoi_range]).
  assert (Hz : zlen (sub_list 0 c ptr) = c) by (rewrite zlen_sub_list; lia).
  destruct (strchr ptr comma) as [k|] eqn:Ecm.
  - rewrite (count_commas_step _ _ Ecm) in Hn. destruct (strchr_Some _ _ _ Ecm) as [Hk _].
    specialize (IH (drop (Z.to_nat (k + 1)) ptr) ltac:(by apply no_nul_drop) ltac:(lia)).
    destruct (parse_entries n _) as [[ls fs]|e]; [|done]. cbn [mbind res_bind mret res_ret].
    destruct IH as (ps & -> & -> & El & HF & Hs).
    exists (mkPair (sub_list 0 c ptr) (atoi (sub_list 0 (k - (c + 1)) (drop (Z.to_nat (c + 1)) ptr))) :: ps).
    cbn [fmap list_fmap length pair_lexeme pair_frequency lexemes_length foldr]. fold (lexemes_length ps).
    rewrite El, Hz. repeat split; [constructor; [apply Hok|done]|].
    unfold zlen in *. rewrite length_drop in Hs. lia.
  - assert (Hn0 : n = 0%nat) by (apply strchr_none in Ecm; rewrite count_commas_plain in Hn by done; lia).
    subst n. cbn. exists [mkPair (sub_list 0 c ptr) (atoi (drop (Z.to_nat (c + 1)) ptr))].
    cbn. rewrite Hz. repeat split; [constructor; [apply Hok|done]|lia].
Qed.

Lemma create_none name : create_tpvector_from_strings name 0 None = create_tpvector_from_strings name 0 (Some ([], [])).
Proof. unfold create_tpvector_from_strings. cbn [default id]. by rewrite !andb_false_r. Qed.

Lemma create_no_name n arrays : create_tpvector_from_strings [] n arrays = Err ERRCODE_INVALID_PARAMETER_VALUE.
Proof. done. Qed.

Lemma lexemes_length_bounds ps : 0 <= lexemes_length ps /\
  Forall (fun p => zlen (pair_lexeme p) <= lexemes_length ps) ps.
Proof.
  induction ps as [|p ps [IH0 IH]]; [done|]. cbn [lexemes_length foldr]. fold (lexemes_length ps).
  pose proof (zlen_nonneg (pair_lexeme p)). split; [lia|]. constructor; [lia|forall_lia IH].
Qed.

Lemma entries_size_bound ps : entries_size ps <= 15 * zlen ps + lexemes_length ps.
Proof.
  induction ps as [|p ps IH]; [done|]. cbn [entries_size lexemes_length foldr].
  fold (entries_size ps) (lexemes_length ps). rewrite zlen_cons.
  pose proof (entry_size_bounds (pair_lexeme p)). lia.
Qed.

(** A construction from a text of at most the allocator's size. *)
Lemma create_typed name ps : x00 ∉ name -> Forall pair_ok ps ->
  zlen name + lexemes_length ps <= MaxAllocSize -> zlen ps * 8 <= MaxAllocSize ->
  match create_tpvector_from_strings name (zlen ps) (Some (pair_lexeme <$> ps, pair_frequency <$> ps)) with
  | Ok v => well_typed v
  | Err e => input_error e
  end.
Proof.
  intros Hn HF Hl Hc. destruct (decide (name = [])) as [->|Hne].
  { rewrite create_no_name. right. by left. }
  destruct (lexemes_length_bounds ps) as [Hl0 HL]. pose proof (entries_size_bound ps).
  pose proof (zlen_nonneg name). destruct (MAXALIGN_bounds (zlen name + 1) ltac:(lia)) as [Ha _].
  assert (HT : layout_size name ps < 2 ^ 32) by (unfold layout_size, MaxAllocSize in *; lia).
  rewrite create_cases; [|done|done|lia|done|forall_lia HL|done].
  destruct (palloc_ok (i32 (layout_size name ps))) eqn:Ep; [|by right; right].
  destruct (_ || _); [|by right; right]. cbn [andb].
  pose proof (qsort_perm _ strcmp_wrapper ps) as P. pose proof (entries_size_nonneg ps).
  exists name, (qsort strcmp_wrapper ps). split; [|done]. split.
  - done.
  - by rewrite P.
  - apply palloc_ok_iff in Ep. destruct (swrap_congr (layout_size name ps)) as [k E].
    unfold layout_size in *. rewrite (entries_size_perm _ _ P). unfold MaxAllocSize in *. lia.
  - apply qsort_pairs_sorted.
Qed.

Lemma count_commas_bounds s : 0 <= count_commas s <= zlen s.
Proof.
  unfold count_commas. split; [apply zlen_nonneg|]. unfold zlen.
  pose proof (length_filter (fun b : byte => b = comma) s). lia.
Qed.

Lemma tpvector_in_typed s : zlen s <= MaxAllocSize ->
  match tpvector_in s with
  | Ok v => well_typed v
  | Err e => input_error e
  end.
Proof.
  intros Hs. unfold tpvector_in. pose proof (c_str_no_nul s) as Hnul.
  assert (Hs' : zlen (c_str s) <= MaxAllocSize).
  { enough (zlen (c_str s) <= zlen s) by lia. clear. induction s as [|b s IH]; [done|]. cbn [c_str].
    rewrite zlen_cons. destruct (Byte.eqb b x00); [pose proof (zlen_nonneg s); rewrite zlen_nil; lia|].
    rewrite zlen_cons. lia. }
  generalize dependent (c_str s). clear s Hs. intros s Hnul Hs.
  destruct (strchr s colon) as [k|] eqn:Ek; [|by left].
  destruct (strchr_Some _ _ _ Ek) as [Hk _].
  unfold palloc. destruct (palloc_ok (k + 1)); [|by right; right]. cbn [mbind res_bind].
  set (body := drop (Z.to_nat (k + 1)) s).
  assert (Hbody : zlen body = zlen s - k - 1) by (unfold body, zlen in *; rewrite length_drop; lia).
  destruct (_ || _) eqn:Eg; [by left|].
  set (es := sub_list 1 (zlen body - 2) body).
  assert (Hes : zlen es <= zlen body) by (unfold es; rewrite zlen_sub_list; lia).
  assert (Hname : zlen (sub_list 0 k s) = k) by (rewrite zlen_sub_list; lia).
  assert (Hnn : x00 ∉ sub_list 0 k s) by (by apply no_nul_sub_list).
  pose proof (count_commas_bounds es) as Hcc.
  destruct (Z.ltb_spec 0 (zlen es)) as [Hpos|Hz].
  - rewrite swrap_small by (unfold MaxAllocSize in *; lia).
    destruct (Z.ltb_spec 0 (1 + count_commas es)); [|lia].
    destruct (palloc_ok ((1 + count_commas es) * 8)) eqn:Ep; [|by right; right]. cbn [mbind res_bind].
    destruct (palloc_ok ((1 + count_commas es) * 4)); [|by right; right]. cbn [mbind res_bind].
    apply palloc_ok_iff in Ep.
    pose proof (parse_entries_typed (Z.to_nat (1 + count_commas es)) es
      ltac:(by apply no_nul_sub_list, no_nul_drop) ltac:(lia)) as Hp.
    destruct (parse_entries _ es) as [[ls fs]|e]; [|done]. cbn [mbind res_bind].
    destruct Hp as (ps & -> & -> & El & HF & Hl).
    replace (1 + count_commas es) with (zlen ps) in * by (unfold zlen; lia).
    apply create_typed; try done; lia.
  - cbn [Z.ltb Z.compare]. rewrite create_none. apply (create_typed _ []); try done; cbn; lia.
Qed.

(** ** Reading a layout *)

(** The entries [ps] are stored at the offset [off] of [v]. *)
Definition holds (v : TpVector) (off : Z) (ps : list LexemeFreqPair) : Prop :=
  exists pre post, zlen pre = off /\ data v = pre ++ entries_bytes ps ++ post.

Definition pair_small (p : LexemeFreqPair) : Prop := pair_ok p /\ zlen (pair_lexeme p) <= MaxAllocSize.

Lemma le_value_i32 n : int32_range n -> i32 (le_value (le_bytes 4 n)) = n.
Proof.
  intros Hn. rewrite le_value_bytes. change (256 ^ Z.of_nat 4) with (2 ^ 32).
  unfold swrap. unfold int32_range in Hn. rewrite Zplus_mod_idemp_l, Z.mod_small by lia. lia.
Qed.

Lemma read_i32_middle a n b : int32_range n -> read_i32 (zlen a) (a ++ le_bytes 4 n ++ b) = Ok n.
Proof.
  intros Hn. unfold read_i32. pose proof (buf_read_middle a (le_bytes 4 n) b) as E.
  rewrite zlen_le_bytes in E. change (Z.of_nat 4) with 4 in E. rewrite E. cbn [mbind res_bind mret res_ret].
  by rewrite le_value_i32.
Qed.

Lemma holds_cons v off p ps : holds v off (p :: ps) -> pair_small p ->
  entry_header v off = Ok (pair_frequency p, zlen (pair_lexeme p)) /\
  buf_read (off + sizeof_TpVectorEntry) (zlen (pair_lexeme p)) (data v) = Ok (pair_lexeme p) /\
  holds v (off + MAXALIGN (sizeof_TpVectorEntry + zlen (pair_lexeme p))) ps.
Proof.
  intros (pre & post & <- & E) [[Hnul Hf] Hl].
  change (entries_bytes (p :: ps)) with (entry_bytes p ++ entries_bytes ps) in E.
  assert (Hz : int32_range (zlen (pair_lexeme p)))
    by (pose proof (zlen_nonneg (pair_lexeme p)); unfold int32_range, MaxAllocSize in *; lia).
  split; [|split].
  - unfold entry_header. rewrite E. unfold entry_bytes. rewrite <- !app_assoc, read_i32_middle by done.
    cbn [mbind res_bind]. replace (zlen pre + 4) with (zlen (pre ++ le_bytes 4 (pair_frequency p)))
      by (rewrite zlen_app, zlen_le_bytes; lia).
    rewrite app_assoc, read_i32_middle by done. done.
  - rewrite E. unfold entry_bytes. rewrite <- !app_assoc.
    replace (zlen pre + sizeof_TpVectorEntry) with
      (zlen (pre ++ le_bytes 4 (pair_frequency p) ++ le_bytes 4 (zlen (pair_lexeme p))))
      by (rewrite !zlen_app, !zlen_le_bytes; unfold sizeof_TpVectorEntry; lia).
    set (a := le_bytes 4 (pair_frequency p)). set (b := le_bytes 4 (zlen (pair_lexeme p))).
    match goal with |- buf_read _ _ (pre ++ a ++ b ++ ?r) = _ =>
      replace (pre ++ a ++ b ++ r) with ((pre ++ a ++ b) ++ r) by (by rewrite <- !app_assoc) end.
    apply buf_read_middle.
  - exists (pre ++ entry_bytes p), post. rewrite zlen_app, zlen_entry_bytes. split; [done|].
    by rewrite E, <- !app_assoc.
Qed.

Lemma entry_at_holds v off p ps : holds v off (p :: ps) -> pair_small p ->
  entry_at v off = Ok (mkEntry (pair_frequency p) (zlen (pair_lexeme p)) (pair_lexeme p)).
Proof.
  intros Hh Hp. destruct (holds_cons _ _ _ _ Hh Hp) as (Eh & Eb & _). unfold entry_at, entry_header in *.
  destruct (read_i32 off (data v)); [|done]. cbn [mbind res_bind] in *.
  destruct (read_i32 (off + 4) (data v)); [|done]. cbn [mbind res_bind mret res_ret] in *. injection Eh as -> ->.
  by rewrite Eb.
Qed.

Lemma layout_holds name ps : holds (layout name ps) (TPVECTOR_ENTRIES_PTR (layout name ps)) ps.
Proof. exists (name_bytes name), (zeros 4). split; [apply zlen_name_bytes|done]. Qed.

Lemma vector_ok_small name ps : vector_ok name ps -> Forall pair_small ps /\ zlen name <= MaxAllocSize.
Proof.
  intros [_ HF Hs _]. pose proof (zlen_nonneg name). destruct (MAXALIGN_bounds (zlen name + 1) ltac:(lia)) as [Ha _].
  unfold layout_size in Hs. pose proof (entries_size_nonneg ps). split; [|lia].
  assert (He : entries_size ps <= MaxAllocSize) by lia. clear Hs.
  induction ps as [|p ps IH]; [done|]. apply Forall_cons in HF as [Hp HF].
  cbn [entries_size foldr] in *. fold (entries_size ps) in *. pose proof (entries_size_nonneg ps).
  pose proof (entry_size_bounds (pair_lexeme p)). pose proof (zlen_nonneg (pair_lexeme p)).
  constructor; [split; [done|lia]|]. apply IH; [done|lia..].
Qed.

Lemma layout_name name ps : vector_ok name ps -> 
  get_tpvector_index_name (layout name ps) =
    if zlen name <=? TP_MAX_INDEX_NAME_LENGTH then Ok name else Err ERRCODE_DATA_CORRUPTED.
Proof.
  intros [[Hn _] _ Hs _]. unfold get_tpvector_index_name, layout. cbn [vl_len_ index_name_len data].
  pose proof (zlen_nonneg name). pose proof (entries_size_nonneg ps).
  destruct (MAXALIGN_bounds (zlen name + 1) ltac:(lia)) as [Ha _].
  unfold sizeof_TpVector, TPVECTOR_INDEX_NAME_PTR.
  destruct (Z.ltb_spec (layout_size name ps) 12); [unfold layout_size in *; lia|].
  destruct (Z.ltb_spec (zlen name) 0); [lia|]. cbn [orb].
  destruct (Z.leb_spec (zlen name) TP_MAX_INDEX_NAME_LENGTH), (Z.ltb_spec TP_MAX_INDEX_NAME_LENGTH (zlen name)); try lia; [|done].
  destruct (Z.ltb_spec (layout_size name ps) (12 + 0 + zlen name)); [unfold layout_size in *; lia|].
  unfold name_bytes. rewrite <- !app_assoc.
  pose proof (buf_read_middle [] name ([x00] ++ zeros (MAXALIGN (zlen name + 1) - (zlen name + 1)) ++ entries_bytes ps ++ zeros 4)) as E.
  cbn [app] in E. change (zlen []) with 0 in E. cbn [app]. rewrite E. cbn. by rewrite c_str_id.
Qed.

(** ** The text of a vector *)

Definition pair_text (p : LexemeFreqPair) : list byte := pair_lexeme p ++ colon :: fmt_d (pair_frequency p).

Fixpoint entries_text (ps : list LexemeFreqPair) : list byte :=
  match ps with
  | [] => []
  | [p] => pair_text p
  | p :: ps => pair_text p ++ comma :: entries_text ps
  end.

Definition vector_text (name : list byte) (ps : list LexemeFreqPair) : list byte :=
  name ++ [colon; x7b] ++ entries_text ps ++ [x7d].

Lemma print_entries_text v ps off out first : holds v off ps -> Forall pair_small ps ->
  print_entries v (length ps) first off out =
    Ok (out ++ (if first || (zlen ps =? 0) then [] else [comma]) ++ entries_text ps).
Proof.
  revert off out first. induction ps as [|p ps IH]; intros off out first Hh HF.
  - cbn. rewrite orb_true_r. by rewrite app_nil_r.
  - apply Forall_cons in HF as [Hp HF]. cbn [length print_entries].
    rewrite (entry_at_holds _ _ _ _ Hh Hp). cbn [mbind res_bind].
    destruct (holds_cons _ _ _ _ Hh Hp) as (_ & _ & Hh').
    unfold get_tpvector_next_entry. cbn [lexeme_len]. rewrite IH by done. f_equal.
    assert (Ef : fmt_entry (mkEntry (pair_frequency p) (zlen (pair_lexeme p)) (pair_lexeme p)) = pair_text p)
      by (unfold fmt_entry, pair_text; cbn; by rewrite (c_str_id _ (pair_no_nul _ (proj1 Hp)))).
    rewrite Ef. rewrite zlen_cons. pose proof (zlen_nonneg ps).
    destruct (Z.eqb_spec (1 + zlen ps) 0); [lia|]. rewrite orb_false_r. cbn [orb].
    destruct ps as [|p' ps]; [destruct first; cbn; by rewrite ?app_nil_r, <- ?app_assoc|].
    destruct (Z.eqb_spec (zlen (p' :: ps)) 0) as [E|_]; [done|].
    change (entries_text (p :: p' :: ps)) with (pair_text p ++ comma :: entries_text (p' :: ps)).
    destruct first; cbn [app]; by rewrite <- !app_assoc.
Qed.

(** The output function prints a well-typed vector whose name fits. *)
Lemma tpvector_out_layout name ps : vector_ok name ps ->
  tpvector_out (layout name ps) =
    if zlen name <=? TP_MAX_INDEX_NAME_LENGTH then Ok (vector_text name ps) else Err ERRCODE_DATA_CORRUPTED.
Proof.
  intros Hv. unfold tpvector_out. rewrite layout_name by done.
  pose proof (zlen_nonneg name). pose proof (entries_size_nonneg ps).
  destruct (MAXALIGN_bounds (zlen name + 1) ltac:(lia)) as [Ha _].
  cbn [layout vl_len_]. unfold sizeof_TpVector.
  destruct (Z.ltb_spec (layout_size name ps) 12); [unfold layout_size in *; lia|].
  destruct (zlen name <=? TP_MAX_INDEX_NAME_LENGTH); [|done]. cbn [mbind res_bind].
  replace (Z.to_nat (entry_count (layout name ps))) with (length ps) by (cbn; unfold zlen; lia).
  rewrite print_entries_text by (apply layout_holds || apply (vector_ok_small _ _ Hv)).
  cbn [mbind res_bind mret res_ret orb app]. unfold vector_text. by rewrite <- !app_assoc.
Qed.

(** ** Reading the text back *)

Definition pair_clean (p : LexemeFreqPair) : Prop :=
  pair_small p /\ comma ∉ pair_lexeme p /\ colon ∉ pair_lexeme p.

Lemma pair_text_facts p : pair_clean p -> comma ∉ pair_text p /\ x00 ∉ pair_text p.
Proof.
  intros ([[Hn _] _] & Hc & _). unfold pair_text. destruct (plain_not_in _ (fmt_d_plain (pair_frequency p))) as (? & ? & ?).
  rewrite !not_elem_of_app, !not_elem_of_cons. done.
Qed.

Lemma entries_text_no_nul ps : Forall pair_clean ps -> x00 ∉ entries_text ps.
Proof.
  induction ps as [|p [|p' ps] IH]; intros HF; [apply not_elem_of_nil|..]; apply Forall_cons in HF as [Hp HF].
  - by apply pair_text_facts.
  - change (entries_text (p :: p' :: ps)) with (pair_text p ++ comma :: entries_text (p' :: ps)).
    rewrite not_elem_of_app, not_elem_of_cons. split; [by apply pair_text_facts|]. split; [done|by apply IH].
Qed.

Lemma count_commas_text p ps : Forall pair_clean (p :: ps) -> count_commas (entries_text (p :: ps)) = zlen ps.
Proof.
  revert p. induction ps as [|p' ps IH]; intros p HF; apply Forall_cons in HF as [Hp HF].
  - apply count_commas_plain, pair_text_facts, Hp.
  - change (entries_text (p :: p' :: ps)) with (pair_text p ++ [comma] ++ entries_text (p' :: ps)).
    rewrite !count_commas_app, IH, count_commas_plain by (done || by apply pair_text_facts).
    change (count_commas [comma]) with 1. rewrite zlen_cons. lia.
Qed.

(** One round of the parser on the text of an entry. *)
Lemma pair_text_split p (tail : list byte) : pair_clean p ->
  strchr (pair_text p ++ tail) colon = Some (zlen (pair_lexeme p)) /\
  sub_list 0 (zlen (pair_lexeme p)) (pair_text p ++ tail) = pair_lexeme p /\
  drop (Z.to_nat (zlen (pair_lexeme p) + 1)) (pair_text p ++ tail) = fmt_d (pair_frequency p) ++ tail.
Proof.
  intros (_ & _ & Hc). unfold pair_text. rewrite <- app_assoc. cbn [app].
  split; [by apply strchr_app|]. unfold sub_list, zlen. rewrite Nat2Z.id. split.
  - change (Z.to_nat 0) with 0%nat. by rewrite drop_0, take_app_length.
  - replace (Z.to_nat (Z.of_nat (length (pair_lexeme p)) + 1)) with (length (pair_lexeme p ++ [colon]))
      by (rewrite length_app; cbn; lia).
    change (colon :: fmt_d (pair_frequency p) ++ tail) with ([colon] ++ fmt_d (pair_frequency p) ++ tail).
    by rewrite app_assoc, drop_app_length.
Qed.

Lemma parse_entries_text p ps : Forall pair_clean (p :: ps) ->
  Forall (fun p => zlen (pair_lexeme p) < MaxAllocSize) (p :: ps) ->
  parse_entries (S (length ps)) (entries_text (p :: ps)) =
    Ok (pair_lexeme <$> p :: ps, pair_frequency <$> p :: ps).
Proof.
  revert p. induction ps as [|p' ps IH]; intros p HF HL; apply Forall_cons in HF as [Hp HF];
    apply Forall_cons in HL as [Hl HL]; cbn beta in Hl; pose proof (zlen_nonneg (pair_lexeme p)) as H0l;
    assert (Hpa : palloc_ok (zlen (pair_lexeme p) + 1) = true) by (apply palloc_ok_iff; lia);
    destruct (pair_text_facts p Hp) as [Hcm _].
  - change (entries_text [p]) with (pair_text p). destruct (pair_text_split p [] Hp) as (Ec & El & Ed).
    rewrite app_nil_r in Ec, El, Ed. rewrite app_nil_r in Ed.
    cbn [length parse_entries]. apply strchr_none in Hcm. rewrite Hcm, Ec. unfold palloc.
    rewrite Hpa, El, Ed, atoi_fmt_d by apply Hp. done.
  - change (entries_text (p :: p' :: ps)) with (pair_text p ++ comma :: entries_text (p' :: ps)).
    destruct (pair_text_split p (comma :: entries_text (p' :: ps)) Hp) as (Ec & El & Ed).
    set (n := S (length ps)) in *. change (length (p' :: ps)) with n. cbn [parse_entries].
    rewrite Ec, strchr_app by done. unfold palloc. rewrite Hpa, El, Ed.
    assert (Hlen : zlen (pair_text p) = zlen (pair_lexeme p) + 1 + zlen (fmt_d (pair_frequency p)))
      by (unfold pair_text; rewrite zlen_app, zlen_cons; lia).
    pose proof (zlen_nonneg (fmt_d (pair_frequency p))).
    destruct (Z.ltb_spec (zlen (pair_text p)) (zlen (pair_lexeme p))); [lia|]. cbn [mbind res_bind].
    replace (drop (Z.to_nat (zlen (pair_text p) + 1)) (pair_text p ++ comma :: entries_text (p' :: ps)))
      with (entries_text (p' :: ps)).
    2: { replace (Z.to_nat (zlen (pair_text p) + 1)) with (length (pair_text p ++ [comma]))
           by (rewrite length_app; unfold zlen; cbn; lia).
         change (comma :: entries_text (p' :: ps)) with ([comma] ++ entries_text (p' :: ps)).
         by rewrite app_assoc, drop_app_length. }
    rewrite IH by done. cbn [mbind res_bind mret res_ret fmap list_fmap]. do 3 f_equal.
    replace (zlen (pair_text p) - (zlen (pair_lexeme p) + 1)) with (zlen (fmt_d (pair_frequency p))) by lia.
    rewrite sub_list_app_l by lia. rewrite sub_list_0_all. apply atoi_fmt_d, Hp.
Qed.

Lemma sorted_perm_unique ps qs : NoDup (pair_lexeme <$> ps) -> Forall pair_ok ps ->
  StronglySorted (cmp_le strcmp_wrapper) ps -> StronglySorted (cmp_le strcmp_wrapper) qs -> ps ≡ₚ qs -> ps = qs.
Proof.
  intros Hnd HF Hs Hs' P. eapply StronglySorted_unique_strong; [|done..].
  intros p q Hp Hq Hpq Hqp. rewrite <- P in Hq. rewrite Forall_forall in HF.
  assert (E : pair_lexeme p = pair_lexeme q).
  { unfold cmp_le, strcmp_wrapper, strcmp in *. rewrite !c_str_id in * by (by apply HF).
    apply bytes_compare_eq. rewrite (bytes_compare_opp (pair_lexeme q)) in Hqp. lia. }
  apply list_elem_of_lookup in Hp as [i Hi]. apply list_elem_of_lookup in Hq as [j Hj].
  assert (i = j) as ->; [|congruence].
  eapply NoDup_lookup; [exact Hnd|..]; rewrite list_lookup_fmap; [rewrite Hi; reflexivity|rewrite Hj; cbn; by rewrite E].
Qed.

Lemma sorted_pairs_unique ps : NoDup (pair_lexeme <$> ps) -> Forall pair_ok ps ->
  StronglySorted (cmp_le strcmp_wrapper) ps -> qsort strcmp_wrapper ps = ps.
Proof.
  intros Hnd HF Hs. symmetry. apply sorted_perm_unique; try done; [apply qsort_pairs_sorted|].
  symmetry. apply qsort_perm.
Qed.

(** The array of pairs [qsort] gets is at most as large as the vector. *)
Lemma pairs_array_small ps : NoDup (pair_lexeme <$> ps) -> zlen ps * 16 <= entries_size ps + 8.
Proof.
  assert (Hne : forall qs, Forall (fun q => pair_lexeme q <> []) qs -> zlen qs * 16 <= entries_size qs).
  { induction 1 as [|q qs Hq _ IH]; [done|]. cbn [entries_size foldr]. fold (entries_size qs).
    rewrite zlen_cons. destruct (entry_size_bounds (pair_lexeme q)) as [Hb Hm].
    assert (0 < zlen (pair_lexeme q)) by (destruct (pair_lexeme q); [done|]; rewrite zlen_cons; pose proof (zlen_nonneg l); lia).
    assert (16 <= entry_size (pair_lexeme q)); [|lia].
    pose proof (Z.div_mod (entry_size (pair_lexeme q)) 8 ltac:(lia)). lia. }
  induction ps as [|p ps IH]; intros Hnd; [done|]. cbn [fmap list_fmap] in Hnd. apply NoDup_cons in Hnd as [Hp Hnd].
  cbn [entries_size foldr]. fold (entries_size ps). rewrite zlen_cons.
  destruct (entry_size_bounds (pair_lexeme p)) as [Hb Hm]. pose proof (zlen_nonneg (pair_lexeme p)).
  destruct (decide (pair_lexeme p = [])) as [E|E].
  - enough (zlen ps * 16 <= entries_size ps) by lia. apply Hne, Forall_forall. intros q Hq Eq. apply Hp.
    rewrite E, <- Eq. by apply list_elem_of_fmap_2.
  - specialize (IH Hnd).
    assert (0 < zlen (pair_lexeme p)) by (destruct (pair_lexeme p); [done|]; rewrite zlen_cons; pose proof (zlen_nonneg l); lia).
    pose proof (Z.div_mod (entry_size (pair_lexeme p)) 8 ltac:(lia)). lia.
Qed.

Lemma vector_ok_sizes name ps : vector_ok name ps ->
  zlen name + 1 <= MaxAllocSize /\ entries_size ps + 8 <= MaxAllocSize /\
  Forall (fun p => zlen (pair_lexeme p) < MaxAllocSize) ps.
Proof.
  intros [_ _ Hs _]. pose proof (zlen_nonneg name). destruct (MAXALIGN_bounds (zlen name + 1) ltac:(lia)) as [Ha _].
  unfold layout_size in Hs. pose proof (entries_size_nonneg ps). split; [lia|split; [lia|]].
  assert (He : entries_size ps < MaxAllocSize) by lia. clear Hs Ha.
  induction ps as [|p ps IH]; [done|]. cbn [entries_size foldr] in *. fold (entries_size ps) in *.
  pose proof (entries_size_nonneg ps). pose proof (entry_size_bounds (pair_lexeme p)).
  pose proof (zlen_nonneg (pair_lexeme p)). constructor; [lia|]. apply IH; lia.
Qed.

Lemma palloc_small n : 0 <= n <= MaxAllocSize -> palloc n = Ok tt.
Proof. intros Hn. unfold palloc. by rewrite (proj2 (palloc_ok_iff n) Hn). Qed.

(** The construction of a vector whose entries are sorted already. *)
Lemma create_sorted name ps : vector_ok name ps -> NoDup (pair_lexeme <$> ps) ->
  create_tpvector_from_strings name (zlen ps) (Some (pair_lexeme <$> ps, pair_frequency <$> ps)) = Ok (layout name ps).
Proof.
  intros Hv Hnd. destruct (vector_ok_small _ _ Hv) as [Hsm Hnm]. destruct (vector_ok_sizes _ _ Hv) as (_ & Hes & _).
  destruct Hv as [[Hn Hne] HP Hsz Hs]. pose proof (pairs_array_small ps Hnd). pose proof (zlen_nonneg ps).
  pose proof (zlen_nonneg name). destruct (MAXALIGN_bounds (zlen name + 1) ltac:(lia)) as [Ha _].
  assert (H0s : 0 <= layout_size name ps) by (pose proof (entries_size_nonneg ps); unfold layout_size; lia).
  rewrite create_cases; [|done|done|done|done|eapply Forall_impl; [exact Hsm|]; by intros ? []|unfold MaxAllocSize in *; lia].
  rewrite swrap_small by (unfold MaxAllocSize in *; lia).
  rewrite !(proj2 (palloc_ok_iff _)) by (unfold MaxAllocSize in *; lia). rewrite orb_true_r. cbn [andb].
  by rewrite sorted_pairs_unique.
Qed.

(** The text between the braces, read back. *)
Lemma read_entries_text name ps : vector_ok name ps -> Forall pair_clean ps -> NoDup (pair_lexeme <$> ps) ->
  (let entry_count := if 0 <? zlen (entries_text ps) then i32 (1 + count_commas (entries_text ps)) else 0 in
   if 0 <? entry_count then
     _ ← palloc (entry_count * 8);
     _ ← palloc (entry_count * 4);
     arrays ← parse_entries (Z.to_nat entry_count) (entries_text ps);
     create_tpvector_from_strings name entry_count (Some arrays)
   else create_tpvector_from_strings name entry_count None) = Ok (layout name ps).
Proof.
  intros Hv HF Hnd. destruct (vector_ok_sizes _ _ Hv) as (_ & Hes & HL).
  pose proof (create_sorted _ _ Hv Hnd) as Hc. pose proof (pairs_array_small ps Hnd) as Harr.
  destruct ps as [|p ps]; [by rewrite <- Hc, <- create_none|].
  assert (Hpos : 0 < zlen (entries_text (p :: ps))).
  { destruct (entries_text (p :: ps)) as [|b l] eqn:E; [|rewrite zlen_cons; pose proof (zlen_nonneg l); lia].
    destruct ps; cbn in E; unfold pair_text in E; apply app_eq_nil in E as [E E']; [done|].
    by apply app_eq_nil in E as [_ E]. }
  destruct (Z.ltb_spec 0 (zlen (entries_text (p :: ps)))); [|lia].
  pose proof (zlen_nonneg ps). rewrite count_commas_text by done. rewrite zlen_cons in *.
  rewrite swrap_small by (unfold MaxAllocSize in *; lia).
  cbv zeta. destruct (Z.ltb_spec 0 (1 + zlen ps)); [|lia].
  rewrite !palloc_small by (unfold MaxAllocSize in *; lia). cbn [mbind res_bind].
  replace (Z.to_nat (1 + zlen ps)) with (S (length ps)) by (unfold zlen; lia).
  rewrite parse_entries_text by done. exact Hc.
Qed.

Lemma tpvector_in_text name ps : vector_ok name ps -> colon ∉ name -> Forall pair_clean ps ->
  NoDup (pair_lexeme <$> ps) -> tpvector_in (vector_text name ps) = Ok (layout name ps).
Proof.
  intros Hv Hcol HF Hnd. destruct (vector_ok_sizes _ _ Hv) as (Hnm & _ & _). pose proof (zlen_nonneg name).
  assert (Hstr : c_str (vector_text name ps) = vector_text name ps).
  { apply c_str_id. unfold vector_text. rewrite !not_elem_of_app, !not_elem_of_cons.
    pose proof (entries_text_no_nul ps HF). destruct (vo_name _ _ Hv). repeat split; try done; apply not_elem_of_nil. }
  unfold tpvector_in. rewrite Hstr.
  assert (Hc : strchr (vector_text name ps) colon = Some (zlen name)) by (by apply strchr_app).
  assert (Hsub : sub_list 0 (zlen name) (vector_text name ps) = name)
    by (unfold vector_text; rewrite sub_list_app_l by lia; apply sub_list_0_all).
  assert (Hdrop : drop (Z.to_nat (zlen name + 1)) (vector_text name ps) = x7b :: entries_text ps ++ [x7d]).
  { replace (Z.to_nat (zlen name + 1)) with (length (name ++ [colon])) by (rewrite length_app; unfold zlen; cbn; lia).
    unfold vector_text. cbn [app].
    change (colon :: x7b :: entries_text ps ++ [x7d]) with ([colon] ++ x7b :: entries_text ps ++ [x7d]).
    by rewrite app_assoc, drop_app_length. }
  rewrite Hc. cbv beta iota zeta. rewrite Hsub, Hdrop, (palloc_small (zlen name + 1)) by lia. cbn [mbind res_bind].
  rewrite zlen_cons, zlen_app. change (zlen [x7d]) with 1. pose proof (zlen_nonneg (entries_text ps)).
  destruct (Z.ltb_spec (1 + (zlen (entries_text ps) + 1)) 2); [lia|].
  rewrite bool_decide_eq_true_2 by done.
  rewrite (bool_decide_eq_true_2 (last _ = _)) by (rewrite app_comm_cons, last_snoc; done). cbn [negb orb].
  replace (1 + (zlen (entries_text ps) + 1) - 2) with (zlen (entries_text ps)) by lia.
  assert (Hes : sub_list 1 (zlen (entries_text ps)) (x7b :: entries_text ps ++ [x7d]) = entries_text ps).
  { unfold sub_list, zlen. rewrite Nat2Z.id. apply (take_app_length (entries_text ps)). }
  rewrite Hes. by apply read_entries_text.
Qed.

(** ** Equality *)

#[local] Instance LexemeFreqPair_eq_dec : EqDecision LexemeFreqPair.
Proof. solve_decision. Defined.

Definition to_entry (p : LexemeFreqPair) : TpVectorEntry :=
  mkEntry (pair_frequency p) (zlen (pair_lexeme p)) (pair_lexeme p).

Lemma entries_from_holds v off ps : holds v off ps -> Forall pair_small ps ->
  entries_from v (length ps) off = Ok (to_entry <$> ps).
Proof.
  revert off. induction ps as [|p ps IH]; intros off Hh HF; [done|].
  apply Forall_cons in HF as [Hp HF]. cbn [length entries_from].
  rewrite (entry_at_holds _ _ _ _ Hh Hp). cbn [mbind res_bind].
  destruct (holds_cons _ _ _ _ Hh Hp) as (_ & _ & Hh').
  unfold get_tpvector_next_entry. cbn [lexeme_len]. by rewrite IH.
Qed.

Lemma layout_inj n1 p1 n2 p2 : vector_ok n1 p1 -> vector_ok n2 p2 ->
  zlen n1 <= TP_MAX_INDEX_NAME_LENGTH -> layout n1 p1 = layout n2 p2 -> n1 = n2 /\ p1 = p2.
Proof.
  intros V1 V2 Hn E.
  assert (El : zlen n1 = zlen n2) by exact (f_equal index_name_len E).
  assert (Ec : zlen p1 = zlen p2) by exact (f_equal entry_count E).
  split.
  - pose proof (layout_name n1 p1 V1) as E1. pose proof (layout_name n2 p2 V2) as E2. rewrite <- E in E2.
    rewrite El in E1. destruct (Z.leb_spec (zlen n2) TP_MAX_INDEX_NAME_LENGTH); [congruence|lia].
  - assert (Ef : forall n p, vector_ok n p ->
      entries_from (layout n p) (length p) (TPVECTOR_ENTRIES_PTR (layout n p)) = Ok (to_entry <$> p))
      by (intros n p Hv; apply entries_from_holds; [apply layout_holds|apply (vector_ok_small _ _ Hv)]).
    pose proof (Ef _ _ V1) as E1. pose proof (Ef _ _ V2) as E2.
    replace (length p2) with (length p1) in E2 by (unfold zlen in Ec; lia). rewrite <- E in E2.
    assert (Ee : to_entry <$> p1 = to_entry <$> p2) by congruence.
    revert Ee. apply list_fmap_eq_inj. intros [l f] [l' f'] Hq. by injection Hq as -> _ ->.
Qed.

Lemma find_match_holds v1 off1 p ps v2 off2 qs : holds v1 off1 (p :: ps) -> pair_small p ->
  holds v2 off2 qs -> Forall pair_small qs ->
  find_match v1 off1 v2 (length qs) off2 = Ok (bool_decide (p ∈ qs)).
Proof.
  intros Hh Hp. destruct (holds_cons _ _ _ _ Hh Hp) as (Eh & El & _).
  revert off2. induction qs as [|q qs IH]; intros off2 Hq HF.
  - cbn. by rewrite bool_decide_eq_false_2 by apply not_elem_of_nil.
  - apply Forall_cons in HF as [Hqs HF]. destruct (holds_cons _ _ _ _ Hq Hqs) as (Eh2 & El2 & Hq').
    cbn [length find_match]. rewrite Eh, Eh2. cbn [mbind res_bind].
    assert (Hnext : forall b, (b = true <-> p = q) ->
      (if b : bool then mret true else find_match v1 off1 v2 (length qs)
         (off2 + MAXALIGN (sizeof_TpVectorEntry + zlen (pair_lexeme q)))) = Ok (bool_decide (p ∈ q :: qs))).
    { intros b Hb. destruct b.
      - rewrite bool_decide_eq_true_2; [done|]. rewrite (proj1 Hb eq_refl). apply list_elem_of_here.
      - rewrite IH by done. f_equal. apply bool_decide_ext. rewrite elem_of_cons.
        destruct Hb as [_ Hb]. split; [by right|]. intros [E|]; [|done]. by specialize (Hb E). }
    destruct (Z.eqb_spec (zlen (pair_lexeme p)) (zlen (pair_lexeme q))) as [E|N];
      [|apply (Hnext false); split; [done|by intros ->]].
    destruct (Z.eqb_spec (pair_frequency p) (pair_frequency q)) as [E'|N];
      [|apply (Hnext false); split; [done|by intros ->]]. cbn [andb].
    rewrite El, E, El2. cbn [mbind res_bind mret res_ret]. apply Hnext. rewrite bool_decide_eq_true.
    destruct p, q; cbn in *. split; [by intros ->; subst|congruence].
Qed.

Lemma match_entries_holds v1 off1 ps v2 qs : holds v1 off1 ps -> Forall pair_small ps ->
  holds v2 (TPVECTOR_ENTRIES_PTR v2) qs -> Forall pair_small qs -> entry_count v2 = zlen qs -> qs <> [] ->
  match_entries v1 v2 (length ps) off1 = Ok (bool_decide (Forall (fun p => p ∈ qs) ps)).
Proof.
  intros Hh HF Hq HFq Hc Hne. revert off1 Hh. induction ps as [|p ps IH]; intros off1 Hh.
  - cbn [length match_entries]. by rewrite bool_decide_eq_true_2.
  - apply Forall_cons in HF as [Hp HF]. destruct (holds_cons _ _ _ _ Hh Hp) as (Eh & _ & Hh').
    cbn [length match_entries]. unfold get_tpvector_first_entry. rewrite Hc.
    destruct (Z.eqb_spec (zlen qs) 0) as [E|_]; [by destruct qs|].
    replace (Z.to_nat (zlen qs)) with (length qs) by (unfold zlen; lia).
    rewrite (find_match_holds _ _ _ _ _ _ _ Hh Hp Hq HFq). cbn [mbind res_bind]. rewrite Eh. cbn [mbind res_bind].
    destruct (bool_decide_reflect (p ∈ qs)) as [Hin|Hin].
    + rewrite IH by done. f_equal. apply bool_decide_ext. rewrite Forall_cons. tauto.
    + rewrite bool_decide_eq_false_2; [done|]. rewrite Forall_cons. tauto.
Qed.

Lemma tpvector_eq_layouts n1 p1 n2 p2 : vector_ok n1 p1 -> vector_ok n2 p2 ->
  zlen n1 <= TP_MAX_INDEX_NAME_LENGTH -> zlen n2 <= TP_MAX_INDEX_NAME_LENGTH ->
  tpvector_eq (layout n1 p1) (layout n2 p2) =
    Ok (bool_decide (n1 = n2 /\ length p1 = length p2 /\ Forall (fun p => p ∈ p2) p1)).
Proof.
  intros V1 V2 Hn1 Hn2. unfold tpvector_eq. rewrite !layout_name by done.
  destruct (Z.leb_spec (zlen n1) TP_MAX_INDEX_NAME_LENGTH); [|lia].
  destruct (Z.leb_spec (zlen n2) TP_MAX_INDEX_NAME_LENGTH); [|lia]. cbn [mbind res_bind].
  unfold strcmp. rewrite !c_str_id by (apply V1 || apply V2).
  destruct (Z.eqb_spec (bytes_compare n1 n2) 0) as [E|N]; cbn [negb].
  2: { rewrite bool_decide_eq_false_2; [done|]. intros (-> & _). by rewrite (proj2 (bytes_compare_eq n2 n2) eq_refl) in N. }
  apply bytes_compare_eq in E. cbn [layout entry_count].
  destruct (Z.eqb_spec (zlen p1) (zlen p2)) as [El|N]; cbn [negb].
  2: { rewrite bool_decide_eq_false_2; [done|]. intros (_ & ? & _). apply N. unfold zlen. congruence. }
  unfold get_tpvector_first_entry. cbn [layout entry_count].
  destruct (Z.eqb_spec (zlen p1) 0) as [Ez|Nz].
  { rewrite bool_decide_eq_true_2; [done|]. destruct p1; [|done]. unfold zlen in El. split; [done|]. split; [lia|done]. }
  replace (Z.to_nat (zlen p1)) with (length p1) by (unfold zlen; lia).
  rewrite (match_entries_holds _ _ p1 _ p2); [|apply layout_holds|apply (vector_ok_small _ _ V1)|apply layout_holds|
    apply (vector_ok_small _ _ V2)|done|intros ->; done].
  f_equal. apply bool_decide_ext. unfold zlen in El. split; [intros; split; [done|split; [lia|done]]|tauto].
Qed.

(** When no lexeme of the first vector repeats, equal means identical. *)
Lemma tpvector_eq_same n1 p1 n2 p2 : vector_ok n1 p1 -> vector_ok n2 p2 ->
  zlen n1 <= TP_MAX_INDEX_NAME_LENGTH -> zlen n2 <= TP_MAX_INDEX_NAME_LENGTH -> NoDup (pair_lexeme <$> p1) ->
  tpvector_eq (layout n1 p1) (layout n2 p2) = Ok (bool_decide (layout n1 p1 = layout n2 p2)).
Proof.
  intros V1 V2 Hn1 Hn2 Hnd. rewrite tpvector_eq_layouts by done. f_equal. apply bool_decide_ext. split.
  - intros (-> & El & Hin). f_equal.
    assert (P : p1 ≡ₚ p2).
    { apply submseteq_length_Permutation; [|lia]. apply NoDup_submseteq; [by eapply NoDup_fmap_1|].
      rewrite Forall_forall in Hin. exact Hin. }
    apply sorted_perm_unique; [done|apply V1|apply V1|apply V2|done].
  - intros E. destruct (layout_inj _ _ _ _ V1 V2 Hn1 E) as [-> ->]. split; [done|]. split; [done|].
    apply Forall_forall. auto.
Qed.

Lemma zlen_layout_data name ps : zlen (data (layout name ps)) = layout_size name ps - 12.
Proof.
  cbn [layout data]. rewrite !zlen_app, zlen_name_bytes, zlen_concat_entries. change (zlen (zeros 4)) with 4.
  unfold layout_size. lia.
Qed.

Lemma entries_count_bound ps : zlen ps <= entries_size ps.
Proof.
  induction ps as [|p ps IH]; [done|]. cbn [entries_size foldr]. fold (entries_size ps). rewrite zlen_cons.
  pose proof (entry_size_bounds (pair_lexeme p)). pose proof (zlen_nonneg (pair_lexeme p)). lia.
Qed.

(** ** Properties *)

(** C32: The input function of bm25vector is safe on every text: it returns a
    vector laid out within its buffer, with entries sorted by lexeme, which the
    output function prints (unless its index name has more than 1024 bytes, a
    length the input function does not check), or a syntax or size error; it never
    touches memory outside the vector. *)
Theorem tpvector_in_is_well_typed s : zlen s <= MaxAllocSize ->
  match tpvector_in s with
  | Ok v => exists name ps, vector_ok name ps /\ v = layout name ps /\
      tpvector_out v = if zlen name <=? TP_MAX_INDEX_NAME_LENGTH then Ok (vector_text name ps)
                       else Err ERRCODE_DATA_CORRUPTED
  | Err e => input_error e
  end.
Proof.
  intros Hs. pose proof (tpvector_in_typed s Hs) as Ht. destruct (tpvector_in s) as [v|e]; [|done].
  destruct Ht as (name & ps & Hv & ->). exists name, ps. split; [done|]. split; [done|].
  by apply tpvector_out_layout.
Qed.

(** C33: A vector made from an index name and distinct lexemes that contain neither
    a comma nor a colon prints as a text that reads back as the same vector. *)
Theorem tpvector_text_roundtrip name ps :
  x00 ∉ name -> colon ∉ name -> 0 < zlen name <= TP_MAX_INDEX_NAME_LENGTH ->
  Forall pair_clean ps -> NoDup (pair_lexeme <$> ps) -> layout_size name ps <= MaxAllocSize ->
  exists v text,
    create_tpvector_from_strings name (zlen ps) (Some (pair_lexeme <$> ps, pair_frequency <$> ps)) = Ok v /\
    tpvector_out v = Ok text /\ tpvector_in text = Ok v.
Proof.
  intros Hn Hc Hl HF Hnd Hs. pose proof (qsort_perm _ strcmp_wrapper ps) as P.
  assert (Hok : Forall pair_ok ps) by (eapply Forall_impl; [exact HF|]; by intros ? [[] _]).
  assert (Hv : vector_ok name (qsort strcmp_wrapper ps)).
  { split; [|by rewrite P| |apply qsort_pairs_sorted].
    - split; [done|]. intros E. rewrite E in Hl. change (zlen []) with 0 in Hl. lia.
    - unfold layout_size in *. by rewrite (entries_size_perm _ _ P). }
  exists (layout name (qsort strcmp_wrapper ps)), (vector_text name (qsort strcmp_wrapper ps)). split; [|split].
  - pose proof (pairs_array_small ps Hnd). pose proof (zlen_nonneg ps). pose proof (entries_size_nonneg ps).
    destruct (MAXALIGN_bounds (zlen name + 1) ltac:(lia)) as [Ha _]. unfold layout_size in Hs.
    rewrite create_cases; [|done|apply Hv|unfold TP_MAX_INDEX_NAME_LENGTH, MaxAllocSize in *; lia|done| |].
    + rewrite swrap_small by (unfold layout_size, MaxAllocSize in *; lia).
      rewrite !(proj2 (palloc_ok_iff _)) by (unfold layout_size, MaxAllocSize in *; lia). by rewrite orb_true_r.
    + eapply Forall_impl; [exact HF|]. by intros ? [[] _].
    + unfold layout_size, MaxAllocSize in *. lia.
  - rewrite tpvector_out_layout by done. destruct (Z.leb_spec (zlen name) TP_MAX_INDEX_NAME_LENGTH); [done|lia].
  - apply tpvector_in_text; try done; by rewrite P.
Qed.

(** C34: On well-typed vectors, the first without repeated lexemes, [tpvector_eq] is
    equality of the vectors. *)
Theorem tpvector_eq_is_equality n1 p1 n2 p2 : vector_ok n1 p1 -> vector_ok n2 p2 ->
  zlen n1 <= TP_MAX_INDEX_NAME_LENGTH -> zlen n2 <= TP_MAX_INDEX_NAME_LENGTH -> NoDup (pair_lexeme <$> p1) ->
  tpvector_eq (layout n1 p1) (layout n2 p2) = Ok (bool_decide (layout n1 p1 = layout n2 p2)).
Proof. apply tpvector_eq_same. Qed.

(** The binary output of a well-typed vector, read back by the binary input
    function, is the same vector. *)
Theorem tpvector_binary_roundtrip `{PqFormatLaws} name ps rest : vector_ok name ps ->
  tpvector_recv (tpvector_send (layout name ps) ++ rest) = Ok (layout name ps).
Proof.
  intros Hv. destruct (vector_ok_small _ _ Hv) as [Hsm Hnm]. pose proof (vo_size _ _ Hv) as Hs.
  pose proof (zlen_nonneg name). pose proof (entries_size_nonneg ps). pose proof (entries_count_bound ps).
  pose proof (zlen_nonneg ps). destruct (MAXALIGN_bounds (zlen name + 1) ltac:(lia)) as [Ha _].
  assert (Hz : 16 <= layout_size name ps /\ zlen ps <= MaxAllocSize) by (unfold layout_size in *; lia).
  assert (El : layout_size name ps - 4 = zlen (after_header (layout name ps)))
    by (unfold after_header; rewrite !zlen_app, !zlen_le_bytes, zlen_layout_data; lia).
  unfold tpvector_recv, tpvector_send. cbn [layout vl_len_].
  change (mkTpVector _ _ _ _) with (layout name ps).
  rewrite El, sub_list_0_all, <- app_assoc.
  rewrite pq_getmsgint_int32 by (unfold MaxAllocSize in *; lia). cbn [mbind res_bind].
  unfold palloc0. rewrite (proj2 (palloc_ok_iff _)) by lia. cbn [mbind res_bind].
  rewrite El, pq_copymsgbytes_ok. cbn [mbind res_bind mret res_ret]. f_equal.
  unfold of_after_header, after_header, layout. cbn [index_name_len entry_count data]. f_equal.
  - change (sub_list 0 4 _) with (le_bytes 4 (zlen name)). apply le_value_i32. unfold int32_range, MaxAllocSize in *. lia.
  - change (sub_list 4 4 _) with (le_bytes 4 (zlen ps)). apply le_value_i32. unfold int32_range, MaxAllocSize in *. lia.
Qed.
End Facts.

(** ** Witnesses *)

Definition bytes_of (s : string) : list byte := String.list_byte_of_string s.

Definition example_name : list byte := bytes_of "docs_idx"%string.
Definition example_pairs : list LexemeFreqPair :=
  [mkPair (bytes_of "system"%string) 1; mkPair (bytes_of "database"%string) (-2)].
Definition example_sorted : list LexemeFreqPair :=
  [mkPair (bytes_of "database"%string) (-2); mkPair (bytes_of "system"%string) 1].

Ltac by_deciding := apply (bool_decide_unpack _); vm_compute; exact I.

Lemma example_pairs_clean : Forall pair_clean example_pairs.
Proof.
  repeat constructor; cbn [pair_lexeme pair_frequency]; try by_deciding; unfold int32_range; lia.
Qed.

Lemma example_vector_ok : vector_ok example_name example_sorted.
Proof.
  split.
  - split; [by_deciding|done].
  - repeat constructor; cbn [pair_lexeme pair_frequency]; try by_deciding; unfold int32_range; lia.
  - by_deciding.
  - repeat constructor; unfold cmp_le; by_deciding.
Qed.

Lemma tpvector_in_is_well_typed_witness :
  exists v name ps, tpvector_in (bytes_of "i:{b:2,a:1}"%string) = Ok v /\ vector_ok name ps /\ v = layout name ps.
Proof.
  pose proof (tpvector_in_is_well_typed (bytes_of "i:{b:2,a:1}"%string) ltac:(by_deciding)) as Ht.
  destruct (tpvector_in _) as [v|e] eqn:E; [|vm_compute in E; discriminate E].
  destruct Ht as (name & ps & Hv & Ev & _). by exists v, name, ps.
Defined.

Lemma tpvector_text_roundtrip_witness :
  exists v text,
    create_tpvector_from_strings example_name 2
      (Some (pair_lexeme <$> example_pairs, pair_frequency <$> example_pairs)) = Ok v /\
    tpvector_out v = Ok text /\ tpvector_in text = Ok v.
Proof.
  apply (tpvector_text_roundtrip example_name example_pairs);
    [by_deciding..|exact example_pairs_clean|by_deciding|by_deciding].
Defined.

Lemma tpvector_eq_is_equality_witness :
  tpvector_eq (layout example_name example_sorted) (layout example_name []) = Ok false.
Proof.
  etrans; [apply (tpvector_eq_is_equality example_name example_sorted example_name [])|].
  - exact example_vector_ok.
  - split; [split; [by_deciding|done]|constructor|by_deciding|constructor].
  - by_deciding.
  - by_deciding.
  - by_deciding.
  - vm_compute. reflexivity.
Defined.

(** Integers go in network byte order. *)
#[export] Instance PqFormat_concrete : PqFormat := {|
  pq_int32 n := rev (le_bytes 4 n);
  pq_getmsgint msg :=
    if zlen msg <? 4 then Err ERRCODE_PROTOCOL_VIOLATION
    else Ok (i32 (le_value (rev (take 4 msg))), drop 4 msg);
  pq_copymsgbytes n msg :=
    if (n <? 0) || (zlen msg <? n) then Err ERRCODE_PROTOCOL_VIOLATION
    else Ok (take (Z.to_nat n) msg, drop (Z.to_nat n) msg);
|}.

#[export] Instance PqFormatLaws_concrete : PqFormatLaws.
Proof.
  split.
  - intros n rest Hn. cbn [pq_getmsgint pq_int32 PqFormat_concrete].
    assert (E : length (rev (le_bytes 4 n)) = 4%nat) by (by rewrite length_rev, length_le_bytes).
    rewrite zlen_app. unfold zlen at 1. rewrite E. pose proof (zlen_nonneg rest).
    destruct (Z.ltb_spec (Z.of_nat 4 + zlen rest) 4); [lia|].
    rewrite (take_app_length' _ _ 4), (drop_app_length' _ _ 4), rev_involutive, le_value_i32 by done. done.
  - intros bs rest. cbn [pq_copymsgbytes PqFormat_concrete]. rewrite zlen_app.
    pose proof (zlen_nonneg bs). pose proof (zlen_nonneg rest).
    destruct (Z.ltb_spec (zlen bs) 0), (Z.ltb_spec (zlen bs + zlen rest) (zlen bs)); try lia. cbn [orb].
    unfold zlen. by rewrite Nat2Z.id, take_app_length, drop_app_length.
Qed.

Lemma tpvector_binary_roundtrip_witness :
  tpvector_recv (tpvector_send (layout example_name example_sorted) ++ [x01]) = Ok (layout example_name example_sorted).
Proof. exact (tpvector_binary_roundtrip example_name example_sorted [x01] example_vector_ok). Defined.

(** With a repeated lexeme the equality is not symmetric: every entry of
    [{a:1,a:1}] is in [{a:1,b:1}], but not the other way round. *)
Lemma tpvector_eq_not_symmetric :
  match tpvector_in (bytes_of "i:{a:1,a:1}"%string), tpvector_in (bytes_of "i:{a:1,b:1}"%string) with
  | Ok v, Ok w => tpvector_eq v w = Ok true /\ tpvector_eq w v = Ok false
  | _, _ => False
  end.
Proof. vm_compute. repeat split. Qed.

(** The binary input function checks nothing but the size: the vector it returns
    may claim more entries than it holds, and printing it reads outside it. *)
Lemma tpvector_recv_unchecked :
  match tpvector_recv (pq_int32 24 ++ le_bytes 4 1 ++ le_bytes 4 1000 ++ [x61] ++ zeros 11) with
  | Ok v => tpvector_out v = Err OUT_OF_BOUNDS_ACCESS
  | Err _ => False
  end.
Proof. vm_compute. reflexivity. Qed.
