(* ===== verification/Catalog.v ===== *)
(** * Index names, and which index may answer a query (am/scan.c, types/query.c)

    A query names an index, or carries its Oid; a scan runs on an index of its own,
    which is that index, a partition of it, or the index of a table that inherits
    from its table.  The system catalogs are the server's: a class declares the
    look-ups the code makes, and the functions below are the code's decisions. *)
From S2P Require Import Prelude Postgres Storage Vector.

Record FormData_pg_index := mkPgIndex {
  indrelid : Z;       (** the table *)
  indnatts : Z;
  indkey : list Z;    (** the attribute numbers *)
}.

Class Catalog := {
  get_rel_name : Z -> option (list byte);
  RelationGetNamespace : Z -> Z;
  get_namespace_name : Z -> list byte;
  RelationIsVisible : Z -> bool;                     (** in the search path, by its name alone *)
  RelnameGetRelid : list byte -> Z;                  (** along the search path *)
  get_relname_relid : list byte -> Z -> Z;           (** in a namespace *)
  get_namespace_oid : list byte -> Z;                (** with [missing_ok] *)
  stringToQualifiedNameList : list byte -> res (list (list byte));
  bm25_am : option Z;                                (** the row of [pg_am] *)
  get_rel_relkind : Z -> byte;
  pg_index : Z -> option FormData_pg_index;
  relam : Z -> option Z;                             (** of the row of [pg_class] *)
  inhparent : Z -> option Z;      (** of the first row of [pg_inherits] by [inhseqno] *)
  inhrelids : Z -> list Z;        (** the children, in the order of the scan *)
  RelationGetIndexList : Z -> list Z;
}.

Definition RELKIND_PARTITIONED_INDEX : byte := x49.
Definition MAX_INHERITANCE_DEPTH : nat := 32.
Definition dot : byte := x2e.

Section Catalog.
Context `{Catalog}.

(** ** Names *)

Definition tp_get_qualified_index_name (index : Z) (name : list byte) : list byte :=
  if negb (RelationIsVisible index) then get_namespace_name (RelationGetNamespace index) ++ dot :: name
  else name.

Definition tp_resolve_index_name_shared (index_name : list byte) : res Z :=
  match strchr index_name dot with
  | Some _ =>
      namelist ← stringToQualifiedNameList index_name;
      match namelist with
      | [schemaname; relname] =>
          if strlen schemaname =? 0 then Ok InvalidOid
          else
            let namespace_oid := get_namespace_oid schemaname in
            Ok (if OidIsValid namespace_oid then get_relname_relid relname namespace_oid else InvalidOid)
      | _ => Ok InvalidOid
      end
  | None => Ok (RelnameGetRelid index_name)
  end.

(** ** Inheritance *)

Fixpoint walk_inheritance (depth : nat) (current_oid ancestor_oid : Z) : bool :=
  match depth with
  | O => false
  | S depth =>
      let parent_oid := default InvalidOid (inhparent current_oid) in
      if negb (OidIsValid parent_oid) then false
      else if parent_oid =? ancestor_oid then true
      else walk_inheritance depth parent_oid ancestor_oid
  end.

Definition oid_inherits_from (child_oid ancestor_oid : Z) : bool :=
  (child_oid =? ancestor_oid) || walk_inheritance MAX_INHERITANCE_DEPTH child_oid ancestor_oid.

(** [indkey.values[0]]: an index has at least one column. *)
Definition first_attnum (i : FormData_pg_index) : Z := default 0 (head (indkey i)).

Definition indexes_match_by_attribute (scan_index_oid query_index_oid : Z) : bool :=
  match bm25_am, pg_index scan_index_oid, pg_index query_index_oid with
  | Some bm25_am_oid, Some scan_idx, Some query_idx =>
      match relam scan_index_oid, relam query_index_oid with
      | Some scan_am, Some query_am =>
          (scan_am =? bm25_am_oid) && (query_am =? bm25_am_oid) &&
          (first_attnum scan_idx =? first_attnum query_idx) &&
          oid_inherits_from (indrelid scan_idx) (indrelid query_idx)
      | _, _ => false
      end
  | _, _, _ => false
  end.

Definition tp_rescan_validate_query_index (query_index_oid scan_index_oid : Z) : res unit :=
  if query_index_oid =? scan_index_oid then Ok tt
  else if Byte.eqb (get_rel_relkind query_index_oid) RELKIND_PARTITIONED_INDEX &&
          oid_inherits_from scan_index_oid query_index_oid then Ok tt
  else if indexes_match_by_attribute scan_index_oid query_index_oid then Ok tt
  else Err ERRCODE_INVALID_PARAMETER_VALUE.

(** ** The child whose statistics stand for its parent's *)

Definition find_first_child_index (parent_index_oid : Z) : Z :=
  default InvalidOid (head (inhrelids parent_index_oid)).

(** The [foreach] over the indexes of a child table. *)
Fixpoint find_bm25_index (bm25_am_oid indexed_attnum : Z) (child_indexes : list Z) : Z :=
  match child_indexes with
  | [] => InvalidOid
  | child_idx_oid :: rest =>
      match pg_index child_idx_oid with
      | None => find_bm25_index bm25_am_oid indexed_attnum rest
      | Some child_idx =>
          if (indnatts child_idx <? 1) || negb (first_attnum child_idx =? indexed_attnum)
          then find_bm25_index bm25_am_oid indexed_attnum rest
          else if bool_decide (relam child_idx_oid = Some bm25_am_oid) then child_idx_oid
          else find_bm25_index bm25_am_oid indexed_attnum rest
      end
  end.

Fixpoint find_in_children (bm25_am_oid indexed_attnum : Z) (child_tables : list Z) : Z :=
  match child_tables with
  | [] => InvalidOid
  | child_table :: rest =>
      let result := find_bm25_index bm25_am_oid indexed_attnum (RelationGetIndexList child_table) in
      if result =? InvalidOid then find_in_children bm25_am_oid indexed_attnum rest else result
  end.

Definition find_first_child_bm25_index (parent_index_oid indexed_attnum : Z) : Z :=
  match bm25_am, pg_index parent_index_oid with
  | Some bm25_am_oid, Some idx =>
      if OidIsValid bm25_am_oid then find_in_children bm25_am_oid indexed_attnum (inhrelids (indrelid idx))
      else InvalidOid
  | _, _ => InvalidOid
  end.
End Catalog.

(** ** What the server's look-ups promise

    An identifier of lower-case letters, digits and underscores is its own spelling;
    others are folded or need quotes when they are parsed as a qualified name. *)

Definition identifier_byte (b : byte) : bool :=
  let z := Z_of_byte b in
  ((97 <=? z) && (z <=? 122)) || ((48 <=? z) && (z <=? 57)) || (z =? 95).

Definition plain_identifier (name : list byte) : bool :=
  (1 <=? zlen name) && (zlen name <? 64) && forallb identifier_byte name.

Class CatalogLaws `{Catalog} : Prop := {
  RelnameGetRelid_visible oid name :
    get_rel_name oid = Some name -> RelationIsVisible oid = true -> RelnameGetRelid name = oid;
  get_relname_relid_name oid name :
    get_rel_name oid = Some name -> get_relname_relid name (RelationGetNamespace oid) = oid;
  get_namespace_oid_name oid name :
    get_rel_name oid = Some name ->
    get_namespace_oid (get_namespace_name (RelationGetNamespace oid)) = RelationGetNamespace oid /\
    OidIsValid (RelationGetNamespace oid) = true;
  stringToQualifiedNameList_plain schema name :
    plain_identifier schema = true -> plain_identifier name = true ->
    stringToQualifiedNameList (schema ++ dot :: name) = Ok [schema; name];
}.
