(* ===== verification/CatalogFacts.v ===== *)
(** * Facts about the resolution of index names and the choice of an index (Catalog) *)
From S2P Require Import Prelude Postgres Storage Vector VectorFacts Catalog.

Section Inheritance.
Context `{Catalog}.

(** [n] steps up the first chain of parents. *)
Fixpoint nth_ancestor (n : nat) (oid : Z) : option Z :=
  match n with
  | O => Some oid
  | S n => match inhparent oid with
           | Some p => if OidIsValid p then nth_ancestor n p else None
           | None => None
           end
  end.

Definition inherits (child ancestor : Z) : Prop :=
  exists n, (n <= MAX_INHERITANCE_DEPTH)%nat /\ nth_ancestor n child = Some ancestor.

Lemma walk_inheritance_iff depth child ancestor :
  walk_inheritance depth child ancestor = true <->
  exists n, (1 <= n <= depth)%nat /\ nth_ancestor n child = Some ancestor.
Proof.
  revert child. induction depth as [|depth IH]; intros child; cbn [walk_inheritance].
  { split; [done|]. intros (n & ? & _). lia. }
  destruct (inhparent child) as [p|] eqn:Ep; cbn [from_option id OidIsValid negb InvalidOid Z.eqb];
    [|split; [done|]; intros ([|n] & ? & En); [lia|]; simpl in En; by rewrite Ep in En].
  destruct (OidIsValid p) eqn:Ev; cbn [negb];
    [|split; [done|]; intros ([|n] & ? & En); [lia|]; simpl in En; by rewrite Ep, Ev in En].
  destruct (Z.eqb_spec p ancestor) as [->|Hne].
  - split; [|done]. intros _. exists 1%nat. split; [lia|]. simpl. by rewrite Ep, Ev.
  - rewrite IH. split.
    + intros (n & ? & En). exists (S n). split; [lia|]. simpl. by rewrite Ep, Ev.
    + intros ([|n] & ? & En); [lia|]. simpl in En. rewrite Ep, Ev in En.
      destruct n as [|n]; [simpl in En; congruence|]. exists (S n). split; [lia|done].
Qed.

Lemma oid_inherits_from_iff child ancestor :
  oid_inherits_from child ancestor = true <-> inherits child ancestor.
Proof.
  unfold oid_inherits_from, inherits. rewrite orb_true_iff, Z.eqb_eq, walk_inheritance_iff. split.
  - intros [->|(n & ? & E)]; [exists 0%nat; split; [lia|done]|exists n; split; [lia|done]].
  - intros ([|n] & ? & E); [left; simpl in E; congruence|right; exists (S n); split; [lia|done]].
Qed.

(** An index of the access method on the first column [attnum] of [table]. *)
Definition bm25_index_on (oid table attnum : Z) : Prop :=
  exists am idx, bm25_am = Some am /\ pg_index oid = Some idx /\ relam oid = Some am /\
    indrelid idx = table /\ first_attnum idx = attnum.

(** The indexes a query on the index [q] may be answered by. *)
Definition may_answer (q s : Z) : Prop :=
  q = s \/
  (get_rel_relkind q = RELKIND_PARTITIONED_INDEX /\ inherits s q) \/
  exists attnum parent child, bm25_index_on q parent attnum /\ bm25_index_on s child attnum /\
    inherits child parent.

Lemma indexes_match_iff s q :
  indexes_match_by_attribute s q = true <->
  exists attnum parent child, bm25_index_on q parent attnum /\ bm25_index_on s child attnum /\
    inherits child parent.
Proof.
  unfold indexes_match_by_attribute, bm25_index_on. split.
  - destruct bm25_am as [am|], (pg_index s) as [si|], (pg_index q) as [qi|]; try done.
    destruct (relam s) as [sa|], (relam q) as [qa|]; try done.
    rewrite !andb_true_iff, !Z.eqb_eq, oid_inherits_from_iff. intros [[[-> ->] Ha] Hi].
    exists (first_attnum qi), (indrelid qi), (indrelid si). repeat split; [| |done]; eauto 10.
  - intros (attnum & parent & child & (am & qi & -> & -> & Hq & <- & Ha) & (am' & si & E & -> & Hs & <- & Ha') & Hi).
    injection E as <-. rewrite Hq, Hs, !Z.eqb_refl, Ha, Ha', Z.eqb_refl. simpl.
    by apply oid_inherits_from_iff.
Qed.

Lemma validate_cases q s :
  (may_answer q s /\ tp_rescan_validate_query_index q s = Ok tt) \/
  (~ may_answer q s /\ tp_rescan_validate_query_index q s = Err ERRCODE_INVALID_PARAMETER_VALUE).
Proof.
  unfold tp_rescan_validate_query_index, may_answer.
  destruct (Z.eqb_spec q s) as [->|Hne]; [by left; auto|].
  destruct (Byte.eqb _ _ && _) eqn:Ep.
  { apply andb_true_iff in Ep as [Ek Ei]. left. split; [|done]. right. left.
    apply Byte.byte_dec_bl in Ek. split; [done|]. by apply oid_inherits_from_iff. }
  destruct (indexes_match_by_attribute s q) eqn:Em.
  { left. split; [|done]. right. right. by apply indexes_match_iff. }
  right. split; [|done]. intros [?|[[Ek Ei]|Ha]]; [done| |].
  - rewrite Ek in Ep. apply oid_inherits_from_iff in Ei. rewrite Ei in Ep.
    by rewrite (Byte.byte_dec_lb eq_refl) in Ep.
  - apply indexes_match_iff in Ha. congruence.
Qed.

(** ** The first child *)

Lemma find_bm25_index_spec am attnum table idxs : bm25_am = Some am ->
  (forall i x, i ∈ idxs -> pg_index i = Some x -> indrelid x = table /\ 1 <= indnatts x) ->
  let r := find_bm25_index am attnum idxs in
  (r ∈ idxs /\ bm25_index_on r table attnum) \/
  (r = InvalidOid /\ forall i, i ∈ idxs -> ~ bm25_index_on i table attnum).
Proof.
  intros Ham. induction idxs as [|i idxs IH]; intros Hix; cbn [find_bm25_index].
  { right. split; [done|]. by intros i ?%elem_of_nil. }
  assert (IH' := IH (fun j x Hj => Hix j x (list_elem_of_further _ _ _ Hj))). clear IH.
  assert (Hskip : ~ bm25_index_on i table attnum ->
    let r := find_bm25_index am attnum idxs in
    (r ∈ i :: idxs /\ bm25_index_on r table attnum) \/
    (r = InvalidOid /\ forall j, j ∈ i :: idxs -> ~ bm25_index_on j table attnum)).
  { intros Hi. destruct IH' as [[? ?]|[? Hn]]; [left; split; [by apply list_elem_of_further|done]|].
    right. split; [done|]. intros j [->|?]%elem_of_cons; auto. }
  destruct (pg_index i) as [x|] eqn:Ex.
  2:{ apply Hskip. intros (? & ? & _ & E & _). congruence. }
  destruct (Hix i x (list_elem_of_here _ _) Ex) as [Ht Hn].
  rewrite (proj2 (Z.ltb_ge (indnatts x) 1)) by lia. cbn [orb].
  destruct (Z.eqb_spec (first_attnum x) attnum) as [Ha|Ha]; cbn [negb].
  2:{ apply Hskip. intros (? & y & _ & E & _ & _ & E'). congruence. }
  case_bool_decide as Hr.
  - left. split; [apply list_elem_of_here|]. by exists am, x.
  - apply Hskip. intros (am' & ? & E & _ & E' & _). congruence.
Qed.

Lemma find_in_children_spec am attnum tables : bm25_am = Some am ->
  (forall t i, t ∈ tables -> i ∈ RelationGetIndexList t -> i <> InvalidOid /\
     forall x, pg_index i = Some x -> indrelid x = t /\ 1 <= indnatts x) ->
  let r := find_in_children am attnum tables in
  (exists t, t ∈ tables /\ r ∈ RelationGetIndexList t /\ bm25_index_on r t attnum) \/
  (r = InvalidOid /\ forall t i, t ∈ tables -> i ∈ RelationGetIndexList t -> ~ bm25_index_on i t attnum).
Proof.
  intros Ham. induction tables as [|t tables IH]; intros Hix; cbn [find_in_children].
  { right. split; [done|]. by intros ? ? ?%elem_of_nil. }
  assert (Ht := fun i => Hix t i (list_elem_of_here _ _)).
  destruct (find_bm25_index_spec am attnum t (RelationGetIndexList t) Ham) as [[Hin Hon]|[-> Hno]].
  { intros i x Hi. by apply Ht. }
  - destruct (Z.eqb_spec (find_bm25_index am attnum (RelationGetIndexList t)) InvalidOid) as [E|_].
    { rewrite E in Hin. by destruct (Ht _ Hin) as [[]]. }
    left. exists t. split; [apply list_elem_of_here|done].
  - rewrite Z.eqb_refl.
    destruct IH as [(t' & ? & ? & ?)|[-> Hn]].
    { intros t' i Ht' Hi. apply Hix; [by apply list_elem_of_further|done]. }
    + left. exists t'. split; [by apply list_elem_of_further|done].
    + right. split; [done|]. intros t' i [->|Ht']%elem_of_cons Hi; [by apply Hno|by apply Hn].
Qed.
End Inheritance.

(** ** The properties *)

(** [tp_rescan_validate_query_index] lets a query run on the index it names, on a
    partition of it at most 32 levels below, and on a bm25 index on the same column
    number of a table that inherits from the table of the index named, at most 32
    levels down the chain of first parents; on no other index, whatever the catalogs
    hold, cycles included. *)
Theorem query_index_validated `{Catalog} q s :
  (may_answer q s /\ tp_rescan_validate_query_index q s = Ok tt) \/
  (~ may_answer q s /\ tp_rescan_validate_query_index q s = Err ERRCODE_INVALID_PARAMETER_VALUE).
Proof. apply validate_cases. Qed.

(** The statistics of an empty parent are taken from a bm25 index on the same column of
    a child table, if there is one. *)
Theorem first_child_index_found `{Catalog} am idx parent attnum :
  bm25_am = Some am -> OidIsValid am = true -> pg_index parent = Some idx ->
  (forall t i, t ∈ inhrelids (indrelid idx) -> i ∈ RelationGetIndexList t -> i <> InvalidOid /\
     forall x, pg_index i = Some x -> indrelid x = t /\ 1 <= indnatts x) ->
  let r := find_first_child_bm25_index parent attnum in
  (exists t, t ∈ inhrelids (indrelid idx) /\ r ∈ RelationGetIndexList t /\ bm25_index_on r t attnum) \/
  (r = InvalidOid /\ forall t i, t ∈ inhrelids (indrelid idx) -> i ∈ RelationGetIndexList t ->
     ~ bm25_index_on i t attnum).
Proof.
  intros Ham Hv Hi Hix. unfold find_first_child_bm25_index. rewrite Ham, Hi, Hv.
  by apply find_in_children_spec.
Qed.

Lemma identifier_no_dot name : plain_identifier name = true -> dot ∉ name.
Proof.
  unfold plain_identifier. rewrite !andb_true_iff, forallb_forall. intros [_ Hb] Hin.
  apply list_elem_of_In, Hb in Hin. done.
Qed.

Lemma identifier_no_nul name : plain_identifier name = true -> x00 ∉ name /\ name <> [].
Proof.
  unfold plain_identifier. rewrite !andb_true_iff, forallb_forall. intros [[Hl _] Hb]. split.
  - intros Hin. apply list_elem_of_In, Hb in Hin. done.
  - intros ->. done.
Qed.

(** The name under which a scan looks up its own index leads back to the index,
    provided it and its schema are plain identifiers. *)
Theorem index_name_resolves `{CatalogLaws} oid name :
  get_rel_name oid = Some name -> plain_identifier name = true ->
  plain_identifier (get_namespace_name (RelationGetNamespace oid)) = true ->
  tp_resolve_index_name_shared (tp_get_qualified_index_name oid name) = Ok oid.
Proof.
  intros Hn Hp Hs. unfold tp_get_qualified_index_name, tp_resolve_index_name_shared.
  destruct (RelationIsVisible oid) eqn:Ev; cbn [negb].
  - rewrite (proj2 (strchr_none name dot)) by by apply identifier_no_dot.
    f_equal. by apply RelnameGetRelid_visible.
  - rewrite strchr_app by by apply identifier_no_dot.
    rewrite stringToQualifiedNameList_plain by done. cbn [mbind res_bind].
    destruct (identifier_no_nul _ Hs) as [Hz Hne].
    destruct (get_namespace_oid_name oid name Hn) as [-> ->].
    rewrite (proj2 (Z.eqb_neq _ _)).
    + f_equal. by apply get_relname_relid_name.
    + unfold strlen. rewrite c_str_id by done. destruct (get_namespace_name _) as [|b l]; [done|].
      rewrite zlen_cons. pose proof (zlen_nonneg l). lia.
Qed.

(** ** A concrete catalog

    Table 10 has the partitions 11 and 12; its index 100 is partitioned and has the
    partition 101 of table 11.  Table 13 inherits from 14 and then from 10, and its
    index 103 is a bm25 index on the same column.  Index 104, on a table of its own,
    has a dot in its name. *)

Record demo_class := mkDemoClass { dc_name : list byte; dc_visible : bool; dc_kind : byte; dc_index : option Z }.

Definition demo_classes : gmap Z demo_class := list_to_map [
  (100, mkDemoClass [x64; x6f; x63; x73] true x49 (Some 10));
  (101, mkDemoClass [x64; x31] true x69 (Some 11));
  (103, mkDemoClass [x64; x33] true x69 (Some 13));
  (104, mkDemoClass [x61; x2e; x62] true x69 (Some 15));
  (105, mkDemoClass [x64; x35] false x69 (Some 16))].

Definition demo_schema (visible : bool) : Z := if visible then 2200 else 3000.
Definition demo_schema_name (ns : Z) : list byte := if ns =? 2200 then [x70; x75; x62] else [x61; x72; x63].

Fixpoint split_dots (acc s : list byte) : list (list byte) :=
  match s with
  | [] => [acc]
  | b :: s => if Byte.eqb b dot then acc :: split_dots [] s else split_dots (acc ++ [b]) s
  end.

Definition demo_oid (visible : bool) (name : list byte) : Z :=
  default InvalidOid (fst <$> list_find (fun p => bool_decide (dc_name p.2 = name /\ dc_visible p.2 = visible) = true)
                       (map_to_list demo_classes) ≫= fun p => Some p.2).

#[export] Instance Catalog_demo : Catalog := {|
  get_rel_name oid := dc_name <$> demo_classes !! oid;
  RelationGetNamespace oid := demo_schema (default true (dc_visible <$> demo_classes !! oid));
  get_namespace_name := demo_schema_name;
  RelationIsVisible oid := default false (dc_visible <$> demo_classes !! oid);
  RelnameGetRelid := demo_oid true;
  get_relname_relid name ns := demo_oid (ns =? 2200) name;
  get_namespace_oid name :=
    if bool_decide (name = demo_schema_name 2200) then 2200
    else if bool_decide (name = demo_schema_name 3000) then 3000 else InvalidOid;
  stringToQualifiedNameList s := Ok (split_dots [] s);
  bm25_am := Some 77;
  get_rel_relkind oid := default x00 (dc_kind <$> demo_classes !! oid);
  pg_index oid := (fun t => mkPgIndex t 1 [2]) <$> (demo_classes !! oid ≫= dc_index);
  relam oid := (fun _ => 77) <$> demo_classes !! oid;
  inhparent oid :=
    if oid =? 101 then Some 100 else if (oid =? 11) || (oid =? 12) then Some 10
    else if oid =? 13 then Some 14 else None;
  inhrelids oid := if oid =? 100 then [101] else if oid =? 10 then [11; 12; 13]
                   else if oid =? 14 then [13] else [];
  RelationGetIndexList t := if t =? 11 then [101] else if t =? 13 then [103] else [];
|}.

Lemma split_dots_plain acc s rest : dot ∉ s -> split_dots acc (s ++ rest) = split_dots (acc ++ s) rest.
Proof.
  revert acc. induction s as [|b s IH]; intros acc Hs; [by rewrite app_nil_r|].
  apply not_elem_of_cons in Hs as [Hb Hs]. simpl.
  destruct (Byte.eqb b dot) eqn:E; [by apply Byte.byte_dec_bl in E|].
  rewrite IH by done. by rewrite <- app_assoc.
Qed.

Lemma demo_class_cases oid c : demo_classes !! oid = Some c ->
  oid ∈ [100; 101; 103; 104; 105].
Proof.
  unfold demo_classes. intros E%elem_of_list_to_map_2.
  apply (list_elem_of_fmap_2 fst) in E. exact E.
Qed.

#[export] Instance CatalogLaws_demo : CatalogLaws.
Proof.
  assert (Hcase : forall oid name, get_rel_name oid = Some name -> oid ∈ [100; 101; 103; 104; 105]).
  { intros oid name (c & Ec & _)%fmap_Some. by eapply demo_class_cases. }
  split.
  - intros oid name E Hv. pose proof (Hcase _ _ E) as Hin.
    rewrite !elem_of_cons in Hin. destruct Hin as [->|[->|[->|[->|[->|[]%elem_of_nil]]]]];
      vm_compute in E, Hv; simplify_eq; vm_compute; reflexivity.
  - intros oid name E. pose proof (Hcase _ _ E) as Hin.
    rewrite !elem_of_cons in Hin. destruct Hin as [->|[->|[->|[->|[->|[]%elem_of_nil]]]]];
      vm_compute in E; simplify_eq; vm_compute; reflexivity.
  - intros oid name E. pose proof (Hcase _ _ E) as Hin.
    rewrite !elem_of_cons in Hin. destruct Hin as [->|[->|[->|[->|[->|[]%elem_of_nil]]]]];
      by vm_compute.
  - intros schema name Hs Hn. cbn [stringToQualifiedNameList Catalog_demo].
    rewrite split_dots_plain by by apply identifier_no_dot. cbn [app split_dots].
    change (Byte.eqb dot dot) with true. cbv iota.
    rewrite <- (app_nil_r name), split_dots_plain by by apply identifier_no_dot. by rewrite !app_nil_r.
Qed.

Lemma index_name_resolves_witness :
  tp_resolve_index_name_shared (tp_get_qualified_index_name 105 [x64; x35]) = Ok 105.
Proof. apply (index_name_resolves 105 [x64; x35]); vm_compute; reflexivity. Defined.

Lemma first_child_index_found_witness :
  let r := find_first_child_bm25_index 100 2 in
  (exists t, t ∈ inhrelids 10 /\ r ∈ RelationGetIndexList t /\ bm25_index_on r t 2) \/
  (r = InvalidOid /\ forall t i, t ∈ inhrelids 10 -> i ∈ RelationGetIndexList t -> ~ bm25_index_on i t 2).
Proof.
  apply (first_child_index_found 77 (mkPgIndex 10 1 [2]) 100 2); [done..|].
  intros t i Ht Hi. change (t ∈ [11; 12; 13]) in Ht. rewrite !elem_of_cons in Ht.
  destruct Ht as [->|[->|[->|[]%elem_of_nil]]]; cbn in Hi; try (by apply elem_of_nil in Hi);
    apply list_elem_of_singleton in Hi as ->; (split; [done|]); intros x E; vm_compute in E; by simplify_eq.
Defined.

(** An index whose name has a dot is not found under its own name. *)
Lemma dotted_index_name_not_found :
  get_rel_name 104 = Some [x61; x2e; x62] /\
  tp_resolve_index_name_shared (tp_get_qualified_index_name 104 [x61; x2e; x62]) = Ok InvalidOid.
Proof. by vm_compute. Qed.

(** Table 13 is a child of table 10, but 10 is not its first parent. *)
Lemma second_parent_refused :
  13 ∈ inhrelids 10 /\ tp_rescan_validate_query_index 100 103 = Err ERRCODE_INVALID_PARAMETER_VALUE /\
  tp_rescan_validate_query_index 100 101 = Ok tt.
Proof. split; [by right; right; left|]. by vm_compute. Qed.
