(* ===== verification/SegmentIO.v ===== *)
(** * Segment writer and reader (src/segment/segment.c)

    A segment is a logical byte stream cut into pages.  The writer fills one
    page buffer at a time and allocates pages as it goes (from the free space
    map, or from a pool shared by parallel workers); the page index records the
    block numbers in a chain of pages; the reader loads them back and reads
    byte ranges that may span pages.

    Main results: the pages of a writer hold exactly the bytes written; the
    page index is loaded back as it was written; a read returns the requested
    slice of the stream. *)
From S2P Require Import Prelude Postgres SegmentFormat Storage.

Record TpSegmentWriter := mkSegmentWriter {
  w_pages : list Z;
  w_current_offset : Z;
  w_buffer : list byte;   (** the page buffer after its header *)
  w_buffer_page : Z;
  w_buffer_pos : Z;       (** from the start of the page *)
  w_page_pool : option (list Z);
}.

Record TpSegmentReader := mkSegmentReader {
  r_root_block : Z;
  r_header : TpSegmentHeader;
  r_page_map : list Z;
  r_num_pages : Z;
  r_nblocks : Z;
  r_current_buffer : option Z;   (** the block that is pinned *)
  r_current_logical_page : Z;
  r_cached_ctids : option (list Z * list Z);
  r_cached_tenant_ids : option (list Z);
  r_tenant_ids_loaded : bool;
}.

Section SegmentIO.
Context `{PgLayout} `{FreeSpaceMap}.

(** ** Writer *)

Definition with_pages (w : TpSegmentWriter) (ps : list Z) : TpSegmentWriter :=
  mkSegmentWriter ps (w_current_offset w) (w_buffer w) (w_buffer_page w) (w_buffer_pos w)
    (w_page_pool w).

(** The array growth of [tp_segment_writer_grow_pages] only changes capacity. *)
Definition tp_segment_writer_allocate_page (st : Storage) (w : TpSegmentWriter)
    : res (Storage * TpSegmentWriter) :=
  match w_page_pool w with
  | Some pool =>
      let idx := pool_next st in
      let st1 := mkStorage (st_pages st) (st_fsm st) (u32 (pool_next st + 1)) in
      if idx <? zlen pool then
        new_page ← zread pool idx;
        Ok (st1, with_pages w (w_pages w ++ [new_page]))
      else
        let '(new_page, st2) := extend_relation st1 (PageInit 0) in
        Ok (st2, with_pages w (w_pages w ++ [new_page]))
  | None =>
      '(new_page, st1) ← allocate_segment_page st;
      Ok (st1, with_pages w (w_pages w ++ [new_page]))
  end.

Definition writer_init (st : Storage) (pool : option (list Z))
    : res (Storage * TpSegmentWriter) :=
  tp_segment_writer_allocate_page st
    (mkSegmentWriter [] 0 (contents (PageInit 0)) 0 SizeOfPageHeaderData pool).

Definition tp_segment_writer_init (st : Storage) : res (Storage * TpSegmentWriter) :=
  writer_init st None.

Definition tp_segment_writer_init_with_pool (st : Storage) (page_pool : list Z)
    : res (Storage * TpSegmentWriter) :=
  writer_init st (Some page_pool).

(** The header of the page on disk is kept. *)
Definition tp_segment_writer_flush (st : Storage) (w : TpSegmentWriter) : res Storage :=
  if zlen (w_pages w) <=? w_buffer_page w then Ok st
  else
    block ← zread (w_pages w) (w_buffer_page w);
    page ← ReadBuffer st block;
    Ok (put_page st block (mkPage (pd_special page) (w_buffer w))).

(** The [memcpy] into the buffer and the advance of the positions. *)
Definition writer_fill (w : TpSegmentWriter) (src : list byte) : TpSegmentWriter :=
  mkSegmentWriter (w_pages w) (u32 (w_current_offset w + zlen src))
    (overwrite (w_buffer_pos w - SizeOfPageHeaderData) src (w_buffer w))
    (w_buffer_page w) (w_buffer_pos w + zlen src) (w_page_pool w).

(** Moving on to the next page. *)
Definition writer_next_page (st : Storage) (w : TpSegmentWriter)
    : res (Storage * TpSegmentWriter) :=
  let w1 := mkSegmentWriter (w_pages w) (w_current_offset w) (w_buffer w)
              (u32 (w_buffer_page w + 1)) (w_buffer_pos w) (w_page_pool w) in
  '(st1, w2) ←
    (if zlen (w_pages w1) <=? w_buffer_page w1
     then tp_segment_writer_allocate_page st w1 else Ok (st, w1));
  Ok (st1, mkSegmentWriter (w_pages w2) (w_current_offset w2) (contents (PageInit 0))
             (w_buffer_page w2) SizeOfPageHeaderData (w_page_pool w2)).

(** [while (bytes_written < len)], on the bytes still to write.  A round either
    writes a byte or moves to an empty page. *)
Fixpoint writer_write_loop (fuel : nat) (st : Storage) (w : TpSegmentWriter)
    (data : list byte) : res (Storage * TpSegmentWriter) :=
  match fuel with
  | O => Ok (st, w)
  | S fuel' =>
      match data with
      | [] => Ok (st, w)
      | _ :: _ =>
          let page_space := BLCKSZ - w_buffer_pos w in
          let to_write := Z.min page_space (zlen data) in
          let w1 := writer_fill w (take (Z.to_nat to_write) data) in
          let data' := drop (Z.to_nat to_write) data in
          if BLCKSZ <=? w_buffer_pos w1 then
            st1 ← tp_segment_writer_flush st w1;
            match data' with
            | [] => Ok (st1, w1)
            | _ :: _ =>
                '(st2, w2) ← writer_next_page st1 w1;
                writer_write_loop fuel' st2 w2 data'
            end
          else writer_write_loop fuel' st w1 data'
      end
  end.

Definition tp_segment_writer_write (st : Storage) (w : TpSegmentWriter)
    (data : list byte) : res (Storage * TpSegmentWriter) :=
  writer_write_loop (S (length data)) st w data.

Definition tp_segment_writer_finish (st : Storage) (w : TpSegmentWriter) : res Storage :=
  if SizeOfPageHeaderData <? w_buffer_pos w then tp_segment_writer_flush st w else Ok st.

(** ** Page index *)

Definition tp_page_index_entries_per_page : Z :=
  (BLCKSZ - SizeOfPageHeaderData - MAXALIGN 16) / 4.

Fixpoint allocate_index_pages (n : nat) (st : Storage) : res (list Z * Storage) :=
  match n with
  | O => Ok ([], st)
  | S n' =>
      '(b, st1) ← allocate_segment_page st;
      '(bs, st2) ← allocate_index_pages n' st1;
      Ok (b :: bs, st2)
  end.

(** The contents of one page index page. *)
Definition page_index_page (entries : list Z) (next : Z) : Page :=
  let page := PageInit 16 in
  let special := mkPageIndexSpecial TP_PAGE_INDEX_MAGIC TP_PAGE_INDEX_VERSION
                   TP_PAGE_FILE_INDEX next (u16 (zlen entries)) 0 in
  mkPage (pd_special page)
    (overwrite 0 (encode_array u32_bytes entries)
      (overwrite (pd_special page - SizeOfPageHeaderData)
        (encode_page_index_special special) (contents page))).

(** The write loop runs from the last page to the first; [i] counts the pages
    still to write, [prev_block] is the page written just before. *)
Fixpoint write_index_pages (index_pages : list Z) (pages : list Z) (i : nat)
    (prev_block : Z) (st : Storage) : res (Z * Storage) :=
  match i with
  | O => Ok (prev_block, st)
  | S i' =>
      let start_idx := Z.of_nat i' * tp_page_index_entries_per_page in
      let entries_to_write := Z.min tp_page_index_entries_per_page (zlen pages - start_idx) in
      block ← zread index_pages (Z.of_nat i');
      _ ← ReadBuffer st block;
      let st1 := put_page st block
        (page_index_page (sub_list start_idx entries_to_write pages) prev_block) in
      write_index_pages index_pages pages i' block st1
  end.

Definition write_page_index (st : Storage) (pages : list Z) : res (Z * Storage) :=
  let num_index_pages :=
    (zlen pages + tp_page_index_entries_per_page - 1) / tp_page_index_entries_per_page in
  '(index_pages, st1) ← allocate_index_pages (Z.to_nat num_index_pages) st;
  write_index_pages index_pages pages (length index_pages) InvalidBlockNumber st1.

(** ** Reader *)

Definition page_special (page : Page) : TpPageIndexSpecial :=
  decode_page_index_special
    (drop (Z.to_nat (pd_special page - SizeOfPageHeaderData)) (contents page)).

(** The entries of one page index page, each checked against the relation. *)
Fixpoint load_entries (entries : list Z) (nblocks num_pages : Z) (loaded : list Z)
    : res (list Z) :=
  match entries with
  | [] => Ok loaded
  | e :: entries' =>
      if zlen loaded <? num_pages then
        if nblocks <=? e then Err ERRCODE_DATA_CORRUPTED
        else load_entries entries' nblocks num_pages (loaded ++ [e])
      else Ok loaded
  end.

(** The page index chain.  Each page that is visited adds at least one entry,
    or is a corrupt empty page: the fuel bounds the number of pages visited. *)
Fixpoint load_page_index (fuel : nat) (st : Storage) (block num_pages : Z)
    (loaded : list Z) : res (list Z) :=
  match fuel with
  | O => Ok loaded
  | S fuel' =>
      if (block =? InvalidBlockNumber) || (num_pages <=? zlen loaded) then Ok loaded
      else
        page ← ReadBuffer st block;
        let special := page_special page in
        if negb (pi_magic special =? TP_PAGE_INDEX_MAGIC)
           || negb (pi_page_type special =? TP_PAGE_FILE_INDEX)
        then Err ERRCODE_DATA_CORRUPTED
        else
          let entries := decode_array 4 le_value (Z.to_nat (pi_num_entries special))
                           (contents page) in
          loaded' ← load_entries entries (nblocks st) num_pages loaded;
          load_page_index fuel' st (pi_next_page special) num_pages loaded'
  end.

(** [while (bytes_read < len)]; every round reads at least one byte. *)
Fixpoint segment_read_loop (fuel : nat) (st : Storage) (reader : TpSegmentReader)
    (logical_offset len : Z) (dest : list byte) : res (list byte * TpSegmentReader) :=
  match fuel with
  | O => Ok (dest, reader)
  | S fuel' =>
      if zlen dest <? len then
        let logical_page := tp_logical_page logical_offset in
        let page_offset := tp_page_offset logical_offset in
        let to_read := Z.min (len - zlen dest) (SEGMENT_DATA_PER_PAGE - page_offset) in
        reader1 ←
          (if negb (r_current_logical_page reader =? logical_page) then
             if r_num_pages reader <=? logical_page then Err ERRCODE_INTERNAL_ERROR
             else
               physical ← zread (r_page_map reader) logical_page;
               if r_nblocks reader <=? physical then Err ERRCODE_INTERNAL_ERROR
               else
                 _ ← ReadBuffer st physical;
                 Ok (mkSegmentReader (r_root_block reader) (r_header reader)
                       (r_page_map reader) (r_num_pages reader) (r_nblocks reader)
                       (Some physical) logical_page (r_cached_ctids reader)
                       (r_cached_tenant_ids reader) (r_tenant_ids_loaded reader))
           else Ok reader);
        match r_current_buffer reader1 with
        | None => Err ERRCODE_INTERNAL_ERROR
        | Some block =>
            page ← ReadBuffer st block;
            segment_read_loop fuel' st reader1 (u32 (logical_offset + to_read)) len
              (dest ++ sub_list page_offset to_read (contents page))
        end
      else Ok (dest, reader)
  end.

Definition tp_segment_read (st : Storage) (reader : TpSegmentReader)
    (logical_offset len : Z) : res (list byte * TpSegmentReader) :=
  segment_read_loop (Z.to_nat len) st reader logical_offset len [].

(** The bytes available from [logical_offset] on its page, or nothing when the
    range spans pages. *)
Definition tp_segment_get_direct (st : Storage) (reader : TpSegmentReader)
    (logical_offset len : Z) : res (option (list byte)) :=
  let logical_page := tp_logical_page logical_offset in
  let page_offset := tp_page_offset logical_offset in
  if SEGMENT_DATA_PER_PAGE <? u32 (page_offset + len) then Ok None
  else if r_num_pages reader <=? logical_page then Err ERRCODE_INTERNAL_ERROR
  else
    physical_block ← zread (r_page_map reader) logical_page;
    page ← ReadBuffer st physical_block;
    Ok (Some (drop (Z.to_nat page_offset) (contents page))).

Definition tp_segment_load_tenant_ids (st : Storage) (reader : TpSegmentReader)
    : res TpSegmentReader :=
  if r_tenant_ids_loaded reader then Ok reader
  else
    let set ids rd := mkSegmentReader (r_root_block rd) (r_header rd)
      (r_page_map rd) (r_num_pages rd) (r_nblocks rd) (r_current_buffer rd)
      (r_current_logical_page rd) (r_cached_ctids rd) ids true in
    let header := r_header reader in
    if (num_docs header =? 0) || (tenant_map_offset header =? 0)
       || (Z.land (flags header) TP_FLAG_HAS_TENANT_DATA =? 0)
    then Ok (set (r_cached_tenant_ids reader) reader)
    else
      '(bs, rd) ← tp_segment_read st (set None reader) (tenant_map_offset header)
                    (u32 (num_docs header * 4));
      Ok (set (Some (decode_array 4 le_value (Z.to_nat (num_docs header)) bs)) rd).

Definition tp_segment_get_tenant_id (st : Storage) (reader : TpSegmentReader) (doc_id : Z)
    : res (Z * TpSegmentReader) :=
  reader ← (if r_tenant_ids_loaded reader then Ok reader
            else tp_segment_load_tenant_ids st reader);
  match r_cached_tenant_ids reader with
  | None => Ok (0, reader)
  | Some ids =>
      if num_docs (r_header reader) <=? doc_id then Ok (0, reader)
      else tid ← zread ids doc_id; Ok (tid, reader)
  end.

(** [tp_segment_open_ex]: [Ok None] is C's NULL. *)
Definition tp_segment_open_ex (st : Storage) (root_block : Z) (load_ctids : bool)
    : res (option TpSegmentReader) :=
  if nblocks st <=? root_block then Ok None
  else
    header_page ← ReadBuffer st root_block;
    let header := decode_header (contents header_page) in
    if negb (magic header =? TP_SEGMENT_MAGIC) then Err ERRCODE_DATA_CORRUPTED
    else
      page_map ← load_page_index (S (Z.to_nat (nblocks st))) st (page_index header)
                   (num_pages header) [];
      if negb (zlen page_map =? num_pages header) then Err ERRCODE_DATA_CORRUPTED
      else
        let reader := mkSegmentReader root_block header page_map (num_pages header)
                        (nblocks st) None UINT32_MAX None None false in
        if load_ctids && (0 <? num_docs header) && (0 <? ctid_pages_offset header) then
          '(bs1, reader1) ← tp_segment_read st reader (ctid_pages_offset header)
                              (u32 (num_docs header * 4));
          '(bs2, reader2) ← tp_segment_read st reader1 (ctid_offsets_offset header)
                              (u32 (num_docs header * 2));
          let n := Z.to_nat (num_docs header) in
          reader3 ← tp_segment_load_tenant_ids st
            (mkSegmentReader root_block header page_map (num_pages header) (nblocks st)
               (r_current_buffer reader2) (r_current_logical_page reader2)
               (Some (decode_array 4 le_value n bs1, decode_array 2 le_value n bs2))
               None false);
          Ok (Some reader3)
        else Ok (Some reader).

Definition tp_segment_open (st : Storage) (root_block : Z) : res (option TpSegmentReader) :=
  tp_segment_open_ex st root_block false.

Definition tp_segment_lookup_ctid (st : Storage) (reader : TpSegmentReader) (doc_id : Z)
    : res (ItemPointerData * TpSegmentReader) :=
  match r_cached_ctids reader with
  | Some (pages, offsets) =>
      p ← zread pages doc_id;
      o ← zread offsets doc_id;
      Ok (mkItemPointer p o, reader)
  | None =>
      '(bs1, reader1) ← tp_segment_read st reader
        (u32 (ctid_pages_offset (r_header reader) + doc_id * 4)) 4;
      '(bs2, reader2) ← tp_segment_read st reader1
        (u32 (ctid_offsets_offset (r_header reader) + doc_id * 2)) 2;
      Ok (mkItemPointer (le_value bs1) (le_value bs2), reader2)
  end.

(** ** Page reclamation *)

(** The page index chain of a segment, up to the first foreign page (which is
    collected too).  The fuel bounds the number of pages visited. *)
Fixpoint collect_index_pages (fuel : nat) (st : Storage) (block : Z) : res (list Z) :=
  match fuel with
  | O => Ok []
  | S fuel' =>
      if block =? InvalidBlockNumber then Ok []
      else
        page ← ReadBuffer st block;
        let special := page_special page in
        if negb (pi_magic special =? TP_PAGE_INDEX_MAGIC) then Ok [block]
        else rest ← collect_index_pages fuel' st (pi_next_page special); Ok (block :: rest)
  end.

Definition tp_segment_collect_pages (st : Storage) (root_block : Z) : res (list Z) :=
  reader ← tp_segment_open st root_block;
  match reader with
  | None => Ok []
  | Some reader =>
      index ← collect_index_pages (S (Z.to_nat (nblocks st))) st (page_index (r_header reader));
      Ok (r_page_map reader ++ index)
  end.

Fixpoint tp_segment_free_pages (st : Storage) (pages : list Z) : res Storage :=
  match pages with
  | [] => Ok st
  | p :: pages' =>
      if p =? 0 then Err ERRCODE_INTERNAL_ERROR
      else tp_segment_free_pages (RecordFreeIndexPage st p) pages'
  end.
End SegmentIO.

(** ** The reader returns slices of the stream *)

Section ReaderFacts.
Context `{PgLayoutLaws} `{FreeSpaceMapLaws}.

(** A reader on the pages [blocks] of the relation. *)
Record reader_ok (st : Storage) (blocks : list Z) (r : TpSegmentReader) : Prop := {
  ro_map : r_page_map r = blocks;
  ro_num : r_num_pages r = zlen blocks;
  ro_in : Forall (fun b => in_relation st b /\ b < r_nblocks r) blocks;
  ro_cache : match r_current_buffer r with
             | Some b => zget blocks (r_current_logical_page r) = Some b
             | None => r_current_logical_page r = UINT32_MAX
             end;
}.

Lemma blocks_in_relation st blocks r : reader_ok st blocks r -> Forall (in_relation st) blocks.
Proof. intros Hok. eapply Forall_impl; [apply (ro_in _ _ _ Hok)|]. by intros b []. Qed.

(** A slice that stays on one page. *)
Lemma stream_page_slice st blocks k b po n :
  storage_wf st -> Forall (in_relation st) blocks -> zget blocks k = Some b ->
  0 <= po -> 0 <= n -> po + n <= SEGMENT_DATA_PER_PAGE ->
  sub_list (k * SEGMENT_DATA_PER_PAGE + po) n (stream st blocks) =
  sub_list po n (page_data st b).
Proof.
  intros Hwf HF Hk Hpo Hn Hle. pose proof data_per_page_pos.
  pose proof (zget_Some _ _ _ Hk) as Hr. rewrite zget_lookup in Hk by lia.
  rewrite <- (take_drop_middle _ _ _ Hk) in HF |- *.
  apply Forall_app in HF as [HF1 [Hb HF2]%Forall_cons].
  rewrite stream_app. rewrite sub_list_app_r.
  - rewrite (length_stream st _ Hwf HF1). replace (zlen (take (Z.to_nat k) blocks)) with k
      by (unfold zlen in *; rewrite length_take; lia).
    replace (k * SEGMENT_DATA_PER_PAGE + po - k * SEGMENT_DATA_PER_PAGE) with po by lia.
    unfold stream. csimpl. apply sub_list_app_l; [done|].
    by rewrite (length_page_data st b Hwf Hb).
  - rewrite (length_stream st _ Hwf HF1). unfold zlen in *. rewrite length_take. nia.
Qed.

(** One round of the read loop: the rest of the current page, or what is wanted. *)
Lemma segment_read_step st blocks fuel r o len dest :
  storage_wf st -> reader_ok st blocks r ->
  0 <= o < zlen blocks * SEGMENT_DATA_PER_PAGE -> o < 2 ^ 32 -> zlen dest < len ->
  let n := Z.min (len - zlen dest) (SEGMENT_DATA_PER_PAGE - o mod SEGMENT_DATA_PER_PAGE) in
  0 < n /\ o + n <= zlen blocks * SEGMENT_DATA_PER_PAGE /\
  exists r', reader_ok st blocks r' /\
    segment_read_loop (S fuel) st r o len dest =
    segment_read_loop fuel st r' (u32 (o + n)) len
      (dest ++ sub_list o n (stream st blocks)).
Proof.
  intros Hwf Hok Ho H32 L n. cbn [segment_read_loop]. rewrite (proj2 (Z.ltb_lt _ _) L).
  cbv zeta. pose proof data_per_page_pos as HP. unfold tp_logical_page, tp_page_offset.
  pose proof (Z.div_mod o SEGMENT_DATA_PER_PAGE) as Hdm. specialize (Hdm ltac:(lia)).
  pose proof (Z.mod_pos_bound o SEGMENT_DATA_PER_PAGE HP) as Hmod.
  fold n. set (k := o / SEGMENT_DATA_PER_PAGE) in *.
  set (po := o mod SEGMENT_DATA_PER_PAGE) in *.
  assert (Hk : 0 <= k < zlen blocks) by nia.
  split; [lia|]. split; [unfold n; nia|].
  destruct (zget_is_Some blocks k Hk) as [b Hb].
  assert (Hb' : in_relation st b /\ b < r_nblocks r).
  { rewrite zget_lookup in Hb by lia. by apply (Forall_lookup_1 _ _ _ _ (ro_in _ _ _ Hok) Hb). }
  assert (Hslice : sub_list o n (stream st blocks) = sub_list po n (page_data st b)).
  { rewrite <- (stream_page_slice st blocks k b po n); try done; try lia.
    - f_equal. lia.
    - by eapply blocks_in_relation. }
  destruct (ReadBuffer_ok st b) as (p & Hread & Hp); [tauto|].
  assert (Epage : page_data st b = contents p) by (unfold page_data, page_at; by rewrite Hp).
  pose proof (ro_cache _ _ _ Hok) as Hc.
  destruct (Z.eqb_spec (r_current_logical_page r) k) as [E|N]; cbn [negb].
  - exists r. split; [done|]. cbn [mbind res_bind].
    destruct (r_current_buffer r) as [b'|].
    + assert (b' = b) as -> by congruence. rewrite Hread. cbn [mbind res_bind].
      by rewrite Hslice, Epage.
    + exfalso. pose proof BLCKSZ_room. unfold UINT32_MAX, SEGMENT_DATA_PER_PAGE in *. nia.
  - rewrite (ro_num _ _ _ Hok), (proj2 (Z.leb_gt _ _)) by lia.
    unfold zread. rewrite (ro_map _ _ _ Hok), Hb. cbn [mbind res_bind].
    rewrite (proj2 (Z.leb_gt _ _)) by lia. rewrite Hread. cbn [mbind res_bind r_current_buffer].
    rewrite Hread. cbn [mbind res_bind].
    eexists. split; [|by rewrite Hslice, Epage]. split; simpl; try done. apply (ro_in _ _ _ Hok).
Qed.

Lemma segment_read_loop_ok st blocks off len : forall fuel r dest,
  storage_wf st -> reader_ok st blocks r ->
  0 <= off -> off + len <= zlen blocks * SEGMENT_DATA_PER_PAGE -> off + len < 2 ^ 32 ->
  zlen dest <= len -> dest = sub_list off (zlen dest) (stream st blocks) ->
  len - zlen dest <= Z.of_nat fuel ->
  exists r', segment_read_loop fuel st r (off + zlen dest) len dest =
      Ok (sub_list off len (stream st blocks), r') /\ reader_ok st blocks r'.
Proof.
  induction fuel as [|fuel IH]; intros r dest Hwf Hok Hoff Hin H32 Hd Hdest Hf.
  { assert (zlen dest = len) by lia. exists r. simpl. by rewrite Hdest at 1; subst len. }
  destruct (Z.ltb_spec (zlen dest) len) as [L|L]; cycle 1.
  { assert (E : zlen dest = len) by lia. exists r. cbn [segment_read_loop].
    rewrite (proj2 (Z.ltb_ge _ _)) by lia. by rewrite Hdest at 1; subst len. }
  pose proof (zlen_nonneg dest).
  destruct (segment_read_step st blocks fuel r (off + zlen dest) len dest Hwf Hok)
    as (Hn & Hon & r1 & Hok1 & ->); [lia..|].
  set (n := Z.min _ _) in *. rewrite wrap_small by lia.
  assert (Hlen' : zlen (sub_list (off + zlen dest) n (stream st blocks)) = n).
  { apply zlen_sub_list; [lia..|]. rewrite length_stream; [lia|done|by eapply blocks_in_relation]. }
  assert (Hd' : zlen (dest ++ sub_list (off + zlen dest) n (stream st blocks)) = zlen dest + n)
    by (rewrite zlen_app; lia).
  replace (off + zlen dest + n) with
    (off + zlen (dest ++ sub_list (off + zlen dest) n (stream st blocks))) by lia.
  apply IH; try done; try lia.
  rewrite Hd', sub_list_split by lia. by rewrite <- Hdest.
Qed.

Lemma segment_read_loop_err st blocks off len : forall fuel r dest,
  storage_wf st -> reader_ok st blocks r ->
  0 <= off -> zlen blocks * SEGMENT_DATA_PER_PAGE < off + len -> off + len < 2 ^ 32 ->
  zlen dest < len -> (zlen dest = 0 \/ off + zlen dest <= zlen blocks * SEGMENT_DATA_PER_PAGE) ->
  len - zlen dest <= Z.of_nat fuel ->
  segment_read_loop fuel st r (off + zlen dest) len dest = Err ERRCODE_INTERNAL_ERROR.
Proof.
  induction fuel as [|fuel IH]; intros r dest Hwf Hok Hoff Hout H32 L Hpos Hf; [lia|].
  pose proof (zlen_nonneg dest). pose proof data_per_page_pos as HP.
  destruct (Z.lt_ge_cases (off + zlen dest) (zlen blocks * SEGMENT_DATA_PER_PAGE)) as [In|Out].
  - destruct (segment_read_step st blocks fuel r (off + zlen dest) len dest Hwf Hok)
      as (Hn & Hon & r1 & Hok1 & ->); [lia..|].
    set (n := Z.min _ _) in *. rewrite wrap_small by lia.
    assert (Hd' : zlen (dest ++ sub_list (off + zlen dest) n (stream st blocks)) = zlen dest + n).
    { rewrite zlen_app, zlen_sub_list; [done|lia..|].
      rewrite length_stream; [lia|done|by eapply blocks_in_relation]. }
    replace (off + zlen dest + n) with
      (off + zlen (dest ++ sub_list (off + zlen dest) n (stream st blocks))) by lia.
    apply IH; try done; rewrite ?Hd'; lia.
  - cbn [segment_read_loop]. rewrite (proj2 (Z.ltb_lt _ _) L). cbv zeta.
    unfold tp_logical_page. set (k := (off + zlen dest) / SEGMENT_DATA_PER_PAGE).
    assert (Hk : zlen blocks <= k) by (apply Z.div_le_lower_bound; lia).
    assert (Hkmax : k < UINT32_MAX).
    { apply Z.div_lt_upper_bound; [done|]. pose proof BLCKSZ_room.
      unfold UINT32_MAX, SEGMENT_DATA_PER_PAGE in *. nia. }
    pose proof (ro_cache _ _ _ Hok) as Hc. rewrite (proj2 (Z.eqb_neq _ _)).
    + cbn [negb]. by rewrite (ro_num _ _ _ Hok), (proj2 (Z.leb_le _ _)).
    + destruct (r_current_buffer r); [apply zget_Some in Hc|]; lia.
Qed.

Lemma tp_segment_read_ok st blocks r off len :
  storage_wf st -> reader_ok st blocks r ->
  0 <= off -> 0 <= len -> off + len <= zlen blocks * SEGMENT_DATA_PER_PAGE ->
  off + len < 2 ^ 32 ->
  exists r', tp_segment_read st r off len = Ok (sub_list off len (stream st blocks), r') /\
    reader_ok st blocks r'.
Proof.
  intros Hwf Hok Hoff Hlen Hin H32. unfold tp_segment_read.
  destruct (segment_read_loop_ok st blocks off len (Z.to_nat len) r [])
    as (r' & E & Hok'); try done; try (unfold zlen; simpl; lia).
  rewrite Z.add_0_r in E. by exists r'.
Qed.
(** Reading only moves the pinned page. *)
Definition same_segment (r r' : TpSegmentReader) : Prop :=
  r_header r' = r_header r /\ r_cached_ctids r' = r_cached_ctids r /\
  r_cached_tenant_ids r' = r_cached_tenant_ids r /\
  r_tenant_ids_loaded r' = r_tenant_ids_loaded r.

Lemma segment_read_loop_frame st : forall fuel r off len dest res r',
  segment_read_loop fuel st r off len dest = Ok (res, r') -> same_segment r r'.
Proof.
  induction fuel as [|fuel IH]; intros r off len dest res r' E; cbn [segment_read_loop] in E.
  { by injection E as _ <-. }
  destruct (zlen dest <? len); [|by injection E as _ <-].
  destruct (negb _).
  - destruct (_ <=? _); [done|]. destruct (zread _ _) as [physical|]; [|done].
    cbn [mbind res_bind] in E. destruct (_ <=? _); [done|].
    destruct (ReadBuffer st physical) eqn:Ep; [|done].
    cbn [mbind res_bind r_current_buffer] in E. rewrite Ep in E. by apply IH in E.
  - cbn [mbind res_bind] in E. destruct (r_current_buffer r) as [b|]; [|done].
    destruct (ReadBuffer st b); [|done]. by apply IH in E.
Qed.

Lemma tp_segment_read_frame st r off len res r' :
  tp_segment_read st r off len = Ok (res, r') -> same_segment r r'.
Proof. apply segment_read_loop_frame. Qed.
End ReaderFacts.

(** ** The pages of a writer hold what was written *)

Section WriterFacts.
Context `{PgLayoutLaws} `{FreeSpaceMapLaws}.

Abbreviation P := SEGMENT_DATA_PER_PAGE.

Definition used (w : TpSegmentWriter) : Z := w_buffer_pos w - SizeOfPageHeaderData.

(** A writer without page pool that has been given the bytes [data]. *)
Record writer_inv (st : Storage) (w : TpSegmentWriter) (data : list byte) : Prop := {
  wi_storage : storage_wf st;
  wi_pages : Forall (fun b => 0 < b < nblocks st /\ b ∉ st_fsm st) (w_pages w);
  wi_nodup : NoDup (w_pages w);
  wi_count : zlen (w_pages w) = w_buffer_page w + 1;
  wi_buffer : zlen (w_buffer w) = P;
  wi_used : 0 <= used w <= P;
  wi_length : zlen data = w_buffer_page w * P + used w;
  wi_flushed : stream st (take (Z.to_nat (w_buffer_page w)) (w_pages w)) =
               take (Z.to_nat (w_buffer_page w * P)) data;
  wi_pending : take (Z.to_nat (used w)) (w_buffer w) =
               drop (Z.to_nat (w_buffer_page w * P)) data;
  wi_offset : w_current_offset w = u32 (zlen data);
  wi_pool : w_page_pool w = None;
}.

(** What the writer leaves alone: pages in use by others.  The relation grows by
    at most one page for each page the writer takes. *)
Record writer_frame (st : Storage) (w : TpSegmentWriter) (st' : Storage)
    (w' : TpSegmentWriter) : Prop := {
  wf_blocks : nblocks st <= nblocks st' <=
              nblocks st + (zlen (w_pages w') - zlen (w_pages w));
  wf_fsm : forall b, b ∈ st_fsm st' -> b ∈ st_fsm st;
  wf_keep : forall b, in_relation st b -> b ∉ st_fsm st -> b ∉ w_pages w ->
              page_at st' b = page_at st b /\ b ∉ w_pages w';
}.

Lemma writer_frame_trans st1 w1 st2 w2 st3 w3 :
  writer_frame st1 w1 st2 w2 -> writer_frame st2 w2 st3 w3 -> writer_frame st1 w1 st3 w3.
Proof.
  intros [B1 F1 K1] [B2 F2 K2]. split; [lia|auto|].
  intros b Hb Hf Hw. destruct (K1 b Hb Hf Hw) as [E1 Hw1].
  destruct (K2 b) as [E2 Hw2]; [unfold in_relation in *; lia|auto|done|].
  split; [congruence|done].
Qed.

Lemma writer_frame_refl st w w' : w_pages w' = w_pages w -> writer_frame st w st w'.
Proof. intros E. split; rewrite ?E; [lia|done|done]. Qed.

(** Flushing a page of the writer. *)
Lemma writer_frame_flush st w st' :
  nblocks st' = nblocks st -> st_fsm st' = st_fsm st ->
  (forall b, 0 <= b -> b ∉ w_pages w -> page_at st' b = page_at st b) ->
  writer_frame st w st' w.
Proof.
  intros En Ef Hk. split; [lia|by rewrite Ef|]. intros b Hb _ Hw. split; [|done].
  apply Hk; [unfold in_relation in Hb; lia|done].
Qed.

(** Taking a fresh page. *)
Lemma writer_frame_fresh st w st' w' b :
  fresh_page st st' b -> w_pages w' = w_pages w ++ [b] -> writer_frame st w st' w'.
Proof.
  intros Hf E. split.
  - pose proof (fp_mono _ _ _ Hf). rewrite E, zlen_app. unfold zlen at 2. simpl. lia.
  - apply (fp_fsm_sub _ _ _ Hf).
  - intros x Hx Hxf Hxw.
    assert (x <> b).
    { intros ->. destruct (fp_new _ _ _ Hf) as [|]; [done|]. unfold in_relation in Hx. lia. }
    split; [by apply (fp_keep _ _ _ Hf)|]. rewrite E. set_solver.
Qed.

Lemma wi_page st w data : writer_inv st w data ->
  exists b, zget (w_pages w) (w_buffer_page w) = Some b /\
    w_pages w = take (Z.to_nat (w_buffer_page w)) (w_pages w) ++ [b] /\
    0 < b < nblocks st /\ 0 <= w_buffer_page w.
Proof.
  intros Hi. pose proof (wi_count _ _ _ Hi) as Hc.
  assert (Hn : w_pages w <> []).
  { intros E. pose proof (wi_length _ _ _ Hi) as Hl. pose proof (wi_used _ _ _ Hi).
    rewrite E in Hc. unfold zlen in Hc. simpl in Hc.
    pose proof (zlen_nonneg data). pose proof data_per_page_pos.
    destruct (Z.eq_dec (used w) P) as [Eu|]; [|nia].
    pose proof (wi_pending _ _ _ Hi) as Hp. pose proof (wi_buffer _ _ _ Hi) as Hb.
    apply (f_equal length) in Hp. rewrite length_take, length_drop in Hp.
    unfold zlen in *. lia. }
  pose proof (zlen_nonneg (w_pages w)).
  assert (0 <= w_buffer_page w)
    by (destruct (w_pages w); [done|]; unfold zlen in Hc; simpl in Hc; lia).
  destruct (zget_is_Some (w_pages w) (w_buffer_page w) ltac:(lia)) as [b Hb].
  exists b. split; [done|]. rewrite zget_lookup in Hb by lia.
  split; [|split; [|done]].
  - rewrite <- (take_drop_middle _ _ _ Hb) at 1. do 2 f_equal.
    apply drop_ge. unfold zlen in Hc. lia.
  - by apply (Forall_lookup_1 _ _ _ _ (wi_pages _ _ _ Hi) Hb).
Qed.

Lemma length_overwrite off src dst :
  0 <= off -> off + zlen src <= zlen dst -> zlen (overwrite off src dst) = zlen dst.
Proof.
  unfold overwrite, zlen. intros. rewrite !length_app, length_take, length_drop. lia.
Qed.

Lemma take_overwrite off src dst :
  0 <= off <= zlen dst ->
  take (Z.to_nat (off + zlen src)) (overwrite off src dst) = take (Z.to_nat off) dst ++ src.
Proof.
  unfold overwrite, zlen. intros. rewrite app_assoc, take_app_length'; [done|].
  rewrite length_app, length_take. lia.
Qed.

Lemma writer_fill_inv st w data src :
  writer_inv st w data -> used w + zlen src <= P ->
  writer_inv st (writer_fill w src) (data ++ src).
Proof.
  intros Hi Hle. pose proof (wi_used _ _ _ Hi). pose proof (zlen_nonneg src).
  pose proof (wi_length _ _ _ Hi). pose proof data_per_page_pos.
  destruct (wi_page _ _ _ Hi) as (_ & _ & _ & _ & Hbp).
  assert (Eu : used (writer_fill w src) = used w + zlen src)
    by (unfold used, writer_fill; simpl; lia).
  destruct Hi as [H1' H2' H3' H4' H5' H6' H7' H8' H9' H10' H11'].
  split; rewrite ?Eu; simpl; try done.
  - rewrite length_overwrite; [done|..]; unfold used in *; lia.
  - lia.
  - rewrite zlen_app. lia.
  - rewrite H8'. symmetry. apply take_app_le. unfold zlen in *. nia.
  - fold (used w). rewrite take_overwrite by lia. rewrite H9'.
    rewrite drop_app_le; [done|]. unfold zlen in *. nia.
  - rewrite H10', zlen_app. unfold wrap. apply Z.add_mod_idemp_l. lia.
Qed.

Lemma writer_flush_inv st w data :
  writer_inv st w data ->
  exists st' b, tp_segment_writer_flush st w = Ok st' /\ writer_inv st' w data /\
    zget (w_pages w) (w_buffer_page w) = Some b /\ page_data st' b = w_buffer w /\
    nblocks st' = nblocks st /\ st_fsm st' = st_fsm st /\
    (forall b', 0 <= b' -> b' ∉ w_pages w -> page_at st' b' = page_at st b').
Proof.
  intros Hi. destruct (wi_page _ _ _ Hi) as (b & Hb & Hpages & Hbr & Hbp).
  pose proof (wi_count _ _ _ Hi). unfold tp_segment_writer_flush.
  rewrite (proj2 (Z.leb_gt _ _)) by lia. unfold zread. rewrite Hb. simpl.
  destruct (ReadBuffer_ok st b) as (p & -> & Hp); [unfold in_relation; lia|]. simpl.
  set (p' := mkPage (pd_special p) (w_buffer w)).
  exists (put_page st b p'), b. split; [done|].
  assert (Hni : b ∉ take (Z.to_nat (w_buffer_page w)) (w_pages w)).
  { pose proof (wi_nodup _ _ _ Hi) as Hnd. rewrite Hpages in Hnd.
    apply NoDup_app in Hnd as (_ & Hd & _). intros Hin. apply (Hd b Hin). by left. }
  split; [|split; [done|split; [|split; [apply nblocks_put|split; [done|]]]]].
  - destruct Hi as [H1' H2' H3' H4' H5' H6' H7' H8' H9' H10' H11'].
    split; try done.
    + by apply put_page_wf.
    + eapply Forall_impl; [exact H2'|]. intros x Hx. by rewrite nblocks_put.
    + rewrite <- H8'. apply stream_put_ne; [lia|done].
  - rewrite page_data_put_eq; [done|unfold in_relation; lia].
  - intros b' Hb' Hnin. apply page_at_put_ne; [lia|]. intros <-. apply Hnin.
    rewrite Hpages. apply elem_of_app. right. by left.
Qed.

Lemma stream_ext st st' bs : (forall b, b ∈ bs -> page_data st' b = page_data st b) ->
  stream st' bs = stream st bs.
Proof.
  intros Hb. unfold stream. f_equal. apply list_fmap_ext. intros i x Hx.
  apply Hb. by eapply list_elem_of_lookup_2.
Qed.

Lemma writer_next_page_inv st w data b :
  writer_inv st w data -> used w = P -> zlen data < 2 ^ 32 ->
  zget (w_pages w) (w_buffer_page w) = Some b -> page_data st b = w_buffer w ->
  exists st' w', writer_next_page st w = Ok (st', w') /\ writer_inv st' w' data /\ used w' = 0 /\
    writer_frame st w st' w'.
Proof.
  intros Hi Hu H32 Hb Hflush. destruct (wi_page _ _ _ Hi) as (b' & Hb' & Hpages & Hbr & Hbp).
  assert (b' = b) as -> by congruence. clear Hb'.
  pose proof data_per_page_pos as HP. pose proof (wi_length _ _ _ Hi) as Hl.
  pose proof (wi_count _ _ _ Hi) as Hc.
  unfold writer_next_page. simpl. rewrite (wrap_small 32) by nia.
  rewrite (proj2 (Z.leb_le _ _)) by lia.
  unfold tp_segment_writer_allocate_page. simpl. rewrite (wi_pool _ _ _ Hi).
  destruct (allocate_fresh st (wi_storage _ _ _ Hi)) as (nb & st' & -> & Hwf' & Hf & _). simpl.
  do 2 eexists. split; [done|].
  assert (Hnew : nb ∉ w_pages w).
  { intros Hin. pose proof (wi_pages _ _ _ Hi) as HF. rewrite Forall_forall in HF.
    destruct (HF nb Hin) as [Hr Hn]. destruct (fp_new _ _ _ Hf); [done|lia]. }
  assert (Hkeep : forall x, x ∈ w_pages w -> page_data st' x = page_data st x).
  { intros x Hx. pose proof (wi_pages _ _ _ Hi) as HF. rewrite Forall_forall in HF.
    apply page_at_data, (fp_keep _ _ _ Hf); [|congruence]. destruct (HF x Hx). unfold in_relation. lia. }
  split; [|split; [unfold used; simpl; lia|by eapply writer_frame_fresh]].
  destruct Hi as [H1' H2' H3' H4' H5' H6' H7' H8' H9' H10' H11'].
  split; unfold used in *; simpl; try done.
  - pose proof (fp_in _ _ _ Hf). pose proof (fp_mono _ _ _ Hf).
    apply Forall_app. split; [|constructor; [|constructor]].
    + eapply Forall_impl; [exact H2'|]. intros x [? Hx]. split; [lia|].
      intros Hin. apply Hx. by apply (fp_fsm_sub _ _ _ Hf).
    + split; [lia|]. apply (fp_fsm _ _ _ Hf).
  - apply NoDup_app. split; [done|]. split; [|apply NoDup_singleton]. set_solver.
  - rewrite zlen_app. unfold zlen in *. simpl. lia.
  - apply (length_PageInit 0).
  - lia.
  - lia.
  - rewrite take_app_length' by (unfold zlen in Hc; lia).
    rewrite (stream_ext st st') by done. rewrite Hpages, stream_app, H8'.
    replace (stream st [b]) with (w_buffer w)
      by (unfold stream; csimpl; by rewrite app_nil_r).
    rewrite Hu in H9'. unfold zlen in H5'. rewrite take_ge in H9' by lia. rewrite H9'.
    rewrite take_drop. rewrite take_ge; [done|]. unfold zlen in Hl. lia.
  - rewrite Z.sub_diag. simpl. rewrite drop_ge; [done|]. unfold zlen in Hl. lia.
Qed.

Lemma writer_write_loop_ok : forall fuel st w data new,
  writer_inv st w data -> zlen data + zlen new < 2 ^ 32 ->
  zlen new + (if used w =? P then 1 else 0) <= Z.of_nat fuel ->
  exists st' w', writer_write_loop fuel st w new = Ok (st', w') /\
    writer_inv st' w' (data ++ new) /\ writer_frame st w st' w'.
Proof.
  induction fuel as [|fuel IH]; intros st w data new Hi H32 Hf; cbn [writer_write_loop].
  { assert (new = []) as ->; [|exists st, w; rewrite app_nil_r; auto using writer_frame_refl].
    destruct new; [done|]. rewrite zlen_cons in Hf. pose proof (zlen_nonneg new).
    case_match; lia. }
  destruct new as [|c new']; [exists st, w; rewrite app_nil_r; auto using writer_frame_refl|].
  set (new := c :: new') in *. pose proof data_per_page_pos as HP.
  pose proof (wi_used _ _ _ Hi) as Hu.
  assert (Hnew : 0 < zlen new) by (unfold zlen; simpl; lia).
  set (tw := Z.min (BLCKSZ - w_buffer_pos w) (zlen new)).
  assert (Htw : 0 <= tw <= P - used w /\ tw <= zlen new /\ (used w <> P -> 0 < tw)).
  { unfold tw, used, P, SEGMENT_DATA_PER_PAGE in *. lia. }
  set (src := take (Z.to_nat tw) new). set (rest := drop (Z.to_nat tw) new).
  assert (Hsrc : zlen src = tw) by (unfold zlen, src in *; rewrite length_take; lia).
  assert (Hsplit : new = src ++ rest) by (unfold src, rest; by rewrite take_drop).
  assert (Hrest : zlen rest = zlen new - tw) by (pose proof (f_equal zlen Hsplit) as E; rewrite zlen_app in E; lia).
  pose proof (writer_fill_inv st w data src Hi ltac:(lia)) as Hi1.
  assert (Eu : used (writer_fill w src) = used w + tw)
    by (unfold used, writer_fill; simpl; lia).
  assert (Edata : data ++ new = (data ++ src) ++ rest) by (by rewrite <- app_assoc, <- Hsplit).
  assert (Efull : (BLCKSZ <=? w_buffer_pos (writer_fill w src)) =
                  (used (writer_fill w src) =? P)).
  { rewrite Eu. unfold used, P, SEGMENT_DATA_PER_PAGE, writer_fill in *. simpl.
    rewrite Hsrc. destruct (Z.leb_spec BLCKSZ (w_buffer_pos w + tw)), (Z.eqb_spec
      (w_buffer_pos w - SizeOfPageHeaderData + tw) (BLCKSZ - SizeOfPageHeaderData)); lia. }
  cbv zeta. fold tw. fold src. fold rest. rewrite Efull, Edata. destruct (Z.eqb_spec (used (writer_fill w src)) P) as [E|E].
  - destruct (writer_flush_inv _ _ _ Hi1) as (st1 & b & -> & Hi2 & Hb & Hpd & En & Ef & Hk).
    pose proof (writer_frame_trans _ _ _ _ _ _ (writer_frame_refl st w (writer_fill w src) eq_refl)
      (writer_frame_flush st (writer_fill w src) st1 En Ef Hk)) as Hfr. cbn [mbind res_bind].
    destruct rest as [|r rest'] eqn:Er.
    { exists st1, (writer_fill w src). by rewrite app_nil_r. }
    rewrite <- Er in *.
    destruct (writer_next_page_inv st1 (writer_fill w src) (data ++ src) b)
      as (st2 & w2 & -> & Hi3 & Hu3 & Hfr2); try done.
    { rewrite zlen_app. lia. }
    cbn [mbind res_bind].
    destruct (IH st2 w2 (data ++ src) rest Hi3) as (st3 & w3 & -> & Hi4 & Hfr3).
    { rewrite zlen_app. lia. }
    { rewrite Hu3. rewrite (proj2 (Z.eqb_neq 0 P)) by lia.
      destruct (Z.eqb_spec (used w) P); lia. }
    exists st3, w3. split; [done|]. split; [done|].
    eapply writer_frame_trans; [|eassumption]. by eapply writer_frame_trans.
  - destruct (IH st (writer_fill w src) (data ++ src) rest Hi1) as (st3 & w3 & -> & Hi4 & Hfr3).
    { rewrite zlen_app. lia. }
    { rewrite (proj2 (Z.eqb_neq _ _) E). destruct (Z.eqb_spec (used w) P); lia. }
    exists st3, w3. split; [done|]. split; [done|].
    eapply writer_frame_trans; [|eassumption]. by apply writer_frame_refl.
Qed.

Lemma tp_segment_writer_write_frame st w data new :
  writer_inv st w data -> zlen data + zlen new < 2 ^ 32 ->
  exists st' w', tp_segment_writer_write st w new = Ok (st', w') /\
    writer_inv st' w' (data ++ new) /\ writer_frame st w st' w'.
Proof.
  intros Hi H32. unfold tp_segment_writer_write. apply writer_write_loop_ok; [done..|].
  case_match; unfold zlen; lia.
Qed.

Lemma tp_segment_writer_write_ok st w data new :
  writer_inv st w data -> zlen data + zlen new < 2 ^ 32 ->
  exists st' w', tp_segment_writer_write st w new = Ok (st', w') /\
    writer_inv st' w' (data ++ new).
Proof.
  intros Hi H32. destruct (tp_segment_writer_write_frame st w data new Hi H32)
    as (st' & w' & ? & ? & _). eauto.
Qed.

Lemma tp_segment_writer_init_frame st :
  storage_wf st ->
  exists st' w, tp_segment_writer_init st = Ok (st', w) /\ writer_inv st' w [] /\
    writer_frame st (mkSegmentWriter [] 0 [] 0 0 None) st' w /\ zlen (w_pages w) = 1.
Proof.
  intros Hwf. unfold tp_segment_writer_init, writer_init, tp_segment_writer_allocate_page.
  destruct (allocate_fresh st Hwf) as (b & st' & E & Hwf' & Hf & _). simpl. rewrite E. simpl.
  do 2 eexists. split; [done|]. pose proof data_per_page_pos.
  split; [|split; [by eapply writer_frame_fresh|done]].
  split; unfold used; simpl; try done; try lia.
  - constructor; [|constructor]. split; [apply (fp_in _ _ _ Hf)|apply (fp_fsm _ _ _ Hf)].
  - apply NoDup_singleton.
  - apply (length_PageInit 0).
  - by rewrite Z.sub_diag.
  - by rewrite Z.sub_diag.
Qed.

Lemma tp_segment_writer_init_ok st :
  storage_wf st ->
  exists st' w, tp_segment_writer_init st = Ok (st', w) /\ writer_inv st' w [].
Proof.
  intros Hwf. destruct (tp_segment_writer_init_frame st Hwf) as (st' & w & ? & ? & _). eauto.
Qed.

(** Once the last page is flushed the stream of the pages starts with the data. *)
Lemma writer_stream st w data b :
  writer_inv st w data -> zget (w_pages w) (w_buffer_page w) = Some b ->
  used w = 0 \/ page_data st b = w_buffer w ->
  take (length data) (stream st (w_pages w)) = data.
Proof.
  intros Hi Hb Hlast. destruct (wi_page _ _ _ Hi) as (b' & Hb' & Hpages & Hbr & Hbp).
  assert (b' = b) as -> by congruence.
  pose proof (wi_used _ _ _ Hi) as Hu. pose proof (wi_length _ _ _ Hi) as Hl.
  pose proof data_per_page_pos as HP.
  rewrite Hpages, stream_app, (wi_flushed _ _ _ Hi).
  assert (Hpre : length (take (Z.to_nat (w_buffer_page w * P)) data) =
    Z.to_nat (w_buffer_page w * P)) by (rewrite length_take; unfold zlen in Hl; lia).
  rewrite take_app_ge by (unfold zlen in Hl; lia). rewrite Hpre.
  rewrite <- (take_drop (Z.to_nat (w_buffer_page w * P)) data) at 3. f_equal.
  rewrite <- (wi_pending _ _ _ Hi).
  replace (length data - Z.to_nat (w_buffer_page w * P))%nat with (Z.to_nat (used w))
    by (unfold zlen in Hl; lia).
  destruct Hlast as [->|Hlast]; [done|]. unfold stream. csimpl. by rewrite app_nil_r, Hlast.
Qed.

Lemma tp_segment_writer_finish_ok st w data :
  writer_inv st w data ->
  exists st', tp_segment_writer_finish st w = Ok st' /\ writer_inv st' w data /\
    take (length data) (stream st' (w_pages w)) = data.
Proof.
  intros Hi. destruct (wi_page _ _ _ Hi) as (b & Hb & Hpages & Hbr & Hbp).
  pose proof (wi_used _ _ _ Hi) as Hu. unfold tp_segment_writer_finish.
  destruct (Z.ltb_spec SizeOfPageHeaderData (w_buffer_pos w)) as [L|L].
  - destruct (writer_flush_inv _ _ _ Hi) as (st' & b' & -> & Hi' & Hb' & Hpd & _).
    exists st'. split; [done|]. split; [done|]. apply (writer_stream st' w data b'); auto.
  - exists st. split; [done|]. split; [done|]. apply (writer_stream st w data b); [done..|].
    left. unfold used in *. lia.
Qed.

(** A sequence of writes. *)
Fixpoint write_all (st : Storage) (w : TpSegmentWriter) (chunks : list (list byte))
    : res (Storage * TpSegmentWriter) :=
  match chunks with
  | [] => Ok (st, w)
  | c :: chunks' => '(st1, w1) ← tp_segment_writer_write st w c; write_all st1 w1 chunks'
  end.

Lemma write_all_ok chunks : forall st w data,
  writer_inv st w data -> zlen data + zlen (concat chunks) < 2 ^ 32 ->
  exists st' w', write_all st w chunks = Ok (st', w') /\
    writer_inv st' w' (data ++ concat chunks).
Proof.
  induction chunks as [|c chunks IH]; intros st w data Hi H32; simpl in *.
  { exists st, w. by rewrite app_nil_r. }
  rewrite zlen_app in H32. pose proof (zlen_nonneg (concat chunks)).
  destruct (tp_segment_writer_write_ok st w data c Hi ltac:(lia)) as (st1 & w1 & -> & Hi1).
  simpl. rewrite app_assoc. apply IH; [done|]. rewrite zlen_app. lia.
Qed.
End WriterFacts.

(** ** The page index is loaded back as it was written *)

Section PageIndexFacts.
Context `{PgLayoutLaws} `{FreeSpaceMapLaws}.

Abbreviation P := SEGMENT_DATA_PER_PAGE.
Abbreviation epp := tp_page_index_entries_per_page.

Definition block_number (b : Z) : Prop := 0 <= b < 2 ^ 32.

Lemma epp_bounds : 0 < epp <= 8191 /\ 4 * epp <= P - 16.
Proof.
  unfold tp_page_index_entries_per_page, SEGMENT_DATA_PER_PAGE, MAXALIGN.
  pose proof BLCKSZ_room. pose proof BLCKSZ_limit. pose proof SizeOfPageHeaderData_pos.
  change ((16 + 7) / 8 * 8) with 16.
  pose proof (Z.div_mod (BLCKSZ - SizeOfPageHeaderData - 16) 4 ltac:(lia)).
  pose proof (Z.mod_pos_bound (BLCKSZ - SizeOfPageHeaderData - 16) 4 ltac:(lia)). lia.
Qed.

Lemma drop_overwrite_lt off src dst (n : Z) :
  0 <= off -> off + zlen src <= n -> n <= zlen dst ->
  drop (Z.to_nat n) (overwrite off src dst) = drop (Z.to_nat n) dst.
Proof.
  unfold overwrite, zlen. intros. rewrite app_assoc, drop_app_ge.
  - rewrite drop_drop, length_app, length_take. f_equal. lia.
  - rewrite length_app, length_take. lia.
Qed.

Lemma drop_overwrite_eq off src dst : 0 <= off <= zlen dst ->
  drop (Z.to_nat off) (overwrite off src dst) = src ++ drop (Z.to_nat off + length src) dst.
Proof.
  unfold overwrite, zlen. intros. rewrite drop_app_length'; [done|].
  rewrite length_take. lia.
Qed.

Section IndexPage.
Context (entries : list Z) (next : Z).
Context (Hentries : Forall block_number entries) (Hnext : block_number next)
  (Hcount : zlen entries <= epp).

Lemma zlen_encode_u32s (l : list Z) : zlen (encode_array u32_bytes l) = 4 * zlen l.
Proof.
  unfold zlen. rewrite (length_encode_array _ 4) by apply length_u32_bytes. lia.
Qed.

Definition index_special : TpPageIndexSpecial :=
  mkPageIndexSpecial TP_PAGE_INDEX_MAGIC TP_PAGE_INDEX_VERSION TP_PAGE_FILE_INDEX next
    (zlen entries) 0.

Lemma special_offset : pd_special (PageInit 16) - SizeOfPageHeaderData = P - 16.
Proof. unfold PageInit, SEGMENT_DATA_PER_PAGE. simpl. change (MAXALIGN 16) with 16. lia. Qed.

Lemma page_index_page_contents :
  contents (page_index_page entries next) =
    overwrite 0 (encode_array u32_bytes entries)
      (overwrite (P - 16) (encode_page_index_special index_special) (contents (PageInit 16))).
Proof.
  unfold page_index_page. cbn [contents]. rewrite special_offset.
  pose proof epp_bounds. pose proof (zlen_nonneg entries).
  rewrite (wrap_small 16) by lia. done.
Qed.

Lemma zlen_special : zlen (encode_page_index_special index_special) = 16.
Proof. unfold zlen. by rewrite length_encode_page_index_special. Qed.

Lemma zlen_special_page :
  zlen (overwrite (P - 16) (encode_page_index_special index_special) (contents (PageInit 16))) = P.
Proof.
  pose proof epp_bounds. rewrite length_overwrite; rewrite ?zlen_special, ?length_PageInit; try done; lia.
Qed.

Lemma zlen_page_index_page : zlen (contents (page_index_page entries next)) = P.
Proof.
  pose proof epp_bounds.
  rewrite page_index_page_contents, length_overwrite, zlen_special_page; [done|lia|].
  rewrite zlen_encode_u32s, zlen_special_page. lia.
Qed.

Lemma page_special_index_page : page_special (page_index_page entries next) = index_special.
Proof.
  unfold page_special. rewrite page_index_page_contents.
  replace (pd_special (page_index_page entries next)) with (pd_special (PageInit 16)) by done.
  rewrite special_offset. pose proof epp_bounds.
  rewrite drop_overwrite_lt; [|lia|rewrite zlen_encode_u32s; lia|rewrite zlen_special_page; lia].
  rewrite drop_overwrite_eq by (rewrite length_PageInit; lia).
  apply decode_encode_page_index_special. unfold page_index_special_ok, fits. simpl.
  pose proof (zlen_nonneg entries). unfold block_number in Hnext.
  repeat split; try done; lia.
Qed.

Lemma index_page_entries :
  decode_array 4 le_value (length entries) (contents (page_index_page entries next)) = entries.
Proof.
  rewrite page_index_page_contents. unfold overwrite. simpl.
  apply decode_encode_array; [apply length_u32_bytes|].
  intros a Ha. rewrite Forall_forall in Hentries. apply u32_bytes_value.
  by apply Hentries.
Qed.
End IndexPage.

(** The pages [bs] hold the entries [chunks], chained in order. *)
Fixpoint index_chain (st : Storage) (bs : list Z) (chunks : list (list Z)) : Prop :=
  match bs, chunks with
  | [], [] => True
  | b :: bs', c :: cs' =>
      zget (st_pages st) b = Some (page_index_page c (default InvalidBlockNumber (head bs'))) /\
      index_chain st bs' cs'
  | _, _ => False
  end.

Lemma load_entries_all entries : forall nb n loaded,
  Forall (fun b => b < nb) entries -> zlen loaded + zlen entries <= n ->
  load_entries entries nb n loaded = Ok (loaded ++ entries).
Proof.
  induction entries as [|e entries IH]; intros nb n loaded HF Hn; simpl.
  { by rewrite app_nil_r. }
  apply Forall_cons in HF as [He HF]. rewrite zlen_cons in Hn.
  pose proof (zlen_nonneg entries).
  rewrite (proj2 (Z.ltb_lt _ _)) by lia. rewrite (proj2 (Z.leb_gt _ _)) by lia.
  rewrite IH by (rewrite ?zlen_app, ?zlen_cons; try done; unfold zlen in *; simpl; lia).
  by rewrite <- app_assoc.
Qed.

Lemma load_page_index_chain st bs : forall chunks fuel loaded,
  index_chain st bs chunks -> (length bs < fuel)%nat ->
  Forall (fun b => 0 <= b < InvalidBlockNumber) bs ->
  Forall (fun c => zlen c <= epp /\ Forall (fun b => 0 <= b < nblocks st) c) chunks ->
  nblocks st <= InvalidBlockNumber ->
  load_page_index fuel st (default InvalidBlockNumber (head bs))
    (zlen loaded + zlen (concat chunks)) loaded = Ok (loaded ++ concat chunks).
Proof.
  induction bs as [|b bs IH]; intros [|c cs] [|fuel] loaded Hc Hf Hbs Hcs Hn;
    simpl in Hc, Hf; try done; try lia;
    cbn [load_page_index head from_option id concat].
  { by rewrite app_nil_r. }
  destruct Hc as [Hb Hc]. apply Forall_cons in Hbs as [Hbr Hbs].
  apply Forall_cons in Hcs as [[Hcl Hcb] Hcs].
  rewrite (proj2 (Z.eqb_neq _ _)) by lia. cbn [orb].
  rewrite zlen_app. pose proof (zlen_nonneg c). pose proof (zlen_nonneg (concat cs)).
  destruct (Z.leb_spec (zlen loaded + (zlen c + zlen (concat cs))) (zlen loaded)) as [L|L].
  { assert (c = [] /\ concat cs = []) as [-> ->]; [|by rewrite app_nil_r].
    split; apply length_zero_iff_nil; unfold zlen in *; lia. }
  unfold ReadBuffer. rewrite Hb. cbn [mbind res_bind].
  assert (Hnext : block_number (default InvalidBlockNumber (head bs))).
  { destruct bs as [|b' bs']; simpl; [unfold block_number, InvalidBlockNumber; lia|].
    apply Forall_cons in Hbs as [? _]. unfold block_number, InvalidBlockNumber in *. lia. }
  assert (Hce : Forall block_number c).
  { eapply Forall_impl; [exact Hcb|]. unfold block_number, InvalidBlockNumber in *. simpl. lia. }
  rewrite (page_special_index_page c _ Hnext Hcl). cbn [pi_magic pi_page_type pi_num_entries
    pi_next_page index_special]. rewrite !Z.eqb_refl. cbn [negb orb].
  replace (Z.to_nat (zlen c)) with (length c) by (unfold zlen; lia).
  rewrite (index_page_entries c _ Hce Hcl).
  rewrite load_entries_all;
    [|eapply Forall_impl; [exact Hcb|]; simpl; lia|lia]. cbn [mbind res_bind].
  rewrite app_assoc, <- (IH cs fuel (loaded ++ c)) by (done || lia).
  f_equal. rewrite zlen_app. lia.
Qed.

(** ** Writing the index *)

Record fresh_pages (st st' : Storage) (bs : list Z) : Prop := {
  fps_wf : storage_wf st';
  fps_nodup : NoDup bs;
  fps_in : Forall (fun b => 0 < b < nblocks st') bs;
  fps_new : Forall (fun b => b ∈ st_fsm st \/ nblocks st <= b) bs;
  fps_mono : nblocks st <= nblocks st' <= nblocks st + zlen bs;
  fps_keep : forall b', in_relation st b' -> b' ∉ bs -> page_at st' b' = page_at st b';
}.

Lemma allocate_index_pages_ok n : forall st, storage_wf st ->
  exists bs st', allocate_index_pages n st = Ok (bs, st') /\ length bs = n /\
    fresh_pages st st' bs /\ (forall b, b ∈ st_fsm st' -> b ∈ st_fsm st) /\
    Forall (fun b => b ∉ st_fsm st') bs.
Proof.
  induction n as [|n IH]; intros st Hwf; simpl.
  { exists [], st. split; [done|]. split; [done|]. split; [|split; [done|constructor]].
    split; try done; try constructor; unfold zlen; simpl; lia. }
  destruct (allocate_fresh st Hwf) as (b & st1 & -> & Hwf1 & Hf & _). simpl.
  destruct (IH st1 Hwf1) as (bs & st2 & -> & Hlen & Hfs & Hsub & Hnot). simpl.
  exists (b :: bs), st2. split; [done|]. split; [simpl; by f_equal|].
  pose proof (fp_in _ _ _ Hf). pose proof (fp_mono _ _ _ Hf). pose proof (fps_mono _ _ _ Hfs).
  split; [|split; [intros x Hx; by apply (fp_fsm_sub _ _ _ Hf), Hsub|]].
  2: { constructor; [|done]. intros Hx. by apply (fp_fsm _ _ _ Hf), Hsub. }
  split.
  - apply Hfs.
  - constructor; [|apply Hfs]. intros Hin. pose proof (fps_new _ _ _ Hfs) as HF.
    rewrite Forall_forall in HF. destruct (HF b Hin) as [Hx|Hx]; [|lia].
    by apply (fp_fsm _ _ _ Hf).
  - constructor; [lia|apply Hfs].
  - constructor; [apply Hf|]. eapply Forall_impl; [apply (fps_new _ _ _ Hfs)|].
    intros x [Hx|Hx]; [left; by apply (fp_fsm_sub _ _ _ Hf)|right; lia].
  - rewrite zlen_cons. lia.
  - intros b' Hb' Hni. apply not_elem_of_cons in Hni as [Hne Hni].
    rewrite (fps_keep _ _ _ Hfs); [by apply (fp_keep _ _ _ Hf)| |done].
    unfold in_relation in *. lia.
Qed.

Definition index_chunk (pages : list Z) (k : nat) : list Z :=
  sub_list (Z.of_nat k * epp) (Z.min epp (zlen pages - Z.of_nat k * epp)) pages.

Lemma index_chunks_concat pages : forall m k,
  zlen pages <= Z.of_nat (k + m) * epp ->
  (forall j, (k <= j < k + m)%nat -> Z.of_nat j * epp < zlen pages) ->
  concat (index_chunk pages <$> seq k m) = drop (Z.to_nat (Z.of_nat k * epp)) pages.
Proof.
  pose proof epp_bounds.
  induction m as [|m IH]; intros k Hn Hj; csimpl.
  { rewrite drop_ge; [done|]. unfold zlen in Hn. nia. }
  rewrite IH; [|by rewrite Nat.add_succ_l, <- Nat.add_succ_r|intros; apply Hj; lia].
  specialize (Hj k ltac:(lia)). unfold index_chunk, sub_list.
  destruct (Z.min_spec epp (zlen pages - Z.of_nat k * epp)) as [[L ->]|[L ->]].
  - rewrite <- (take_drop (Z.to_nat epp) (drop (Z.to_nat (Z.of_nat k * epp)) pages)) at 2.
    f_equal. rewrite drop_drop. f_equal. lia.
  - rewrite (take_ge (drop _ _)) by (rewrite length_drop; unfold zlen in *; lia).
    rewrite (drop_ge pages (Z.to_nat (Z.of_nat (S k) * epp))) by (unfold zlen in *; lia).
    by rewrite app_nil_r.
Qed.

Lemma zlen_index_chunk pages k : zlen (index_chunk pages k) <= epp.
Proof.
  pose proof epp_bounds. unfold index_chunk, sub_list, zlen. rewrite length_take. lia.
Qed.

Lemma index_chain_put_ne st b p bs : forall cs, 0 <= b -> b ∉ bs ->
  Forall (fun b => 0 <= b) bs -> index_chain st bs cs -> index_chain (put_page st b p) bs cs.
Proof.
  induction bs as [|x bs IH]; intros [|c cs] Hb Hni HF Hc; simpl in Hc |- *; try done.
  apply not_elem_of_cons in Hni as [Hne Hni]. apply Forall_cons in HF as [Hx HF].
  destruct Hc as [Hz Hc]. split; [|by apply IH].
  rewrite zget_lookup in Hz |- * by lia. rewrite list_lookup_insert_ne by lia. done.
Qed.

Lemma write_index_pages_ok pages bs : NoDup bs -> forall i prev st,
  storage_wf st -> Forall (fun b => 0 < b < nblocks st) bs -> (i <= length bs)%nat ->
  index_chain st (drop i bs) (index_chunk pages <$> seq i (length bs - i)) ->
  prev = default InvalidBlockNumber (head (drop i bs)) ->
  exists st', write_index_pages bs pages i prev st =
      Ok (default InvalidBlockNumber (head bs), st') /\
    index_chain st' bs (index_chunk pages <$> seq 0 (length bs)) /\
    storage_wf st' /\ nblocks st' = nblocks st /\ st_fsm st' = st_fsm st /\
    (forall b', 0 <= b' -> b' ∉ bs -> page_at st' b' = page_at st b').
Proof.
  intros Hnd. induction i as [|i IH]; intros prev st Hwf HF Hi Hc ->.
  { exists st. rewrite drop_0, Nat.sub_0_r in *. done. }
  cbn [write_index_pages]. cbv zeta.
  destruct (lookup_lt_is_Some_2 bs i ltac:(lia)) as [b Hb].
  assert (Hbr : 0 < b < nblocks st) by (by apply (Forall_lookup_1 _ _ _ _ HF Hb)).
  unfold zread. rewrite zget_nat, Hb. cbn [mbind res_bind].
  destruct (ReadBuffer_ok st b) as (p & -> & _); [unfold in_relation; lia|].
  cbn [mbind res_bind]. fold (index_chunk pages i).
  set (pg := page_index_page _ _). set (st1 := put_page st b pg).
  assert (Hdrop : drop i bs = b :: drop (S i) bs) by (by apply drop_S).
  assert (Hni : b ∉ drop (S i) bs).
  { rewrite <- (take_drop i bs), Hdrop in Hnd. apply NoDup_app in Hnd as (_ & _ & Hnd).
    by apply NoDup_cons in Hnd as [? _]. }
  destruct (IH b st1) as (st' & E & Hc' & Hwf' & Hn' & Hfsm' & Hkeep').
  - apply put_page_wf; [|done]. apply zlen_page_index_page, zlen_index_chunk.
  - eapply Forall_impl; [exact HF|]. intros x Hx. unfold st1. by rewrite nblocks_put.
  - lia.
  - rewrite Hdrop. replace (length bs - i)%nat with (S (length bs - S i)) by lia.
    csimpl. split.
    + unfold st1, put_page. simpl. rewrite zget_lookup by lia.
      rewrite list_lookup_insert_eq; [done|]. unfold nblocks, zlen in Hbr. lia.
    + apply index_chain_put_ne; try done; [lia|]. apply Forall_drop.
      eapply Forall_impl; [exact HF|]. simpl. lia.
  - by rewrite Hdrop.
  - exists st'. split; [exact E|]. split; [done|]. split; [done|].
    unfold st1 in *. rewrite nblocks_put in Hn'. split; [done|]. split; [done|].
    intros b' Hb' Hni'. rewrite Hkeep' by done. apply page_at_put_ne; [lia|].
    intros ->. apply Hni'. by eapply list_elem_of_lookup_2.
Qed.

Lemma length_nodup_blocks (bs : list Z) (n : Z) :
  NoDup bs -> Forall (fun b => 0 < b < n) bs -> (length bs <= Z.to_nat n)%nat.
Proof.
  intros Hnd HF. rewrite <- (length_fmap Z.to_nat bs), <- (length_seq (Z.to_nat n) 0).
  apply submseteq_length, NoDup_submseteq.
  - apply NoDup_fmap_2_strong; [|done]. intros x y Hx Hy E.
    rewrite Forall_forall in HF. apply HF in Hx, Hy. lia.
  - intros k (b & -> & Hb)%list_elem_of_fmap. rewrite Forall_forall in HF. apply HF in Hb.
    apply elem_of_seq. lia.
Qed.

Definition num_index_pages (pages : list Z) : Z := (zlen pages + epp - 1) / epp.

(** The chain of index pages [bs], from [root], that records [pages]. *)
Record page_index_at (st : Storage) (root : Z) (bs pages : list Z) : Prop := {
  pia_chain : index_chain st bs (index_chunk pages <$> seq 0 (length bs));
  pia_root : root = default InvalidBlockNumber (head bs);
  pia_concat : concat (index_chunk pages <$> seq 0 (length bs)) = pages;
  pia_nodup : NoDup bs;
  pia_in : Forall (fun b => 0 < b < nblocks st) bs;
  pia_limit : nblocks st <= InvalidBlockNumber;
}.

Lemma page_index_put st root bs pages b p :
  page_index_at st root bs pages -> 0 <= b -> b ∉ bs ->
  page_index_at (put_page st b p) root bs pages.
Proof.
  intros [Hc Hr Hcat Hnd Hin Hl] Hb Hni. split; try done.
  - apply index_chain_put_ne; try done. eapply Forall_impl; [exact Hin|]. simpl. lia.
  - eapply Forall_impl; [exact Hin|]. intros x. by rewrite nblocks_put.
  - by rewrite nblocks_put.
Qed.

Lemma page_index_load st root bs pages :
  page_index_at st root bs pages -> Forall (in_relation st) pages ->
  load_page_index (S (Z.to_nat (nblocks st))) st root (zlen pages) [] = Ok pages.
Proof.
  intros [Hc -> Hcat Hnd Hin Hl] Hpages.
  pose proof (load_page_index_chain st bs _ (S (Z.to_nat (nblocks st))) [] Hc) as Hload.
  rewrite Hcat in Hload. change (zlen (@nil Z)) with 0 in Hload. apply Hload; [| | |done].
  - pose proof (length_nodup_blocks bs (nblocks st) Hnd Hin). lia.
  - eapply Forall_impl; [exact Hin|]. simpl. lia.
  - apply Forall_fmap, Forall_forall. intros k _. split; [apply zlen_index_chunk|].
    unfold index_chunk, sub_list. apply Forall_take, Forall_drop. exact Hpages.
Qed.

Lemma write_page_index_ok st pages :
  storage_wf st -> nblocks st + num_index_pages pages <= InvalidBlockNumber ->
  exists root bs st', write_page_index st pages = Ok (root, st') /\ storage_wf st' /\
    page_index_at st' root bs pages /\
    Forall (fun b => b ∈ st_fsm st \/ nblocks st <= b) bs /\
    nblocks st <= nblocks st' /\
    (forall b, in_relation st b -> b ∉ st_fsm st -> page_at st' b = page_at st b) /\
    (forall b, b ∈ st_fsm st' -> b ∈ st_fsm st) /\ Forall (fun b => b ∉ st_fsm st') bs.
Proof.
  intros Hwf Hlim. unfold write_page_index. fold (num_index_pages pages).
  pose proof epp_bounds as [Hepp _]. pose proof (zlen_nonneg pages).
  pose proof (Z.div_mod (zlen pages + epp - 1) epp) as Hdm. specialize (Hdm ltac:(lia)).
  pose proof (Z.mod_pos_bound (zlen pages + epp - 1) epp) as Hmod. specialize (Hmod ltac:(lia)).
  fold (num_index_pages pages) in Hdm. set (n := num_index_pages pages) in *.
  assert (Hn0 : 0 <= n) by nia.
  destruct (allocate_index_pages_ok (Z.to_nat n) st Hwf) as (bs & st1 & -> & Hlen & Hf & Hfsub & Hfnot).
  cbn [mbind res_bind].
  destruct (write_index_pages_ok pages bs (fps_nodup _ _ _ Hf) (length bs)
    InvalidBlockNumber st1 (fps_wf _ _ _ Hf) (fps_in _ _ _ Hf)) as
    (st' & E & Hc & Hwf' & Hn' & Efsm & Hkeep).
  { done. }
  { by rewrite drop_ge, Nat.sub_diag. }
  { by rewrite drop_ge. }
  rewrite E. exists (default InvalidBlockNumber (head bs)), bs, st'. split; [done|].
  split; [done|]. pose proof (fps_mono _ _ _ Hf) as Hmono.
  unfold zlen in Hmono. rewrite Hlen, Z2Nat.id in Hmono by lia.
  split; [|split; [apply (fps_new _ _ _ Hf)|split; [lia|split; [|by rewrite Efsm]]]].
  - split; [done|done| |apply (fps_nodup _ _ _ Hf)| |lia].
    + rewrite index_chunks_concat; [by rewrite Z.mul_0_l, drop_0|..].
      * simpl. rewrite Hlen, Z2Nat.id by lia. nia.
      * intros j Hj. rewrite Hlen in Hj. nia.
    + eapply Forall_impl; [apply (fps_in _ _ _ Hf)|]. simpl. lia.
  - intros b Hb Hni. assert (Hnb : b ∉ bs).
    { intros Hx. pose proof (fps_new _ _ _ Hf) as Hnew. rewrite Forall_forall in Hnew.
      destruct (Hnew b Hx) as [?|?]; [done|]. unfold in_relation in Hb. lia. }
    rewrite Hkeep by (unfold in_relation in Hb; (lia || done)). by apply (fps_keep _ _ _ Hf).
Qed.
End PageIndexFacts.

(** ** The claims *)

Section Properties.
Context `{PgLayoutLaws} `{FreeSpaceMapLaws}.

(** A new reader on the pages that were loaded. *)
Definition fresh_reader (st : Storage) (root : Z) (header : TpSegmentHeader)
    (page_map : list Z) : TpSegmentReader :=
  mkSegmentReader root header page_map (zlen page_map) (nblocks st) None UINT32_MAX
    None None false.

Lemma fresh_reader_ok st root header blocks :
  Forall (in_relation st) blocks -> reader_ok st blocks (fresh_reader st root header blocks).
Proof.
  intros HF. split; try done. eapply Forall_impl; [exact HF|]. intros b Hb. split; [done|apply Hb].
Qed.

(** C6: writing then reading.  Whatever sequence of writes is made, the writer
    and the page index succeed, the page map is loaded back as the list of pages
    the writer allocated, and a reader on it returns every byte range exactly as
    it was written, across page boundaries. *)
Theorem segment_written_is_read_back (st : Storage) (chunks : list (list byte)) :
  storage_wf st -> zlen (concat chunks) < 2 ^ 32 - SEGMENT_DATA_PER_PAGE ->
  exists st1 w1 st2 w st3,
    tp_segment_writer_init st = Ok (st1, w1) /\
    write_all st1 w1 chunks = Ok (st2, w) /\
    tp_segment_writer_finish st2 w = Ok st3 /\
    w_current_offset w = zlen (concat chunks) /\
    (nblocks st3 + num_index_pages (w_pages w) <= InvalidBlockNumber ->
     exists root st4,
       write_page_index st3 (w_pages w) = Ok (root, st4) /\
       load_page_index (S (Z.to_nat (nblocks st4))) st4 root (zlen (w_pages w)) [] =
         Ok (w_pages w) /\
       forall hdr off len, 0 <= off -> 0 <= len -> off + len <= zlen (concat chunks) ->
         exists r', tp_segment_read st4 (fresh_reader st4 root hdr (w_pages w)) off len =
           Ok (sub_list off len (concat chunks), r')).
Proof.
  intros Hwf H32. pose proof data_per_page_pos as HP.
  destruct (tp_segment_writer_init_ok st Hwf) as (st1 & w1 & E1 & Hi1).
  destruct (write_all_ok chunks st1 w1 [] Hi1) as (st2 & w & E2 & Hi2).
  { change (zlen (@nil byte)) with 0. lia. }
  simpl in Hi2. set (data := concat chunks) in *.
  destruct (tp_segment_writer_finish_ok st2 w data Hi2) as (st3 & E3 & Hi3 & Hpre).
  exists st1, w1, st2, w, st3. do 3 (split; [done|]). split.
  { rewrite (wi_offset _ _ _ Hi2). apply wrap_small. pose proof (zlen_nonneg data). lia. }
  intros Hlim. set (bs := w_pages w) in *.
  assert (Hbs : Forall (in_relation st3) bs).
  { eapply Forall_impl; [apply (wi_pages _ _ _ Hi3)|]. unfold in_relation. intros b [? _]. lia. }
  destruct (write_page_index_ok st3 bs (wi_storage _ _ _ Hi3) Hlim)
    as (root & ibs & st4 & E4 & Hwf4 & Hidx & _ & Hmono & Hkeep).
  assert (Hbs4 : Forall (in_relation st4) bs).
  { eapply Forall_impl; [exact Hbs|]. unfold in_relation. intros b Hb. lia. }
  exists root, st4. split; [done|]. split; [by eapply page_index_load|].
  intros hdr off len Hoff Hlen Hin.
  assert (Estream : stream st4 bs = stream st3 bs).
  { apply stream_ext. intros b Hb. pose proof (wi_pages _ _ _ Hi3) as HF.
    rewrite Forall_forall in HF, Hbs. apply page_at_data, Hkeep; [by apply Hbs|]. by apply HF. }
  assert (Hsize : zlen data <= zlen bs * SEGMENT_DATA_PER_PAGE).
  { rewrite <- (length_stream st3 bs (wi_storage _ _ _ Hi3) Hbs), <- Hpre at 1.
    unfold zlen. rewrite length_take. lia. }
  destruct (tp_segment_read_ok st4 bs (fresh_reader st4 root hdr bs) off len) as (r' & E & _);
    try done; try lia.
  { by apply fresh_reader_ok. }
  exists r'. rewrite E. do 2 f_equal.
  rewrite Estream, <- (sub_list_prefix off len (zlen data)) by lia.
  unfold zlen. by rewrite Nat2Z.id, Hpre.
Qed.

(** A read that would end past the last page of the segment is refused with
    an error, wherever it starts; it never returns bytes of another page. *)
Theorem segment_read_past_end_fails (st : Storage) (blocks : list Z) (r : TpSegmentReader)
    (off len : Z) :
  storage_wf st -> reader_ok st blocks r -> 0 <= off -> 0 < len ->
  zlen blocks * SEGMENT_DATA_PER_PAGE < off + len < 2 ^ 32 ->
  tp_segment_read st r off len = Err ERRCODE_INTERNAL_ERROR.
Proof.
  intros Hwf Hok Hoff Hlen Hout. unfold tp_segment_read.
  rewrite <- (segment_read_loop_err st blocks off len (Z.to_nat len) r []);
    rewrite ?Z.add_0_r; try done; try lia; change (zlen (@nil byte)) with 0; lia.
Qed.

Lemma get_direct_ok st blocks r off len :
  storage_wf st -> reader_ok st blocks r -> 0 <= off -> 0 <= len ->
  off + len <= zlen blocks * SEGMENT_DATA_PER_PAGE -> off + len < 2 ^ 32 ->
  off < zlen blocks * SEGMENT_DATA_PER_PAGE ->
  match tp_segment_get_direct st r off len with
  | Ok (Some bytes) => take (Z.to_nat len) bytes = sub_list off len (stream st blocks)
  | Ok None => tp_bytes_remaining_on_page off < len
  | Err _ => False
  end.
Proof.
  intros Hwf Hok Hoff Hlen Hin H32 Hlt. pose proof data_per_page_pos as HP.
  unfold tp_segment_get_direct, tp_bytes_remaining_on_page, tp_page_offset, tp_logical_page.
  pose proof (Z.div_mod off SEGMENT_DATA_PER_PAGE) as Hdm. specialize (Hdm ltac:(lia)).
  pose proof (Z.mod_pos_bound off SEGMENT_DATA_PER_PAGE HP) as Hmod.
  set (k := off / SEGMENT_DATA_PER_PAGE) in *. set (po := off mod SEGMENT_DATA_PER_PAGE) in *.
  assert (Hk : 0 <= k < zlen blocks) by nia.
  rewrite (wrap_small 32) by nia.
  destruct (Z.ltb_spec SEGMENT_DATA_PER_PAGE (po + len)) as [L|L]; [lia|].
  rewrite (ro_num _ _ _ Hok), (proj2 (Z.leb_gt _ _)) by lia.
  destruct (zget_is_Some blocks k Hk) as [b Hb]. unfold zread.
  rewrite (ro_map _ _ _ Hok), Hb. cbn [mbind res_bind].
  assert (HF : Forall (in_relation st) blocks) by (by eapply blocks_in_relation).
  assert (Hbr : in_relation st b)
    by (rewrite zget_lookup in Hb by lia; by apply (Forall_lookup_1 _ _ _ _ HF Hb)).
  destruct (ReadBuffer_ok st b Hbr) as (p & -> & Hp). cbn [mbind res_bind].
  replace off with (k * SEGMENT_DATA_PER_PAGE + po) by lia.
  rewrite (stream_page_slice st blocks k b po len) by (done || lia).
  unfold page_data, page_at. by rewrite Hp.
Qed.

(** Zero-copy access agrees with reading.  When the range fits on one page
    the direct pointer gives the same bytes as a read, otherwise the access is
    declined, and in both cases [tp_segment_read] is unaffected. *)
Theorem direct_access_agrees_with_read (st : Storage) (blocks : list Z) (r : TpSegmentReader)
    (off len : Z) :
  storage_wf st -> reader_ok st blocks r -> 0 <= off -> 0 <= len ->
  off + len <= zlen blocks * SEGMENT_DATA_PER_PAGE -> off + len < 2 ^ 32 ->
  off < zlen blocks * SEGMENT_DATA_PER_PAGE ->
  exists r', tp_segment_read st r off len = Ok (sub_list off len (stream st blocks), r') /\
    reader_ok st blocks r' /\
    match tp_segment_get_direct st r off len with
    | Ok (Some bytes) => take (Z.to_nat len) bytes = sub_list off len (stream st blocks)
    | Ok None => tp_bytes_remaining_on_page off < len
    | Err _ => False
    end.
Proof.
  intros Hwf Hok Hoff Hlen Hin H32 Hlt.
  destruct (tp_segment_read_ok st blocks r off len Hwf Hok) as (r' & E & Hok'); try done.
  exists r'. split; [done|]. split; [done|]. by apply get_direct_ok.
Qed.

(** *** Parallel builds: several workers, one page pool

    A schedule lists the worker that allocates next; the storage (with the
    atomic counter) is shared, each worker has its own writer. *)
Fixpoint pool_run (st : Storage) (ws : list TpSegmentWriter) (sched : list nat)
    : res (Storage * list TpSegmentWriter) :=
  match sched with
  | [] => Ok (st, ws)
  | i :: sched' =>
      match ws !! i with
      | None => Err OUT_OF_BOUNDS_ACCESS
      | Some w =>
          '(st1, w1) ← tp_segment_writer_allocate_page st w;
          pool_run st1 (<[i := w1]> ws) sched'
      end
  end.

Lemma concat_pages_insert ws i w b :
  ws !! i = Some w ->
  concat (w_pages <$> <[i := with_pages w (w_pages w ++ [b])]> ws) ≡ₚ
  b :: concat (w_pages <$> ws).
Proof.
  intros Hi. rewrite insert_take_drop by (by eapply lookup_lt_Some).
  rewrite <- (take_drop_middle ws i w Hi) at 3.
  rewrite !fmap_app, !concat_app. csimpl. simpl.
  rewrite <- (app_assoc (w_pages w)). cbn [app]. by rewrite <- !Permutation_middle.
Qed.

Lemma pool_run_ok pool sched : forall st ws k,
  Forall (fun w => w_page_pool w = Some pool) ws ->
  Forall (fun i => (i < length ws)%nat) sched ->
  pool_next st = k -> 0 <= k -> k + zlen sched < 2 ^ 32 ->
  exists st' ws', pool_run st ws sched = Ok (st', ws') /\
    concat (w_pages <$> ws') ≡ₚ
      concat (w_pages <$> ws) ++ sub_list k (zlen sched) pool ++
      seqZ (nblocks st) (zlen sched - (zlen pool - k) `max` 0).
Proof.
  induction sched as [|i sched IH]; intros st ws k Hws Hs Hk Hk0 H32; simpl.
  { exists st, ws. split; [done|]. rewrite seqZ_nil by (change (zlen (@nil nat)) with 0; lia).
    unfold sub_list. simpl. by rewrite app_nil_r. }
  apply Forall_cons in Hs as [Hi Hs]. rewrite zlen_cons in *. pose proof (zlen_nonneg sched).
  destruct (lookup_lt_is_Some_2 ws i Hi) as [w Hw]. rewrite Hw.
  unfold tp_segment_writer_allocate_page.
  rewrite (Forall_lookup_1 _ _ _ _ Hws Hw), Hk, (wrap_small 32) by lia.
  assert (Hws' : forall b, Forall (fun w => w_page_pool w = Some pool)
                   (<[i := with_pages w (w_pages w ++ [b])]> ws)).
  { intros b. apply Forall_insert; [done|]. simpl. by apply (Forall_lookup_1 _ _ _ _ Hws Hw). }
  assert (Hs' : forall b, Forall (fun j => (j < length (<[i := with_pages w (w_pages w ++ [b])]> ws))%nat) sched).
  { intros b. by rewrite length_insert. }
  destruct (Z.ltb_spec k (zlen pool)) as [L|L].
  - destruct (zget_is_Some pool k ltac:(lia)) as [b Hb]. unfold zread. rewrite Hb.
    cbn [mbind res_bind].
    destruct (IH (mkStorage (st_pages st) (st_fsm st) (k + 1)) _ (k + 1) (Hws' b) (Hs' b))
      as (st' & ws' & E & Hp); [done|lia|lia|].
    exists st', ws'. split; [exact E|]. rewrite Hp, (concat_pages_insert _ _ _ b Hw).
    rewrite sub_list_split by lia.
    assert (Hone : sub_list k 1 pool = [b]).
    { rewrite zget_lookup in Hb by lia. unfold sub_list. by rewrite (drop_S _ _ _ Hb). }
    rewrite Hone. change (nblocks (mkStorage _ _ _)) with (nblocks st).
    replace (1 + zlen sched - (zlen pool - k) `max` 0) with
      (zlen sched - (zlen pool - (k + 1)) `max` 0) by lia.
    simpl. rewrite <- Permutation_middle. simpl. done.
  - cbn [mbind res_bind extend_relation].
    set (st1 := mkStorage (st_pages st) (st_fsm st) (k + 1)).
    destruct (IH (extend_relation st1 (PageInit 0)).2 _ (k + 1) (Hws' (nblocks st1)) (Hs' (nblocks st1)))
      as (st' & ws' & E & Hp); [done|lia|lia|].
    exists st', ws'. split; [exact E|].
    assert (En : nblocks (extend_relation st1 (PageInit 0)).2 = nblocks st + 1)
      by (unfold nblocks; simpl; by rewrite zlen_app).
    rewrite En in Hp.
    rewrite Hp, (concat_pages_insert _ _ _ (nblocks st1) Hw).
    assert (Hnil : forall k' n, zlen pool <= k' -> sub_list k' n pool = []).
    { intros k' n Hk'. unfold sub_list. rewrite drop_ge by (unfold zlen in Hk'; lia).
      by rewrite take_nil. }
    rewrite !Hnil by lia. simpl.
    replace ((zlen pool - k) `max` 0) with 0 by lia.
    replace ((zlen pool - (k + 1)) `max` 0) with 0 by lia.
    change (nblocks st1) with (nblocks st).
    rewrite (seqZ_cons (nblocks st)) by lia.
    rewrite <- Permutation_middle. unfold Z.succ, Z.pred. by replace (1 + zlen sched - 0 + -1) with (zlen sched - 0) by lia.
Qed.

(** C7: in a parallel build, however the workers interleave, each page of the
    pool goes to at most one worker, pages are taken in pool order, and when the
    pool is exhausted the further pages are new blocks of the relation: together
    the workers hold a duplicate-free list of pages. *)
Theorem pool_pages_are_exclusive (st : Storage) (pool : list Z)
    (ws : list TpSegmentWriter) (sched : list nat) :
  pool_next st = 0 -> NoDup pool -> Forall (in_relation st) pool ->
  Forall (fun w => w_page_pool w = Some pool /\ w_pages w = []) ws ->
  Forall (fun i => (i < length ws)%nat) sched -> zlen sched < 2 ^ 32 ->
  exists st' ws', pool_run st ws sched = Ok (st', ws') /\
    concat (w_pages <$> ws') ≡ₚ
      take (length sched) pool ++ seqZ (nblocks st) (zlen sched - zlen pool) /\
    NoDup (concat (w_pages <$> ws')).
Proof.
  intros Hk Hnd Hin Hws Hs H32.
  destruct (pool_run_ok pool sched st ws 0) as (st' & ws' & E & Hp); try done.
  { eapply Forall_impl; [exact Hws|]. by intros w []. }
  assert (E0 : concat (w_pages <$> ws) = []).
  { clear -Hws. induction Hws as [|w ws [_ Hw] Hws IH]; csimpl; [done|]. by rewrite Hw, IH. }
  rewrite E0 in Hp. unfold sub_list in Hp. simpl in Hp. rewrite drop_0 in Hp.
  replace (Z.to_nat (zlen sched)) with (length sched) in Hp by (unfold zlen; lia).
  replace (zlen sched - (zlen pool - 0) `max` 0) with (zlen sched - zlen pool) in Hp
    by (pose proof (zlen_nonneg pool); lia).
  exists st', ws'. split; [done|]. split; [done|]. rewrite Hp.
  apply NoDup_app. split; [|split; [|apply NoDup_seqZ]].
  - apply sublist_NoDup with pool; [done|apply sublist_take].
  - intros b Hb Hx. apply elem_of_seqZ in Hx. rewrite Forall_forall in Hin.
    assert (b ∈ pool) as Hbp by (eapply elem_of_submseteq; [exact Hb|]; apply sublist_submseteq, sublist_take).
    apply Hin in Hbp. unfold in_relation in Hbp. lia.
Qed.
End Properties.

(** ** Witnesses: pages of 40 bytes *)

Section Witnesses.
#[local] Existing Instances small_layout small_layout_laws first_fit first_fit_laws.

Definition demo_storage : Storage :=
  mkStorage (replicate 4 (PageInit 0)) [3; 2] 0.

Lemma demo_storage_wf : storage_wf demo_storage.
Proof.
  split.
  - forall_compute.
  - forall_compute.
  - by apply (bool_decide_unpack _); vm_compute.
  - done.
Qed.

Definition demo_chunks : list (list byte) :=
  [encode_array u32_bytes (seqZ 0 15); encode_array u32_bytes (seqZ 15 25); [x01; x02; x03]].

Lemma segment_written_is_read_back_witness :
  exists st1 w1 st2 w,
    tp_segment_writer_init demo_storage = Ok (st1, w1) /\
    write_all st1 w1 demo_chunks = Ok (st2, w) /\ w_pages w = [3; 2; 4; 5; 6].
Proof.
  destruct (segment_written_is_read_back demo_storage demo_chunks demo_storage_wf)
    as (st1 & w1 & st2 & w & st3 & E1 & E2 & _ & _ & _); [vm_compute; reflexivity|].
  exists st1, w1, st2, w. split; [exact E1|]. split; [exact E2|].
  vm_compute in E1. injection E1 as <- <-. vm_compute in E2. injection E2 as <- <-. reflexivity.
Defined.

Definition demo_header : TpSegmentHeader := decode_header [].

Lemma segment_read_past_end_fails_witness :
  tp_segment_read demo_storage (fresh_reader demo_storage 1 demo_header [1; 2]) 70 20 =
    Err ERRCODE_INTERNAL_ERROR.
Proof.
  apply (segment_read_past_end_fails demo_storage [1; 2]); [apply demo_storage_wf| |lia..|].
  - apply fresh_reader_ok. forall_compute.
  - vm_compute. split; reflexivity.
Defined.

Lemma direct_access_agrees_with_read_witness :
  tp_segment_get_direct demo_storage (fresh_reader demo_storage 1 demo_header [1; 2]) 35 10 =
    Ok None /\ tp_bytes_remaining_on_page 35 < 10.
Proof.
  split; [reflexivity|].
  destruct (direct_access_agrees_with_read demo_storage [1; 2]
    (fresh_reader demo_storage 1 demo_header [1; 2]) 35 10 demo_storage_wf)
    as (r' & _ & _ & H).
  - apply fresh_reader_ok. forall_compute.
  - lia.
  - lia.
  - by vm_compute.
  - by vm_compute.
  - by vm_compute.
  - exact H.
Defined.

Lemma pool_pages_are_exclusive_witness :
  exists st' ws',
    pool_run demo_storage
      (replicate 2 (mkSegmentWriter [] 0 [] 0 24 (Some [1; 3]))) [0; 1; 1; 0]%nat =
        Ok (st', ws') /\ concat (w_pages <$> ws') ≡ₚ [1; 3; 4; 5].
Proof.
  destruct (pool_pages_are_exclusive demo_storage [1; 3]
    (replicate 2 (mkSegmentWriter [] 0 [] 0 24 (Some [1; 3]))) [0; 1; 1; 0]%nat)
    as (st' & ws' & E & Hp & _).
  - done.
  - by apply (bool_decide_unpack _); vm_compute.
  - forall_compute.
  - repeat constructor.
  - repeat constructor.
  - done.
  - exists st', ws'. split; [exact E|exact Hp].
Defined.
End Witnesses.
