(* ===== verification/Docmap.v ===== *)
(** * Document identifiers of a segment (src/segment/docmap.c, docmap.h)

    While a segment is built, [TpDocMapBuilder] collects its documents in a hash
    table keyed by CTID; [tp_docmap_finalize] sorts them, renumbers them and
    fills the arrays that are written to the segment.

    Main results: the numbering is a bijection at every moment; after finalize
    it is the rank of the document in (tenant, CTID) order, and the arrays, the
    lookups and the tenant ranges agree with it.  The run detection ends with a
    sentinel tenant, so the run of that tenant is lost (shown at the end). *)
From S2P Require Import Prelude Postgres Fieldnorm.

Record TpDocMapEntry := mkDocMapEntry {
  dme_ctid : ItemPointerData;
  dme_doc_id : Z;
  dme_doc_length : Z;
  dme_tenant_id : Z;
}.

Record TpDocMapTenantRange := mkTenantRange {
  tr_tenant_id : Z;
  tr_first_doc_id : Z;
  tr_doc_count : Z;
}.

(** A C array that is NULL until it is allocated is an option. *)
Record TpDocMapBuilder := mkDocMapBuilder {
  ctid_to_id : gmap ItemPointerData TpDocMapEntry;
  num_docs : Z;
  finalized : bool;
  ctid_pages : list Z;
  ctid_offsets : list Z;
  fieldnorms : list Z;
  tenant_ids : option (list Z);
  tenant_ranges : list TpDocMapTenantRange;
  tenant_ordered : bool;
}.

Section Docmap.
Context `{ItemPointerOps} `{QSort} `{HashSeq}.

Definition tp_docmap_create : TpDocMapBuilder :=
  mkDocMapBuilder ∅ 0 false [] [] [] None [] false.

(** [hash_search] with [HASH_ENTER]; the guard comes before the search. *)
Definition tp_docmap_add (builder : TpDocMapBuilder) (ctid : ItemPointerData)
    (doc_length tenant_id : Z) : res (Z * TpDocMapBuilder) :=
  if UINT32_MAX - 1 <=? num_docs builder then Err ERRCODE_PROGRAM_LIMIT_EXCEEDED
  else match ctid_to_id builder !! ctid with
  | Some entry => Ok (dme_doc_id entry, builder)
  | None =>
      let entry := mkDocMapEntry ctid (num_docs builder) doc_length tenant_id in
      Ok (num_docs builder,
          mkDocMapBuilder (<[ctid := entry]> (ctid_to_id builder)) (num_docs builder + 1)
            (finalized builder) (ctid_pages builder) (ctid_offsets builder)
            (fieldnorms builder) (tenant_ids builder) (tenant_ranges builder)
            (tenant_ordered builder))
  end.

Definition tp_docmap_lookup (builder : TpDocMapBuilder) (ctid : ItemPointerData) : Z :=
  match ctid_to_id builder !! ctid with
  | None => UINT32_MAX
  | Some entry => dme_doc_id entry
  end.

Definition docmap_entry_cmp_by_ctid (ea eb : TpDocMapEntry) : Z :=
  ItemPointerCompare (dme_ctid ea) (dme_ctid eb).

Definition docmap_entry_cmp_by_tenant_then_ctid (ea eb : TpDocMapEntry) : Z :=
  if dme_tenant_id ea <? dme_tenant_id eb then -1
  else if dme_tenant_id eb <? dme_tenant_id ea then 1
  else ItemPointerCompare (dme_ctid ea) (dme_ctid eb).

(** The loop that renumbers the documents in the hash table. *)
Definition renumber (m : gmap ItemPointerData TpDocMapEntry)
    (entries : list TpDocMapEntry) : gmap ItemPointerData TpDocMapEntry :=
  foldl (fun m ie =>
      alter (fun he => mkDocMapEntry (dme_ctid he) (Z.of_nat ie.1)
                         (dme_doc_length he) (dme_tenant_id he))
        (dme_ctid ie.2) m)
    m (zip (seq 0 (length entries)) entries).

(** One round of the run detection: ranges so far, run start, run tenant. *)
Definition range_step (st : list TpDocMapTenantRange * Z * Z) (itid : Z * Z) :=
  let '(ranges, run_start, run_tenant) := st in
  let '(i, tid) := itid in
  if negb (tid =? run_tenant) then
    ((if negb (run_tenant =? 0)
      then ranges ++ [mkTenantRange run_tenant run_start (i - run_start)]
      else ranges), i, tid)
  else st.

(** [for (i = 1; i <= num_docs; i++)], [UINT32_MAX] standing for the tenant
    after the last document. *)
Definition compute_tenant_ranges (tids : list Z) : list TpDocMapTenantRange :=
  match tids with
  | [] => []
  | t0 :: rest =>
      (foldl range_step ([], 0, t0)
        (zip (seqZ 1 (zlen tids)) (rest ++ [UINT32_MAX]))).1.1
  end.

Definition tp_docmap_finalize (builder : TpDocMapBuilder) : TpDocMapBuilder :=
  if num_docs builder =? 0 then
    mkDocMapBuilder (ctid_to_id builder) (num_docs builder) true (ctid_pages builder)
      (ctid_offsets builder) (fieldnorms builder) (tenant_ids builder)
      (tenant_ranges builder) (tenant_ordered builder)
  else
    let collected := (hash_seq (ctid_to_id builder)).*2 in
    let has_tenants := existsb (fun e => negb (dme_tenant_id e =? 0)) collected in
    let entries :=
      if has_tenants then qsort docmap_entry_cmp_by_tenant_then_ctid collected
      else qsort docmap_entry_cmp_by_ctid collected in
    mkDocMapBuilder
      (renumber (ctid_to_id builder) entries)
      (num_docs builder) true
      ((fun e => ip_blkid (dme_ctid e)) <$> entries)
      ((fun e => ip_posid (dme_ctid e)) <$> entries)
      ((fun e => encode_fieldnorm (dme_doc_length e)) <$> entries)
      (if has_tenants then Some (dme_tenant_id <$> entries) else tenant_ids builder)
      (if has_tenants then compute_tenant_ranges (dme_tenant_id <$> entries)
       else tenant_ranges builder)
      has_tenants.

(** Lazily allocated, zero-filled. *)
Definition tp_docmap_set_tenant_id (builder : TpDocMapBuilder) (doc_id tenant_id : Z)
    : TpDocMapBuilder :=
  let ids := default (replicate (Z.to_nat (num_docs builder)) 0) (tenant_ids builder) in
  mkDocMapBuilder (ctid_to_id builder) (num_docs builder) (finalized builder)
    (ctid_pages builder) (ctid_offsets builder) (fieldnorms builder)
    (Some (<[Z.to_nat doc_id := tenant_id]> ids)) (tenant_ranges builder)
    (tenant_ordered builder).

Definition tp_docmap_get_tenant_id (builder : TpDocMapBuilder) (doc_id : Z) : Z :=
  match tenant_ids builder with
  | None => 0
  | Some ids => if num_docs builder <=? doc_id then 0 else default 0 (zget ids doc_id)
  end.

Definition tp_docmap_get_ctid (builder : TpDocMapBuilder) (doc_id : Z)
    : option ItemPointerData :=
  match zget (ctid_pages builder) doc_id, zget (ctid_offsets builder) doc_id with
  | Some p, Some o => Some (mkItemPointer p o)
  | _, _ => None
  end.

Definition tp_docmap_get_fieldnorm (builder : TpDocMapBuilder) (doc_id : Z) : Z :=
  if num_docs builder <=? doc_id then 0 else default 0 (zget (fieldnorms builder) doc_id).

Definition tp_docmap_get_tenant_ranges (builder : TpDocMapBuilder)
    : list TpDocMapTenantRange * Z :=
  (tenant_ranges builder, zlen (tenant_ranges builder)).
End Docmap.

(** ** The numbering while documents are added *)

Section Adding.
Implicit Types b : TpDocMapBuilder.

(** Document ids are exactly 0 .. num_docs-1, each held by one CTID. *)
Record docmap_wf b : Prop := {
  wf_size : num_docs b = Z.of_nat (size (ctid_to_id b));
  wf_key : forall c e, ctid_to_id b !! c = Some e -> dme_ctid e = c;
  wf_range : forall c e, ctid_to_id b !! c = Some e -> 0 <= dme_doc_id e < num_docs b;
  wf_inj : forall c e c' e', ctid_to_id b !! c = Some e -> ctid_to_id b !! c' = Some e' ->
    dme_doc_id e = dme_doc_id e' -> c = c';
  wf_limit : num_docs b <= UINT32_MAX - 1;
}.

Lemma docmap_create_wf : docmap_wf tp_docmap_create.
Proof.
  split; simpl; intros; rewrite ?lookup_empty in *; try done; by rewrite map_size_empty.
Qed.

Lemma docmap_add_wf b ctid len tenant id b' :
  docmap_wf b -> tp_docmap_add b ctid len tenant = Ok (id, b') -> docmap_wf b'.
Proof.
  intros [Hs Hk Hr Hi Hl]. unfold tp_docmap_add.
  destruct (Z.leb_spec (UINT32_MAX - 1) (num_docs b)) as [|Hlim]; [done|].
  destruct (ctid_to_id b !! ctid) as [e|] eqn:E; intros [= <- <-]; [by split|].
  split; simpl.
  - rewrite map_size_insert_None by done. lia.
  - intros c e'. rewrite lookup_insert_Some. intros [[<- <-]|[_ ?]]; [done|eauto].
  - intros c e'. rewrite lookup_insert_Some. intros [[<- <-]|[_ H']]; simpl; [lia|].
    apply Hr in H'. lia.
  - intros c e1 c' e2. rewrite !lookup_insert_Some.
    intros [[<- <-]|[_ H1]] [[<- <-]|[_ H2]]; simpl; try done.
    + apply Hr in H2. lia.
    + apply Hr in H1. lia.
    + eauto.
  - lia.
Qed.
End Adding.

(** ** Finalize *)

Section Finalize.
Context `{ItemPointerLaws} `{QSortLaws} `{HashSeqLaws}.

Definition set_doc_id (i : nat) (e : TpDocMapEntry) : TpDocMapEntry :=
  mkDocMapEntry (dme_ctid e) (Z.of_nat i) (dme_doc_length e) (dme_tenant_id e).

Lemma renumber_from (m : gmap ItemPointerData TpDocMapEntry) es (k : nat) c :
  NoDup (dme_ctid <$> es) ->
  foldl (fun m ie => alter (set_doc_id ie.1) (dme_ctid ie.2) m) m
    (zip (seq k (length es)) es) !! c =
  match list_find (fun e => dme_ctid e = c) es with
  | Some (i, _) => set_doc_id (k + i) <$> m !! c
  | None => m !! c
  end.
Proof.
  revert m k. induction es as [|e es IH]; intros m k Hnd; [done|].
  rewrite fmap_cons in Hnd. apply NoDup_cons in Hnd as [Hni Hnd]. simpl.
  rewrite IH by done. destruct (decide (dme_ctid e = c)) as [<-|Hne].
  - rewrite (proj2 (list_find_None _ es)).
    + rewrite lookup_alter_eq. by rewrite Nat.add_0_r.
    + apply Forall_forall. intros e' He' E. apply Hni. rewrite <- E.
      by apply list_elem_of_fmap_2.
  - rewrite lookup_alter_ne by done.
    destruct (list_find _ es) as [[i e']|]; simpl; [|done].
    by rewrite Nat.add_succ_r.
Qed.

Lemma renumber_lookup (m : gmap ItemPointerData TpDocMapEntry) es (i : nat) e :
  NoDup (dme_ctid <$> es) -> es !! i = Some e ->
  renumber m es !! dme_ctid e = set_doc_id i <$> m !! dme_ctid e.
Proof.
  intros Hnd Hi. unfold renumber.
  change (fun m ie => alter _ _ m) with
    (fun (m : gmap ItemPointerData TpDocMapEntry) (ie : nat * TpDocMapEntry) =>
       alter (set_doc_id ie.1) (dme_ctid ie.2) m).
  rewrite renumber_from by done.
  rewrite (proj2 (list_find_Some (fun e' => dme_ctid e' = dme_ctid e) es i e)); [done|].
  split; [done|]. split; [done|]. intros j y Hj Hlt E.
  apply (NoDup_lookup (dme_ctid <$> es) j i (dme_ctid e)) in Hnd; [lia|..];
    rewrite list_lookup_fmap; [by rewrite Hj, <- E|by rewrite Hi].
Qed.

(** The order of the documents of a finalized map. *)
Definition doc_before (e1 e2 : TpDocMapEntry) : Prop :=
  dme_tenant_id e1 < dme_tenant_id e2 \/
  (dme_tenant_id e1 = dme_tenant_id e2 /\ ip_lt (dme_ctid e1) (dme_ctid e2)).

Lemma cmp_by_tenant_le e1 e2 :
  docmap_entry_cmp_by_tenant_then_ctid e1 e2 <= 0 <-> ~ doc_before e2 e1.
Proof.
  unfold docmap_entry_cmp_by_tenant_then_ctid, doc_before.
  destruct (Z.ltb_spec (dme_tenant_id e1) (dme_tenant_id e2)); [lia|].
  destruct (Z.ltb_spec (dme_tenant_id e2) (dme_tenant_id e1)); [lia|].
  rewrite ItemPointerCompare_le. unfold ip_lt. lia.
Qed.

Lemma cmp_by_tenant_comparator l : comparator_on docmap_entry_cmp_by_tenant_then_ctid l.
Proof.
  split; intros; rewrite !cmp_by_tenant_le in *; unfold doc_before, ip_lt in *; lia.
Qed.

Lemma cmp_by_ctid_comparator l : comparator_on docmap_entry_cmp_by_ctid l.
Proof.
  unfold docmap_entry_cmp_by_ctid. split; intros *.
  - intros _ _. apply (ItemPointerCompare_comparator [dme_ctid a; dme_ctid b]); set_solver.
  - intros _ _ _. apply (ItemPointerCompare_comparator [dme_ctid a; dme_ctid b; dme_ctid c]);
      set_solver.
Qed.

Definition has_tenants (b : TpDocMapBuilder) : bool :=
  existsb (fun e => negb (dme_tenant_id e =? 0)) (hash_seq (ctid_to_id b)).*2.

(** The sorted entries of [tp_docmap_finalize]. *)
Definition sorted_entries (b : TpDocMapBuilder) : list TpDocMapEntry :=
  if has_tenants b then qsort docmap_entry_cmp_by_tenant_then_ctid (hash_seq (ctid_to_id b)).*2
  else qsort docmap_entry_cmp_by_ctid (hash_seq (ctid_to_id b)).*2.

Lemma sorted_entries_perm b : sorted_entries b ≡ₚ (map_to_list (ctid_to_id b)).*2.
Proof.
  unfold sorted_entries. case_match; rewrite qsort_perm; by rewrite hash_seq_perm.
Qed.

Lemma elem_of_sorted_entries b e : docmap_wf b ->
  e ∈ sorted_entries b <-> ctid_to_id b !! dme_ctid e = Some e.
Proof.
  intros Hwf. rewrite sorted_entries_perm, list_elem_of_fmap. split.
  - intros ([c e'] & -> & Hc). apply elem_of_map_to_list in Hc. simpl.
    by rewrite (wf_key b Hwf _ _ Hc).
  - intros He. exists (dme_ctid e, e). split; [done|]. by apply elem_of_map_to_list.
Qed.

Lemma sorted_entries_keys b : docmap_wf b -> NoDup (dme_ctid <$> sorted_entries b).
Proof.
  intros Hwf. rewrite sorted_entries_perm, <- list_fmap_compose.
  rewrite (list_fmap_ext _ fst (map_to_list (ctid_to_id b))); [apply NoDup_fst_map_to_list|].
  intros i [c e] Hi. simpl. apply (wf_key b Hwf).
  apply elem_of_map_to_list. by eapply list_elem_of_lookup_2.
Qed.

Lemma length_sorted_entries b : docmap_wf b -> zlen (sorted_entries b) = num_docs b.
Proof.
  intros Hwf. unfold zlen. rewrite sorted_entries_perm, length_fmap, length_map_to_list.
  by rewrite (wf_size b Hwf).
Qed.

Lemma no_tenants b e : has_tenants b = false -> e ∈ sorted_entries b -> dme_tenant_id e = 0.
Proof.
  unfold has_tenants. intros Ht He.
  assert (He' : e ∈ (hash_seq (ctid_to_id b)).*2)
    by (by rewrite hash_seq_perm, <- sorted_entries_perm).
  destruct (Z.eqb_spec (dme_tenant_id e) 0) as [|N]; [done|].
  exfalso. apply (not_true_iff_false (existsb _ _)) in Ht. apply Ht.
  apply existsb_exists. exists e. split; [by apply list_elem_of_In|].
  by rewrite (proj2 (Z.eqb_neq _ _) N).
Qed.

(** Positions in the sorted entries follow [doc_before]. *)
Lemma sorted_entries_order b (i j : nat) ei ej :
  docmap_wf b -> sorted_entries b !! i = Some ei -> sorted_entries b !! j = Some ej ->
  (i < j)%nat <-> doc_before ei ej.
Proof.
  intros Hwf.
  assert (Hlt : forall (i j : nat) ei ej, sorted_entries b !! i = Some ei ->
    sorted_entries b !! j = Some ej -> (i < j)%nat -> doc_before ei ej).
  { clear i j ei ej. intros i j ei ej Hi Hj Hij.
    assert (Hne : dme_ctid ei <> dme_ctid ej).
    { intros E. pose proof (sorted_entries_keys b Hwf) as Hnd.
      apply (NoDup_lookup _ i j (dme_ctid ei)) in Hnd; [lia|..];
        rewrite list_lookup_fmap; [by rewrite Hi|by rewrite Hj, E]. }
    assert (Hnb : ~ doc_before ej ei).
    { assert (Hi' := list_elem_of_lookup_2 _ _ _ Hi). assert (Hj' := list_elem_of_lookup_2 _ _ _ Hj).
      pose proof (no_tenants b ei) as Ti. pose proof (no_tenants b ej) as Tj.
      unfold sorted_entries in Hi, Hj, Hi', Hj', Ti, Tj. destruct (has_tenants b).
      - rewrite <- cmp_by_tenant_le.
        apply (StronglySorted_lookup (cmp_le docmap_entry_cmp_by_tenant_then_ctid) _ i j _ _
          (qsort_sorted _ _ _ (cmp_by_tenant_comparator _)) Hi Hj Hij).
      - rewrite <- cmp_by_tenant_le. unfold docmap_entry_cmp_by_tenant_then_ctid.
        rewrite Ti, Tj by done. simpl.
        apply (StronglySorted_lookup (cmp_le docmap_entry_cmp_by_ctid) _ i j _ _
          (qsort_sorted _ _ _ (cmp_by_ctid_comparator _)) Hi Hj Hij). }
    unfold doc_before in *. destruct (ip_lt_total (dme_ctid ei) (dme_ctid ej)) as [|[|]];
      [unfold ip_lt in *; lia|done|unfold ip_lt in *; lia]. }
  intros Hi Hj. split; [by apply Hlt|]. intros Hb.
  destruct (Nat.lt_trichotomy i j) as [|[->|Hgt]]; [done|exfalso..].
  - simplify_eq. unfold doc_before, ip_lt in Hb. lia.
  - pose proof (Hlt j i ej ei Hj Hi Hgt) as Hb'. unfold doc_before, ip_lt in *. lia.
Qed.

Lemma finalize_fields b : num_docs b <> 0 ->
  tp_docmap_finalize b =
    mkDocMapBuilder (renumber (ctid_to_id b) (sorted_entries b)) (num_docs b) true
      ((fun e => ip_blkid (dme_ctid e)) <$> sorted_entries b)
      ((fun e => ip_posid (dme_ctid e)) <$> sorted_entries b)
      ((fun e => encode_fieldnorm (dme_doc_length e)) <$> sorted_entries b)
      (if has_tenants b then Some (dme_tenant_id <$> sorted_entries b) else tenant_ids b)
      (if has_tenants b then compute_tenant_ranges (dme_tenant_id <$> sorted_entries b)
       else tenant_ranges b)
      (has_tenants b).
Proof.
  intros Hn. unfold tp_docmap_finalize. by rewrite (proj2 (Z.eqb_neq _ _) Hn).
Qed.

(** Where a document of the map ends up. *)
Lemma finalize_position b c e :
  docmap_wf b -> ctid_to_id b !! c = Some e ->
  exists i, sorted_entries b !! i = Some e /\ Z.of_nat i < num_docs b /\
    tp_docmap_lookup (tp_docmap_finalize b) c = Z.of_nat i.
Proof.
  intros Hwf He. pose proof (wf_key b Hwf c e He) as <-.
  assert (Hn : num_docs b <> 0) by (pose proof (wf_range b Hwf _ _ He); lia).
  apply elem_of_sorted_entries in He as Hin; [|done].
  apply list_elem_of_lookup in Hin as [i Hi]. exists i. split; [done|].
  pose proof (length_sorted_entries b Hwf) as Hlen.
  pose proof (lookup_lt_Some _ _ _ Hi). unfold zlen in Hlen.
  split; [lia|]. rewrite finalize_fields by done. unfold tp_docmap_lookup. simpl.
  rewrite (renumber_lookup _ _ i e) by (done || by apply sorted_entries_keys).
  by rewrite He.
Qed.

(** C8: finalize numbers the documents in (tenant, CTID) order, and every output
    array agrees with the numbering.  For each collected document the lookup
    gives its rank [d]; position [d] holds its CTID, its encoded length and its
    tenant; two documents are numbered in the order of (tenant, CTID), which
    for an index without tenants is CTID order; and every number below
    [num_docs] is the rank of some document. *)
Theorem docmap_finalize_correct (b : TpDocMapBuilder) :
  docmap_wf b -> tenant_ids b = None ->
  let b' := tp_docmap_finalize b in
  let rank := tp_docmap_lookup b' in
  (forall c e, ctid_to_id b !! c = Some e ->
     0 <= rank c < num_docs b /\
     tp_docmap_get_ctid b' (rank c) = Some c /\
     tp_docmap_get_fieldnorm b' (rank c) = encode_fieldnorm (dme_doc_length e) /\
     tp_docmap_get_tenant_id b' (rank c) = dme_tenant_id e) /\
  (forall c1 e1 c2 e2, ctid_to_id b !! c1 = Some e1 -> ctid_to_id b !! c2 = Some e2 ->
     rank c1 < rank c2 <-> doc_before e1 e2) /\
  (forall d, 0 <= d < num_docs b -> exists c e, ctid_to_id b !! c = Some e /\ rank c = d).
Proof.
  intros Hwf Ht b' rank. unfold rank, b'. split; [|split].
  - intros c e He. destruct (finalize_position b c e Hwf He) as (i & Hi & Hlt & ->).
    pose proof (wf_key b Hwf c e He) as Hc. split; [lia|].
    rewrite finalize_fields by lia.
    unfold tp_docmap_get_ctid, tp_docmap_get_fieldnorm, tp_docmap_get_tenant_id. simpl.
    rewrite !zget_fmap, !zget_nat, Hi. simpl. rewrite (proj2 (Z.leb_gt _ _)) by lia.
    split; [rewrite <- Hc; by destruct (dme_ctid e)|]. split; [done|].
    destruct (has_tenants b) eqn:Ehas.
    + by rewrite zget_fmap, zget_nat, Hi.
    + rewrite Ht. symmetry. apply (no_tenants b e Ehas). by eapply list_elem_of_lookup_2.
  - intros c1 e1 c2 e2 H1' H2'.
    destruct (finalize_position b c1 e1 Hwf H1') as (i & Hi & _ & ->).
    destruct (finalize_position b c2 e2 Hwf H2') as (j & Hj & _ & ->).
    rewrite <- (sorted_entries_order b i j e1 e2 Hwf Hi Hj). lia.
  - intros d Hd. pose proof (length_sorted_entries b Hwf) as Hlen. unfold zlen in Hlen.
    destruct (lookup_lt_is_Some_2 (sorted_entries b) (Z.to_nat d) ltac:(lia)) as [e Hi].
    assert (He : ctid_to_id b !! dme_ctid e = Some e)
      by (apply elem_of_sorted_entries; [done|]; by eapply list_elem_of_lookup_2).
    exists (dme_ctid e), e. split; [done|].
    destruct (finalize_position b _ _ Hwf He) as (j & Hj & _ & ->).
    enough (j = Z.to_nat d) by lia.
    pose proof (sorted_entries_keys b Hwf) as Hnd.
    apply (NoDup_lookup _ j (Z.to_nat d) (dme_ctid e)) in Hnd; [done|..];
      rewrite list_lookup_fmap; [by rewrite Hj|by rewrite Hi].
Qed.
End Finalize.

(** Adding keeps the numbering a bijection with 0 .. num_docs-1; a CTID that
    is present keeps its number and length, a new one gets the next number, and
    at the limit the add is refused before the reserved value is reached. *)
Theorem docmap_add_correct (b : TpDocMapBuilder) (ctid : ItemPointerData) (len tenant : Z) :
  docmap_wf b ->
  match tp_docmap_add b ctid len tenant with
  | Err e => num_docs b = UINT32_MAX - 1 /\ e = ERRCODE_PROGRAM_LIMIT_EXCEEDED
  | Ok (id, b') =>
      docmap_wf b' /\ id < UINT32_MAX /\ tp_docmap_lookup b' ctid = id /\
      (forall c, c <> ctid -> tp_docmap_lookup b' c = tp_docmap_lookup b c) /\
      match ctid_to_id b !! ctid with
      | Some e => id = dme_doc_id e /\ b' = b
      | None => id = num_docs b /\ num_docs b' = num_docs b + 1 /\
                ctid_to_id b' !! ctid = Some (mkDocMapEntry ctid id len tenant)
      end
  end.
Proof.
  intros Hwf. pose proof (wf_limit b Hwf).
  destruct (tp_docmap_add b ctid len tenant) as [[id b']|e] eqn:E.
  - split; [by eapply docmap_add_wf|]. unfold tp_docmap_add in E.
    destruct (Z.leb_spec (UINT32_MAX - 1) (num_docs b)) as [|Hl]; [done|].
    unfold tp_docmap_lookup.
    destruct (ctid_to_id b !! ctid) as [e|] eqn:El; injection E as <- <-.
    + pose proof (wf_range b Hwf _ _ El). rewrite El. split; [lia|done].
    + simpl. rewrite lookup_insert_eq. split; [lia|]. split; [done|].
      split; [|done]. intros c Hc. by rewrite lookup_insert_ne.
  - unfold tp_docmap_add in E. destruct (Z.leb_spec (UINT32_MAX - 1) (num_docs b)).
    + injection E as <-. split; [lia|done].
    + by destruct (ctid_to_id b !! ctid).
Qed.

(** ** Tenant ranges *)

Section Ranges.

(** [rs] describes the documents below [s] of the sorted tenant list [ts]. *)
Definition ranges_for (ts : list Z) (s : Z) (rs : list TpDocMapTenantRange) : Prop :=
  (forall r, r ∈ rs -> tr_tenant_id r <> 0 /\ 0 <= tr_first_doc_id r /\
     0 < tr_doc_count r /\ tr_first_doc_id r + tr_doc_count r <= s /\
     forall d, 0 <= d < s -> zget ts d = Some (tr_tenant_id r) <->
       tr_first_doc_id r <= d < tr_first_doc_id r + tr_doc_count r) /\
  (forall d t, 0 <= d < s -> zget ts d = Some t -> t <> 0 ->
     exists r, r ∈ rs /\ tr_tenant_id r = t) /\
  StronglySorted (fun r1 r2 => tr_tenant_id r1 < tr_tenant_id r2) rs.

Definition run_inv (ts : list Z) (k : Z) (st : list TpDocMapTenantRange * Z * Z) : Prop :=
  0 <= st.1.2 < k /\ ranges_for ts st.1.2 st.1.1 /\
  (forall d, st.1.2 <= d < k -> zget ts d = Some st.2) /\
  (forall d t, 0 <= d < st.1.2 -> zget ts d = Some t -> t < st.2).

Lemma StronglySorted_snoc {A} (R : A -> A -> Prop) l x :
  StronglySorted R l -> (forall y, y ∈ l -> R y x) -> StronglySorted R (l ++ [x]).
Proof.
  intros Hs. induction Hs as [|y l Hs IH Hy]; intros Hx; simpl; [by repeat constructor|].
  constructor.
  - apply IH. intros z Hz. apply Hx. by right.
  - apply Forall_app. split; [done|]. constructor; [|constructor]. apply Hx. by left.
Qed.

Lemma ranges_for_extend ts s k t rs :
  0 <= s < k -> ranges_for ts s rs -> t <> 0 ->
  (forall d, s <= d < k -> zget ts d = Some t) ->
  (forall d t', 0 <= d < s -> zget ts d = Some t' -> t' < t) ->
  ranges_for ts k (rs ++ [mkTenantRange t s (k - s)]).
Proof.
  intros Hs (Hr & Hc & Hso) Ht Hrun Hlt. split; [|split].
  - intros r [Hin|E%list_elem_of_singleton]%elem_of_app; [|subst r]; simpl.
    + destruct (Hr r Hin) as (Hz & Hf & Hcnt & Hle & Hd).
      repeat (split; [lia|]). intros d Hdk.
      destruct (decide (d < s)); [apply Hd; lia|].
      rewrite Hrun by lia. split; [|lia]. intros [= E]. exfalso.
      assert (Hz' : zget ts (tr_first_doc_id r) = Some (tr_tenant_id r)) by (apply Hd; lia).
      apply Hlt in Hz'; lia.
    + repeat (split; [lia|]). intros d Hdk. destruct (decide (d < s)).
      * split; [|lia]. intros Hz%Hlt; lia.
      * rewrite Hrun by lia. split; [lia|done].
  - intros d t' Hd Hz Ht'. destruct (decide (d < s)).
    + destruct (Hc d t' ltac:(lia) Hz Ht') as (r & Hin & E). exists r. set_solver.
    + rewrite Hrun in Hz by lia. injection Hz as <-.
      exists (mkTenantRange t s (k - s)). split; [set_solver|done].
  - apply StronglySorted_snoc; [done|]. intros r Hin. simpl.
    destruct (Hr r Hin) as (_ & Hf & Hcnt & Hle & Hd).
    apply (Hlt (tr_first_doc_id r)); [lia|]. apply Hd; lia.
Qed.

Lemma range_step_inv ts k st t :
  StronglySorted Z.le ts -> 0 < k -> zget ts k = Some t -> run_inv ts k st ->
  run_inv ts (k + 1) (range_step st (k, t)).
Proof.
  intros Hso Hk Hz. destruct st as [[rs s] t0]. intros (Hs & Hr & Hrun & Hlt). simpl in *.
  assert (Hle : forall d t', 0 <= d < k -> zget ts d = Some t' -> t' <= t).
  { intros d t' Hd Hz'. rewrite zget_lookup in Hz, Hz' by lia.
    apply (StronglySorted_lookup _ _ _ _ _ _ Hso Hz' Hz). lia. }
  unfold range_step, run_inv. destruct (Z.eqb_spec t t0) as [->|Hne]; simpl.
  - split; [lia|]. split; [done|]. split; [|done].
    intros d Hd. destruct (decide (d = k)) as [->|]; [done|]. apply Hrun. lia.
  - split; [lia|].
    assert (t0 < t) by (pose proof (Hle s t0 ltac:(lia) (Hrun s ltac:(lia))); lia).
    split; [|split].
    + destruct (Z.eqb_spec t0 0) as [->|]; simpl; [|by apply ranges_for_extend].
      destruct Hr as (Hr & Hc & Hsr). split; [|split; [|done]].
      * intros r Hin. destruct (Hr r Hin) as (Hz0 & Hf & Hcnt & Hfs & Hd).
        repeat (split; [lia|]). intros d Hdk.
        destruct (decide (d < s)); [apply Hd; lia|].
        rewrite Hrun by lia. split; [congruence|lia].
      * intros d t' Hd Hz' Ht'. destruct (decide (d < s)); [apply (Hc d t'); [lia|done|done]|].
        rewrite Hrun in Hz' by lia. congruence.
    + intros d Hd. by replace d with k by lia.
    + intros d t' Hd Hz'. destruct (decide (d < s)).
      * apply Hlt in Hz'; lia.
      * rewrite Hrun in Hz' by lia. injection Hz' as <-. lia.
Qed.

Lemma run_inv_fold ts rest : forall pre st,
  StronglySorted Z.le ts -> ts = pre ++ rest -> 0 < zlen pre ->
  run_inv ts (zlen pre) st ->
  run_inv ts (zlen ts) (foldl range_step st (zip (seqZ (zlen pre) (zlen rest)) rest)).
Proof.
  induction rest as [|t rest IH]; intros pre st Hso -> Hpre Hinv.
  - rewrite app_nil_r in *. done.
  - assert (Hl : forall k, 0 <= k -> seqZ k (zlen (t :: rest)) = k :: seqZ (k + 1) (zlen rest)).
    { intros k Hk. rewrite seqZ_cons by (unfold zlen; simpl; lia).
      do 2 f_equal. unfold zlen. simpl. lia. }
    rewrite Hl by (unfold zlen; lia). simpl.
    assert (Hp : zlen (pre ++ [t]) = zlen pre + 1)
      by (unfold zlen; rewrite length_app; simpl; lia).
    rewrite <- Hp. apply (IH (pre ++ [t])); [done|by rewrite <- app_assoc|lia|].
    rewrite Hp. apply range_step_inv; try done.
    rewrite zget_lookup by lia. unfold zlen. rewrite Nat2Z.id.
    by apply list_lookup_middle.
Qed.

End Ranges.

(** The sentinel of the run detection is itself a tenant id: the documents of
    tenant 4294967295 get no range. *)
Theorem sentinel_tenant_has_no_range :
  compute_tenant_ranges [7; UINT32_MAX; UINT32_MAX] = [mkTenantRange 7 0 1].
Proof. reflexivity. Qed.

(** ** Witnesses *)

Definition demo_docs : list (ItemPointerData * Z * Z) :=
  [(mkItemPointer 5 1, 10, 2); (mkItemPointer 3 2, 100, 7); (mkItemPointer 3 1, 20, 7)].

Definition demo_builder : TpDocMapBuilder :=
  foldl (fun b d => match tp_docmap_add b d.1.1 d.1.2 d.2 with
                    | Ok (_, b') => b' | Err _ => b end) tp_docmap_create demo_docs.

Lemma demo_builder_wf : docmap_wf demo_builder.
Proof.
  unfold demo_builder. cbn [demo_docs foldl].
  repeat match goal with
  | |- docmap_wf (match tp_docmap_add ?b ?c ?l ?t with _ => _ end) =>
      destruct (tp_docmap_add b c l t) as [[? ?]|] eqn:?;
      [eapply docmap_add_wf; [|eassumption]|]
  end; apply docmap_create_wf.
Qed.

Lemma docmap_finalize_correct_witness :
  tp_docmap_lookup (tp_docmap_finalize demo_builder) (mkItemPointer 3 2) = 2 /\
  tp_docmap_get_ctid (tp_docmap_finalize demo_builder) 2 = Some (mkItemPointer 3 2).
Proof.
  assert (E : tp_docmap_lookup (tp_docmap_finalize demo_builder) (mkItemPointer 3 2) = 2)
    by (vm_compute; reflexivity).
  split; [exact E|].
  destruct (docmap_finalize_correct demo_builder demo_builder_wf) as (H & _ & _); [done|].
  destruct (H (mkItemPointer 3 2) (mkDocMapEntry (mkItemPointer 3 2) 1 100 7))
    as (_ & Hc & _); [vm_compute; reflexivity|].
  rewrite E in Hc. exact Hc.
Defined.

Lemma docmap_add_correct_witness :
  exists id, tp_docmap_add demo_builder (mkItemPointer 9 9) 5 0 = Ok id /\ id.1 = 3.
Proof.
  pose proof (docmap_add_correct demo_builder (mkItemPointer 9 9) 5 0 demo_builder_wf) as H.
  destruct (tp_docmap_add demo_builder (mkItemPointer 9 9) 5 0) as [[id b']|e] eqn:E.
  - exists (id, b'). split; [done|]. vm_compute in E. by injection E as <- _.
  - vm_compute in E. discriminate.
Defined.

