(* ===== verification/SegmentScan.v ===== *)
(** * Scanning a segment (src/segment/scan.c)

    Dictionary search, the posting iterator (block loading, next, seek), the
    document frequencies of a chain of segments, and exhaustive scoring.

    The scan code reaches the pages only through a reader.  [SegmentAccess] is
    what it calls, [SegmentAccessLaws] what it relies on: a reader denotes a
    header and a byte stream, and reads return its slices.  The theorems are
    proved against this interface; the instance for [TpSegmentReader] is at the
    end, from the theorems of SegmentIO. *)
From S2P Require Import Prelude Postgres Float4 Fieldnorm SegmentFormat Compression Docmap.

(** ** The interface to a segment *)

Class SegmentAccess (R : Type) := {
  sread : Z -> Z -> rst R (list byte);
  (** address inside the page and bytes from there, when the range is on one page *)
  sdirect : Z -> Z -> rst R (option (Z * list byte));
  sheader : R -> TpSegmentHeader;
  sctids : R -> option (list Z * list Z);
  stenant_id : Z -> rst R Z;
}.

(** [denotes r h s]: reader [r] gives access to the stream [s] with header [h]. *)
Class SegmentAccessLaws (R : Type) `{SegmentAccess R} := {
  denotes : R -> TpSegmentHeader -> list byte -> Prop;
  denotes_header r h s : denotes r h s -> sheader r = h;
  sread_ok r h s off len :
    denotes r h s -> 0 <= off -> 0 <= len -> off + len <= zlen s -> off + len < 2 ^ 32 ->
    runs (fun r' => denotes r' h s /\ sctids r' = sctids r) (sread off len) r (sub_list off len s);
  sdirect_ok r h s off len :
    denotes r h s -> 0 <= off -> 0 <= len -> off + len <= zlen s -> off + len < 2 ^ 32 ->
    off < zlen s ->
    ensures (sdirect off len) r (fun d r' =>
      denotes r' h s /\ sctids r' = sctids r /\
      match d with
      | Some (_, bytes) => take (Z.to_nat len) bytes = sub_list off len s
      | None => True
      end);
}.

Record TpSegmentPosting := mkSegmentPosting {
  sp_ctid : ItemPointerData;
  sp_doc_id : Z;
  sp_frequency : Z;
  sp_doc_length : Z;
}.

(** The pins and buffers behind [block_postings] are not state of the model:
    the pointer is the array of postings it gives access to. *)
Record TpSegmentPostingIterator := mkIterator {
  it_dict_entry_idx : Z;
  it_dict_entry : TpDictEntry;
  it_initialized : bool;
  it_finished : bool;
  it_current_block : Z;
  it_current_in_block : Z;
  it_skip_entry : TpSkipEntry;
  it_block_postings : option (list TpBlockPosting);
}.

Record DocumentScoreEntry := mkDocumentScore {
  dse_score : float4;
  dse_doc_length : float4;
}.

Section Scan.
Context {R : Type} `{SegmentAccess R} `{ItemPointerOps}.

Definition read_u32 (off : Z) : rst R Z := le_value <$> sread (u32 off) 4.

(** ** Dictionary *)

(** The text of the string at [string_offset], as a C string. *)
Definition read_string (string_offset : Z) : rst R (list byte) :=
  len ← read_u32 string_offset;
  text ← sread (u32 (string_offset + 4)) len;
  mret text.

(** The binary search that every lookup function repeats; [get_offset] reads the
    string offset at an index.  The interval shrinks every round. *)
Fixpoint find_term_loop (get_offset : Z -> rst R Z) (strings_offset : Z) (term : list byte)
    (fuel : nat) (left right : Z) : rst R (option Z) :=
  match fuel with
  | O => mret None
  | S fuel' =>
      if left <=? right then
        let mid := left + (right - left) / 2 in
        string_offset_value ← get_offset mid;
        let string_offset := u32 (strings_offset + string_offset_value) in
        text ← read_string string_offset;
        let cmp := strcmp term text in
        if cmp =? 0 then mret (Some mid)
        else if cmp <? 0
        then find_term_loop get_offset strings_offset term fuel' left (mid - 1)
        else find_term_loop get_offset strings_offset term fuel' (mid + 1) right
      else mret None
  end.

Definition find_term (header : TpSegmentHeader) (num_terms : Z) (term : list byte)
    : rst R (option Z) :=
  find_term_loop (fun mid => read_u32 (dictionary_offset header + 4 + mid * 4))
    (strings_offset header) term (S (Z.to_nat num_terms)) 0 (num_terms - 1).

Definition read_dict_entry (header : TpSegmentHeader) (idx : Z) : rst R TpDictEntry :=
  decode_dict_entry <$> sread (u32 (entries_offset header + idx * 12)) 12.

Definition iterator_reset : TpSegmentPostingIterator :=
  mkIterator 0 (mkDictEntry 0 0 0) false true 0 0 (mkSkipEntry 0 0 0 0 0 0 0 0) None.

(** [tp_segment_posting_iterator_init]: whether the term was found. *)
Definition tp_segment_posting_iterator_init (term : list byte)
    : rst R (bool * TpSegmentPostingIterator) :=
  header ← rst_gets sheader;
  if (SegmentFormat.num_terms header =? 0) || (dictionary_offset header =? 0)
  then mret (false, iterator_reset)
  else
    dict_num_terms ← read_u32 (dictionary_offset header);
    found ← find_term header dict_num_terms term;
    match found with
    | None => mret (false, iterator_reset)
    | Some mid =>
        de ← read_dict_entry header mid;
        mret (true, mkIterator mid de true (de_block_count de =? 0) 0 0
                      (it_skip_entry iterator_reset) None)
    end.

(** ** Blocks *)

Definition tp_segment_read_skip_entry (de : TpDictEntry) (block_idx : Z) : rst R TpSkipEntry :=
  decode_skip_entry <$> sread (u32 (de_skip_index_offset de + block_idx * 16)) 16.

Definition decode_postings (n : Z) (bs : list byte) : list TpBlockPosting :=
  decode_array 8 decode_block_posting (Z.to_nat n) bs.

(** The postings of the block of a skip entry: decompressed, or accessed in
    place when the range is on one page and aligned, or copied. *)
Definition read_block (skip : TpSkipEntry) : rst R (list TpBlockPosting) :=
  let block_size := sk_doc_count skip in
  let block_bytes := block_size * 8 in
  if sk_flags skip =? TP_BLOCK_FLAG_DELTA then
    buf ← sread (sk_posting_offset skip) TP_MAX_COMPRESSED_BLOCK_SIZE;
    rst_lift (decompress_block (Z_of_byte <$> buf) (Z.to_nat block_size) 0)
  else
    access ← sdirect (sk_posting_offset skip) block_bytes;
    match access with
    | Some (addr, bytes) =>
        if addr mod 4 =? 0 then mret (decode_postings block_size bytes)
        else decode_postings block_size <$> sread (sk_posting_offset skip) block_bytes
    | None => decode_postings block_size <$> sread (sk_posting_offset skip) block_bytes
    end.

Definition set_position (it : TpSegmentPostingIterator) (finished : bool)
    (block in_block : Z) : TpSegmentPostingIterator :=
  mkIterator (it_dict_entry_idx it) (it_dict_entry it) (it_initialized it) finished
    block in_block (it_skip_entry it) (it_block_postings it).

Definition tp_segment_posting_iterator_load_block (it : TpSegmentPostingIterator)
    : rst R (bool * TpSegmentPostingIterator) :=
  if de_block_count (it_dict_entry it) <=? it_current_block it then mret (false, it)
  else
    skip ← tp_segment_read_skip_entry (it_dict_entry it) (it_current_block it);
    ps ← read_block skip;
    mret (true, mkIterator (it_dict_entry_idx it) (it_dict_entry it) (it_initialized it)
                  (it_finished it) (it_current_block it) 0 skip (Some ps)).

(** The output posting: the CTID is filled in when CTIDs are cached. *)
Definition output_posting (bp : TpBlockPosting) : rst R TpSegmentPosting :=
  cached ← rst_gets sctids;
  let doc_length := u16 (decode_fieldnorm (bp_fieldnorm bp)) in
  match cached with
  | Some (pages, offsets) =>
      p ← rst_lift (zread pages (bp_doc_id bp));
      o ← rst_lift (zread offsets (bp_doc_id bp));
      mret (mkSegmentPosting (mkItemPointer p o) (bp_doc_id bp) (bp_frequency bp) doc_length)
  | None =>
      mret (mkSegmentPosting ItemPointerInvalid (bp_doc_id bp) (bp_frequency bp) doc_length)
  end.

(** [while (current_in_block >= doc_count)]: the block index grows up to the
    block count.  [None] when the iterator is exhausted. *)
Fixpoint advance_block (fuel : nat) (it : TpSegmentPostingIterator)
    : rst R (bool * TpSegmentPostingIterator) :=
  match fuel with
  | O => mret (false, it)
  | S fuel' =>
      if sk_doc_count (it_skip_entry it) <=? it_current_in_block it then
        let it1 := set_position it (it_finished it) (it_current_block it + 1)
                     (it_current_in_block it) in
        if de_block_count (it_dict_entry it) <=? it_current_block it1
        then mret (false, set_position it1 true (it_current_block it1) (it_current_in_block it1))
        else
          '(ok, it2) ← tp_segment_posting_iterator_load_block it1;
          if (ok : bool) then advance_block fuel' it2
          else mret (false, set_position it2 true (it_current_block it2) (it_current_in_block it2))
      else mret (true, it)
  end.

Definition tp_segment_posting_iterator_next (it : TpSegmentPostingIterator)
    : rst R (option TpSegmentPosting * TpSegmentPostingIterator) :=
  if it_finished it || negb (it_initialized it) then mret (None, it)
  else
    '(ok, it1) ←
      match it_block_postings it with
      | None => tp_segment_posting_iterator_load_block it
      | Some _ => mret (true, it)
      end;
    if negb ok
    then mret (None, set_position it1 true (it_current_block it1) (it_current_in_block it1))
    else
      '(ok2, it2) ← advance_block (S (Z.to_nat (de_block_count (it_dict_entry it1)))) it1;
      if negb ok2 then mret (None, it2)
      else
        bp ← rst_lift (zread (default [] (it_block_postings it2)) (it_current_in_block it2));
        out ← output_posting bp;
        mret (Some out, set_position it2 (it_finished it2) (it_current_block it2)
                          (it_current_in_block it2 + 1)).

Definition tp_segment_posting_iterator_current_doc_id (it : TpSegmentPostingIterator) : Z :=
  match it_block_postings it with
  | None => UINT32_MAX
  | Some ps =>
      if it_finished it || negb (it_initialized it) then UINT32_MAX
      else if sk_doc_count (it_skip_entry it) <=? it_current_in_block it then UINT32_MAX
      else match zget ps (it_current_in_block it) with
           | Some bp => bp_doc_id bp
           | None => UINT32_MAX
           end
  end.

(** ** Seek *)

Fixpoint seek_block_loop (fuel : nat) (de : TpDictEntry) (target left right : Z) : rst R Z :=
  match fuel with
  | O => mret left
  | S fuel' =>
      if left <? right then
        let mid := left + (right - left) / 2 in
        skip ← tp_segment_read_skip_entry de mid;
        if sk_last_doc_id skip <? target
        then seek_block_loop fuel' de target (mid + 1) right
        else seek_block_loop fuel' de target left mid
      else mret left
  end.

(** The linear scan inside the block: the first index from [i] whose document
    is not below the target, or the document count. *)
Fixpoint scan_block (ps : list TpBlockPosting) (target i doc_count : Z) (fuel : nat) : res Z :=
  match fuel with
  | O => Ok i
  | S fuel' =>
      if i <? doc_count then
        bp ← zread ps i;
        if target <=? bp_doc_id bp then Ok i else scan_block ps target (i + 1) doc_count fuel'
      else Ok i
  end.

Definition tp_segment_posting_iterator_seek (it : TpSegmentPostingIterator) (target : Z)
    : rst R (option TpSegmentPosting * TpSegmentPostingIterator) :=
  if negb (it_initialized it) || it_finished it then mret (None, it)
  else
    let block_count := de_block_count (it_dict_entry it) in
    target_block ← seek_block_loop (Z.to_nat block_count) (it_dict_entry it) target
                     0 (block_count - 1);
    if block_count <=? target_block
    then mret (None, set_position it true (it_current_block it) (it_current_in_block it))
    else
      '(ok, it1) ← tp_segment_posting_iterator_load_block (set_position it false target_block 0);
      if negb ok
      then mret (None, set_position it1 true (it_current_block it1) (it_current_in_block it1))
      else
        let doc_count := sk_doc_count (it_skip_entry it1) in
        let ps := default [] (it_block_postings it1) in
        i ← rst_lift (scan_block ps target 0 doc_count (Z.to_nat doc_count));
        if i <? doc_count then
          bp ← rst_lift (zread ps i);
          out ← output_posting bp;
          mret (Some out, set_position it1 (it_finished it1) (it_current_block it1) i)
        else
          let next_block := it_current_block it1 + 1 in
          if block_count <=? next_block
          then mret (None, set_position it1 true next_block i)
          else tp_segment_posting_iterator_next (set_position it1 (it_finished it1) next_block 0).

(** ** Tenants *)

(** The binary search over per-term tenant frequencies. *)
Fixpoint find_tenant_df (df_arr : list (Z * Z)) (tenant_id : Z) (fuel : nat) (lo hi : Z)
    : option Z :=
  match fuel with
  | O => None
  | S fuel' =>
      if lo <=? hi then
        let m := lo + (hi - lo) / 2 in
        match zget df_arr m with
        | None => None
        | Some (tid, df) =>
            if tid =? tenant_id then Some df
            else if tid <? tenant_id then find_tenant_df df_arr tenant_id fuel' (m + 1) hi
            else find_tenant_df df_arr tenant_id fuel' lo (m - 1)
        end
      else None
  end.

Definition decode_pair (bs : list byte) : Z * Z :=
  (le_value (take 4 bs), le_value (take 4 (drop 4 bs))).

(** The tenant's frequency for the term at index [mid], if it is listed. *)
Definition read_tenant_df (header : TpSegmentHeader) (mid tenant_id : Z)
    : rst R (option Z) :=
  term_off_val ← read_u32 (tenant_docfreq_offset header + mid * 4);
  let data_off := u32 (tenant_docfreq_offset header
                       + SegmentFormat.num_terms header * 4 + term_off_val) in
  num_tenants ← read_u32 data_off;
  if 0 <? num_tenants then
    bs ← sread (u32 (data_off + 4)) (u32 (num_tenants * 8));
    let df_arr := decode_array 8 decode_pair (Z.to_nat num_tenants) bs in
    mret (find_tenant_df df_arr tenant_id (S (Z.to_nat num_tenants)) 0 (num_tenants - 1))
  else mret None.

Definition decode_range (bs : list byte) : TpDocMapTenantRange :=
  mkTenantRange (le_value (take 4 bs)) (le_value (take 4 (drop 4 bs)))
    (le_value (take 4 (drop 8 bs))).

Fixpoint find_range_loop (ranges_offset tenant_id : Z) (fuel : nat) (lo hi : Z)
    : rst R (option (Z * Z)) :=
  match fuel with
  | O => mret None
  | S fuel' =>
      if lo <=? hi then
        let mid := lo + (hi - lo) / 2 in
        range ← decode_range <$> sread (u32 (ranges_offset + 4 + mid * 12)) 12;
        if tr_tenant_id range =? tenant_id then
          mret (Some (tr_first_doc_id range,
                      u32 (u32 (tr_first_doc_id range + tr_doc_count range) - 1)))
        else if tr_tenant_id range <? tenant_id
        then find_range_loop ranges_offset tenant_id fuel' (mid + 1) hi
        else find_range_loop ranges_offset tenant_id fuel' lo (mid - 1)
      else mret None
  end.

(** [tp_segment_get_tenant_doc_range]: the inclusive range, if there is one. *)
Definition tp_segment_get_tenant_doc_range (tenant_id : Z) : rst R (option (Z * Z)) :=
  header ← rst_gets sheader;
  if (Z.land (flags header) TP_FLAG_TENANT_ORDERED =? 0) || (tenant_ranges_offset header =? 0)
  then mret None
  else
    num_ranges ← read_u32 (tenant_ranges_offset header);
    if num_ranges =? 0 then mret None
    else find_range_loop (tenant_ranges_offset header) tenant_id (S (Z.to_nat num_ranges))
           0 (num_ranges - 1).
End Scan.

(** ** A chain of segments *)

Section Chain.
Context {R : Type} `{SegmentAccess R} `{ItemPointerOps}.
(** [tp_segment_open_ex] on a block, with or without CTIDs; [None] is NULL. *)
Context (segment_open : Z -> bool -> res (option R)).
(** The number of segments that are followed at most: the blocks of the
    relation, which an acyclic chain cannot exceed. *)
Context (chain_fuel : nat).

(** [while (current != InvalidBlockNumber)]: open, process, go to the next. *)
Fixpoint chain_loop {A} (fuel : nat) (load_ctids : bool) (f : A -> rst R A)
    (current : Z) (acc : A) : res A :=
  match fuel with
  | O => Ok acc
  | S fuel' =>
      if current =? InvalidBlockNumber then Ok acc
      else
        reader ← segment_open current load_ctids;
        match reader with
        | None => Ok acc
        | Some r =>
            '(acc', r') ← f acc r;
            chain_loop fuel' load_ctids f (next_segment (sheader r')) acc'
        end
  end.

(** What [tp_segment_get_doc_freq] and the batch version do in one segment. *)
Definition term_doc_freq (header : TpSegmentHeader) (dict_num_terms : Z) (term : list byte)
    (doc_freq : Z) : rst R Z :=
  found ← find_term header dict_num_terms term;
  match found with
  | None => mret doc_freq
  | Some mid => de ← read_dict_entry header mid; mret (u32 (doc_freq + de_doc_freq de))
  end.

Definition tp_segment_get_doc_freq (first_segment : Z) (term : list byte) : res Z :=
  chain_loop chain_fuel false
    (fun doc_freq =>
       header ← rst_gets sheader;
       if (SegmentFormat.num_terms header =? 0) || (dictionary_offset header =? 0)
       then mret doc_freq
       else
         dict_num_terms ← read_u32 (dictionary_offset header);
         term_doc_freq header dict_num_terms term doc_freq)
    first_segment 0.

(** The inner loop over the terms; [doc_freqs] is indexed like [terms]. *)
Fixpoint for_terms (f : list byte -> Z -> rst R Z) (terms : list (list byte))
    (doc_freqs : list Z) : rst R (list Z) :=
  match terms, doc_freqs with
  | t :: terms', d :: ds =>
      d' ← f t d;
      ds' ← for_terms f terms' ds;
      mret (d' :: ds')
  | _, _ => mret doc_freqs
  end.

Definition tp_batch_get_segment_doc_freq (first_segment : Z) (terms : list (list byte))
    (doc_freqs : list Z) : res (list Z) :=
  chain_loop chain_fuel false
    (fun doc_freqs =>
       header ← rst_gets sheader;
       if (SegmentFormat.num_terms header =? 0) || (dictionary_offset header =? 0)
       then mret doc_freqs
       else
         dict_num_terms ← read_u32 (dictionary_offset header);
         for_terms (term_doc_freq header dict_num_terms) terms doc_freqs)
    first_segment doc_freqs.

Definition has_tenant_docfreq (header : TpSegmentHeader) : bool :=
  negb (Z.land (flags header) TP_FLAG_HAS_TENANT_DATA =? 0)
  && negb (tenant_docfreq_offset header =? 0).

(** The string offsets are read at once here; [has_v4_data] is the flag. *)
Definition tp_segment_get_tenant_doc_freq (first_segment : Z) (term : list byte)
    (tenant_id : Z) : res (Z * bool) :=
  chain_loop chain_fuel false
    (fun '(doc_freq, has_v4_data) =>
       header ← rst_gets sheader;
       if (0 <? SegmentFormat.num_terms header) && has_tenant_docfreq header then
         dict_num_terms ← read_u32 (dictionary_offset header);
         bs ← sread (u32 (dictionary_offset header + 4)) (u32 (dict_num_terms * 4));
         let string_offsets := decode_array 4 le_value (Z.to_nat dict_num_terms) bs in
         found ← find_term_loop (fun mid => rst_lift (zread string_offsets mid))
                   (strings_offset header) term (S (Z.to_nat dict_num_terms))
                   0 (dict_num_terms - 1);
         match found with
         | None => mret (doc_freq, true)
         | Some mid =>
             df ← read_tenant_df header mid tenant_id;
             match df with
             | None => mret (doc_freq, true)
             | Some d => mret (u32 (doc_freq + d), true)
             end
         end
       else mret (doc_freq, has_v4_data))
    first_segment (0, false).

Definition term_tenant_doc_freq (header : TpSegmentHeader) (dict_num_terms tenant_id : Z)
    (term : list byte) (doc_freq : Z) : rst R Z :=
  let has_tdf := has_tenant_docfreq header in
  found ← find_term header dict_num_terms term;
  match found with
  | None => mret doc_freq
  | Some mid =>
      if has_tdf then
        df ← read_tenant_df header mid tenant_id;
        match df with
        | Some d => mret (u32 (doc_freq + d))
        | None => mret doc_freq
        end
      else de ← read_dict_entry header mid; mret (u32 (doc_freq + de_doc_freq de))
  end.

Definition tp_batch_get_segment_tenant_doc_freq (first_segment : Z)
    (terms : list (list byte)) (doc_freqs : list Z) (tenant_id : Z) : res (list Z) :=
  chain_loop chain_fuel false
    (fun doc_freqs =>
       header ← rst_gets sheader;
       if (SegmentFormat.num_terms header =? 0) || (dictionary_offset header =? 0)
       then mret doc_freqs
       else
         dict_num_terms ← read_u32 (dictionary_offset header);
         for_terms (term_tenant_doc_freq header dict_num_terms tenant_id) terms doc_freqs)
    first_segment doc_freqs.

(** ** Exhaustive scoring *)

Section Scoring.
Context (ln : float8 -> float8) (total_docs : Z) (k1 b avg_doc_len : float4) (tenant_id : Z).

Definition term_score (idf tf doc_len query_frequency : float4) : float4 :=
  let tf_d := f8_of_f4 tf in
  let one := f8_of_Z 1 in
  let numerator_d := f8_mul tf_d (f8_add (f8_of_f4 k1) one) in
  let denominator_d :=
    f8_add tf_d (f8_mul (f8_of_f4 k1)
      (f8_add (f8_sub one (f8_of_f4 b))
         (f8_mul (f8_of_f4 b) (f8_div (f8_of_f4 doc_len) (f8_of_f4 avg_doc_len))))) in
  f4_of_f8 (f8_mul (f8_mul (f8_of_f4 idf) (f8_div numerator_d denominator_d))
              (f8_of_f4 query_frequency)).

Definition process_posting (posting : TpSegmentPosting) (idf query_frequency : float4)
    (hash_table : gmap ItemPointerData DocumentScoreEntry)
    : gmap ItemPointerData DocumentScoreEntry :=
  let tf := f4_of_Z (sp_frequency posting) in
  let doc_len := f4_of_Z (sp_doc_length posting) in
  if f4_le doc_len (f4_of_Z 0) then hash_table
  else if negb (ItemPointerIsValid (sp_ctid posting)) then hash_table
  else
    let ts := term_score idf tf doc_len query_frequency in
    match hash_table !! sp_ctid posting with
    | None => <[sp_ctid posting := mkDocumentScore ts doc_len]> hash_table
    | Some e =>
        <[sp_ctid posting := mkDocumentScore (f4_add (dse_score e) ts) (dse_doc_length e)]> hash_table
    end.

(** [while (next(iter, &posting))]: one posting per round, at most 255 per block. *)
Fixpoint score_term_postings (fuel : nat) (it : TpSegmentPostingIterator)
    (idf query_freq : float4) (hash_table : gmap ItemPointerData DocumentScoreEntry)
    : rst R (gmap ItemPointerData DocumentScoreEntry) :=
  match fuel with
  | O => mret hash_table
  | S fuel' =>
      '(posting, it1) ← tp_segment_posting_iterator_next it;
      match posting with
      | None => mret hash_table
      | Some p =>
          skip_it ←
            (if negb (tenant_id =? 0)
             then tid ← stenant_id (sp_doc_id p); mret (negb (tid =? tenant_id))
             else mret false);
          score_term_postings fuel' it1 idf query_freq
            (if (skip_it : bool) then hash_table
             else process_posting p idf query_freq hash_table)
      end
  end.

Definition postings_fuel (it : TpSegmentPostingIterator) : nat :=
  S (Z.to_nat (de_block_count (it_dict_entry it) * 256)).

(** The frequencies accumulate, and the IDF is computed from what has been
    accumulated so far. *)
Fixpoint score_segment_for_all_terms (terms : list (list byte)) (query_frequencies : list Z)
    (doc_freqs : list Z) (hash_table : gmap ItemPointerData DocumentScoreEntry)
    : rst R (list Z * gmap ItemPointerData DocumentScoreEntry) :=
  match terms, query_frequencies, doc_freqs with
  | t :: terms', q :: qs, d :: ds =>
      '(found, it) ← tp_segment_posting_iterator_init t;
      if negb found then
        '(ds', ht') ← score_segment_for_all_terms terms' qs ds hash_table;
        mret (d :: ds', ht')
      else
        let d' := u32 (d + de_doc_freq (it_dict_entry it)) in
        let idf := calculate_idf ln d' total_docs in
        ht1 ← score_term_postings (postings_fuel it) it idf (f4_of_Z q) hash_table;
        '(ds', ht') ← score_segment_for_all_terms terms' qs ds ht1;
        mret (d' :: ds', ht')
  | _, _, _ => mret (doc_freqs, hash_table)
  end.

Definition tp_score_all_terms_in_segment_chain (first_segment : Z) (terms : list (list byte))
    (query_frequencies doc_freqs : list Z)
    (doc_scores_hash : gmap ItemPointerData DocumentScoreEntry)
    : res (list Z * gmap ItemPointerData DocumentScoreEntry) :=
  chain_loop chain_fuel true
    (fun '(dfs, ht) => score_segment_for_all_terms terms query_frequencies dfs ht)
    first_segment (doc_freqs, doc_scores_hash).
End Scoring.
End Chain.
