(* ===== verification/ScanFacts.v ===== *)
(** * Correctness of the segment scan (src/segment/scan.c)

    What a stream must contain for a dictionary and for the blocks of a term
    ([dictionary_at], [blocks_at]), and what the functions of SegmentScan then
    compute: the dictionary search is exact, the iterator enumerates the
    postings in order, and a seek finds the first posting at or after its
    target.  Everything is proved against [SegmentAccessLaws]; the reader of
    SegmentIO is shown to satisfy it, and the witnesses use that reader. *)
From S2P Require Import Prelude Postgres Float4 Fieldnorm SegmentFormat Compression Storage.
From S2P Require Import SegmentIO Docmap SegmentScan.

(** ** Layout predicates *)

(** The [len] bytes at [off] are [bs]. *)
Definition at_offset (s : list byte) (off : Z) (bs : list byte) : Prop :=
  0 <= off /\ off + zlen bs <= zlen s /\ sub_list off (zlen bs) s = bs.

Record dictionary_at (h : TpSegmentHeader) (s : list byte) (terms : list (list byte))
    (entries : list TpDictEntry) : Prop := {
  da_size : zlen s < 2 ^ 32;
  da_offset : dictionary_offset h <> 0;
  da_count : at_offset s (dictionary_offset h) (u32_bytes (zlen terms));
  da_num_terms : SegmentFormat.num_terms h = zlen terms;
  da_strings : forall (i : nat) t, terms !! i = Some t ->
    exists off, 0 <= off < 2 ^ 32 /\
      at_offset s (dictionary_offset h + 4 + Z.of_nat i * 4) (u32_bytes off) /\
      at_offset s (strings_offset h + off) (u32_bytes (zlen t) ++ t);
  da_entries : forall (i : nat) e, entries !! i = Some e ->
    dict_entry_ok e /\ at_offset s (entries_offset h + Z.of_nat i * 12) (encode_dict_entry e);
  da_lengths : length entries = length terms;
  da_sorted : StronglySorted term_lt terms;
  da_no_nul : Forall (fun t => x00 ∉ t) terms;
  da_limit : zlen terms < 2 ^ 31;
}.

(** The postings of one block, as its skip entry describes them.  Loading a
    compressed block reads the maximal compressed size, so that many bytes must
    follow its offset. *)
Definition block_at (s : list byte) (sk : TpSkipEntry) (ps : list TpBlockPosting) : Prop :=
  sk_doc_count sk = zlen ps /\ ps <> [] /\ Forall block_posting_ok ps /\
  if sk_flags sk =? TP_BLOCK_FLAG_DELTA then
    increasing_from 0 (bp_doc_id <$> ps) /\
    sk_posting_offset sk + TP_MAX_COMPRESSED_BLOCK_SIZE <= zlen s /\
    exists rest, at_offset s (sk_posting_offset sk) ((byte_of_Z <$> compress_block ps) ++ rest) /\
      zlen (compress_block ps) + zlen rest = TP_MAX_COMPRESSED_BLOCK_SIZE
  else at_offset s (sk_posting_offset sk) (encode_array encode_block_posting ps).

Abbreviation blocks := (list (TpSkipEntry * list TpBlockPosting)).

Record blocks_at (s : list byte) (de : TpDictEntry) (bls : blocks) : Prop := {
  ba_size : zlen s < 2 ^ 32;
  ba_count : de_block_count de = zlen bls;
  ba_skip : forall (k : nat) sk ps, bls !! k = Some (sk, ps) ->
    skip_entry_ok sk /\
    at_offset s (de_skip_index_offset de + Z.of_nat k * 16) (encode_skip_entry sk) /\
    block_at s sk ps;
}.

Definition all_postings (bls : blocks) : list TpBlockPosting := concat (bls.*2).

Section ScanFacts.
Context {R : Type} `{SegmentAccessLaws R} `{ItemPointerOps}.

(** The state the computations leave: a reader of the same segment. *)
Definition reads_segment (h : TpSegmentHeader) (s : list byte) (c : option (list Z * list Z))
    (r : R) : Prop := denotes r h s /\ sctids r = c.

Lemma sread_at h s c r off bs :
  reads_segment h s c r -> zlen s < 2 ^ 32 -> at_offset s off bs ->
  runs (reads_segment h s c) (sread off (zlen bs)) r bs.
Proof.
  intros [Hd Hc] H32 (Ho & Hb & Hs). pose proof (zlen_nonneg bs).
  rewrite <- Hs at 2.
  apply (ensures_mono _ _ _ _ (sread_ok r h s off (zlen bs) Hd Ho ltac:(lia) Hb ltac:(lia))).
  intros a r' (-> & Hd' & Hc'). split; [done|]. split; [done|]. by rewrite Hc'.
Qed.

Lemma read_u32_at h s c r off v :
  reads_segment h s c r -> zlen s < 2 ^ 32 -> 0 <= v < 2 ^ 32 -> at_offset s off (u32_bytes v) ->
  runs (reads_segment h s c) (read_u32 off) r v.
Proof.
  intros Hr H32 Hv Ha. unfold read_u32. rewrite <- (u32_bytes_value v Hv).
  apply runs_fmap. pose proof (zlen_nonneg (u32_bytes v)).
  rewrite wrap_small by (destruct Ha as (? & ? & _); lia).
  replace 4 with (zlen (u32_bytes v)) by (unfold zlen; by rewrite length_u32_bytes).
  by apply sread_at.
Qed.

Lemma at_offset_app_l s off b1 b2 : at_offset s off (b1 ++ b2) -> at_offset s off b1.
Proof.
  intros (Ho & Hb & Hs). rewrite zlen_app in *. pose proof (zlen_nonneg b1).
  pose proof (zlen_nonneg b2).
  split; [done|]. split; [lia|]. rewrite sub_list_split in Hs by lia.
  apply app_inj_1 in Hs as [Hs _]; [done|].
  pose proof (zlen_sub_list off (zlen b1) s ltac:(lia) ltac:(lia) ltac:(lia)). unfold zlen in *. lia.
Qed.

Lemma at_offset_app_r s off b1 b2 : at_offset s off (b1 ++ b2) -> at_offset s (off + zlen b1) b2.
Proof.
  intros (Ho & Hb & Hs). rewrite zlen_app in *. pose proof (zlen_nonneg b1).
  pose proof (zlen_nonneg b2).
  split; [lia|]. split; [lia|]. rewrite sub_list_split in Hs by lia.
  apply app_inj_1 in Hs as [_ Hs]; [done|].
  pose proof (zlen_sub_list off (zlen b1) s ltac:(lia) ltac:(lia) ltac:(lia)). unfold zlen in *. lia.
Qed.

Lemma read_string_at h s c r off t :
  reads_segment h s c r -> zlen s < 2 ^ 32 -> at_offset s off (u32_bytes (zlen t) ++ t) ->
  runs (reads_segment h s c) (read_string off) r t.
Proof.
  intros Hr H32 Ha. pose proof (at_offset_app_l _ _ _ _ Ha) as Ha1.
  pose proof (at_offset_app_r _ _ _ _ Ha) as Ha2.
  replace (zlen (u32_bytes (zlen t))) with 4 in Ha2
    by (unfold zlen; by rewrite length_u32_bytes).
  pose proof (zlen_nonneg t). destruct Ha2 as (Ho2 & Hb2 & Hs2).
  unfold read_string. eapply ensures_bind_runs.
  { apply (read_u32_at h s c r off (zlen t)); try done. lia. }
  intros r1 Hr1. rewrite wrap_small by lia. eapply ensures_bind_runs; [by apply sread_at|].
  intros r2 Hr2. by apply ensures_ret.
Qed.

(** ** Dictionary search *)

Section Dictionary.
Context (h : TpSegmentHeader) (s : list byte) (terms : list (list byte))
  (entries : list TpDictEntry) (c : option (list Z * list Z)).
Context (Hdict : dictionary_at h s terms entries).

Lemma strcmp_term (i : nat) t term : terms !! i = Some t ->
  strcmp term t = bytes_compare (c_str term) t.
Proof.
  intros Hi. unfold strcmp. rewrite (c_str_id t); [done|].
  apply (Forall_lookup_1 _ _ _ _ (da_no_nul _ _ _ _ Hdict) Hi).
Qed.

Definition search_result (term : list byte) (res : option Z) : Prop :=
  match res with
  | Some i => zget terms i = Some (c_str term)
  | None => c_str term ∉ terms
  end.

Lemma interval_empty term left right : right < left ->
  (forall (i : nat) t, terms !! i = Some t -> Z.of_nat i < left -> term_lt t (c_str term)) ->
  (forall (i : nat) t, terms !! i = Some t -> right < Z.of_nat i -> term_lt (c_str term) t) ->
  c_str term ∉ terms.
Proof.
  intros Hlt Hlo Hhi (i & Hi)%list_elem_of_lookup.
  destruct (decide (Z.of_nat i < left)).
  - apply (term_lt_irrefl (c_str term)), (Hlo i); [done|lia].
  - apply (term_lt_irrefl (c_str term)), (Hhi i); [done|lia].
Qed.

Lemma find_term_loop_ok get_offset term :
  (forall r (i : nat) t off, reads_segment h s c r -> terms !! i = Some t ->
     0 <= off < 2 ^ 32 ->
     at_offset s (dictionary_offset h + 4 + Z.of_nat i * 4) (u32_bytes off) ->
     runs (reads_segment h s c) (get_offset (Z.of_nat i)) r off) ->
  forall fuel r left right, reads_segment h s c r ->
  0 <= left -> right < zlen terms -> right - left < Z.of_nat fuel ->
  (forall (i : nat) t, terms !! i = Some t -> Z.of_nat i < left -> term_lt t (c_str term)) ->
  (forall (i : nat) t, terms !! i = Some t -> right < Z.of_nat i -> term_lt (c_str term) t) ->
  ensures (find_term_loop get_offset (strings_offset h) term fuel left right) r
    (fun res r' => reads_segment h s c r' /\ search_result term res).
Proof.
  intros Hget. induction fuel as [|fuel IH]; intros r left right Hr Hl Hri Hf Hlo Hhi;
    cbn [find_term_loop].
  { apply ensures_ret. split; [done|]. apply (interval_empty term left right); [lia|done..]. }
  destruct (Z.leb_spec left right) as [L|L]; cycle 1.
  { apply ensures_ret. split; [done|]. by apply (interval_empty term left right). }
  cbv zeta. set (mid := left + (right - left) / 2).
  assert (Hmid : left <= mid <= right) by (unfold mid; lia).
  destruct (zget_is_Some terms mid ltac:(lia)) as [t Ht'].
  pose proof Ht' as Ht. rewrite zget_lookup in Ht by lia. set (m := Z.to_nat mid) in *.
  assert (Em : Z.of_nat m = mid) by lia.
  destruct (da_strings _ _ _ _ Hdict m t Ht) as (off & Hoff & Ha1 & Ha2).
  rewrite <- Em at 1. eapply ensures_bind_runs; [by apply (Hget r m t off)|].
  intros r1 Hr1. rewrite wrap_small; cycle 1.
  { destruct Ha2 as (? & Hb & _). pose proof (da_size _ _ _ _ Hdict).
    pose proof (zlen_nonneg (u32_bytes (zlen t) ++ t)). lia. }
  eapply ensures_bind_runs.
  { apply (read_string_at h s c); [done|apply (da_size _ _ _ _ Hdict)|done]. }
  intros r2 Hr2. rewrite (strcmp_term m t term Ht).
  pose proof (da_sorted _ _ _ _ Hdict) as Hsort.
  destruct (Z.eqb_spec (bytes_compare (c_str term) t) 0) as [E|N].
  { apply ensures_ret. split; [done|]. apply bytes_compare_eq in E. simpl. by rewrite Ht', E. }
  destruct (Z.ltb_spec (bytes_compare (c_str term) t) 0) as [Lt|Gt].
  - apply IH; try done; try lia. intros i t' Hi Him. destruct (decide (i = m)) as [->|].
    + replace t' with t by congruence. done.
    + apply (bytes_compare_lt_trans _ t); [done|].
      apply (StronglySorted_lookup _ _ m i _ _ Hsort); [done..|lia].
  - assert (Hgt : bytes_compare t (c_str term) < 0)
      by (rewrite bytes_compare_opp; lia).
    apply IH; try done; try lia. intros i t' Hi Him. destruct (decide (i = m)) as [->|].
    + replace t' with t by congruence. done.
    + apply (bytes_compare_lt_trans _ t); [|done].
      apply (StronglySorted_lookup _ _ i m _ _ Hsort); [done..|lia].
Qed.

Lemma find_term_ok term r :
  reads_segment h s c r ->
  ensures (find_term h (zlen terms) term) r
    (fun res r' => reads_segment h s c r' /\ search_result term res).
Proof.
  intros Hr. unfold find_term. pose proof (zlen_nonneg terms).
  apply find_term_loop_ok; try done; try lia.
  - intros r' i t off Hr' Hi Hoff Ha.
    apply (read_u32_at h s c); [done|apply (da_size _ _ _ _ Hdict)|done|done].
  - intros i t Hi Hlt. apply lookup_lt_Some in Hi. unfold zlen in *. lia.
Qed.

Lemma read_dict_entry_ok (i : nat) e r :
  reads_segment h s c r -> entries !! i = Some e ->
  runs (reads_segment h s c) (read_dict_entry h (Z.of_nat i)) r e.
Proof.
  intros Hr Hi. destruct (da_entries _ _ _ _ Hdict i e Hi) as [Hok Ha].
  unfold read_dict_entry. rewrite <- (decode_encode_dict_entry e [] Hok), app_nil_r.
  apply runs_fmap. pose proof (da_size _ _ _ _ Hdict).
  assert (E12 : zlen (encode_dict_entry e) = 12)
    by (unfold zlen; by rewrite length_encode_dict_entry).
  rewrite wrap_small by (destruct Ha as (? & ? & _); lia).
  rewrite <- E12 at 2. by apply sread_at.
Qed.
End Dictionary.

(** ** Blocks and the iterator *)

Section Iterator.
Context (h : TpSegmentHeader) (s : list byte) (c : option (list Z * list Z)).
Context (de : TpDictEntry) (bls : blocks).
Context (Hblocks : blocks_at s de bls).

Lemma read_skip_entry_ok (k : nat) sk ps r :
  reads_segment h s c r -> bls !! k = Some (sk, ps) ->
  runs (reads_segment h s c) (tp_segment_read_skip_entry de (Z.of_nat k)) r sk.
Proof.
  intros Hr Hk. destruct (ba_skip _ _ _ Hblocks k sk ps Hk) as (Hok & Ha & _).
  unfold tp_segment_read_skip_entry.
  rewrite <- (decode_encode_skip_entry sk [] Hok), app_nil_r.
  apply runs_fmap. pose proof (ba_size _ _ _ Hblocks).
  assert (E16 : zlen (encode_skip_entry sk) = 16)
    by (unfold zlen; by rewrite length_encode_skip_entry).
  rewrite wrap_small by (destruct Ha as (? & ? & _); lia).
  rewrite <- E16 at 2. by apply sread_at.
Qed.

Lemma zlen_encode_postings ps : zlen (encode_array encode_block_posting ps) = zlen ps * 8.
Proof.
  unfold zlen. rewrite (length_encode_array _ 8) by apply length_encode_block_posting. lia.
Qed.

Lemma decode_postings_ok ps rest : Forall block_posting_ok ps ->
  decode_postings (zlen ps) (encode_array encode_block_posting ps ++ rest) = ps.
Proof.
  intros HF. unfold decode_postings, zlen. rewrite Nat2Z.id.
  apply decode_encode_array; [apply length_encode_block_posting|].
  intros p Hp. rewrite Forall_forall in HF.
  rewrite <- (app_nil_r (encode_block_posting p)).
  by apply decode_encode_block_posting, HF.
Qed.

Lemma bytes_of_compressed ps : Forall block_posting_ok ps ->
  increasing_from 0 (bp_doc_id <$> ps) -> Forall is_byte (compress_block ps).
Proof.
  intros HF Hinc. destruct (decide (ps = [])) as [->|Hne]; [constructor|].
  assert (Hids : Forall (fun d => d < 2 ^ 32) (bp_doc_id <$> ps)).
  { apply Forall_fmap. eapply Forall_impl; [exact HF|]. intros p (Hd & _).
    unfold fits in Hd. simpl in Hd |- *. lia. }
  assert (Hf : Forall (fun d => 0 <= d < 2 ^ 32) (bp_frequency <$> ps)).
  { apply Forall_fmap. eapply Forall_impl; [exact HF|]. intros p (_ & Hp & _).
    unfold fits in Hp. simpl in Hp |- *. lia. }
  destruct (list_max_width _ (doc_deltas_range 0 _ ltac:(lia) Hids Hinc)) as [Hb1 Hd'].
  destruct (list_max_width _ Hf) as [Hb2 Hf'].
  rewrite (compress_block_nonempty ps Hne). cbn [app].
  constructor; [unfold is_byte; lia|]. constructor; [unfold is_byte; lia|].
  destruct (bitpack_roundtrip _ _ [] Hb1 Hd' (Forall_nil_2 _)) as (_ & HB1 & _).
  destruct (bitpack_roundtrip _ _ [] Hb2 Hf' (Forall_nil_2 _)) as (_ & HB2 & _).
  apply Forall_app; split; [done|]. apply Forall_app; split; [done|].
  apply Forall_fmap. eapply Forall_impl; [exact HF|]. intros p (_ & _ & Hp).
  unfold fits in Hp. unfold is_byte. simpl in Hp |- *. lia.
Qed.

Lemma bytes_roundtrip l : Forall is_byte l -> (Z_of_byte <$> (byte_of_Z <$> l)) = l.
Proof.
  induction 1 as [|x l Hx HF IH]; [done|]. csimpl. rewrite IH. f_equal.
  rewrite Z_of_byte_of_Z. by apply Z.mod_small.
Qed.

Lemma read_block_ok sk ps r :
  reads_segment h s c r -> skip_entry_ok sk -> block_at s sk ps ->
  runs (reads_segment h s c) (read_block sk) r ps.
Proof.
  intros Hr Hok (Hcount & Hne & HF & Hbody). pose proof (ba_size _ _ _ Hblocks) as H32.
  unfold read_block. rewrite Hcount. cbv zeta.
  assert (Hps : 0 < zlen ps) by (destruct ps; [done|]; rewrite zlen_cons; pose proof (zlen_nonneg ps); lia).
  assert (Hpo : 0 <= sk_posting_offset sk < 2 ^ 32)
    by (destruct Hok as (_ & _ & _ & _ & Hpo & _); unfold fits in Hpo; simpl in Hpo; lia).
  destruct (sk_flags sk =? TP_BLOCK_FLAG_DELTA).
  - destruct Hbody as (Hinc & Hend & rest & Ha & Hlen).
    pose proof (bytes_of_compressed ps HF Hinc) as HB.
    eapply ensures_bind_runs.
    { replace TP_MAX_COMPRESSED_BLOCK_SIZE with
        (zlen ((byte_of_Z <$> compress_block ps) ++ rest)) by (rewrite zlen_app, zlen_fmap; lia).
      apply (sread_at h s c); done. }
    intros r1 Hr1. eapply ensures_lift; [|done].
    rewrite fmap_app, bytes_roundtrip by done. unfold zlen. rewrite Nat2Z.id.
    apply decompress_compress; [done..|]. apply Forall_fmap, Forall_forall.
    intros b _. unfold compose, is_byte. apply Z_of_byte_range.
  - pose proof (zlen_encode_postings ps) as Elen. rewrite <- Elen.
    assert (Hcopy : forall r', reads_segment h s c r' ->
      runs (reads_segment h s c) (decode_postings (zlen ps) <$>
        sread (sk_posting_offset sk) (zlen (encode_array encode_block_posting ps))) r' ps).
    { intros r' Hr'. rewrite <- (decode_postings_ok ps [] HF) at 3. rewrite app_nil_r.
      apply runs_fmap. by apply sread_at. }
    destruct Hr as [Hd Hc]. destruct Hbody as (Ho & Hb & Hs).
    apply ensures_bind. eapply ensures_mono.
    { apply (sdirect_ok r h s (sk_posting_offset sk)); try done; lia. }
    intros [[addr bytes]|] r1 (Hd1 & Hc1 & Hbytes).
    + destruct (addr mod 4 =? 0); [|apply Hcopy; split; [done|congruence]].
      apply ensures_ret. split; [|split; [done|congruence]].
      rewrite Hs in Hbytes. rewrite <- (take_drop (Z.to_nat (zlen (encode_array encode_block_posting ps))) bytes).
      rewrite Hbytes. by apply decode_postings_ok.
    + apply Hcopy. split; [done|congruence].
Qed.

(** Where the iterator stands: [rem] are the postings still to be returned. *)
Definition iter_at (it : TpSegmentPostingIterator) (rem : list TpBlockPosting) : Prop :=
  it_initialized it = true /\ it_dict_entry it = de /\
  if it_finished it then rem = []
  else match it_block_postings it with
       | None => it_current_block it = 0 /\ it_current_in_block it = 0 /\
                 bls <> [] /\ rem = all_postings bls
       | Some ps => exists (k j : nat),
           it_current_block it = Z.of_nat k /\ it_current_in_block it = Z.of_nat j /\
           bls !! k = Some (it_skip_entry it, ps) /\ (j <= length ps)%nat /\
           rem = drop j ps ++ all_postings (drop (S k) bls)
       end.

Lemma load_block_ok it (k : nat) sk ps r :
  reads_segment h s c r -> it_dict_entry it = de -> it_current_block it = Z.of_nat k ->
  bls !! k = Some (sk, ps) ->
  runs (reads_segment h s c) (tp_segment_posting_iterator_load_block it) r
    (true, mkIterator (it_dict_entry_idx it) de (it_initialized it) (it_finished it)
             (Z.of_nat k) 0 sk (Some ps)).
Proof.
  intros Hr Hde Hk Hbl. unfold tp_segment_posting_iterator_load_block.
  pose proof (lookup_lt_Some _ _ _ Hbl). destruct (ba_skip _ _ _ Hblocks k sk ps Hbl) as (Hok & _ & Hat).
  rewrite Hde, Hk, (ba_count _ _ _ Hblocks), (proj2 (Z.leb_gt _ _)) by (unfold zlen; lia).
  eapply ensures_bind_runs; [by eapply read_skip_entry_ok|].
  intros r1 Hr1. eapply ensures_bind_runs; [by apply read_block_ok|].
  intros r2 Hr2. by apply ensures_ret.
Qed.

Lemma all_postings_drop (k : nat) sk ps : bls !! k = Some (sk, ps) ->
  all_postings (drop k bls) = ps ++ all_postings (drop (S k) bls).
Proof. intros Hk. by rewrite (drop_S _ _ _ Hk). Qed.

Lemma block_nonempty (k : nat) sk ps : bls !! k = Some (sk, ps) ->
  ps <> [] /\ sk_doc_count sk = zlen ps.
Proof. intros Hk. destruct (ba_skip _ _ _ Hblocks k sk ps Hk) as (_ & _ & ? & ? & _). done. Qed.

(** After [advance_block] the position is inside a block, or the end is reached. *)
Lemma advance_block_ok fuel it (k j : nat) ps r :
  reads_segment h s c r ->
  it_initialized it = true -> it_dict_entry it = de -> it_finished it = false ->
  it_current_block it = Z.of_nat k -> it_current_in_block it = Z.of_nat j ->
  it_block_postings it = Some ps -> bls !! k = Some (it_skip_entry it, ps) ->
  (j <= length ps)%nat -> (length bls - k < fuel)%nat -> (1 < fuel)%nat ->
  ensures (advance_block fuel it) r (fun res r' =>
    reads_segment h s c r' /\
    match drop j ps ++ all_postings (drop (S k) bls) with
    | [] => res.1 = false /\ it_finished res.2 = true /\ iter_at res.2 []
    | p :: rest => res.1 = true /\ it_initialized res.2 = true /\ it_dict_entry res.2 = de /\
        it_finished res.2 = false /\
        exists (k' j' : nat) ps', it_current_block res.2 = Z.of_nat k' /\
          it_current_in_block res.2 = Z.of_nat j' /\ it_block_postings res.2 = Some ps' /\
          bls !! k' = Some (it_skip_entry res.2, ps') /\ ps' !! j' = Some p /\
          rest = drop (S j') ps' ++ all_postings (drop (S k') bls)
    end).
Proof.
  intros Hr Hinit Hde Hfin Hk Hj Hps Hbl Hjl Hf1 Hf2.
  destruct fuel as [|[|fuel]]; [lia|lia|].
  destruct (block_nonempty _ _ _ Hbl) as [Hne Hcount].
  cbn [advance_block]. rewrite Hcount, Hj.
  destruct (Z.leb_spec (zlen ps) (Z.of_nat j)) as [L|L]; cycle 1.
  { apply ensures_ret. split; [done|]. cbn [fst snd].
    destruct (lookup_lt_is_Some_2 ps j) as [p Hp]; [unfold zlen in L; lia|].
    rewrite (drop_S _ _ _ Hp). cbn [app]. do 4 (split; [done|]). by exists k, j, ps. }
  rewrite (drop_ge ps j) by (unfold zlen in L; lia). cbn [app].
  rewrite Hde, (ba_count _ _ _ Hblocks). cbn [it_current_block set_position].
  rewrite Hk. destruct (Z.leb_spec (zlen bls) (Z.of_nat k + 1)) as [L2|L2].
  { apply ensures_ret. split; [done|]. rewrite (drop_ge bls (S k)) by (unfold zlen in L2; lia).
    cbn [fst snd]. split; [done|]. split; [done|]. done. }
  destruct (lookup_lt_is_Some_2 bls (S k)) as [[sk' ps'] Hbl']; [unfold zlen in L2; lia|].
  destruct (block_nonempty _ _ _ Hbl') as [Hne' Hcount'].
  eapply ensures_bind_runs.
  { apply (load_block_ok _ (S k) sk' ps'); try done. cbn [it_current_block set_position]. lia. }
  intros r1 Hr1. cbn [it_skip_entry it_current_in_block].
  destruct ps' as [|p' ps'']; [done|].
  rewrite Hcount', zlen_cons. pose proof (zlen_nonneg ps'').
  rewrite (proj2 (Z.leb_gt _ _)) by lia. apply ensures_ret. split; [done|].
  rewrite (all_postings_drop _ _ _ Hbl'). cbn [app fst snd].
  split; [done|]. split; [done|]. split; [done|]. split; [done|].
  by exists (S k), 0%nat, (p' :: ps'').
Qed.

(** The output posting of a block posting: its CTID when CTIDs are cached. *)
Definition output_of (p : TpBlockPosting) : TpSegmentPosting :=
  mkSegmentPosting
    match c with
    | Some (pages, offsets) =>
        mkItemPointer (default 0 (zget pages (bp_doc_id p))) (default 0 (zget offsets (bp_doc_id p)))
    | None => ItemPointerInvalid
    end
    (bp_doc_id p) (bp_frequency p) (u16 (decode_fieldnorm (bp_fieldnorm p))).

(** Cached arrays have an element for every document. *)
Definition ctids_cover (p : TpBlockPosting) : Prop :=
  match c with
  | Some (pages, offsets) => 0 <= bp_doc_id p < zlen pages /\ 0 <= bp_doc_id p < zlen offsets
  | None => True
  end.

Lemma output_posting_ok p r :
  reads_segment h s c r -> ctids_cover p ->
  runs (reads_segment h s c) (output_posting p) r (output_of p).
Proof.
  intros Hr Hc. unfold output_posting, ctids_cover, output_of in *.
  apply ensures_bind, ensures_gets. pose proof Hr as [_ Esc]. rewrite Esc.
  destruct c as [[pages offsets]|] eqn:Ec; [|by apply ensures_ret].
  destruct Hc as [Hp Ho]. destruct (zget_is_Some _ _ Hp) as [x Hx].
  destruct (zget_is_Some _ _ Ho) as [y Hy]. unfold zread. rewrite Hx, Hy.
  apply ensures_bind. eapply ensures_lift; [done|].
  apply ensures_bind. eapply ensures_lift; [done|]. by apply ensures_ret.
Qed.

(** Inside block [k] the next posting is the one at [j], and only the position
    changes. *)
Lemma iter_next_in_block it ps (k j : nat) p r :
  reads_segment h s c r -> it_initialized it = true -> it_finished it = false ->
  it_block_postings it = Some ps -> it_current_in_block it = Z.of_nat j ->
  sk_doc_count (it_skip_entry it) = zlen ps -> ps !! j = Some p -> ctids_cover p ->
  runs (reads_segment h s c) (tp_segment_posting_iterator_next it) r
    (Some (output_of p), set_position it false (it_current_block it) (Z.of_nat (S j))).
Proof.
  intros Hr Hinit Hfin Hps Hj Hcount Hp Hcov. unfold tp_segment_posting_iterator_next.
  rewrite Hfin, Hinit, Hps. cbn [negb orb]. apply ensures_bind, ensures_ret. cbn [negb].
  cbn [advance_block]. rewrite Hcount, Hj.
  pose proof (lookup_lt_Some _ _ _ Hp). rewrite (proj2 (Z.leb_gt _ _)) by (unfold zlen; lia).
  apply ensures_bind, ensures_ret. cbn [negb]. rewrite Hps, Hj. cbn [default from_option id].
  apply ensures_bind. eapply ensures_lift; [unfold zread; by rewrite zget_nat, Hp|].
  eapply ensures_bind_runs; [by apply output_posting_ok|]. intros r1 Hr1. apply ensures_ret.
  rewrite Hfin. split; [|done]. do 2 f_equal. lia.
Qed.

(** Past the end of block [k] the next posting is the first of the next block. *)
Lemma iter_next_past_block it sk ps (k : nat) r :
  reads_segment h s c r -> it_initialized it = true -> it_dict_entry it = de ->
  it_finished it = false -> it_current_block it = Z.of_nat k ->
  it_current_in_block it = zlen ps -> it_block_postings it = Some ps ->
  it_skip_entry it = sk -> bls !! k = Some (sk, ps) ->
  Forall ctids_cover (all_postings bls) ->
  ensures (tp_segment_posting_iterator_next it) r (fun res r' =>
    reads_segment h s c r' /\ it_dict_entry res.2 = de /\ it_initialized res.2 = true /\
    (res.1 = None \/ it_current_block res.2 = Z.of_nat (S k))).
Proof.
  intros Hr Hinit Hde Hfin Hk Hj Hps Hsk Hbl Hcov. unfold tp_segment_posting_iterator_next.
  rewrite Hfin, Hinit, Hps. cbn [negb orb]. apply ensures_bind, ensures_ret. cbn [negb].
  cbn [advance_block]. destruct (block_nonempty _ _ _ Hbl) as [_ Hcount].
  rewrite Hsk, Hcount, Hj, Z.leb_refl, Hde, (ba_count _ _ _ Hblocks).
  cbn [it_current_block set_position]. rewrite Hk.
  destruct (Z.leb_spec (zlen bls) (Z.of_nat k + 1)) as [L|L].
  { apply ensures_bind, ensures_ret. cbn [negb]. apply ensures_ret. auto. }
  destruct (lookup_lt_is_Some_2 bls (S k)) as [[sk' ps'] Hbl']; [unfold zlen in L; lia|].
  destruct (block_nonempty _ _ _ Hbl') as [Hne' Hcount'].
  apply ensures_bind. eapply ensures_bind_runs.
  { apply (load_block_ok _ (S k) sk' ps'); try done. cbn [it_current_block set_position]. lia. }
  intros r1 Hr1. destruct ps' as [|p' ps'']; [done|].
  pose proof (zlen_nonneg ps'').
  destruct (Z.to_nat (zlen bls)) as [|fuel] eqn:Ef; [unfold zlen in *; lia|].
  cbn [advance_block it_skip_entry it_current_in_block].
  rewrite Hcount', zlen_cons. rewrite (proj2 (Z.leb_gt _ _)) by lia.
  apply ensures_ret. cbn [negb it_block_postings it_current_in_block default from_option id].
  apply ensures_bind. eapply ensures_lift; [done|].
  assert (Hcp : ctids_cover p').
  { rewrite Forall_forall in Hcov. apply Hcov. rewrite <- (take_drop (S k) bls).
    unfold all_postings. rewrite fmap_app, concat_app. apply elem_of_app. right.
    fold (all_postings (drop (S k) bls)). rewrite (all_postings_drop _ _ _ Hbl'). by left. }
  eapply ensures_bind_runs; [by apply output_posting_ok|]. intros r2 Hr2.
  apply ensures_ret. split; [done|]. split; [done|]. split; [done|]. by right.
Qed.

Lemma iter_next_ok it rem r :
  reads_segment h s c r -> iter_at it rem -> Forall ctids_cover rem ->
  ensures (tp_segment_posting_iterator_next it) r (fun res r' =>
    reads_segment h s c r' /\ res.1 = output_of <$> head rem /\ iter_at res.2 (tail rem) /\
    (rem = [] -> it_finished res.2 = true)).
Proof.
  intros Hr (Hinit & Hde & Hpos) Hcov. unfold tp_segment_posting_iterator_next.
  destruct (it_finished it) eqn:Hfin; cbn [orb].
  { subst rem. apply ensures_ret. split; [done|]. split; [done|]. split; [|done].
    split; [done|]. split; [done|]. cbn [snd]. by rewrite Hfin. }
  rewrite Hinit. cbn [negb].
  assert (Hin : forall it1 ps (k j : nat) r1,
    reads_segment h s c r1 -> it_initialized it1 = true -> it_dict_entry it1 = de ->
    it_finished it1 = false -> it_current_block it1 = Z.of_nat k ->
    it_current_in_block it1 = Z.of_nat j -> it_block_postings it1 = Some ps ->
    bls !! k = Some (it_skip_entry it1, ps) -> (j <= length ps)%nat ->
    rem = drop j ps ++ all_postings (drop (S k) bls) ->
    ensures ('(ok2, it2) ← advance_block (S (Z.to_nat (de_block_count (it_dict_entry it1)))) it1;
             if negb ok2 then mret (None, it2)
             else bp ← rst_lift (zread (default [] (it_block_postings it2)) (it_current_in_block it2));
                  out ← output_posting bp;
                  mret (Some out, set_position it2 (it_finished it2) (it_current_block it2)
                                    (it_current_in_block it2 + 1))) r1
      (fun res r' => reads_segment h s c r' /\ res.1 = output_of <$> head rem /\
         iter_at res.2 (tail rem) /\ (rem = [] -> it_finished res.2 = true))).
  { intros it1 ps k j r1 Hr1 Hi1 Hd1 Hf1 Hk1 Hj1 Hp1 Hb1 Hjl Hrem.
    pose proof (lookup_lt_Some _ _ _ Hb1).
    apply ensures_bind. eapply ensures_mono.
    { apply (advance_block_ok _ it1 k j ps r1); try done;
        rewrite Hd1, (ba_count _ _ _ Hblocks); unfold zlen; lia. }
    intros [ok2 it2] r2 [Hr2 Hres]. rewrite <- Hrem in Hres. cbn [fst snd] in Hres.
    destruct rem as [|p rest].
    { destruct Hres as (-> & Hf2 & Hat). cbn [negb]. by apply ensures_ret. }
    destruct Hres as (-> & Hi2 & Hd2 & Hf2 & k' & j' & ps' & Hk2 & Hj2 & Hp2 & Hb2 & Hl2 & Hrest).
    apply Forall_cons in Hcov as [Hcp _].
    cbn [negb]. rewrite Hp2, Hj2. cbn [default from_option id]. apply ensures_bind.
    eapply ensures_lift; [unfold zread; by rewrite zget_nat, Hl2|].
    eapply ensures_bind_runs; [by apply output_posting_ok|]. intros r3 Hr3.
    apply ensures_ret. split; [done|]. cbn [fst snd head tail]. split; [done|]. split; [|done].
    unfold iter_at. cbn. split; [done|]. split; [done|]. rewrite Hf2, Hp2.
    exists k', (S j'). split; [done|]. split; [lia|]. split; [done|].
    split; [by apply lookup_lt_Some in Hl2|done]. }
  destruct (it_block_postings it) as [ps|] eqn:Hps.
  - destruct Hpos as (k & j & Hk & Hj & Hbl & Hjl & Hrem). apply ensures_bind, ensures_ret.
    cbn [negb]. by apply (Hin it ps k j).
  - destruct Hpos as (Hk & Hj & Hne & Hrem).
    destruct (lookup_lt_is_Some_2 bls 0%nat) as [[sk ps] Hb0].
    { destruct (decide (length bls = 0%nat)) as [E%length_zero_iff_nil|]; [done|lia]. }
    eapply ensures_bind_runs.
    { apply (load_block_ok it 0%nat sk ps); try done. }
    intros r1 Hr1. cbn [negb]. eapply (Hin _ ps 0%nat 0%nat); try done.
    + lia.
    + rewrite drop_0, Hrem. rewrite <- (drop_0 bls) at 1. by rewrite (all_postings_drop _ _ _ Hb0).
Qed.

(** ** Seek *)

(** Document ids increase over the whole posting list, and each skip entry
    records the last one of its block. *)
Definition blocks_sorted : Prop :=
  StronglySorted (fun p q => bp_doc_id p < bp_doc_id q) (all_postings bls) /\
  forall (k : nat) sk ps, bls !! k = Some (sk, ps) ->
    exists p, last ps = Some p /\ sk_last_doc_id sk = bp_doc_id p.

Context (Hsorted : blocks_sorted).

Lemma all_postings_split (k : nat) sk ps : bls !! k = Some (sk, ps) ->
  all_postings bls = all_postings (take k bls) ++ ps ++ all_postings (drop (S k) bls).
Proof.
  intros Hk. rewrite <- (take_drop_middle _ _ _ Hk) at 1.
  unfold all_postings. by rewrite fmap_app, concat_app.
Qed.

Lemma sorted_app_lt (l1 l2 : list TpBlockPosting) p q :
  StronglySorted (fun p q => bp_doc_id p < bp_doc_id q) (l1 ++ l2) ->
  p ∈ l1 -> q ∈ l2 -> bp_doc_id p < bp_doc_id q.
Proof.
  induction l1 as [|x l1 IH]; intros Hs Hp Hq; [by apply not_elem_of_nil in Hp|].
  inversion_clear Hs as [|? ? Hs' HF]. apply elem_of_cons in Hp as [->|Hp]; [|by apply IH].
  rewrite Forall_forall in HF. apply HF. set_solver.
Qed.

Lemma sorted_app_r (l1 l2 : list TpBlockPosting) :
  StronglySorted (fun p q => bp_doc_id p < bp_doc_id q) (l1 ++ l2) ->
  StronglySorted (fun p q => bp_doc_id p < bp_doc_id q) l2.
Proof. induction l1 as [|x l1 IH]; [done|]. intros Hs. inversion_clear Hs. auto. Qed.

(** Postings of the blocks up to [k] are at most the last id of block [k]. *)
Lemma up_to_last (k : nat) sk ps p : bls !! k = Some (sk, ps) ->
  p ∈ all_postings (take k bls) ++ ps -> bp_doc_id p <= sk_last_doc_id sk.
Proof.
  intros Hk Hp. destruct Hsorted as [Hs Hl]. destruct (Hl k sk ps Hk) as (q & Hq & ->).
  rewrite (all_postings_split k sk ps Hk), app_assoc in Hs.
  apply last_Some in Hq as [ps' ->]. rewrite app_assoc in Hp, Hs.
  apply elem_of_app in Hp as [Hp|Hp%list_elem_of_singleton]; [|by subst p].
  rewrite <- app_assoc in Hs. apply Z.lt_le_incl.
  apply (sorted_app_lt _ _ p q Hs Hp). set_solver.
Qed.

Lemma seek_block_loop_ok target : forall fuel r (left right : nat),
  reads_segment h s c r -> (left <= right < length bls)%nat -> (right - left <= fuel)%nat ->
  (forall (i : nat) sk ps, bls !! i = Some (sk, ps) -> (i < left)%nat -> sk_last_doc_id sk < target) ->
  (forall sk ps, bls !! right = Some (sk, ps) -> (S right < length bls)%nat ->
     target <= sk_last_doc_id sk) ->
  ensures (seek_block_loop fuel de target (Z.of_nat left) (Z.of_nat right)) r (fun k r' =>
    reads_segment h s c r' /\ exists k' : nat, k = Z.of_nat k' /\ (k' < length bls)%nat /\
    (forall (i : nat) sk ps, bls !! i = Some (sk, ps) -> (i < k')%nat -> sk_last_doc_id sk < target) /\
    (forall sk ps, bls !! k' = Some (sk, ps) -> (S k' < length bls)%nat ->
       target <= sk_last_doc_id sk)).
Proof.
  induction fuel as [|fuel IH]; intros r left right Hr Hlr Hf Hlo Hhi; cbn [seek_block_loop].
  { apply ensures_ret. split; [done|]. exists left. assert (left = right) as -> by lia. auto with lia. }
  destruct (Z.ltb_spec (Z.of_nat left) (Z.of_nat right)) as [L|L]; cycle 1.
  { apply ensures_ret. split; [done|]. exists left. assert (left = right) as -> by lia. auto with lia. }
  cbv zeta. set (m := (left + (right - left) / 2)%nat).
  pose proof (Nat.div_mod_eq (right - left) 2). pose proof (Nat.mod_upper_bound (right - left) 2 ltac:(lia)).
  assert (Em : Z.of_nat left + (Z.of_nat right - Z.of_nat left) / 2 = Z.of_nat m) by (unfold m; lia).
  rewrite Em. assert (Hm : (left <= m < right)%nat) by (unfold m; lia).
  destruct (lookup_lt_is_Some_2 bls m) as [[sk ps] Hbm]; [lia|].
  eapply ensures_bind_runs; [by apply (read_skip_entry_ok m sk ps)|]. intros r1 Hr1.
  destruct (Z.ltb_spec (sk_last_doc_id sk) target) as [Lt|Ge].
  - replace (Z.of_nat m + 1) with (Z.of_nat (S m)) by lia. apply IH; try done; try lia.
    intros i sk' ps' Hi Him. destruct (decide (i = m)) as [->|]; [congruence|].
    destruct Hsorted as [Hs Hl]. destruct (Hl i sk' ps' Hi) as (q & Hq & Eq).
    pose proof (up_to_last m sk ps q Hbm) as Hle. rewrite Eq. eapply Z.le_lt_trans; [apply Hle|done].
    apply elem_of_app. left. unfold all_postings. apply list_elem_of_In, in_concat.
    exists ps'. split; apply list_elem_of_In.
    + apply list_elem_of_fmap. exists (sk', ps'). split; [done|].
      apply (list_elem_of_lookup_2 _ i). rewrite lookup_take_lt by lia. done.
    + apply last_Some in Hq as [l ->]. set_solver.
  - apply IH; try done; try lia. intros sk' ps' Hi _. replace sk' with sk by congruence. done.
Qed.

Lemma scan_block_ok ps target n : forall fuel i,
  n = zlen ps -> 0 <= i <= n -> n - i <= Z.of_nat fuel ->
  exists j, scan_block ps target i n fuel = Ok j /\ i <= j <= n /\
    (forall k p, i <= k < j -> zget ps k = Some p -> bp_doc_id p < target) /\
    (forall p, zget ps j = Some p -> target <= bp_doc_id p).
Proof.
  intros fuel i Hn. revert i. induction fuel as [|fuel IH]; intros i Hi Hf; cbn [scan_block].
  { exists i. split; [done|]. split; [lia|]. split; [lia|]. intros p Hp%zget_Some. lia. }
  destruct (Z.ltb_spec i n) as [L|L]; cycle 1.
  { exists i. split; [done|]. split; [lia|]. split; [lia|]. intros p Hp%zget_Some. lia. }
  destruct (zget_is_Some ps i ltac:(lia)) as [p Hp]. unfold zread. rewrite Hp. cbn [mbind res_bind].
  destruct (Z.leb_spec target (bp_doc_id p)) as [Le|Gt].
  - exists i. split; [done|]. split; [lia|]. split; [lia|]. intros q Hq. congruence.
  - destruct (IH (i + 1)) as (j & -> & Hj & Hlo & Hhi); [lia|lia|].
    exists j. split; [done|]. split; [lia|]. split; [|done].
    intros k q Hk Hq. destruct (decide (k = i)) as [->|]; [congruence|]. apply (Hlo k); [lia|done].
Qed.

(** The postings a seek leaves to be returned. *)
Definition from_target (target : Z) : list TpBlockPosting :=
  filter (fun p => target <= bp_doc_id p) (all_postings bls).

Lemma from_target_split target (k j : nat) sk ps :
  bls !! k = Some (sk, ps) -> (j <= length ps)%nat ->
  (forall (i : nat) sk ps, bls !! i = Some (sk, ps) -> (i < k)%nat -> sk_last_doc_id sk < target) ->
  (forall p, p ∈ take j ps -> bp_doc_id p < target) ->
  (forall p, head (drop j ps ++ all_postings (drop (S k) bls)) = Some p -> target <= bp_doc_id p) ->
  from_target target = drop j ps ++ all_postings (drop (S k) bls).
Proof.
  intros Hk Hj Hbefore Htake Hhead. destruct Hsorted as [Hs _].
  unfold from_target. rewrite (all_postings_split k sk ps Hk) in Hs |- *.
  rewrite <- (take_drop j ps), <- app_assoc, app_assoc in Hs |- * at 1.
  set (l2 := drop j ps ++ all_postings (drop (S k) bls)) in *.
  rewrite filter_app.
  replace (filter _ (all_postings (take k bls) ++ take j ps)) with (@nil TpBlockPosting).
  - simpl. apply filter_all. apply sorted_app_r in Hs.
    destruct l2 as [|p l2']; [constructor|].
    inversion_clear Hs as [|? ? _ HF]. pose proof (Hhead p eq_refl). constructor; [done|].
    eapply Forall_impl; [exact HF|]. simpl. intros q Hq. lia.
  - symmetry. apply filter_none. apply Forall_app. split.
    + apply Forall_forall. intros p Hp. unfold all_postings in Hp.
      apply list_elem_of_In, in_concat in Hp as (ps' & Hin & Hp%list_elem_of_In).
      apply list_elem_of_In, list_elem_of_fmap in Hin as ([sk' ps''] & -> & Hin). simpl in Hp.
      apply list_elem_of_lookup in Hin as [i Hi]. apply lookup_take_Some in Hi as [Hi Hlt].
      pose proof (Hbefore i sk' ps'' Hi Hlt).
      assert (bp_doc_id p <= sk_last_doc_id sk') by (apply (up_to_last i sk' ps'' p Hi); set_solver).
      lia.
    + apply Forall_forall. intros p Hp. apply Htake in Hp. lia.
Qed.

Lemma iter_seek_ok it target r :
  reads_segment h s c r -> it_initialized it = true -> it_dict_entry it = de ->
  it_finished it = false -> bls <> [] -> Forall ctids_cover (all_postings bls) ->
  ensures (tp_segment_posting_iterator_seek it target) r (fun res r' =>
    reads_segment h s c r' /\ res.1 = output_of <$> head (from_target target) /\
    iter_at res.2 (from_target target) /\ (from_target target = [] -> it_finished res.2 = true)).
Proof.
  intros Hr Hinit Hde Hfin Hne Hcov. unfold tp_segment_posting_iterator_seek.
  rewrite Hinit, Hfin, Hde. cbn [negb orb]. rewrite (ba_count _ _ _ Hblocks). cbv zeta.
  assert (Hlen : (0 < length bls)%nat).
  { destruct (decide (length bls = 0%nat)) as [E%length_zero_iff_nil|]; [done|lia]. }
  apply ensures_bind. eapply ensures_mono.
  { replace 0 with (Z.of_nat 0) by lia.
    replace (zlen bls - 1) with (Z.of_nat (length bls - 1)) by (unfold zlen; lia).
    apply (seek_block_loop_ok target _ r 0 (length bls - 1)); try done; try lia.
    - unfold zlen. lia. }
  intros k' r1 (Hr1 & k & -> & Hkl & Hbefore & Hlast).
  rewrite (proj2 (Z.leb_gt _ _)) by (unfold zlen; lia).
  destruct (lookup_lt_is_Some_2 bls k Hkl) as [[sk ps] Hbk].
  destruct (block_nonempty _ _ _ Hbk) as [Hpne Hcount].
  eapply ensures_bind_runs.
  { apply (load_block_ok _ k sk ps); try done. }
  intros r2 Hr2. cbn [negb it_skip_entry it_block_postings default from_option id].
  rewrite Hcount.
  destruct (scan_block_ok ps target (zlen ps) (Z.to_nat (zlen ps)) 0 eq_refl) as
    (j' & Hscan & Hj' & Hlow & Hhigh); [pose proof (zlen_nonneg ps); lia|lia|].
  apply ensures_bind. eapply ensures_lift; [exact Hscan|].
  set (j := Z.to_nat j') in *. assert (Ej : j' = Z.of_nat j) by lia.
  assert (Htake : forall p, p ∈ take j ps -> bp_doc_id p < target).
  { intros p (i & Hi)%list_elem_of_lookup. apply lookup_take_Some in Hi as [Hi Hij].
    apply (Hlow (Z.of_nat i)); [lia|]. by rewrite zget_nat. }
  assert (Hjl : (j <= length ps)%nat) by (unfold zlen in Hj'; lia).
  destruct (Z.ltb_spec j' (zlen ps)) as [L|L].
  - destruct (zget_is_Some ps j' ltac:(lia)) as [p Hp].
    pose proof (Hhigh p Hp) as Hge. rewrite Ej, zget_nat in Hp.
    assert (Efrom : from_target target = drop j ps ++ all_postings (drop (S k) bls)).
    { apply (from_target_split target k j sk ps); try done.
      intros q. rewrite (drop_S _ _ _ Hp). simpl. congruence. }
    rewrite Efrom, (drop_S _ _ _ Hp). cbn [app head].
    apply ensures_bind. eapply ensures_lift; [unfold zread; by rewrite Ej, zget_nat, Hp|].
    eapply ensures_bind_runs.
    { apply output_posting_ok; [done|]. rewrite Forall_forall in Hcov. apply Hcov.
      rewrite (all_postings_split k sk ps Hbk). apply elem_of_app. right.
      apply elem_of_app. left. by eapply list_elem_of_lookup_2. }
    intros r3 Hr3. apply ensures_ret. split; [done|]. cbn [fst snd fmap option_fmap option_map].
    split; [done|]. split; [|done]. unfold iter_at. cbn. split; [done|]. split; [done|].
    exists k, j. split; [done|]. split; [done|]. split; [done|].
    split; [done|]. by rewrite (drop_S _ _ _ Hp).
  - assert (Hj : j = length ps) by (unfold zlen in *; lia).
    destruct Hsorted as [Hs Hl]. destruct (Hl k sk ps Hbk) as (q & Hq & Eq).
    assert (Hlt : sk_last_doc_id sk < target).
    { rewrite Eq. apply Htake. rewrite Hj, firstn_all. apply last_Some in Hq as [l ->]. set_solver. }
    assert (Hlastk : length bls = S k).
    { destruct (decide (S k < length bls)%nat) as [Hsk|]; [|lia].
      pose proof (Hlast sk ps Hbk Hsk). lia. }
    assert (Efrom : from_target target = []).
    { rewrite (from_target_split target k j sk ps); try done.
      - rewrite drop_ge by lia. by rewrite drop_ge by lia.
      - rewrite drop_ge by lia. by rewrite drop_ge by lia. }
    rewrite (proj2 (Z.leb_le _ _)) by (cbn [it_current_block]; unfold zlen; lia).
    rewrite Efrom. by apply ensures_ret.
Qed.
End Iterator.

(** ** The claims *)

(** Open an iterator and return everything it yields. *)
Fixpoint drain (fuel : nat) (it : TpSegmentPostingIterator)
    : rst R (list TpSegmentPosting * TpSegmentPostingIterator) :=
  match fuel with
  | O => mret ([], it)
  | S fuel' =>
      '(posting, it1) ← tp_segment_posting_iterator_next it;
      match posting with
      | None => mret ([], it1)
      | Some p => '(ps, it2) ← drain fuel' it1; mret (p :: ps, it2)
      end
  end.

Lemma drain_ok h s c de bls (Hblocks : blocks_at s de bls) : forall fuel it rem r,
  reads_segment h s c r -> iter_at de bls it rem -> Forall (ctids_cover c) rem ->
  (length rem < fuel)%nat ->
  ensures (drain fuel it) r (fun res r' => reads_segment h s c r' /\
    res.1 = output_of c <$> rem /\ it_finished res.2 = true).
Proof.
  induction fuel as [|fuel IH]; intros it rem r Hr Hat Hcov Hf; [lia|]. cbn [drain].
  apply ensures_bind. eapply ensures_mono; [by apply (iter_next_ok h s c de bls Hblocks it rem r)|].
  intros [out it1] r1 (Hr1 & Hout & Hat1 & Hend). cbn [fst snd] in *.
  destruct rem as [|p rem].
  { rewrite Hout. apply ensures_ret. auto. }
  rewrite Hout. cbn [head fmap option_fmap option_map]. apply Forall_cons in Hcov as [_ Hcov].
  simpl in Hf. apply ensures_bind.
  eapply ensures_mono; [by apply (IH it1 rem r1 Hr1 Hat1 Hcov); lia|].
  intros [out' it2] r2 (Hr2 & Hout' & Hend'). cbn [fst snd] in *. apply ensures_ret.
  split; [done|]. cbn [fst snd]. by rewrite Hout'.
Qed.

Lemma init_ok h s c terms entries (Hdict : dictionary_at h s terms entries) term r :
  reads_segment h s c r ->
  ensures (tp_segment_posting_iterator_init term) r (fun res r' => reads_segment h s c r' /\
    match res with
    | (true, it) => exists (i : nat) de, terms !! i = Some (c_str term) /\ entries !! i = Some de /\
        it = mkIterator (Z.of_nat i) de true (de_block_count de =? 0) 0 0
               (mkSkipEntry 0 0 0 0 0 0 0 0) None
    | (false, _) => c_str term ∉ terms
    end).
Proof.
  intros Hr. unfold tp_segment_posting_iterator_init. apply ensures_bind, ensures_gets.
  destruct Hr as [Hd Hc]. rewrite (denotes_header _ _ _ Hd).
  rewrite (da_num_terms _ _ _ _ Hdict).
  rewrite (proj2 (Z.eqb_neq (dictionary_offset h) 0)) by apply (da_offset _ _ _ _ Hdict).
  rewrite orb_false_r. destruct (Z.eqb_spec (zlen terms) 0) as [E|N].
  { apply ensures_ret. split; [done|]. destruct terms; [apply not_elem_of_nil|].
    rewrite zlen_cons in E. pose proof (zlen_nonneg terms). lia. }
  pose proof (da_limit _ _ _ _ Hdict). pose proof (zlen_nonneg terms).
  eapply ensures_bind_runs.
  { apply (read_u32_at h s c r _ (zlen terms)); [done|apply (da_size _ _ _ _ Hdict)|lia|].
    apply (da_count _ _ _ _ Hdict). }
  intros r1 Hr1. apply ensures_bind. eapply ensures_mono; [by apply (find_term_ok h s terms entries c Hdict)|].
  intros [i|] r2 [Hr2 Hres]; cbn [search_result] in Hres; [|by apply ensures_ret].
  pose proof (zget_Some _ _ _ Hres) as Hi. rewrite zget_lookup in Hres by lia.
  destruct (lookup_lt_is_Some_2 entries (Z.to_nat i)) as [de Hde].
  { rewrite (da_lengths _ _ _ _ Hdict). unfold zlen in Hi. lia. }
  replace i with (Z.of_nat (Z.to_nat i)) by lia.
  eapply ensures_bind_runs; [by apply (read_dict_entry_ok h s terms entries c Hdict (Z.to_nat i) de)|].
  intros r3 Hr3. apply ensures_ret. split; [done|]. by exists (Z.to_nat i), de.
Qed.
(** The iterator that [init] returns is before the first posting. *)
Lemma initial_iter_at s i de bls (Hbl : blocks_at s de bls) :
  iter_at de bls (mkIterator i de true (de_block_count de =? 0) 0 0
                    (mkSkipEntry 0 0 0 0 0 0 0 0) None) (all_postings bls).
Proof.
  split; [done|]. split; [done|]. cbn [it_finished it_block_postings it_current_block
    it_current_in_block]. rewrite (ba_count _ _ _ Hbl).
  destruct (Z.eqb_spec (zlen bls) 0) as [E|N].
  - destruct bls; [done|]. rewrite zlen_cons in E. pose proof (zlen_nonneg bls). lia.
  - split; [done|]. split; [done|]. split; [by intros ->|done].
Qed.
End ScanFacts.

Section Properties.
Context {R : Type} `{SegmentAccessLaws R} `{ItemPointerOps}.

(** C10: the dictionary lookup is exact.  In a segment whose dictionary lists
    [terms] in [strcmp] order, opening an iterator finds a term if and only if
    it is listed, and then holds the dictionary entry stored for it. *)
Theorem dictionary_lookup_exact (h : TpSegmentHeader) (s : list byte)
    (terms : list (list byte)) (entries : list TpDictEntry) (c : option (list Z * list Z))
    (term : list byte) (r : R) :
  dictionary_at h s terms entries -> reads_segment h s c r ->
  ensures (tp_segment_posting_iterator_init term) r (fun res r' =>
    reads_segment h s c r' /\ (res.1 = true <-> c_str term ∈ terms) /\
    (res.1 = true -> exists i : nat, terms !! i = Some (c_str term) /\
       it_dict_entry_idx res.2 = Z.of_nat i /\ entries !! i = Some (it_dict_entry res.2))).
Proof.
  intros Hdict Hr. eapply ensures_mono; [by apply (init_ok h s c terms entries)|].
  intros [[] it] r1 [Hr1 Hres]; cbn [fst snd].
  - destruct Hres as (i & de & Hi & He & ->). split; [done|]. split.
    + split; [intros _|done]. by eapply list_elem_of_lookup_2.
    + intros _. exists i. auto.
  - split; [done|]. split; [|done]. split; [done|]. intros Hin. by destruct Hres.
Qed.

(** C11: the iterator enumerates the posting list.  Opened on a listed term and
    advanced until it is exhausted, it returns the postings of all the term's
    blocks, in order, each exactly once, decoded from compressed and from raw
    blocks alike, and ends in the finished state. *)
Theorem iterator_enumerates_postings (h : TpSegmentHeader) (s : list byte)
    (terms : list (list byte)) (entries : list TpDictEntry) (c : option (list Z * list Z))
    (term : list byte) (i : nat) (de : TpDictEntry) (bls : blocks) (r : R) (fuel : nat) :
  dictionary_at h s terms entries -> terms !! i = Some (c_str term) -> entries !! i = Some de ->
  blocks_at s de bls -> Forall (ctids_cover c) (all_postings bls) ->
  reads_segment h s c r -> (length (all_postings bls) < fuel)%nat ->
  ensures ('(found, it) ← tp_segment_posting_iterator_init term;
           if (found : bool) then drain fuel it else mret ([], it)) r
    (fun res r' => reads_segment h s c r' /\ res.1 = output_of c <$> all_postings bls /\
       it_finished res.2 = true).
Proof.
  intros Hdict Hi He Hbl Hcov Hr Hf. apply ensures_bind.
  eapply ensures_mono; [by apply (init_ok h s c terms entries)|].
  intros [[] it] r1 [Hr1 Hres]; cycle 1.
  { destruct Hres. by eapply list_elem_of_lookup_2. }
  destruct Hres as (i' & de' & Hi' & He' & ->).
  assert (i' = i) as ->.
  { destruct (Nat.lt_trichotomy i' i) as [L|[E|L]]; [|done|].
    - pose proof (StronglySorted_lookup _ _ _ _ _ _ (da_sorted _ _ _ _ Hdict) Hi' Hi L) as Hlt.
      by apply term_lt_irrefl in Hlt.
    - pose proof (StronglySorted_lookup _ _ _ _ _ _ (da_sorted _ _ _ _ Hdict) Hi Hi' L) as Hlt.
      by apply term_lt_irrefl in Hlt. }
  assert (de' = de) as -> by congruence.
  apply (drain_ok h s c de bls Hbl); try done.
  by apply (initial_iter_at s).
Qed.

(** C12: seek is exact.  For a posting list sorted by document id whose skip
    entries record each block's last id, a seek from any position (also
    backwards) returns the first posting at or after the target, or nothing if
    there is none, and leaves the iterator so that exactly the postings from
    the target on remain. *)
Theorem seek_finds_first_at_or_after (h : TpSegmentHeader) (s : list byte)
    (c : option (list Z * list Z)) (de : TpDictEntry) (bls : blocks)
    (it : TpSegmentPostingIterator) (target : Z) (r : R) :
  blocks_at s de bls -> blocks_sorted bls -> bls <> [] ->
  Forall (ctids_cover c) (all_postings bls) -> reads_segment h s c r ->
  it_initialized it = true -> it_dict_entry it = de -> it_finished it = false ->
  ensures (tp_segment_posting_iterator_seek it target) r (fun res r' =>
    reads_segment h s c r' /\
    res.1 = output_of c <$> head (filter (fun p => target <= bp_doc_id p) (all_postings bls)) /\
    iter_at de bls res.2 (filter (fun p => target <= bp_doc_id p) (all_postings bls))).
Proof.
  intros Hbl Hs Hne Hcov Hr Hi Hd Hf.
  eapply ensures_mono; [by apply (iter_seek_ok h s c de bls)|].
  intros res r1 (? & ? & ? & _). auto.
Qed.
End Properties.

(** ** The reader of segment.c is a [SegmentAccess] *)

Section Reader.
Context `{PgLayoutLaws} (st : Storage) (blocks_of : list Z).

#[export] Instance reader_access : SegmentAccess TpSegmentReader := {|
  sread off len := fun r => tp_segment_read st r off len;
  sdirect off len := fun r =>
    match tp_segment_get_direct st r off len with
    | Ok d => Ok ((fun bytes => (SizeOfPageHeaderData + tp_page_offset off, bytes)) <$> d, r)
    | Err e => Err e
    end;
  sheader := r_header;
  sctids := r_cached_ctids;
  stenant_id doc_id := fun r => tp_segment_get_tenant_id st r doc_id;
|}.

Context (Hwf : storage_wf st).

#[export] Program Instance reader_access_laws : SegmentAccessLaws TpSegmentReader := {|
  denotes r h s := reader_ok st blocks_of r /\ r_header r = h /\ s = stream st blocks_of;
|}.
Next Obligation. by intros r h s (_ & ? & _). Qed.
Next Obligation.
  intros r h s off len (Hok & Hh & ->) Ho Hl Hin H32.
  rewrite length_stream in Hin by (done || by eapply blocks_in_relation).
  destruct (tp_segment_read_ok st blocks_of r off len Hwf Hok) as (r' & E & Hok'); try done.
  pose proof (tp_segment_read_frame _ _ _ _ _ _ E) as (? & ? & _).
  eexists _, r'. split; [exact E|]. split; [done|]. split; [|done].
  split; [done|]. split; [congruence|done].
Qed.
Next Obligation.
  intros r h s off len (Hok & Hh & ->) Ho Hl Hin H32 Hlt.
  rewrite length_stream in Hin, Hlt by (done || by eapply blocks_in_relation).
  pose proof (get_direct_ok st blocks_of r off len Hwf Hok Ho Hl Hin H32 Hlt) as Hd.
  unfold ensures, sdirect, reader_access.
  destruct (tp_segment_get_direct st r off len) as [[bytes|]|]; [..|done];
    eexists _, r; (split; [reflexivity|]); (split; [by split|]); (split; [done|]); done.
Qed.
End Reader.

(** ** A small segment, for the witnesses

    Three pages of 40 bytes: a dictionary of two terms, its strings and
    entries, the skip entries of the first term's two blocks, its postings. *)
Section Witnesses.
#[local] Existing Instances small_layout small_layout_laws first_fit first_fit_laws.

Definition demo_terms : list (list byte) := [[x61]; [x62]].
Definition demo_entries : list TpDictEntry := [mkDictEntry 50 2 3; mkDictEntry 0 0 0].
Definition demo_blocks : blocks :=
  [(mkSkipEntry 4 2 3 7 82 0 0 0, [mkBlockPosting 1 3 5; mkBlockPosting 4 1 7]);
   (mkSkipEntry 9 1 2 6 98 0 0 0, [mkBlockPosting 9 2 6])].

Definition demo_bytes : list byte :=
  u32_bytes 0 ++ u32_bytes 2 ++ u32_bytes 0 ++ u32_bytes 5
  ++ (u32_bytes 1 ++ [x61]) ++ (u32_bytes 1 ++ [x62])
  ++ encode_array encode_dict_entry demo_entries
  ++ encode_array encode_skip_entry demo_blocks.*1
  ++ encode_array encode_block_posting (all_postings demo_blocks)
  ++ replicate 14 x00.

Definition demo_segment_header : TpSegmentHeader :=
  mkSegmentHeader TP_SEGMENT_MAGIC 4 0 3 106 0 InvalidBlockNumber 4 16 26 82 50 0 0 0 2 10 0 0
    0 0 0 0 0.

Definition demo_segment : Storage :=
  mkStorage (PageInit 0 :: ((fun k => mkPage 64 (sub_list (k * 40) 40 demo_bytes)) <$> [0; 1; 2]))
    [] 0.

Definition demo_ctids : option (list Z * list Z) := Some (replicate 10 7, seqZ 1 10).

Definition demo_reader : TpSegmentReader :=
  mkSegmentReader 0 demo_segment_header [1; 2; 3] 3 4 None UINT32_MAX demo_ctids None false.

Lemma demo_segment_wf : storage_wf demo_segment.
Proof. split; [forall_compute|constructor|constructor|by vm_compute]. Qed.

Lemma demo_stream : stream demo_segment [1; 2; 3] = demo_bytes.
Proof. by vm_compute. Qed.

#[local] Instance demo_access : SegmentAccess TpSegmentReader := reader_access demo_segment.
#[local] Instance demo_laws : SegmentAccessLaws TpSegmentReader :=
  reader_access_laws demo_segment [1; 2; 3] demo_segment_wf.

Lemma demo_reads : reads_segment demo_segment_header demo_bytes demo_ctids demo_reader.
Proof.
  split; [|done]. split; [|by rewrite <- demo_stream].
  split; [done..| |done]. forall_compute.
Qed.

Ltac at_offset_compute := split; [by vm_compute|]; split; by vm_compute.

Lemma demo_dictionary : dictionary_at demo_segment_header demo_bytes demo_terms demo_entries.
Proof.
  split.
  - by vm_compute.
  - done.
  - at_offset_compute.
  - done.
  - intros [|[|i]] t Hi; simplify_eq/=; [exists 0|exists 5];
      (split; [done|]); split; at_offset_compute.
  - intros [|[|i]] e Hi; simplify_eq/=; (split; [repeat split; by vm_compute|at_offset_compute]).
  - done.
  - repeat (constructor || (constructor; [by vm_compute|])).
  - repeat (apply Forall_cons; split; [by intros Hin%list_elem_of_singleton|]). constructor.
  - by vm_compute.
Qed.

Lemma demo_blocks_at : blocks_at demo_bytes (mkDictEntry 50 2 3) demo_blocks.
Proof.
  split; [by vm_compute|done|].
  intros [|[|k]] sk ps Hk; simplify_eq/=; (split; [repeat split; by vm_compute|]);
    (split; [at_offset_compute|]); (split; [done|]); (split; [done|]);
    (split; [repeat constructor; by vm_compute|at_offset_compute]).
Qed.

Lemma demo_cover : Forall (ctids_cover demo_ctids) (all_postings demo_blocks).
Proof. unfold all_postings, demo_blocks. cbn. forall_compute. Qed.

Lemma dictionary_lookup_exact_witness :
  ensures (tp_segment_posting_iterator_init [x62; x00; x63]) demo_reader (fun res r' =>
    reads_segment demo_segment_header demo_bytes demo_ctids r' /\ res.1 = true).
Proof.
  eapply ensures_mono;
    [exact (dictionary_lookup_exact demo_segment_header demo_bytes demo_terms demo_entries
       demo_ctids [x62; x00; x63] demo_reader demo_dictionary demo_reads)|].
  intros res r' (Hr & Hin & _). split; [exact Hr|]. apply Hin. right. left.
Defined.

Lemma iterator_enumerates_postings_witness :
  ensures ('(found, it) ← tp_segment_posting_iterator_init [x61];
           if (found : bool) then drain 4 it else mret ([], it)) demo_reader
    (fun res r' => res.1 =
       [mkSegmentPosting (mkItemPointer 7 2) 1 3 5; mkSegmentPosting (mkItemPointer 7 5) 4 1 7;
        mkSegmentPosting (mkItemPointer 7 10) 9 2 6]).
Proof.
  eapply ensures_mono;
    [exact (iterator_enumerates_postings demo_segment_header demo_bytes demo_terms demo_entries
       demo_ctids [x61] 0 (mkDictEntry 50 2 3) demo_blocks demo_reader 4 demo_dictionary
       eq_refl eq_refl demo_blocks_at demo_cover demo_reads ltac:(vm_compute; lia))|].
  intros res r' (_ & Hres & _). rewrite Hres. reflexivity.
Defined.

Lemma seek_finds_first_at_or_after_witness :
  ensures (tp_segment_posting_iterator_seek
             (mkIterator 0 (mkDictEntry 50 2 3) true false 1 1
                (mkSkipEntry 9 1 2 6 98 0 0 0) (Some [mkBlockPosting 9 2 6])) 2) demo_reader
    (fun res r' => res.1 = Some (mkSegmentPosting (mkItemPointer 7 5) 4 1 7)).
Proof.
  eapply ensures_mono;
    [apply (seek_finds_first_at_or_after demo_segment_header demo_bytes demo_ctids
       (mkDictEntry 50 2 3) demo_blocks)|].
  - exact demo_blocks_at.
  - split; [repeat (constructor; [|forall_compute]); constructor|].
    intros [|[|k]] sk ps Hk; simplify_eq/=; eauto.
  - discriminate.
  - exact demo_cover.
  - exact demo_reads.
  - reflexivity.
  - reflexivity.
  - reflexivity.
  - intros res r' (_ & Hres & _). rewrite Hres. reflexivity.
Defined.
End Witnesses.
