(* ===== verification/Memtable.v ===== *)
(** * The memtable (src/memtable/)

    The in-memory inverted index: a string table from terms to posting lists,
    a table of document lengths and one of tenant statistics, all in a dynamic
    shared memory area.

    The area is modelled as a store of chunks, so that allocation, reallocation
    and freeing are visible: accessing a pointer that is not allocated is an
    error of the model, and a theorem that an operation succeeds says that it
    makes no such access.  A hash table of the server is a finite map (see
    Postgres); [string_keys_are_their_contents] justifies it for the string
    table, whose keys are pointers.  Handles that are not yet valid are [None]. *)
From S2P Require Import Prelude Postgres.

#[global] Instance byte_countable : Countable byte :=
  inj_countable Byte.to_N Byte.of_N Byte.of_to_N.

(** ** Dynamic shared memory *)

Record TpPostingEntry := mkPostingEntry {
  pe_ctid : ItemPointerData;
  pe_frequency : Z;
  pe_tenant_id : Z;
}.

Record TpPostingList := mkPostingList {
  pl_doc_count : Z;
  pl_capacity : Z;
  pl_is_sorted : bool;
  pl_doc_freq : Z;
  pl_entries_dp : Z;
}.

#[global] Instance TpPostingEntry_eq_dec : EqDecision TpPostingEntry.
Proof. solve_decision. Defined.
#[global] Instance TpPostingList_eq_dec : EqDecision TpPostingList.
Proof. solve_decision. Defined.

(** What a pointer points to: a string, a posting list, or an array of posting
    entries (a slot that was never written is [None]). *)
Inductive dsa_chunk :=
  | ChunkString (s : list byte)
  | ChunkPostingList (pl : TpPostingList)
  | ChunkEntries (slots : list (option TpPostingEntry)).

#[global] Instance dsa_chunk_eq_dec : EqDecision dsa_chunk.
Proof. solve_decision. Defined.

Abbreviation dsa_area := (gmap Z dsa_chunk).

Definition InvalidDsaPointer : Z := 0.
Definition DsaPointerIsValid (dp : Z) : bool := negb (dp =? InvalidDsaPointer).

(** [dsa_allocate] returns some pointer that is not in use. *)
Class DsaAllocator := dsa_fresh : gset Z -> Z.

Class DsaAllocatorLaws `{DsaAllocator} : Prop := {
  dsa_fresh_unused X : dsa_fresh X ∉ X;
  dsa_fresh_valid X : dsa_fresh X <> InvalidDsaPointer;
}.

(** ** State *)

(** A stored key of the string table. *)
Record TpStringHashEntry := mkStringHashEntry {
  key_dp : Z;
  key_posting_list : Z;
}.

Record TpDocLengthEntry := mkDocLengthEntry {
  dl_ctid : ItemPointerData;
  dl_doc_length : Z;
  dl_tenant_id : Z;
}.

Record TpTenantStatsEntry := mkTenantStatsEntry {
  ts_tenant_id : Z;
  ts_doc_count : Z;
  ts_total_len : Z;
}.

Record TpMemtable := mkMemtable {
  string_table : option (gmap (list byte) TpStringHashEntry);
  total_terms : Z;
  total_postings : Z;
  doc_lengths : option (gmap ItemPointerData TpDocLengthEntry);
  tenant_stats : option (gmap Z TpTenantStatsEntry);
}.

Record TpLocalIndexState := mkIndexState {
  total_docs : Z;
  total_len : Z;
  memtable : TpMemtable;
  dsa : dsa_area;
  is_build_mode : bool;
  terms_added_this_xact : Z;
  build_tenant_stats_accum : option (gmap Z TpTenantStatsEntry);
}.

Definition empty_memtable : TpMemtable := mkMemtable None 0 0 None None.

Definition set_memtable (st : TpLocalIndexState) (m : TpMemtable) : TpLocalIndexState :=
  mkIndexState (total_docs st) (total_len st) m (dsa st) (is_build_mode st)
    (terms_added_this_xact st) (build_tenant_stats_accum st).
Definition set_dsa (st : TpLocalIndexState) (d : dsa_area) : TpLocalIndexState :=
  mkIndexState (total_docs st) (total_len st) (memtable st) d (is_build_mode st)
    (terms_added_this_xact st) (build_tenant_stats_accum st).
Definition set_string_table (st : TpLocalIndexState)
    (t : option (gmap (list byte) TpStringHashEntry)) : TpLocalIndexState :=
  set_memtable st (mkMemtable t (total_terms (memtable st)) (total_postings (memtable st))
    (doc_lengths (memtable st)) (tenant_stats (memtable st))).

(** ** String keys (src/memtable/stringtable.c)

    A key used for a lookup points to the caller's bytes and has a length; a
    stored key points to a NUL-terminated copy. *)
Inductive TpStringKey :=
  | LookupKey (str : list byte) (len : Z)
  | StoredKey (dp posting_list : Z).

Definition tp_get_key_str (area : dsa_area) (key : TpStringKey) : res (list byte) :=
  match key with
  | LookupKey str _ => Ok str
  | StoredKey dp _ =>
      match area !! dp with Some (ChunkString s) => Ok s | _ => Err OUT_OF_BOUNDS_ACCESS end
  end.

Definition tp_get_key_len (area : dsa_area) (key : TpStringKey) : res Z :=
  match key with
  | LookupKey _ len => Ok len
  | StoredKey _ _ => strlen <$> tp_get_key_str area key
  end.

Definition tp_string_compare_function (area : dsa_area) (a b : TpStringKey) : res Z :=
  str_a ← tp_get_key_str area a;
  str_b ← tp_get_key_str area b;
  len_a ← tp_get_key_len area a;
  len_b ← tp_get_key_len area b;
  if negb (len_a =? len_b) then Ok (if len_a <? len_b then -1 else 1)
  else Ok (bytes_compare (sub_list 0 len_a str_a) (sub_list 0 len_a str_b)).

Definition tp_string_hash_function (hash_bytes : list byte -> Z) (area : dsa_area)
    (key : TpStringKey) : res Z :=
  str ← tp_get_key_str area key;
  len ← tp_get_key_len area key;
  Ok (hash_bytes (sub_list 0 len str)).

Section Memtable.
Context `{ItemPointerOps} `{DsaAllocator} `{HashSeq}.

Abbreviation M := (rst TpLocalIndexState).

(** ** Allocation *)

Definition dsa_allocate (c : dsa_chunk) : M Z :=
  area ← rst_gets dsa;
  let dp := dsa_fresh (dom area) in
  _ ← rst_modify (fun st => set_dsa st (<[dp := c]> (dsa st)));
  mret dp.

Definition dsa_get_address (dp : Z) : M dsa_chunk :=
  area ← rst_gets dsa;
  match area !! dp with Some c => mret c | None => rst_fail OUT_OF_BOUNDS_ACCESS end.

Definition dsa_store (dp : Z) (c : dsa_chunk) : M unit :=
  rst_modify (fun st => set_dsa st (<[dp := c]> (dsa st))).

Definition dsa_free (dp : Z) : M unit :=
  _ ← dsa_get_address dp;
  rst_modify (fun st => set_dsa st (delete dp (dsa st))).

Definition get_posting_list (dp : Z) : M TpPostingList :=
  c ← dsa_get_address dp;
  match c with ChunkPostingList pl => mret pl | _ => rst_fail OUT_OF_BOUNDS_ACCESS end.

Definition tp_get_posting_entries (pl : TpPostingList)
    : M (option (list (option TpPostingEntry))) :=
  if negb (DsaPointerIsValid (pl_entries_dp pl)) then mret None
  else
    c ← dsa_get_address (pl_entries_dp pl);
    match c with ChunkEntries slots => mret (Some slots) | _ => rst_fail OUT_OF_BOUNDS_ACCESS end.

(** ** Posting lists (src/memtable/posting.c) *)

Definition TP_INITIAL_POSTING_LIST_CAPACITY : Z := 16.
Definition TP_POSTING_LIST_GROWTH_FACTOR : Z := 2.

Definition tp_free_posting_list (posting_list_dp : Z) : M unit :=
  if negb (DsaPointerIsValid posting_list_dp) then mret tt
  else
    pl ← get_posting_list posting_list_dp;
    _ ← (if DsaPointerIsValid (pl_entries_dp pl) then dsa_free (pl_entries_dp pl) else mret tt);
    dsa_free posting_list_dp.

Definition tp_alloc_posting_list : M Z :=
  dsa_allocate (ChunkPostingList (mkPostingList 0 0 false 0 InvalidDsaPointer)).

(** Make room: [memcpy] copies the first [doc_count] slots of the old array. *)
Definition expand_entries (pl : TpPostingList) : M TpPostingList :=
  let new_capacity :=
    if pl_capacity pl =? 0 then TP_INITIAL_POSTING_LIST_CAPACITY
    else i32 (pl_capacity pl * TP_POSTING_LIST_GROWTH_FACTOR) in
  let fresh_slots := replicate (Z.to_nat new_capacity) None in
  new_dp ← dsa_allocate (ChunkEntries fresh_slots);
  _ ← (if (0 <? pl_doc_count pl) && DsaPointerIsValid (pl_entries_dp pl) then
         old ← tp_get_posting_entries pl;
         let copied := sub_list 0 (pl_doc_count pl) (default [] old) in
         _ ← dsa_store new_dp
               (ChunkEntries (copied ++ drop (length copied) fresh_slots));
         dsa_free (pl_entries_dp pl)
       else mret tt);
  mret (mkPostingList (pl_doc_count pl) new_capacity (pl_is_sorted pl) (pl_doc_freq pl) new_dp).

Definition tp_add_document_to_posting_list (posting_list_dp : Z) (ctid : ItemPointerData)
    (frequency tenant_id : Z) : M unit :=
  pl0 ← get_posting_list posting_list_dp;
  pl ← (if pl_capacity pl0 <=? pl_doc_count pl0 then
          pl1 ← expand_entries pl0;
          _ ← dsa_store posting_list_dp (ChunkPostingList pl1);
          mret pl1
        else mret pl0);
  entries ← tp_get_posting_entries pl;
  let slots := default [] entries in
  if negb ((0 <=? pl_doc_count pl) && (pl_doc_count pl <? zlen slots))
  then rst_fail OUT_OF_BOUNDS_ACCESS
  else
    _ ← dsa_store (pl_entries_dp pl)
          (ChunkEntries (<[Z.to_nat (pl_doc_count pl) :=
                            Some (mkPostingEntry ctid frequency tenant_id)]> slots));
    let doc_count := i32 (pl_doc_count pl + 1) in
    _ ← dsa_store posting_list_dp
          (ChunkPostingList (mkPostingList doc_count (pl_capacity pl) false doc_count
                               (pl_entries_dp pl)));
    rst_modify (fun st =>
      let m := memtable st in
      set_memtable st (mkMemtable (string_table m) (total_terms m) (i64 (total_postings m + 1))
                         (doc_lengths m) (tenant_stats m))).

Definition tp_store_document_length (ctid : ItemPointerData) (doc_length tenant_id : Z) : M unit :=
  rst_modify (fun st =>
    let m := memtable st in
    set_memtable st (mkMemtable (string_table m) (total_terms m) (total_postings m)
      (Some (<[ctid := mkDocLengthEntry ctid doc_length tenant_id]> (default ∅ (doc_lengths m))))
      (tenant_stats m))).

Definition tp_get_document_length_attached
    (doclength_table : gmap ItemPointerData TpDocLengthEntry) (ctid : ItemPointerData) : Z :=
  match doclength_table !! ctid with Some e => dl_doc_length e | None => -1 end.

Definition tp_get_document_length (ctid : ItemPointerData) : M Z :=
  m ← rst_gets memtable;
  match doc_lengths m with
  | None => mret (-1)
  | Some t => mret (tp_get_document_length_attached t ctid)
  end.

(** ** The string table (src/memtable/stringtable.c) *)

Definition tp_alloc_string_dsa (str : list byte) : M Z := dsa_allocate (ChunkString (str ++ [x00])).

(** A term is a C string; [len] is its [strlen]. *)
Definition tp_string_table_lookup (ht : gmap (list byte) TpStringHashEntry) (str : list byte)
    : option TpStringHashEntry :=
  if zlen str =? 0 then None else ht !! str.

Definition tp_string_table_insert (str : list byte) : M TpStringHashEntry :=
  m ← rst_gets memtable;
  match default ∅ (string_table m) !! str with
  | Some e => mret e
  | None =>
      dp ← tp_alloc_string_dsa str;
      pl ← tp_alloc_posting_list;
      let e := mkStringHashEntry dp pl in
      _ ← rst_modify (fun st =>
            set_string_table st (Some (<[str := e]> (default ∅ (string_table (memtable st))))));
      mret e
  end.

(** [while (dshash_seq_next)]: free the string and the posting list, delete the
    current entry. *)
Fixpoint clear_entries (entries : list (list byte * TpStringHashEntry)) : M unit :=
  match entries with
  | [] => mret tt
  | (str, e) :: entries' =>
      _ ← dsa_free (key_dp e);
      _ ← tp_free_posting_list (key_posting_list e);
      _ ← rst_modify (fun st =>
            set_string_table st (delete str <$> string_table (memtable st)));
      clear_entries entries'
  end.

Definition tp_string_table_clear : M unit :=
  m ← rst_gets memtable;
  clear_entries (hash_seq (default ∅ (string_table m))).

Definition tp_get_posting_list (term : list byte) : M (option (Z * TpPostingList)) :=
  m ← rst_gets memtable;
  match string_table m with
  | None => mret None
  | Some ht =>
      match tp_string_table_lookup ht (c_str term) with
      | Some e =>
          if DsaPointerIsValid (key_posting_list e) then
            pl ← get_posting_list (key_posting_list e);
            mret (Some (key_posting_list e, pl))
          else mret None
      | None => mret None
      end
  end.

(** The pointer of the term's posting list. *)
Definition tp_get_or_create_posting_list (term : list byte) : M Z :=
  m ← rst_gets memtable;
  _ ← match string_table m with
      | None => rst_modify (fun st => set_string_table st (Some ∅))
      | Some _ => mret tt
      end;
  m ← rst_gets memtable;
  e ← match tp_string_table_lookup (default ∅ (string_table m)) (c_str term) with
      | Some e => mret e
      | None => tp_string_table_insert (c_str term)
      end;
  if DsaPointerIsValid (key_posting_list e) then mret (key_posting_list e)
  else
    dp ← tp_alloc_posting_list;
    _ ← rst_modify (fun st =>
          set_string_table st (<[c_str term := mkStringHashEntry (key_dp e) dp]> <$>
                                 string_table (memtable st)));
    mret dp.

(** ** Tenant statistics (src/memtable/tenant_stats.c) *)

Definition tp_update_tenant_stats (tenant_id doc_length : Z) : M unit :=
  rst_modify (fun st =>
    let m := memtable st in
    let table := default ∅ (tenant_stats m) in
    let entry :=
      match table !! tenant_id with
      | None => mkTenantStatsEntry tenant_id 1 doc_length
      | Some e => mkTenantStatsEntry (ts_tenant_id e) (u32 (ts_doc_count e + 1))
                    (i64 (ts_total_len e + doc_length))
      end in
    set_memtable st (mkMemtable (string_table m) (total_terms m) (total_postings m)
                       (doc_lengths m) (Some (<[tenant_id := entry]> table)))).

Definition tp_get_tenant_stats (tenant_id : Z) : M (option (Z * Z)) :=
  m ← rst_gets memtable;
  match tenant_stats m with
  | None => mret None
  | Some table =>
      match table !! tenant_id with
      | Some e => mret (Some (ts_doc_count e, ts_total_len e))
      | None => mret None
      end
  end.

Definition tp_tenant_stats_initialized : M bool :=
  m ← rst_gets memtable;
  mret (match tenant_stats m with Some _ => true | None => false end).

Definition tp_tenant_stats_collect : M (list TpTenantStatsEntry) :=
  m ← rst_gets memtable;
  match tenant_stats m with
  | None => mret []
  | Some table => mret (hash_seq table).*2
  end.

(** ** Adding a document *)

Fixpoint add_terms (ctid : ItemPointerData) (terms : list (list byte)) (frequencies : list Z)
    (tenant_id : Z) : M unit :=
  match terms, frequencies with
  | t :: terms', f :: fs =>
      dp ← tp_get_or_create_posting_list t;
      _ ← tp_add_document_to_posting_list dp ctid f tenant_id;
      add_terms ctid terms' fs tenant_id
  | _, _ => mret tt
  end.

Definition tp_add_document_terms (ctid : ItemPointerData) (terms : list (list byte))
    (frequencies : list Z) (doc_length tenant_id : Z) : M unit :=
  _ ← add_terms ctid terms frequencies tenant_id;
  _ ← tp_store_document_length ctid doc_length tenant_id;
  _ ← rst_modify (fun st =>
        mkIndexState (i32 (total_docs st + 1)) (i64 (total_len st + doc_length)) (memtable st)
          (dsa st) (is_build_mode st) (terms_added_this_xact st) (build_tenant_stats_accum st));
  _ ← (if negb (tenant_id =? 0) then tp_update_tenant_stats tenant_id doc_length else mret tt);
  rst_modify (fun st =>
    mkIndexState (total_docs st) (total_len st) (memtable st) (dsa st) (is_build_mode st)
      (i64 (terms_added_this_xact st + zlen terms)) (build_tenant_stats_accum st)).

(** ** Clearing (src/state/state.c) *)

Definition accumulate_stats (acc : gmap Z TpTenantStatsEntry) (e : TpTenantStatsEntry)
    : gmap Z TpTenantStatsEntry :=
  <[ts_tenant_id e :=
     match acc !! ts_tenant_id e with
     | None => e
     | Some l => mkTenantStatsEntry (ts_tenant_id l) (u32 (ts_doc_count l + ts_doc_count e))
                   (i64 (ts_total_len l + ts_total_len e))
     end]> acc.

(** Detaching the private area frees all of it. *)
Definition tp_recreate_build_dsa : M unit :=
  rst_modify (fun st => set_dsa (set_memtable st empty_memtable) ∅).

Definition tp_clear_memtable : M unit :=
  build ← rst_gets is_build_mode;
  if (build : bool) then
    entries ← tp_tenant_stats_collect;
    _ ← (if (0 <? zlen entries) then
           rst_modify (fun st =>
             mkIndexState (total_docs st) (total_len st) (memtable st) (dsa st)
               (is_build_mode st) (terms_added_this_xact st)
               (Some (foldl accumulate_stats (default ∅ (build_tenant_stats_accum st)) entries)))
         else mret tt);
    tp_recreate_build_dsa
  else
    m ← rst_gets memtable;
    _ ← match string_table m with
        | Some _ =>
            _ ← tp_string_table_clear;
            rst_modify (fun st =>
              let m := memtable st in
              set_memtable st (mkMemtable None 0 (total_postings m) (doc_lengths m)
                                 (tenant_stats m)))
        | None => mret tt
        end;
    rst_modify (fun st =>
      let m := memtable st in
      set_memtable st (mkMemtable (string_table m) (total_terms m) 0 None (tenant_stats m))).

(** The end of a build: the private area is dropped, the state moves to the
    global one ([global]), and the tenant statistics saved during the build are
    restored. *)
Definition tp_finalize_build_mode (global : dsa_area) : M unit :=
  rst_modify (fun st =>
    let stats :=
      match build_tenant_stats_accum st with
      | None => None
      | Some acc => Some (foldl accumulate_stats ∅ (hash_seq acc).*2)
      end in
    mkIndexState (total_docs st) (total_len st) (mkMemtable None 0 0 None stats) global
      false (terms_added_this_xact st) None).

(** ** The memtable as a data source (src/source.c, src/memtable/source.c) *)

Record TpPostingData := mkPostingData {
  pd_ctids : list ItemPointerData;
  pd_frequencies : list Z;
  pd_tenant_ids : option (list Z);
  pd_count : Z;
  pd_doc_freq : Z;
}.

Record TpDataSource := mkDataSource {
  ds_total_docs : Z;
  ds_total_len : Z;
  get_postings : list byte -> M (option TpPostingData);
  get_doc_length : ItemPointerData -> M Z;
}.

Definition tp_string_table_get_posting_list (term : list byte)
    : M (option TpPostingList) :=
  m ← rst_gets memtable;
  match tp_string_table_lookup (default ∅ (string_table m)) (c_str term) with
  | Some e =>
      if DsaPointerIsValid (key_posting_list e)
      then Some <$> get_posting_list (key_posting_list e)
      else mret None
  | None => mret None
  end.

(** The first [n] slots of an entry array; reading a slot that was never written
    is an error. *)
Fixpoint read_slots (n : nat) (slots : list (option TpPostingEntry)) : res (list TpPostingEntry) :=
  match n, slots with
  | O, _ => Ok []
  | S n', Some e :: slots' => es ← read_slots n' slots'; Ok (e :: es)
  | S _, _ => Err OUT_OF_BOUNDS_ACCESS
  end.

(** [attached]: the string table existed when the source was created. *)
Definition memtable_get_postings (attached : bool) (term : list byte)
    : M (option TpPostingData) :=
  if negb attached then mret None
  else
    posting_list ← tp_string_table_get_posting_list term;
    match posting_list with
    | None => mret None
    | Some pl =>
        if pl_doc_count pl =? 0 then mret None
        else
          entries ← tp_get_posting_entries pl;
          match entries with
          | None => mret None
          | Some slots =>
              es ← rst_lift (read_slots (Z.to_nat (pl_doc_count pl)) slots);
              mret (Some (mkPostingData (pe_ctid <$> es) (pe_frequency <$> es)
                (Some (pe_tenant_id <$> es)) (pl_doc_count pl)
                (if 0 <? pl_doc_freq pl then pl_doc_freq pl else pl_doc_count pl)))
          end
    end.

Definition memtable_get_doc_length (attached : bool) (ctid : ItemPointerData) : M Z :=
  if negb attached then mret (-1)
  else
    m ← rst_gets memtable;
    mret (tp_get_document_length_attached (default ∅ (doc_lengths m)) ctid).

Definition tp_memtable_source_create : M TpDataSource :=
  st ← rst_gets id;
  let m := memtable st in
  mret (mkDataSource (total_docs st) (total_len st)
    (memtable_get_postings (match string_table m with Some _ => true | None => false end))
    (memtable_get_doc_length (match doc_lengths m with Some _ => true | None => false end))).

(** ** The dictionary of a segment (src/segment/dictionary.c) *)

Record TermInfo := mkTermInfo {
  ti_term : list byte;
  ti_term_len : Z;
  ti_posting_list_dp : Z;
}.

Definition term_info_cmp (ta tb : TermInfo) : Z := strcmp (ti_term ta) (ti_term tb).

(** [while (dshash_seq_next)]: a copy of every key, read through its pointer. *)
Fixpoint collect_terms (entries : list (list byte * TpStringHashEntry)) : M (list TermInfo) :=
  match entries with
  | [] => mret []
  | (_, e) :: entries' =>
      area ← rst_gets dsa;
      str ← rst_lift (tp_get_key_str area (StoredKey (key_dp e) (key_posting_list e)));
      rest ← collect_terms entries';
      mret (mkTermInfo (c_str str) (strlen str) (key_posting_list e) :: rest)
  end.

Definition tp_build_dictionary `{QSort} : M (list TermInfo) :=
  m ← rst_gets memtable;
  match string_table m with
  | None => mret []
  | Some ht =>
      terms ← collect_terms (hash_seq ht);
      mret (qsort term_info_cmp terms)
  end.
End Memtable.
