(* ===== verification/MemtableFacts.v ===== *)
(** * Correctness of the memtable (src/memtable/)

    [store_ok] ties the memory of the shared area to an abstract index, a finite
    map from terms to posting lists: every pointer of the memtable has exactly
    one owner, every owned chunk is reachable, everything else in the area is
    left alone.  Every operation preserves it and acts on the abstract index as
    expected; since an access outside the allocated chunks is an error of the
    model, this includes memory safety. *)
From S2P Require Import Prelude Postgres Memtable.

Abbreviation term := (list byte).

(** The part of a term's memory that a pointer is. *)
Inductive role := RoleString | RolePostings | RoleEntries.

#[global] Instance role_eq_dec : EqDecision role.
Proof. solve_decision. Defined.

Abbreviation owners := (gmap Z (term * role)).

Section Store.
Context `{DsaAllocatorLaws}.

(** The posting list [pl] holds the entries [l] and room for more. *)
Record posting_list_ok (area : dsa_area) (pl : TpPostingList) (l : list TpPostingEntry)
    : Prop := {
  plo_count : pl_doc_count pl = zlen l;
  plo_freq : pl_doc_freq pl = zlen l;
  plo_empty : pl_capacity pl = 0 -> pl_entries_dp pl = InvalidDsaPointer /\ l = [];
  plo_slots : pl_capacity pl <> 0 ->
    pl_entries_dp pl <> InvalidDsaPointer /\
    exists rest, area !! pl_entries_dp pl = Some (ChunkEntries ((Some <$> l) ++ rest)) /\
      zlen l + zlen rest = pl_capacity pl;
}.

(** The memory of the term [t]: its string, its posting list, its entries. *)
Record term_at (area : dsa_area) (own : owners) (t : term) (e : TpStringHashEntry)
    (pl : TpPostingList) (l : list TpPostingEntry) : Prop := {
  ta_valid : key_posting_list e <> InvalidDsaPointer;
  ta_string : area !! key_dp e = Some (ChunkString (t ++ [x00]));
  ta_postings : area !! key_posting_list e = Some (ChunkPostingList pl);
  ta_list : posting_list_ok area pl l;
  ta_own : forall p r, own !! p = Some (t, r) <->
    match r with
    | RoleString => p = key_dp e
    | RolePostings => p = key_posting_list e
    | RoleEntries => p = pl_entries_dp pl /\ pl_capacity pl <> 0
    end;
}.

Record store_ok (area frame : dsa_area) (ht : gmap term TpStringHashEntry) (own : owners)
    (post : gmap term (list TpPostingEntry)) : Prop := {
  so_terms : forall t, match ht !! t, post !! t with
    | Some e, Some l => exists pl, term_at area own t e pl l
    | None, None => True
    | _, _ => False
    end;
  so_own : forall p t r, own !! p = Some (t, r) -> is_Some (ht !! t);
  so_frame : forall p, match own !! p with
    | Some _ => frame !! p = None
    | None => area !! p = frame !! p
    end;
}.

Lemma store_lookup area frame ht own post t e :
  store_ok area frame ht own post -> ht !! t = Some e ->
  exists l pl, post !! t = Some l /\ term_at area own t e pl l.
Proof.
  intros Hok Ht. pose proof (so_terms _ _ _ _ _ Hok t) as Hs. rewrite Ht in Hs.
  destruct (post !! t) as [l|]; [|done]. destruct Hs as [pl Hs]. by exists l, pl.
Qed.

Lemma store_absent area frame ht own post t p r :
  store_ok area frame ht own post -> ht !! t = None -> own !! p <> Some (t, r).
Proof. intros Hok Ht Hp. apply (so_own _ _ _ _ _ Hok) in Hp as [e He]. congruence. Qed.

(** A pointer that is not allocated has no owner. *)
Lemma store_unowned area frame ht own post p :
  store_ok area frame ht own post -> area !! p = None -> own !! p = None /\ frame !! p = None.
Proof.
  intros Hok Hp. pose proof (so_frame _ _ _ _ _ Hok p) as Hf.
  destruct (own !! p) as [[t r]|] eqn:Ho; [|by rewrite <- Hf].
  exfalso. destruct (so_own _ _ _ _ _ Hok p t r Ho) as [e He].
  destruct (store_lookup _ _ _ _ _ _ _ Hok He) as (l & pl & _ & [Hv Hstr Hpl Hlist Hown]).
  apply Hown in Ho. destruct r.
  - congruence.
  - congruence.
  - destruct Ho as [-> Hc]. destruct (plo_slots _ _ _ Hlist Hc) as (_ & rest & ? & _). congruence.
Qed.

Lemma posting_list_ok_ext area area' pl l :
  (pl_capacity pl <> 0 -> area' !! pl_entries_dp pl = area !! pl_entries_dp pl) ->
  posting_list_ok area pl l -> posting_list_ok area' pl l.
Proof.
  intros E [Hc Hf He Hs]. split; try done. intros Hne. destruct (Hs Hne) as (? & rest & ? & ?).
  split; [done|]. exists rest. rewrite E by done. done.
Qed.

(** The memory of a term is untouched by changes elsewhere. *)
Lemma term_at_ext area area' own own' t e pl l :
  (forall p r, own' !! p = Some (t, r) <-> own !! p = Some (t, r)) ->
  (forall p r, own !! p = Some (t, r) -> area' !! p = area !! p) ->
  term_at area own t e pl l -> term_at area' own' t e pl l.
Proof.
  intros Ho Ha [Hv Hstr Hpl Hlist Hown].
  assert (E1 : area' !! key_dp e = area !! key_dp e) by (apply (Ha _ RoleString); by apply Hown).
  assert (E2 : area' !! key_posting_list e = area !! key_posting_list e)
    by (apply (Ha _ RolePostings); by apply Hown).
  split; [done|congruence|congruence| |].
  - apply (posting_list_ok_ext area); [|done]. intros Hc. apply (Ha _ RoleEntries).
    by apply Hown.
  - intros p r. rewrite Ho. apply Hown.
Qed.

(** Replacing the memory of one term. *)
Lemma store_update area area' frame ht own own' post t e pl l :
  store_ok area frame ht own post ->
  (forall p t' r, t' <> t -> own' !! p = Some (t', r) <-> own !! p = Some (t', r)) ->
  (forall p t' r, t' <> t -> own !! p = Some (t', r) -> area' !! p = area !! p) ->
  (forall p, match own' !! p with Some _ => frame !! p = None | None => area' !! p = frame !! p end) ->
  term_at area' own' t e pl l ->
  store_ok area' frame (<[t := e]> ht) own' (<[t := l]> post).
Proof.
  intros Hok Ho Ha Hfr Hat. split.
  - intros t'. destruct (decide (t' = t)) as [->|Ht].
    + rewrite !lookup_insert_eq. by exists pl.
    + rewrite !lookup_insert_ne by done. pose proof (so_terms _ _ _ _ _ Hok t') as Hs.
      destruct (ht !! t') as [e'|], (post !! t') as [l'|]; try done.
      destruct Hs as [pl' Hs]. exists pl'. eapply term_at_ext; [| |exact Hs].
      * intros p r. by apply Ho.
      * intros p r. by apply Ha.
  - intros p t' r Hp. destruct (decide (t' = t)) as [->|Ht].
    + rewrite lookup_insert_eq. eauto.
    + rewrite lookup_insert_ne by done. apply (so_own _ _ _ _ _ Hok p t' r), Ho; done.
  - done.
Qed.

(** Removing the memory of one term. *)
Lemma store_delete area area' frame ht own own' post t :
  store_ok area frame ht own post ->
  (forall p t' r, own' !! p = Some (t', r) <-> t' <> t /\ own !! p = Some (t', r)) ->
  (forall p t' r, t' <> t -> own !! p = Some (t', r) -> area' !! p = area !! p) ->
  (forall p, match own' !! p with Some _ => frame !! p = None | None => area' !! p = frame !! p end) ->
  store_ok area' frame (delete t ht) own' (delete t post).
Proof.
  intros Hok Ho Ha Hfr. split.
  - intros t'. destruct (decide (t' = t)) as [->|Ht].
    + by rewrite !lookup_delete_eq.
    + rewrite !lookup_delete_ne by done. pose proof (so_terms _ _ _ _ _ Hok t') as Hs.
      destruct (ht !! t') as [e'|], (post !! t') as [l'|]; try done.
      destruct Hs as [pl' Hs]. exists pl'. eapply term_at_ext; [| |exact Hs].
      * intros p r. rewrite Ho. tauto.
      * intros p r. by apply Ha.
  - intros p t' r Hp. apply Ho in Hp as [Ht Hp]. rewrite lookup_delete_ne by done.
    apply (so_own _ _ _ _ _ Hok p t' r Hp).
  - done.
Qed.
End Store.

(** ** The operations of the shared area *)

Section Ops.
Context `{DsaAllocatorLaws}.

Implicit Types (st : TpLocalIndexState).

Lemma dsa_allocate_ok c st Q :
  (forall dp, dsa st !! dp = None -> dp <> InvalidDsaPointer ->
     Q dp (set_dsa st (<[dp := c]> (dsa st)))) ->
  ensures (dsa_allocate c) st Q.
Proof.
  intros HQ. apply ensures_bind, ensures_gets, ensures_bind, ensures_modify, ensures_ret.
  apply HQ; [|apply dsa_fresh_valid]. apply not_elem_of_dom, dsa_fresh_unused.
Qed.

Lemma dsa_get_address_ok dp c st Q :
  dsa st !! dp = Some c -> Q c st -> ensures (dsa_get_address dp) st Q.
Proof. intros E HQ. apply ensures_bind, ensures_gets. rewrite E. by apply ensures_ret. Qed.

Lemma dsa_store_ok dp c st Q :
  Q tt (set_dsa st (<[dp := c]> (dsa st))) -> ensures (dsa_store dp c) st Q.
Proof. intros HQ. by apply ensures_modify. Qed.

Lemma dsa_free_ok dp c st Q :
  dsa st !! dp = Some c -> Q tt (set_dsa st (delete dp (dsa st))) -> ensures (dsa_free dp) st Q.
Proof. intros E HQ. apply ensures_bind. eapply dsa_get_address_ok; [done|]. by apply ensures_modify. Qed.

Lemma get_posting_list_ok dp pl st Q :
  dsa st !! dp = Some (ChunkPostingList pl) -> Q pl st -> ensures (get_posting_list dp) st Q.
Proof. intros E HQ. apply ensures_bind. eapply dsa_get_address_ok; [done|]. by apply ensures_ret. Qed.

Lemma tp_get_posting_entries_ok pl slots st Q :
  pl_entries_dp pl <> InvalidDsaPointer ->
  dsa st !! pl_entries_dp pl = Some (ChunkEntries slots) -> Q (Some slots) st ->
  ensures (tp_get_posting_entries pl) st Q.
Proof.
  intros Hv E HQ. unfold tp_get_posting_entries, DsaPointerIsValid.
  rewrite (proj2 (Z.eqb_neq _ _)) by done. apply ensures_bind.
  eapply dsa_get_address_ok; [done|]. by apply ensures_ret.
Qed.

(** The state with another store. *)
Definition with_store st (ht : gmap term TpStringHashEntry) (area : dsa_area) : TpLocalIndexState :=
  set_dsa (set_string_table st (Some ht)) area.

Definition table st : gmap term TpStringHashEntry := default ∅ (string_table (memtable st)).

Lemma with_store_id st : is_Some (string_table (memtable st)) -> with_store st (table st) (dsa st) = st.
Proof.
  destruct st as [? ? [st_table ? ? ? ?] ? ? ? ?]. unfold with_store, table. simpl.
  by intros [ht ->].
Qed.

(** ** Adding a term *)

Lemma create_ok st frame own post str :
  store_ok (dsa st) frame (table st) own post -> c_str str <> [] ->
  ensures (tp_get_or_create_posting_list str) st (fun dp st' =>
    exists ht area own' e, st' = with_store st ht area /\
      store_ok area frame ht own' (<[c_str str := default [] (post !! c_str str)]> post) /\
      ht !! c_str str = Some e /\ dp = key_posting_list e).
Proof.
  intros Hok Hne. set (t := c_str str) in *. unfold tp_get_or_create_posting_list. fold t.
  apply ensures_bind, ensures_gets, ensures_bind.
  set (st1 := set_string_table st (Some (table st))).
  apply (ensures_mono _ _ (fun _ st' => st' = st1)).
  { unfold st1, table. destruct st as [? ? [[ht|] ? ? ? ?] ? ? ? ?]; simpl;
      [by apply ensures_ret|by apply ensures_modify]. }
  intros _ _ ->. apply ensures_bind, ensures_gets. unfold tp_string_table_lookup.
  rewrite (proj2 (Z.eqb_neq (zlen t) 0)) by (destruct t; [done|]; rewrite zlen_cons; pose proof (zlen_nonneg t); lia).
  change (default ∅ (string_table (memtable st1))) with (table st).
  destruct (table st !! t) as [e|] eqn:Et.
  - destruct (store_lookup _ _ _ _ _ _ _ Hok Et) as (l & pl & Hl & Hat).
    apply ensures_bind, ensures_ret. unfold DsaPointerIsValid.
    rewrite (proj2 (Z.eqb_neq _ _)) by apply (ta_valid _ _ _ _ _ _ Hat).
    apply ensures_ret. exists (table st), (dsa st), own, e. split; [done|].
    split; [|done]. rewrite Hl. simpl. by rewrite insert_id.
  - assert (Hpl : post !! t = None).
    { pose proof (so_terms _ _ _ _ _ Hok t) as Hs. rewrite Et in Hs. by destruct (post !! t). }
    apply ensures_bind. unfold tp_string_table_insert.
    apply ensures_bind, ensures_gets.
    change (default ∅ (string_table (memtable st1))) with (table st). rewrite Et.
    apply ensures_bind, dsa_allocate_ok. intros dp1 Hdp1 _. change (dsa st1) with (dsa st) in *.
    apply ensures_bind, dsa_allocate_ok. intros dp2 Hdp2 Hv2. cbn [dsa set_dsa] in *.
    assert (Hne12 : dp2 <> dp1) by (intros ->; by rewrite lookup_insert_eq in Hdp2).
    rewrite lookup_insert_ne in Hdp2 by done.
    apply ensures_bind, ensures_modify, ensures_ret.
    unfold DsaPointerIsValid. cbn [key_posting_list]. rewrite (proj2 (Z.eqb_neq _ _)) by done.
    apply ensures_ret.
    destruct (store_unowned _ _ _ _ _ _ Hok Hdp1) as [Ho1 Hf1].
    destruct (store_unowned _ _ _ _ _ _ Hok Hdp2) as [Ho2 Hf2].
    eexists _, _, (<[dp2 := (t, RolePostings)]> (<[dp1 := (t, RoleString)]> own)), _.
    split; [reflexivity|]. split; [|split; [apply lookup_insert_eq|done]].
    rewrite Hpl. simpl.
    eapply (store_update _ _ _ _ _ _ _ _ _ (mkPostingList 0 0 false 0 InvalidDsaPointer) _ Hok).
    + intros p t' r Ht. rewrite !lookup_insert. repeat case_decide; simplify_eq; naive_solver.
    + intros p t' r Ht Hp. rewrite !lookup_insert. repeat case_decide; simplify_eq; congruence.
    + intros p. rewrite !lookup_insert. repeat case_decide; simplify_eq; try done.
      apply (so_frame _ _ _ _ _ Hok p).
    + split; cbn [key_dp key_posting_list]; [done| | | |].
      * by rewrite lookup_insert_ne, lookup_insert_eq by done.
      * by rewrite lookup_insert_eq.
      * split; cbn; try done.
      * intros p r. cbn [pl_capacity pl_entries_dp]. rewrite !lookup_insert.
        pose proof (store_absent _ _ _ _ _ _ p r Hok Et).
        repeat case_decide; simplify_eq; destruct r; naive_solver.
Qed.

(** A store keeps its owners when a term's memory is rewritten in place. *)
Lemma store_rewrite area area' frame ht own post t e pl pl' l l' :
  store_ok area frame ht own post -> ht !! t = Some e -> term_at area own t e pl l ->
  (forall p, area' !! p <> area !! p -> exists r, own !! p = Some (t, r)) ->
  term_at area' own t e pl' l' -> store_ok area' frame ht own (<[t := l']> post).
Proof.
  intros Hok Ht Hat Hch Hat'. rewrite <- (insert_id ht t e Ht).
  eapply (store_update area); [exact Hok|done| | |exact Hat'].
  - intros p t' r Hne Hp. destruct (decide (area' !! p = area !! p)) as [|Hc]; [done|].
    destruct (Hch p Hc) as [r' Hp']. congruence.
  - intros p. pose proof (so_frame _ _ _ _ _ Hok p) as Hf. destruct (own !! p) eqn:Ho; [done|].
    destruct (decide (area' !! p = area !! p)) as [->|Hc]; [done|].
    destruct (Hch p Hc) as [r' Hp']. congruence.
Qed.

Lemma expand_slots (l : list TpPostingEntry) (rest : list (option TpPostingEntry)) n :
  zlen l <= n ->
  exists rest', sub_list 0 (zlen l) ((Some <$> l) ++ rest) ++
      drop (length (sub_list 0 (zlen l) ((Some <$> l) ++ rest))) (replicate (Z.to_nat n) None) =
    (Some <$> l) ++ rest' /\ zlen l + zlen rest' = n.
Proof.
  intros Hn. assert (E : sub_list 0 (zlen l) ((Some <$> l) ++ rest) = Some <$> l).
  { unfold sub_list, zlen. rewrite Nat2Z.id. simpl. rewrite drop_0. apply take_app_length'.
    by rewrite length_fmap. }
  rewrite E. eexists. split; [reflexivity|].
  unfold zlen in *. rewrite length_drop, length_fmap, length_replicate. lia.
Qed.

Definition expand_and_store (dp : Z) (pl : TpPostingList) :=
  pl1 ← expand_entries pl; _ ← dsa_store dp (ChunkPostingList pl1); mret (M := rst _) pl1.

(** The array of a term moved to a new pointer [dp]. *)
Lemma store_resize area area' frame ht own own' post t e pl pl1 l rest dp :
  store_ok area frame ht own post -> ht !! t = Some e -> post !! t = Some l ->
  term_at area own t e pl l -> area !! dp = None -> dp <> InvalidDsaPointer ->
  pl1 = mkPostingList (pl_doc_count pl) (zlen l + zlen rest) (pl_is_sorted pl) (pl_doc_freq pl) dp ->
  zlen l + zlen rest <> 0 ->
  area' !! dp = Some (ChunkEntries ((Some <$> l) ++ rest)) ->
  area' !! key_posting_list e = Some (ChunkPostingList pl1) ->
  (forall p, p <> dp -> p <> key_posting_list e -> is_Some (own' !! p) -> area' !! p = area !! p) ->
  own' !! dp = Some (t, RoleEntries) ->
  (forall p, p <> dp ->
     own' !! p = if decide (own !! p = Some (t, RoleEntries)) then None else own !! p) ->
  (forall p, own' !! p = None -> area' !! p = frame !! p) ->
  store_ok area' frame ht own' post /\ term_at area' own' t e pl1 l.
Proof.
  intros Hok Ht Hpost Hat Hdp Hvdp -> Hlen Harea Hpl1 Hother Hodp' Ho' Hfr.
  destruct (store_unowned _ _ _ _ _ _ Hok Hdp) as [Hodp Hfdp].
  pose proof Hat as [Hv Hstr Hpl Hlist Hown].
  assert (K1 : own !! key_dp e = Some (t, RoleString)) by (by apply Hown).
  assert (K2 : own !! key_posting_list e = Some (t, RolePostings)) by (by apply Hown).
  assert (Ho1 : own' !! key_dp e = Some (t, RoleString))
    by (rewrite Ho' by congruence; case_decide; congruence).
  assert (Ho2 : own' !! key_posting_list e = Some (t, RolePostings))
    by (rewrite Ho' by congruence; case_decide; congruence).
  match goal with |- _ /\ term_at _ _ _ _ ?p _ => set (pl1 := p) in * end.
  assert (Hat' : term_at area' own' t e pl1 l).
  { split; [done| |done| |].
    - rewrite Hother; [done|congruence|congruence|eauto].
    - split; cbn; [apply (plo_count _ _ _ Hlist)|apply (plo_freq _ _ _ Hlist)|done|].
      intros _. split; [done|]. by exists rest.
    - intros p r. destruct (decide (p = dp)) as [->|Hp].
      + rewrite Hodp'. destruct r; cbn; split; try congruence; naive_solver.
      + rewrite Ho' by done. case_decide as Hd.
        * destruct r; cbn; split; try congruence; naive_solver.
        * rewrite Hown. destruct r; cbn; [done|done|]. split; [|naive_solver].
          intros [-> Hcap]. destruct Hd. by apply Hown. }
  split; [|done]. rewrite <- (insert_id ht t e Ht), <- (insert_id post t l Hpost).
  eapply (store_update area); [exact Hok| | | |exact Hat'].
  - intros p t' r Hne. destruct (decide (p = dp)) as [->|Hp].
    + rewrite Hodp', Hodp. split; congruence.
    + rewrite Ho' by done. case_decide as Hd; [|done]. rewrite Hd. split; congruence.
  - intros p t' r Hne Hp. assert (p <> dp) by congruence.
    apply Hother; [done|congruence|]. rewrite Ho' by done. case_decide; [congruence|eauto].
  - intros p. destruct (own' !! p) eqn:Hp; [|by apply Hfr].
    destruct (decide (p = dp)) as [->|Hpd]; [done|]. rewrite Ho' in Hp by done.
    case_decide; [done|]. pose proof (so_frame _ _ _ _ _ Hok p) as Hf. by rewrite Hp in Hf.
Qed.

Lemma expand_ok st frame ht own post t e pl l :
  store_ok (dsa st) frame ht own post -> ht !! t = Some e ->
  term_at (dsa st) own t e pl l -> post !! t = Some l ->
  pl_capacity pl <= pl_doc_count pl -> 2 * zlen l < 2 ^ 31 ->
  ensures (expand_and_store (key_posting_list e) pl) st (fun pl1 st' =>
    exists area own', st' = set_dsa st area /\ store_ok area frame ht own' post /\
      term_at area own' t e pl1 l /\ pl_doc_count pl1 < pl_capacity pl1).
Proof.
  intros Hok Ht Hat Hpost Hfull Hbound. pose proof Hat as [Hv Hstr Hpl Hlist Hown].
  pose proof (plo_count _ _ _ Hlist) as Hc. pose proof (zlen_nonneg l).
  set (n := if pl_capacity pl =? 0 then TP_INITIAL_POSTING_LIST_CAPACITY
            else i32 (pl_capacity pl * TP_POSTING_LIST_GROWTH_FACTOR)).
  assert (K2 : own !! key_posting_list e = Some (t, RolePostings)) by (by apply Hown).
  unfold expand_and_store, expand_entries. fold n. cbv zeta.
  apply ensures_bind, ensures_bind, dsa_allocate_ok. intros dp Hdp Hvdp.
  destruct (store_unowned _ _ _ _ _ _ Hok Hdp) as [Hodp Hfdp].
  destruct (Z.eqb_spec (pl_capacity pl) 0) as [E|N].
  - destruct (plo_empty _ _ _ Hlist E) as [Hinv ->]. rewrite Hc.
    change (0 <? zlen []) with false. cbn [andb].
    apply ensures_bind, ensures_ret, ensures_ret, ensures_bind, dsa_store_ok, ensures_ret.
    eexists _, (<[dp := (t, RoleEntries)]> own). split; [reflexivity|].
    cbn [dsa set_dsa]. apply and_assoc. split; [|done].
    eapply (store_resize (dsa st) _ _ _ _ _ _ _ _ _ _ _ (replicate (Z.to_nat n) None) dp);
      try done.
    + by rewrite Hc.
    + by simplify_map_eq.
    + by simplify_map_eq.
    + intros p Hp1 Hp2 _. by simplify_map_eq.
    + by simplify_map_eq.
    + intros p Hp. simplify_map_eq. case_decide as Hd; [|done].
      apply Hown in Hd as [_ Hd]. done.
    + intros p Hp. destruct (decide (p = dp)) as [->|Hpd]; simplify_map_eq.
      pose proof (so_frame _ _ _ _ _ Hok p) as Hf. rewrite Hp in Hf.
      assert (p <> key_posting_list e) by congruence. by simplify_map_eq.
  - destruct (plo_slots _ _ _ Hlist N) as (Hve & rest & Hslots & Hcap).
    pose proof (zlen_nonneg rest).
    assert (En : n = pl_capacity pl * 2)
      by (unfold n, TP_POSTING_LIST_GROWTH_FACTOR; rewrite swrap_small by lia; lia).
    assert (K3 : own !! pl_entries_dp pl = Some (t, RoleEntries)) by (by apply Hown).
    rewrite (proj2 (Z.ltb_lt 0 _)) by lia. unfold DsaPointerIsValid at 1.
    rewrite (proj2 (Z.eqb_neq _ _)) by done. cbn [negb andb].
    apply ensures_bind, ensures_bind.
    eapply tp_get_posting_entries_ok; [done|cbn; by rewrite lookup_insert_ne by congruence|].
    cbn [default from_option id]. rewrite Hc.
    destruct (expand_slots l rest n ltac:(lia)) as (rest' & -> & Hr').
    apply ensures_bind, dsa_store_ok.
    eapply dsa_free_ok; [cbn; rewrite !lookup_insert_ne by congruence; exact Hslots|].
    apply ensures_ret, ensures_bind, dsa_store_ok, ensures_ret.
    eexists _, (<[dp := (t, RoleEntries)]> (delete (pl_entries_dp pl) own)).
    split; [reflexivity|]. cbn [dsa set_dsa]. apply and_assoc.
    split; [|cbn [pl_doc_count pl_capacity]; lia].
    eapply (store_resize (dsa st) _ _ _ _ _ _ _ _ _ _ _ rest' dp); try done.
    + f_equal; [lia|lia].
    + lia.
    + by simplify_map_eq.
    + by simplify_map_eq.
    + intros p Hp1 Hp2 [x Hx]. assert (p <> pl_entries_dp pl)
        by (intros ->; by simplify_map_eq). by simplify_map_eq.
    + by simplify_map_eq.
    + intros p Hp. simplify_map_eq. destruct (decide (p = pl_entries_dp pl)) as [->|Hpe].
      * rewrite lookup_delete_eq. by case_decide.
      * rewrite lookup_delete_ne by done. case_decide as Hd; [|done].
        apply Hown in Hd as [? _]. done.
    + intros p Hp. destruct (decide (p = dp)) as [->|Hpd]; simplify_map_eq.
      destruct (decide (p = pl_entries_dp pl)) as [->|Hpe].
      * assert (pl_entries_dp pl <> key_posting_list e) by congruence. simplify_map_eq.
        pose proof (so_frame _ _ _ _ _ Hok (pl_entries_dp pl)) as Hf. by rewrite K3 in Hf.
      * rewrite lookup_delete_ne in Hp by done. assert (p <> key_posting_list e) by congruence.
        simplify_map_eq. pose proof (so_frame _ _ _ _ _ Hok p) as Hf. by rewrite Hp in Hf.
Qed.

Definition count_posting st : TpLocalIndexState :=
  let m := memtable st in
  set_memtable st (mkMemtable (string_table m) (total_terms m) (i64 (total_postings m + 1))
                     (doc_lengths m) (tenant_stats m)).

(** Writing one entry into a posting list that has room. *)
Lemma store_append area frame ht own post t e pl l x rest :
  store_ok area frame ht own post -> ht !! t = Some e -> term_at area own t e pl l ->
  zlen l + 1 + zlen rest = pl_capacity pl -> zlen l + 1 < 2 ^ 31 ->
  let slots := (Some <$> l) ++ Some x :: rest in
  let count := i32 (pl_doc_count pl + 1) in
  store_ok
    (<[key_posting_list e := ChunkPostingList
         (mkPostingList count (pl_capacity pl) false count (pl_entries_dp pl))]>
       (<[pl_entries_dp pl := ChunkEntries slots]> area))
    frame ht own (<[t := l ++ [x]]> post).
Proof.
  intros Hok Ht Hat Hcap H31 slots count.
  pose proof Hat as [Hv Hstr Hpl Hlist Hown]. pose proof (plo_count _ _ _ Hlist) as Hc.
  pose proof (zlen_nonneg l). pose proof (zlen_nonneg rest).
  assert (Hcount : count = zlen (l ++ [x]))
    by (unfold count; rewrite zlen_app, swrap_small by lia; rewrite Hc; done).
  assert (K1 : own !! key_dp e = Some (t, RoleString)) by (by apply Hown).
  assert (K2 : own !! key_posting_list e = Some (t, RolePostings)) by (by apply Hown).
  assert (K3 : own !! pl_entries_dp pl = Some (t, RoleEntries)) by (apply Hown; split; [done|lia]).
  destruct (plo_slots _ _ _ Hlist ltac:(lia)) as (Hve & _).
  eapply (store_rewrite area) with
    (pl' := mkPostingList count (pl_capacity pl) false count (pl_entries_dp pl));
    [exact Hok|exact Ht|exact Hat| |].
  - intros p Hp. destruct (decide (p = key_posting_list e)) as [->|]; [eauto|].
    destruct (decide (p = pl_entries_dp pl)) as [->|]; [eauto|].
    by rewrite !lookup_insert_ne in Hp by done.
  - split; [done| | | |exact Hown].
    + by rewrite !lookup_insert_ne by congruence.
    + by rewrite lookup_insert_eq.
    + split; cbn; [done|done|lia|]. intros _. split; [done|]. exists rest.
      rewrite lookup_insert_ne, lookup_insert_eq by congruence. split.
      * unfold slots. by rewrite fmap_app, <- app_assoc.
      * rewrite zlen_app, zlen_cons. change (zlen (@nil TpPostingEntry)) with 0. lia.
Qed.

Lemma add_entry_ok st frame own post t e l ctid f ten :
  store_ok (dsa st) frame (table st) own post -> table st !! t = Some e -> post !! t = Some l ->
  2 * zlen l + 2 < 2 ^ 31 ->
  ensures (tp_add_document_to_posting_list (key_posting_list e) ctid f ten) st (fun _ st' =>
    exists area own', st' = count_posting (set_dsa st area) /\
      store_ok area frame (table st) own' (<[t := l ++ [mkPostingEntry ctid f ten]]> post)).
Proof.
  intros Hok Ht Hpost Hbound.
  destruct (store_lookup _ _ _ _ _ _ _ Hok Ht) as (l' & pl0 & Hl' & Hat0).
  replace l' with l in * by congruence. clear l' Hl'.
  unfold tp_add_document_to_posting_list. apply ensures_bind.
  eapply get_posting_list_ok; [apply (ta_postings _ _ _ _ _ _ Hat0)|].
  apply ensures_bind.
  apply (ensures_mono _ _ (fun pl st' => exists area own', st' = set_dsa st area /\
    store_ok area frame (table st) own' post /\ term_at area own' t e pl l /\
    pl_doc_count pl < pl_capacity pl)).
  { destruct (Z.leb_spec (pl_capacity pl0) (pl_doc_count pl0)) as [L|L].
    - by eapply (expand_ok st frame (table st) own post t); try done; lia.
    - apply ensures_ret. exists (dsa st), own. by destruct st. }
  intros pl st1 (area & own1 & -> & Hok1 & Hat & Hroom).
  pose proof (ta_list _ _ _ _ _ _ Hat) as Hlist.
  pose proof (plo_count _ _ _ Hlist) as Hc. pose proof (zlen_nonneg l).
  destruct (plo_slots _ _ _ Hlist ltac:(lia)) as (Hve & rest & Hslots & Hcap).
  destruct rest as [|y rest]; [change (zlen []) with 0 in Hcap; lia|]. rewrite zlen_cons in Hcap.
  pose proof (zlen_nonneg rest).
  apply ensures_bind. eapply tp_get_posting_entries_ok; [done|exact Hslots|].
  cbn [default from_option id]. rewrite Hc.
  rewrite zlen_app, zlen_fmap, zlen_cons, (proj2 (Z.leb_le 0 _)), (proj2 (Z.ltb_lt _ _)) by lia.
  cbn [andb negb]. apply ensures_bind, dsa_store_ok, ensures_bind, dsa_store_ok, ensures_modify.
  eexists _, own1. split; [reflexivity|].
  assert (E : <[Z.to_nat (zlen l) := Some (mkPostingEntry ctid f ten)]>
    ((Some <$> l) ++ y :: rest) = (Some <$> l) ++ Some (mkPostingEntry ctid f ten) :: rest).
  { unfold zlen. rewrite Nat2Z.id. replace (length l) with (length (Some <$> l) + 0)%nat
      by (rewrite length_fmap; lia). by rewrite insert_app_r. }
  rewrite E, <- Hc. eapply (store_append area); [exact Hok1|done|done|lia|lia].
Qed.
End Ops.

(** ** The abstract index *)

Record document := mkDocument {
  doc_ctid : ItemPointerData;
  doc_terms : list term;
  doc_frequencies : list Z;
  doc_length : Z;
  doc_tenant : Z;
}.

(** Distinct lexemes, none of them empty. *)
Definition document_ok (d : document) : Prop :=
  length (doc_frequencies d) = length (doc_terms d) /\
  Forall (fun t => c_str t <> []) (doc_terms d).

Definition document_entry (d : document) (f : Z) : TpPostingEntry :=
  mkPostingEntry (doc_ctid d) f (doc_tenant d).

(** The entries of a document for a term, and the posting list of a term. *)
Definition document_entries (d : document) (t : term) : list TpPostingEntry :=
  (fun x : term * Z => document_entry d x.2) <$>
    filter (fun x : term * Z => c_str x.1 = t) (zip (doc_terms d) (doc_frequencies d)).

Definition postings_of (docs : list document) (t : term) : list TpPostingEntry :=
  docs ≫= fun d => document_entries d t.

Definition add_entry (post : gmap term (list TpPostingEntry)) (x : term * TpPostingEntry)
    : gmap term (list TpPostingEntry) := <[x.1 := default [] (post !! x.1) ++ [x.2]]> post.

Definition document_pairs (d : document) : list (term * TpPostingEntry) :=
  (fun x : term * Z => (c_str x.1, document_entry d x.2)) <$>
    zip (doc_terms d) (doc_frequencies d).

Definition index_of (docs : list document) : gmap term (list TpPostingEntry) :=
  foldl add_entry ∅ (docs ≫= document_pairs).

Definition index_size (docs : list document) : Z :=
  foldr (fun d n => zlen (doc_terms d) + n) 0 docs.

Definition entries_for (t : term) (xs : list (term * TpPostingEntry)) : list TpPostingEntry :=
  (filter (fun x => x.1 = t) xs).*2.

Lemma fold_add_entry t xs : forall post,
  foldl add_entry post xs !! t =
  match post !! t, entries_for t xs with
  | None, [] => None
  | o, l => Some (default [] o ++ l)
  end.
Proof.
  unfold entries_for. induction xs as [|[t' x] xs IH]; intros post; cbn [foldl].
  { simpl. destruct (post !! t); [by rewrite app_nil_r|done]. }
  rewrite IH. unfold add_entry. cbn [fst snd]. rewrite filter_cons. cbn [fst].
  destruct (decide (t' = t)) as [->|Hne].
  - rewrite lookup_insert_eq. csimpl. rewrite <- app_assoc. simpl.
    by destruct (post !! t).
  - by rewrite lookup_insert_ne.
Qed.

Lemma entries_for_document t d : entries_for t (document_pairs d) = document_entries d t.
Proof.
  unfold entries_for, document_pairs, document_entries.
  induction (zip (doc_terms d) (doc_frequencies d)) as [|[t' f] xs IH]; [done|].
  csimpl. rewrite !filter_cons. cbn [fst]. case_decide; csimpl; by rewrite IH.
Qed.

Lemma index_of_lookup docs t :
  index_of docs !! t = match postings_of docs t with [] => None | l => Some l end.
Proof.
  unfold index_of. rewrite fold_add_entry, lookup_empty.
  replace (entries_for t (docs ≫= document_pairs)) with (postings_of docs t).
  { by destruct (postings_of docs t). }
  unfold postings_of, entries_for. induction docs as [|d docs IH]; [done|]. csimpl.
  rewrite filter_app, fmap_app, IH. f_equal. symmetry. apply entries_for_document.
Qed.

Lemma index_of_snoc docs d :
  index_of (docs ++ [d]) = foldl add_entry (index_of docs) (document_pairs d).
Proof. unfold index_of. rewrite bind_app, foldl_app. csimpl. by rewrite app_nil_r. Qed.

Lemma index_size_nonneg docs : 0 <= index_size docs.
Proof. induction docs as [|d docs IH]; simpl; [done|]. pose proof (zlen_nonneg (doc_terms d)). lia. Qed.

Lemma index_size_app docs1 docs2 :
  index_size (docs1 ++ docs2) = index_size docs1 + index_size docs2.
Proof. induction docs1; simpl; lia. Qed.

Lemma postings_of_size docs t : zlen (postings_of docs t) <= index_size docs.
Proof.
  unfold postings_of. induction docs as [|d docs IH]; csimpl; [done|].
  rewrite zlen_app. unfold document_entries at 1. rewrite zlen_fmap.
  assert (zlen (filter (fun x : term * Z => c_str x.1 = t)
    (zip (doc_terms d) (doc_frequencies d))) <= zlen (doc_terms d)).
  { unfold zlen. apply inj_le. etransitivity; [apply length_filter|].
    rewrite length_zip. lia. }
  lia.
Qed.

(** ** Adding documents *)

Section Adding.
Context `{DsaAllocatorLaws}.
Implicit Types (st : TpLocalIndexState).

(** Everything but the store and the posting count. *)
Definition core st :=
  (total_docs st, total_len st, doc_lengths (memtable st), tenant_stats (memtable st),
   is_build_mode st, terms_added_this_xact st, build_tenant_stats_accum st).

Lemma add_terms_ok ctid ten terms : forall fs st frame own post,
  store_ok (dsa st) frame (table st) own post ->
  length fs = length terms -> Forall (fun t => c_str t <> []) terms ->
  (forall t, zlen (default [] (post !! t)) + zlen terms < 2 ^ 30) ->
  0 <= total_postings (memtable st) -> total_postings (memtable st) + zlen terms < 2 ^ 63 ->
  ensures (add_terms ctid terms fs ten) st (fun _ st' => exists own',
    store_ok (dsa st') frame (table st') own'
      (foldl add_entry post
         ((fun x : term * Z => (c_str x.1, mkPostingEntry ctid x.2 ten)) <$> zip terms fs)) /\
    core st' = core st /\
    total_postings (memtable st') = total_postings (memtable st) + zlen terms).
Proof.
  induction terms as [|t terms IH]; intros [|f fs] st frame own post Hok Hlen HF Hsize H0' H63;
    simplify_eq/=.
  { apply ensures_ret. exists own. split; [done|]. split; [done|]. by rewrite Z.add_0_r. }
  apply Forall_cons in HF as [Ht HF]. rewrite zlen_cons in *. pose proof (zlen_nonneg terms).
  apply ensures_bind. eapply ensures_mono; [by eapply create_ok|].
  intros dp st1 (ht & area & own1 & e & -> & Hok1 & He & ->). cbn [add_terms].
  apply ensures_bind. pose proof (Hsize (c_str t)) as Hl.
  set (l := default [] (post !! c_str t)) in *.
  eapply ensures_mono.
  { apply (add_entry_ok (with_store st ht area) frame own1 (<[c_str t := l]> post)
      (c_str t) e l); try done; [by rewrite lookup_insert_eq|lia]. }
  intros [] st2 (area2 & own2 & -> & Hok2). rewrite insert_insert_eq in Hok2.
  eapply ensures_mono.
  { eapply IH; [exact Hok2|done|done| |cbn; rewrite swrap_small by lia; lia..].
    intros t'. pose proof (Hsize t') as Ht'. destruct (decide (t' = c_str t)) as [->|Hne].
    - rewrite lookup_insert_eq. cbn [default from_option id]. rewrite zlen_app, zlen_cons.
      change (zlen (@nil TpPostingEntry)) with 0. fold l in Ht'. lia.
    - rewrite lookup_insert_ne by done. lia. }
  intros [] st3 (own3 & Hok3 & Hcore & Hcount). exists own3.
  split; [exact Hok3|]. split; [exact Hcore|]. rewrite Hcount. cbn.
  rewrite swrap_small by lia. lia.
Qed.

(** ** What a memtable holds *)

Definition lengths_of (docs : list document) : gmap ItemPointerData TpDocLengthEntry :=
  foldl (fun m d => <[doc_ctid d := mkDocLengthEntry (doc_ctid d) (doc_length d) (doc_tenant d)]> m)
    ∅ docs.

(** [st] holds the documents [docs]; [frame] is the rest of the shared area. *)
Record holds st (frame : dsa_area) (docs : list document) : Prop := {
  h_store : exists own, store_ok (dsa st) frame (table st) own (index_of docs);
  h_lengths : default ∅ (doc_lengths (memtable st)) = lengths_of docs;
  h_postings : total_postings (memtable st) = index_size docs;
}.

Definition tenant_entry st (tid : Z) : option TpTenantStatsEntry :=
  default ∅ (tenant_stats (memtable st)) !! tid.

Definition add_document (d : document) : rst TpLocalIndexState unit :=
  tp_add_document_terms (doc_ctid d) (doc_terms d) (doc_frequencies d) (doc_length d)
    (doc_tenant d).

Definition bump_tenant (len : Z) (tid : Z) (o : option TpTenantStatsEntry) : TpTenantStatsEntry :=
  match o with
  | None => mkTenantStatsEntry tid 1 len
  | Some e => mkTenantStatsEntry (ts_tenant_id e) (u32 (ts_doc_count e + 1))
                (i64 (ts_total_len e + len))
  end.

Lemma add_document_ok st frame docs d :
  holds st frame docs -> document_ok d -> index_size (docs ++ [d]) < 2 ^ 30 ->
  ensures (add_document d) st (fun _ st' =>
    holds st' frame (docs ++ [d]) /\
    total_docs st' = i32 (total_docs st + 1) /\
    total_len st' = i64 (total_len st + doc_length d) /\
    is_build_mode st' = is_build_mode st /\
    build_tenant_stats_accum st' = build_tenant_stats_accum st /\
    terms_added_this_xact st' = i64 (terms_added_this_xact st + zlen (doc_terms d)) /\
    forall tid, tenant_entry st' tid =
      if (doc_tenant d =? tid) && negb (tid =? 0)
      then Some (bump_tenant (doc_length d) tid (tenant_entry st tid))
      else tenant_entry st tid).
Proof.
  intros [[own Hok] Hlen Hpost] [Hfs HF] Hsize.
  rewrite index_size_app in Hsize. simpl in Hsize. pose proof (index_size_nonneg docs).
  unfold add_document, tp_add_document_terms. apply ensures_bind.
  eapply ensures_mono.
  { eapply (add_terms_ok _ _ _ _ _ frame own); [exact Hok|done|done| |lia..].
    intros t. rewrite index_of_lookup. pose proof (postings_of_size docs t).
    destruct (postings_of docs t); cbn [default from_option id]; [change (zlen []) with 0|]; lia. }
  intros [] st1 (own1 & Hok1 & Hcore & Hcount). injection Hcore as E1 E2 E3 E4 E5 E6 E7.
  apply ensures_bind, ensures_modify, ensures_bind, ensures_modify, ensures_bind.
  set (st2 := mkIndexState _ _ _ _ _ _ _).
  apply (ensures_mono _ _ (fun _ st' => exists stats,
    st' = set_memtable st2 (mkMemtable (string_table (memtable st2)) (total_terms (memtable st2))
            (total_postings (memtable st2)) (doc_lengths (memtable st2)) stats) /\
    forall tid, default ∅ stats !! tid =
      if (doc_tenant d =? tid) && negb (tid =? 0)
      then Some (bump_tenant (doc_length d) tid (tenant_entry st tid)) else tenant_entry st tid)).
  { destruct (Z.eqb_spec (doc_tenant d) 0) as [Z0|NZ]; cbn [negb].
    - apply ensures_ret. exists (tenant_stats (memtable st2)). split; [done|]. intros tid.
      unfold tenant_entry. cbn. rewrite E4.
      destruct (Z.eqb_spec (doc_tenant d) tid), (Z.eqb_spec tid 0); try done; lia.
    - apply ensures_modify. eexists. split; [reflexivity|]. intros tid.
      unfold tenant_entry. cbn. rewrite E4. destruct (Z.eqb_spec (doc_tenant d) tid) as [<-|Hne].
      + rewrite lookup_insert_eq, (proj2 (Z.eqb_neq _ _)) by done. done.
      + by rewrite lookup_insert_ne. }
  intros [] st3 (stats & -> & Hstats). apply ensures_modify. cbn.
  split; [|rewrite ?E1, ?E2, ?E5, ?E6, ?E7; auto 10].
  split.
  - exists own1. rewrite index_of_snoc. unfold document_pairs, document_entry. exact Hok1.
  - unfold lengths_of in *. rewrite foldl_app. simpl. cbn. by rewrite E3, Hlen.
  - rewrite index_size_app. simpl. cbn. lia.
Qed.

(** ** Sequences of insertions *)

Fixpoint add_documents (docs : list document) : rst TpLocalIndexState unit :=
  match docs with
  | [] => mret tt
  | d :: docs' => _ ← add_document d; add_documents docs'
  end.

Definition total_length (docs : list document) : Z := foldr (fun d n => doc_length d + n) 0 docs.

Definition documents_of_tenant (tid : Z) (docs : list document) : list document :=
  filter (fun d => doc_tenant d = tid) docs.

(** What a tenant's entry becomes when documents are added. *)
Definition add_to_tenant (o : option TpTenantStatsEntry) (tid : Z) (docs : list document)
    : option TpTenantStatsEntry :=
  match documents_of_tenant tid docs, o with
  | [], _ => o
  | ds, None => Some (mkTenantStatsEntry tid (zlen ds) (total_length ds))
  | ds, Some e => Some (mkTenantStatsEntry (ts_tenant_id e) (ts_doc_count e + zlen ds)
                          (ts_total_len e + total_length ds))
  end.

Definition entry_bounded (n len : Z) (o : option TpTenantStatsEntry) : Prop :=
  match o with
  | Some e => 0 <= ts_doc_count e /\ ts_doc_count e + n < 2 ^ 32 /\
              0 <= ts_total_len e /\ ts_total_len e + len < 2 ^ 63
  | None => 0 <= n < 2 ^ 32 /\ 0 <= len < 2 ^ 63
  end.

Lemma add_to_tenant_cons o tid d docs n len :
  entry_bounded (1 + n) (doc_length d + len) o -> 0 <= n -> 0 <= len -> 0 <= doc_length d ->
  add_to_tenant
    (if (doc_tenant d =? tid) then Some (bump_tenant (doc_length d) tid o) else o) tid docs =
    add_to_tenant o tid (d :: docs) /\
  entry_bounded n len
    (if (doc_tenant d =? tid) then Some (bump_tenant (doc_length d) tid o) else o).
Proof.
  intros Hb Hn Hl Hd. unfold add_to_tenant, documents_of_tenant. rewrite filter_cons.
  destruct (Z.eqb_spec (doc_tenant d) tid) as [E|N].
  - rewrite decide_True by done. set (ds := filter _ docs).
    destruct o as [e|]; cbn [bump_tenant entry_bounded] in *.
    + rewrite wrap_small, swrap_small by lia.
      split; [|cbn; lia]. destruct ds as [|d' ds]; simpl; do 2 f_equal; rewrite ?zlen_cons; cbn; lia.
    + split; [|cbn; lia]. destruct ds as [|d' ds]; simpl; do 2 f_equal; rewrite ?zlen_cons; cbn; lia.
  - rewrite decide_False by done. split; [done|]. destruct o; cbn in *; lia.
Qed.

Lemma add_documents_ok docs : forall st frame pre,
  holds st frame pre -> Forall document_ok docs -> Forall (fun d => 0 <= doc_length d) docs ->
  index_size (pre ++ docs) < 2 ^ 30 ->
  0 <= total_docs st -> total_docs st + zlen docs < 2 ^ 31 ->
  0 <= total_len st -> total_len st + total_length docs < 2 ^ 63 ->
  ensures (add_documents docs) st (fun _ st' =>
    holds st' frame (pre ++ docs) /\
    total_docs st' = total_docs st + zlen docs /\
    total_len st' = total_len st + total_length docs /\
    is_build_mode st' = is_build_mode st /\
    build_tenant_stats_accum st' = build_tenant_stats_accum st /\
    forall tid, tid <> 0 -> entry_bounded (zlen docs) (total_length docs) (tenant_entry st tid) ->
      tenant_entry st' tid = add_to_tenant (tenant_entry st tid) tid docs).
Proof.
  induction docs as [|d docs IH]; intros st frame pre Hh HF HL Hs Hd0 Hd1 Hl0 Hl1;
    cbn [add_documents].
  { apply ensures_ret. rewrite app_nil_r. change (zlen []) with 0. simpl. rewrite !Z.add_0_r.
    auto 10. }
  apply Forall_cons in HF as [Hd HF], HL as [Hdl HL]. rewrite zlen_cons in *.
  cbn [total_length foldr] in *. fold (total_length docs) in *. pose proof (zlen_nonneg docs).
  assert (0 <= total_length docs).
  { clear -HL. induction HL; simpl; [done|]. unfold total_length in *. lia. }
  apply ensures_bind. eapply ensures_mono.
  { apply (add_document_ok st frame pre d); try done.
    rewrite cons_middle, app_assoc, index_size_app in Hs. pose proof (index_size_nonneg docs). lia. }
  intros [] st1 (Hh1 & E1 & E2 & E3 & E4 & _ & Hten).
  rewrite !swrap_small in E1, E2 by lia.
  eapply ensures_mono.
  { apply (IH st1 frame (pre ++ [d])); try done; rewrite ?E1, ?E2; try lia. by rewrite <- app_assoc. }
  intros [] st2 (Hh2 & F1 & F2 & F3 & F4 & Ften). rewrite <- app_assoc in Hh2.
  split; [done|]. split; [lia|]. split; [lia|]. split; [congruence|]. split; [congruence|].
  intros tid Htid Hb. pose proof (Hten tid) as Ht. rewrite (proj2 (Z.eqb_neq tid 0)) in Ht by done.
  rewrite andb_true_r in Ht.
  destruct (add_to_tenant_cons (tenant_entry st tid) tid d docs _ _ Hb) as [Eq Hb']; [done..|].
  rewrite <- Eq, <- Ht. apply Ften; [done|]. by rewrite Ht.
Qed.
End Adding.

(** ** Reading: the data source and the dictionary *)

Section Reading.
Context `{DsaAllocatorLaws}.
Implicit Types (st : TpLocalIndexState).

Lemma read_slots_ok (l : list TpPostingEntry) rest :
  read_slots (length l) ((Some <$> l) ++ rest) = Ok l.
Proof. induction l as [|x l IH]; csimpl; [done|]. by rewrite IH. Qed.

(** The columns of a posting list. *)
Definition posting_data (l : list TpPostingEntry) : option TpPostingData :=
  match l with
  | [] => None
  | _ => Some (mkPostingData (pe_ctid <$> l) (pe_frequency <$> l) (Some (pe_tenant_id <$> l))
                 (zlen l) (zlen l))
  end.

Lemma posting_data_nonempty l : l <> [] -> posting_data l =
  Some (mkPostingData (pe_ctid <$> l) (pe_frequency <$> l) (Some (pe_tenant_id <$> l))
          (zlen l) (zlen l)).
Proof. by destruct l. Qed.

Lemma table_absent st frame docs t :
  holds st frame docs -> table st !! t = None -> postings_of docs t = [].
Proof.
  intros [[own Hok] _ _] Ht. pose proof (so_terms _ _ _ _ _ Hok t) as Hs.
  rewrite Ht, index_of_lookup in Hs. by destruct (postings_of docs t).
Qed.

Lemma table_present st frame docs t e :
  holds st frame docs -> table st !! t = Some e -> exists own pl,
    postings_of docs t <> [] /\ term_at (dsa st) own t e pl (postings_of docs t).
Proof.
  intros [[own Hok] _ _] Ht. pose proof (so_terms _ _ _ _ _ Hok t) as Hs.
  rewrite Ht, index_of_lookup in Hs. destruct (postings_of docs t) eqn:E; [done|].
  destruct Hs as [pl Hs]. by exists own, pl.
Qed.

Lemma get_postings_ok st frame docs t :
  holds st frame docs -> c_str t <> [] ->
  ensures (src ← tp_memtable_source_create; get_postings src t) st (fun res st' =>
    st' = st /\ res = posting_data (postings_of docs (c_str t))).
Proof.
  intros Hh Hne. apply ensures_bind. unfold tp_memtable_source_create.
  apply ensures_bind, ensures_gets, ensures_ret. cbn [get_postings id].
  unfold memtable_get_postings.
  destruct (string_table (memtable st)) as [ht|] eqn:Eht; cbn [negb].
  2:{ apply ensures_ret. split; [done|].
      rewrite (table_absent st frame docs); [done|done|]. unfold table. by rewrite Eht. }
  apply ensures_bind. unfold tp_string_table_get_posting_list. apply ensures_bind, ensures_gets.
  change (default ∅ (string_table (memtable st))) with (table st). unfold tp_string_table_lookup.
  rewrite (proj2 (Z.eqb_neq (zlen (c_str t)) 0))
    by (destruct (c_str t) as [|b s]; [done|]; rewrite zlen_cons; pose proof (zlen_nonneg s); lia).
  destruct (table st !! c_str t) as [e|] eqn:Et.
  - destruct (table_present st frame docs _ _ Hh Et) as (own & pl & Hl & Hat).
    set (l := postings_of docs (c_str t)) in *. pose proof (ta_list _ _ _ _ _ _ Hat) as Hlist.
    unfold DsaPointerIsValid at 1. rewrite (proj2 (Z.eqb_neq _ _)) by apply (ta_valid _ _ _ _ _ _ Hat).
    cbn [negb]. apply ensures_fmap. eapply get_posting_list_ok; [apply (ta_postings _ _ _ _ _ _ Hat)|].
    rewrite (plo_count _ _ _ Hlist), (plo_freq _ _ _ Hlist).
    assert (Hz : 0 < zlen l).
    { destruct l as [|x l']; [done|]. rewrite zlen_cons. pose proof (zlen_nonneg l'). lia. }
    rewrite (proj2 (Z.eqb_neq _ _)), (proj2 (Z.ltb_lt 0 _)) by lia.
    destruct (decide (pl_capacity pl = 0)) as [E0|N0].
    { destruct (plo_empty _ _ _ Hlist E0) as [_ ->]. done. }
    destruct (plo_slots _ _ _ Hlist N0) as (Hve & rest & Hslots & _).
    apply ensures_bind. eapply tp_get_posting_entries_ok; [done|exact Hslots|].
    apply ensures_bind. eapply ensures_lift.
    { unfold zlen. rewrite Nat2Z.id. apply read_slots_ok. }
    apply ensures_ret. by rewrite posting_data_nonempty.
  - apply ensures_ret, ensures_ret. by rewrite (table_absent st frame docs).
Qed.

Lemma get_doc_length_ok st frame docs c :
  holds st frame docs ->
  ensures (src ← tp_memtable_source_create; get_doc_length src c) st (fun res st' =>
    st' = st /\ res = match lengths_of docs !! c with Some e => dl_doc_length e | None => -1 end).
Proof.
  intros Hh. apply ensures_bind. unfold tp_memtable_source_create.
  apply ensures_bind, ensures_gets, ensures_ret. cbn [get_doc_length id].
  unfold memtable_get_doc_length. rewrite <- (h_lengths _ _ _ Hh).
  destruct (doc_lengths (memtable st)) as [m|] eqn:Em; cbn [negb].
  - apply ensures_bind, ensures_gets, ensures_ret. rewrite Em. done.
  - by apply ensures_ret.
Qed.

Context `{HashSeqLaws} `{QSortLaws}.

Definition info_of (x : term * TpStringHashEntry) : TermInfo :=
  mkTermInfo x.1 (zlen x.1) (key_posting_list x.2).

Lemma postings_of_key docs t : postings_of docs t <> [] -> x00 ∉ t.
Proof.
  induction docs as [|d docs IH]; [done|]. unfold postings_of. csimpl. intros Hne.
  destruct (document_entries d t) as [|x xs] eqn:E; [by apply IH|].
  unfold document_entries in E.
  destruct (filter _ (zip (doc_terms d) (doc_frequencies d))) as [|y ys] eqn:Ef; [done|].
  assert (Hy : y ∈ filter (fun x : term * Z => c_str x.1 = t) (zip (doc_terms d) (doc_frequencies d)))
    by (rewrite Ef; left).
  apply list_elem_of_filter in Hy as [<- _]. apply c_str_no_nul.
Qed.

(** Every key of the table is a C string. *)
Lemma table_key st frame docs t e : holds st frame docs -> table st !! t = Some e -> x00 ∉ t.
Proof.
  intros Hh Ht. destruct (table_present st frame docs t e Hh Ht) as (own & pl & Hl & _).
  by apply (postings_of_key docs).
Qed.

Lemma collect_terms_ok st frame docs es :
  holds st frame docs -> Forall (fun x => table st !! x.1 = Some x.2) es ->
  ensures (collect_terms es) st (fun l st' => st' = st /\ l = info_of <$> es).
Proof.
  intros Hh. induction es as [|[t e] es IH]; intros HF; cbn [collect_terms].
  { by apply ensures_ret. }
  apply Forall_cons in HF as [Ht HF]. cbn [fst snd] in Ht.
  destruct (table_present st frame docs t e Hh Ht) as (own & pl & _ & Hat).
  apply ensures_bind, ensures_gets, ensures_bind. eapply ensures_lift.
  { unfold tp_get_key_str. by rewrite (ta_string _ _ _ _ _ _ Hat). }
  apply ensures_bind. eapply ensures_mono; [by apply IH|]. intros l st' [-> ->].
  apply ensures_ret. split; [done|]. csimpl. unfold info_of at 2. cbn [fst snd].
  unfold strlen. by rewrite c_str_terminated by (by eapply table_key).
Qed.

Lemma term_info_comparator l : comparator_on term_info_cmp l.
Proof.
  split.
  - intros a b _ _. unfold term_info_cmp, strcmp. rewrite (bytes_compare_opp (c_str (ti_term b))). lia.
  - intros a b c _ _ _. unfold term_info_cmp, strcmp. apply bytes_compare_le_trans.
Qed.

(** Distinct terms, so the order is strict. *)
Lemma dictionary_sorted l :
  StronglySorted (cmp_le term_info_cmp) l -> NoDup (ti_term <$> l) ->
  Forall (fun ti => x00 ∉ ti_term ti) l -> StronglySorted term_lt (ti_term <$> l).
Proof.
  induction 1 as [|ti l Hs IH Hti]; csimpl; [constructor|].
  intros [Hni Hnd]%NoDup_cons [Hk HF]%Forall_cons. constructor; [by apply IH|].
  rewrite Forall_fmap. apply Forall_forall. intros tj Hj. unfold compose, term_lt.
  rewrite Forall_forall in Hti, HF. pose proof (Hti tj Hj) as Hle.
  unfold cmp_le, term_info_cmp, strcmp in Hle. rewrite !c_str_id in Hle by auto.
  destruct (Z.eq_dec (bytes_compare (ti_term ti) (ti_term tj)) 0) as [E%bytes_compare_eq|]; [|lia].
  destruct Hni. rewrite E. by apply list_elem_of_fmap_2.
Qed.

Lemma build_dictionary_ok st frame docs :
  holds st frame docs ->
  ensures tp_build_dictionary st (fun l st' => st' = st /\
    StronglySorted term_lt (ti_term <$> l) /\
    (forall t, t ∈ ti_term <$> l <-> postings_of docs t <> []) /\
    forall ti, ti ∈ l -> ti_term_len ti = zlen (ti_term ti) /\ x00 ∉ ti_term ti /\
      ti_posting_list_dp ti <> InvalidDsaPointer /\
      exists pl, dsa st !! ti_posting_list_dp ti = Some (ChunkPostingList pl) /\
        posting_list_ok (dsa st) pl (postings_of docs (ti_term ti))).
Proof.
  intros Hh. unfold tp_build_dictionary. apply ensures_bind, ensures_gets.
  destruct (string_table (memtable st)) as [ht|] eqn:Eht.
  2:{ apply ensures_ret. split; [done|]. split; [constructor|]. split; [|intros ti Hti; by apply elem_of_nil in Hti].
      intros t. split; [intros Ht; by apply elem_of_nil in Ht|]. intros []. apply (table_absent st frame); [done|].
      unfold table. by rewrite Eht. }
  assert (Etab : table st = ht) by (unfold table; by rewrite Eht).
  pose proof (hash_seq_perm _ _ ht) as Hperm.
  assert (HF : Forall (fun x => table st !! x.1 = Some x.2) (hash_seq ht)).
  { rewrite Hperm, Etab. apply Forall_forall. intros [t e]. apply elem_of_map_to_list. }
  apply ensures_bind. eapply ensures_mono; [by apply (collect_terms_ok st frame docs)|].
  intros l st' [-> ->]. apply ensures_ret. split; [done|].
  set (l := info_of <$> hash_seq ht).
  assert (Hq : qsort term_info_cmp l ≡ₚ l) by apply qsort_perm.
  assert (Hin : forall ti, ti ∈ l -> exists e, table st !! ti_term ti = Some e /\
    ti = info_of (ti_term ti, e)).
  { intros ti ([t e] & -> & Hx)%list_elem_of_fmap. rewrite Forall_forall in HF.
    apply HF in Hx. exists e. done. }
  split.
  { apply dictionary_sorted.
    - apply qsort_sorted, term_info_comparator.
    - rewrite Hq. unfold l. rewrite <- list_fmap_compose.
      change (ti_term ∘ info_of) with (@fst term TpStringHashEntry). rewrite Hperm.
      apply NoDup_fst_map_to_list.
    - rewrite Hq. apply Forall_forall. intros ti (e & He & _)%Hin. by eapply table_key. }
  split.
  - intros t. rewrite Hq. unfold l. rewrite <- list_fmap_compose.
    change (ti_term ∘ info_of) with (@fst term TpStringHashEntry). rewrite Hperm.
    split.
    + intros ([t' e] & -> & Hx%elem_of_map_to_list)%list_elem_of_fmap. cbn.
      rewrite <- Etab in Hx. by destruct (table_present st frame docs _ _ Hh Hx) as (? & ? & ? & _).
    + intros Hne. destruct (table st !! t) as [e|] eqn:Et.
      * apply list_elem_of_fmap. exists (t, e). split; [done|]. rewrite <- Etab.
        by apply elem_of_map_to_list.
      * by rewrite (table_absent st frame docs) in Hne.
  - intros ti. rewrite Hq. intros (e & He & ->)%Hin. cbn [info_of ti_term ti_term_len ti_posting_list_dp fst snd].
    destruct (table_present st frame docs _ _ Hh He) as (own & pl & _ & Hat).
    split; [done|]. split; [by eapply table_key|].
    split; [apply (ta_valid _ _ _ _ _ _ Hat)|]. exists pl.
    split; [apply (ta_postings _ _ _ _ _ _ Hat)|apply (ta_list _ _ _ _ _ _ Hat)].
Qed.
End Reading.

(** ** Clearing *)

Section Clearing.
Context `{DsaAllocatorLaws} `{HashSeqLaws}.
Implicit Types (st : TpLocalIndexState).

Definition without (t : term) (own : owners) : owners := filter (fun x => x.2.1 <> t) own.

Lemma without_lookup t own p t' r :
  without t own !! p = Some (t', r) <-> t' <> t /\ own !! p = Some (t', r).
Proof. unfold without. rewrite map_lookup_filter_Some. simpl. tauto. Qed.

Lemma store_free area area' frame ht own post t e pl l :
  store_ok area frame ht own post -> term_at area own t e pl l ->
  (forall p, area' !! p = if decide (fst <$> own !! p = Some t) then None else area !! p) ->
  store_ok area' frame (delete t ht) (without t own) (delete t post).
Proof.
  intros Hok Hat Harea. eapply (store_delete area); [exact Hok|apply without_lookup| |].
  - intros p t' r Ht Hp. rewrite Harea, Hp. case_decide as Hd; [|done].
    cbn in Hd. congruence.
  - intros p. pose proof (so_frame _ _ _ _ _ Hok p) as Hf.
    destruct (without t own !! p) as [[t' r']|] eqn:Hp.
    + apply without_lookup in Hp as [_ Hp]. by rewrite Hp in Hf.
    + rewrite Harea. destruct (own !! p) as [[t' r']|] eqn:Ho; cbn; [|by case_decide].
      case_decide as Hd; [done|].
      assert (without t own !! p = Some (t', r')) by (apply without_lookup; split; [congruence|done]).
      congruence.
Qed.

Definition free_term (e : TpStringHashEntry) : rst TpLocalIndexState unit :=
  _ ← dsa_free (key_dp e); tp_free_posting_list (key_posting_list e).

Lemma free_term_ok st frame own post t e :
  store_ok (dsa st) frame (table st) own post -> table st !! t = Some e ->
  ensures (free_term e) st (fun _ st' => exists area, st' = set_dsa st area /\
    store_ok area frame (delete t (table st)) (without t own) (delete t post)).
Proof.
  intros Hok Ht. destruct (store_lookup _ _ _ _ _ _ _ Hok Ht) as (l & pl & _ & Hat).
  pose proof Hat as [Hv Hstr Hpl Hlist Hown].
  assert (K1 : own !! key_dp e = Some (t, RoleString)) by (by apply Hown).
  assert (K2 : own !! key_posting_list e = Some (t, RolePostings)) by (by apply Hown).
  assert (Ht' : forall p, fst <$> own !! p = Some t <->
    p = key_dp e \/ p = key_posting_list e \/ (p = pl_entries_dp pl /\ pl_capacity pl <> 0)).
  { intros p. destruct (own !! p) as [[t' r]|] eqn:Hp; cbn.
    - split.
      + intros [= ->]. apply Hown in Hp. destruct r; auto.
      + intros [->|[->|Hr]]; [congruence..|]. apply (Hown p RoleEntries) in Hr. congruence.
    - split; [done|]. intros [->|[->|Hr]]; [congruence..|].
      apply (Hown p RoleEntries) in Hr. congruence. }
  apply ensures_bind. eapply dsa_free_ok; [exact Hstr|].
  unfold tp_free_posting_list, DsaPointerIsValid at 1. rewrite (proj2 (Z.eqb_neq _ _)) by done.
  cbn [negb]. apply ensures_bind. eapply get_posting_list_ok.
  { cbn. rewrite lookup_delete_ne by congruence. exact Hpl. }
  destruct (decide (pl_capacity pl = 0)) as [E0|N0].
  - destruct (plo_empty _ _ _ Hlist E0) as [-> _]. change (DsaPointerIsValid InvalidDsaPointer) with false.
    apply ensures_bind, ensures_ret. eapply dsa_free_ok.
    { cbn. rewrite lookup_delete_ne by congruence. exact Hpl. }
    eexists. split; [reflexivity|]. eapply store_free; [exact Hok|exact Hat|].
    intros p. cbn [dsa set_dsa]. rewrite !lookup_delete.
    repeat case_decide; try done; exfalso; naive_solver.
  - assert (K3 : own !! pl_entries_dp pl = Some (t, RoleEntries)) by (by apply Hown).
    destruct (plo_slots _ _ _ Hlist N0) as (Hve & rest & Hslots & _).
    unfold DsaPointerIsValid. rewrite (proj2 (Z.eqb_neq _ _)) by done. cbn [negb].
    apply ensures_bind. eapply dsa_free_ok.
    { cbn. rewrite lookup_delete_ne by congruence. exact Hslots. }
    eapply dsa_free_ok.
    { cbn. rewrite !lookup_delete_ne by congruence. exact Hpl. }
    eexists. split; [reflexivity|]. eapply store_free; [exact Hok|exact Hat|].
    intros p. cbn [dsa set_dsa]. rewrite !lookup_delete.
    repeat case_decide; try done; exfalso; naive_solver.
Qed.

Lemma clear_entries_ok es : forall st frame own post,
  store_ok (dsa st) frame (table st) own post -> is_Some (string_table (memtable st)) ->
  NoDup es.*1 -> Forall (fun x => table st !! x.1 = Some x.2) es ->
  ensures (clear_entries es) st (fun _ st' => exists ht area own' post',
    st' = with_store st ht area /\ store_ok area frame ht own' post' /\
    forall t, ht !! t = if decide (t ∈ es.*1) then None else table st !! t).
Proof.
  induction es as [|[t e] es IH]; intros st frame own post Hok Hsome Hnd HF; cbn [clear_entries].
  { apply ensures_ret. exists (table st), (dsa st), own, post. by rewrite with_store_id. }
  csimpl in Hnd. apply NoDup_cons in Hnd as [Hni Hnd]. apply Forall_cons in HF as [Ht HF].
  cbn [fst snd] in Ht.
  pose proof (free_term_ok st frame own post t e Hok Ht) as Hfree.
  unfold free_term in Hfree. destruct Hfree as ([] & st1 & E & area & -> & Hok1).
  assert (Eb : forall (k : rst TpLocalIndexState unit),
    (_ ← dsa_free (key_dp e); _ ← tp_free_posting_list (key_posting_list e); k) st =
    k (set_dsa st area)).
  { intros k. unfold mbind, rst_bind in E |- *. destruct (dsa_free (key_dp e) st) as [[]|]; [|done].
    destruct (tp_free_posting_list (key_posting_list e) _) as [[]|]; [|done]. by injection E as ? ->. }
  match goal with |- ensures _ _ ?Q => cut (ensures
    (_ ← rst_modify (fun st => set_string_table st (delete t <$> string_table (memtable st)));
     clear_entries es) (set_dsa st area) Q) end.
  { intros (a & s' & Er & HQ). exists a, s'. by rewrite Eb. }
  apply ensures_bind, ensures_modify.
  set (st2 := set_string_table _ _).
  assert (Etab : table st2 = delete t (table st)).
  { unfold st2, table. cbn. by destruct Hsome as [ht ->]. }
  eapply ensures_mono.
  { apply (IH st2 frame (without t own) (delete t post)); [by rewrite Etab|..|done|].
    - unfold st2. cbn. destruct Hsome as [ht ->]. eauto.
    - rewrite Forall_forall in HF |- *. intros [t' e'] Hin. pose proof (HF _ Hin) as Ht'.
      cbn [fst snd] in *. rewrite Etab, lookup_delete_ne; [done|].
      intros <-. apply Hni. by apply (list_elem_of_fmap_2 fst _ (t, e')). }
  intros [] st3 (ht & area3 & own3 & post3 & -> & Hok3 & Hht).
  exists ht, area3, own3, post3. split; [done|]. split; [done|].
  intros t'. rewrite Hht, Etab. csimpl. destruct (decide (t' = t)) as [->|Hne].
  - rewrite lookup_delete_eq. rewrite (decide_True (P := t ∈ t :: es.*1)) by left. by case_decide.
  - rewrite lookup_delete_ne by done. destruct (decide (t' ∈ es.*1)).
    + by rewrite decide_True by (by right).
    + by rewrite decide_False by (rewrite elem_of_cons; tauto).
Qed.

Lemma store_empty frame : store_ok frame frame ∅ ∅ ∅.
Proof.
  split.
  - intros t. by rewrite !lookup_empty.
  - intros p t r Hp. by rewrite lookup_empty in Hp.
  - intros p. by rewrite lookup_empty.
Qed.

Lemma store_no_terms area frame ht own post :
  store_ok area frame ht own post -> (forall t, ht !! t = None) -> area = frame.
Proof.
  intros Hok Hht. apply map_eq. intros p. pose proof (so_frame _ _ _ _ _ Hok p) as Hf.
  destruct (own !! p) as [[t r]|] eqn:Hp; [|done].
  destruct (so_own _ _ _ _ _ Hok p t r Hp) as [e He]. by rewrite Hht in He.
Qed.

Lemma string_table_clear_ok st frame docs :
  holds st frame docs -> is_Some (string_table (memtable st)) ->
  ensures tp_string_table_clear st (fun _ st' => exists ht, st' = with_store st ht frame).
Proof.
  intros [[own Hok] _ _] Hsome. apply ensures_bind, ensures_gets.
  change (default ∅ (string_table (memtable st))) with (table st).
  pose proof (hash_seq_perm _ _ (table st)) as Hperm.
  eapply ensures_mono.
  { apply (clear_entries_ok _ st frame own (index_of docs) Hok Hsome).
    - rewrite Hperm. apply NoDup_fst_map_to_list.
    - rewrite Hperm. apply Forall_forall. intros [t e]. apply elem_of_map_to_list. }
  intros [] st' (ht & area & own' & post' & -> & Hok' & Hht). exists ht.
  rewrite <- (store_no_terms area frame ht own' post' Hok'); [done|].
  intros t. rewrite Hht. case_decide as Hd; [done|].
  destruct (table st !! t) as [e|] eqn:Et; [|done]. destruct Hd. rewrite Hperm.
  apply list_elem_of_fmap. exists (t, e). split; [done|]. by apply elem_of_map_to_list.
Qed.

Lemma clear_runtime_ok st frame docs :
  holds st frame docs -> is_build_mode st = false ->
  ensures tp_clear_memtable st (fun _ st' =>
    holds st' frame [] /\ dsa st' = frame /\
    tenant_stats (memtable st') = tenant_stats (memtable st) /\
    build_tenant_stats_accum st' = build_tenant_stats_accum st /\
    total_docs st' = total_docs st /\ total_len st' = total_len st /\
    is_build_mode st' = false).
Proof.
  intros Hh Hm. unfold tp_clear_memtable. apply ensures_bind, ensures_gets. rewrite Hm.
  apply ensures_bind, ensures_gets, ensures_bind.
  apply (ensures_mono _ _ (fun _ st' => string_table (memtable st') = None /\ dsa st' = frame /\
    tenant_stats (memtable st') = tenant_stats (memtable st) /\
    build_tenant_stats_accum st' = build_tenant_stats_accum st /\
    total_docs st' = total_docs st /\ total_len st' = total_len st /\
    is_build_mode st' = is_build_mode st)).
  { destruct (string_table (memtable st)) as [ht|] eqn:Eht.
    - apply ensures_bind. eapply ensures_mono; [apply (string_table_clear_ok st frame docs Hh); by rewrite Eht|].
      intros [] st1 (ht' & ->). by apply ensures_modify.
    - apply ensures_ret. destruct Hh as [[own Hok] _ _].
      rewrite (store_no_terms _ _ _ _ _ Hok); [done|]. intros t. unfold table. by rewrite Eht. }
  intros [] st1 (E1 & E2 & E3 & E4 & E5 & E6 & E7). apply ensures_modify. cbn.
  split; [|by rewrite E7, Hm]. split; cbn; [|done|done]. exists ∅. unfold table. cbn. rewrite E1, E2.
  apply store_empty.
Qed.

(** *** Tenant statistics *)

Definition stat_add (o1 o2 : option TpTenantStatsEntry) : option TpTenantStatsEntry :=
  match o1, o2 with
  | None, o | o, None => o
  | Some l, Some e => Some (mkTenantStatsEntry (ts_tenant_id l)
      (u32 (ts_doc_count l + ts_doc_count e)) (i64 (ts_total_len l + ts_total_len e)))
  end.

(** What is known of a tenant: in the memtable and saved by a build. *)
Definition stat_total st (tid : Z) : option TpTenantStatsEntry :=
  stat_add (default ∅ (build_tenant_stats_accum st) !! tid) (tenant_entry st tid).

Definition keyed (m : option (gmap Z TpTenantStatsEntry)) : Prop :=
  forall tid e, default ∅ m !! tid = Some e -> ts_tenant_id e = tid.

Lemma accumulate_stats_list tid (l : list (Z * TpTenantStatsEntry)) :
  NoDup l.*1 -> Forall (fun x => ts_tenant_id x.2 = x.1) l -> forall acc,
  foldl accumulate_stats acc l.*2 !! tid =
  stat_add (acc !! tid) ((list_to_map l : gmap Z TpTenantStatsEntry) !! tid).
Proof.
  induction l as [|[k e] l IH]; intros Hnd HF acc; csimpl.
  { rewrite lookup_empty. by destruct (acc !! tid). }
  csimpl in Hnd. apply NoDup_cons in Hnd as [Hni Hnd]. apply Forall_cons in HF as [Hk HF].
  cbn [fst snd] in Hk. rewrite IH by done. unfold accumulate_stats. rewrite Hk.
  destruct (decide (k = tid)) as [->|Hne].
  - rewrite !lookup_insert_eq.
    assert (En : (list_to_map l : gmap Z TpTenantStatsEntry) !! tid = None)
      by (by apply not_elem_of_list_to_map_1).
    rewrite En. destruct (acc !! tid); done.
  - by rewrite !lookup_insert_ne.
Qed.

Lemma accumulate_stats_map (m : gmap Z TpTenantStatsEntry) tid acc :
  (forall k e, m !! k = Some e -> ts_tenant_id e = k) ->
  foldl accumulate_stats acc (hash_seq m).*2 !! tid = stat_add (acc !! tid) (m !! tid).
Proof.
  intros Hk. pose proof (hash_seq_perm _ _ m) as Hperm.
  assert (Hnd : NoDup (hash_seq m).*1) by (rewrite Hperm; apply NoDup_fst_map_to_list).
  rewrite accumulate_stats_list; [|done|].
  - f_equal. rewrite (list_to_map_proper _ _ Hnd Hperm). by rewrite list_to_map_to_list.
  - rewrite Hperm. apply Forall_forall. intros [k e] Hx%elem_of_map_to_list. by apply Hk.
Qed.

Lemma clear_build_ok st docs :
  holds st ∅ docs -> is_build_mode st = true ->
  ensures tp_clear_memtable st (fun _ st' =>
    holds st' ∅ [] /\ memtable st' = empty_memtable /\ is_build_mode st' = true /\
    total_docs st' = total_docs st /\ total_len st' = total_len st /\
    (keyed (tenant_stats (memtable st)) ->
      (keyed (build_tenant_stats_accum st) -> keyed (build_tenant_stats_accum st')) /\
      forall tid, stat_total st' tid = stat_total st tid)).
Proof.
  intros Hh Hm. unfold tp_clear_memtable. apply ensures_bind, ensures_gets. rewrite Hm.
  apply ensures_bind. unfold tp_tenant_stats_collect. apply ensures_bind, ensures_gets.
  set (stats := default ∅ (tenant_stats (memtable st))).
  apply (ensures_mono _ _ (fun l st' => st' = st /\ l = (hash_seq stats).*2)).
  { unfold stats. destruct (tenant_stats (memtable st)); cbn; apply ensures_ret; [done|].
    split; [done|]. pose proof (hash_seq_perm Z TpTenantStatsEntry ∅) as Hp.
    rewrite map_to_list_empty in Hp. by apply Permutation_nil_r in Hp as ->. }
  intros l st1 [-> ->]. apply ensures_bind.
  set (entries := (hash_seq stats).*2).
  set (acc := foldl accumulate_stats (default ∅ (build_tenant_stats_accum st)) entries).
  apply (ensures_mono _ _ (fun _ st' => exists o, default ∅ o = acc /\
    st' = mkIndexState (total_docs st) (total_len st) (memtable st) (dsa st)
            (is_build_mode st) (terms_added_this_xact st) o)).
  { destruct (Z.ltb_spec 0 (zlen entries)) as [L|L].
    - apply ensures_modify. eexists. split; [|reflexivity]. done.
    - apply ensures_ret. exists (build_tenant_stats_accum st). split; [|by destruct st].
      unfold acc. destruct entries as [|x xs] eqn:E; [done|].
      rewrite zlen_cons in L. pose proof (zlen_nonneg xs). lia. }
  intros [] st1 (o & Ho & ->). unfold tp_recreate_build_dsa. apply ensures_modify.
  cbn. split; [|split; [done|split; [done|split; [done|split; [done|]]]]].
  { split; [|done..]. exists ∅. apply store_empty. }
  intros Hk. assert (Hacc : forall tid, acc !! tid = stat_total st tid).
  { intros tid. unfold acc, entries. by rewrite accumulate_stats_map. }
  split.
  - intros Hk' tid e. rewrite Ho, Hacc. unfold stat_total, stat_add, tenant_entry.
    fold stats. destruct (default ∅ (build_tenant_stats_accum st) !! tid) as [e1|] eqn:E1;
      destruct (stats !! tid) as [e2|] eqn:E2; intros [= <-]; cbn; [by apply Hk' in E1..|by apply Hk in E2].
  - intros tid. unfold stat_total at 1, tenant_entry. cbn. rewrite Ho, lookup_empty, Hacc.
    by destruct (stat_total st tid).
Qed.

(** A build has an area of its own, with nothing of others in it. *)
Definition mode_ok st (frame : dsa_area) : Prop := is_build_mode st = true -> frame = ∅.

(** What clearing does to the statistics of the tenants: a build saves them. *)
Definition tenants_cleared st st' : Prop :=
  if is_build_mode st then
    tenant_stats (memtable st') = None /\
    (keyed (tenant_stats (memtable st)) ->
      (keyed (build_tenant_stats_accum st) -> keyed (build_tenant_stats_accum st')) /\
      forall tid, stat_total st' tid = stat_total st tid)
  else
    tenant_stats (memtable st') = tenant_stats (memtable st) /\
    build_tenant_stats_accum st' = build_tenant_stats_accum st.

Lemma clear_memtable_ok st frame docs : holds st frame docs -> mode_ok st frame ->
  ensures tp_clear_memtable st (fun _ st' =>
    holds st' frame [] /\ tenants_cleared st st' /\
    total_docs st' = total_docs st /\ total_len st' = total_len st /\ is_build_mode st' = is_build_mode st).
Proof.
  intros Hh Hm. unfold tenants_cleared. destruct (is_build_mode st) eqn:Eb.
  - rewrite (Hm Eb) in *. eapply ensures_mono; [by apply (clear_build_ok st docs)|].
    intros [] st' (? & Em & ? & ? & ? & ?). by rewrite Em.
  - eapply ensures_mono; [by apply (clear_runtime_ok st frame docs)|].
    intros [] st' (? & _ & ? & ? & ? & ? & ?). done.
Qed.
End Clearing.

(** ** String keys *)

(** The content a key stands for. *)
Definition key_denotes (area : dsa_area) (key : TpStringKey) (s : list byte) : Prop :=
  x00 ∉ s /\
  match key with
  | LookupKey str len => 0 <= len <= zlen str /\ s = sub_list 0 len str
  | StoredKey dp _ => area !! dp = Some (ChunkString (s ++ [x00]))
  end.

Lemma key_denotes_ok area key s : key_denotes area key s ->
  exists str, tp_get_key_str area key = Ok str /\ tp_get_key_len area key = Ok (zlen s) /\
    sub_list 0 (zlen s) str = s.
Proof.
  intros [Hn Hd]. destruct key as [str len|dp pl].
  - destruct Hd as [Hl ->]. exists str. split; [done|]. rewrite zlen_sub_list by lia. done.
  - exists (s ++ [x00]). cbn. rewrite Hd. split; [done|]. split.
    + cbn. unfold strlen. by rewrite c_str_terminated.
    + rewrite sub_list_app_l by (pose proof (zlen_nonneg s); lia). apply sub_list_0_all.
Qed.

(** ** The claims *)

Section Properties.
Context `{DsaAllocatorLaws} `{HashSeqLaws} `{QSortLaws}.

(** The corpus fits the 32- and 64-bit counters. *)
Definition corpus_bounded (st : TpLocalIndexState) (docs : list document) : Prop :=
  Forall document_ok docs /\ Forall (fun d => 0 <= doc_length d) docs /\
  index_size docs < 2 ^ 30 /\ 0 <= total_docs st /\ total_docs st + zlen docs < 2 ^ 31 /\
  0 <= total_len st /\ total_len st + total_length docs < 2 ^ 63.

(** C13: the memtable holds what was inserted.  From an empty memtable, inserting
    any documents succeeds, without touching memory it does not own, and a query
    for a term then gets exactly the postings of the documents that contain it,
    in insertion order, with their count as the document frequency. *)
Theorem memtable_holds_documents (st : TpLocalIndexState) (frame : dsa_area)
    (docs : list document) (t : term) :
  holds st frame [] -> corpus_bounded st docs -> c_str t <> [] ->
  ensures (_ ← add_documents docs; src ← tp_memtable_source_create; get_postings src t) st
    (fun res st' => holds st' frame docs /\ res = posting_data (postings_of docs (c_str t))).
Proof.
  intros Hh (HF & HL & Hs & Hd0 & Hd1 & Hl0 & Hl1) Ht. apply ensures_bind.
  eapply ensures_mono; [by apply (add_documents_ok docs st frame [])|].
  intros [] st1 (Hh1 & _). eapply ensures_mono; [by apply (get_postings_ok st1 frame docs)|].
  by intros res st2 [-> ->].
Qed.

(** The statistics add up.  Inserting documents advances the document count
    and the total length by what was inserted, and the entry of every tenant by
    its own documents; the length of a document is the one stored last for its
    identifier, -1 for an unknown one. *)
Theorem memtable_statistics (st : TpLocalIndexState) (frame : dsa_area) (docs : list document)
    (c : ItemPointerData) :
  holds st frame [] -> corpus_bounded st docs ->
  ensures (_ ← add_documents docs; src ← tp_memtable_source_create; get_doc_length src c) st
    (fun res st' =>
      total_docs st' = total_docs st + zlen docs /\
      total_len st' = total_len st + total_length docs /\
      (forall tid, tid <> 0 ->
         entry_bounded (zlen docs) (total_length docs) (tenant_entry st tid) ->
         tenant_entry st' tid = add_to_tenant (tenant_entry st tid) tid docs) /\
      res = match lengths_of docs !! c with Some e => dl_doc_length e | None => -1 end).
Proof.
  intros Hh (HF & HL & Hs & Hd0 & Hd1 & Hl0 & Hl1). apply ensures_bind.
  eapply ensures_mono; [by apply (add_documents_ok docs st frame [])|].
  intros [] st1 (Hh1 & E1 & E2 & _ & _ & Hten).
  eapply ensures_mono; [by apply (get_doc_length_ok st1 frame docs)|].
  by intros res st2 [-> ->].
Qed.

(** C14: clearing frees everything and nothing else.  Clearing the memtable of a
    running index succeeds (no chunk is freed twice), leaves in the shared area
    exactly the chunks of others, keeps the corpus totals and the tenant
    statistics, and the memtable is ready for new documents. *)
Theorem clear_frees_exactly_its_memory (st : TpLocalIndexState) (frame : dsa_area)
    (docs : list document) :
  holds st frame docs -> is_build_mode st = false ->
  ensures tp_clear_memtable st (fun _ st' =>
    holds st' frame [] /\ dsa st' = frame /\
    tenant_stats (memtable st') = tenant_stats (memtable st) /\
    total_docs st' = total_docs st /\ total_len st' = total_len st).
Proof.
  intros Hh Hm. eapply ensures_mono; [by apply (clear_runtime_ok st frame docs)|].
  intros [] st' (? & ? & ? & _ & ? & ? & _). auto.
Qed.

(** Tenant statistics survive a build.  In build mode clearing destroys the
    private area with the tenant table; what was known of every tenant is saved,
    added up, and after the build is finished the memtable of the running index
    has the totals. *)
Theorem build_keeps_tenant_statistics (st : TpLocalIndexState) (docs : list document)
    (global : dsa_area) :
  holds st ∅ docs -> is_build_mode st = true ->
  keyed (tenant_stats (memtable st)) -> keyed (build_tenant_stats_accum st) ->
  ensures (_ ← tp_clear_memtable; tp_finalize_build_mode global) st (fun _ st' =>
    is_build_mode st' = false /\ holds st' global [] /\
    (forall tid, tenant_entry st' tid = stat_total st tid) /\
    total_docs st' = total_docs st /\ total_len st' = total_len st).
Proof.
  intros Hh Hm Hk1 Hk2. apply ensures_bind.
  eapply ensures_mono; [by apply (clear_build_ok st docs)|].
  intros [] st1 (Hh1 & Ed & Hm1 & E1 & E2 & Hk). destruct (Hk Hk1) as [Hk' Htot]. specialize (Hk' Hk2).
  unfold tp_finalize_build_mode. apply ensures_modify. cbn.
  split; [done|]. split; [split; [exists ∅; apply store_empty|done|done]|].
  split; [|done]. intros tid. rewrite <- Htot. unfold tenant_entry, stat_total, tenant_entry. cbn.
  rewrite Ed. cbn. rewrite lookup_empty.
  destruct (build_tenant_stats_accum st1) as [acc|]; cbn; [|by rewrite lookup_empty].
  rewrite accumulate_stats_map, lookup_empty by (intros k e; apply Hk'). by destruct (acc !! tid).
Qed.

(** The dictionary of a segment.  Collecting the terms of the memtable gives
    each of them once, in the byte order that the dictionary search relies on,
    with its length and the posting list of its documents. *)
Theorem dictionary_lists_the_terms (st : TpLocalIndexState) (frame : dsa_area)
    (docs : list document) :
  holds st frame docs ->
  ensures tp_build_dictionary st (fun l st' => st' = st /\
    StronglySorted term_lt (ti_term <$> l) /\
    (forall t, t ∈ ti_term <$> l <-> postings_of docs t <> []) /\
    forall ti, ti ∈ l -> ti_term_len ti = zlen (ti_term ti) /\ x00 ∉ ti_term ti /\
      ti_posting_list_dp ti <> InvalidDsaPointer /\
      exists pl, dsa st !! ti_posting_list_dp ti = Some (ChunkPostingList pl) /\
        posting_list_ok (dsa st) pl (postings_of docs (ti_term ti))).
Proof. intros Hh. by apply (build_dictionary_ok st frame docs). Qed.

(** Keys of the string table are compared by content.  Whether a key points
    to the caller's bytes or to a stored copy, the comparison gives 0 exactly
    when the contents are equal, and equal contents have equal hashes: the
    contract of the hash table. *)
Theorem string_keys_are_their_contents (hash_bytes : list byte -> Z) (area : dsa_area)
    (a b : TpStringKey) (sa sb : list byte) :
  key_denotes area a sa -> key_denotes area b sb ->
  (exists r, tp_string_compare_function area a b = Ok r /\ (r = 0 <-> sa = sb)) /\
  tp_string_hash_function hash_bytes area a = Ok (hash_bytes sa).
Proof.
  intros Ha Hb. destruct (key_denotes_ok _ _ _ Ha) as (str_a & Ea & La & Sa).
  destruct (key_denotes_ok _ _ _ Hb) as (str_b & Eb & Lb & Sb).
  unfold tp_string_compare_function, tp_string_hash_function. rewrite Ea, Eb, La, Lb.
  cbn [mbind res_bind]. rewrite Sa. split; [|done].
  destruct (Z.eqb_spec (zlen sa) (zlen sb)) as [E|N]; cbn [negb].
  - eexists. split; [done|]. rewrite E, Sb. apply bytes_compare_eq.
  - eexists. split; [done|]. split; [by case_match|congruence].
Qed.
End Properties.

(** ** Witnesses *)

Section Witnesses.

#[local] Instance max_allocator : DsaAllocator := fun X => fresh ({[0]} ∪ X).
#[local] Instance max_allocator_laws : DsaAllocatorLaws.
Proof.
  split; intros X; unfold dsa_fresh, max_allocator;
    pose proof (is_fresh ({[0]} ∪ X : gset Z)); set_solver.
Qed.

(** Another index has a string in the shared area. *)
Definition demo_frame : dsa_area := {[7 := ChunkString [x00]]}.

Definition demo_state (build : bool) (frame : dsa_area) : TpLocalIndexState :=
  mkIndexState 0 0 empty_memtable frame build 0 None.

Lemma demo_state_holds build frame : holds (demo_state build frame) frame [].
Proof. split; [exists ∅; apply store_empty|done..]. Qed.

Definition demo_documents : list document :=
  [mkDocument (mkItemPointer 0 1) [[x61]; [x62]] [2; 1] 3 5;
   mkDocument (mkItemPointer 0 2) [[x61; x00; x7a]] [4] 4 0;
   mkDocument (mkItemPointer 0 3) [[x62]] [1] 1 5].

Lemma demo_corpus build frame : corpus_bounded (demo_state build frame) demo_documents.
Proof.
  split.
  { repeat (apply Forall_cons; split; [split; [reflexivity|repeat (constructor; [discriminate|]); constructor]|]).
    constructor. }
  split; [forall_compute|]. by vm_compute.
Qed.

Lemma memtable_holds_documents_witness :
  ensures (_ ← add_documents demo_documents; src ← tp_memtable_source_create;
           get_postings src [x61]) (demo_state false demo_frame)
    (fun res st' => holds st' demo_frame demo_documents /\
       res = Some (mkPostingData [mkItemPointer 0 1; mkItemPointer 0 2] [2; 4] (Some [5; 0]) 2 2)).
Proof.
  exact (memtable_holds_documents (demo_state false demo_frame) demo_frame demo_documents [x61]
    (demo_state_holds _ _) (demo_corpus _ _) ltac:(discriminate)).
Defined.

Lemma memtable_statistics_witness :
  ensures (_ ← add_documents demo_documents; src ← tp_memtable_source_create;
           get_doc_length src (mkItemPointer 0 2)) (demo_state false demo_frame)
    (fun res st' => total_docs st' = 3 /\ total_len st' = 8 /\
       tenant_entry st' 5 = Some (mkTenantStatsEntry 5 2 4) /\ res = 4).
Proof.
  eapply ensures_mono; [exact (memtable_statistics (demo_state false demo_frame) demo_frame
    demo_documents (mkItemPointer 0 2) (demo_state_holds _ _) (demo_corpus _ _))|].
  intros res st' (E1 & E2 & Hten & Hres). split; [exact E1|]. split; [exact E2|]. split.
  - rewrite Hten; [reflexivity|discriminate|vm_compute; repeat split; discriminate].
  - rewrite Hres. reflexivity.
Defined.

Lemma clear_frees_exactly_its_memory_witness :
  ensures (_ ← add_documents demo_documents; tp_clear_memtable) (demo_state false demo_frame)
    (fun _ st' => dsa st' = demo_frame).
Proof.
  apply ensures_bind. eapply ensures_mono.
  { apply (add_documents_ok demo_documents (demo_state false demo_frame) demo_frame []);
      [apply demo_state_holds|apply (demo_corpus false demo_frame)..]. }
  intros [] st1 (Hh & _ & _ & Hm & _). eapply ensures_mono.
  { exact (clear_frees_exactly_its_memory st1 demo_frame demo_documents Hh Hm). }
  intros [] st2 (_ & E & _). exact E.
Defined.

Lemma build_keeps_tenant_statistics_witness :
  ensures (_ ← tp_clear_memtable; tp_finalize_build_mode demo_frame)
    (mkIndexState 3 8 (mkMemtable None 0 0 None (Some {[5 := mkTenantStatsEntry 5 2 4]})) ∅ true 0
       (Some {[5 := mkTenantStatsEntry 5 1 6]}))
    (fun _ st' => tenant_entry st' 5 = Some (mkTenantStatsEntry 5 3 10)).
Proof.
  eapply ensures_mono.
  { apply (build_keeps_tenant_statistics _ [] demo_frame).
    - split; [exists ∅; apply store_empty|reflexivity|reflexivity].
    - reflexivity.
    - intros tid e. cbn. intros [<- <-]%lookup_singleton_Some. reflexivity.
    - intros tid e. cbn. intros [<- <-]%lookup_singleton_Some. reflexivity. }
  intros [] st' (_ & _ & Hten & _). rewrite Hten. reflexivity.
Defined.

Lemma dictionary_lists_the_terms_witness :
  ensures (_ ← add_documents demo_documents; tp_build_dictionary) (demo_state false demo_frame)
    (fun l _ => [x61] ∈ ti_term <$> l /\ [x63] ∉ ti_term <$> l).
Proof.
  apply ensures_bind. eapply ensures_mono.
  { apply (add_documents_ok demo_documents (demo_state false demo_frame) demo_frame []);
      [apply demo_state_holds|apply (demo_corpus false demo_frame)..]. }
  intros [] st1 (Hh & _). eapply ensures_mono.
  { exact (dictionary_lists_the_terms st1 demo_frame demo_documents Hh). }
  intros l st2 (_ & _ & Hin & _). rewrite !Hin. vm_compute. split; [discriminate|].
  intros H. apply H. reflexivity.
Defined.

Lemma string_keys_are_their_contents_witness :
  tp_string_compare_function {[7 := ChunkString [x61; x00]]} (LookupKey [x61; x62] 1)
    (StoredKey 7 9) = Ok 0.
Proof.
  destruct (string_keys_are_their_contents (fun _ => 0) {[7 := ChunkString [x61; x00]]}
    (LookupKey [x61; x62] 1) (StoredKey 7 9) [x61] [x61]) as [(r & E & Hr) _].
  - split; [by intros ?%list_elem_of_singleton|]. split; [vm_compute; split; discriminate|reflexivity].
  - split; [by intros ?%list_elem_of_singleton|reflexivity].
  - rewrite E. f_equal. apply Hr. reflexivity.
Defined.
End Witnesses.
