(* ===== verification/SegmentWrite.v ===== *)
(** * Writing a segment (src/segment/segment.c)

    [tp_write_segment] turns the memtable into a segment: document map,
    dictionary, posting blocks, skip index, document arrays, tenant sections,
    page index; the dictionary entries and the header are written last, over
    their placeholders. *)
From S2P Require Import Prelude Postgres Fieldnorm SegmentFormat Compression Storage SegmentIO.
From S2P Require Import Docmap Memtable.

(** ** The writer as a state *)

Section Write.
Context `{PgLayout} `{FreeSpaceMap} `{ItemPointerOps} `{QSort} `{HashSeq}.

Definition writer_state : Type := Storage * TpSegmentWriter.
Abbreviation W := (rst writer_state).

Definition write (data : list byte) : W unit := fun '(st, w) =>
  match tp_segment_writer_write st w data with
  | Ok stw => Ok (tt, stw)
  | Err e => Err e
  end.

Definition current_offset : W Z := rst_gets (fun stw : writer_state => w_current_offset stw.2).

(** [for (i = 0; i < n; i++)] over the elements of an array. *)
Fixpoint write_each {A} (enc : A -> list byte) (l : list A) : W unit :=
  match l with
  | [] => mret tt
  | x :: l' => _ ← write (enc x); write_each enc l'
  end.

(** ** Documents *)

Fixpoint add_to_docmap (docmap : TpDocMapBuilder) (docs : list TpDocLengthEntry)
    : res TpDocMapBuilder :=
  match docs with
  | [] => Ok docmap
  | d :: docs' =>
      '(_, docmap') ← tp_docmap_add docmap (dl_ctid d) (u32 (dl_doc_length d)) (dl_tenant_id d);
      add_to_docmap docmap' docs'
  end.

Definition build_docmap_from_memtable (state : TpLocalIndexState) : res TpDocMapBuilder :=
  match doc_lengths (memtable state) with
  | None => Ok tp_docmap_create
  | Some table => tp_docmap_finalize <$> add_to_docmap tp_docmap_create (hash_seq table).*2
  end.

(** ** Postings *)

Definition cmp_block_posting_by_doc_id (a b : TpBlockPosting) : Z :=
  if bp_doc_id a <? bp_doc_id b then -1
  else if bp_doc_id b <? bp_doc_id a then 1 else 0.

Record TermBlockInfo := mkTermBlockInfo {
  tb_posting_offset : Z;
  tb_block_count : Z;
  tb_doc_freq : Z;
  tb_skip_entry_start : Z;
}.

Definition compare_tenant_first (a b : Z * Z) : Z :=
  if a.1 <? b.1 then -1 else if b.1 <? a.1 then 1 else 0.

(** Per-tenant document frequencies of a term, sorted by tenant. *)
Definition count_tenant (ht : gmap Z Z) (e : TpPostingEntry) : gmap Z Z :=
  if pe_tenant_id e =? 0 then ht
  else <[pe_tenant_id e :=
          match ht !! pe_tenant_id e with None => 1 | Some df => u32 (df + 1) end]> ht.

Definition compute_term_tenant_docfreq (entries : list TpPostingEntry) : list (Z * Z) :=
  qsort compare_tenant_first (hash_seq (foldl count_tenant ∅ entries)).

Fixpoint convert_postings (docmap : TpDocMapBuilder) (entries : list TpPostingEntry)
    : res (list TpBlockPosting) :=
  match entries with
  | [] => Ok []
  | e :: entries' =>
      let doc_id := tp_docmap_lookup docmap (pe_ctid e) in
      if doc_id =? UINT32_MAX then Err ERRCODE_INTERNAL_ERROR
      else
        rest ← convert_postings docmap entries';
        Ok (mkBlockPosting doc_id (u16 (pe_frequency e)) (tp_docmap_get_fieldnorm docmap doc_id)
              :: rest)
  end.

Definition max_of (f : TpBlockPosting -> Z) (ps : list TpBlockPosting) : Z :=
  foldl (fun m p => if m <? f p then f p else m) 0 ps.

(** The tenant mode of a block and the low 16 bits of its tenant. *)
Definition block_tenant_mode (has_tenant_data : bool) (docmap : TpDocMapBuilder)
    (block : list TpBlockPosting) : res (Z * Z) :=
  match has_tenant_data, tenant_ids docmap with
  | true, Some ids =>
      tids ← (fix get (ps : list TpBlockPosting) : res (list Z) :=
                match ps with
                | [] => Ok []
                | p :: ps' => t ← zread ids (bp_doc_id p); ts ← get ps'; Ok (t :: ts)
                end) block;
      match tids with
      | [] => Ok (TP_TENANT_MODE_NONE, 0)
      | first_tid :: rest =>
          let all_same := forallb (fun t => t =? first_tid) rest in
          if negb (first_tid =? 0) && all_same
          then Ok (TP_TENANT_MODE_SINGLE, Z.land first_tid 0xFF + 256 * Z.land (Z.shiftr first_tid 8) 0xFF)
          else if negb all_same then Ok (TP_TENANT_MODE_MIXED, 0)
          else Ok (TP_TENANT_MODE_NONE, 0)
      end
  | _, _ => Ok (TP_TENANT_MODE_NONE, 0)
  end.

Context (tp_compress_segments : bool).

(** One posting block: its skip entry. *)
Definition write_block (has_tenant_data : bool) (docmap : TpDocMapBuilder)
    (block : list TpBlockPosting) : W TpSkipEntry :=
  posting_offset ← current_offset;
  '(mode, low16) ← rst_lift (block_tenant_mode has_tenant_data docmap block);
  let flags := if tp_compress_segments then TP_BLOCK_FLAG_DELTA else TP_BLOCK_FLAG_UNCOMPRESSED in
  _ ← write (if tp_compress_segments then byte_of_Z <$> compress_block block
             else encode_array encode_block_posting block);
  mret (mkSkipEntry (max_of bp_doc_id block) (u8 (zlen block)) (max_of bp_frequency block)
          (max_of bp_fieldnorm block) posting_offset flags mode low16).

(** [for (block_idx = 0; block_idx < num_blocks; block_idx++)], on the postings
    from [block_idx * TP_BLOCK_SIZE] on. *)
Fixpoint write_blocks (num_blocks : nat) (has_tenant_data : bool) (docmap : TpDocMapBuilder)
    (postings : list TpBlockPosting) : W (list TpSkipEntry) :=
  match num_blocks with
  | O => mret []
  | S n =>
      skip ← write_block has_tenant_data docmap (take 128 postings);
      rest ← write_blocks n has_tenant_data docmap (drop 128 postings);
      mret (skip :: rest)
  end.

(** The posting list of a term, read through its pointer. *)
Definition term_entries (area : dsa_area) (dp : Z) : res (Z * list TpPostingEntry) :=
  if dp =? InvalidDsaPointer then Ok (0, [])
  else match area !! dp with
  | Some (ChunkPostingList pl) =>
      if 0 <? pl_doc_count pl then
        match area !! pl_entries_dp pl with
        | Some (ChunkEntries slots) =>
            es ← read_slots (Z.to_nat (pl_doc_count pl)) slots; Ok (pl_doc_freq pl, es)
        | _ => Err OUT_OF_BOUNDS_ACCESS
        end
      else Ok (pl_doc_freq pl, [])
  | _ => Err OUT_OF_BOUNDS_ACCESS
  end.

(** One round of the streaming pass: block info, skip entries, tenant frequencies. *)
Definition write_term (area : dsa_area) (has_tenant_data : bool) (docmap : TpDocMapBuilder)
    (skip_entries_count : Z) (ti : TermInfo)
    : W (TermBlockInfo * list TpSkipEntry * list (Z * Z)) :=
  posting_offset ← current_offset;
  '(doc_freq, entries) ← rst_lift (term_entries area (ti_posting_list_dp ti));
  let tenant_df := if has_tenant_data then compute_term_tenant_docfreq entries else [] in
  let doc_count := zlen entries in
  if doc_count =? 0
  then mret (mkTermBlockInfo posting_offset 0 doc_freq skip_entries_count, [], tenant_df)
  else
    let num_blocks := (doc_count + TP_BLOCK_SIZE - 1) / TP_BLOCK_SIZE in
    block_postings ← rst_lift (convert_postings docmap entries);
    skips ← write_blocks (Z.to_nat num_blocks) has_tenant_data docmap
              (qsort cmp_block_posting_by_doc_id block_postings);
    mret (mkTermBlockInfo posting_offset (u16 num_blocks) doc_freq skip_entries_count, skips,
          tenant_df).

Fixpoint write_terms (area : dsa_area) (has_tenant_data : bool) (docmap : TpDocMapBuilder)
    (skip_entries_count : Z) (terms : list TermInfo)
    : W (list TermBlockInfo * list TpSkipEntry * list (list (Z * Z))) :=
  match terms with
  | [] => mret ([], [], [])
  | ti :: terms' =>
      '(info, skips, df) ← write_term area has_tenant_data docmap skip_entries_count ti;
      '(infos, skips', dfs) ←
        write_terms area has_tenant_data docmap (skip_entries_count + zlen skips) terms';
      mret (info :: infos, skips ++ skips', df :: dfs)
  end.

(** ** Sections *)

(** The positions of elements of the given sizes. *)
Fixpoint running_offsets (start : Z) (sizes : list Z) : list Z :=
  match sizes with
  | [] => []
  | n :: sizes' => start :: running_offsets (u32 (start + n)) sizes'
  end.

Definition string_entry_bytes (itm : Z * TermInfo) : list byte :=
  u32_bytes (ti_term_len itm.2) ++ sub_list 0 (ti_term_len itm.2) (ti_term itm.2)
  ++ u32_bytes (itm.1 * 12).

(** The three writes of a string pool entry. *)
Fixpoint write_strings (i : Z) (terms : list TermInfo) : W unit :=
  match terms with
  | [] => mret tt
  | ti :: terms' =>
      _ ← write (u32_bytes (ti_term_len ti));
      _ ← write (sub_list 0 (ti_term_len ti) (ti_term ti));
      _ ← write (u32_bytes (i * 12));
      write_strings (i + 1) terms'
  end.

Record TpTenantStats := mkTenantStats { tst_tenant_id : Z; tst_num_docs : Z; tst_total_tokens : Z }.

Definition encode_tenant_stats (s : TpTenantStats) : list byte :=
  encode_fields [4; 4; 8]%nat [tst_tenant_id s; tst_num_docs s; tst_total_tokens s].

Definition compare_tenant_stats (a b : TpTenantStats) : Z :=
  if tst_tenant_id a <? tst_tenant_id b then -1
  else if tst_tenant_id b <? tst_tenant_id a then 1 else 0.

Definition encode_pair (p : Z * Z) : list byte := u32_bytes p.1 ++ u32_bytes p.2.

Definition write_tenant_df (df : list (Z * Z)) : W unit :=
  _ ← write (u32_bytes (zlen df));
  if 0 <? zlen df then write (encode_array encode_pair df) else mret tt.

Fixpoint write_tenant_dfs (dfs : list (list (Z * Z))) : W unit :=
  match dfs with
  | [] => mret tt
  | df :: dfs' => _ ← write_tenant_df df; write_tenant_dfs dfs'
  end.

(** The tenant statistics and the per-term tenant frequencies: their offsets. *)
Definition write_tenant_sections (state : TpLocalIndexState) (dfs : list (list (Z * Z)))
    : W (Z * Z) :=
  stats_offset ← current_offset;
  let stats := (fun e : TpTenantStatsEntry =>
      mkTenantStats (ts_tenant_id e) (ts_doc_count e) (ts_total_len e)) <$>
      match tenant_stats (memtable state) with Some t => (hash_seq t).*2 | None => [] end in
  _ ← (if 0 <? zlen stats then
         _ ← write (u32_bytes (zlen stats));
         write (encode_array encode_tenant_stats (qsort compare_tenant_stats stats))
       else write (u32_bytes 0));
  docfreq_offset ← current_offset;
  _ ← write (encode_array u32_bytes (running_offsets 0 ((fun df => 4 + zlen df * 8) <$> dfs)));
  _ ← write_tenant_dfs dfs;
  mret (stats_offset, docfreq_offset).

Definition encode_range (r : TpDocMapTenantRange) : list byte :=
  encode_fields [4; 4; 4]%nat [tr_tenant_id r; tr_first_doc_id r; tr_doc_count r].

(** The range section, if the documents are ordered by tenant. *)
Definition write_tenant_ranges (docmap : TpDocMapBuilder) : W Z :=
  if tenant_ordered docmap && (0 <? zlen (tenant_ranges docmap)) then
    offset ← current_offset;
    _ ← write (u32_bytes (zlen (tenant_ranges docmap)));
    _ ← write (encode_array encode_range (tenant_ranges docmap));
    mret offset
  else mret 0.

Definition initial_header (now : Z) (num_terms : Z) (state : TpLocalIndexState)
    : TpSegmentHeader :=
  mkSegmentHeader TP_SEGMENT_MAGIC TP_SEGMENT_FORMAT_VERSION now 0 0 0 InvalidBlockNumber
    104 0 0 0 0 0 0 0 num_terms (u32 (total_docs state)) (u64 (total_len state)) 0 0 0 0 0 0.

(** The header and the dictionary: where strings, entries and postings start. *)
Definition write_dictionary (header : TpSegmentHeader) (terms : list TermInfo)
    : W (Z * Z * Z) :=
  _ ← write (encode_header header);
  _ ← write (u32_bytes (zlen terms));
  _ ← write (encode_array u32_bytes
               (running_offsets 0 ((fun ti => 4 + ti_term_len ti + 4) <$> terms)));
  strings_offset ← current_offset;
  _ ← write_strings 0 terms;
  entries_offset ← current_offset;
  _ ← write_each (fun _ => encode_dict_entry (mkDictEntry 0 0 0)) terms;
  postings_offset ← current_offset;
  mret (strings_offset, entries_offset, postings_offset).

(** A section that is left out when there are no documents. *)
Definition write_if (b : bool) (data : list byte) : W unit :=
  if b then write data else mret tt.

(** The sections after the postings: where skip index, fieldnorms, CTID pages,
    CTID offsets and tenant map start. *)
Definition write_document_sections (has_tenant_data : bool) (docmap : TpDocMapBuilder)
    (skips : list TpSkipEntry) : W (Z * Z * Z * Z * Z) :=
  let some_docs := 0 <? num_docs docmap in
  skip_index_offset ← current_offset;
  _ ← write_if (0 <? zlen skips) (encode_array encode_skip_entry skips);
  fieldnorm_offset ← current_offset;
  _ ← write_if some_docs (byte_of_Z <$> fieldnorms docmap);
  ctid_pages_offset ← current_offset;
  _ ← write_if some_docs (encode_array u32_bytes (ctid_pages docmap));
  ctid_offsets_offset ← current_offset;
  _ ← write_if some_docs (encode_array u16_bytes (ctid_offsets docmap));
  tenant_map_offset ←
    match tenant_ids docmap with
    | Some ids =>
        if has_tenant_data && some_docs then
          off ← current_offset; _ ← write (encode_array u32_bytes ids); mret off
        else mret 0
    | None => mret 0
    end;
  mret (skip_index_offset, fieldnorm_offset, ctid_pages_offset, ctid_offsets_offset,
        tenant_map_offset).

(** Everything that goes through the writer: the header, but for the page
    index, and the block information of the terms. *)
Definition write_sections (now : Z) (state : TpLocalIndexState) (docmap : TpDocMapBuilder)
    (terms : list TermInfo) : W (TpSegmentHeader * list TermBlockInfo) :=
  let has_tenant_data := match tenant_stats (memtable state) with Some _ => true | None => false end in
  let h0 := initial_header now (zlen terms) state in
  '(strings_off, entries_off, postings_off) ← write_dictionary h0 terms;
  '(infos, skips, dfs) ← write_terms (dsa state) has_tenant_data docmap 0 terms;
  '(skip_off, fieldnorm_off, pages_off, offsets_off, map_off) ←
    write_document_sections has_tenant_data docmap skips;
  '(stats_off, docfreq_off) ←
    (if has_tenant_data then write_tenant_sections state dfs else mret (0, 0));
  ranges_off ← write_tenant_ranges docmap;
  data_size ← current_offset;
  let flags := Z.lor (if has_tenant_data then TP_FLAG_HAS_TENANT_DATA else 0)
                 (if tenant_ordered docmap && (0 <? zlen (tenant_ranges docmap))
                  then TP_FLAG_TENANT_ORDERED else 0) in
  mret (mkSegmentHeader (magic h0) (version h0) (created_at h0) 0 data_size (level h0)
          (next_segment h0) (dictionary_offset h0) strings_off entries_off postings_off skip_off
          fieldnorm_off pages_off offsets_off (SegmentFormat.num_terms h0) (num_docs docmap)
          (total_tokens h0) 0 map_off stats_off docfreq_off ranges_off flags,
        infos).

(** ** Patching *)

(** [memcpy] into a page that is read, modified and marked dirty. *)
Definition patch_page (st : Storage) (block page_offset : Z) (bytes : list byte) : res Storage :=
  page ← ReadBuffer st block;
  Ok (put_page st block (mkPage (pd_special page) (overwrite page_offset bytes (contents page)))).

(** A dictionary entry, which may span two pages. *)
Definition write_dict_entry (st : Storage) (pages : list Z) (entry_offset : Z)
    (entry : TpDictEntry) : res Storage :=
  let entry_logical_page := tp_logical_page entry_offset in
  let page_offset := tp_page_offset entry_offset in
  let bytes := encode_dict_entry entry in
  if zlen pages <=? entry_logical_page then Err ERRCODE_INTERNAL_ERROR
  else
    physical_block ← zread pages entry_logical_page;
    let bytes_on_this_page := SEGMENT_DATA_PER_PAGE - page_offset in
    if 12 <=? bytes_on_this_page then patch_page st physical_block page_offset bytes
    else
      st1 ← patch_page st physical_block page_offset (take (Z.to_nat bytes_on_this_page) bytes);
      if zlen pages <=? entry_logical_page + 1 then Err ERRCODE_INTERNAL_ERROR
      else
        next_block ← zread pages (entry_logical_page + 1);
        patch_page st1 next_block 0 (drop (Z.to_nat bytes_on_this_page) bytes).

Fixpoint write_dict_entries (st : Storage) (pages : list Z) (header : TpSegmentHeader) (i : Z)
    (infos : list TermBlockInfo) : res Storage :=
  match infos with
  | [] => Ok st
  | info :: infos' =>
      let entry := mkDictEntry (u32 (skip_index_offset header + tb_skip_entry_start info * 16))
                     (tb_block_count info) (tb_doc_freq info) in
      st1 ← write_dict_entry st pages (u32 (entries_offset header + i * 12)) entry;
      write_dict_entries st1 pages header (i + 1) infos'
  end.

(** The header fields that are updated on disk. *)
Definition final_header (existing header : TpSegmentHeader) : TpSegmentHeader :=
  mkSegmentHeader (magic existing) (version existing) (created_at existing) (num_pages header)
    (data_size header) (level existing) (next_segment existing) (dictionary_offset existing)
    (strings_offset header) (entries_offset header) (postings_offset header)
    (skip_index_offset header) (fieldnorm_offset header) (ctid_pages_offset header)
    (ctid_offsets_offset header) (SegmentFormat.num_terms existing)
    (SegmentFormat.num_docs header) (total_tokens existing) (page_index header)
    (tenant_map_offset header) (tenant_stats_offset header) (tenant_docfreq_offset header)
    (tenant_ranges_offset header) (flags header).

Definition with_pages_and_index (h : TpSegmentHeader) (pages index : Z) : TpSegmentHeader :=
  mkSegmentHeader (magic h) (version h) (created_at h) pages (data_size h) (level h)
    (next_segment h) (dictionary_offset h) (strings_offset h) (entries_offset h)
    (postings_offset h) (skip_index_offset h) (fieldnorm_offset h) (ctid_pages_offset h)
    (ctid_offsets_offset h) (SegmentFormat.num_terms h) (SegmentFormat.num_docs h)
    (total_tokens h) index (tenant_map_offset h) (tenant_stats_offset h)
    (tenant_docfreq_offset h) (tenant_ranges_offset h) (flags h).

(** Pages, page index, dictionary entries, header: after the writer's last write.
    [final] is the update of the header on disk. *)
Definition finish_segment (final : TpSegmentHeader -> TpSegmentHeader -> TpSegmentHeader)
    (st : Storage) (w : TpSegmentWriter) (header0 : TpSegmentHeader)
    (infos : list TermBlockInfo) : res (Z * Storage) :=
  header_block ← zread (w_pages w) 0;
  st1 ← tp_segment_writer_flush st w;
  let w1 := mkSegmentWriter (w_pages w) (w_current_offset w) (w_buffer w) (w_buffer_page w)
              SizeOfPageHeaderData (w_page_pool w) in
  '(page_index_root, st2) ← write_page_index st1 (w_pages w1);
  let header := with_pages_and_index header0 (zlen (w_pages w1)) page_index_root in
  st3 ← write_dict_entries st2 (w_pages w1) header 0 infos;
  st4 ← tp_segment_writer_finish st3 w1;
  page ← ReadBuffer st4 header_block;
  let existing := decode_header (contents page) in
  st5 ← patch_page st4 header_block 0 (encode_header (final existing header));
  Ok (header_block, st5).

(** [tp_write_segment]: the block of the header, [InvalidBlockNumber] when the
    memtable is empty. *)
Definition tp_write_segment (now : Z) (state : TpLocalIndexState) (st : Storage)
    : res (Z * Storage) :=
  docmap ← build_docmap_from_memtable state;
  '(terms, _) ← tp_build_dictionary state;
  if zlen terms =? 0 then Ok (InvalidBlockNumber, st)
  else
    '(st1, w) ← tp_segment_writer_init st;
    '(header, infos, (st2, w2)) ← write_sections now state docmap terms (st1, w);
    finish_segment final_header st2 w2 header infos.
End Write.
