(* ===== verification/SegmentEmit.v ===== *)
(** * The bytes a segment consists of

    [emits m data a bs]: after [data], the writer computation [m] appends [bs]
    and returns [a].  Each writing function of SegmentWrite emits the bytes
    that a pure function computes ([block_bytes], [skips_from], [dictionary_bytes],
    ...); [sections_emitted] puts them together. *)
From S2P Require Import Prelude Postgres Fieldnorm SegmentFormat Compression Storage SegmentIO.
From S2P Require Import Docmap Memtable SegmentWrite.

Section Emit.
Context `{PgLayoutLaws} `{FreeSpaceMapLaws} `{ItemPointerOps} `{QSort} `{HashSeq}.

Definition emits {A} (m : rst writer_state A) (data : list byte) (a : A) (bs : list byte)
    : Prop :=
  zlen data + zlen bs < 2 ^ 32 -> forall st w, writer_inv st w data ->
  exists st' w', m (st, w) = Ok (a, (st', w')) /\ writer_inv st' w' (data ++ bs) /\
    writer_frame st w st' w'.

Lemma emits_ret {A} (a : A) data : emits (mret a) data a [].
Proof.
  intros _ st w Hi. exists st, w. rewrite app_nil_r. split; [done|]. split; [done|].
  by apply writer_frame_refl.
Qed.

Lemma emits_bind {A B} (m : rst writer_state A) (f : A -> rst writer_state B) data a b b1 b2 :
  emits m data a b1 -> emits (f a) (data ++ b1) b b2 -> emits (m ≫= f) data b (b1 ++ b2).
Proof.
  intros Hm Hf H32 st w Hi. rewrite zlen_app in H32. pose proof (zlen_nonneg b1).
  pose proof (zlen_nonneg b2).
  destruct (Hm ltac:(lia) st w Hi) as (st1 & w1 & E1 & Hi1 & Hfr1).
  destruct (Hf ltac:(rewrite zlen_app; lia) st1 w1 Hi1) as (st2 & w2 & E2 & Hi2 & Hfr2).
  exists st2, w2. unfold mbind, rst_bind. rewrite E1, E2, app_assoc.
  split; [done|]. split; [done|]. by eapply writer_frame_trans.
Qed.

(** A computation that writes nothing, in front. *)
Lemma emits_bind_nil {A B} (m : rst writer_state A) (f : A -> rst writer_state B) data a b bs :
  emits m data a [] -> emits (f a) data b bs -> emits (m ≫= f) data b bs.
Proof.
  intros Hm Hf. change bs with ([] ++ bs). eapply emits_bind; [done|]. by rewrite app_nil_r.
Qed.

(** A computation whose continuation writes nothing. *)
Lemma emits_bind_last {A B} (m : rst writer_state A) (f : A -> rst writer_state B) data a b bs :
  emits m data a bs -> emits (f a) (data ++ bs) b [] -> emits (m ≫= f) data b bs.
Proof. intros Hm Hf. rewrite <- (app_nil_r bs). by eapply emits_bind. Qed.

(** From one state of the data to the next. *)
Definition emits_to {A} (m : rst writer_state A) (data : list byte) (a : A) (data' : list byte)
    : Prop := exists bs, data' = data ++ bs /\ emits m data a bs.

Lemma emits_to_intro {A} (m : rst writer_state A) data a bs data' :
  emits m data a bs -> data ++ bs = data' -> emits_to m data a data'.
Proof. intros Hm <-. by exists bs. Qed.

Lemma emits_to_bind {A B} (m : rst writer_state A) (f : A -> rst writer_state B) d a b d1 d2 :
  emits_to m d a d1 -> emits_to (f a) d1 b d2 -> emits_to (m ≫= f) d b d2.
Proof.
  intros (b1 & -> & Hm) (b2 & -> & Hf). exists (b1 ++ b2). rewrite app_assoc.
  split; [done|]. by eapply emits_bind.
Qed.

Lemma emits_write data bs : emits (write bs) data tt bs.
Proof.
  intros H32 st w Hi. unfold write.
  destruct (tp_segment_writer_write_frame st w data bs Hi H32) as (st' & w' & -> & ? & ?).
  by exists st', w'.
Qed.

Lemma emits_lift {A} (r : res A) a data : r = Ok a -> emits (rst_lift r) data a [].
Proof.
  intros -> _ st w Hi. exists st, w. rewrite app_nil_r. split; [done|]. split; [done|].
  by apply writer_frame_refl.
Qed.

(** The offset is the number of bytes written so far. *)
Lemma emits_offset data : emits current_offset data (zlen data) [].
Proof.
  intros H32 st w Hi. exists st, w. rewrite app_nil_r. pose proof (zlen_nonneg data).
  change (zlen []) with 0 in H32. unfold current_offset, rst_gets. cbn [snd].
  rewrite (wi_offset _ _ _ Hi), wrap_small by lia. split; [done|]. split; [done|].
  by apply writer_frame_refl.
Qed.

Lemma emits_write_if (b : bool) data bs :
  emits (write_if b bs) data tt (if b then bs else []).
Proof. destruct b; [apply emits_write|apply emits_ret]. Qed.

Lemma emits_write_each {X} (enc : X -> list byte) l : forall data,
  emits (write_each enc l) data tt (encode_array enc l).
Proof.
  induction l as [|x l IH]; intros data; [apply emits_ret|].
  change (encode_array enc (x :: l)) with (enc x ++ encode_array enc l).
  eapply emits_bind; [apply emits_write|apply IH].
Qed.

(** ** Posting blocks *)

Section Postings.
Context (tp_compress_segments has_tenant_data : bool) (docmap : TpDocMapBuilder).

Definition block_bytes (block : list TpBlockPosting) : list byte :=
  if tp_compress_segments then byte_of_Z <$> compress_block block
  else encode_array encode_block_posting block.

Definition tenant_mode_of (block : list TpBlockPosting) : Z * Z :=
  match block_tenant_mode has_tenant_data docmap block with Ok p => p | Err _ => (0, 0) end.

Definition skip_of (offset : Z) (block : list TpBlockPosting) : TpSkipEntry :=
  mkSkipEntry (max_of bp_doc_id block) (u8 (zlen block)) (max_of bp_frequency block)
    (max_of bp_fieldnorm block) offset
    (if tp_compress_segments then TP_BLOCK_FLAG_DELTA else TP_BLOCK_FLAG_UNCOMPRESSED)
    (tenant_mode_of block).1 (tenant_mode_of block).2.

(** The tenants of the block's documents are recorded. *)
Definition tenants_known (block : list TpBlockPosting) : Prop :=
  exists p, block_tenant_mode has_tenant_data docmap block = Ok p.

Lemma emits_write_block block data :
  tenants_known block ->
  emits (write_block tp_compress_segments has_tenant_data docmap block) data
    (skip_of (zlen data) block) (block_bytes block).
Proof.
  intros [[mode low] Ht]. unfold write_block.
  eapply emits_bind_nil; [apply emits_offset|].
  eapply emits_bind_nil; [by apply emits_lift|]. cbv beta iota.
  eapply emits_bind_last; [apply emits_write|].
  unfold skip_of, tenant_mode_of. rewrite Ht. apply emits_ret.
Qed.

Fixpoint chunks (n : nat) (ps : list TpBlockPosting) : list (list TpBlockPosting) :=
  match n with O => [] | S n' => take 128 ps :: chunks n' (drop 128 ps) end.

Fixpoint skips_from (offset : Z) (cs : list (list TpBlockPosting)) : list TpSkipEntry :=
  match cs with
  | [] => []
  | c :: cs' => skip_of offset c :: skips_from (offset + zlen (block_bytes c)) cs'
  end.

Definition blocks_bytes (cs : list (list TpBlockPosting)) : list byte := encode_array block_bytes cs.

Lemma emits_write_blocks n : forall ps data,
  Forall tenants_known (chunks n ps) ->
  emits (write_blocks tp_compress_segments n has_tenant_data docmap ps) data
    (skips_from (zlen data) (chunks n ps)) (blocks_bytes (chunks n ps)).
Proof.
  induction n as [|n IH]; intros ps data HF; cbn [write_blocks chunks skips_from].
  { apply emits_ret. }
  apply Forall_cons in HF as [Hc HF].
  change (blocks_bytes (take 128 ps :: chunks n (drop 128 ps)))
    with (block_bytes (take 128 ps) ++ blocks_bytes (chunks n (drop 128 ps))).
  eapply emits_bind; [by apply emits_write_block|].
  eapply emits_bind_last; [by apply IH|]. rewrite zlen_app. apply emits_ret.
Qed.

Lemma skips_from_app o cs cs' :
  skips_from o (cs ++ cs') =
  skips_from o cs ++ skips_from (o + zlen (blocks_bytes cs)) cs'.
Proof.
  revert o. induction cs as [|c cs IH]; intros o; cbn [skips_from app].
  { unfold blocks_bytes. simpl. by rewrite Z.add_0_r. }
  rewrite IH. change (blocks_bytes (c :: cs)) with (block_bytes c ++ blocks_bytes cs).
  by rewrite zlen_app, Z.add_assoc.
Qed.

Lemma length_skips_from o cs : length (skips_from o cs) = length cs.
Proof. revert o. induction cs as [|c cs IH]; intros o; [done|]. simpl. by rewrite IH. Qed.

(** ** Terms *)

(** What is written for a term: its document frequency, the frequencies of its
    tenants and its postings in document order. *)
Record term_data := mkTermData {
  td_doc_freq : Z;
  td_tenant_df : list (Z * Z);
  td_postings : list TpBlockPosting;
}.

Definition num_blocks (t : term_data) : Z :=
  (zlen (td_postings t) + TP_BLOCK_SIZE - 1) / TP_BLOCK_SIZE.

Definition td_chunks (t : term_data) : list (list TpBlockPosting) :=
  chunks (Z.to_nat (num_blocks t)) (td_postings t).

(** The data of a term of the memtable. *)
Record term_data_of (area : dsa_area) (ti : TermInfo) (t : term_data) : Prop := {
  tdo_entries : exists entries, term_entries area (ti_posting_list_dp ti) = Ok (td_doc_freq t, entries) /\
    td_tenant_df t = (if has_tenant_data then compute_term_tenant_docfreq entries else []) /\
    zlen entries = zlen (td_postings t) /\
    exists ps, convert_postings docmap entries = Ok ps /\
      td_postings t = qsort cmp_block_posting_by_doc_id ps;
  tdo_tenants : Forall tenants_known (td_chunks t);
}.

Definition info_of (offset start : Z) (t : term_data) : TermBlockInfo :=
  mkTermBlockInfo offset (u16 (num_blocks t)) (td_doc_freq t) start.

Lemma length_chunks n ps : length (chunks n ps) = n.
Proof. revert ps. induction n as [|n IH]; intros ps; [done|]. simpl. by rewrite IH. Qed.

Lemma num_blocks_nonneg t : 0 <= num_blocks t.
Proof.
  unfold num_blocks, TP_BLOCK_SIZE. pose proof (zlen_nonneg (td_postings t)).
  apply Z.div_pos; lia.
Qed.

Lemma zlen_td_chunks t : zlen (td_chunks t) = num_blocks t.
Proof.
  unfold td_chunks, zlen. rewrite length_chunks. pose proof (num_blocks_nonneg t). lia.
Qed.

Lemma emits_write_term area start ti t data :
  term_data_of area ti t ->
  emits (write_term tp_compress_segments area has_tenant_data docmap start ti) data
    (info_of (zlen data) start t, skips_from (zlen data) (td_chunks t), td_tenant_df t)
    (blocks_bytes (td_chunks t)).
Proof.
  intros [(entries & He & Hdf & Hlen & ps & Hps & Hq) HF]. unfold write_term.
  eapply emits_bind_nil; [apply emits_offset|].
  eapply emits_bind_nil; [apply emits_lift; exact He|]. cbv beta iota zeta.
  rewrite <- Hdf, Hlen. fold (num_blocks t).
  destruct (Z.eqb_spec (zlen (td_postings t)) 0) as [E|N].
  { assert (En : num_blocks t = 0) by (unfold num_blocks; rewrite E; reflexivity).
    unfold td_chunks, info_of. rewrite En. apply emits_ret. }
  eapply emits_bind_nil; [by apply emits_lift|]. rewrite <- Hq.
  eapply emits_bind_last; [by apply emits_write_blocks|]. apply emits_ret.
Qed.

Fixpoint infos_from (offset start : Z) (ts : list term_data) : list TermBlockInfo :=
  match ts with
  | [] => []
  | t :: ts' => info_of offset start t ::
      infos_from (offset + zlen (blocks_bytes (td_chunks t))) (start + num_blocks t) ts'
  end.

Definition all_chunks (ts : list term_data) : list (list TpBlockPosting) := ts ≫= td_chunks.

Lemma blocks_bytes_app cs cs' : blocks_bytes (cs ++ cs') = blocks_bytes cs ++ blocks_bytes cs'.
Proof. unfold blocks_bytes, encode_array. by rewrite fmap_app, concat_app. Qed.

Lemma emits_write_terms area tis : forall start ts data,
  Forall2 (term_data_of area) tis ts ->
  emits (write_terms tp_compress_segments area has_tenant_data docmap start tis) data
    (infos_from (zlen data) start ts, skips_from (zlen data) (all_chunks ts),
     td_tenant_df <$> ts)
    (blocks_bytes (all_chunks ts)).
Proof.
  induction tis as [|ti tis IH]; intros start ts data HF; cbn [write_terms].
  { apply Forall2_nil_inv_l in HF as ->. apply emits_ret. }
  apply Forall2_cons_inv_l in HF as (t & ts' & Ht & HF & ->).
  unfold all_chunks. csimpl. fold (all_chunks ts'). rewrite blocks_bytes_app.
  eapply emits_bind; [by apply emits_write_term|]. cbv beta iota.
  eapply emits_bind_last; [by apply IH|]. cbv beta iota.
  rewrite skips_from_app, zlen_app. cbn [infos_from].
  replace (zlen (skips_from (zlen data) (td_chunks t))) with (num_blocks t); [apply emits_ret|].
  rewrite <- zlen_td_chunks. unfold zlen. by rewrite length_skips_from.
Qed.
End Postings.

(** ** The dictionary *)

Definition string_sizes (terms : list TermInfo) : list Z :=
  (fun ti => 4 + ti_term_len ti + 4) <$> terms.

Fixpoint strings_bytes (i : Z) (terms : list TermInfo) : list byte :=
  match terms with
  | [] => []
  | ti :: terms' =>
      (u32_bytes (ti_term_len ti) ++ sub_list 0 (ti_term_len ti) (ti_term ti)
       ++ u32_bytes (i * 12)) ++ strings_bytes (i + 1) terms'
  end.

Lemma emits_write_strings terms : forall i data,
  emits (write_strings i terms) data tt (strings_bytes i terms).
Proof.
  induction terms as [|ti terms IH]; intros i data; [apply emits_ret|].
  cbn [write_strings strings_bytes]. rewrite <- !app_assoc.
  do 3 (eapply emits_bind; [apply emits_write|]). apply IH.
Qed.

Definition dictionary_head (h : TpSegmentHeader) (terms : list TermInfo) : list byte :=
  encode_header h ++ u32_bytes (zlen terms)
  ++ encode_array u32_bytes (running_offsets 0 (string_sizes terms)).

Definition placeholders (terms : list TermInfo) : list byte :=
  encode_array (fun _ => encode_dict_entry (mkDictEntry 0 0 0)) terms.

Lemma emits_write_dictionary h terms data :
  emits (write_dictionary h terms) data
    (zlen (data ++ dictionary_head h terms),
     zlen ((data ++ dictionary_head h terms) ++ strings_bytes 0 terms),
     zlen (((data ++ dictionary_head h terms) ++ strings_bytes 0 terms) ++ placeholders terms))
    ((dictionary_head h terms ++ strings_bytes 0 terms) ++ placeholders terms).
Proof.
  unfold write_dictionary, dictionary_head. rewrite <- !(app_assoc (encode_header h)).
  rewrite <- !(app_assoc (u32_bytes (zlen terms))).
  do 2 (eapply emits_bind; [apply emits_write|]). rewrite <- !app_assoc.
  eapply emits_bind; [apply emits_write|].
  eapply emits_bind_nil; [apply emits_offset|].
  eapply emits_bind; [apply emits_write_strings|].
  eapply emits_bind_nil; [apply emits_offset|].
  eapply emits_bind_last; [apply emits_write_each|].
  eapply emits_bind_nil; [apply emits_offset|].
  rewrite <- ?app_assoc. apply emits_ret.
Qed.

(** ** Document arrays *)

Definition if_bytes (b : bool) (bs : list byte) : list byte := if b then bs else [].

Definition fieldnorm_bytes (docmap : TpDocMapBuilder) : list byte :=
  if_bytes (0 <? num_docs docmap) (byte_of_Z <$> fieldnorms docmap).
Definition ctid_pages_bytes (docmap : TpDocMapBuilder) : list byte :=
  if_bytes (0 <? num_docs docmap) (encode_array u32_bytes (ctid_pages docmap)).
Definition ctid_offsets_bytes (docmap : TpDocMapBuilder) : list byte :=
  if_bytes (0 <? num_docs docmap) (encode_array u16_bytes (ctid_offsets docmap)).
Definition skip_bytes (skips : list TpSkipEntry) : list byte :=
  if_bytes (0 <? zlen skips) (encode_array encode_skip_entry skips).

(** The tenant map is written when the documents have tenants. *)
Definition tenant_map (has_tenant_data : bool) (docmap : TpDocMapBuilder) : option (list Z) :=
  match tenant_ids docmap with
  | Some ids => if has_tenant_data && (0 <? num_docs docmap) then Some ids else None
  | None => None
  end.

Definition tenant_map_bytes (ht : bool) (docmap : TpDocMapBuilder) : list byte :=
  match tenant_map ht docmap with Some ids => encode_array u32_bytes ids | None => [] end.

Lemma emits_document_sections ht docmap skips data :
  let d1 := data ++ skip_bytes skips in
  let d2 := d1 ++ fieldnorm_bytes docmap in
  let d3 := d2 ++ ctid_pages_bytes docmap in
  let d4 := d3 ++ ctid_offsets_bytes docmap in
  emits (write_document_sections ht docmap skips) data
    (zlen data, zlen d1, zlen d2, zlen d3,
     match tenant_map ht docmap with Some _ => zlen d4 | None => 0 end)
    (skip_bytes skips ++ fieldnorm_bytes docmap ++ ctid_pages_bytes docmap
     ++ ctid_offsets_bytes docmap ++ tenant_map_bytes ht docmap).
Proof.
  intros d1 d2 d3 d4. unfold write_document_sections.
  eapply emits_bind_nil; [apply emits_offset|].
  eapply emits_bind; [apply emits_write_if|].
  eapply emits_bind_nil; [apply emits_offset|].
  eapply emits_bind; [apply emits_write_if|].
  eapply emits_bind_nil; [apply emits_offset|].
  eapply emits_bind; [apply emits_write_if|].
  eapply emits_bind_nil; [apply emits_offset|].
  eapply emits_bind; [apply emits_write_if|].
  change (emits
    (tenant_map_offset ← match tenant_ids docmap with
      | Some ids => if ht && (0 <? num_docs docmap)
                    then off ← current_offset; _ ← write (encode_array u32_bytes ids); mret off
                    else mret 0
      | None => mret 0 end;
     mret (zlen data, zlen d1, zlen d2, zlen d3, tenant_map_offset)) d4
    (zlen data, zlen d1, zlen d2, zlen d3,
     match tenant_map ht docmap with Some _ => zlen d4 | None => 0 end)
    (tenant_map_bytes ht docmap)).
  eapply emits_bind_last; [|apply emits_ret].
  unfold tenant_map_bytes, tenant_map. destruct (tenant_ids docmap) as [ids|]; [|apply emits_ret].
  destruct (ht && (0 <? num_docs docmap)); [|apply emits_ret].
  eapply emits_bind_nil; [apply emits_offset|].
  eapply emits_bind_last; [apply emits_write|]. apply emits_ret.
Qed.

(** ** Tenant sections *)

Definition collected_stats (state : TpLocalIndexState) : list TpTenantStats :=
  (fun e : TpTenantStatsEntry =>
     mkTenantStats (ts_tenant_id e) (ts_doc_count e) (ts_total_len e)) <$>
  match tenant_stats (memtable state) with Some t => (hash_seq t).*2 | None => [] end.

(** The statistics of the tenants, if there is a table of them. *)
Definition state_stats (state : TpLocalIndexState) : option (list TpTenantStats) :=
  match tenant_stats (memtable state) with Some _ => Some (collected_stats state) | None => None end.

Definition tenant_stats_bytes (stats : list TpTenantStats) : list byte :=
  if 0 <? zlen stats
  then u32_bytes (zlen stats) ++ encode_array encode_tenant_stats (qsort compare_tenant_stats stats)
  else u32_bytes 0.

Definition tenant_df_bytes (df : list (Z * Z)) : list byte :=
  u32_bytes (zlen df) ++ if_bytes (0 <? zlen df) (encode_array encode_pair df).

Definition tenant_dfs_bytes (dfs : list (list (Z * Z))) : list byte :=
  encode_array u32_bytes (running_offsets 0 ((fun df => 4 + zlen df * 8) <$> dfs))
  ++ encode_array tenant_df_bytes dfs.

Lemma emits_write_tenant_df df data :
  emits (write_tenant_df df) data tt (tenant_df_bytes df).
Proof. eapply emits_bind; [apply emits_write|]. apply emits_write_if. Qed.

Lemma emits_write_tenant_dfs dfs : forall data,
  emits (write_tenant_dfs dfs) data tt (encode_array tenant_df_bytes dfs).
Proof.
  induction dfs as [|df dfs IH]; intros data; [apply emits_ret|].
  change (encode_array tenant_df_bytes (df :: dfs))
    with (tenant_df_bytes df ++ encode_array tenant_df_bytes dfs).
  eapply emits_bind; [apply emits_write_tenant_df|]. apply IH.
Qed.

Lemma emits_tenant_sections state dfs data :
  emits (write_tenant_sections state dfs) data
    (zlen data, zlen (data ++ tenant_stats_bytes (collected_stats state)))
    (tenant_stats_bytes (collected_stats state) ++ tenant_dfs_bytes dfs).
Proof.
  unfold write_tenant_sections. fold (collected_stats state).
  eapply emits_bind_nil; [apply emits_offset|]. cbv zeta.
  eapply (emits_bind _ _ _ tt).
  { unfold tenant_stats_bytes. destruct (0 <? zlen (collected_stats state)).
    - eapply emits_bind; apply emits_write.
    - apply emits_write. }
  eapply emits_bind_nil; [apply emits_offset|]. unfold tenant_dfs_bytes.
  eapply emits_bind; [apply emits_write|].
  eapply emits_bind_last; [apply emits_write_tenant_dfs|]. apply emits_ret.
Qed.

Definition has_ranges (docmap : TpDocMapBuilder) : bool :=
  tenant_ordered docmap && (0 <? zlen (tenant_ranges docmap)).

Definition tenant_ranges_bytes (docmap : TpDocMapBuilder) : list byte :=
  if_bytes (has_ranges docmap)
    (u32_bytes (zlen (tenant_ranges docmap)) ++ encode_array encode_range (tenant_ranges docmap)).

Lemma emits_tenant_ranges docmap data :
  emits (write_tenant_ranges docmap) data
    (if has_ranges docmap then zlen data else 0) (tenant_ranges_bytes docmap).
Proof.
  unfold write_tenant_ranges, tenant_ranges_bytes. fold (has_ranges docmap).
  destruct (has_ranges docmap); cbn [if_bytes]; [|apply emits_ret].
  eapply emits_bind_nil; [apply emits_offset|].
  eapply emits_bind; [apply emits_write|].
  eapply emits_bind_last; [apply emits_write|]. apply emits_ret.
Qed.

(** ** The whole segment *)

Section Sections.
(** [h0]: the header as written first; [stats]: the tenant statistics, when the
    tenant sections are written. *)
Context (tp_compress_segments : bool) (h0 : TpSegmentHeader) (stats : option (list TpTenantStats))
  (docmap : TpDocMapBuilder) (terms : list TermInfo) (ts : list term_data).

Definition has_tenants_table : bool := match stats with Some _ => true | None => false end.
Abbreviation ht := has_tenants_table.

Definition skips_written (start : Z) : list TpSkipEntry :=
  skips_from tp_compress_segments ht docmap start (all_chunks ts).

(** The data up to the strings, entries, postings, skip index, ... *)
Definition to_strings : list byte := dictionary_head h0 terms.
Definition to_entries : list byte := to_strings ++ strings_bytes 0 terms.
Definition to_postings : list byte := to_entries ++ placeholders terms.
Definition to_skips : list byte :=
  to_postings ++ blocks_bytes tp_compress_segments (all_chunks ts).
Definition to_fieldnorms : list byte := to_skips ++ skip_bytes (skips_written (zlen to_postings)).
Definition to_ctid_pages : list byte := to_fieldnorms ++ fieldnorm_bytes docmap.
Definition to_ctid_offsets : list byte := to_ctid_pages ++ ctid_pages_bytes docmap.
Definition to_tenant_map : list byte := to_ctid_offsets ++ ctid_offsets_bytes docmap.
Definition to_tenant_stats : list byte := to_tenant_map ++ tenant_map_bytes ht docmap.
Definition to_tenant_dfs : list byte :=
  to_tenant_stats ++ if_bytes ht (tenant_stats_bytes (default [] stats)).
Definition to_ranges : list byte :=
  to_tenant_dfs ++ if_bytes ht (tenant_dfs_bytes (td_tenant_df <$> ts)).
Definition segment_bytes : list byte := to_ranges ++ tenant_ranges_bytes docmap.

Definition segment_flags : Z :=
  Z.lor (if ht then TP_FLAG_HAS_TENANT_DATA else 0)
        (if has_ranges docmap then TP_FLAG_TENANT_ORDERED else 0).

(** The header with the page count and the page index; the sections leave both 0. *)
Definition completed_header (n root : Z) : TpSegmentHeader :=
  mkSegmentHeader (magic h0) (version h0) (created_at h0) n (zlen segment_bytes) (level h0)
    (next_segment h0) 104 (zlen to_strings) (zlen to_entries)
    (zlen to_postings) (zlen to_skips) (zlen to_fieldnorms) (zlen to_ctid_pages)
    (zlen to_ctid_offsets) (SegmentFormat.num_terms h0) (num_docs docmap) (total_tokens h0) root
    (match tenant_map ht docmap with Some _ => zlen to_tenant_map | None => 0 end)
    (if ht then zlen to_tenant_stats else 0) (if ht then zlen to_tenant_dfs else 0)
    (if has_ranges docmap then zlen to_ranges else 0) segment_flags.

Definition sections_header : TpSegmentHeader := completed_header 0 0.
End Sections.

Lemma sections_emitted tp_compress_segments now state docmap terms ts :
  let h0 := initial_header now (zlen terms) state in
  let stats := state_stats state in
  Forall2 (term_data_of (has_tenants_table stats) docmap (dsa state)) terms ts ->
  emits_to (write_sections tp_compress_segments now state docmap terms) []
    (sections_header tp_compress_segments h0 stats docmap terms ts,
     infos_from tp_compress_segments (zlen (to_postings h0 terms)) 0 ts)
    (segment_bytes tp_compress_segments h0 stats docmap terms ts).
Proof.
  intros h0 stats HF. unfold write_sections.
  assert (Eht : match tenant_stats (memtable state) with Some _ => true | None => false end
                = has_tenants_table stats).
  { unfold stats, state_stats. by destruct (tenant_stats (memtable state)). }
  rewrite Eht. fold h0.
  eapply emits_to_bind.
  { eapply emits_to_intro; [apply emits_write_dictionary|]. rewrite app_nil_l. reflexivity. }
  cbv beta iota. rewrite app_nil_l.
  change ((dictionary_head h0 terms ++ strings_bytes 0 terms) ++ placeholders terms)
    with (to_postings h0 terms).
  eapply emits_to_bind.
  { eapply emits_to_intro; [by apply emits_write_terms|]. reflexivity. }
  cbv beta iota. fold (to_skips tp_compress_segments h0 terms ts).
  fold (skips_written tp_compress_segments stats docmap ts (zlen (to_postings h0 terms))).
  eapply (emits_to_bind _ _ _ _ _ (to_tenant_stats tp_compress_segments h0 stats docmap terms ts)).
  { eapply emits_to_intro; [apply emits_document_sections|]. by rewrite !app_assoc. }
  cbv beta iota.
  eapply (emits_to_bind _ _ _ _ _ (to_ranges tp_compress_segments h0 stats docmap terms ts)).
  { apply (emits_to_intro _ _
      (if has_tenants_table stats then zlen (to_tenant_stats tp_compress_segments h0 stats docmap terms ts) else 0,
       if has_tenants_table stats then zlen (to_tenant_dfs tp_compress_segments h0 stats docmap terms ts) else 0)
      (if_bytes (has_tenants_table stats) (tenant_stats_bytes (default [] stats))
       ++ if_bytes (has_tenants_table stats) (tenant_dfs_bytes (td_tenant_df <$> ts)))).
    - unfold to_tenant_dfs. destruct (has_tenants_table stats) eqn:Et; [|apply emits_ret].
      replace (default [] stats) with (collected_stats state); [apply emits_tenant_sections|].
      unfold stats, state_stats in *. by destruct (tenant_stats (memtable state)).
    - by rewrite app_assoc. }
  cbv beta iota. eapply emits_to_bind.
  { eapply emits_to_intro; [apply emits_tenant_ranges|]. reflexivity. }
  eapply emits_to_bind.
  { eapply emits_to_intro; [apply emits_offset|]. apply app_nil_r. }
  eapply emits_to_intro; [apply emits_ret|]. apply app_nil_r.
Qed.
End Emit.
