(* ===== verification/SegmentWriteFacts.v ===== *)
(** * Correctness of segment writing (src/segment/segment.c)

    What [tp_write_segment] puts on the pages: the byte stream of the segment
    has the layout that the readers of SegmentScan rely on.  The main theorem
    goes from the documents of the memtable to what an iterator returns. *)
From S2P Require Import Prelude Postgres Float4 Fieldnorm SegmentFormat Compression Storage.
From S2P Require Import SegmentIO Docmap SegmentScan ScanFacts Memtable MemtableFacts SegmentWrite.

(** ** Overwriting *)

Lemma overwrite_middle o src (l1 c l2 : list byte) :
  0 <= o -> o + zlen src <= zlen c ->
  overwrite (zlen l1 + o) src (l1 ++ c ++ l2) = l1 ++ overwrite o src c ++ l2.
Proof.
  unfold overwrite, zlen. intros Ho Hle.
  rewrite take_app_ge by lia. rewrite <- !app_assoc. f_equal.
  rewrite take_app_le by lia.
  replace (Z.to_nat (Z.of_nat (length l1) + o) - length l1)%nat with (Z.to_nat o) by lia.
  do 2 f_equal. rewrite drop_app_ge by lia.
  replace (Z.to_nat (Z.of_nat (length l1) + o) + length src - length l1)%nat
    with (Z.to_nat o + length src)%nat by lia.
  by rewrite drop_app_le by lia.
Qed.

Lemma overwrite_split o (s1 s2 d : list byte) :
  0 <= o -> o + zlen s1 + zlen s2 <= zlen d ->
  overwrite o (s1 ++ s2) d = overwrite (o + zlen s1) s2 (overwrite o s1 d).
Proof.
  intros Ho Hle. unfold overwrite.
  set (A := take (Z.to_nat o) d ++ s1).
  assert (EA : length A = Z.to_nat (o + zlen s1))
    by (unfold A, zlen in *; rewrite length_app, length_take; lia).
  rewrite (app_assoc (take (Z.to_nat o) d) s1 (drop _ d)). fold A.
  rewrite (take_app_length' A) by done. rewrite drop_app_ge by lia.
  rewrite drop_drop. unfold A. rewrite <- !app_assoc. do 4 f_equal.
  unfold A, zlen in *. rewrite length_app. lia.
Qed.

Lemma at_offset_overwrite o (src d : list byte) :
  0 <= o -> o + zlen src <= zlen d -> at_offset (overwrite o src d) o src.
Proof.
  intros Ho Hle. split; [done|]. rewrite length_overwrite by lia. split; [done|].
  unfold overwrite. rewrite sub_list_app_r by (unfold zlen in *; rewrite length_take; lia).
  replace (o - zlen (take (Z.to_nat o) d)) with 0
    by (unfold zlen in *; rewrite length_take; lia).
  rewrite sub_list_app_l by lia. apply sub_list_0_all.
Qed.

Lemma at_offset_overwrite_other o (src d : list byte) o' bs :
  0 <= o -> o + zlen src <= zlen d -> at_offset d o' bs ->
  o' + zlen bs <= o \/ o + zlen src <= o' -> at_offset (overwrite o src d) o' bs.
Proof.
  intros Ho Hle (Ho' & Hle' & Hs) Hdis. split; [done|].
  pose proof (zlen_nonneg bs). pose proof (zlen_nonneg src).
  rewrite length_overwrite by lia. split; [done|].
  rewrite <- Hs at 2. unfold overwrite. destruct Hdis as [L|L].
  - rewrite sub_list_app_l by (unfold zlen in *; rewrite ?length_take; lia).
    unfold sub_list. rewrite skipn_firstn_comm, take_take. f_equal. lia.
  - assert (E : zlen (take (Z.to_nat o) d ++ src) = o + zlen src)
      by (rewrite zlen_app; unfold zlen in *; rewrite length_take; lia).
    rewrite app_assoc, sub_list_app_r by lia. rewrite E. unfold sub_list.
    rewrite drop_drop. do 2 f_equal. unfold zlen in *. lia.
Qed.

(** ** The pages of a segment and its page index *)

Section Pages.
Context `{PgLayoutLaws} `{FreeSpaceMapLaws}.
Abbreviation P := SEGMENT_DATA_PER_PAGE.

Record segment_pages (st : Storage) (root : Z) (bs pages : list Z) (s : list byte) : Prop := {
  sp_wf : storage_wf st;
  sp_index : page_index_at st root bs pages;
  sp_in : Forall (in_relation st) pages;
  sp_nodup : NoDup pages;
  sp_disjoint : forall b, b ∈ pages -> b ∉ bs;
  sp_stream : stream st pages = s;
}.

Lemma segment_pages_length st root bs pages s :
  segment_pages st root bs pages s -> zlen s = zlen pages * P.
Proof.
  intros Hs. rewrite <- (sp_stream _ _ _ _ _ Hs).
  apply length_stream; [apply (sp_wf _ _ _ _ _ Hs)|apply (sp_in _ _ _ _ _ Hs)].
Qed.

(** Nothing outside [pages] changes. *)
Definition pages_kept (st st' : Storage) (pages : list Z) : Prop :=
  nblocks st' = nblocks st /\ st_fsm st' = st_fsm st /\
  forall b, 0 <= b -> b ∉ pages -> zget (st_pages st') b = zget (st_pages st) b.

Lemma pages_kept_refl st pages : pages_kept st st pages.
Proof. done. Qed.

Lemma pages_kept_trans st1 st2 st3 pages :
  pages_kept st1 st2 pages -> pages_kept st2 st3 pages -> pages_kept st1 st3 pages.
Proof.
  intros (E1 & F1 & K1) (E2 & F2 & K2). split; [congruence|]. split; [congruence|].
  intros b Hb Hni. by rewrite K2, K1.
Qed.

Lemma stream_cons st b bs : stream st (b :: bs) = page_data st b ++ stream st bs.
Proof. done. Qed.

Lemma patch_page_ok st root bs pages s k b po src :
  segment_pages st root bs pages s -> zget pages k = Some b -> 0 <= po -> po + zlen src <= P ->
  exists st', patch_page st b po src = Ok st' /\
    segment_pages st' root bs pages (overwrite (k * P + po) src s) /\ pages_kept st st' pages.
Proof.
  intros Hs Hk Hpo Hle. pose proof (zget_Some _ _ _ Hk) as Hkr.
  rewrite zget_lookup in Hk by lia. pose proof (zlen_nonneg src).
  assert (Hbin : in_relation st b) by (by apply (Forall_lookup_1 _ _ _ _ (sp_in _ _ _ _ _ Hs) Hk)).
  assert (Hbp : b ∈ pages) by (by eapply list_elem_of_lookup_2).
  destruct (ReadBuffer_ok st b Hbin) as (p & Ep & Hp). unfold patch_page. rewrite Ep.
  cbn [mbind res_bind].
  assert (Hdata : page_data st b = contents p) by (unfold page_data, page_at; by rewrite Hp).
  pose proof (length_page_data st b (sp_wf _ _ _ _ _ Hs) Hbin) as Hlen. rewrite Hdata in Hlen.
  set (p' := mkPage (pd_special p) (overwrite po src (contents p))).
  eexists. split; [reflexivity|].
  assert (Hp' : zlen (contents p') = P) by (cbn [p' contents]; rewrite length_overwrite by lia; done).
  split.
  - destruct Hs as [Hwf Hidx Hin Hnd Hdis Hst]. split; [by apply put_page_wf| |..|done|].
    + apply page_index_put; [done|unfold in_relation in Hbin; lia|by apply Hdis].
    + eapply Forall_impl; [exact Hin|]. intros x Hx. unfold in_relation. by rewrite nblocks_put.
    + done.
    + rewrite <- Hst. pose proof (take_drop_middle _ _ _ Hk) as Esplit.
      rewrite <- Esplit in Hnd |- *. apply NoDup_app in Hnd as (_ & Hd1 & Hnd).
      apply NoDup_cons in Hnd as [Hd2 _].
      rewrite !stream_app, !stream_cons.
      assert (H0b : 0 <= b) by (unfold in_relation in Hbin; lia).
      rewrite !stream_put_ne; [|done|done|done|intros Hx; by apply (Hd1 b Hx); left].
      rewrite page_data_put_eq, Hdata by done. cbn [p' contents].
      replace (k * P) with (zlen (stream st (take (Z.to_nat k) pages))).
      * by rewrite overwrite_middle by lia.
      * rewrite length_stream; [|done|by apply Forall_take].
        unfold zlen in *. rewrite length_take. f_equal. lia.
  - split; [apply nblocks_put|]. split; [done|]. intros b' Hb' Hni. unfold put_page. simpl.
    unfold in_relation in Hbin. rewrite !zget_lookup by lia. rewrite list_lookup_insert_ne; [done|].
    intros E. apply Hni. replace b' with b by lia. done.
Qed.

Lemma write_dict_entry_ok st root bs pages s off e :
  segment_pages st root bs pages s -> 0 <= off -> off + 12 <= zlen s ->
  exists st', write_dict_entry st pages off e = Ok st' /\
    segment_pages st' root bs pages (overwrite off (encode_dict_entry e) s) /\
    pages_kept st st' pages.
Proof.
  intros Hs Hoff Hle. pose proof (segment_pages_length _ _ _ _ _ Hs) as Hlen.
  pose proof data_per_page_pos as HP. assert (HP12 : 12 <= P).
  { unfold SEGMENT_DATA_PER_PAGE. pose proof BLCKSZ_room. lia. }
  unfold write_dict_entry, tp_logical_page, tp_page_offset. cbv zeta.
  pose proof (Z.div_mod off P) as Hdm. specialize (Hdm ltac:(lia)).
  pose proof (Z.mod_pos_bound off P HP) as Hmod.
  set (k := off / P) in *. set (po := off mod P) in *.
  assert (Hk : 0 <= k < zlen pages) by nia.
  set (bytes := encode_dict_entry e).
  assert (Hb12 : zlen bytes = 12) by (unfold zlen, bytes; by rewrite length_encode_dict_entry).
  rewrite (proj2 (Z.leb_gt _ _)) by lia.
  destruct (zget_is_Some pages k Hk) as [b Hb]. unfold zread. rewrite Hb. cbn [mbind res_bind].
  replace off with (k * P + po) by lia.
  destruct (Z.leb_spec 12 (P - po)) as [L|L].
  { eapply patch_page_ok; [exact Hs|done|lia|lia]. }
  set (n := P - po) in *.
  set (b1 := take (Z.to_nat n) bytes). set (b2 := drop (Z.to_nat n) bytes).
  assert (Hb1 : zlen b1 = n) by (unfold b1, zlen in *; rewrite length_take; lia).
  assert (Hb2 : zlen b2 = 12 - n) by (unfold b2, zlen in *; rewrite length_drop; lia).
  destruct (patch_page_ok st root bs pages s k b po b1 Hs Hb) as (st1 & -> & Hs1 & Hk1); [lia..|].
  cbn [mbind res_bind]. rewrite (proj2 (Z.leb_gt _ _)) by nia.
  destruct (zget_is_Some pages (k + 1) ltac:(nia)) as [b' Hb']. rewrite Hb'. cbn [mbind res_bind].
  destruct (patch_page_ok st1 root bs pages _ (k + 1) b' 0 b2 Hs1 Hb') as (st2 & -> & Hs2 & Hk2);
    [lia..|].
  exists st2. split; [done|]. split; [|by eapply pages_kept_trans].
  replace bytes with (b1 ++ b2) by (unfold b1, b2; by rewrite take_drop).
  rewrite overwrite_split by lia. rewrite Hb1.
  replace (k * P + po + n) with ((k + 1) * P + 0) by lia. exact Hs2.
Qed.

Definition entry_of (header : TpSegmentHeader) (info : TermBlockInfo) : TpDictEntry :=
  mkDictEntry (u32 (skip_index_offset header + tb_skip_entry_start info * 16))
    (tb_block_count info) (tb_doc_freq info).

Lemma write_dict_entries_ok root bs pages header infos : forall st s i,
  segment_pages st root bs pages s -> 0 <= i -> 0 <= entries_offset header ->
  entries_offset header + (i + zlen infos) * 12 <= zlen s -> zlen s < 2 ^ 32 ->
  exists st', write_dict_entries st pages header i infos = Ok st' /\
    segment_pages st' root bs pages
      (overwrite (entries_offset header + i * 12)
         (encode_array encode_dict_entry (entry_of header <$> infos)) s) /\
    pages_kept st st' pages.
Proof.
  induction infos as [|info infos IH]; intros st s i Hs Hi He Hle H32; cbn [write_dict_entries].
  { exists st. split; [done|]. split; [|apply pages_kept_refl]. unfold overwrite, encode_array. simpl.
    by rewrite Nat.add_0_r, take_drop. }
  rewrite zlen_cons in Hle. pose proof (zlen_nonneg infos). cbv zeta.
  rewrite (wrap_small 32 (entries_offset header + i * 12)) by lia.
  destruct (write_dict_entry_ok st root bs pages s (entries_offset header + i * 12)
    (entry_of header info) Hs) as (st1 & E1 & Hs1 & K1); [lia..|].
  unfold entry_of in E1. rewrite E1. cbn [mbind res_bind].
  assert (E12 : zlen (encode_dict_entry (entry_of header info)) = 12)
    by (unfold zlen; by rewrite length_encode_dict_entry).
  destruct (IH st1 _ (i + 1) Hs1) as (st2 & E2 & Hs2 & K2);
    [lia|lia|rewrite length_overwrite by lia; lia..|].
  exists st2. split; [exact E2|]. split; [|by eapply pages_kept_trans].
  csimpl. change (encode_array encode_dict_entry (entry_of header info :: (entry_of header <$> infos)))
    with (encode_dict_entry (entry_of header info) ++
          encode_array encode_dict_entry (entry_of header <$> infos)).
  rewrite overwrite_split; rewrite ?E12; [|lia|].
  - replace (entries_offset header + i * 12 + 12) with (entries_offset header + (i + 1) * 12) by lia.
    exact Hs2.
  - assert (zlen (encode_array encode_dict_entry (entry_of header <$> infos)) = zlen infos * 12).
    { unfold zlen. rewrite (length_encode_array _ 12) by apply length_encode_dict_entry.
      rewrite length_fmap. lia. }
    lia.
Qed.

(** ** The last steps of a segment *)

(** The stream of a finished segment: the data written, dictionary entries and
    header replaced, rounded up to whole pages. *)
Definition patched (header0 final : TpSegmentHeader) (infos : list TermBlockInfo)
    (s0 : list byte) : list byte :=
  overwrite 0 (encode_header final)
    (overwrite (entries_offset header0)
       (encode_array encode_dict_entry (entry_of header0 <$> infos)) s0).

Lemma at_offset_take s (n : nat) off bs : at_offset (take n s) off bs -> at_offset s off bs.
Proof.
  intros (Ho & Hle & Hs). pose proof (zlen_nonneg bs).
  assert (zlen (take n s) <= zlen s) by (unfold zlen; rewrite length_take; lia).
  split; [done|]. split; [lia|].
  rewrite <- Hs at 2. replace n with (Z.to_nat (Z.of_nat n)) by lia.
  rewrite sub_list_prefix; [done|done|]. unfold zlen in Hle at 2. rewrite length_take in Hle. lia.
Qed.

Lemma finish_segment_ok final st w data header0 h_init infos :
  writer_inv st w data -> zlen data < 2 ^ 32 - P -> 104 <= P ->
  header_ok h_init -> at_offset data 0 (encode_header h_init) ->
  104 <= entries_offset header0 -> entries_offset header0 + zlen infos * 12 <= zlen data ->
  nblocks st + num_index_pages (w_pages w) <= InvalidBlockNumber ->
  exists block root bs st' s0,
    let hf := final h_init (with_pages_and_index header0 (zlen (w_pages w)) root) in
    finish_segment final st w header0 infos = Ok (block, st') /\
    zget (w_pages w) 0 = Some block /\
    take (length data) s0 = data /\ zlen s0 < 2 ^ 32 /\
    segment_pages st' root bs (w_pages w) (patched header0 hf infos s0) /\
    nblocks st <= nblocks st' /\
    (forall b, in_relation st b -> b ∉ st_fsm st -> b ∉ w_pages w ->
       page_at st' b = page_at st b) /\
    (forall b, b ∈ st_fsm st' -> b ∈ st_fsm st) /\
    (forall b, b ∈ w_pages w ++ bs -> b ∉ st_fsm st' /\ (b ∈ w_pages w \/ b ∈ st_fsm st \/ nblocks st <= b)).
Proof.
  intros Hi H32 HP104 Hok_init Hinit He1 He2 Hlim. pose proof data_per_page_pos as HP.
  pose proof (zlen_nonneg infos).
  destruct (wi_page _ _ _ Hi) as (b & Hb & _ & Hbr & Hbp).
  pose proof (wi_count _ _ _ Hi) as Hc.
  destruct (zget_is_Some (w_pages w) 0 ltac:(lia)) as [block Hblock].
  unfold finish_segment, zread. rewrite Hblock. cbn [mbind res_bind].
  destruct (writer_flush_inv _ _ _ Hi) as (st1 & b' & -> & Hi1 & Hb' & Hpd & Hn1 & Hf1 & Hkeep1).
  assert (b' = b) as -> by congruence. cbn [mbind res_bind w_pages].
  set (pages := w_pages w) in *. rewrite <- Hn1 in Hlim.
  destruct (write_page_index_ok st1 pages (wi_storage _ _ _ Hi1) Hlim)
    as (root & bs & st2 & -> & Hwf2 & Hidx & Hnew & Hmono & Hkeep2 & Hfsub & Hfnot).
  cbn [mbind res_bind].
  assert (Hpin : Forall (fun b => in_relation st1 b /\ b ∉ st_fsm st1) pages).
  { eapply Forall_impl; [apply (wi_pages _ _ _ Hi1)|]. unfold in_relation. intros x [? ?]. split; [lia|done]. }
  assert (Hdis : forall x, x ∈ pages -> x ∉ bs).
  { intros x Hx Hxb. rewrite Forall_forall in Hpin, Hnew. destruct (Hpin x Hx) as [Hr Hni].
    destruct (Hnew x Hxb) as [|Hge]; [done|]. unfold in_relation in Hr. lia. }
  set (s0 := stream st1 pages).
  assert (Hs2 : segment_pages st2 root bs pages s0).
  { split; try done.
    - eapply Forall_impl; [exact Hpin|]. unfold in_relation. intros x [? _]. lia.
    - apply (wi_nodup _ _ _ Hi1).
    - unfold s0. apply stream_ext. intros x Hx. rewrite Forall_forall in Hpin.
      destruct (Hpin x Hx). by apply page_at_data, Hkeep2. }
  pose proof (segment_pages_length _ _ _ _ _ Hs2) as Hlen.
  assert (Hpre : take (length data) s0 = data)
    by (apply (writer_stream st1 w data b); auto).
  assert (Hdle : zlen data <= zlen s0) by (rewrite <- Hpre; unfold zlen; rewrite length_take; lia).
  assert (H32s : zlen s0 < 2 ^ 32).
  { pose proof (wi_length _ _ _ Hi). pose proof (wi_used _ _ _ Hi). nia. }
  set (header := with_pages_and_index header0 (zlen pages) root).
  destruct (write_dict_entries_ok root bs pages header infos st2 s0 0 Hs2) as (st3 & -> & Hs3 & Hk3);
    [lia|cbn; lia|cbn; lia|lia|].
  cbn [mbind res_bind]. unfold tp_segment_writer_finish at 1. cbn [w_buffer_pos].
  rewrite Z.ltb_irrefl. cbn [mbind res_bind].
  set (s3 := overwrite _ _ s0) in *.
  assert (Hent : zlen (encode_array encode_dict_entry (entry_of header <$> infos)) = zlen infos * 12).
  { unfold zlen. rewrite (length_encode_array _ 12) by apply length_encode_dict_entry.
    rewrite length_fmap. lia. }
  assert (Hl3 : zlen s3 = zlen s0) by (unfold s3; cbn; rewrite length_overwrite; [done|cbn; lia..]).
  assert (E104 : forall h, zlen (encode_header h) = 104) by (intros; unfold zlen; by rewrite length_encode_header).
  assert (Hinit3 : at_offset s3 0 (encode_header h_init)).
  { unfold s3. apply at_offset_overwrite_other; [cbn; lia|cbn; lia| |rewrite E104; change (entries_offset header) with (entries_offset header0); lia].
    apply (at_offset_take s0 (length data)). by rewrite Hpre. }
  assert (Hblock_in : in_relation st3 block).
  { pose proof (sp_in _ _ _ _ _ Hs3) as HF. rewrite zget_lookup in Hblock by lia.
    by apply (Forall_lookup_1 _ _ _ _ HF Hblock). }
  destruct (ReadBuffer_ok st3 block Hblock_in) as (page & Epage & Hpage). rewrite Epage.
  cbn [mbind res_bind].
  assert (Hdec : decode_header (contents page) = h_init).
  { assert (Ec : contents page = sub_list 0 P s3).
    { rewrite <- (sp_stream _ _ _ _ _ Hs3).
      pose proof (stream_page_slice st3 pages 0 block 0 P) as Hsl.
      rewrite Z.add_0_r, Z.mul_0_l in Hsl. rewrite Hsl; [|apply (sp_wf _ _ _ _ _ Hs3)|apply (sp_in _ _ _ _ _ Hs3)|done|lia..].
      unfold page_data, page_at. rewrite Hpage. unfold sub_list. simpl. rewrite drop_0, take_ge; [done|].
      pose proof (length_page_data st3 block (sp_wf _ _ _ _ _ Hs3) Hblock_in) as Hpl.
      unfold page_data, page_at in Hpl. rewrite Hpage in Hpl. unfold zlen in Hpl. lia. }
    destruct Hinit3 as (_ & _ & Hsub). rewrite E104 in Hsub.
    replace P with (104 + (P - 104)) in Ec by lia. rewrite sub_list_split, Hsub in Ec by lia.
    rewrite Ec. by apply decode_encode_header. }
  rewrite Hdec.
  destruct (patch_page_ok st3 root bs pages s3 0 block 0
    (encode_header (final h_init header)) Hs3 Hblock) as (st5 & -> & Hs5 & Hk5);
    [lia|rewrite E104; lia|].
  cbn [mbind res_bind]. exists block, root, bs, st5, s0. cbv zeta.
  do 4 (split; [done|]).
  split. { unfold s3 in Hs5. rewrite !Z.add_0_r in Hs5. exact Hs5. }
  destruct (pages_kept_trans _ _ _ _ Hk3 Hk5) as (En & Ef & Hk).
  split; [lia|]. split; [|split].
  - intros x Hx Hxf Hxp. unfold in_relation in Hx. unfold page_at at 1.
    rewrite Hk by (lia || done). fold (page_at st2 x).
    rewrite Hkeep2; [apply Hkeep1; [lia|done]|unfold in_relation; lia|by rewrite Hf1].
  - intros x Hx. rewrite Ef in Hx. rewrite <- Hf1. by apply Hfsub.
  - intros x Hx. rewrite Ef. rewrite Forall_forall in Hpin, Hnew, Hfnot.
    apply elem_of_app in Hx as [Hx|Hx].
    + split; [|by left]. intros Hxf. by apply (Hpin x Hx), Hfsub.
    + split; [by apply Hfnot|]. right. rewrite <- Hf1. destruct (Hnew x Hx); [by left|right; lia].
Qed.
End Pages.
