(* ===== verification/SegmentLayout.v ===== *)
(** * The layout of a written segment

    Where the parts of [segment_bytes] lie, and that after the dictionary
    entries and the header are patched the stream is what the readers expect:
    [dictionary_at] for the terms and [blocks_at] for the postings of every
    term. *)
From S2P Require Import Prelude Postgres Fieldnorm SegmentFormat Compression Storage SegmentIO.
From S2P Require Import Docmap SegmentScan ScanFacts Memtable SegmentWrite SegmentWriteFacts.
From S2P Require Import SegmentEmit.

(** ** Parts of a byte list *)

Lemma at_offset_app s s' off bs : at_offset s off bs -> at_offset (s ++ s') off bs.
Proof.
  intros (Ho & Hle & Hs). pose proof (zlen_nonneg s'). split; [done|].
  rewrite zlen_app. split; [lia|]. pose proof (zlen_nonneg bs). by rewrite sub_list_app_l by lia.
Qed.

Lemma at_offset_end s bs : at_offset (s ++ bs) (zlen s) bs.
Proof.
  pose proof (zlen_nonneg s). split; [done|]. rewrite zlen_app. split; [lia|].
  rewrite sub_list_app_r by lia. rewrite Z.sub_diag. apply sub_list_0_all.
Qed.

Lemma at_offset_sub s off bs o bs' :
  at_offset s off bs -> at_offset bs o bs' -> at_offset s (off + o) bs'.
Proof.
  intros (Ho & Hle & Hs) (Ho' & Hle' & Hs'). pose proof (zlen_nonneg bs').
  split; [lia|]. split; [lia|]. rewrite <- Hs' at 2. rewrite <- Hs. unfold sub_list.
  rewrite skipn_firstn_comm, take_take, drop_drop. f_equal; [lia|]. f_equal. lia.
Qed.

Lemma at_offset_prefix s (n : nat) off bs :
  at_offset s off bs -> off + zlen bs <= Z.of_nat n -> at_offset (take n s) off bs.
Proof.
  intros (Ho & Hle & Hs) Hn. pose proof (zlen_nonneg bs). split; [done|].
  split; [unfold zlen in *; rewrite length_take; lia|].
  rewrite <- Hs at 2. replace n with (Z.to_nat (Z.of_nat n)) by lia.
  by apply sub_list_prefix; [|lia].
Qed.

Lemma at_offset_concat (ls : list (list byte)) (i : nat) x :
  ls !! i = Some x -> at_offset (concat ls) (zlen (concat (take i ls))) x.
Proof.
  intros Hi. rewrite <- (take_drop_middle _ _ _ Hi) at 1. rewrite concat_app. simpl.
  rewrite app_assoc. apply at_offset_app, at_offset_end.
Qed.

Lemma at_offset_element {A} (enc : A -> list byte) (w : nat) l s off (i : nat) a :
  (forall a, length (enc a) = w) -> l !! i = Some a -> at_offset s off (encode_array enc l) ->
  at_offset s (off + Z.of_nat i * Z.of_nat w) (enc a).
Proof.
  intros Hw Hi Hs.
  replace (Z.of_nat i * Z.of_nat w) with (zlen (concat (take i (enc <$> l)))).
  - eapply at_offset_sub; [exact Hs|]. apply at_offset_concat.
    by rewrite list_lookup_fmap, Hi.
  - rewrite <- fmap_take. change (concat (enc <$> take i l)) with (encode_array enc (take i l)).
    unfold zlen. rewrite (length_encode_array _ w) by done. rewrite length_take.
    pose proof (lookup_lt_Some _ _ _ Hi). lia.
Qed.

Lemma at_offset_prefix_of a b off bs : at_offset a off bs -> a `prefix_of` b -> at_offset b off bs.
Proof. intros Ha [r ->]. by apply at_offset_app. Qed.

Lemma zlen_prefix_of (a b : list byte) : a `prefix_of` b -> zlen a <= zlen b.
Proof. intros [r ->]. rewrite zlen_app. pose proof (zlen_nonneg r). lia. Qed.

(** Sizes of array encodings. *)
Lemma zlen_encode_array {A} (enc : A -> list byte) (w : nat) l :
  (forall a, length (enc a) = w) -> zlen (encode_array enc l) = zlen l * Z.of_nat w.
Proof. intros Hw. unfold zlen. rewrite (length_encode_array _ w) by done. lia. Qed.

(** ** Running offsets *)

Definition sum_list (l : list Z) : Z := foldr Z.add 0 l.

Lemma running_offsets_lookup sizes : forall start (i : nat) n,
  sizes !! i = Some n -> Forall (fun n => 0 <= n) sizes -> 0 <= start ->
  start + sum_list sizes < 2 ^ 32 ->
  running_offsets start sizes !! i = Some (start + sum_list (take i sizes)).
Proof.
  induction sizes as [|n0 sizes IH]; intros start i n Hi HF Hs H32; [done|].
  apply Forall_cons in HF as [Hn HF]. cbn [sum_list foldr] in H32. fold (sum_list sizes) in H32.
  assert (0 <= sum_list sizes).
  { clear -HF. induction HF; simpl; [lia|]. unfold sum_list in *. simpl. lia. }
  destruct i as [|i]; simpl; [f_equal; lia|]. simpl in Hi.
  rewrite (wrap_small 32) by lia. rewrite (IH _ _ n) by (done || lia).
  f_equal. unfold sum_list. lia.
Qed.

Lemma zlen_running_offsets start sizes : zlen (running_offsets start sizes) = zlen sizes.
Proof.
  revert start. induction sizes as [|n sizes IH]; intros start; [done|].
  cbn [running_offsets]. by rewrite !zlen_cons, IH.
Qed.

Lemma zlen_u32 z : zlen (u32_bytes z) = 4.
Proof. unfold zlen. by rewrite length_u32_bytes. Qed.

(** ** Chunks of a posting list *)

Section Chunks.
Abbreviation TB := TP_BLOCK_SIZE.

Lemma chunks_concat n : forall ps, (length ps <= 128 * n)%nat -> concat (chunks n ps) = ps.
Proof.
  induction n as [|n IH]; intros ps Hn; cbn [chunks concat].
  { destruct ps; [done|simpl in Hn; lia]. }
  rewrite IH; [apply take_drop|]. rewrite length_drop. lia.
Qed.

Lemma chunks_sizes n : forall ps, (128 * (n - 1) < length ps)%nat ->
  Forall (fun c => 0 < zlen c <= 128) (chunks n ps).
Proof.
  induction n as [|n IH]; intros ps Hn; cbn [chunks]; constructor.
  - unfold zlen. rewrite length_take. lia.
  - destruct n as [|n]; [constructor|]. apply IH. rewrite length_drop. lia.
Qed.
End Chunks.

(** ** The patched stream *)

Section Layout.
Context `{PgLayoutLaws} `{FreeSpaceMapLaws} `{ItemPointerLaws} `{QSortLaws} `{HashSeqLaws}.
Context (tp_compress_segments : bool) (h0 : TpSegmentHeader) (stats : option (list TpTenantStats))
  (docmap : TpDocMapBuilder) (terms : list TermInfo) (ts : list term_data).
Abbreviation ht := (has_tenants_table stats).
Abbreviation D := (segment_bytes tp_compress_segments h0 stats docmap terms ts).
Abbreviation header0 := (sections_header tp_compress_segments h0 stats docmap terms ts).
Abbreviation entries_at := (zlen (to_entries h0 terms)).
Abbreviation postings_at := (zlen (to_postings h0 terms)).
Abbreviation skips_at := (zlen (to_skips tp_compress_segments h0 terms ts)).
Abbreviation infos := (infos_from tp_compress_segments postings_at 0 ts).
Abbreviation cs := (all_chunks ts).

Context (Hterms : Forall (fun ti => ti_term_len ti = zlen (ti_term ti) /\ x00 ∉ ti_term ti) terms).
Context (Hcount : length ts = length terms).
Context (H32 : zlen D < 2 ^ 32).

(** The parts in order. *)
Lemma parts : to_postings h0 terms `prefix_of` D /\
  to_skips tp_compress_segments h0 terms ts `prefix_of` D /\
  to_fieldnorms tp_compress_segments h0 stats docmap terms ts `prefix_of` D.
Proof.
  assert (Hp1 : to_fieldnorms tp_compress_segments h0 stats docmap terms ts `prefix_of` D)
    by (do 7 apply prefix_app_r; done).
  assert (Hp2 : to_skips tp_compress_segments h0 terms ts `prefix_of` D).
  { etrans; [|exact Hp1]. by apply prefix_app_r. }
  split; [|done]. etrans; [|exact Hp2]. by apply prefix_app_r.
Qed.

Lemma length_infos o k : length (infos_from tp_compress_segments o k ts) = length ts.
Proof.
  clear. revert o k. induction ts as [|t ts' IH]; intros o k; [done|]. simpl. f_equal. apply IH.
Qed.

Lemma zlen_placeholders : zlen (placeholders terms) = zlen terms * 12.
Proof. unfold placeholders. by rewrite (zlen_encode_array _ 12) by (intros; apply length_encode_dict_entry). Qed.

Lemma zlen_entries_array h : zlen (encode_array encode_dict_entry (entry_of h <$> infos)) = zlen terms * 12.
Proof.
  rewrite (zlen_encode_array _ 12) by apply length_encode_dict_entry. rewrite zlen_fmap.
  unfold zlen. rewrite length_infos, Hcount. lia.
Qed.

Lemma zlen_header h : zlen (encode_header h) = 104.
Proof. unfold zlen. by rewrite length_encode_header. Qed.

Lemma positions : 104 + 4 + zlen terms * 4 <= entries_at /\
  postings_at = entries_at + zlen terms * 12 /\ postings_at <= skips_at <= zlen D.
Proof.
  destruct parts as (_ & Hpre & _). split; [|split].
  - unfold to_entries, to_strings, dictionary_head. rewrite !zlen_app, zlen_header.
    pose proof (zlen_nonneg (strings_bytes 0 terms)).
    rewrite (zlen_encode_array _ 4) by apply length_u32_bytes.
    rewrite zlen_running_offsets, zlen_u32. unfold string_sizes. rewrite zlen_fmap. lia.
  - unfold to_postings. rewrite zlen_app, zlen_placeholders. done.
  - split.
    + unfold to_skips. rewrite zlen_app. pose proof (zlen_nonneg (blocks_bytes tp_compress_segments cs)). lia.
    + by apply zlen_prefix_of.
Qed.

Context (s0 : list byte) (Hs0 : take (length D) s0 = D) (n root next : Z).
Abbreviation hf := (with_next_segment (completed_header tp_compress_segments h0 stats docmap terms ts n root) next).
Abbreviation s := (patched header0 hf infos s0).

Lemma zlen_s0 : zlen D <= zlen s0.
Proof. rewrite <- Hs0 at 1. unfold zlen. rewrite length_take. lia. Qed.

Lemma zlen_patched : zlen s = zlen s0.
Proof.
  pose proof positions. pose proof zlen_s0. pose proof (zlen_nonneg terms).
  unfold patched. change (entries_offset header0) with entries_at.
  rewrite !length_overwrite; rewrite ?zlen_header, ?zlen_entries_array;
    rewrite ?length_overwrite; rewrite ?zlen_entries_array; try lia.
Qed.

(** What lies outside the header and the dictionary entries is kept. *)
Lemma patched_keeps off bs :
  at_offset D off bs -> 104 <= off -> off + zlen bs <= entries_at \/ postings_at <= off ->
  at_offset s off bs.
Proof.
  intros Ha Ho Hout. pose proof positions. pose proof zlen_s0. pose proof (zlen_nonneg terms).
  unfold patched. change (entries_offset header0) with entries_at.
  apply at_offset_overwrite_other;
    [lia|rewrite zlen_header, length_overwrite; rewrite ?zlen_entries_array; lia| |rewrite zlen_header; lia].
  apply at_offset_overwrite_other;
    [lia|rewrite zlen_entries_array; lia| |rewrite zlen_entries_array; lia].
  apply (at_offset_take s0 (length D)). by rewrite Hs0.
Qed.

Lemma patched_header : at_offset s 0 (encode_header hf).
Proof.
  pose proof positions. pose proof zlen_s0. pose proof (zlen_nonneg terms).
  apply at_offset_overwrite; [lia|]. change (entries_offset header0) with entries_at.
  rewrite zlen_header, length_overwrite; rewrite ?zlen_entries_array; lia.
Qed.

Lemma patched_entries : at_offset s entries_at (encode_array encode_dict_entry (entry_of header0 <$> infos)).
Proof.
  pose proof positions. pose proof zlen_s0. pose proof (zlen_nonneg terms).
  unfold patched. change (entries_offset header0) with entries_at.
  apply at_offset_overwrite_other;
    [lia|rewrite zlen_header, length_overwrite; rewrite ?zlen_entries_array; lia| |
     rewrite zlen_header; lia].
  apply at_offset_overwrite; rewrite ?zlen_entries_array; lia.
Qed.

(** ** The dictionary *)

Lemma zlen_string_entry ti i : ti_term_len ti = zlen (ti_term ti) ->
  zlen (u32_bytes (ti_term_len ti) ++ sub_list 0 (ti_term_len ti) (ti_term ti) ++ u32_bytes i)
  = 4 + ti_term_len ti + 4.
Proof. intros ->. rewrite sub_list_0_all, !zlen_app, !zlen_u32. lia. Qed.

Lemma strings_bytes_at l : Forall (fun ti => ti_term_len ti = zlen (ti_term ti)) l ->
  (forall i, zlen (strings_bytes i l) = sum_list (string_sizes l)) /\
  forall (k : nat) ti i, l !! k = Some ti ->
    at_offset (strings_bytes i l) (sum_list (take k (string_sizes l)))
      (u32_bytes (zlen (ti_term ti)) ++ ti_term ti).
Proof.
  induction 1 as [|ti l Hti HF [IHs IHk]]; [done|]. split.
  - intros i. cbn [strings_bytes]. rewrite zlen_app, zlen_string_entry, IHs by done. done.
  - intros [|k] tk i Hk; simpl in Hk; cbn [strings_bytes].
    + injection Hk as <-. apply at_offset_app. rewrite Hti, sub_list_0_all, app_assoc.
      apply at_offset_app. apply (at_offset_end []).
    + change (sum_list (take (S k) (string_sizes (ti :: l))))
        with (4 + ti_term_len ti + 4 + sum_list (take k (string_sizes l))).
      rewrite <- (zlen_string_entry ti (i * 12) Hti).
      eapply at_offset_sub; [|by apply IHk].
      replace (strings_bytes (i + 1) l) with (strings_bytes (i + 1) l ++ []) by apply app_nil_r.
      rewrite app_assoc. apply at_offset_app, at_offset_end.
Qed.

Lemma string_sizes_nonneg l : Forall (fun ti => ti_term_len ti = zlen (ti_term ti)) l ->
  Forall (fun n => 0 <= n) (string_sizes l).
Proof.
  intros HF. apply Forall_fmap. eapply Forall_impl; [exact HF|]. intros ti E. simpl. rewrite E.
  pose proof (zlen_nonneg (ti_term ti)). lia.
Qed.

Lemma to_strings_prefix : to_strings h0 terms ++ strings_bytes 0 terms `prefix_of` D.
Proof.
  destruct parts as (Hpre & _). etrans; [|exact Hpre]. by apply prefix_app_r.
Qed.

Context (Hfreq : Forall (fun t => 0 <= td_doc_freq t < 2 ^ 32) ts).
Context (H32s : zlen s0 < 2 ^ 32).
Context (Hsorted : StronglySorted term_lt (ti_term <$> terms)).

Lemma infos_ok h l : Forall (fun t => 0 <= td_doc_freq t < 2 ^ 32) l -> forall o k,
  Forall (fun info => dict_entry_ok (entry_of h info)) (infos_from tp_compress_segments o k l).
Proof.
  induction 1 as [|t l Ht HF IH]; intros o k; constructor; [|apply IH].
  split; [|split]; [apply (wrap_range 32); lia|apply (wrap_range 16); lia|exact Ht].
Qed.

(** What precedes the dictionary entries is kept, but for the header. *)
Lemma kept_before_entries off bs :
  at_offset (to_entries h0 terms) off bs -> 104 <= off -> at_offset s off bs.
Proof.
  intros Ha Ho. pose proof Ha as (_ & Hle & _).
  apply patched_keeps; [|done|by left].
  eapply at_offset_prefix_of; [exact Ha|exact to_strings_prefix].
Qed.

Lemma string_layout (i : nat) ti : terms !! i = Some ti ->
  exists off, 0 <= off < 2 ^ 32 /\
    at_offset s (104 + 4 + Z.of_nat i * 4) (u32_bytes off) /\
    at_offset s (zlen (to_strings h0 terms) + off) (u32_bytes (zlen (ti_term ti)) ++ ti_term ti).
Proof.
  intros Hi. assert (HFlen : Forall (fun ti => ti_term_len ti = zlen (ti_term ti)) terms)
    by (eapply Forall_impl; [exact Hterms|]; by intros ? []).
  pose proof (strings_bytes_at terms HFlen) as [Hsize Hstr].
  pose proof (string_sizes_nonneg terms HFlen) as Hnn. pose proof positions as (_ & Hp & Hp2).
  specialize (Hstr i ti 0 Hi). set (off := sum_list (take i (string_sizes terms))) in *.
  pose proof Hstr as (Hoff0 & Hoff1 & _). rewrite Hsize in Hoff1.
  pose proof (zlen_nonneg (u32_bytes (zlen (ti_term ti)) ++ ti_term ti)).
  assert (Esize : zlen (to_strings h0 terms) + sum_list (string_sizes terms) = entries_at)
    by (unfold to_entries; rewrite zlen_app, Hsize; done).
  pose proof (zlen_nonneg (to_strings h0 terms)). pose proof (zlen_nonneg terms).
  exists off. split; [lia|]. split.
  - apply kept_before_entries; [|lia].
    assert (Hro : running_offsets 0 (string_sizes terms) !! i = Some off).
    { rewrite (running_offsets_lookup _ 0 i (4 + ti_term_len ti + 4)); [done| |done|lia|lia].
      unfold string_sizes. by rewrite list_lookup_fmap, Hi. }
    unfold to_entries, to_strings, dictionary_head. apply at_offset_app. rewrite app_assoc.
    eapply (at_offset_element u32_bytes 4); [exact length_u32_bytes|exact Hro|].
    rewrite <- (zlen_header h0), <- (zlen_u32 (zlen terms)), <- zlen_app.
    apply at_offset_end.
  - apply kept_before_entries.
    + unfold to_entries. eapply at_offset_sub; [apply at_offset_end|exact Hstr].
    + unfold to_strings, dictionary_head. rewrite zlen_app, zlen_header.
      pose proof (zlen_nonneg (u32_bytes (zlen terms) ++
        encode_array u32_bytes (running_offsets 0 (string_sizes terms)))). lia.
Qed.

Lemma dictionary_layout : SegmentFormat.num_terms h0 = zlen terms ->
  dictionary_at hf s (ti_term <$> terms) (entry_of header0 <$> infos).
Proof.
  intros Hnum. pose proof positions as (He & Hp & _). pose proof zlen_s0.
  pose proof positions. split.
  - by rewrite zlen_patched.
  - done.
  - change (dictionary_offset hf) with 104. rewrite zlen_fmap.
    apply patched_keeps; [|lia|rewrite zlen_u32; pose proof (zlen_nonneg terms); lia].
    eapply at_offset_prefix_of; [|exact to_strings_prefix].
    unfold to_strings, dictionary_head. apply at_offset_app. rewrite app_assoc. apply at_offset_app.
    rewrite <- (zlen_header h0). apply at_offset_end.
  - by rewrite zlen_fmap.
  - intros i t Hi. rewrite list_lookup_fmap in Hi.
    destruct (terms !! i) as [ti|] eqn:Eti; [|done]. injection Hi as <-.
    by apply string_layout.
  - intros i e Hi. split.
    + eapply (Forall_lookup_1 _ _ i); [|exact Hi]. apply Forall_fmap. by apply infos_ok.
    + change (entries_offset hf) with entries_at.
      apply (at_offset_element encode_dict_entry 12 _ _ _ i e length_encode_dict_entry Hi).
      exact patched_entries.
  - rewrite !length_fmap, length_infos. done.
  - done.
  - apply Forall_fmap. eapply Forall_impl; [exact Hterms|]. by intros ti [].
  - rewrite zlen_fmap. lia.
Qed.

(** ** The posting blocks *)

Record chunk_ok (c : list TpBlockPosting) : Prop := {
  co_size : 0 < zlen c <= 128;
  co_postings : Forall block_posting_ok c;
  co_increasing : increasing_from 0 (bp_doc_id <$> c);
}.

Lemma fits_max_of w f c : Forall (fun p => fits w (f p)) c -> fits w (max_of f c).
Proof.
  intros HF. unfold max_of.
  assert (Hg : forall m, fits w m -> fits w (foldl (fun m p => if m <? f p then f p else m) m c)).
  { induction HF as [|p c Hp HF IH]; intros m Hm; [done|]. cbn [foldl]. apply IH. by case_match. }
  apply Hg, fits_0.
Qed.

Lemma fits_low16 t : fits 2 (Z.land t 0xFF + 256 * Z.land (Z.shiftr t 8) 0xFF).
Proof.
  rewrite !land_255. pose proof (Z.mod_pos_bound t 256 ltac:(lia)).
  pose proof (Z.mod_pos_bound (Z.shiftr t 8) 256 ltac:(lia)).
  unfold fits. change (256 ^ Z.of_nat 2) with 65536. lia.
Qed.

Lemma tenant_mode_fits c :
  fits 1 (tenant_mode_of ht docmap c).1 /\ fits 2 (tenant_mode_of ht docmap c).2.
Proof.
  unfold tenant_mode_of. destruct (block_tenant_mode ht docmap c) as [[mode low]|e] eqn:E;
    [|split; apply fits_0].
  unfold block_tenant_mode in E. destruct ht; [|injection E as <- <-; split; apply fits_0].
  destruct (tenant_ids docmap); [|injection E as <- <-; split; apply fits_0].
  match type of E with (mbind _ ?m) = _ => destruct m as [tids|]; [|done] end.
  cbn [mbind res_bind] in E.
  destruct tids as [|first_tid rest]; [injection E as <- <-; split; apply fits_0|].
  repeat case_match; injection E as <- <-; split; try apply fits_0; try apply fits_low16; done.
Qed.

Lemma skip_of_ok o c : chunk_ok c -> 0 <= o < 2 ^ 32 ->
  skip_entry_ok (skip_of tp_compress_segments ht docmap o c).
Proof.
  intros [_ HF _] Ho. destruct (tenant_mode_fits c) as [Hm Hl].
  unfold skip_entry_ok, skip_of. cbn.
  split; [apply fits_max_of; eapply Forall_impl; [exact HF|]; by intros p (? & _)|].
  split; [apply (wrap_range 8); lia|].
  split; [apply fits_max_of; eapply Forall_impl; [exact HF|]; by intros p (_ & ? & _)|].
  split; [apply fits_max_of; eapply Forall_impl; [exact HF|]; by intros p (_ & _ & ?)|].
  split; [exact Ho|]. split; [by destruct tp_compress_segments|]. done.
Qed.

Lemma skips_lookup l : forall o (k : nat) c, l !! k = Some c ->
  skips_from tp_compress_segments ht docmap o l !! k =
  Some (skip_of tp_compress_segments ht docmap
          (o + zlen (blocks_bytes tp_compress_segments (take k l))) c).
Proof.
  induction l as [|c0 l IH]; intros o k c Hk; [done|]. destruct k as [|k]; simpl in Hk |- *.
  - injection Hk as <-. by rewrite Z.add_0_r.
  - rewrite (IH _ _ c) by done.
    change (blocks_bytes tp_compress_segments (c0 :: take k l))
      with (block_bytes tp_compress_segments c0 ++ blocks_bytes tp_compress_segments (take k l)).
    rewrite zlen_app. by rewrite Z.add_assoc.
Qed.

Lemma infos_lookup l : forall o k (i : nat) t, l !! i = Some t ->
  infos_from tp_compress_segments o k l !! i =
  Some (info_of (o + zlen (blocks_bytes tp_compress_segments (all_chunks (take i l))))
          (k + zlen (all_chunks (take i l))) t).
Proof.
  induction l as [|t0 l IH]; intros o k i t Hi; [done|]. destruct i as [|i]; simpl in Hi |- *.
  - injection Hi as <-. by rewrite !Z.add_0_r.
  - rewrite (IH _ _ _ t) by done. unfold all_chunks. csimpl. fold (all_chunks (take i l)).
    rewrite blocks_bytes_app, !zlen_app, zlen_td_chunks. by rewrite !Z.add_assoc.
Qed.

Lemma all_chunks_split (i : nat) t : ts !! i = Some t ->
  cs = all_chunks (take i ts) ++ td_chunks t ++ all_chunks (drop (S i) ts).
Proof.
  intros Hi. rewrite <- (take_drop_middle _ _ _ Hi) at 1. unfold all_chunks.
  by rewrite bind_app, bind_cons.
Qed.

Lemma all_chunks_lookup (i k : nat) t c : ts !! i = Some t -> td_chunks t !! k = Some c ->
  cs !! (length (all_chunks (take i ts)) + k)%nat = Some c.
Proof.
  intros Hi Hk. rewrite (all_chunks_split i t Hi).
  rewrite lookup_app_r by lia. replace (_ + k - _)%nat with k by lia.
  by apply lookup_app_l_Some.
Qed.

Context (Hchunks : Forall chunk_ok cs).
Context (Hfew : Forall (fun t => num_blocks t < 2 ^ 16) ts).
Context (Htail : tp_compress_segments = true ->
  skips_at + TP_MAX_COMPRESSED_BLOCK_SIZE <= zlen s0).

Lemma zlen_skips_from b h dm o l : zlen (skips_from b h dm o l) = zlen l.
Proof. unfold zlen. by rewrite length_skips_from. Qed.

Lemma zlen_skip_bytes l : zlen (skip_bytes l) = zlen l * 16.
Proof.
  unfold skip_bytes, if_bytes. destruct (Z.ltb_spec 0 (zlen l)) as [L|L].
  - by rewrite (zlen_encode_array _ 16) by apply length_encode_skip_entry.
  - pose proof (zlen_nonneg l). change (zlen []) with 0. lia.
Qed.

(** The skip entry of a block, at its place in the skip index. *)
Lemma skip_layout (k : nat) c : cs !! k = Some c ->
  let o := postings_at + zlen (blocks_bytes tp_compress_segments (take k cs)) in
  at_offset s (skips_at + Z.of_nat k * 16)
    (encode_skip_entry (skip_of tp_compress_segments ht docmap o c)) /\
  skips_at + zlen cs * 16 <= zlen D /\
  at_offset s o (block_bytes tp_compress_segments c) /\
  o + zlen (block_bytes tp_compress_segments c) <= skips_at /\ postings_at <= o.
Proof.
  intros Hk o. destruct parts as (_ & Hpre & Hpre').
  pose proof positions as (He & Hp & Hsk). pose proof (zlen_nonneg terms).
  pose proof (skips_lookup cs postings_at k c Hk) as Hsl. fold o in Hsl.
  assert (Ho : postings_at <= o) by (unfold o; pose proof (zlen_nonneg (blocks_bytes tp_compress_segments (take k cs))); lia).
  assert (Hb : at_offset (to_skips tp_compress_segments h0 terms ts) o
                 (block_bytes tp_compress_segments c)).
  { unfold to_skips, o. eapply at_offset_sub; [apply at_offset_end|].
    unfold blocks_bytes, encode_array. rewrite fmap_take. apply at_offset_concat.
    by rewrite list_lookup_fmap, Hk. }
  assert (Hs : at_offset (to_fieldnorms tp_compress_segments h0 stats docmap terms ts) skips_at
    (encode_array encode_skip_entry (skips_from tp_compress_segments ht docmap postings_at cs))).
  { unfold to_fieldnorms, skip_bytes. fold (skips_written tp_compress_segments stats docmap ts postings_at).
    unfold if_bytes. rewrite (proj2 (Z.ltb_lt _ _)); [apply at_offset_end|].
    unfold skips_written. pose proof (lookup_lt_Some _ _ _ Hsl). unfold zlen at 1. lia. }
  split; [|split; [|split; [|split]]]; [| | | |done].
  - apply patched_keeps; [|lia|right; lia].
    eapply at_offset_prefix_of; [|exact Hpre'].
    eapply (at_offset_element encode_skip_entry 16); [exact length_encode_skip_entry|exact Hsl|done].
  - apply zlen_prefix_of in Hpre'. unfold to_fieldnorms in Hpre'.
    rewrite zlen_app, zlen_skip_bytes in Hpre'.
    replace (zlen (skips_written _ _ _ _ _)) with (zlen cs) in Hpre'; [lia|].
    unfold skips_written. by rewrite <- (zlen_skips_from tp_compress_segments ht docmap postings_at).
  - apply patched_keeps; [|lia|right; lia]. by eapply at_offset_prefix_of.
  - apply Hb.
Qed.

Lemma at_offset_extend d off bs len : at_offset d off bs -> zlen bs <= len -> off + len <= zlen d ->
  exists rest, at_offset d off (bs ++ rest) /\ zlen bs + zlen rest = len.
Proof.
  intros (Ho & Hle & Hs) Hl Hd. pose proof (zlen_nonneg bs).
  assert (El : zlen (sub_list (off + zlen bs) (len - zlen bs) d) = len - zlen bs)
    by (apply zlen_sub_list; lia).
  exists (sub_list (off + zlen bs) (len - zlen bs) d).
  split; [|lia]. split; [done|]. rewrite zlen_app, El.
  split; [lia|]. rewrite sub_list_split by lia. by rewrite Hs.
Qed.

(** A block is where its skip entry says. *)
Lemma block_layout (k : nat) c : cs !! k = Some c ->
  let o := postings_at + zlen (blocks_bytes tp_compress_segments (take k cs)) in
  block_at s (skip_of tp_compress_segments ht docmap o c) c.
Proof.
  intros Hk o. destruct (skip_layout k c Hk) as (_ & _ & Hb & Hend & Ho). fold o in Hb, Hend, Ho.
  destruct (Forall_lookup_1 _ _ _ _ Hchunks Hk) as [Hsize HF Hinc].
  unfold block_at, skip_of. cbn [sk_doc_count sk_flags sk_posting_offset].
  rewrite wrap_small by lia. split; [done|].
  split; [intros ->; change (zlen []) with 0 in Hsize; lia|]. split; [done|].
  destruct (sumbool_of_bool tp_compress_segments) as [Ec|Ec].
  2: { replace (if tp_compress_segments then TP_BLOCK_FLAG_DELTA else _)
         with TP_BLOCK_FLAG_UNCOMPRESSED by (by rewrite Ec).
       replace (block_bytes tp_compress_segments c) with (encode_array encode_block_posting c)
         in Hb by (unfold block_bytes; by rewrite Ec). exact Hb. }
  specialize (Htail Ec).
  replace (if tp_compress_segments then TP_BLOCK_FLAG_DELTA else _)
    with TP_BLOCK_FLAG_DELTA by (by rewrite Ec).
  replace (block_bytes tp_compress_segments c) with (byte_of_Z <$> compress_block c)
    in Hb, Hend by (unfold block_bytes; by rewrite Ec).
  change (TP_BLOCK_FLAG_DELTA =? TP_BLOCK_FLAG_DELTA) with true. cbv iota.
  rewrite zlen_fmap in Hend. pose proof (zlen_nonneg (compress_block c)).
  pose proof zlen_patched as Ez. split; [done|]. rewrite Ez. split; [lia|].
  destruct (at_offset_extend s o (byte_of_Z <$> compress_block c) TP_MAX_COMPRESSED_BLOCK_SIZE)
    as (rest & Hr & El); rewrite ?Ez, ?zlen_fmap; [exact Hb| |lia|].
  - by apply compress_block_limit; [..|lia].
  - exists rest. rewrite zlen_fmap in El. done.
Qed.

(** The blocks of a term, with their skip entries. *)
Definition term_blocks (i : nat) (t : term_data) : blocks :=
  let start := length (all_chunks (take i ts)) in
  imap (fun k c =>
    (skip_of tp_compress_segments ht docmap
       (postings_at + zlen (blocks_bytes tp_compress_segments (take (start + k) cs))) c, c))
    (td_chunks t).

Lemma term_blocks_postings i t : (term_blocks i t).*2 = td_chunks t.
Proof.
  unfold term_blocks. rewrite fmap_imap. rewrite <- (list_fmap_id (td_chunks t)) at 2.
  rewrite <- imap_const. by apply imap_ext.
Qed.

Lemma term_blocks_lookup i t (k : nat) sk ps : term_blocks i t !! k = Some (sk, ps) ->
  td_chunks t !! k = Some ps /\
  sk = skip_of tp_compress_segments ht docmap
         (postings_at + zlen (blocks_bytes tp_compress_segments
            (take (length (all_chunks (take i ts)) + k) cs))) ps.
Proof.
  unfold term_blocks. rewrite list_lookup_imap. destruct (td_chunks t !! k) as [c|]; [|done].
  intros E. by injection E as <- <-.
Qed.

(** What the dictionary entry of a term leads to. *)
Lemma term_layout (i : nat) t : ts !! i = Some t ->
  exists info, infos !! i = Some info /\
    blocks_at s (entry_of header0 info) (term_blocks i t).
Proof.
  intros Hi. pose proof (infos_lookup ts postings_at 0 i t Hi) as Hinfo. rewrite Z.add_0_l in Hinfo.
  eexists. split; [exact Hinfo|]. pose proof positions as (He & Hp & Hsk).
  pose proof (zlen_nonneg terms). pose proof zlen_s0. split.
  - by rewrite zlen_patched.
  - unfold entry_of, info_of. cbn [de_block_count tb_block_count].
    pose proof (Forall_lookup_1 _ _ _ _ Hfew Hi) as Hf. simpl in Hf.
    rewrite wrap_small by (pose proof (num_blocks_nonneg t); lia).
    rewrite <- zlen_td_chunks, <- (term_blocks_postings i t). apply zlen_fmap.
  - intros k sk ps Hk. apply term_blocks_lookup in Hk as [Hk ->].
    pose proof (all_chunks_lookup i k t ps Hi Hk) as Hall.
    destruct (skip_layout _ ps Hall) as (Hs & Hsize & _ & Hend & Ho).
    split; [|split; [|by apply block_layout]].
    + apply skip_of_ok; [by eapply (Forall_lookup_1 _ cs)|].
      pose proof (zlen_nonneg (block_bytes tp_compress_segments ps)). lia.
    + unfold entry_of, info_of. cbn [de_skip_index_offset tb_skip_entry_start].
      change (skip_index_offset header0) with skips_at.
      assert (zlen (all_chunks (take i ts)) <= zlen cs).
      { rewrite (all_chunks_split i t Hi), zlen_app.
        pose proof (zlen_nonneg (td_chunks t ++ all_chunks (drop (S i) ts))). lia. }
      pose proof (zlen_nonneg (all_chunks (take i ts))).
      rewrite wrap_small by lia.
      replace (skips_at + zlen (all_chunks (take i ts)) * 16 + Z.of_nat k * 16)
        with (skips_at + Z.of_nat (length (all_chunks (take i ts)) + k) * 16)
        by (rewrite Nat2Z.inj_add;
            change (Z.of_nat (length (all_chunks (take i ts)))) with (zlen (all_chunks (take i ts))); lia).
      exact Hs.
Qed.

(** ** The document arrays *)

Lemma section_kept (before bs : list byte) :
  before ++ bs `prefix_of` D -> postings_at <= zlen before -> at_offset s (zlen before) bs.
Proof.
  intros Hpre Hp. pose proof positions. pose proof (zlen_nonneg terms).
  apply patched_keeps; [|lia|by right]. eapply at_offset_prefix_of; [|exact Hpre]. apply at_offset_end.
Qed.

Lemma arrays_layout :
  (0 < zlen (to_ctid_pages tp_compress_segments h0 stats docmap terms ts) < 2 ^ 32 /\
   0 < zlen (to_ctid_offsets tp_compress_segments h0 stats docmap terms ts) < 2 ^ 32 /\
   0 < zlen (to_tenant_map tp_compress_segments h0 stats docmap terms ts) < 2 ^ 32) /\
  at_offset s (zlen (to_ctid_pages tp_compress_segments h0 stats docmap terms ts))
    (ctid_pages_bytes docmap) /\
  at_offset s (zlen (to_ctid_offsets tp_compress_segments h0 stats docmap terms ts))
    (ctid_offsets_bytes docmap) /\
  at_offset s (zlen (to_tenant_map tp_compress_segments h0 stats docmap terms ts))
    (tenant_map_bytes ht docmap).
Proof.
  pose proof positions as (He & Hp & Hs). pose proof (zlen_nonneg terms).
  set (a1 := to_ctid_pages tp_compress_segments h0 stats docmap terms ts).
  set (a2 := to_ctid_offsets tp_compress_segments h0 stats docmap terms ts).
  set (a3 := to_tenant_map tp_compress_segments h0 stats docmap terms ts).
  assert (Hp3 : a3 ++ tenant_map_bytes ht docmap `prefix_of` D) by (do 3 apply prefix_app_r; done).
  assert (Hp2 : a2 ++ ctid_offsets_bytes docmap `prefix_of` D)
    by (etrans; [|exact Hp3]; by apply prefix_app_r).
  assert (Hp1 : a1 ++ ctid_pages_bytes docmap `prefix_of` D)
    by (etrans; [|exact Hp2]; by apply prefix_app_r).
  assert (Hl1 : skips_at <= zlen a1).
  { unfold a1, to_ctid_pages, to_fieldnorms. rewrite !zlen_app.
    pose proof (zlen_nonneg (skip_bytes (skips_written tp_compress_segments stats docmap ts postings_at))).
    pose proof (zlen_nonneg (fieldnorm_bytes docmap)). lia. }
  assert (Hl2 : zlen a1 <= zlen a2) by (apply zlen_prefix_of, prefix_app_r; done).
  assert (Hl3 : zlen a2 <= zlen a3) by (apply zlen_prefix_of, prefix_app_r; done).
  assert (Hl4 : zlen a3 <= zlen D) by (apply zlen_prefix_of; etrans; [|exact Hp3]; by apply prefix_app_r).
  split; [lia|]. split; [|split]; apply section_kept; (done || lia).
Qed.
End Layout.
