(* ===== verification/SegmentOpen.v ===== *)
(** * Opening a segment (src/segment/segment.c, tp_segment_open_ex)

    On the pages of a segment whose stream holds a valid header and the CTID
    arrays, opening succeeds: the page map is loaded and the arrays cached. *)
From S2P Require Import Prelude Postgres SegmentFormat Storage SegmentIO ScanFacts.
From S2P Require Import SegmentWriteFacts SegmentLayout.

Section Open.
Context `{PgLayoutLaws} `{FreeSpaceMapLaws}.
Abbreviation P := SEGMENT_DATA_PER_PAGE.

(** Reading a known part of the stream. *)
Lemma segment_read_at st pages r off bs :
  storage_wf st -> reader_ok st pages r -> at_offset (stream st pages) off bs ->
  zlen (stream st pages) < 2 ^ 32 ->
  exists r', tp_segment_read st r off (zlen bs) = Ok (bs, r') /\ reader_ok st pages r' /\
    same_segment r r'.
Proof.
  intros Hwf Hok (Ho & Hle & Hs) H32. pose proof (zlen_nonneg bs).
  pose proof (length_stream st pages Hwf (blocks_in_relation _ _ _ Hok)) as El.
  destruct (tp_segment_read_ok st pages r off (zlen bs) Hwf Hok) as (r' & E & Hok'); try lia.
  rewrite Hs in E. exists r'. split; [done|]. split; [done|]. by eapply tp_segment_read_frame.
Qed.

Lemma decode_array_encode {A B} (enc : A -> list byte) (dec : list byte -> B) w l :
  (forall a, length (enc a) = w) ->
  decode_array w dec (length l) (encode_array enc l) = (fun a => dec (enc a)) <$> l.
Proof.
  intros Hw. unfold encode_array. induction l as [|a l IH]; csimpl; [done|].
  rewrite take_app_length', drop_app_length' by (by rewrite Hw). by rewrite IH.
Qed.

(** What the header of a segment leads to. *)
Record openable (h : TpSegmentHeader) (s : list byte) (ps os : list Z) : Prop := {
  op_ok : header_ok h;
  op_header : at_offset s 0 (encode_header h);
  op_magic : magic h = TP_SEGMENT_MAGIC;
  op_docs : 0 < num_docs h < 2 ^ 30;
  op_counts : zlen ps = num_docs h /\ zlen os = num_docs h;
  op_pages_pos : 0 < ctid_pages_offset h;
  op_pages : at_offset s (ctid_pages_offset h) (encode_array u32_bytes ps);
  op_offsets : at_offset s (ctid_offsets_offset h) (encode_array u16_bytes os);
  op_tenants : tenant_map_offset h = 0 \/ exists ids,
    zlen ids = num_docs h /\ at_offset s (tenant_map_offset h) (encode_array u32_bytes ids);
}.

(** The tenants are cached too, when there is a map. *)
Lemma load_tenant_ids_ok st pages r h s ps os :
  storage_wf st -> reader_ok st pages r -> stream st pages = s -> zlen s < 2 ^ 32 ->
  r_header r = h -> openable h s ps os ->
  exists r', tp_segment_load_tenant_ids st r = Ok r' /\ reader_ok st pages r' /\
    r_header r' = h /\ r_cached_ctids r' = r_cached_ctids r.
Proof.
  intros Hwf Hok Hs H32 Hh Hop. unfold tp_segment_load_tenant_ids.
  destruct (r_tenant_ids_loaded r); [by exists r|]. cbv zeta. rewrite Hh.
  destruct ((num_docs h =? 0) || (tenant_map_offset h =? 0)
            || (Z.land (flags h) TP_FLAG_HAS_TENANT_DATA =? 0)) eqn:Eb.
  { eexists. split; [done|]. split; [|done]. by destruct Hok. }
  apply orb_false_iff in Eb as [Eb _]. apply orb_false_iff in Eb as [_ Eb].
  apply Z.eqb_neq in Eb.
  destruct (op_tenants _ _ _ _ Hop) as [|(ids & Eids & Ha)]; [done|].
  assert (E4 : zlen (encode_array u32_bytes ids) = u32 (num_docs h * 4)).
  { rewrite (zlen_encode_array _ 4) by apply length_u32_bytes. rewrite Eids.
    pose proof (op_docs _ _ _ _ Hop). by rewrite wrap_small by lia. }
  rewrite <- E4. set (r0 := mkSegmentReader _ _ _ _ _ _ _ _ _ _).
  destruct (segment_read_at st pages r0 (tenant_map_offset h) (encode_array u32_bytes ids) Hwf)
    as (r' & -> & Hok' & (E1 & E2 & _)); [by destruct Hok|by rewrite Hs|by rewrite Hs|].
  cbn [mbind res_bind]. eexists. split; [done|]. split; [by destruct Hok'|].
  cbn. by rewrite E1, E2.
Qed.

(** The header page of a segment. *)
Lemma header_page_ok st root bs pages s h ps os block :
  segment_pages st root bs pages s -> 104 <= P -> zget pages 0 = Some block -> openable h s ps os ->
  in_relation st block /\ exists page, ReadBuffer st block = Ok page /\ decode_header (contents page) = h.
Proof.
  intros Hs HP Hblock Hop. pose proof (sp_wf _ _ _ _ _ Hs) as Hwf.
  pose proof (sp_in _ _ _ _ _ Hs) as Hin. pose proof (sp_stream _ _ _ _ _ Hs) as Hst.
  assert (Hb : in_relation st block).
  { rewrite zget_lookup in Hblock by lia. by apply (Forall_lookup_1 _ _ _ _ Hin Hblock). }
  split; [done|]. destruct (ReadBuffer_ok st block Hb) as (page & -> & Hpage).
  exists page. split; [done|].
  pose proof (stream_page_slice st pages 0 block 0 104 Hwf Hin Hblock) as Hsl.
  rewrite Z.add_0_r, Z.mul_0_l in Hsl. specialize (Hsl ltac:(lia) ltac:(lia) ltac:(lia)).
  destruct (op_header _ _ _ _ Hop) as (_ & _ & Hh). rewrite zlen_header, <- Hst, Hsl in Hh.
  unfold page_data, page_at in Hh. rewrite Hpage in Hh. unfold sub_list in Hh.
  rewrite drop_0 in Hh. rewrite <- (take_drop (Z.to_nat 104) (contents page)), Hh.
  apply decode_encode_header, (op_ok _ _ _ _ Hop).
Qed.

(** Opening without the CTIDs. *)
Lemma tp_segment_open_plain_ok st root bs pages s h ps os block :
  segment_pages st root bs pages s -> 104 <= P -> zget pages 0 = Some block -> openable h s ps os ->
  num_pages h = zlen pages -> page_index h = root ->
  tp_segment_open_ex st block false = Ok (Some (fresh_reader st block h pages)).
Proof.
  intros Hs HP Hblock Hop Hnum Hroot.
  destruct (header_page_ok st root bs pages s h ps os block Hs HP Hblock Hop) as (Hb & page & Ep & Hdec).
  unfold tp_segment_open_ex. rewrite (proj2 (Z.leb_gt _ _)) by (unfold in_relation in Hb; lia).
  rewrite Ep. cbn [mbind res_bind]. rewrite Hdec, (op_magic _ _ _ _ Hop), Hnum, Hroot.
  change (negb (TP_SEGMENT_MAGIC =? TP_SEGMENT_MAGIC)) with false. cbv iota.
  rewrite (page_index_load st root bs pages (sp_index _ _ _ _ _ Hs) (sp_in _ _ _ _ _ Hs)).
  cbn [mbind res_bind andb]. by rewrite Z.eqb_refl.
Qed.

Lemma tp_segment_open_ok st root bs pages s h ps os block :
  segment_pages st root bs pages s -> zlen s < 2 ^ 32 -> 104 <= P ->
  zget pages 0 = Some block -> openable h s ps os ->
  num_pages h = zlen pages -> page_index h = root ->
  exists r, tp_segment_open_ex st block true = Ok (Some r) /\ reader_ok st pages r /\
    r_header r = h /\
    r_cached_ctids r = Some ((fun p => le_value (u32_bytes p)) <$> ps,
                             (fun o => le_value (u16_bytes o)) <$> os).
Proof.
  intros Hs H32 HP Hblock Hop Hnum Hroot. pose proof (sp_wf _ _ _ _ _ Hs) as Hwf.
  pose proof (sp_in _ _ _ _ _ Hs) as Hin. pose proof (sp_stream _ _ _ _ _ Hs) as Hst.
  pose proof (op_docs _ _ _ _ Hop) as Hd. destruct (op_counts _ _ _ _ Hop) as [Ep Eo].
  destruct (header_page_ok st root bs pages s h ps os block Hs HP Hblock Hop) as (Hb & page & Epage & Hdec).
  unfold tp_segment_open_ex. rewrite (proj2 (Z.leb_gt _ _)) by (unfold in_relation in Hb; lia).
  rewrite Epage. cbn [mbind res_bind].
  rewrite Hdec, (op_magic _ _ _ _ Hop), Hnum, Hroot.
  change (negb (TP_SEGMENT_MAGIC =? TP_SEGMENT_MAGIC)) with false. cbv iota.
  rewrite (page_index_load st root bs pages (sp_index _ _ _ _ _ Hs) Hin). cbn [mbind res_bind].
  rewrite Z.eqb_refl. cbn [negb andb].
  rewrite (proj2 (Z.ltb_lt 0 (num_docs h))), (proj2 (Z.ltb_lt 0 (ctid_pages_offset h)))
    by (apply (op_pages_pos _ _ _ _ Hop) || lia). cbn [andb].
  assert (E4 : u32 (num_docs h * 4) = zlen (encode_array u32_bytes ps)).
  { rewrite (zlen_encode_array _ 4) by apply length_u32_bytes. by rewrite Ep, wrap_small by lia. }
  assert (E2 : u32 (num_docs h * 2) = zlen (encode_array u16_bytes os)).
  { rewrite (zlen_encode_array _ 2) by apply length_u16_bytes. by rewrite Eo, wrap_small by lia. }
  rewrite E4, E2.
  destruct (segment_read_at st pages (fresh_reader st block h pages) (ctid_pages_offset h)
    (encode_array u32_bytes ps) Hwf) as (r1 & Er1 & Hok1 & (Eh1 & _));
    [by apply fresh_reader_ok|rewrite Hst; apply (op_pages _ _ _ _ Hop)|by rewrite Hst|].
  unfold fresh_reader in Er1. rewrite Er1. cbn [mbind res_bind].
  destruct (segment_read_at st pages r1 (ctid_offsets_offset h) (encode_array u16_bytes os) Hwf Hok1)
    as (r2 & -> & Hok2 & _); [rewrite Hst; apply (op_offsets _ _ _ _ Hop)|by rewrite Hst|].
  cbn [mbind res_bind]. set (r3 := mkSegmentReader _ _ _ _ _ _ _ _ _ _).
  assert (Hok3 : reader_ok st pages r3).
  { split; [done|done| |].
    - eapply Forall_impl; [exact Hin|]. intros x Hx. split; [done|apply Hx].
    - apply (ro_cache _ _ _ Hok2). }
  destruct (load_tenant_ids_ok st pages r3 h s ps os Hwf Hok3 Hst H32 eq_refl Hop)
    as (r' & -> & Hok' & Hh' & Hc'). cbn [mbind res_bind].
  exists r'. split; [done|]. split; [done|]. split; [done|]. rewrite Hc'. cbn [r3 r_cached_ctids].
  replace (Z.to_nat (num_docs h)) with (length ps) by (unfold zlen in Ep; lia).
  rewrite (decode_array_encode u32_bytes) by apply length_u32_bytes.
  replace (length ps) with (length os) by (unfold zlen in *; lia).
  by rewrite (decode_array_encode u16_bytes) by apply length_u16_bytes.
Qed.
End Open.
