(* ===== verification/SegmentContent.v ===== *)
(** * What a segment holds

    [segment_content] is what a segment means: its documents by number, its terms
    with their postings, the statistics of its tenants.  [stream_holds] relates it
    to a header and a byte stream, [segment_at] to the pages of the relation.  The
    segments written from a memtable and those written by a merge both arise from a
    plan: first header, documents, terms with their data; [plan_segment] is the one
    theorem that a finished plan is such a segment. *)
From S2P Require Import Prelude Postgres Fieldnorm SegmentFormat Compression Storage SegmentIO.
From S2P Require Import Docmap SegmentScan ScanFacts Memtable SegmentWrite SegmentWriteFacts.
From S2P Require Import SegmentEmit SegmentLayout SegmentOpen.

(** ** Contents *)

Record segment_doc := mkSegmentDoc {
  sd_ctid : ItemPointerData;
  sd_fieldnorm : Z;
  sd_tenant : Z;
}.

Record segment_content := mkContent {
  sc_docs : list segment_doc;
  sc_terms : list (list byte * list TpBlockPosting);
  sc_stats : option (list TpTenantStats);
}.

Abbreviation by_doc_id := (fun p q : TpBlockPosting => bp_doc_id p < bp_doc_id q).

(** The postings of a term among [n] documents. *)
Record postings_ok (n : Z) (ps : list TpBlockPosting) : Prop := {
  po_sorted : StronglySorted by_doc_id ps;
  po_fields : Forall (fun p => block_posting_ok p /\ 0 <= bp_doc_id p < n) ps;
}.

Lemma fmap_zip_with_left {A B C D} (f : A -> B -> C) (g : C -> D) (g' : A -> D) (l : list A) (k : list B) :
  (forall x y, g (f x y) = g' x) -> (length l <= length k)%nat -> g <$> zip_with f l k = g' <$> l.
Proof.
  intros Hg. revert k. induction l as [|x l IH]; intros [|y k] Hle; simpl in *; try done; [lia|].
  csimpl. by rewrite Hg, IH by lia.
Qed.

Lemma fmap_zip_with_right {A B C D} (f : A -> B -> C) (g : C -> D) (g' : B -> D) (l : list A) (k : list B) :
  (forall x y, g (f x y) = g' y) -> (length k <= length l)%nat -> g <$> zip_with f l k = g' <$> k.
Proof.
  intros Hg. revert k. induction l as [|x l IH]; intros [|y k] Hle; simpl in *; try done; [lia|].
  csimpl. by rewrite Hg, IH by lia.
Qed.

(** ** Postings in blocks *)

(** A property of lists that parts inherit holds of the chunks. *)
Lemma Forall_chunks (Q : list TpBlockPosting -> Prop) n : forall ps,
  (forall l1 l2, Q (l1 ++ l2) -> Q l1 /\ Q l2) -> Q ps -> Forall Q (chunks n ps).
Proof.
  induction n as [|n IH]; intros ps Hq Hps; cbn [chunks]; constructor.
  - apply (Hq (take 128 ps) (drop 128 ps)). by rewrite take_drop.
  - apply IH; [done|]. apply (Hq (take 128 ps) (drop 128 ps)). by rewrite take_drop.
Qed.

Lemma StronglySorted_app_inv {A} (R : A -> A -> Prop) l1 l2 :
  StronglySorted R (l1 ++ l2) -> StronglySorted R l1 /\ StronglySorted R l2.
Proof.
  induction l1 as [|x l1 IH]; [split; [constructor|done]|].
  intros Hs. inversion_clear Hs as [|? ? Hs' HF]. destruct (IH Hs') as [H1 H2].
  split; [|done]. constructor; [done|]. by apply Forall_app in HF as [HF _].
Qed.

Lemma sorted_increasing (ps : list TpBlockPosting) m :
  StronglySorted by_doc_id ps -> Forall (fun p => m <= bp_doc_id p) ps ->
  increasing_from m (bp_doc_id <$> ps).
Proof.
  intros Hs. revert m. induction Hs as [|p ps Hs IH HF]; intros m Hm; csimpl; [done|].
  apply Forall_cons in Hm as [Hp _]. split; [done|]. apply IH.
  eapply Forall_impl; [exact HF|]. simpl. lia.
Qed.

Lemma postings_ok_app n l1 l2 : postings_ok n (l1 ++ l2) -> postings_ok n l1 /\ postings_ok n l2.
Proof. intros [[? ?]%StronglySorted_app_inv [? ?]%Forall_app]. done. Qed.

Lemma postings_chunks n t : postings_ok n (td_postings t) ->
  concat (td_chunks t) = td_postings t /\ Forall chunk_ok (td_chunks t) /\
  Forall (Forall (fun p => 0 <= bp_doc_id p < n)) (td_chunks t).
Proof.
  intros Hok. set (ps := td_postings t) in *. pose proof (zlen_nonneg ps).
  set (k := num_blocks t).
  assert (En : k = (zlen ps + 127) / 128).
  { unfold k, num_blocks, TP_BLOCK_SIZE. f_equal. fold ps. lia. }
  pose proof (Z.div_mod (zlen ps + 127) 128 ltac:(lia)).
  pose proof (Z.mod_pos_bound (zlen ps + 127) 128 ltac:(lia)).
  unfold td_chunks. fold k ps. unfold zlen in En.
  split; [apply chunks_concat; unfold zlen in *; lia|].
  destruct (decide (k = 0)) as [E0|N0]; [rewrite E0; split; constructor|].
  pose proof (chunks_sizes (Z.to_nat k) ps) as Hsz. specialize (Hsz ltac:(unfold zlen in *; lia)).
  pose proof (Forall_chunks (postings_ok n) (Z.to_nat k) ps (postings_ok_app n) Hok) as HQ.
  rewrite Forall_forall in Hsz, HQ. split; apply Forall_forall; intros c Hc; destruct (HQ c Hc) as [Hs HF].
  - split; [by apply Hsz| |].
    + eapply Forall_impl; [exact HF|]. by intros p [? _].
    + apply sorted_increasing; [done|]. eapply Forall_impl; [exact HF|]. simpl. lia.
  - eapply Forall_impl; [exact HF|]. by intros p [_ ?].
Qed.

(** ** Streams and segments *)

Definition has_stats (c : segment_content) : bool :=
  match sc_stats c with Some _ => true | None => false end.

(** The document arrays of a stream. *)
Record docs_at (h : TpSegmentHeader) (s : list byte) (docs : list segment_doc) : Prop := {
  dat_openable : openable h s ((fun d => ip_blkid (sd_ctid d)) <$> docs)
                   ((fun d => ip_posid (sd_ctid d)) <$> docs);
  dat_fieldnorms : at_offset s (fieldnorm_offset h) (byte_of_Z ∘ sd_fieldnorm <$> docs);
  dat_tenants : (Forall (fun d => sd_tenant d = 0) docs /\ tenant_map_offset h = 0) \/
    (tenant_map_offset h <> 0 /\ Z.land (flags h) TP_FLAG_HAS_TENANT_DATA <> 0 /\
     at_offset s (tenant_map_offset h) (encode_array u32_bytes (sd_tenant <$> docs)));
  dat_ranges : Forall (fun d => (0 <= ip_blkid (sd_ctid d) < 2 ^ 32 /\ 0 <= ip_posid (sd_ctid d) < 2 ^ 16) /\
    0 <= sd_fieldnorm d < 256 /\ 0 <= sd_tenant d < 2 ^ 32) docs;
}.

(** The statistics section: a count and the entries. *)
Definition stats_at (h : TpSegmentHeader) (s : list byte) (stats : option (list TpTenantStats)) : Prop :=
  match stats with
  | None => Z.land (flags h) TP_FLAG_HAS_TENANT_DATA = 0
  | Some l => Z.land (flags h) TP_FLAG_HAS_TENANT_DATA <> 0 /\ tenant_stats_offset h <> 0 /\
      zlen l < 2 ^ 28 /\
      at_offset s (tenant_stats_offset h) (u32_bytes (zlen l) ++ encode_array encode_tenant_stats l)
  end.

Record terms_at (h : TpSegmentHeader) (s : list byte) (n : Z)
    (terms : list (list byte * list TpBlockPosting)) : Prop := {
  tat_dictionary : exists entries, dictionary_at h s terms.*1 entries /\
    forall (i : nat) t ps, terms !! i = Some (t, ps) -> exists de bls,
      entries !! i = Some de /\ blocks_at s de bls /\ all_postings bls = ps;
  tat_postings : Forall (fun tp => postings_ok n tp.2 /\ tp.2 <> []) terms;
}.

Record stream_holds (h : TpSegmentHeader) (s : list byte) (c : segment_content) : Prop := {
  sh_docs : docs_at h s (sc_docs c);
  sh_terms : terms_at h s (zlen (sc_docs c)) (sc_terms c);
  sh_stats : stats_at h s (sc_stats c);
  sh_size : zlen s < 2 ^ 32;
}.

(** The segment whose header is on page [block]. *)
Record segment_at `{PgLayout} (st : Storage) (block : Z) (pages bs : list Z) (h : TpSegmentHeader)
    (c : segment_content) : Prop := {
  sa_pages : segment_pages st (page_index h) bs pages (stream st pages);
  sa_block : zget pages 0 = Some block;
  sa_count : num_pages h = zlen pages;
  sa_holds : stream_holds h (stream st pages) c;
}.

(** The documents of a finalised document map. *)
Definition docmap_docs (ht : bool) (dm : TpDocMapBuilder) : list segment_doc :=
  let tids := default (replicate (Z.to_nat (num_docs dm)) 0) (tenant_map ht dm) in
  zip_with (fun po ft => mkSegmentDoc (mkItemPointer po.1 po.2) ft.1 ft.2)
    (zip (ctid_pages dm) (ctid_offsets dm)) (zip (fieldnorms dm) tids).

(** ** Headers *)

Lemma fits_u32 x : 0 <= x < 2 ^ 32 -> fits 4 x.
Proof. done. Qed.

Lemma fits_wrap32 x : fits 4 (u32 x).
Proof. apply (wrap_range 32). lia. Qed.

Lemma fits_wrap64 x : fits 8 (u64 x).
Proof. apply (wrap_range 64). lia. Qed.

Ltac fits_fields :=
  repeat (apply Forall2_cons; split;
    [first [apply fits_0 | apply fits_wrap32 | apply fits_wrap64 | apply fits_u32; assumption
           | assumption | split; [done|reflexivity] | idtac]|]).

Ltac unfold_header :=
  cbv beta iota delta [with_next_segment completed_header sections_header header_fields magic version created_at num_pages data_size
    level next_segment dictionary_offset strings_offset entries_offset postings_offset
    skip_index_offset fieldnorm_offset ctid_pages_offset ctid_offsets_offset SegmentFormat.num_terms
    SegmentFormat.num_docs total_tokens page_index tenant_map_offset tenant_stats_offset
    tenant_docfreq_offset tenant_ranges_offset flags] in *.

(** The header a segment is started with. *)
Record start_header (h0 : TpSegmentHeader) (num_terms : Z) : Prop := {
  st_ok : header_ok h0;
  st_magic : magic h0 = TP_SEGMENT_MAGIC;
  st_terms : SegmentFormat.num_terms h0 = num_terms;
}.

Section Plan.
Context `{PgLayoutLaws} `{QSortLaws}.
Context (b : bool) (h0 : TpSegmentHeader) (stats : option (list TpTenantStats))
  (dm : TpDocMapBuilder) (terms : list TermInfo) (ts : list term_data).
Abbreviation ht := (has_tenants_table stats).
Abbreviation D := (segment_bytes b h0 stats dm terms ts).
Abbreviation header0 := (sections_header b h0 stats dm terms ts).
Abbreviation infos := (infos_from b (zlen (to_postings h0 terms)) 0 ts).

(** Every section starts within the data. *)
Lemma sections_bounded : zlen D < 2 ^ 32 ->
  Forall (fun a => fits 4 (zlen a))
    [to_strings h0 terms; to_entries h0 terms; to_postings h0 terms; to_skips b h0 terms ts;
     to_fieldnorms b h0 stats dm terms ts; to_ctid_pages b h0 stats dm terms ts;
     to_ctid_offsets b h0 stats dm terms ts; to_tenant_map b h0 stats dm terms ts;
     to_tenant_stats b h0 stats dm terms ts; to_tenant_dfs b h0 stats dm terms ts;
     to_ranges b h0 stats dm terms ts; D].
Proof.
  intros H32.
  assert (Hall : forall a, a `prefix_of` D -> fits 4 (zlen a)).
  { intros a Ha%zlen_prefix_of. pose proof (zlen_nonneg a). apply fits_u32. lia. }
  assert (Hstep : forall a r, a ++ r `prefix_of` D -> a `prefix_of` D)
    by (intros a r Hp; etrans; [|exact Hp]; by apply prefix_app_r).
  assert (P0 : D `prefix_of` D) by done.
  pose proof (Hstep _ _ P0) as P1. pose proof (Hstep _ _ P1) as P2. pose proof (Hstep _ _ P2) as P3.
  pose proof (Hstep _ _ P3) as P4. pose proof (Hstep _ _ P4) as P5. pose proof (Hstep _ _ P5) as P6.
  pose proof (Hstep _ _ P6) as P7. pose proof (Hstep _ _ P7) as P8. pose proof (Hstep _ _ P8) as P9.
  pose proof (Hstep _ _ P9) as P10. pose proof (Hstep _ _ P10) as P11.
  repeat (apply Forall_cons; split; [by apply Hall|]). by apply Forall_nil.
Qed.

Lemma completed_header_ok n root next : header_ok h0 -> zlen D < 2 ^ 32 -> fits 4 n -> fits 4 root ->
  fits 4 next -> fits 4 (num_docs dm) ->
  header_ok (with_next_segment (completed_header b h0 stats dm terms ts n root) next).
Proof.
  intros Hok H32 Hn Hroot Hnext Hdocs. pose proof (sections_bounded H32) as HF.
  repeat (apply Forall_cons in HF as [? HF]).
  assert (Hopt : forall (c : bool) z, fits 4 z -> fits 4 (if c then z else 0))
    by (intros [|] z Hz; [done|apply fits_0]).
  assert (Hmap : fits 4 (match tenant_map ht dm with
    | Some _ => zlen (to_tenant_map b h0 stats dm terms ts) | None => 0 end))
    by (destruct (tenant_map _ _); [done|apply fits_0]).
  assert (Hflags : fits 4 (segment_flags stats dm))
    by (unfold segment_flags; destruct (has_tenants_table stats), (has_ranges dm); split; done).
  unfold header_ok in *. unfold TpSegmentHeader_layout in *. destruct h0 as [f0 f1 f2 f3 f4 f5 f6 f7 f8 f9 f10 f11 f12 f13 f14 f15 f16 f17 f18 f19 f20 f21 f22 f23].
  unfold_header.
  repeat match goal with Hx : Forall2 _ (_ :: _) (_ :: _) |- _ =>
    apply Forall2_cons in Hx as [? Hx] end.
  fits_fields; try (apply Hopt; assumption). constructor.
Qed.

(** The plan of a segment: what its parts must satisfy. *)
Record plan_ok : Prop := {
  pl_start : start_header h0 (zlen terms);
  pl_terms : Forall (fun ti => ti_term_len ti = zlen (ti_term ti) /\ x00 ∉ ti_term ti) terms;
  pl_sorted : StronglySorted term_lt (ti_term <$> terms);
  pl_count : length ts = length terms;
  pl_data : Forall (fun t => postings_ok (num_docs dm) (td_postings t) /\ td_postings t <> [] /\
              0 <= td_doc_freq t < 2 ^ 32 /\ num_blocks t < 2 ^ 16) ts;
  pl_docs : 0 < num_docs dm < 2 ^ 30;
  pl_arrays : zlen (ctid_pages dm) = num_docs dm /\ zlen (ctid_offsets dm) = num_docs dm /\
              zlen (fieldnorms dm) = num_docs dm /\
              (forall ids, tenant_ids dm = Some ids -> zlen ids = num_docs dm);
  pl_ranges : Forall (fun d => (0 <= ip_blkid (sd_ctid d) < 2 ^ 32 /\ 0 <= ip_posid (sd_ctid d) < 2 ^ 16) /\
    0 <= sd_fieldnorm d < 256 /\ 0 <= sd_tenant d < 2 ^ 32) (docmap_docs ht dm);
}.

Definition plan_content : segment_content :=
  mkContent (docmap_docs ht dm) (zip (ti_term <$> terms) (td_postings <$> ts))
    (qsort compare_tenant_stats <$> stats).

(** The ranges of the documents are those of the arrays. *)
Lemma docmap_docs_ranges :
  Forall (fun p => 0 <= p < 2 ^ 32) (ctid_pages dm) -> Forall (fun o => 0 <= o < 2 ^ 16) (ctid_offsets dm) ->
  Forall (fun f => 0 <= f < 256) (fieldnorms dm) ->
  (forall ids, tenant_ids dm = Some ids -> Forall (fun t => 0 <= t < 2 ^ 32) ids) ->
  Forall (fun d => (0 <= ip_blkid (sd_ctid d) < 2 ^ 32 /\ 0 <= ip_posid (sd_ctid d) < 2 ^ 16) /\
    0 <= sd_fieldnorm d < 256 /\ 0 <= sd_tenant d < 2 ^ 32) (docmap_docs ht dm).
Proof.
  intros F1 F2 F3 F4. apply Forall_lookup_2. intros i d Hi.
  apply lookup_zip_with_Some in Hi as ([p o] & [f t] & -> & Hpo & Hft).
  apply lookup_zip_with_Some in Hpo as (p' & o' & [= <- <-] & Hp & Ho).
  apply lookup_zip_with_Some in Hft as (f' & t' & [= <- <-] & Hf & Ht). cbn.
  split; [split; [by apply (Forall_lookup_1 _ _ _ _ F1 Hp)|by apply (Forall_lookup_1 _ _ _ _ F2 Ho)]|].
  split; [by apply (Forall_lookup_1 _ _ _ _ F3 Hf)|].
  assert (Hz : Forall (fun t => 0 <= t < 2 ^ 32) (replicate (Z.to_nat (num_docs dm)) 0))
    by (apply Forall_replicate; lia).
  unfold tenant_map in Ht. destruct (tenant_ids dm) as [ids|]; [|by apply (Forall_lookup_1 _ _ _ _ Hz Ht)].
  destruct (_ && _); [|by apply (Forall_lookup_1 _ _ _ _ Hz Ht)].
  by apply (Forall_lookup_1 _ _ _ _ (F4 ids eq_refl) Ht).
Qed.

Context (Hplan : plan_ok).

Lemma docmap_docs_arrays :
  zlen (docmap_docs ht dm) = num_docs dm /\
  (fun d => ip_blkid (sd_ctid d)) <$> docmap_docs ht dm = ctid_pages dm /\
  (fun d => ip_posid (sd_ctid d)) <$> docmap_docs ht dm = ctid_offsets dm /\
  sd_fieldnorm <$> docmap_docs ht dm = fieldnorms dm /\
  sd_tenant <$> docmap_docs ht dm = default (replicate (Z.to_nat (num_docs dm)) 0) (tenant_map ht dm).
Proof.
  destruct (pl_arrays Hplan) as (E1 & E2 & E3 & E4). unfold docmap_docs.
  set (tids := default _ (tenant_map ht dm)).
  assert (E5 : zlen tids = num_docs dm).
  { unfold tids, tenant_map. pose proof (pl_docs Hplan).
    assert (Er : zlen (replicate (Z.to_nat (num_docs dm)) 0) = num_docs dm)
      by (unfold zlen; rewrite length_replicate; lia).
    destruct (tenant_ids dm) as [ids|]; [|done]. destruct (ht && _); [by apply E4|done]. }
  unfold zlen in *. repeat split.
  - rewrite length_zip_with, !length_zip_with. lia.
  - rewrite (fmap_zip_with_left _ _ fst) by (done || rewrite !length_zip_with; lia).
    apply fst_zip. lia.
  - rewrite (fmap_zip_with_left _ _ snd) by (done || rewrite !length_zip_with; lia).
    apply snd_zip. lia.
  - rewrite (fmap_zip_with_right _ _ fst) by (done || rewrite !length_zip_with; lia).
    apply fst_zip. lia.
  - rewrite (fmap_zip_with_right _ _ snd) by (done || rewrite !length_zip_with; lia).
    apply snd_zip. lia.
Qed.

Lemma docmap_docs_lookup (i : nat) p o f : ctid_pages dm !! i = Some p -> ctid_offsets dm !! i = Some o ->
  fieldnorms dm !! i = Some f -> exists t, docmap_docs ht dm !! i = Some (mkSegmentDoc (mkItemPointer p o) f t).
Proof.
  destruct docmap_docs_arrays as (En & E1 & E2 & E3 & _). intros H1' H2' H3'.
  rewrite <- E1, list_lookup_fmap in H1'. rewrite <- E2, list_lookup_fmap in H2'.
  rewrite <- E3, list_lookup_fmap in H3'. destruct (docmap_docs ht dm !! i) as [[[x y] g t]|]; [|done].
  cbn in *. exists t. congruence.
Qed.

Context (s0 : list byte) (n root next : Z).
Context (H32 : zlen D < 2 ^ 32) (Hs0 : take (length D) s0 = D) (H32s : zlen s0 < 2 ^ 32)
  (Hn : fits 4 n) (Hroot : fits 4 root) (Hnext : fits 4 next).
Context (Htail : b = true -> zlen (to_skips b h0 terms ts) + TP_MAX_COMPRESSED_BLOCK_SIZE <= zlen s0).
Abbreviation hf := (with_next_segment (completed_header b h0 stats dm terms ts n root) next).
Abbreviation s := (patched header0 hf infos s0).

Lemma section_written (before bs : list byte) :
  before ++ bs `prefix_of` D -> zlen (to_postings h0 terms) <= zlen before -> at_offset s (zlen before) bs.
Proof. intros. by apply section_kept; [apply (pl_count Hplan)|..]. Qed.

(** The sections lie one behind the other. *)
Lemma section_prefixes :
  (to_fieldnorms b h0 stats dm terms ts ++ fieldnorm_bytes dm `prefix_of` D /\
   to_tenant_stats b h0 stats dm terms ts ++ if_bytes ht (tenant_stats_bytes (default [] stats)) `prefix_of` D) /\
  zlen (to_postings h0 terms) <= zlen (to_fieldnorms b h0 stats dm terms ts) /\
  0 < zlen (to_postings h0 terms) <= zlen (to_tenant_stats b h0 stats dm terms ts).
Proof.
  destruct (positions b h0 stats dm terms ts (pl_count Hplan)) as (He & Hp & _). pose proof (zlen_nonneg terms).
  assert (P1 : to_tenant_stats b h0 stats dm terms ts ++ if_bytes ht (tenant_stats_bytes (default [] stats)) `prefix_of` D)
    by (do 2 apply prefix_app_r; done).
  assert (P2 : to_fieldnorms b h0 stats dm terms ts ++ fieldnorm_bytes dm `prefix_of` to_tenant_stats b h0 stats dm terms ts)
    by (do 3 apply prefix_app_r; done).
  assert (L1 : zlen (to_postings h0 terms) <= zlen (to_fieldnorms b h0 stats dm terms ts)).
  { apply zlen_prefix_of. by do 2 apply prefix_app_r. }
  pose proof (zlen_prefix_of _ _ P2) as L2. rewrite zlen_app in L2.
  pose proof (zlen_nonneg (fieldnorm_bytes dm)).
  split; [|lia]. split; [|exact P1]. etrans; [exact P2|]. etrans; [|exact P1]. by apply prefix_app_r.
Qed.

Lemma plan_docs : docs_at hf s (docmap_docs ht dm).
Proof.
  destruct docmap_docs_arrays as (En & Ep & Eo & Ef & Et). pose proof (pl_docs Hplan) as Hd.
  destruct (pl_arrays Hplan) as (E1 & E2 & E3 & E4). pose proof (pl_start Hplan) as [Hok Hmagic _].
  destruct (arrays_layout b h0 stats dm terms ts (pl_count Hplan) H32 s0 Hs0 n root next)
    as ((Hb1 & Hb2 & Hb3) & Ha1 & Ha2 & Ha3).
  assert (Hsome : (0 <? num_docs dm) = true) by (apply Z.ltb_lt; lia).
  unfold ctid_pages_bytes, ctid_offsets_bytes in Ha1, Ha2. rewrite Hsome in Ha1, Ha2.
  destruct section_prefixes as ((Pf & _) & Lf & _).
  split.
  - rewrite Ep, Eo. split; try done; try lia.
    + by apply completed_header_ok; [..|apply fits_u32; cbn; lia].
    + apply patched_header; [apply (pl_count Hplan)|done].
    + change (tenant_map_offset hf) with
        (match tenant_map ht dm with Some _ => zlen (to_tenant_map b h0 stats dm terms ts) | None => 0 end).
      unfold tenant_map_bytes in Ha3. unfold tenant_map in *.
      destruct (tenant_ids dm) as [ids|]; [|by left]. rewrite Hsome, andb_true_r in *.
      destruct ht; [right|by left]. exists ids. by split; [apply E4|].
  - rewrite list_fmap_compose, Ef. change (fieldnorm_offset hf) with (zlen (to_fieldnorms b h0 stats dm terms ts)).
    replace (byte_of_Z <$> fieldnorms dm) with (fieldnorm_bytes dm)
      by (unfold fieldnorm_bytes; by rewrite Hsome). by apply section_written.
  - change (tenant_map_offset hf) with
      (match tenant_map ht dm with Some _ => zlen (to_tenant_map b h0 stats dm terms ts) | None => 0 end).
    change (flags hf) with (segment_flags stats dm). rewrite Et.
    unfold tenant_map_bytes in Ha3. destruct (tenant_map ht dm) as [ids|] eqn:Em.
    + right. split; [lia|]. split; [|exact Ha3].
      unfold tenant_map in Em. destruct (tenant_ids dm); [|done]. destruct ht eqn:Eht; [|done].
      unfold segment_flags. rewrite Eht. by destruct (has_ranges dm).
    + left. split; [|done]. apply Forall_forall. intros d Hin.
      apply (list_elem_of_fmap_2 sd_tenant) in Hin. rewrite Et in Hin. cbn in Hin.
      by apply elem_of_replicate in Hin as [? _].
  - apply (pl_ranges Hplan).
Qed.

Lemma plan_terms : terms_at hf s (num_docs dm) (zip (ti_term <$> terms) (td_postings <$> ts)).
Proof.
  pose proof (pl_count Hplan) as Hcount. pose proof (pl_data Hplan) as HF. rewrite Forall_forall in HF.
  assert (Hlen : length (ti_term <$> terms) = length (td_postings <$> ts)) by (rewrite !length_fmap; lia).
  assert (Hfreq : Forall (fun t => 0 <= td_doc_freq t < 2 ^ 32) ts)
    by (apply Forall_forall; intros t Ht; apply (HF t Ht)).
  assert (Hfew : Forall (fun t => num_blocks t < 2 ^ 16) ts)
    by (apply Forall_forall; intros t Ht; apply (HF t Ht)).
  assert (Hchunks : Forall chunk_ok (all_chunks ts)).
  { apply Forall_forall. intros c (t & Hc & Ht)%list_elem_of_bind.
    destruct (postings_chunks _ _ (proj1 (HF t Ht))) as (_ & Hck & _). rewrite Forall_forall in Hck. auto. }
  split.
  - exists (entry_of header0 <$> infos). split.
    { rewrite fst_zip by lia. apply dictionary_layout; try done; [apply (pl_terms Hplan)|apply (pl_sorted Hplan)|].
      apply (st_terms _ _ (pl_start Hplan)). }
    intros i t ps Hi. apply lookup_zip_with_Some in Hi as (t' & ps' & [= <- <-] & Hi1 & Hi2).
    rewrite list_lookup_fmap in Hi2. destruct (ts !! i) as [td|] eqn:Etd; [|done]. injection Hi2 as <-.
    destruct (term_layout b h0 stats dm terms ts Hcount H32 s0 Hs0 n root next H32s Hchunks Hfew Htail i td Etd)
      as (info & Hinfo & Hbl).
    eexists _, _. split; [by rewrite list_lookup_fmap, Hinfo|]. split; [exact Hbl|].
    unfold all_postings. rewrite term_blocks_postings.
    apply (postings_chunks (num_docs dm)), (HF td). by eapply list_elem_of_lookup_2.
  - apply Forall_forall. intros [t ps] Hin. apply elem_of_zip_r in Hin. cbn.
    apply list_elem_of_fmap in Hin as (td & -> & Hin). destruct (HF td Hin) as (? & ? & _). done.
Qed.

Lemma plan_stats : stats_at hf s (qsort compare_tenant_stats <$> stats).
Proof.
  destruct section_prefixes as ((_ & Pt) & _ & Lt).
  assert (Hw : at_offset s (zlen (to_tenant_stats b h0 stats dm terms ts))
    (if_bytes ht (tenant_stats_bytes (default [] stats)))) by (apply section_written; [exact Pt|lia]).
  unfold stats_at. change (flags hf) with (segment_flags stats dm).
  change (tenant_stats_offset hf) with (if ht then zlen (to_tenant_stats b h0 stats dm terms ts) else 0).
  unfold segment_flags. pose proof Lt as Lt0.
  set (strm := s) in *. set (pos := zlen (to_tenant_stats b h0 stats dm terms ts)) in *.
  assert (Hl : zlen (if_bytes ht (tenant_stats_bytes (default [] stats))) < 2 ^ 32).
  { apply zlen_prefix_of in Pt. rewrite zlen_app in Pt.
    pose proof (zlen_nonneg (to_tenant_stats b h0 stats dm terms ts)). lia. }
  clearbody strm pos. clear Hplan Pt Htail Hs0 H32. unfold has_tenants_table in *.
  destruct stats as [l|]; cbn [fmap option_fmap option_map] in *; [|by destruct (has_ranges dm)].
  assert (Eq : zlen (qsort compare_tenant_stats l) = zlen l) by (unfold zlen; by rewrite qsort_perm).
  split; [by destruct (has_ranges dm)|]. split; [lia|]. rewrite Eq.
  cbn [if_bytes default from_option id] in Hw, Hl. unfold tenant_stats_bytes in Hw, Hl.
  destruct (Z.ltb_spec 0 (zlen l)) as [L|L].
  { split; [|exact Hw]. rewrite zlen_app, (zlen_encode_array _ 16), Eq, zlen_u32 in Hl by done. lia. }
  split; [lia|].
  destruct l as [|x l]; [|rewrite zlen_cons in L; pose proof (zlen_nonneg l); lia].
  assert (En : qsort compare_tenant_stats [] = []) by (apply Permutation_nil_r, qsort_perm).
  rewrite En. change (encode_array encode_tenant_stats []) with (@nil byte). by rewrite app_nil_r.
Qed.

(** The stream of a finished plan holds its content. *)
Lemma plan_stream : stream_holds hf s plan_content.
Proof.
  destruct docmap_docs_arrays as (En & _). split.
  - exact plan_docs.
  - cbn [plan_content sc_docs sc_terms]. rewrite En. exact plan_terms.
  - exact plan_stats.
  - rewrite (zlen_patched b h0 stats dm terms ts (pl_count Hplan)) by done. exact H32s.
Qed.
End Plan.

(** ** Finishing and opening a segment *)

Section Finish.
Context `{PgLayoutLaws} `{FreeSpaceMapLaws} `{QSortLaws}.
Abbreviation P := SEGMENT_DATA_PER_PAGE.

(** From [st] to [st'] the segment [c] was written: on pages that were free or
    new, and no page in use has changed. *)
Record segment_written (st st' : Storage) (block : Z) (pages bs : list Z) (h : TpSegmentHeader)
    (c : segment_content) : Prop := {
  sw_at : segment_at st' block pages bs h c;
  sw_mono : nblocks st <= nblocks st';
  sw_keep : forall b, in_relation st b -> b ∉ st_fsm st -> page_at st' b = page_at st b;
  sw_fsm : forall b, b ∈ st_fsm st' -> b ∈ st_fsm st;
  sw_pages : forall b, b ∈ pages ++ bs ->
    b ∉ st_fsm st' /\ (b ∈ st_fsm st \/ nblocks st <= b);
  sw_relink : forall next, fits 4 next ->
    stream_holds (with_next_segment h next) (overwrite 28 (u32_bytes next) (stream st' pages)) c;
}.

(** Linking a segment to the next one replaces a field of its header. *)
Lemma encode_header_link h next : encode_header (with_next_segment h next) = overwrite 28 (u32_bytes next) (encode_header h).
Proof. by destruct h. Qed.

Lemma patched_link header0 h infos s0 next : 104 <= zlen s0 ->
  entries_offset header0 + zlen infos * 12 <= zlen s0 -> 0 <= entries_offset header0 ->
  patched header0 (with_next_segment h next) infos s0 = overwrite 28 (u32_bytes next) (patched header0 h infos s0).
Proof.
  intros Hl He Ho. unfold patched. rewrite encode_header_link.
  set (X := overwrite (entries_offset header0) _ s0).
  assert (HX : zlen X = zlen s0).
  { unfold X. apply length_overwrite; [done|]. rewrite (zlen_encode_array _ 12) by apply length_encode_dict_entry.
    rewrite zlen_fmap. lia. }
  assert (E104 : forall h', length (encode_header h') = 104%nat) by (intros; apply length_encode_header).
  rewrite <- HX in Hl. clearbody X. clear He Ho HX s0.
  assert (E : forall d : list byte, length d = 104%nat -> overwrite 0 d X = d ++ drop 104 X)
    by (intros d Hd; unfold overwrite; by rewrite Hd).
  rewrite !E; [|apply E104|].
  - pose proof (overwrite_middle 28 (u32_bytes next) [] (encode_header h) (drop 104 X)) as Hm.
    rewrite !app_nil_l in Hm. change (zlen [] + 28) with 28 in Hm. rewrite Hm; [done|lia|].
    unfold zlen. rewrite E104. done.
  - rewrite <- encode_header_link. apply E104.
Qed.

(** The data in whole pages. *)
Definition size_rounded (data : list byte) : Z := (zlen data + P - 1) / P * P.

(** The segment fits: its data in 4 GB, its pages in the relation; and a
    compressed segment has the room after its last block that loading a block
    reads over. *)
Record data_fits (compressed : bool) (skips_start : Z) (data : list byte) (st : Storage) : Prop := {
  df_size : zlen data < 2 ^ 32 - P;
  df_room : nblocks st + 2 * (zlen data / P + 1) <= InvalidBlockNumber;
  df_tail : compressed = true -> skips_start + TP_MAX_COMPRESSED_BLOCK_SIZE <= size_rounded data;
}.

Lemma finish_plan b h0 stats dm terms ts st w0 st2 w2 final :
  plan_ok h0 stats dm terms ts -> 104 <= P ->
  writer_inv st2 w2 (segment_bytes b h0 stats dm terms ts) ->
  writer_frame st w0 st2 w2 -> w_pages w0 = [] ->
  data_fits b (zlen (to_skips b h0 terms ts)) (segment_bytes b h0 stats dm terms ts) st ->
  (forall n root, final h0 (with_pages_and_index (sections_header b h0 stats dm terms ts) n root) =
     completed_header b h0 stats dm terms ts n root) ->
  exists block pages bs n root st',
    finish_segment final st2 w2 (sections_header b h0 stats dm terms ts)
      (infos_from b (zlen (to_postings h0 terms)) 0 ts) = Ok (block, st') /\
    segment_written st st' block pages bs (completed_header b h0 stats dm terms ts n root)
      (plan_content stats dm terms ts).
Proof.
  intros Hplan HP104 Hi2 Hfr Hw0 [H32 Hroom Htail] Hfinal. pose proof data_per_page_pos as HP.
  set (D := segment_bytes b h0 stats dm terms ts) in *.
  pose proof (pl_count _ _ _ _ _ Hplan) as Hcount. pose proof (pl_start _ _ _ _ _ Hplan) as [Hok0 _ _].
  pose proof (positions b h0 stats dm terms ts Hcount) as (He & Hp & Hs & HsD). fold D in HsD.
  pose proof (zlen_nonneg terms). destruct (wi_page _ _ _ Hi2) as (_ & _ & _ & _ & Hbp).
  pose proof (wi_count _ _ _ Hi2) as Hwc. pose proof (wi_length _ _ _ Hi2) as Hwl.
  pose proof (wi_used _ _ _ Hi2) as Hwu.
  assert (Hpages : zlen (w_pages w2) <= zlen D / P + 1).
  { rewrite Hwc. enough (w_buffer_page w2 <= zlen D / P) by lia. apply Z.div_le_lower_bound; lia. }
  assert (Hidx : num_index_pages (w_pages w2) <= zlen (w_pages w2)).
  { unfold num_index_pages. pose proof epp_bounds as [Hepp _]. apply Z.div_le_upper_bound; [lia|]. nia. }
  assert (Hni : zlen (infos_from b (zlen (to_postings h0 terms)) 0 ts) = zlen terms)
    by (unfold zlen; rewrite length_infos; lia).
  pose proof (wf_blocks _ _ _ _ Hfr) as Hfb. rewrite Hw0 in Hfb. change (zlen []) with 0 in Hfb.
  destruct (finish_segment_ok final st2 w2 D (sections_header b h0 stats dm terms ts) h0
    (infos_from b (zlen (to_postings h0 terms)) 0 ts) Hi2)
    as (block & root & bs & st' & s0 & Efin & Hblock & Hs0 & H32s & Hsp & Hmono & Hkeep & Hfsub & Hfnew);
    try done; try lia.
  { eapply at_offset_prefix_of; [|apply to_strings_prefix]. apply at_offset_app.
    unfold to_strings, dictionary_head. apply at_offset_app. apply (at_offset_end []). }
  { change (104 <= zlen (to_entries h0 terms)). lia. }
  { rewrite Hni. change (zlen (to_entries h0 terms) + zlen terms * 12 <= zlen D). lia. }
  set (n := zlen (w_pages w2)) in *. rewrite Hfinal in Hsp.
  set (h := completed_header b h0 stats dm terms ts n root) in *. set (s := patched _ h _ s0) in *.
  pose proof (segment_pages_length _ _ _ _ _ Hsp) as Hlen.
  pose proof (sp_index _ _ _ _ _ Hsp) as Hix. pose proof (sp_stream _ _ _ _ _ Hsp) as Hst.
  assert (Hsz : zlen s = zlen s0) by (apply zlen_patched; done).
  assert (Hroot : fits 4 root).
  { rewrite (pia_root _ _ _ _ Hix). pose proof (pia_in _ _ _ _ Hix) as HF. pose proof (pia_limit _ _ _ _ Hix).
    destruct bs as [|x bs]; [by split|]. apply Forall_cons in HF as [Hb _]. cbn. apply fits_u32.
    unfold InvalidBlockNumber in *. lia. }
  assert (Hnp : fits 4 n) by (apply fits_u32; pose proof (zlen_nonneg (w_pages w2)); unfold n in *; nia).
  assert (Hround : size_rounded D <= zlen s0).
  { rewrite <- Hsz, Hlen. pose proof (zlen_s0 b h0 stats dm terms ts Hcount s0 Hs0) as Hle. fold D in Hle.
    rewrite <- Hsz, Hlen in Hle. unfold size_rounded. apply Z.mul_le_mono_nonneg_r; [lia|].
    apply Z.lt_succ_r, Z.div_lt_upper_bound; [lia|]. fold n in Hle |- *. nia. }
  exists block, (w_pages w2), bs, n, root, st'. split; [exact Efin|].
  assert (Hnew : forall x, x ∈ w_pages w2 -> x ∈ st_fsm st \/ nblocks st <= x).
  { intros x Hx. pose proof (wi_pages _ _ _ Hi2) as HF. rewrite Forall_forall in HF.
    destruct (HF x Hx) as [Hr _]. destruct (decide (x ∈ st_fsm st)) as [?|Hxf]; [by left|].
    destruct (decide (nblocks st <= x)); [by right|].
    destruct (wf_keep _ _ _ _ Hfr x) as [_ Hnot]; [split; lia|done|rewrite Hw0; apply not_elem_of_nil|done]. }
  assert (Hnext : fits 4 (next_segment h)).
  { pose proof Hok0 as Hf. unfold header_ok, header_fields in Hf.
    do 6 apply Forall2_cons in Hf as [_ Hf]. by apply Forall2_cons in Hf as [Hf _]. }
  assert (Hholds : forall next, fits 4 next -> stream_holds (with_next_segment h next)
    (patched (sections_header b h0 stats dm terms ts) (with_next_segment h next)
       (infos_from b (zlen (to_postings h0 terms)) 0 ts) s0) (plan_content stats dm terms ts)).
  { intros next Hnx. apply plan_stream; try done; [fold D; lia|]. intros Hb. specialize (Htail Hb). lia. }
  split; [split|lia| | | |].
  - change (page_index h) with root. rewrite Hst. exact Hsp.
  - exact Hblock.
  - done.
  - rewrite Hst. exact (Hholds _ Hnext).
  - intros x Hx Hxf. destruct (wf_keep _ _ _ _ Hfr x Hx Hxf) as [<- Hnw]; [rewrite Hw0; apply not_elem_of_nil|].
    apply Hkeep; [unfold in_relation in *; lia| |done].
    intros Hxf'. apply Hxf. by apply (wf_fsm _ _ _ _ Hfr).
  - intros x Hx. by apply (wf_fsm _ _ _ _ Hfr), Hfsub.
  - intros x Hx. destruct (Hfnew x Hx) as (Hnf & [Hin|[Hin|Hin]]); (split; [done|]).
    + by apply Hnew.
    + left. by apply (wf_fsm _ _ _ _ Hfr).
    + right. lia.
  - intros next Hnx. rewrite Hst. unfold s. rewrite <- patched_link; [by apply Hholds|..].
    + pose proof (zlen_s0 b h0 stats dm terms ts Hcount s0 Hs0) as Hle. fold D in Hle. lia.
    + change (entries_offset _) with (zlen (to_entries h0 terms)).
      pose proof (zlen_s0 b h0 stats dm terms ts Hcount s0 Hs0) as Hle. rewrite Hni. fold D in Hle. lia.
    + change (entries_offset _) with (zlen (to_entries h0 terms)). lia.
Qed.

(** Opening a segment, with or without its CTIDs. *)
Lemma open_segment_at st block pages bs h c load : segment_at st block pages bs h c -> 104 <= P ->
  exists r, tp_segment_open_ex st block load = Ok (Some r) /\ reader_ok st pages r /\ r_header r = h /\
    r_cached_ctids r = if load then Some ((fun d => ip_blkid (sd_ctid d)) <$> sc_docs c,
                                          (fun d => ip_posid (sd_ctid d)) <$> sc_docs c) else None.
Proof.
  intros [Hsp Hblock Hn [[Hop _ _ Hr] _ _ H32]] HP.
  destruct load; cycle 1.
  { exists (fresh_reader st block h pages). split; [by eapply tp_segment_open_plain_ok|].
    split; [|done]. apply fresh_reader_ok, (sp_in _ _ _ _ _ Hsp). }
  destruct (tp_segment_open_ok st _ bs pages _ h _ _ block Hsp H32 HP Hblock Hop Hn eq_refl)
    as (r & Eo & Hok & Hh & Hc).
  exists r. do 3 (split; [done|]). rewrite Hc. clear -Hr. do 2 f_equal.
  - rewrite <- list_fmap_compose. apply list_fmap_ext. intros i d Hi. cbn. apply u32_bytes_value.
    apply (Forall_lookup_1 _ _ _ _ Hr Hi).
  - rewrite <- list_fmap_compose. apply list_fmap_ext. intros i d Hi. cbn. apply u16_bytes_value.
    apply (Forall_lookup_1 _ _ _ _ Hr Hi).
Qed.
End Finish.

(** ** Searching a segment *)

(** Opening an iterator and draining it. *)
Definition search {R : Type} `{SegmentAccess R} `{ItemPointerOps} (t : list byte) (fuel : nat)
    : rst R (bool * list TpSegmentPosting) :=
  '(found, it) ← tp_segment_posting_iterator_init t;
  '(ps, _) ← (if (found : bool) then drain fuel it else mret ([], it));
  mret (found, ps).

(** The postings of a term, and what the iterator makes of one. *)
Definition content_postings (c : segment_content) (t : list byte) : list TpBlockPosting :=
  foldr (fun tp acc => if decide (tp.1 = t) then tp.2 else acc) [] (sc_terms c).

Definition posting_result (docs : list segment_doc) (p : TpBlockPosting) : TpSegmentPosting :=
  mkSegmentPosting
    (match zget docs (bp_doc_id p) with Some d => sd_ctid d | None => ItemPointerInvalid end)
    (bp_doc_id p) (bp_frequency p) (u16 (decode_fieldnorm (bp_fieldnorm p))).

Lemma content_postings_lookup c (i : nat) t ps : StronglySorted term_lt (sc_terms c).*1 ->
  sc_terms c !! i = Some (t, ps) -> content_postings c t = ps.
Proof.
  unfold content_postings. generalize (sc_terms c) as l. clear c. intros l. revert i.
  induction l as [|[t0 ps0] l IH]; intros i Hs Hi; [done|].
  inversion_clear Hs as [|? ? Hs' HF]. cbn [foldr fst snd]. destruct i as [|i]; simpl in Hi.
  - injection Hi as -> ->. by destruct (decide (t = t)).
  - destruct (decide (t0 = t)) as [->|]; [|by apply (IH i)]. exfalso.
    rewrite Forall_forall in HF. apply (term_lt_irrefl t), HF.
    apply (list_elem_of_lookup_2 _ i). by rewrite list_lookup_fmap, Hi.
Qed.

Lemma content_postings_none c t : t ∉ (sc_terms c).*1 -> content_postings c t = [].
Proof.
  unfold content_postings. generalize (sc_terms c) as l. clear c.
  induction l as [|[t0 ps0] l IH]; intros Hn; [done|]. csimpl in *.
  apply not_elem_of_cons in Hn as [Hne Hn]. by destruct (decide (t0 = t)); [|apply IH].
Qed.

Section Search.
Context `{PgLayoutLaws} `{FreeSpaceMapLaws} `{QSortLaws} `{ItemPointerOps}.

Lemma search_segment_ok st block pages bs h c r t fuel :
  segment_at st block pages bs h c -> reader_ok st pages r -> r_header r = h ->
  r_cached_ctids r = Some ((fun d => ip_blkid (sd_ctid d)) <$> sc_docs c,
                           (fun d => ip_posid (sd_ctid d)) <$> sc_docs c) ->
  zlen (content_postings c (c_str t)) < Z.of_nat fuel ->
  ensures (@search TpSegmentReader (reader_access st) _ t fuel) r (fun res _ =>
    (res.1 = true <-> content_postings c (c_str t) <> []) /\
    res.2 = posting_result (sc_docs c) <$> content_postings c (c_str t)).
Proof.
  intros [Hsp Hblock Hn [Hd [(entries & Hdict & Hblocks) Hpost] _ H32]] Hok Hh Hc Hfuel.
  set (acc := reader_access st). set (laws := reader_access_laws st pages (sp_wf _ _ _ _ _ Hsp)).
  set (cached := Some _) in Hc.
  assert (Hr : reads_segment (H0 := laws) h (stream st pages) cached r) by (split; [done|exact Hc]).
  unfold search. apply ensures_bind.
  eapply ensures_mono; [by apply (init_ok h (stream st pages) cached (sc_terms c).*1 entries Hdict)|].
  intros [found it] r1 [Hr1 Hres]. destruct found; cycle 1.
  { rewrite content_postings_none by done. apply ensures_bind, ensures_ret, ensures_ret. done. }
  destruct Hres as (i & de & Hi & He & ->).
  rewrite list_lookup_fmap in Hi. destruct (sc_terms c !! i) as [[t' ps]|] eqn:Ei; [|done].
  injection Hi as Et. cbn in Et. subst t'.
  destruct (Hblocks i (c_str t) ps Ei) as (de' & bls & He' & Hbl & Eall).
  assert (de' = de) as -> by congruence.
  pose proof (content_postings_lookup c i _ _ (da_sorted _ _ _ _ Hdict) Ei) as Ep. rewrite Ep in *.
  pose proof (Forall_lookup_1 _ _ _ _ Hpost Ei) as [[_ HF] Hne]. cbn in HF, Hne.
  apply ensures_bind. eapply ensures_mono.
  { apply (drain_ok h (stream st pages) cached de bls Hbl fuel _ (all_postings bls) r1 Hr1).
    - by apply (initial_iter_at (stream st pages)).
    - rewrite Eall. eapply Forall_impl; [exact HF|]. intros p [_ Hp]. cbn. by rewrite !zlen_fmap.
    - rewrite Eall. unfold zlen in Hfuel. lia. }
  intros [out it'] r2 (_ & Hout & _). apply ensures_ret. cbn [fst snd] in *. subst out. rewrite Eall.
  split; [done|]. apply list_fmap_ext. intros j p Hp.
  destruct (Forall_lookup_1 _ _ _ _ HF Hp) as [_ Hrange].
  unfold output_of, posting_result, cached. cbn.
  destruct (zget_is_Some (sc_docs c) (bp_doc_id p) Hrange) as [d Ed]. rewrite Ed.
  rewrite zget_lookup in Ed by lia. rewrite !zget_lookup, !list_lookup_fmap, Ed by lia. cbn.
  by destruct (sd_ctid d).
Qed.
End Search.
