(* ===== verification/SegmentDocs.v ===== *)
(** * The document map of the documents of a segment

    Whatever documents are added to a builder, memtable or sources of a merge, the
    finalised map says of each of them where it is and what is stored of it
    ([docmap_for]); [docmap_of_entries] is the one lemma for both. *)
From S2P Require Import Prelude Postgres Fieldnorm SegmentFormat Storage.
From S2P Require Import Docmap Memtable MemtableFacts SegmentWrite SegmentEmit SegmentContent.

Section DocmapOfEntries.
Context `{ItemPointerLaws} `{QSortLaws} `{HashSeqLaws}.

Lemma add_to_docmap_ok ds : forall b,
  docmap_wf b -> tenant_ids b = None -> NoDup (dl_ctid <$> ds) ->
  (forall d, d ∈ ds -> ctid_to_id b !! dl_ctid d = None) ->
  num_docs b + zlen ds <= UINT32_MAX - 1 ->
  exists b', add_to_docmap b ds = Ok b' /\ docmap_wf b' /\ tenant_ids b' = None /\
    num_docs b' = num_docs b + zlen ds /\
    (forall c e, ctid_to_id b !! c = Some e -> ctid_to_id b' !! c = Some e) /\
    (forall c e, ctid_to_id b' !! c = Some e -> ctid_to_id b !! c = Some e \/
       exists d, d ∈ ds /\ dl_ctid d = c /\ dme_doc_length e = u32 (dl_doc_length d) /\
         dme_tenant_id e = dl_tenant_id d) /\
    forall d, d ∈ ds -> exists id, ctid_to_id b' !! dl_ctid d =
      Some (mkDocMapEntry (dl_ctid d) id (u32 (dl_doc_length d)) (dl_tenant_id d)).
Proof.
  induction ds as [|d ds IH]; intros b Hwf Ht Hnd Hnew Hl.
  { exists b. change (zlen []) with 0. rewrite Z.add_0_r. split; [done|]. split; [done|].
    split; [done|]. split; [done|]. split; [done|]. split; [by left|].
    intros d Hd. by apply not_elem_of_nil in Hd. }
  rewrite zlen_cons in Hl. pose proof (zlen_nonneg ds). cbn [add_to_docmap].
  rewrite fmap_cons in Hnd. apply NoDup_cons in Hnd as [Hni Hnd].
  assert (Hd : ctid_to_id b !! dl_ctid d = None) by (apply Hnew; left).
  destruct (tp_docmap_add b (dl_ctid d) (u32 (dl_doc_length d)) (dl_tenant_id d))
    as [[id b1]|] eqn:E; cycle 1.
  { unfold tp_docmap_add in E. rewrite (proj2 (Z.leb_gt _ _)), Hd in E by lia. done. }
  pose proof (docmap_add_wf _ _ _ _ _ _ Hwf E) as Hwf1.
  unfold tp_docmap_add in E. rewrite (proj2 (Z.leb_gt _ _)), Hd in E by lia.
  injection E as <- <-. cbn [mbind res_bind].
  set (b1 := mkDocMapBuilder _ _ _ _ _ _ _ _ _) in *.
  destruct (IH b1 Hwf1 Ht Hnd) as (b' & -> & Hwf' & Ht' & Hn' & Hkeep & Honly & Hds).
  - intros d' Hd'. cbn. rewrite lookup_insert_ne; [by apply Hnew; right|].
    intros E. apply Hni. rewrite E. by apply list_elem_of_fmap_2.
  - cbn. lia.
  - exists b'. split; [done|]. split; [done|]. split; [done|]. split.
    { rewrite Hn', zlen_cons. cbn. lia. }
    split.
    + intros c e Hc. apply Hkeep. cbn. rewrite lookup_insert_ne; [done|]. intros <-. congruence.
    + split.
      { intros c e Hc. destruct (Honly c e Hc) as [Hb1|(d' & Hd' & Hrest)]; cycle 1.
        { right. exists d'. split; [by right|done]. }
        cbn in Hb1. apply lookup_insert_Some in Hb1 as [[<- <-]|[_ Hb1]]; [|by left].
        right. exists d. split; [left|done]. }
      intros d' [->|Hd']%elem_of_cons; [|by apply Hds].
      eexists. apply Hkeep. cbn. by rewrite lookup_insert_eq.
Qed.

(** What the written arrays say of each document. *)
Record docmap_for (dm : TpDocMapBuilder) (docs : list document) : Prop := {
  df_num : num_docs dm = zlen docs;
  df_lengths : length (ctid_pages dm) = length docs /\ length (ctid_offsets dm) = length docs /\
               length (fieldnorms dm) = length docs /\
               (forall ids, tenant_ids dm = Some ids -> length ids = length docs);
  df_doc : forall d, d ∈ docs -> exists i : nat,
    tp_docmap_lookup dm (doc_ctid d) = Z.of_nat i /\ (i < length docs)%nat /\
    ctid_pages dm !! i = Some (ip_blkid (doc_ctid d)) /\
    ctid_offsets dm !! i = Some (ip_posid (doc_ctid d)) /\
    fieldnorms dm !! i = Some (encode_fieldnorm (u32 (doc_length d))) /\
    match tenant_ids dm with Some ids => ids !! i = Some (doc_tenant d) | None => doc_tenant d = 0 end;
  df_tenants : tenant_ids dm <> None -> exists d, d ∈ docs /\ doc_tenant d <> 0;
  df_ranges : Forall (fun p => 0 <= p < 2 ^ 32) (ctid_pages dm) /\
    Forall (fun o => 0 <= o < 2 ^ 16) (ctid_offsets dm) /\ Forall (fun f => 0 <= f < 256) (fieldnorms dm) /\
    (forall ids, tenant_ids dm = Some ids -> Forall (fun t => 0 <= t < 2 ^ 32) ids);
}.

(** A document whose CTID and tenant have their widths. *)
Definition document_in_range (d : document) : Prop :=
  0 <= ip_blkid (doc_ctid d) < 2 ^ 32 /\ 0 <= ip_posid (doc_ctid d) < 2 ^ 16 /\
  0 <= doc_tenant d < 2 ^ 32.

Definition entry_of_document (d : document) : TpDocLengthEntry :=
  mkDocLengthEntry (doc_ctid d) (doc_length d) (doc_tenant d).

(** Adding the entries of the documents, in any order, and finalising. *)
Lemma docmap_of_entries docs ds :
  ds ≡ₚ entry_of_document <$> docs -> NoDup (doc_ctid <$> docs) -> docs <> [] ->
  Forall document_in_range docs -> zlen docs <= UINT32_MAX - 1 ->
  exists b, add_to_docmap tp_docmap_create ds = Ok b /\ docmap_for (tp_docmap_finalize b) docs.
Proof.
  intros Hperm Hnd Hne Hrng Hl.
  assert (Hsize : zlen ds = zlen docs) by (unfold zlen; by rewrite Hperm, length_fmap).
  assert (Hkeys : NoDup (dl_ctid <$> ds)) by (rewrite Hperm, <- list_fmap_compose; done).
  destruct (add_to_docmap_ok ds tp_docmap_create docmap_create_wf eq_refl Hkeys)
    as (b & Eadd & Hwf & Ht & Hn & _ & Honly & Hds); [by intros|cbn; lia|].
  change (num_docs tp_docmap_create) with 0 in Hn. rewrite Z.add_0_l, Hsize in Hn.
  exists b. split; [done|].
  assert (Hn0 : num_docs b <> 0).
  { rewrite Hn. destruct docs; [done|]. rewrite zlen_cons. pose proof (zlen_nonneg docs). lia. }
  pose proof (length_sorted_entries b Hwf) as Hse. rewrite Hn in Hse. unfold zlen in Hse.
  assert (Hsorted : forall e, e ∈ sorted_entries b -> exists d, d ∈ docs /\ dme_ctid e = doc_ctid d /\
    dme_doc_length e = u32 (doc_length d) /\ dme_tenant_id e = doc_tenant d).
  { intros e He%elem_of_sorted_entries; [|done].
    destruct (Honly _ _ He) as [Hno|(x & Hx & Ec & El & Et)]; [cbn in Hno; by rewrite lookup_empty in Hno|].
    rewrite Hperm in Hx. apply list_elem_of_fmap in Hx as (d & -> & Hd). by exists d. }
  split.
  - by rewrite finalize_fields.
  - rewrite finalize_fields by done. cbn. rewrite !length_fmap. split; [lia|]. split; [lia|].
    split; [lia|]. intros ids. destruct (has_tenants b); [|by rewrite Ht].
    intros [= <-]. rewrite length_fmap. lia.
  - intros d Hd. destruct (Hds (entry_of_document d)) as [id He]; [rewrite Hperm; by apply list_elem_of_fmap_2|].
    destruct (finalize_position b _ _ Hwf He) as (i & Hi & Hlt & Elook).
    exists i. split; [done|]. split; [unfold zlen in Hn; lia|].
    rewrite finalize_fields by done. cbn. rewrite !list_lookup_fmap, Hi. do 3 (split; [done|]).
    destruct (has_tenants b) eqn:Eht; [by rewrite list_lookup_fmap, Hi|]. rewrite Ht.
    apply (no_tenants b _ Eht (list_elem_of_lookup_2 _ _ _ Hi)).
  - rewrite finalize_fields by done. cbn. destruct (has_tenants b) eqn:Eht; [intros _|by rewrite Ht].
    unfold has_tenants in Eht. apply existsb_exists in Eht as (e & He%list_elem_of_In & Hz).
    destruct (Hsorted e) as (d & Hd & _ & _ & Et).
    { by rewrite sorted_entries_perm, <- hash_seq_perm. }
    exists d. split; [done|]. rewrite <- Et. by apply negb_true_iff, Z.eqb_neq in Hz.
  - rewrite Forall_forall in Hrng. rewrite finalize_fields by done. cbn.
    split; [|split; [|split; [|intros ids; destruct (has_tenants b); [intros [= <-]|by rewrite Ht]]]];
      apply Forall_fmap, Forall_forall; intros e He; destruct (Hsorted e He) as (d & Hd & Ec & El & Et);
      cbn; rewrite ?Ec, ?El, ?Et; destruct (Hrng d Hd) as (? & ? & ?); try done.
    pose proof (wrap_range 32 (doc_length d) ltac:(lia)).
    pose proof (Fieldnorm.encode_range (u32 (doc_length d)) ltac:(lia)). lia.
Qed.

(** The documents of a block have tenants when the map has them. *)
Lemma tenants_known_in_range docs dm ht block : docmap_for dm docs ->
  Forall (fun p => 0 <= bp_doc_id p < zlen docs) block -> tenants_known ht dm block.
Proof.
  intros Hdm HF. unfold tenants_known, block_tenant_mode. destruct ht; [|eauto].
  destruct (tenant_ids dm) as [ids|] eqn:Ei; [|eauto].
  destruct (df_lengths _ _ Hdm) as (_ & _ & _ & Hids). specialize (Hids ids Ei).
  set (get := fix get (ps : list TpBlockPosting) : res (list Z) := _).
  assert (Hget : exists tids, get block = Ok tids).
  { induction HF as [|p ps Hp HF [tids IH]]; [by exists []|].
    destruct (zget_is_Some ids (bp_doc_id p)) as [t Ht]; [unfold zlen in *; lia|].
    exists (t :: tids). cbn [get]. unfold zread. rewrite Ht. cbn [mbind res_bind].
    by rewrite IH. }
  destruct Hget as [tids ->]. cbn [mbind res_bind]. repeat case_match; eauto.
Qed.

(** ** Postings in document order *)

Lemma cmp_by_doc_id_le a b : cmp_block_posting_by_doc_id a b <= 0 <-> bp_doc_id a <= bp_doc_id b.
Proof.
  unfold cmp_block_posting_by_doc_id.
  destruct (Z.ltb_spec (bp_doc_id a) (bp_doc_id b)), (Z.ltb_spec (bp_doc_id b) (bp_doc_id a)); lia.
Qed.

Lemma qsort_by_doc_id l : NoDup (bp_doc_id <$> l) ->
  StronglySorted by_doc_id (qsort cmp_block_posting_by_doc_id l).
Proof.
  intros Hnd.
  assert (Hle : StronglySorted (cmp_le cmp_block_posting_by_doc_id) (qsort cmp_block_posting_by_doc_id l)).
  { apply qsort_sorted. split; intros *; rewrite !cmp_by_doc_id_le; lia. }
  rewrite <- (qsort_perm _ cmp_block_posting_by_doc_id l) in Hnd.
  induction Hle as [|p ps Hs IH HF]; [constructor|]. rewrite fmap_cons in Hnd.
  apply NoDup_cons in Hnd as [Hni Hnd]. constructor; [by apply IH|].
  rewrite Forall_forall in HF |- *. intros q Hq. pose proof (HF q Hq) as Hpq.
  unfold cmp_le in Hpq. rewrite cmp_by_doc_id_le in Hpq.
  assert (bp_doc_id p <> bp_doc_id q); [|lia]. intros E. apply Hni. rewrite E.
  by apply list_elem_of_fmap_2.
Qed.
End DocmapOfEntries.
