(* ===== verification/SegmentRoundtrip.v ===== *)
(** * From documents to search results

    The documents a memtable holds, written by [tp_write_segment], are what an
    iterator on the new segment returns ([written_segment_is_searchable]). *)
From S2P Require Import Prelude Postgres Float4 Fieldnorm SegmentFormat Compression Storage.
From S2P Require Import SegmentIO Docmap SegmentScan ScanFacts Memtable MemtableFacts SegmentWrite.
From S2P Require Import SegmentWriteFacts SegmentEmit SegmentLayout SegmentOpen SegmentContent SegmentDocs.

(** ** The document map of a memtable *)

Section DocmapOfMemtable.
Context `{ItemPointerLaws} `{QSortLaws} `{HashSeqLaws} `{DsaAllocatorLaws}.

Lemma lengths_of_lookup docs d : NoDup (doc_ctid <$> docs) -> d ∈ docs ->
  lengths_of docs !! doc_ctid d = Some (mkDocLengthEntry (doc_ctid d) (doc_length d) (doc_tenant d)).
Proof.
  induction docs as [|x docs IH] using rev_ind; [by intros _ ?%not_elem_of_nil|].
  intros Hnd Hd. unfold lengths_of. rewrite foldl_app. cbn [foldl]. fold (lengths_of docs).
  rewrite fmap_app in Hnd. apply NoDup_app in Hnd as (Hnd & Hdis & _).
  apply elem_of_app in Hd as [Hd|Hd%list_elem_of_singleton]; [|subst d; by rewrite lookup_insert_eq].
  rewrite lookup_insert_ne; [by apply IH|]. intros E.
  apply (Hdis (doc_ctid d)); [by apply list_elem_of_fmap_2|]. rewrite <- E. left.
Qed.

Lemma lengths_of_Some docs c e : lengths_of docs !! c = Some e ->
  exists d, d ∈ docs /\ doc_ctid d = c /\ e = mkDocLengthEntry c (doc_length d) (doc_tenant d).
Proof.
  induction docs as [|x docs IH] using rev_ind; [done|].
  unfold lengths_of. rewrite foldl_app. cbn [foldl]. fold (lengths_of docs).
  rewrite lookup_insert_Some. intros [[<- <-]|[_ Hc]].
  - exists x. split; [apply elem_of_app; right; left|done].
  - destruct (IH Hc) as (d & Hd & ? & ?). exists d. split; [apply elem_of_app; by left|done].
Qed.

Lemma size_lengths_of docs : NoDup (doc_ctid <$> docs) ->
  size (lengths_of docs) = length docs.
Proof.
  induction docs as [|x docs IH] using rev_ind; [done|]. rewrite fmap_app.
  intros (Hnd & Hdis & _)%NoDup_app. unfold lengths_of. rewrite foldl_app. cbn [foldl].
  fold (lengths_of docs). rewrite map_size_insert_None, IH by
    (done || (destruct (lengths_of docs !! doc_ctid x) as [e|] eqn:E; [|done];
      apply lengths_of_Some in E as (d & Hd & Ed & _); exfalso;
      apply (Hdis (doc_ctid d)); [by apply list_elem_of_fmap_2|rewrite Ed; left])).
  rewrite length_app. simpl. lia.
Qed.

Lemma build_docmap_ok state frame docs :
  holds state frame docs -> NoDup (doc_ctid <$> docs) -> docs <> [] ->
  Forall document_in_range docs -> zlen docs <= UINT32_MAX - 1 ->
  exists dm, build_docmap_from_memtable state = Ok dm /\ docmap_for dm docs.
Proof.
  intros [_ Hlen _] Hnd Hne Hrng Hl. unfold build_docmap_from_memtable.
  destruct (doc_lengths (memtable state)) as [table|]; cbn [default from_option id] in Hlen; cycle 1.
  { destruct docs as [|d docs]; [done|].
    pose proof (lengths_of_lookup (d :: docs) d Hnd ltac:(left)) as Hd. by rewrite <- Hlen in Hd. }
  destruct (docmap_of_entries docs (hash_seq table).*2) as (b & -> & Hdm); [|done..|by eexists].
  apply NoDup_Permutation.
  - apply (NoDup_fmap_1 dl_ctid). rewrite hash_seq_perm, <- list_fmap_compose, Hlen.
    rewrite (list_fmap_ext _ fst (map_to_list (lengths_of docs))); [apply NoDup_fst_map_to_list|].
    intros i [c e] Hi%list_elem_of_lookup_2%elem_of_map_to_list.
    apply lengths_of_Some in Hi as (d & _ & _ & ->). done.
  - apply (NoDup_fmap_1 dl_ctid). by rewrite <- list_fmap_compose.
  - intros e. rewrite hash_seq_perm, !list_elem_of_fmap, Hlen. split.
    + intros ([c e'] & -> & Hc%elem_of_map_to_list). apply lengths_of_Some in Hc as (d & Hd & <- & ->).
      by exists d.
    + intros (d & -> & Hd). exists (doc_ctid d, entry_of_document d). split; [done|].
      by apply elem_of_map_to_list, lengths_of_lookup.
Qed.
End DocmapOfMemtable.

(** ** The postings of a term *)

Lemma Forall_infix {A} (P : A -> Prop) (l1 l l2 : list A) : Forall P (l1 ++ l ++ l2) -> Forall P l.
Proof. intros [_ [HF _]%Forall_app]%Forall_app. done. Qed.

Lemma NoDup_bind {A B} (f : A -> list B) (l : list A) :
  NoDup l -> (forall x, x ∈ l -> NoDup (f x)) ->
  (forall x y b, x ∈ l -> y ∈ l -> b ∈ f x -> b ∈ f y -> x = y) -> NoDup (l ≫= f).
Proof.
  induction 1 as [|x l Hx Hnd IH]; intros Hf Hinj; csimpl; [constructor|].
  apply NoDup_app. split; [apply Hf; left|]. split.
  - intros b Hb (y & Hby & Hy)%list_elem_of_bind.
    assert (x = y) as -> by (apply (Hinj x y b); [left|by right|done|done]). done.
  - apply IH; [intros y Hy; apply Hf; by right|]. intros y z b Hy Hz. apply Hinj; by right.
Qed.

Section Postings.
Context `{ItemPointerLaws} `{QSortLaws} `{HashSeqLaws}.
Context (docs : list document) (dm : TpDocMapBuilder) (Hdm : docmap_for dm docs).

(** Documents that fit the widths of the format, without repeated terms. *)
Record indexable : Prop := {
  ix_ctids : NoDup (doc_ctid <$> docs);
  ix_terms : Forall (fun d => NoDup (c_str <$> doc_terms d)) docs;
  ix_count : zlen docs <= 65535 * 128;
  ix_range : Forall document_in_range docs;
}.
Context (Hix : indexable).

Definition posting_of (e : TpPostingEntry) : TpBlockPosting :=
  let doc_id := tp_docmap_lookup dm (pe_ctid e) in
  mkBlockPosting doc_id (u16 (pe_frequency e)) (tp_docmap_get_fieldnorm dm doc_id).

Lemma postings_of_document t e : e ∈ postings_of docs t ->
  exists d, d ∈ docs /\ pe_ctid e = doc_ctid d /\ e ∈ document_entries d t.
Proof.
  intros (d & He & Hd)%list_elem_of_bind. exists d. split; [done|]. split; [|done].
  unfold document_entries in He. by apply list_elem_of_fmap in He as (x & -> & _).
Qed.

Lemma document_entries_le1 d t : NoDup (c_str <$> doc_terms d) ->
  (length (document_entries d t) <= 1)%nat.
Proof.
  unfold document_entries. rewrite length_fmap. generalize (doc_frequencies d) as fs.
  induction (doc_terms d) as [|t0 ts IH]; intros fs; [simpl; lia|].
  rewrite fmap_cons. intros [Hni Hnd]%NoDup_cons. destruct fs as [|f fs]; [simpl; lia|].
  cbn [zip_with]. rewrite filter_cons. cbn [fst]. case_decide as E; [|by apply IH].
  replace (filter _ (zip ts fs)) with (@nil (term * Z)); [simpl; lia|].
  symmetry. apply filter_none. apply Forall_forall. intros [t1 f1] Hx E1. apply Hni.
  rewrite E, <- E1. apply list_elem_of_fmap_2. by apply elem_of_zip_l in Hx.
Qed.

Lemma postings_ctids_nodup t : NoDup (pe_ctid <$> postings_of docs t).
Proof.
  unfold postings_of.
  replace (pe_ctid <$> (docs ≫= fun d => document_entries d t))
    with (docs ≫= fun d => pe_ctid <$> document_entries d t).
  2: { clear. induction docs as [|d l IH]; [done|]. csimpl. by rewrite fmap_app, IH. }
  assert (Hc : forall d c, c ∈ pe_ctid <$> document_entries d t -> c = doc_ctid d).
  { intros d c (e & -> & He)%list_elem_of_fmap. unfold document_entries in He.
    by apply list_elem_of_fmap in He as (x & -> & _). }
  apply NoDup_bind; [apply (NoDup_fmap_1 doc_ctid), (ix_ctids Hix)| |].
  - intros d Hd. pose proof (ix_terms Hix) as HF. rewrite Forall_forall in HF.
    pose proof (document_entries_le1 d t (HF d Hd)) as Hle.
    destruct (document_entries d t) as [|e [|e' l]]; [constructor|apply NoDup_singleton|].
    simpl in Hle. lia.
  - intros d d' c Hd Hd' Hc1%Hc Hc2%Hc.
    apply list_elem_of_lookup in Hd as [i Hi]. apply list_elem_of_lookup in Hd' as [j Hj].
    assert (i = j) as ->; [|congruence].
    apply (NoDup_lookup _ i j c (ix_ctids Hix)); rewrite list_lookup_fmap, ?Hi, ?Hj; simpl; congruence.
Qed.

Lemma lookup_posting e t : e ∈ postings_of docs t -> exists (i : nat) d, d ∈ docs /\
  pe_ctid e = doc_ctid d /\ (i < length docs)%nat /\
  tp_docmap_lookup dm (pe_ctid e) = Z.of_nat i /\
  ctid_pages dm !! i = Some (ip_blkid (pe_ctid e)) /\
  ctid_offsets dm !! i = Some (ip_posid (pe_ctid e)) /\
  bp_fieldnorm (posting_of e) = encode_fieldnorm (u32 (doc_length d)).
Proof.
  intros (d & Hd & Ec & _)%postings_of_document. rewrite Ec.
  destruct (df_doc _ _ Hdm d Hd) as (i & Hl & Hlt & Hp & Ho & Hf & _).
  exists i, d. do 3 (split; [done|]). split; [done|]. split; [done|]. split; [done|].
  unfold posting_of. cbn [bp_fieldnorm]. unfold tp_docmap_get_fieldnorm.
  rewrite Ec, Hl, (df_num _ _ Hdm), (proj2 (Z.leb_gt _ _)) by (unfold zlen; lia).
  by rewrite zget_nat, Hf.
Qed.

Lemma postings_few t : zlen (postings_of docs t) <= zlen docs.
Proof.
  pose proof (postings_ctids_nodup t) as Hnd.
  assert (Hsub : pe_ctid <$> postings_of docs t ⊆ doc_ctid <$> docs).
  { intros c (e & -> & He)%list_elem_of_fmap.
    apply postings_of_document in He as (d & Hd & -> & _). by apply list_elem_of_fmap_2. }
  pose proof (NoDup_submseteq _ _ Hnd Hsub) as Hle. apply submseteq_length in Hle.
  rewrite !length_fmap in Hle. unfold zlen. lia.
Qed.

Lemma convert_postings_ok es : (forall e, e ∈ es -> exists t, e ∈ postings_of docs t) ->
  convert_postings dm es = Ok (posting_of <$> es).
Proof.
  induction es as [|e es IH]; intros Hes; [done|]. cbn [convert_postings].
  destruct (Hes e ltac:(left)) as [t Ht]. pose proof (ix_count Hix) as Hc.
  destruct (lookup_posting e t Ht) as (i & d & _ & _ & Hlt & El & _).
  rewrite (proj2 (Z.eqb_neq _ _)) by (rewrite El; unfold zlen, UINT32_MAX in *; lia).
  rewrite IH by (intros x Hx; apply Hes; by right). done.
Qed.

Definition sorted_postings (t : list byte) : list TpBlockPosting :=
  qsort cmp_block_posting_by_doc_id (posting_of <$> postings_of docs t).

Lemma sorted_postings_perm t : sorted_postings t ≡ₚ posting_of <$> postings_of docs t.
Proof. apply qsort_perm. Qed.

Lemma doc_ids_nodup t : NoDup (bp_doc_id <$> (posting_of <$> postings_of docs t)).
Proof.
  rewrite <- list_fmap_compose. pose proof (postings_ctids_nodup t) as Hnd.
  apply NoDup_alt. intros i j x Hi Hj. rewrite list_lookup_fmap in Hi, Hj.
  destruct (postings_of docs t !! i) as [e|] eqn:Ei; [|done].
  destruct (postings_of docs t !! j) as [e'|] eqn:Ej; [|done]. simpl in Hi, Hj.
  destruct (lookup_posting e t) as (k & _ & _ & _ & _ & Ek & Hp & Ho & _);
    [by eapply list_elem_of_lookup_2|].
  destruct (lookup_posting e' t) as (k' & _ & _ & _ & _ & Ek' & Hp' & Ho' & _);
    [by eapply list_elem_of_lookup_2|].
  assert (Ez : Z.of_nat k = Z.of_nat k') by (rewrite <- Ek, <- Ek'; cbn in Hi, Hj; congruence).
  assert (k = k') as <- by lia.
  assert (Ec : pe_ctid e' = pe_ctid e)
    by (destruct (pe_ctid e), (pe_ctid e'); simpl in *; congruence).
  apply (NoDup_lookup _ i j (pe_ctid e) Hnd); rewrite list_lookup_fmap, ?Ei, ?Ej; [done|].
  simpl. by rewrite Ec.
Qed.

Lemma sorted_postings_sorted t : StronglySorted by_doc_id (sorted_postings t).
Proof. apply qsort_by_doc_id, doc_ids_nodup. Qed.

Lemma posting_of_ok e t : e ∈ postings_of docs t -> block_posting_ok (posting_of e) /\
  0 <= bp_doc_id (posting_of e) < zlen docs.
Proof.
  intros He. destruct (lookup_posting e t He) as (i & d & _ & _ & Hlt & El & _ & _ & Ef).
  pose proof (ix_count Hix). unfold block_posting_ok, fits. rewrite Ef.
  pose proof (wrap_range 32 (doc_length d) ltac:(lia)).
  pose proof (Fieldnorm.encode_range (u32 (doc_length d)) ltac:(lia)).
  pose proof (wrap_range 16 (pe_frequency e) ltac:(lia)).
  unfold posting_of. cbn [bp_doc_id bp_frequency]. rewrite El.
  change (256 ^ Z.of_nat 4) with (2 ^ 32). change (256 ^ Z.of_nat 2) with (2 ^ 16).
  change (256 ^ Z.of_nat 1) with 256. unfold zlen in *. lia.
Qed.

Lemma sorted_postings_ok t :
  Forall (fun p => block_posting_ok p /\ 0 <= bp_doc_id p < zlen docs) (sorted_postings t).
Proof.
  rewrite sorted_postings_perm. apply Forall_fmap, Forall_forall. intros e He.
  by apply (posting_of_ok e t).
Qed.

Lemma sorted_postings_good t : postings_ok (zlen docs) (sorted_postings t).
Proof. split; [apply sorted_postings_sorted|apply sorted_postings_ok]. Qed.

(** The data of a term. *)
Definition data_of (ht : bool) (ti : TermInfo) : term_data :=
  let l := postings_of docs (ti_term ti) in
  mkTermData (zlen l) (if ht then compute_term_tenant_docfreq l else []) (sorted_postings (ti_term ti)).

Lemma zlen_sorted_postings t : zlen (sorted_postings t) = zlen (postings_of docs t).
Proof. unfold zlen. by rewrite sorted_postings_perm, length_fmap. Qed.

Lemma data_of_blocks ht ti : num_blocks (data_of ht ti) < 2 ^ 16.
Proof.
  unfold num_blocks, TP_BLOCK_SIZE. cbn [data_of td_postings]. rewrite zlen_sorted_postings.
  pose proof (postings_few (ti_term ti)). pose proof (ix_count Hix).
  apply Z.div_lt_upper_bound; lia.
Qed.
End Postings.

(** ** The terms of the memtable *)

Section Terms.
Context `{ItemPointerLaws} `{QSortLaws} `{HashSeqLaws}.
Context (docs : list document) (dm : TpDocMapBuilder) (Hdm : docmap_for dm docs)
  (Hix : indexable docs).

Lemma term_entries_ok area dp pl l :
  dp <> InvalidDsaPointer -> area !! dp = Some (ChunkPostingList pl) ->
  posting_list_ok area pl l -> term_entries area dp = Ok (zlen l, l).
Proof.
  intros Hdp Hpl Hl. unfold term_entries. rewrite (proj2 (Z.eqb_neq _ _) Hdp), Hpl.
  rewrite (plo_count _ _ _ Hl), (plo_freq _ _ _ Hl).
  destruct (Z.ltb_spec 0 (zlen l)) as [L|L]; cycle 1.
  { destruct l as [|e l]; [done|]. rewrite zlen_cons in L. pose proof (zlen_nonneg l). lia. }
  destruct (decide (pl_capacity pl = 0)) as [E0|N0].
  { destruct (plo_empty _ _ _ Hl E0) as [_ ->]. done. }
  destruct (plo_slots _ _ _ Hl N0) as (_ & rest & Hslots & _). rewrite Hslots.
  replace (Z.to_nat (zlen l)) with (length l) by (unfold zlen; lia). by rewrite read_slots_ok.
Qed.

(** What the streaming pass needs of a term. *)
Lemma data_of_ok ht area ti pl :
  ti_posting_list_dp ti <> InvalidDsaPointer ->
  area !! ti_posting_list_dp ti = Some (ChunkPostingList pl) ->
  posting_list_ok area pl (postings_of docs (ti_term ti)) ->
  term_data_of ht dm area ti (data_of docs dm ht ti).
Proof.
  intros Hdp Hpl Hl. split.
  - exists (postings_of docs (ti_term ti)). split; [by eapply term_entries_ok|]. split; [done|].
    split; [cbn; by rewrite zlen_sorted_postings|].
    exists (posting_of dm <$> postings_of docs (ti_term ti)). split; [|done].
    apply (convert_postings_ok docs dm Hdm Hix). eauto.
  - destruct (postings_chunks (zlen docs) (data_of docs dm ht ti)) as (_ & _ & HF);
      [by apply sorted_postings_good|].
    eapply Forall_impl; [exact HF|]. intros c Hc. by apply (tenants_known_in_range docs).
Qed.
End Terms.

(** ** What a search must return *)

(** CTID, frequency and length of each posting of a term. *)
Definition expected_results (docs : list document) (t : list byte)
    : list (ItemPointerData * Z * Z) :=
  docs ≫= fun d => (fun e => (pe_ctid e, u16 (pe_frequency e),
    u16 (decode_fieldnorm (encode_fieldnorm (u32 (doc_length d)))))) <$> document_entries d t.

Definition result_triple (p : TpSegmentPosting) : ItemPointerData * Z * Z :=
  (sp_ctid p, sp_frequency p, sp_doc_length p).

(** CTID, frequency and length of what a search of a content returns. *)
Definition content_results (c : segment_content) (t : list byte) : list (ItemPointerData * Z * Z) :=
  result_triple <$> (posting_result (sc_docs c) <$> content_postings c t).

(** What a segment keeps of a document: its CTID and the code of its length. *)
Definition document_row (d : document) : ItemPointerData * Z :=
  (doc_ctid d, encode_fieldnorm (u32 (doc_length d))).
Definition segment_row (d : segment_doc) : ItemPointerData * Z := (sd_ctid d, sd_fieldnorm d).

(** The content of a segment is that of the documents. *)
Record content_of (docs : list document) (c : segment_content) : Prop := {
  co_docs : segment_row <$> sc_docs c ≡ₚ document_row <$> docs;
  co_results : forall t, content_results c t ≡ₚ expected_results docs t;
  co_terms : forall t, t ∈ (sc_terms c).*1 <-> postings_of docs t <> [];
}.

Section Results.
Context `{ItemPointerLaws} `{QSortLaws} `{HashSeqLaws}.
Context (docs : list document) (dm : TpDocMapBuilder) (Hdm : docmap_for dm docs)
  (Hix : indexable docs).

Context (ht : bool) (sdocs : list segment_doc).
Context (Hsdocs : forall (i : nat) p o f, ctid_pages dm !! i = Some p -> ctid_offsets dm !! i = Some o ->
  fieldnorms dm !! i = Some f -> exists t, sdocs !! i = Some (mkSegmentDoc (mkItemPointer p o) f t)).

Lemma output_of_posting d e t : d ∈ docs -> e ∈ document_entries d t ->
  result_triple (posting_result sdocs (posting_of dm e)) =
  (pe_ctid e, u16 (pe_frequency e),
   u16 (decode_fieldnorm (encode_fieldnorm (u32 (doc_length d))))).
Proof.
  intros Hd He.
  assert (Ec : pe_ctid e = doc_ctid d)
    by (unfold document_entries in He; apply list_elem_of_fmap in He as (x & -> & _); done).
  destruct (df_doc _ _ Hdm d Hd) as (i & Hl & Hlt & Hp & Ho & Hf & _).
  destruct (Hsdocs i _ _ _ Hp Ho Hf) as [tid Ei].
  unfold result_triple, posting_result, posting_of.
  cbn [bp_doc_id bp_frequency bp_fieldnorm sp_ctid sp_frequency sp_doc_length].
  rewrite Ec, Hl, zget_nat, Ei. unfold tp_docmap_get_fieldnorm.
  rewrite (df_num _ _ Hdm), (proj2 (Z.leb_gt _ _)) by (unfold zlen; lia). rewrite zget_nat, Hf.
  cbn. by destruct (doc_ctid d).
Qed.

Lemma results_of_sorted t :
  result_triple <$> (posting_result sdocs <$> sorted_postings docs dm t) ≡ₚ expected_results docs t.
Proof.
  rewrite sorted_postings_perm. unfold postings_of.
  assert (Hl : forall l, (forall d, d ∈ l -> d ∈ docs) ->
    result_triple <$> (posting_result sdocs <$> (posting_of dm <$>
      (l ≫= fun d => document_entries d t))) = expected_results l t); [|by apply reflexive_eq, Hl].
  unfold expected_results. induction l as [|d l IH]; intros Hin; [done|].
  csimpl. rewrite !fmap_app, IH by (intros x Hx; apply Hin; by right). f_equal.
  rewrite <- !list_fmap_compose. apply list_fmap_ext. intros i e He. cbn.
  apply (output_of_posting d e t); [apply Hin; left|by eapply list_elem_of_lookup_2].
Qed.
End Results.

(** ** Writing the memtable, opening the segment *)

Section Written.
Context `{PgLayoutLaws} `{FreeSpaceMapLaws} `{ItemPointerLaws} `{QSortLaws} `{HashSeqLaws}.
Context `{DsaAllocatorLaws}.
Abbreviation P := SEGMENT_DATA_PER_PAGE.
Context (tp_compress_segments : bool) (now : Z) (state : TpLocalIndexState) (frame : dsa_area)
  (docs : list document).

Abbreviation stats := (state_stats state).
Abbreviation ht := (has_tenants_table stats).
Abbreviation h0 := (fun terms : list TermInfo => initial_header now (zlen terms) state).

Definition segment_fits (st : Storage) : Prop :=
  forall dm terms, build_docmap_from_memtable state = Ok dm ->
    tp_build_dictionary state = Ok (terms, state) ->
    let ts := data_of docs dm ht <$> terms in
    data_fits tp_compress_segments (zlen (to_skips tp_compress_segments (h0 terms) terms ts))
      (segment_bytes tp_compress_segments (h0 terms) stats dm terms ts) st.

Lemma initial_header_ok n : 0 <= now < 2 ^ 64 -> 0 <= n < 2 ^ 32 -> start_header (initial_header now n state) n.
Proof.
  intros Hnow Hn. assert (fits 4 n) by (apply fits_u32; lia).
  split; [|done|done]. unfold header_ok, initial_header, TpSegmentHeader_layout. unfold_header. fits_fields.
  constructor.
Qed.

(** The plan of the segment of a memtable. *)
Lemma memtable_plan dm terms : holds state frame docs -> indexable docs -> docs <> [] ->
  0 <= now < 2 ^ 64 -> docmap_for dm docs -> tp_build_dictionary state = Ok (terms, state) ->
  zlen terms < 2 ^ 32 ->
  plan_ok (h0 terms) stats dm terms (data_of docs dm ht <$> terms) /\
  Forall2 (term_data_of ht dm (dsa state)) terms (data_of docs dm ht <$> terms) /\
  forall t, t ∈ ti_term <$> terms <-> postings_of docs t <> [].
Proof.
  intros Hh Hix Hne Hnow Hdm Ed Hn.
  destruct (build_dictionary_ok state frame docs Hh) as (terms' & st_same & Ed' & -> & Hsort & Hin & Hti).
  rewrite Ed in Ed'. injection Ed' as <-. pose proof (zlen_nonneg terms).
  destruct (df_lengths _ _ Hdm) as (Elp & Elo & Elf & Eids). pose proof (df_num _ _ Hdm) as Enum.
  destruct (df_ranges _ _ Hdm) as (R1 & R2 & R3 & R4). pose proof (ix_count _ Hix) as Hmax.
  assert (Hpos : 0 < zlen docs).
  { destruct docs as [|d ds]; [done|]. rewrite zlen_cons. pose proof (zlen_nonneg ds). lia. }
  split; [|split; [|exact Hin]].
  - split; try done.
    + apply initial_header_ok; [done|lia].
    + apply Forall_forall. intros ti Hx. by destruct (Hti ti Hx) as (? & ? & _).
    + apply length_fmap.
    + apply Forall_fmap, Forall_forall. intros ti Hx. cbn.
      pose proof (zlen_sorted_postings docs dm (ti_term ti)) as Ez.
      split; [rewrite Enum; by apply sorted_postings_good|]. split.
      * intros E. apply (list_elem_of_fmap_2 ti_term), Hin in Hx. rewrite E in Ez.
        destruct (postings_of docs (ti_term ti)) as [|x l]; [done|]. rewrite zlen_cons in Ez.
        pose proof (zlen_nonneg l). change (zlen []) with 0 in Ez. lia.
      * pose proof (postings_few docs Hix (ti_term ti)). pose proof (zlen_nonneg (postings_of docs (ti_term ti))).
        split; [lia|]. by apply (data_of_blocks docs dm Hix ht ti).
    + lia.
    + unfold zlen in *. split; [lia|]. split; [lia|]. split; [lia|].
      intros ids Hids. specialize (Eids ids Hids). lia.
    + by apply docmap_docs_ranges.
  - apply Forall2_fmap_r, Forall_Forall2_diag, Forall_forall. intros ti Hx.
    destruct (Hti ti Hx) as (_ & _ & Hdp & pl & Hpl & Hl). by apply (data_of_ok docs dm Hdm Hix _ _ ti pl).
Qed.

(** The content of that segment. *)
Lemma written_terms dm terms : plan_ok (h0 terms) stats dm terms (data_of docs dm ht <$> terms) ->
  (sc_terms (plan_content stats dm terms (data_of docs dm ht <$> terms))).*1 = ti_term <$> terms.
Proof. intros _. cbn [plan_content sc_terms]. apply fst_zip. by rewrite !length_fmap. Qed.

Lemma written_docs dm terms : plan_ok (h0 terms) stats dm terms (data_of docs dm ht <$> terms) ->
  docmap_for dm docs -> NoDup (doc_ctid <$> docs) -> segment_row <$> docmap_docs ht dm ≡ₚ document_row <$> docs.
Proof.
  intros Hplan Hdm Hnd. symmetry. apply submseteq_length_Permutation.
  - apply NoDup_submseteq.
    + apply (NoDup_fmap_1 fst). by rewrite <- list_fmap_compose.
    + intros x (d & -> & Hd)%list_elem_of_fmap.
      destruct (df_doc _ _ Hdm d Hd) as (i & _ & _ & Hp & Ho & Hf & _).
      destruct (docmap_docs_lookup _ _ _ _ _ Hplan i _ _ _ Hp Ho Hf) as [t Ht].
      apply list_elem_of_fmap. eexists. split; [|by eapply list_elem_of_lookup_2]. cbn.
      unfold document_row. by destruct (doc_ctid d).
  - destruct (docmap_docs_arrays _ _ _ _ _ Hplan) as (_ & E & _). destruct (df_lengths _ _ Hdm) as [El _].
    rewrite !length_fmap, <- El, <- E, length_fmap. done.
Qed.

Definition memtable_content : segment_content :=
  match build_docmap_from_memtable state, tp_build_dictionary state with
  | Ok dm, Ok (terms, _) => plan_content stats dm terms (data_of docs dm ht <$> terms)
  | _, _ => mkContent [] [] None
  end.

(** Writing a non-empty memtable makes a segment of its documents, and keeps the
    pages that are in use. *)
Lemma tp_write_segment_ok st :
  holds state frame docs -> indexable docs -> (exists t, postings_of docs t <> []) ->
  storage_wf st -> 104 <= P -> 0 <= now < 2 ^ 64 -> segment_fits st ->
  exists dm terms block pages bs h st', let ts := data_of docs dm ht <$> terms in
    docmap_for dm docs /\ plan_ok (h0 terms) stats dm terms ts /\
    (forall t, t ∈ ti_term <$> terms <-> postings_of docs t <> []) /\
    tp_write_segment tp_compress_segments now state st = Ok (block, st') /\
    segment_written st st' block pages bs h (plan_content stats dm terms ts) /\
    next_segment h = InvalidBlockNumber /\ memtable_content = plan_content stats dm terms ts.
Proof.
  intros Hh Hix Hne Hwf HP104 Hnow Hfits.
  assert (Hdocs : docs <> []) by (intros ->; by destruct Hne).
  destruct (build_docmap_ok state frame docs Hh (ix_ctids _ Hix) Hdocs (ix_range _ Hix)) as (dm & Edm & Hdm).
  { pose proof (ix_count _ Hix). unfold UINT32_MAX. lia. }
  destruct (build_dictionary_ok state frame docs Hh) as (terms & st_same & Ed & -> & _ & Hin & _).
  pose proof (Hfits dm terms Edm Ed) as Hfit. pose proof Hfit as [H32 _ _].
  unfold tp_write_segment. rewrite Edm, Ed. cbn [mbind res_bind].
  destruct (Z.eqb_spec (zlen terms) 0) as [E0|N0].
  { exfalso. destruct terms; [|rewrite zlen_cons in E0; pose proof (zlen_nonneg terms); lia].
    destruct Hne as [t Ht]. apply Hin in Ht. by apply elem_of_nil in Ht. }
  destruct (tp_segment_writer_init_frame st Hwf) as (st1 & w1 & -> & Hi1 & Hfr1 & Hw1).
  cbn [mbind res_bind].
  set (ts := data_of docs dm ht <$> terms) in *.
  assert (Hcount : length ts = length terms) by (unfold ts; apply length_fmap).
  pose proof (positions tp_compress_segments (h0 terms) stats dm terms ts Hcount) as (He & Hp & Hs & HsD).
  pose proof (zlen_nonneg terms). pose proof data_per_page_pos.
  destruct (memtable_plan dm terms Hh Hix Hdocs Hnow Hdm Ed ltac:(lia)) as (Hplan & HF2 & _).
  destruct (sections_emitted tp_compress_segments now state dm terms ts HF2) as (bytes & Ebytes & Hem).
  rewrite app_nil_l in Ebytes. subst bytes.
  destruct (Hem ltac:(change (zlen []) with 0; lia) st1 w1 Hi1) as (st2 & w2 & -> & Hi2 & Hfr2).
  rewrite app_nil_l in Hi2. cbn [mbind res_bind].
  destruct (finish_plan tp_compress_segments (h0 terms) stats dm terms ts st _ st2 w2 final_header
    Hplan HP104 Hi2 (writer_frame_trans _ _ _ _ _ _ Hfr1 Hfr2) eq_refl Hfit)
    as (block & pages & bs & n & root & st' & Efin & Hw); [done|].
  exists dm, terms, block, pages, bs, (completed_header tp_compress_segments (h0 terms) stats dm terms ts n root), st'.
  cbv zeta. fold ts. rewrite Efin. do 5 (split; [done|]). split; [done|].
  unfold memtable_content. by rewrite Edm, Ed.
Qed.

(** The postings of a term in the segment. *)
Lemma written_postings dm terms t : plan_ok (h0 terms) stats dm terms (data_of docs dm ht <$> terms) ->
  (forall t, t ∈ ti_term <$> terms <-> postings_of docs t <> []) ->
  content_postings (plan_content stats dm terms (data_of docs dm ht <$> terms)) t = sorted_postings docs dm t.
Proof.
  intros Hplan Hin. set (c := plan_content _ _ _ _).
  assert (Eterms : (sc_terms c).*1 = ti_term <$> terms).
  { cbn [c plan_content sc_terms]. apply fst_zip. by rewrite !length_fmap. }
  destruct (decide (t ∈ ti_term <$> terms)) as [Ht|Ht].
  - apply list_elem_of_fmap in Ht as (ti & -> & Ht). apply list_elem_of_lookup in Ht as [i Hi].
    apply (content_postings_lookup c i).
    + rewrite Eterms. apply (pl_sorted _ _ _ _ _ Hplan).
    + cbn [c plan_content sc_terms]. apply lookup_zip_with_Some.
      eexists _, _. split; [reflexivity|]. by rewrite !list_lookup_fmap, Hi.
  - rewrite content_postings_none by (by rewrite Eterms).
    destruct (postings_of docs t) as [|e l] eqn:E; [|destruct Ht; apply Hin; by rewrite E].
    pose proof (sorted_postings_perm docs dm t) as Hp. rewrite E in Hp. by apply Permutation_nil_r in Hp.
Qed.

Lemma written_content dm terms : plan_ok (h0 terms) stats dm terms (data_of docs dm ht <$> terms) ->
  docmap_for dm docs -> indexable docs -> (forall t, t ∈ ti_term <$> terms <-> postings_of docs t <> []) ->
  content_of docs (plan_content stats dm terms (data_of docs dm ht <$> terms)).
Proof.
  intros Hplan Hdm Hix Hin. split.
  - by apply (written_docs dm terms); [..|apply ix_ctids].
  - intros t. unfold content_results. rewrite (written_postings dm terms t Hplan Hin).
    apply results_of_sorted; [done|]. intros i p o f. by apply (docmap_docs_lookup _ _ _ _ _ Hplan).
  - intros t. by rewrite written_terms.
Qed.
End Written.

Section Properties.
Context `{PgLayoutLaws} `{FreeSpaceMapLaws} `{ItemPointerLaws} `{QSortLaws} `{HashSeqLaws}.
Context `{DsaAllocatorLaws}.

Lemma outputs_sorted sdocs (ps : list TpBlockPosting) : StronglySorted by_doc_id ps ->
  StronglySorted (fun p q => sp_doc_id p < sp_doc_id q) (posting_result sdocs <$> ps).
Proof.
  induction 1 as [|p ps Hs IH HF]; csimpl; constructor; [done|].
  apply Forall_fmap. eapply Forall_impl; [exact HF|]. done.
Qed.

(** C15: what is indexed is found.  Writing the memtable of any documents that
    fit the format makes a segment, without touching a page in use, that opens,
    and in which for every term a search finds the term exactly when a document
    contains it and returns, in document order, one result per document with
    the document's CTID, the term's frequency and the document's quantised
    length.  Nothing is lost, duplicated or attributed to another document
    between the memtable and the pages. *)
Theorem written_segment_is_searchable (tp_compress_segments : bool) (now : Z)
    (state : TpLocalIndexState) (frame : dsa_area) (docs : list document) (st : Storage) :
  holds state frame docs -> indexable docs -> (exists t, postings_of docs t <> []) ->
  storage_wf st -> 104 <= SEGMENT_DATA_PER_PAGE -> 0 <= now < 2 ^ 64 ->
  segment_fits tp_compress_segments now state docs st ->
  exists block st' r,
    tp_write_segment tp_compress_segments now state st = Ok (block, st') /\
    storage_wf st' /\
    (forall b, in_relation st b -> b ∉ st_fsm st -> page_data st' b = page_data st b) /\
    tp_segment_open_ex st' block true = Ok (Some r) /\
    forall (t : list byte) (fuel : nat), (length docs < fuel)%nat ->
      ensures (@search TpSegmentReader (reader_access st') _ t fuel) r (fun res _ =>
        (res.1 = true <-> postings_of docs (c_str t) <> []) /\
        result_triple <$> res.2 ≡ₚ expected_results docs (c_str t) /\
        StronglySorted (fun p q => sp_doc_id p < sp_doc_id q) res.2).
Proof.
  intros Hh Hix Hne Hwf HP Hnow Hfits.
  destruct (tp_write_segment_ok tp_compress_segments now state frame docs st Hh Hix Hne Hwf HP Hnow Hfits)
    as (dm & terms & block & pages & bs & h & st' & Hdm & Hplan & Hin & Ew & [Hseg Hmono Hkeep _ _ _] & _ & _).
  destruct (open_segment_at st' block pages bs h _ true Hseg HP) as (r & Eopen & Hrok & Hrh & Hrc).
  exists block, st', r. split; [done|]. split; [apply (sp_wf _ _ _ _ _ (sa_pages _ _ _ _ _ _ Hseg))|].
  split; [intros x ? ?; by apply page_at_data, Hkeep|]. split; [done|]. intros t fuel Hfuel.
  pose proof (written_postings now state docs dm terms (c_str t) Hplan Hin) as Ep.
  pose proof (zlen_sorted_postings docs dm (c_str t)) as Ez. pose proof (postings_few docs Hix (c_str t)).
  eapply ensures_mono.
  { apply (search_segment_ok st' block pages bs h _ r t fuel Hseg Hrok Hrh Hrc). rewrite Ep, Ez.
    unfold zlen in *. lia. }
  intros [found out] r' [Hfound Hout]. cbn [fst snd] in *. rewrite Hout, Ep in *. split; [|split].
  - rewrite Hfound. pose proof (sorted_postings_perm docs dm (c_str t)) as Hp. split; intros Hx E; apply Hx.
    + rewrite E in Hp. by apply Permutation_nil_r in Hp.
    + rewrite E in Hp. symmetry in Hp. apply Permutation_nil_r in Hp. by apply fmap_nil_inv in Hp.
  - apply results_of_sorted; [done|]. intros i p o f. by apply (docmap_docs_lookup _ _ _ _ _ Hplan).
  - by apply outputs_sorted, sorted_postings_sorted.
Qed.
End Properties.

(** ** Witnesses *)

Section Witnesses.
#[local] Existing Instances max_allocator max_allocator_laws first_fit first_fit_laws.

(** The memtable after the documents are added. *)
Definition indexed_state (docs : list document) : TpLocalIndexState :=
  match add_documents docs (demo_state false demo_frame) with
  | Ok (_, st) => st
  | Err _ => demo_state false demo_frame
  end.

Lemma indexed_state_holds docs : corpus_bounded (demo_state false demo_frame) docs ->
  holds (indexed_state docs) demo_frame docs.
Proof.
  intros (HF & HL & Hs & Hd0 & Hd1 & Hl0 & Hl1). unfold indexed_state.
  destruct (add_documents_ok docs (demo_state false demo_frame) demo_frame [])
    as ([] & st' & -> & Hh & _); [apply demo_state_holds|done..].
Qed.

(** A relation with a metapage, the page of another segment and a free page. *)
Definition relation_with (contents_2 : list byte) `{PgLayout} : Storage :=
  mkStorage [PageInit 0; PageInit 0; mkPage 256 contents_2] [1] 0.

Definition demo_relation : Storage := @relation_with (replicate 232 x41) wide_layout.

Section Fits.
Context `{PgLayoutLaws}.

(** [segment_fits], decided. *)
Definition data_fits_bool (b : bool) (skips_start : Z) (data : list byte) (st : Storage) : bool :=
  (zlen data <? 2 ^ 32 - SEGMENT_DATA_PER_PAGE) &&
  (nblocks st + 2 * (zlen data / SEGMENT_DATA_PER_PAGE + 1) <=? InvalidBlockNumber) &&
  (negb b || (skips_start + TP_MAX_COMPRESSED_BLOCK_SIZE <=? size_rounded data)).

Lemma data_fits_decided b o data st : data_fits_bool b o data st = true -> data_fits b o data st.
Proof.
  unfold data_fits_bool. intros [[E1 E2]%andb_true_iff E3]%andb_true_iff.
  apply Z.ltb_lt in E1. apply Z.leb_le in E2. split; [done|done|]. intros ->. by apply Z.leb_le.
Qed.

Definition segment_fits_bool (b : bool) (now : Z) (state : TpLocalIndexState)
    (docs : list document) (st : Storage) : bool :=
  match build_docmap_from_memtable state, tp_build_dictionary state with
  | Ok dm, Ok (terms, _) =>
      let stats := state_stats state in
      let h0 := initial_header now (zlen terms) state in
      let ts := data_of docs dm (has_tenants_table stats) <$> terms in
      data_fits_bool b (zlen (to_skips b h0 terms ts)) (segment_bytes b h0 stats dm terms ts) st
  | _, _ => false
  end.

Lemma segment_fits_decided b now state docs st :
  segment_fits_bool b now state docs st = true -> segment_fits b now state docs st.
Proof.
  unfold segment_fits_bool, segment_fits. intros E dm terms Edm Ed. rewrite Edm, Ed in E.
  by apply data_fits_decided.
Qed.
End Fits.

#[local] Existing Instances wide_layout wide_layout_laws.

Lemma demo_relation_wf : storage_wf demo_relation.
Proof. split; [forall_compute|forall_compute|apply NoDup_singleton|by vm_compute]. Qed.

Lemma demo_indexable : indexable demo_documents.
Proof.
  split.
  - vm_compute. repeat (apply NoDup_cons; split; [set_solver|]). apply NoDup_nil_2.
  - repeat (apply Forall_cons; split;
      [vm_compute; repeat (apply NoDup_cons; split; [set_solver|]); apply NoDup_nil_2|]).
    by apply Forall_nil.
  - by vm_compute.
  - forall_compute.
Qed.

Lemma written_segment_is_searchable_witness :
  exists block st' r,
    tp_write_segment false 7 (indexed_state demo_documents) demo_relation = Ok (block, st') /\
    page_data st' 2 = replicate 232 x41 /\
    tp_segment_open_ex st' block true = Ok (Some r) /\
    ensures (@search TpSegmentReader (reader_access st') _ [x61] 4) r (fun res _ =>
      res.1 = true /\ result_triple <$> res.2 ≡ₚ
        [(mkItemPointer 0 1, 2, 3); (mkItemPointer 0 2, 4, 4)]).
Proof.
  destruct (written_segment_is_searchable false 7 (indexed_state demo_documents) demo_frame
    demo_documents demo_relation) as (block & st' & r & Ew & _ & Hkeep & Eo & Hsearch).
  - exact (indexed_state_holds _ (demo_corpus false demo_frame)).
  - exact demo_indexable.
  - exists [x61]. vm_compute. discriminate.
  - exact demo_relation_wf.
  - vm_compute. discriminate.
  - vm_compute. split; [discriminate|reflexivity].
  - apply segment_fits_decided. vm_compute. reflexivity.
  - exists block, st', r. split; [exact Ew|]. split.
    { rewrite Hkeep; [vm_compute; reflexivity|vm_compute; split; [discriminate|reflexivity]|].
      intros Hx. apply list_elem_of_singleton in Hx. discriminate. }
    split; [exact Eo|]. eapply ensures_mono; [apply (Hsearch [x61] 4%nat); vm_compute; lia|].
    intros res r' (Hf & Hres & _). split; [apply Hf; vm_compute; discriminate|exact Hres].
Defined.

(** ** A compressed segment that cannot be read

    With the standard page size: one document with thirty long lexemes. *)
Definition long_terms : list (list byte) :=
  (fun c => byte_of_Z c :: replicate (Z.to_nat 219) x61) <$> seqZ 1 30.
Definition long_documents : list document :=
  [mkDocument (mkItemPointer 0 1) long_terms (replicate 30 1) 30 0].

End Witnesses.
