(* ===== verification/Bmw.v ===== *)
(** * Top-k scoring with block-max pruning (src/query/bmw.c, rust/src/scoring.rs)

    Single-term queries: the memtable is scored exhaustively, the segments block
    by block, and a block is skipped when its bound cannot enter the heap.
    Multi-term queries: WAND over the terms of each segment, with the block
    bounds as a second filter.  The functions follow the C ones; the segment is
    reached through the interface of SegmentScan, and the heap is that of TopK.

    The loops that are not structurally recursive take fuel; when it runs out the
    loop stops with [OUT_OF_FUEL], an error the code does not have, so that every
    theorem about a result also shows that the loop ends. *)
From S2P Require Import Prelude Postgres Float4 Fieldnorm TopK SegmentFormat Docmap.
From S2P Require Import SegmentScan Memtable.

Record TpBMWStats := mkBMWStats {
  blocks_scanned : Z;
  blocks_skipped : Z;
  memtable_docs : Z;
  segment_docs_scored : Z;
  docs_in_results : Z;
  seeks_performed : Z;
}.

Definition initial_stats : TpBMWStats := mkBMWStats 0 0 0 0 0 0.
Definition count_scanned (s : TpBMWStats) : TpBMWStats :=
  mkBMWStats (u64 (blocks_scanned s + 1)) (blocks_skipped s) (memtable_docs s)
    (segment_docs_scored s) (docs_in_results s) (seeks_performed s).
Definition count_skipped (s : TpBMWStats) : TpBMWStats :=
  mkBMWStats (blocks_scanned s) (u64 (blocks_skipped s + 1)) (memtable_docs s)
    (segment_docs_scored s) (docs_in_results s) (seeks_performed s).
Definition count_memtable (s : TpBMWStats) : TpBMWStats :=
  mkBMWStats (blocks_scanned s) (blocks_skipped s) (u64 (memtable_docs s + 1))
    (segment_docs_scored s) (docs_in_results s) (seeks_performed s).
Definition count_scored (s : TpBMWStats) : TpBMWStats :=
  mkBMWStats (blocks_scanned s) (blocks_skipped s) (memtable_docs s)
    (u64 (segment_docs_scored s + 1)) (docs_in_results s) (seeks_performed s).
Definition count_seek (s : TpBMWStats) : TpBMWStats :=
  mkBMWStats (blocks_scanned s) (blocks_skipped s) (memtable_docs s)
    (segment_docs_scored s) (docs_in_results s) (u64 (seeks_performed s + 1)).
Definition set_results (n : Z) (s : TpBMWStats) : TpBMWStats :=
  mkBMWStats (blocks_scanned s) (blocks_skipped s) (memtable_docs s)
    (segment_docs_scored s) n (seeks_performed s).

(** What the scoring loops update: the heap, and the statistics when the caller
    passes them. *)
Abbreviation scoring_state := (TpTopKHeap * option TpBMWStats)%type.

(** ** Block bounds *)

(** [block_max_score] of scoring.rs, on the maximal frequency and the fieldnorm
    a skip entry records. *)
Definition block_max_score (max_tf max_norm : Z) (idf k1 b avgdl : float4) : float4 :=
  let tf := f4_of_Z max_tf in
  let dl := f4_of_Z (decode_fieldnorm max_norm) in
  let len_norm := f4_add (f4_sub f4_one b) (f4_mul b (f4_div dl avgdl)) in
  let tf_component := f4_div (f4_mul tf (f4_add k1 f4_one)) (f4_add tf (f4_mul k1 len_norm)) in
  f4_mul idf tf_component.

Definition tp_compute_block_max_score (skip : TpSkipEntry) (idf k1 b avg_doc_len : float4)
    : float4 :=
  block_max_score (sk_block_max_tf skip) (sk_block_max_norm skip) idf k1 b avg_doc_len.

(** [tenant_avgdl], [tenant_idf] of scoring.rs *)
Definition tenant_avgdl (tenant_total_tokens tenant_num_docs : Z) : float4 :=
  if tenant_num_docs =? 0 then f4_of_Z 0
  else f4_div (f4_of_Z tenant_total_tokens) (f4_of_Z tenant_num_docs).

Definition tenant_idf (ln : float8 -> float8) (tenant_doc_freq tenant_total_docs : Z) : float4 :=
  calculate_idf ln (i32 tenant_doc_freq) (i32 tenant_total_docs).

(** ** Single-term scoring *)

Section Memtable.
Context `{ItemPointerOps} `{DsaAllocator} `{HashSeq}.
Context (k1 b avg_doc_len : float4) (tenant_id : Z).

(** The tenant filter on the posting at index [i]. *)
Definition other_tenant (postings : TpPostingData) (i : Z) : res bool :=
  match pd_tenant_ids postings with
  | Some ids =>
      if tenant_id =? 0 then Ok false
      else tid ← zread ids i; Ok (negb (tid =? tenant_id))
  | None => Ok false
  end.

(** [tp_source_get_doc_length], with the fallback for a missing entry. *)
Definition source_doc_length (source : TpDataSource) (ctid : ItemPointerData)
    : rst TpLocalIndexState Z :=
  doc_len ← get_doc_length source ctid;
  mret (if doc_len <=? 0 then 1 else doc_len).

(** [for (i = 0; i < postings->count; i++)] *)
Fixpoint score_memtable_postings (n : nat) (i : Z) (source : TpDataSource)
    (postings : TpPostingData) (idf : float4) (acc : scoring_state)
    : rst TpLocalIndexState scoring_state :=
  match n with
  | O => mret acc
  | S n' =>
      ctid ← rst_lift (zread (pd_ctids postings) i);
      tf ← rst_lift (zread (pd_frequencies postings) i);
      other ← rst_lift (other_tenant postings i);
      if (other : bool) then score_memtable_postings n' (i + 1) source postings idf acc
      else
        doc_len ← source_doc_length source ctid;
        let score := bm25_score idf tf doc_len k1 b avg_doc_len in
        let '(heap, stats) := acc in
        let heap1 := if tp_topk_dominated heap score then heap
                     else tp_topk_add_memtable heap ctid score in
        score_memtable_postings n' (i + 1) source postings idf (heap1, count_memtable <$> stats)
  end.

Definition score_memtable_single_term (acc : scoring_state) (term : list byte) (idf : float4)
    : rst TpLocalIndexState scoring_state :=
  source ← tp_memtable_source_create;
  postings ← get_postings source term;
  match postings with
  | None => mret acc
  | Some ps =>
      if pd_count ps =? 0 then mret acc
      else score_memtable_postings (Z.to_nat (pd_count ps)) 0 source ps idf acc
  end.
End Memtable.

Section SingleTerm.
Context {R : Type} `{SegmentAccess R} `{ItemPointerOps}.
(** [reader->root_block], and the parameters of the query. *)
Context (root_block : Z) (idf k1 b avg_doc_len : float4).
Context (tenant_id min_doc_id max_doc_id : Z).

(** The skip entries of a term, read in order. *)
Fixpoint read_skip_entries (de : TpDictEntry) (n : nat) (i : Z) : rst R (list TpSkipEntry) :=
  match n with
  | O => mret []
  | S n' =>
      skip ← tp_segment_read_skip_entry de i;
      rest ← read_skip_entries de n' (i + 1);
      mret (skip :: rest)
  end.

(** The filter that is applied to documents only when the tenant's range is not
    known. *)
Definition wrong_tenant (doc_id : Z) : rst R bool :=
  if negb (tenant_id =? 0) && (max_doc_id =? UINT32_MAX)
  then tid ← stenant_id doc_id; mret (negb (tid =? tenant_id))
  else mret false.

(** A single-tenant block of another tenant; a match of the low 16 bits is
    inconclusive. *)
Definition other_tenant_block (skip : TpSkipEntry) : bool :=
  (sk_tenant_mode skip =? TP_TENANT_MODE_SINGLE)
  && negb (sk_tenant_low16 skip =? Z.land tenant_id 0xFFFF).

(** The three tests that skip block [i] before it is loaded. *)
Definition skips_block (threshold block_max : float4) (skip : TpSkipEntry) : bool :=
  (sk_last_doc_id skip <? min_doc_id)
  || f4_lt block_max threshold
  || (negb (tenant_id =? 0) && other_tenant_block skip).

Definition score_posting (heap : TpTopKHeap) (posting : TpSegmentPosting) : TpTopKHeap :=
  let score := bm25_score idf (sp_frequency posting) (sp_doc_length posting) k1 b avg_doc_len in
  if tp_topk_dominated heap score then heap
  else tp_topk_add_segment heap root_block (sp_doc_id posting) score.

(** [while (next(&iter, &posting))] on block [i]. *)
Fixpoint score_block (fuel : nat) (i : Z) (it : TpSegmentPostingIterator) (acc : scoring_state)
    : rst R (TpSegmentPostingIterator * scoring_state) :=
  match fuel with
  | O => rst_fail OUT_OF_FUEL
  | S fuel' =>
      '(posting, it1) ← tp_segment_posting_iterator_next it;
      match posting with
      | None => mret (it1, acc)
      | Some p =>
          if negb (it_current_block it1 =? i) then mret (it1, acc)
          else if max_doc_id <? sp_doc_id p then mret (it1, acc)
          else if sp_doc_id p <? min_doc_id then score_block fuel' i it1 acc
          else
            wrong ← wrong_tenant (sp_doc_id p);
            if (wrong : bool) then score_block fuel' i it1 acc
            else score_block fuel' i it1 (score_posting acc.1 p, count_scored <$> acc.2)
      end
  end.

(** A block has at most 255 postings ([doc_count] is a byte). *)
Definition block_fuel : nat := 257.

(** [for (i = 0; i < block_count; i++)], over the cached skip entries. *)
Fixpoint score_blocks (skips : list TpSkipEntry) (i : Z) (it : TpSegmentPostingIterator)
    (acc : scoring_state) : rst R scoring_state :=
  match skips with
  | [] => mret acc
  | skip :: skips' =>
      let threshold := tp_topk_threshold acc.1 in
      let block_max := tp_compute_block_max_score skip idf k1 b avg_doc_len in
      if skips_block threshold block_max skip
      then score_blocks skips' (i + 1) it (acc.1, count_skipped <$> acc.2)
      else
        '(_, it1) ← tp_segment_posting_iterator_load_block
                      (set_position it false i (it_current_in_block it));
        '(it2, acc2) ← score_block block_fuel i it1 (acc.1, count_scanned <$> acc.2);
        score_blocks skips' (i + 1) it2 acc2
  end.

Definition score_segment_single_term_bmw (acc : scoring_state) (term : list byte)
    : rst R scoring_state :=
  '(found, it) ← tp_segment_posting_iterator_init term;
  if negb found then mret acc
  else
    let block_count := de_block_count (it_dict_entry it) in
    skips ← read_skip_entries (it_dict_entry it) (Z.to_nat block_count) 0;
    score_blocks skips 0 it acc.
End SingleTerm.

(** ** From segments to a query *)

Section Query.
Context {R : Type} `{SegmentAccess R} `{ItemPointerOps} `{DsaAllocator} `{HashSeq} `{QSort}.
(** [tp_segment_open] ([None] is NULL), [reader->root_block], and the look-up of a
    CTID in the segment at a block, for [tp_topk_resolve_ctids]. *)
Context (segment_open : Z -> res (option R)) (reader_root_block : R -> Z).
Context (open_ex : Z -> option (Z -> ItemPointerData)).
(** A chain has at most as many segments as the relation has blocks. *)
Context (chain_fuel : nat).

(** [while (seg_head != InvalidBlockNumber)]; a NULL reader is dereferenced. *)
Fixpoint score_chain {A} (fuel : nat) (f : A -> rst R A) (seg_head : Z) (acc : A) : res A :=
  match fuel with
  | O => Err OUT_OF_FUEL
  | S fuel' =>
      if seg_head =? InvalidBlockNumber then Ok acc
      else
        reader ← segment_open seg_head;
        match reader with
        | None => Err OUT_OF_BOUNDS_ACCESS
        | Some r =>
            '(acc', r') ← f acc r;
            score_chain fuel' f (next_segment (sheader r')) acc'
        end
  end.

(** [for (level = 0; level < TP_MAX_LEVELS; level++)] *)
Fixpoint score_levels {A} (f : A -> rst R A) (level_heads : list Z) (acc : A) : res A :=
  match level_heads with
  | [] => Ok acc
  | head :: heads => acc' ← score_chain chain_fuel f head acc; score_levels f heads acc'
  end.

(** The documents of the tenant in a segment: everything when there is no tenant
    or the segment is not ordered by tenant, the tenant's range, or nothing. *)
Definition segment_range (tenant_id : Z) : rst R (option (Z * Z)) :=
  header ← rst_gets sheader;
  if negb (tenant_id =? 0) && negb (Z.land (flags header) TP_FLAG_TENANT_ORDERED =? 0)
  then tp_segment_get_tenant_doc_range tenant_id
  else mret (Some (0, UINT32_MAX)).

Definition score_one_segment (term : list byte) (idf k1 b avg_doc_len : float4) (tenant_id : Z)
    (acc : scoring_state) : rst R scoring_state :=
  root_block ← rst_gets reader_root_block;
  range ← segment_range tenant_id;
  match range with
  | None => mret acc
  | Some (seg_min, seg_max) =>
      score_segment_single_term_bmw root_block idf k1 b avg_doc_len tenant_id seg_min seg_max
        acc term
  end.

(** Resolve the CTIDs and extract: the end of both query functions. *)
Definition finish_query (acc : scoring_state)
    : list (ItemPointerData * float4) * option TpBMWStats :=
  let '(results, _) := tp_topk_extract (tp_topk_resolve_ctids open_ex acc.1) in
  (results, set_results (zlen results) <$> acc.2).

(** [level_heads] is the metapage's; [with_stats] tells whether [stats] is not
    NULL. *)
Definition tp_score_single_term_bmw (local_state : TpLocalIndexState) (level_heads : list Z)
    (term : list byte) (idf k1 b avg_doc_len : float4) (max_results : nat) (with_stats : bool)
    (tenant_id : Z) : res (list (ItemPointerData * float4) * option TpBMWStats) :=
  let stats := if with_stats then Some initial_stats else None in
  '(acc, _) ← score_memtable_single_term k1 b avg_doc_len tenant_id
                (tp_topk_init max_results, stats) term idf local_state;
  acc' ← score_levels (score_one_segment term idf k1 b avg_doc_len tenant_id) level_heads acc;
  Ok (finish_query acc').
End Query.

(** ** Multi-term scoring *)

(** The state of a query term; the two arrays are cached from the skip entries of
    the current segment ([None] is NULL). *)
Record TpTermState := mkTermState {
  ts_term : list byte;
  ts_idf : float4;
  ts_query_freq : Z;
  ts_max_score : float4;
  ts_found : bool;
  ts_iter : TpSegmentPostingIterator;
  ts_block_max_scores : option (list float4);
  ts_block_last_doc_ids : option (list Z);
}.

Definition set_iter (ts : TpTermState) (it : TpSegmentPostingIterator) : TpTermState :=
  mkTermState (ts_term ts) (ts_idf ts) (ts_query_freq ts) (ts_max_score ts) (ts_found ts) it
    (ts_block_max_scores ts) (ts_block_last_doc_ids ts).

Definition term_current_doc_id (ts : TpTermState) : Z :=
  if negb (ts_found ts) || it_finished (ts_iter ts) then UINT32_MAX
  else tp_segment_posting_iterator_current_doc_id (ts_iter ts).

(** [ts->iter.block_postings[ts->iter.current_in_block]] *)
Definition current_posting (it : TpSegmentPostingIterator) : res TpBlockPosting :=
  zread (default [] (it_block_postings it)) (it_current_in_block it).

Section MemtableTerms.
Context `{ItemPointerOps} `{DsaAllocator} `{HashSeq}.
Context (k1 b avg_doc_len : float4) (tenant_id : Z).

Abbreviation doc_scores := (gmap ItemPointerData DocumentScoreEntry).

(** A term's contribution to a document. *)
Definition term_contribution (ts : TpTermState) (tf doc_len : Z) : float4 :=
  f4_mul (bm25_score (ts_idf ts) tf doc_len k1 b avg_doc_len) (f4_of_Z (ts_query_freq ts)).

Definition accumulate_score (doc_accum : doc_scores) (ctid : ItemPointerData)
    (term_score : float4) (doc_len : Z) : doc_scores :=
  match doc_accum !! ctid with
  | None => <[ctid := mkDocumentScore term_score (f4_of_Z doc_len)]> doc_accum
  | Some e =>
      <[ctid := mkDocumentScore (f4_add (dse_score e) term_score) (dse_doc_length e)]> doc_accum
  end.

Fixpoint accumulate_postings (n : nat) (i : Z) (source : TpDataSource)
    (postings : TpPostingData) (ts : TpTermState) (doc_accum : doc_scores)
    : rst TpLocalIndexState doc_scores :=
  match n with
  | O => mret doc_accum
  | S n' =>
      ctid ← rst_lift (zread (pd_ctids postings) i);
      tf ← rst_lift (zread (pd_frequencies postings) i);
      other ← rst_lift (other_tenant tenant_id postings i);
      if (other : bool) then accumulate_postings n' (i + 1) source postings ts doc_accum
      else
        doc_len ← source_doc_length source ctid;
        accumulate_postings n' (i + 1) source postings ts
          (accumulate_score doc_accum ctid (term_contribution ts tf doc_len) doc_len)
  end.

Fixpoint accumulate_terms (source : TpDataSource) (terms : list TpTermState)
    (doc_accum : doc_scores) : rst TpLocalIndexState doc_scores :=
  match terms with
  | [] => mret doc_accum
  | ts :: terms' =>
      postings ← get_postings source (ts_term ts);
      doc_accum' ←
        match postings with
        | None => mret doc_accum
        | Some ps =>
            if pd_count ps =? 0 then mret doc_accum
            else accumulate_postings (Z.to_nat (pd_count ps)) 0 source ps ts doc_accum
        end;
      accumulate_terms source terms' doc_accum'
  end.

(** The accumulated documents enter the heap in the order of the table. *)
Definition add_accumulated (acc : scoring_state) (e : ItemPointerData * DocumentScoreEntry)
    : scoring_state :=
  let heap := acc.1 in
  (if tp_topk_dominated heap (dse_score e.2) then heap
   else tp_topk_add_memtable heap e.1 (dse_score e.2), count_memtable <$> acc.2).

Definition score_memtable_multi_term (acc : scoring_state) (terms : list TpTermState)
    : rst TpLocalIndexState scoring_state :=
  source ← tp_memtable_source_create;
  doc_accum ← accumulate_terms source terms ∅;
  mret (foldl add_accumulated acc (hash_seq doc_accum)).
End MemtableTerms.

(** *** Positions in the posting lists *)

Section Terms.
Context {R : Type} `{SegmentAccess R} `{ItemPointerOps} `{QSort}.

(** [current_block++], and the block is loaded unless it is past the last; whether
    there was a block to load. *)
Definition load_next_block (it : TpSegmentPostingIterator)
    : rst R (bool * TpSegmentPostingIterator) :=
  let it1 := set_position it (it_finished it) (it_current_block it + 1) (it_current_in_block it) in
  if de_block_count (it_dict_entry it) <=? it_current_block it1
  then mret (false, set_position it1 true (it_current_block it1) (it_current_in_block it1))
  else
    '(_, it2) ← tp_segment_posting_iterator_load_block
                  (set_position it1 (it_finished it1) (it_current_block it1) 0);
    mret (true, it2).

Definition advance_term_iterator (ts : TpTermState) : rst R (bool * TpTermState) :=
  let it := ts_iter ts in
  let it1 := set_position it (it_finished it) (it_current_block it) (it_current_in_block it + 1) in
  if sk_doc_count (it_skip_entry it1) <=? it_current_in_block it1 then
    '(ok, it2) ← load_next_block it1;
    mret (ok, set_iter ts it2)
  else mret (true, set_iter ts it1).

(** Binary search: the first block after the current one whose last document is
    not below the target, or the last block. *)
Fixpoint search_last_doc_ids (fuel : nat) (last_doc_ids : list Z) (target left right : Z) : res Z :=
  match fuel with
  | O => Err OUT_OF_FUEL
  | S fuel' =>
      if left <? right then
        let mid := left + (right - left) / 2 in
        last_doc_id ← zread last_doc_ids mid;
        if last_doc_id <? target
        then search_last_doc_ids fuel' last_doc_ids target (mid + 1) right
        else search_last_doc_ids fuel' last_doc_ids target left mid
      else Ok left
  end.

(** The linear scan inside the loaded block; past its end, the next block. *)
Definition scan_loaded_block (ts : TpTermState) (it : TpSegmentPostingIterator) (target : Z)
    : rst R (bool * TpTermState) :=
  let doc_count := sk_doc_count (it_skip_entry it) in
  i ← rst_lift (scan_block (default [] (it_block_postings it)) target (it_current_in_block it)
                  doc_count (Z.to_nat doc_count));
  let it1 := set_position it (it_finished it) (it_current_block it) i in
  if i <? doc_count then mret (true, set_iter ts it1)
  else
    '(ok, it2) ← load_next_block it1;
    mret (ok && negb (it_finished it2), set_iter ts it2).

Definition seek_term_to_doc (ts : TpTermState) (target_doc_id : Z) : rst R (bool * TpTermState) :=
  let it := ts_iter ts in
  if negb (ts_found ts) || it_finished it then mret (false, ts)
  else if target_doc_id <=? sk_last_doc_id (it_skip_entry it) then
    scan_loaded_block ts it target_doc_id
  else
    let block_count := de_block_count (it_dict_entry it) in
    left ← rst_lift (search_last_doc_ids (S (Z.to_nat block_count))
                       (default [] (ts_block_last_doc_ids ts)) target_doc_id
                       (it_current_block it + 1) (block_count - 1));
    let target_block := u16 left in
    if block_count <=? target_block
    then mret (false, set_iter ts (set_position it true (it_current_block it)
                                     (it_current_in_block it)))
    else
      '(ok, it1) ← tp_segment_posting_iterator_load_block
                     (set_position it (it_finished it) target_block 0);
      if negb ok
      then mret (false, set_iter ts (set_position it1 true (it_current_block it1)
                                       (it_current_in_block it1)))
      else scan_loaded_block ts it1 target_doc_id.

Context (k1 b avg_doc_len : float4).

(** What [init_segment_term_states] does for one term: whether its iterator is
    active, and its state for the segment. *)
Definition init_term_state (ts : TpTermState) : rst R (bool * TpTermState) :=
  '(found, it) ← tp_segment_posting_iterator_init (ts_term ts);
  if negb found
  then mret (false, mkTermState (ts_term ts) (ts_idf ts) (ts_query_freq ts) (f4_of_Z 0)
                      false it None None)
  else
    let de := it_dict_entry it in
    '(max_score, scores, last_ids) ←
      (if 0 <? de_block_count de then
         skips ← read_skip_entries de (Z.to_nat (de_block_count de)) 0;
         let scores := (fun skip => tp_compute_block_max_score skip (ts_idf ts) k1 b avg_doc_len)
                         <$> skips in
         let max_score := foldl (fun m s => if f4_gt s m then s else m) (f4_of_Z 0) scores in
         mret (f4_mul max_score (f4_of_Z (ts_query_freq ts)), Some scores,
               Some (sk_last_doc_id <$> skips))
       else mret (f4_of_Z 0, None, None));
    '(loaded, it1) ← tp_segment_posting_iterator_load_block it;
    mret (loaded, mkTermState (ts_term ts) (ts_idf ts) (ts_query_freq ts) max_score true it1
                    scores last_ids).

(** The active iterators are counted. *)
Fixpoint init_segment_term_states (terms : list TpTermState) : rst R (Z * list TpTermState) :=
  match terms with
  | [] => mret (0, [])
  | ts :: terms' =>
      '(active, ts1) ← init_term_state ts;
      '(active_count, terms1) ← init_segment_term_states terms';
      mret ((if (active : bool) then 1 else 0) + active_count, ts1 :: terms1)
  end.

Definition compare_term_doc_id (ta tb : TpTermState) : Z :=
  if term_current_doc_id ta <? term_current_doc_id tb then -1
  else if term_current_doc_id tb <? term_current_doc_id ta then 1 else 0.

Definition sort_terms_by_doc_id (terms : list TpTermState) : list TpTermState :=
  qsort compare_term_doc_id terms.

(** [ts] moves right past the terms whose document is below its own. *)
Fixpoint move_right (ts : TpTermState) (rest : list TpTermState) : list TpTermState :=
  match rest with
  | [] => [ts]
  | t :: rest' =>
      if term_current_doc_id ts <=? term_current_doc_id t then ts :: rest
      else t :: move_right ts rest'
  end.

Definition restore_ordering (terms : list TpTermState) (ord : nat) : list TpTermState :=
  match drop ord terms with
  | ts :: rest => take ord terms ++ move_right ts rest
  | [] => terms
  end.

(** *** The pivot *)

Fixpoint count_at_doc (terms : list TpTermState) (doc_id : Z) : nat :=
  match terms with
  | ts :: terms' => if term_current_doc_id ts =? doc_id then S (count_at_doc terms' doc_id) else 0
  | [] => 0
  end.

(** The pivot's length and document. *)
Fixpoint find_pivot_from (terms : list TpTermState) (i : nat) (accumulated threshold : float4)
    : option (nat * Z) :=
  match terms with
  | [] => None
  | ts :: terms' =>
      let doc_id := term_current_doc_id ts in
      if doc_id =? UINT32_MAX then None
      else
        let accumulated' := f4_add accumulated (ts_max_score ts) in
        if f4_gt accumulated' threshold
        then Some (S i + count_at_doc terms' doc_id, doc_id)%nat
        else find_pivot_from terms' (S i) accumulated' threshold
  end.

Definition find_wand_pivot (terms : list TpTermState) (threshold : float4) : option (nat * Z) :=
  find_pivot_from terms 0 (f4_of_Z 0) threshold.

(** The loop over the pivot terms of [compute_block_max_at_pivot]. *)
Fixpoint add_block_bounds (pivot_terms : list TpTermState) (upper_bound : float4) : res float4 :=
  match pivot_terms with
  | [] => Ok upper_bound
  | ts :: rest =>
      let it := ts_iter ts in
      if negb (ts_found ts) || it_finished it then add_block_bounds rest upper_bound
      else match ts_block_max_scores ts with
           | None => add_block_bounds rest upper_bound
           | Some scores =>
               if it_current_block it <? de_block_count (it_dict_entry it) then
                 s ← zread scores (it_current_block it);
                 add_block_bounds rest
                   (f4_add upper_bound (f4_mul s (f4_of_Z (ts_query_freq ts))))
               else add_block_bounds rest upper_bound
           end
  end.

Definition compute_block_max_at_pivot (terms : list TpTermState) (pivot_len : nat) : res float4 :=
  add_block_bounds (take pivot_len terms) (f4_of_Z 0).

Record scorer_choice := mkChoice {
  best_scorer : option nat;
  best_max_score : float4;
  min_block_end : Z;
}.

(** The first loop of [block_max_skip_advance]. *)
Fixpoint choose_scorer (pivot_terms : list TpTermState) (i : nat) (c : scorer_choice)
    : res scorer_choice :=
  match pivot_terms with
  | [] => Ok c
  | ts :: rest =>
      if term_current_doc_id ts =? UINT32_MAX then choose_scorer rest (S i) c
      else
        let c1 := if f4_gt (ts_max_score ts) (best_max_score c)
                  then mkChoice (Some i) (ts_max_score ts) (min_block_end c) else c in
        let it := ts_iter ts in
        match ts_block_last_doc_ids ts with
        | Some ids =>
            if it_current_block it <? de_block_count (it_dict_entry it) then
              block_last ← zread ids (it_current_block it);
              choose_scorer rest (S i)
                (mkChoice (best_scorer c1) (best_max_score c1)
                   (if block_last <? min_block_end c1 then block_last else min_block_end c1))
            else choose_scorer rest (S i) c1
        | None => choose_scorer rest (S i) c1
        end
  end.

(** [terms[i]] *)
Definition term_at (terms : list TpTermState) (i : nat) : res TpTermState :=
  match terms !! i with Some ts => Ok ts | None => Err OUT_OF_BOUNDS_ACCESS end.

(** Seek the term at [i] and count it out when it is exhausted. *)
Definition seek_at (terms : list TpTermState) (i : nat) (target active_count : Z)
    : rst R (bool * (list TpTermState * Z)) :=
  ts ← rst_lift (term_at terms i);
  '(ok, ts1) ← seek_term_to_doc ts target;
  mret (ok, (<[i := ts1]> terms, if (ok : bool) then active_count else active_count - 1)).

Definition block_max_skip_advance (terms : list TpTermState) (pivot_len : nat)
    (active_count : Z) (stats : option TpBMWStats)
    : rst R (list TpTermState * Z * option TpBMWStats) :=
  c ← rst_lift (choose_scorer (take pivot_len terms) 0 (mkChoice None (f4_of_Z (-1)) UINT32_MAX));
  match best_scorer c with
  | None => mret (terms, active_count, stats)
  | Some best =>
      ts ← rst_lift (term_at terms best);
      let past := u32 ((if min_block_end c =? UINT32_MAX then term_current_doc_id ts
                        else min_block_end c) + 1) in
      let seek_target :=
        match terms !! pivot_len with
        | Some next => if term_current_doc_id next <? past then term_current_doc_id next else past
        | None => past
        end in
      '(_, (terms1, active1)) ← seek_at terms best seek_target active_count;
      mret (restore_ordering terms1 best, active1, (fun s => count_seek (count_skipped s)) <$> stats)
  end.

(** [for (i = 0; i < pivot_len; i++)], where [i] stays put after a seek. *)
Fixpoint seek_pivot_loop (fuel : nat) (terms : list TpTermState) (pivot_len : nat)
    (pivot_doc_id : Z) (i : nat) (active_count : Z) : rst R (bool * (list TpTermState * Z)) :=
  match fuel with
  | O => rst_fail OUT_OF_FUEL
  | S fuel' =>
      if (i <? pivot_len)%nat then
        ts ← rst_lift (term_at terms i);
        let doc_id := term_current_doc_id ts in
        if doc_id =? UINT32_MAX then mret (false, (terms, active_count - 1))
        else if doc_id <? pivot_doc_id then
          '(ok, (terms1, active1)) ← seek_at terms i pivot_doc_id active_count;
          let terms2 := restore_ordering terms1 i in
          if negb ok then mret (false, (terms2, active1))
          else seek_pivot_loop fuel' terms2 pivot_len pivot_doc_id i active1
        else seek_pivot_loop fuel' terms pivot_len pivot_doc_id (S i) active_count
      else mret (true, (terms, active_count))
  end.

(** Every round moves on in the pivot terms or seeks one of them. *)
Definition seek_to_pivot (terms : list TpTermState) (pivot_len : nat) (pivot_doc_id : Z)
    (active_count : Z) : rst R (bool * (list TpTermState * Z)) :=
  seek_pivot_loop (S (2 * pivot_len)) terms pivot_len pivot_doc_id 0 active_count.

Definition verify_pivot_alignment (terms : list TpTermState) (pivot_len : nat)
    (pivot_doc_id : Z) : bool :=
  forallb (fun ts => term_current_doc_id ts =? pivot_doc_id) (take pivot_len terms).

(** The loop over the pivot terms of [score_pivot_document]. *)
Fixpoint add_contributions (pivot_terms : list TpTermState) (doc_score : float4) : res float4 :=
  match pivot_terms with
  | [] => Ok doc_score
  | ts :: rest =>
      if negb (ts_found ts) || it_finished (ts_iter ts) then add_contributions rest doc_score
      else
        bp ← current_posting (ts_iter ts);
        add_contributions rest
          (f4_add doc_score (term_contribution k1 b avg_doc_len ts (bp_frequency bp)
                               (i32 (decode_fieldnorm (bp_fieldnorm bp)))))
  end.

Definition score_pivot_document (terms : list TpTermState) (pivot_len : nat) : res float4 :=
  add_contributions (take pivot_len terms) (f4_of_Z 0).
End Terms.

(** *** The WAND loop *)

Section Wand.
Context {R : Type} `{SegmentAccess R} `{ItemPointerOps} `{QSort}.
Context (root_block : Z) (k1 b avg_doc_len : float4).
Context (tenant_id min_doc_id max_doc_id : Z).

Record wand_state := mkWand {
  wd_terms : list TpTermState;
  wd_active : Z;
  wd_acc : scoring_state;
}.

(** [if (min_doc_id > 0)]: every active term is moved to the range. *)
Fixpoint seek_terms_to_min (terms : list TpTermState) (active_count : Z)
    : rst R (list TpTermState * Z) :=
  match terms with
  | [] => mret ([], active_count)
  | ts :: terms' =>
      '(ts1, active1) ←
        (if negb (ts_found ts) || it_finished (ts_iter ts) then mret (ts, active_count)
         else if term_current_doc_id ts <? min_doc_id then
           '(ok, ts1) ← seek_term_to_doc ts min_doc_id;
           mret (ts1, if (ok : bool) then active_count else active_count - 1)
         else mret (ts, active_count));
      '(terms1, active2) ← seek_terms_to_min terms' active1;
      mret (ts1 :: terms1, active2)
  end.

(** Whether the term's block is a single-tenant block of another tenant; then its
    last document. *)
Definition skippable_block (ts : TpTermState) : rst R (option Z) :=
  let it := ts_iter ts in
  match ts_block_last_doc_ids ts with
  | Some ids =>
      if ts_found ts && negb (it_finished it)
         && (it_current_block it <? de_block_count (it_dict_entry it)) then
        skip ← tp_segment_read_skip_entry (it_dict_entry it) (it_current_block it);
        if other_tenant_block tenant_id skip
        then last_doc_id ← rst_lift (zread ids (it_current_block it)); mret (Some last_doc_id)
        else mret None
      else mret None
  | None => mret None
  end.

(** Step 5: the pivot document belongs to another tenant.  The loop goes down
    from [n - 1]. *)
Fixpoint skip_wrong_tenant (n : nat) (pivot_doc_id : Z) (terms : list TpTermState)
    (active_count : Z) (stats : option TpBMWStats)
    : rst R (list TpTermState * Z * option TpBMWStats) :=
  match n with
  | O => mret (terms, active_count, stats)
  | S i =>
      ts ← rst_lift (term_at terms i);
      if negb (term_current_doc_id ts =? pivot_doc_id)
      then skip_wrong_tenant i pivot_doc_id terms active_count stats
      else
        block ← skippable_block ts;
        '(ok, ts1) ←
          match block with
          | Some last_doc_id => seek_term_to_doc ts (u32 (last_doc_id + 1))
          | None => advance_term_iterator ts
          end;
        skip_wrong_tenant i pivot_doc_id (restore_ordering (<[i := ts1]> terms) i)
          (if (ok : bool) then active_count else active_count - 1)
          (match block with Some _ => count_skipped <$> stats | None => stats end)
  end.

(** Step 7: the pivot terms move past the pivot, from the last to the first. *)
Fixpoint advance_pivot_terms (n : nat) (pivot_doc_id : Z) (terms : list TpTermState)
    (active_count : Z) : rst R (list TpTermState * Z) :=
  match n with
  | O => mret (terms, active_count)
  | S i =>
      ts ← rst_lift (term_at terms i);
      if term_current_doc_id ts =? pivot_doc_id then
        '(ok, ts1) ← advance_term_iterator ts;
        advance_pivot_terms i pivot_doc_id (restore_ordering (<[i := ts1]> terms) i)
          (if (ok : bool) then active_count else active_count - 1)
      else advance_pivot_terms i pivot_doc_id terms active_count
  end.

(** Step 6 *)
Definition add_pivot_document (heap : TpTopKHeap) (pivot_doc_id : Z) (doc_score : float4)
    : TpTopKHeap :=
  if f4_gt doc_score (f4_of_Z 0) && negb (tp_topk_dominated heap doc_score)
  then tp_topk_add_segment heap root_block pivot_doc_id doc_score
  else heap.

(** One round of the loop; [None] is [break]. *)
Definition wand_round (st : wand_state) : rst R (option wand_state) :=
  let '(heap, stats) := wd_acc st in
  let threshold := tp_topk_threshold heap in
  match find_wand_pivot (wd_terms st) threshold with
  | None => mret None
  | Some (pivot_len, pivot_doc_id) =>
      if max_doc_id <? pivot_doc_id then mret None
      else
        '(aligned, (terms, active)) ← seek_to_pivot (wd_terms st) pivot_len pivot_doc_id (wd_active st);
        if negb aligned then mret (Some (mkWand terms active (heap, stats)))
        else
          block_upper ← rst_lift (compute_block_max_at_pivot terms pivot_len);
          if f4_le block_upper threshold then
            '(terms1, active1, stats1) ← block_max_skip_advance terms pivot_len active stats;
            mret (Some (mkWand terms1 active1 (heap, stats1)))
          else
            let stats := count_scanned <$> stats in
            if negb (verify_pivot_alignment terms pivot_len pivot_doc_id)
            then mret (Some (mkWand terms active (heap, stats)))
            else
              wrong ← wrong_tenant tenant_id max_doc_id pivot_doc_id;
              if (wrong : bool) then
                '(terms1, active1, stats1) ←
                  skip_wrong_tenant pivot_len pivot_doc_id terms active stats;
                mret (Some (mkWand terms1 active1 (heap, stats1)))
              else
                doc_score ← rst_lift (score_pivot_document k1 b avg_doc_len terms pivot_len);
                let heap1 := add_pivot_document heap pivot_doc_id doc_score in
                '(terms1, active1) ← advance_pivot_terms pivot_len pivot_doc_id terms active;
                mret (Some (mkWand terms1 active1 (heap1, count_scored <$> stats)))
  end.

(** [while (active_count > 0)] *)
Fixpoint wand_loop (fuel : nat) (st : wand_state) : rst R wand_state :=
  match fuel with
  | O => rst_fail OUT_OF_FUEL
  | S fuel' =>
      if 0 <? wd_active st then
        next ← wand_round st;
        match next with
        | None => mret st
        | Some st' => wand_loop fuel' st'
        end
      else mret st
  end.

(** A round passes at least one posting, and a block has at most 255. *)
Definition wand_fuel (terms : list TpTermState) : nat :=
  S (sum_list_with (fun ts => if ts_found ts
       then Z.to_nat (de_block_count (it_dict_entry (ts_iter ts)) * 255) else 0%nat) terms).

(** The array of term states is sorted in place and reused for the next segment. *)
Definition score_segment_multi_term_bmw (acc : scoring_state) (terms : list TpTermState)
    : rst R (list TpTermState * scoring_state) :=
  '(active_count, terms1) ← init_segment_term_states k1 b avg_doc_len terms;
  if active_count =? 0 then mret (terms1, acc)
  else
    let terms2 := sort_terms_by_doc_id terms1 in
    '(terms3, active3) ←
      (if 0 <? min_doc_id then
         '(terms3, active3) ← seek_terms_to_min terms2 active_count;
         mret (sort_terms_by_doc_id terms3, active3)
       else mret (terms2, active_count));
    st ← wand_loop (wand_fuel terms3) (mkWand terms3 active3 acc);
    mret (wd_terms st, wd_acc st).
End Wand.

Section MultiTermQuery.
Context {R : Type} `{SegmentAccess R} `{ItemPointerOps} `{DsaAllocator} `{HashSeq} `{QSort}.
Context (segment_open : Z -> res (option R)) (reader_root_block : R -> Z).
Context (open_ex : Z -> option (Z -> ItemPointerData)) (chain_fuel : nat).

Definition score_terms_in_segment (k1 b avg_doc_len : float4) (tenant_id : Z)
    (st : list TpTermState * scoring_state) : rst R (list TpTermState * scoring_state) :=
  root_block ← rst_gets reader_root_block;
  range ← segment_range tenant_id;
  match range with
  | None => mret st
  | Some (seg_min, seg_max) =>
      score_segment_multi_term_bmw root_block k1 b avg_doc_len tenant_id seg_min seg_max
        st.2 st.1
  end.

(** The fields that are set before the first segment. *)
Definition initial_term_state (q : list byte * Z * float4) : TpTermState :=
  let '(term, query_freq, idf) := q in
  mkTermState term idf query_freq (f4_of_Z 0) false iterator_reset None None.

(** [query_terms], [query_freqs] and [idfs] are parallel arrays. *)
Definition tp_score_multi_term_bmw (local_state : TpLocalIndexState) (level_heads : list Z)
    (query : list (list byte * Z * float4)) (k1 b avg_doc_len : float4) (max_results : nat)
    (with_stats : bool) (tenant_id : Z)
    : res (list (ItemPointerData * float4) * option TpBMWStats) :=
  let stats := if with_stats then Some initial_stats else None in
  let terms := initial_term_state <$> query in
  '(acc, _) ← score_memtable_multi_term k1 b avg_doc_len tenant_id
                (tp_topk_init max_results, stats) terms local_state;
  '(_, acc') ← score_levels segment_open chain_fuel
                 (score_terms_in_segment k1 b avg_doc_len tenant_id) level_heads (terms, acc);
  Ok (finish_query open_ex acc').
End MultiTermQuery.
