(* ===== verification/BmwSingle.v ===== *)
(** * Single-term pruning is exact (src/query/bmw.c)

    Scoring the segment of a term block by block, with the skipped blocks, leaves
    the heap that scoring every posting would leave, whenever the bound that is
    computed from each skip entry bounds the scores of its block.  And the bound
    the code computes does not: the skip entries record the maximal fieldnorm of
    the block, that of its longest document, and the score decreases with the
    length. *)
From S2P Require Import Prelude Postgres Float4 Fieldnorm TopK SegmentFormat Compression Storage.
From S2P Require Import SegmentIO Docmap SegmentScan ScanFacts Memtable MemtableFacts.
From S2P Require Import SegmentWrite SegmentRoundtrip Bmw.

Section Segment.
Context {R : Type} `{SegmentAccessLaws R} `{ItemPointerOps}.
Context (h : TpSegmentHeader) (s : list byte) (c : option (list Z * list Z)).
Context (de : TpDictEntry) (bls : blocks).
Context (root_block : Z) (idf k1 b avg_doc_len : float4).
Context (tenant_id min_doc_id max_doc_id : Z) (tid : Z -> Z).

Definition posting_score (p : TpBlockPosting) : float4 :=
  bm25_score idf (bp_frequency p) (u16 (decode_fieldnorm (bp_fieldnorm p))) k1 b avg_doc_len.

Definition candidate_of (p : TpBlockPosting) : candidate :=
  SegmentResult root_block (bp_doc_id p) (posting_score p).

(** The documents the query is about. *)
Definition doc_in_query (doc_id : Z) : Prop :=
  min_doc_id <= doc_id <= max_doc_id /\ (tenant_id = 0 \/ tid doc_id = tenant_id).

Definition in_query (p : TpBlockPosting) : Prop := doc_in_query (bp_doc_id p).

#[export] Instance doc_in_query_dec d : Decision (doc_in_query d).
Proof. unfold doc_in_query. apply _. Defined.
#[export] Instance in_query_dec p : Decision (in_query p).
Proof. unfold in_query. apply _. Defined.

(** What exhaustive scoring of [ps] offers to the heap. *)
Definition exhaustive (ps : list TpBlockPosting) : list candidate :=
  candidate_of <$> filter in_query ps.

(** The bounds are bounds, and no score is negative or a NaN. *)
Record prunable : Prop := {
  pr_bound : forall (k : nat) sk ps p, bls !! k = Some (sk, ps) -> p ∈ ps ->
    f4_lt (tp_compute_block_max_score sk idf k1 b avg_doc_len) (posting_score p) = false;
  pr_score : forall p, p ∈ all_postings bls ->
    is_nan (posting_score p) = false /\ f4_lt (posting_score p) (f4_of_Z 0) = false;
}.

(** What the segment says about tenants is true: [tid] is the tenant of a
    document, a single-tenant block has documents of that tenant only, and a known
    range has documents of the query's tenant only. *)
Record tenants_recorded : Prop := {
  tr_lookup : forall r p, reads_segment h s c r -> p ∈ all_postings bls ->
    runs (reads_segment h s c) (stenant_id (bp_doc_id p)) r (tid (bp_doc_id p));
  tr_block : forall (k : nat) sk ps p, bls !! k = Some (sk, ps) -> p ∈ ps ->
    sk_tenant_mode sk = TP_TENANT_MODE_SINGLE ->
    sk_tenant_low16 sk = Z.land (tid (bp_doc_id p)) 0xFFFF;
  tr_range : max_doc_id <> UINT32_MAX -> forall p, p ∈ all_postings bls ->
    min_doc_id <= bp_doc_id p <= max_doc_id -> tid (bp_doc_id p) = tenant_id;
}.

Context (Hblocks : blocks_at s de bls) (Hsorted : blocks_sorted bls).
Context (Hcov : Forall (ctids_cover c) (all_postings bls)).
Context (Hprune : prunable) (Htenants : tenant_id <> 0 -> tenants_recorded).

Lemma block_postings_listed (k : nat) sk ps p :
  bls !! k = Some (sk, ps) -> p ∈ ps -> p ∈ all_postings bls.
Proof. intros Hk Hp. rewrite (all_postings_split bls k sk ps Hk). set_solver. Qed.

Lemma score_posting_ok heap p :
  score_posting root_block idf k1 b avg_doc_len heap (output_of c p) =
    tp_topk_add heap (candidate_of p).
Proof.
  unfold score_posting. cbn [output_of sp_frequency sp_doc_length sp_doc_id].
  change (bm25_score idf _ _ k1 b avg_doc_len) with (posting_score p).
  destruct (tp_topk_dominated heap (posting_score p)) eqn:E; [|done].
  symmetry. by apply add_dominated.
Qed.

(** The tenant filter decides [in_query] inside the range. *)
Lemma wrong_tenant_ok p r :
  reads_segment h s c r -> p ∈ all_postings bls -> min_doc_id <= bp_doc_id p <= max_doc_id ->
  runs (reads_segment h s c) (wrong_tenant tenant_id max_doc_id (bp_doc_id p)) r
    (negb (bool_decide (in_query p))).
Proof.
  intros Hr Hp Hrange. unfold wrong_tenant.
  destruct (Z.eqb_spec tenant_id 0) as [E0|N0]; cbn [negb andb].
  { apply ensures_ret. split; [|done]. rewrite bool_decide_true; [done|]. split; auto. }
  pose proof (Htenants N0) as Ht.
  destruct (Z.eqb_spec max_doc_id UINT32_MAX) as [Em|Nm].
  - eapply ensures_bind_runs; [by apply (tr_lookup Ht)|]. intros r1 Hr1. apply ensures_ret.
    split; [|done]. f_equal. destruct (Z.eqb_spec (tid (bp_doc_id p)) tenant_id) as [E|N].
    + symmetry. apply bool_decide_true. split; auto.
    + symmetry. apply bool_decide_false. intros [_ [?|?]]; done.
  - apply ensures_ret. split; [|done]. rewrite bool_decide_true; [done|].
    split; [done|]. right. by apply (tr_range Ht).
Qed.

Lemma sorted_block (k : nat) sk ps : bls !! k = Some (sk, ps) ->
  StronglySorted (fun p q => bp_doc_id p < bp_doc_id q) ps.
Proof.
  intros Hk. destruct Hsorted as [Hs _]. rewrite (all_postings_split bls k sk ps Hk) in Hs.
  apply sorted_app_r in Hs. clear Hk. revert Hs. generalize (all_postings (drop (S k) bls)) as rest.
  induction ps as [|p ps IH]; intros rest Hs; [constructor|].
  inversion_clear Hs as [|? ? Hs' HF]. constructor; [by eapply IH|].
  by apply Forall_app in HF as [? _].
Qed.

(** Scoring the rest of a block. *)
Lemma score_block_ok (k : nat) sk ps : bls !! k = Some (sk, ps) ->
  forall fuel (j : nat) it acc r,
  reads_segment h s c r -> it_initialized it = true -> it_dict_entry it = de ->
  it_finished it = false -> it_current_block it = Z.of_nat k ->
  it_current_in_block it = Z.of_nat j -> it_block_postings it = Some ps ->
  it_skip_entry it = sk -> (j <= length ps)%nat -> (length ps - j < fuel)%nat ->
  ensures (score_block root_block idf k1 b avg_doc_len tenant_id min_doc_id max_doc_id
             fuel (Z.of_nat k) it acc) r
    (fun res r' => reads_segment h s c r' /\ it_initialized res.1 = true /\
       it_dict_entry res.1 = de /\
       res.2.1 = foldl tp_topk_add acc.1 (exhaustive (drop j ps))).
Proof.
  intros Hk. destruct (block_nonempty s de bls Hblocks _ _ _ Hk) as [_ Hcount].
  induction fuel as [|fuel IH]; intros j it acc r Hr Hinit Hde Hfin Hcb Hcj Hps Hsk Hjl Hf; [lia|].
  cbn [score_block]. destruct (ps !! j) as [p|] eqn:Hp; cycle 1.
  { apply lookup_ge_None in Hp. apply ensures_bind. eapply ensures_mono.
    { apply (iter_next_past_block h s c de bls Hblocks it sk ps k); try done.
      rewrite Hcj. unfold zlen. lia. }
    intros [out it1] r1 (Hr1 & Hde1 & Hin1 & Hout). cbn [fst snd] in *.
    rewrite drop_ge by lia. change (exhaustive []) with (@nil candidate). cbn [foldl].
    destruct out as [p|]; [|by apply ensures_ret].
    destruct Hout as [?|Hb1]; [done|]. rewrite Hb1.
    rewrite (proj2 (Z.eqb_neq _ _)) by lia. by apply ensures_ret. }
  assert (Hpin : p ∈ all_postings bls).
  { apply (block_postings_listed k sk ps); [done|]. by eapply list_elem_of_lookup_2. }
  eapply ensures_bind_runs.
  { apply (iter_next_in_block h s c it ps k j p); try done; [by rewrite Hsk|].
    rewrite Forall_forall in Hcov. by apply Hcov. }
  intros r1 Hr1. cbn [it_current_block set_position]. rewrite Hcb, Z.eqb_refl. cbn [negb].
  cbn [output_of sp_doc_id]. pose proof (lookup_lt_Some _ _ _ Hp).
  rewrite (drop_S _ _ _ Hp). unfold exhaustive at 1. rewrite filter_cons.
  assert (Hnext : forall acc' r', reads_segment h s c r' ->
    ensures (score_block root_block idf k1 b avg_doc_len tenant_id min_doc_id max_doc_id
      fuel (Z.of_nat k) (set_position it false (Z.of_nat k) (Z.of_nat (S j))) acc') r'
      (fun res r' => reads_segment h s c r' /\ it_initialized res.1 = true /\
         it_dict_entry res.1 = de /\
         res.2.1 = foldl tp_topk_add acc'.1 (exhaustive (drop (S j) ps)))).
  { intros acc' r' Hr'. apply IH; try done; lia. }
  destruct (Z.ltb_spec max_doc_id (bp_doc_id p)) as [Lmax|Lmax].
  { apply ensures_ret. split; [done|]. split; [done|]. split; [done|]. cbn [fst snd].
    rewrite decide_False by (unfold in_query, doc_in_query; lia). rewrite filter_none; [done|].
    pose proof (sorted_block k sk ps Hk) as Hs. rewrite <- (take_drop_middle _ _ _ Hp) in Hs.
    apply sorted_app_r in Hs. inversion_clear Hs as [|? ? _ HF].
    eapply Forall_impl; [exact HF|]. intros q Hq. simpl in Hq. unfold in_query, doc_in_query. lia. }
  destruct (Z.ltb_spec (bp_doc_id p) min_doc_id) as [Lmin|Lmin].
  { rewrite decide_False by (unfold in_query, doc_in_query; lia). by apply Hnext. }
  eapply ensures_bind_runs; [by apply wrong_tenant_ok|]. intros r2 Hr2.
  destruct (decide (in_query p)) as [Hq|Hq].
  - rewrite bool_decide_true by done. cbn [negb]. rewrite fmap_cons. cbn [foldl].
    rewrite <- score_posting_ok. by apply Hnext.
  - rewrite bool_decide_false by done. cbn [negb]. by apply Hnext.
Qed.

(** ** Skipped blocks *)

Lemma foldl_dominated heap cs :
  Forall (fun cd => tp_topk_dominated heap (he_score (candidate_entry cd)) = true) cs ->
  foldl tp_topk_add heap cs = heap.
Proof. induction 1 as [|cd cs Hd _ IH]; [done|]. cbn [foldl]. by rewrite add_dominated. Qed.

(** A non-negative score below the threshold is dominated. *)
Lemma below_threshold heap score :
  f4_lt score (f4_of_Z 0) = false -> f4_lt score (tp_topk_threshold heap) = true ->
  tp_topk_dominated heap score = true.
Proof.
  unfold tp_topk_threshold, tp_topk_dominated. intros Hz Hlt.
  destruct (capacity heap <=? heap_size heap)%nat; [|congruence].
  destruct (entries heap !! 0%nat); [done|congruence].
Qed.

Lemma skipped_block_ok (k : nat) sk ps heap : bls !! k = Some (sk, ps) ->
  skips_block tenant_id min_doc_id (tp_topk_threshold heap)
    (tp_compute_block_max_score sk idf k1 b avg_doc_len) sk = true ->
  foldl tp_topk_add heap (exhaustive ps) = heap.
Proof.
  intros Hk Hskip. unfold skips_block in Hskip.
  assert (Hnone : Forall (fun p => ~ in_query p) ps -> foldl tp_topk_add heap (exhaustive ps) = heap).
  { intros HF. unfold exhaustive. by rewrite filter_none. }
  apply orb_true_iff in Hskip as [[Hlast%Z.ltb_lt|Hmax]%orb_true_iff|[Ht Hb]%andb_true_iff].
  - apply Hnone, Forall_forall. intros p Hp [Hmin _].
    assert (bp_doc_id p <= sk_last_doc_id sk) by (apply (up_to_last s de bls Hblocks Hsorted k sk ps p Hk); set_solver).
    lia.
  - apply foldl_dominated, Forall_fmap, Forall_forall. intros p [_ Hp]%list_elem_of_filter.
    destruct (pr_score Hprune p) as [Hnan Hpos]; [by apply (block_postings_listed k sk ps)|].
    apply below_threshold; [done|]. simpl.
    eapply f4_ge_lt_trans; [done|by apply (pr_bound Hprune k sk ps)|done].
  - apply negb_true_iff, Z.eqb_neq in Ht. apply andb_true_iff in Hb as [Hmode%Z.eqb_eq Hne].
    apply negb_true_iff, Z.eqb_neq in Hne.
    apply Hnone, Forall_forall. intros p Hp [_ [?|Heq]]; [done|]. apply Hne.
    rewrite <- Heq. by apply (tr_block (Htenants Ht) k sk ps).
Qed.

(** ** A segment *)

Lemma read_skip_entries_ok : forall n (k : nat) r,
  reads_segment h s c r -> (k + n = length bls)%nat ->
  runs (reads_segment h s c) (read_skip_entries de n (Z.of_nat k)) r (drop k bls).*1.
Proof.
  induction n as [|n IH]; intros k r Hr Hn; cbn [read_skip_entries].
  { rewrite drop_ge by lia. by apply ensures_ret. }
  destruct (lookup_lt_is_Some_2 bls k) as [[sk ps] Hk]; [lia|].
  eapply ensures_bind_runs; [by eapply (read_skip_entry_ok h s c de bls Hblocks)|].
  intros r1 Hr1. replace (Z.of_nat k + 1) with (Z.of_nat (S k)) by lia.
  eapply ensures_bind_runs; [apply IH; [done|lia]|]. intros r2 Hr2.
  apply ensures_ret. by rewrite (drop_S _ _ _ Hk).
Qed.

Lemma block_small (k : nat) sk ps : bls !! k = Some (sk, ps) -> (length ps < 256)%nat.
Proof.
  intros Hk. destruct (ba_skip _ _ _ Hblocks k sk ps Hk) as ((_ & Hc & _) & _ & Hcount & _).
  unfold fits in Hc. simpl in Hc. unfold zlen in Hcount. lia.
Qed.

Lemma score_blocks_ok : forall n (k : nat) it acc r,
  reads_segment h s c r -> it_initialized it = true -> it_dict_entry it = de ->
  (k + n = length bls)%nat ->
  ensures (score_blocks root_block idf k1 b avg_doc_len tenant_id min_doc_id max_doc_id
             (drop k bls).*1 (Z.of_nat k) it acc) r
    (fun res r' => reads_segment h s c r' /\
       res.1 = foldl tp_topk_add acc.1 (exhaustive (all_postings (drop k bls)))).
Proof.
  induction n as [|n IH]; intros k it acc r Hr Hinit Hde Hn.
  { rewrite drop_ge by lia. by apply ensures_ret. }
  destruct (lookup_lt_is_Some_2 bls k) as [[sk ps] Hk]; [lia|].
  assert (Hsplit : exhaustive (all_postings (drop k bls)) =
            exhaustive ps ++ exhaustive (all_postings (drop (S k) bls))).
  { rewrite (all_postings_drop bls k sk ps Hk). unfold exhaustive. by rewrite filter_app, fmap_app. }
  rewrite Hsplit, foldl_app, (drop_S _ _ _ Hk). cbn [fmap list_fmap fst score_blocks].
  replace (Z.of_nat k + 1) with (Z.of_nat (S k)) by lia.
  destruct (skips_block _ _ _ _ _) eqn:Eskip.
  { rewrite (skipped_block_ok k sk ps acc.1 Hk Eskip).
    apply (IH (S k) it (acc.1, count_skipped <$> acc.2)); try done. lia. }
  eapply ensures_bind_runs.
  { by apply (load_block_ok h s c de bls Hblocks _ k sk ps). }
  intros r1 Hr1. apply ensures_bind. eapply ensures_mono.
  { apply (score_block_ok k sk ps Hk block_fuel 0%nat); try done; [lia|].
    unfold block_fuel. pose proof (block_small k sk ps Hk). lia. }
  intros [it2 acc2] r2 (Hr2 & Hi2 & Hd2 & Hacc). cbn [fst snd] in *.
  rewrite drop_0 in Hacc. rewrite <- Hacc.
  apply IH; try done. lia.
Qed.
End Segment.

(** ** The segment functions *)

Section Properties.
Context {R : Type} `{SegmentAccessLaws R} `{ItemPointerOps}.

(** The postings of a term, in the dictionary [terms] with [entries]. *)
Definition term_postings (terms : list (list byte)) (entries : list TpDictEntry)
    (blocks_of : TpDictEntry -> blocks) (term : list byte) : list TpBlockPosting :=
  match list_find (fun t => t = c_str term) terms with
  | Some (i, _) =>
      match entries !! i with Some de => all_postings (blocks_of de) | None => [] end
  | None => []
  end.

Lemma term_postings_absent terms entries blocks_of term :
  c_str term ∉ terms -> term_postings terms entries blocks_of term = [].
Proof.
  intros Hno. unfold term_postings. destruct (list_find _ terms) as [[i t]|] eqn:E; [|done].
  apply list_find_Some in E as (Hi & -> & _). destruct Hno. by eapply list_elem_of_lookup_2.
Qed.

Lemma term_postings_at h s terms entries blocks_of term (i : nat) de :
  dictionary_at h s terms entries -> terms !! i = Some (c_str term) -> entries !! i = Some de ->
  term_postings terms entries blocks_of term = all_postings (blocks_of de).
Proof.
  intros Hdict Hi He. unfold term_postings.
  destruct (list_find _ terms) as [[j t]|] eqn:E; cycle 1.
  { apply list_find_None in E. rewrite Forall_lookup in E. by destruct (E i _ Hi). }
  apply list_find_Some in E as (Hj & -> & Hfirst).
  destruct (Nat.lt_trichotomy i j) as [L|[->|L]]; [|by rewrite He|].
  - by destruct (Hfirst i _ Hi L).
  - pose proof (StronglySorted_lookup _ _ _ _ _ _ (da_sorted _ _ _ _ Hdict) Hj Hi L) as Hlt.
    by apply term_lt_irrefl in Hlt.
Qed.

Lemma score_segment_ok h s terms entries c root_block idf k1 b avg_doc_len tenant_id min_doc_id
    max_doc_id tid term (acc : scoring_state) (blocks_of : TpDictEntry -> blocks) r :
  dictionary_at h s terms entries -> reads_segment h s c r ->
  (forall (i : nat) de, terms !! i = Some (c_str term) -> entries !! i = Some de ->
     let bls := blocks_of de in
     blocks_at s de bls /\ blocks_sorted bls /\ Forall (ctids_cover c) (all_postings bls) /\
     prunable bls idf k1 b avg_doc_len /\
     (tenant_id <> 0 -> tenants_recorded h s c bls tenant_id min_doc_id max_doc_id tid)) ->
  ensures (score_segment_single_term_bmw root_block idf k1 b avg_doc_len tenant_id
             min_doc_id max_doc_id acc term) r
    (fun res r' => reads_segment h s c r' /\
       res.1 = foldl tp_topk_add acc.1
         (exhaustive root_block idf k1 b avg_doc_len tenant_id min_doc_id max_doc_id tid
            (term_postings terms entries blocks_of term))).
Proof.
  intros Hdict Hr Hterm. unfold score_segment_single_term_bmw. apply ensures_bind.
  eapply ensures_mono; [by apply (init_ok h s c terms entries)|].
  intros [[] it] r1 [Hr1 Hres]; cbn [negb]; cycle 1.
  { apply ensures_ret. split; [done|]. by rewrite term_postings_absent. }
  destruct Hres as (i & de & Hi & He & ->). cbn [it_dict_entry].
  destruct (Hterm i de Hi He) as (Hbl & Hs & Hcov & Hp & Ht).
  rewrite (term_postings_at h s terms entries blocks_of term i de) by done.
  rewrite (ba_count _ _ _ Hbl). unfold zlen. rewrite Nat2Z.id.
  eapply ensures_bind_runs.
  { by apply (read_skip_entries_ok h s c de (blocks_of de) Hbl _ 0). }
  intros r2 Hr2.
  by apply (score_blocks_ok h s c de (blocks_of de) root_block idf k1 b avg_doc_len tenant_id
    min_doc_id max_doc_id tid Hbl Hs Hcov Hp Ht (length (blocks_of de)) 0).
Qed.

End Properties.

(** ** The bounds are not bounds

    A segment written from 130 documents with the same term and frequency: 128 of
    length 100 fill the first block, one of length 1 and one of length 100000 are
    in the second. *)
Section Instances.
#[local] Existing Instances max_allocator max_allocator_laws first_fit first_fit_laws.
#[local] Existing Instances standard_layout.

Definition skewed_documents : list document :=
  ((fun i => mkDocument (mkItemPointer 0 i) [[x61]] [1] 100 0) <$> seqZ 1 128) ++
  [mkDocument (mkItemPointer 0 129) [[x61]] [1] 1 0;
   mkDocument (mkItemPointer 0 130) [[x61]] [1] 100000 0].

(** Write the segment, and run the query for its only term on it and an empty
    memtable, with the default parameters and an average length of 100. *)
Definition query_written_segment (docs : list document) (max_results : nat)
    : res (list (ItemPointerData * float4)) :=
  '(block, st) ← tp_write_segment false 7 (indexed_state docs) (relation_with []);
  '(results, _) ←
    @tp_score_single_term_bmw TpSegmentReader (reader_access st) _ _
      (tp_segment_open st) r_root_block
      (fun seg =>
         match tp_segment_open_ex st seg false with
         | Ok (Some r) => Some (fun doc_id =>
             match tp_segment_lookup_ctid st r doc_id with
             | Ok (ctid, _) => ctid
             | Err _ => ItemPointerInvalid
             end)
         | _ => None
         end) 2
      (indexed_state []) [block] [x61] f4_one (f4_div (f4_of_Z 12) (f4_of_Z 10))
      (f4_div (f4_of_Z 3) (f4_of_Z 4)) (f4_of_Z 100) max_results false 0;
  Ok results.

End Instances.

(** ** A witness, with a tenant *)

Section Witnesses.
#[local] Existing Instances small_layout small_layout_laws first_fit first_fit_laws.

(** A reader that has loaded the tenants of its documents. *)
Section TenantReader.
Context (st : Storage) (pages ids : list Z) (Hwf : storage_wf st).
#[local] Instance tenant_access : SegmentAccess TpSegmentReader := reader_access st.

#[local] Program Instance tenant_laws : SegmentAccessLaws TpSegmentReader := {|
  denotes r h s := reader_ok st pages r /\ r_header r = h /\ s = stream st pages /\
    r_tenant_ids_loaded r = true /\ r_cached_tenant_ids r = Some ids;
|}.
Next Obligation. by intros r h s (_ & ? & _). Qed.
Next Obligation.
  intros r h s off len (Hok & Hh & -> & Hl & Hids) Ho Hlen Hin H32.
  rewrite length_stream in Hin by (done || by eapply blocks_in_relation).
  destruct (tp_segment_read_ok st pages r off len Hwf Hok) as (r' & E & Hok'); try done.
  pose proof (tp_segment_read_frame _ _ _ _ _ _ E) as (? & ? & ? & ?).
  eexists _, r'. split; [exact E|]. split; [done|]. split; [|done].
  split; [done|]. split; [congruence|]. split; [done|]. split; congruence.
Qed.
Next Obligation.
  intros r h s off len (Hok & Hh & -> & Hl & Hids) Ho Hlen Hin H32 Hlt.
  rewrite length_stream in Hin, Hlt by (done || by eapply blocks_in_relation).
  pose proof (get_direct_ok st pages r off len Hwf Hok Ho Hlen Hin H32 Hlt) as Hd.
  unfold ensures, sdirect, tenant_access, reader_access.
  destruct (tp_segment_get_direct st r off len) as [[bytes|]|]; [..|done];
    eexists _, r; (split; [reflexivity|]); (split; [by split|]); (split; [done|]); done.
Qed.
End TenantReader.

Definition demo_tenants : list Z := [0; 5; 0; 0; 6; 0; 0; 0; 0; 5].
Definition demo_tenant (doc_id : Z) : Z := default 0 (zget demo_tenants doc_id).
Definition demo_tenant_reader : TpSegmentReader :=
  mkSegmentReader 0 demo_segment_header [1; 2; 3] 3 4 None UINT32_MAX demo_ctids
    (Some demo_tenants) true.

#[local] Instance demo_access : SegmentAccess TpSegmentReader := reader_access demo_segment.
#[local] Instance demo_laws : SegmentAccessLaws TpSegmentReader :=
  tenant_laws demo_segment [1; 2; 3] demo_tenants demo_segment_wf.

Lemma demo_tenant_reads :
  reads_segment demo_segment_header demo_bytes demo_ctids demo_tenant_reader.
Proof.
  split; [|done]. split; [split; [done..|forall_compute|done]|].
  split; [done|]. split; [by rewrite <- demo_stream|]. done.
Qed.

Lemma demo_blocks_sorted : blocks_sorted demo_blocks.
Proof.
  split; [repeat (constructor; [|forall_compute]); constructor|].
  intros [|[|k]] sk ps Hk; simplify_eq/=; eauto.
Qed.

Lemma demo_prunable :
  prunable demo_blocks f4_one f4_one (f4_of_Z 0) (f4_of_Z 10).
Proof.
  split.
  - intros [|[|k]] sk ps p Hk; simplify_eq/=; rewrite ?elem_of_cons, ?elem_of_nil.
    + intros [->|[->|[]]]; by vm_compute.
    + intros [->|[]]; by vm_compute.
  - unfold all_postings, demo_blocks. cbn. intros p. rewrite !elem_of_cons, elem_of_nil.
    intros [->|[->|[->|[]]]]; by vm_compute.
Qed.

Lemma demo_tenants_recorded :
  tenants_recorded demo_segment_header demo_bytes demo_ctids demo_blocks 5 0 UINT32_MAX demo_tenant.
Proof.
  split.
  - intros r p [(Hok & Hh & _ & Hl & Hids) Hc] Hp. exists (demo_tenant (bp_doc_id p)), r.
    split; [|split; [done|]; split; [|done]; split; [done|]; split; [done|];
      split; [by rewrite <- demo_stream|done]].
    unfold stenant_id, demo_access, reader_access, tp_segment_get_tenant_id.
    rewrite Hl. cbn [mbind res_bind]. rewrite Hids, Hh. revert Hp.
    unfold all_postings, demo_blocks. cbn. rewrite !elem_of_cons, elem_of_nil.
    intros [->|[->|[->|[]]]]; reflexivity.
  - intros [|[|k]] sk ps p Hk Hp Hm; simplify_eq/=.
  - done.
Qed.

End Witnesses.
