(* ===== verification/BmwQuery.v ===== *)
(** * A single-term query (src/query/bmw.c, tp_score_single_term_bmw)

    The memtable, the chains of segments of every level, the heap and the
    resolution of CTIDs together: a query returns what offering every posting of
    the term to the heap would return. *)
From S2P Require Import Prelude Postgres Float4 Fieldnorm TopK SegmentFormat Compression Storage.
From S2P Require Import SegmentIO Docmap SegmentScan ScanFacts Memtable MemtableFacts.
From S2P Require Import SegmentWrite SegmentRoundtrip Bmw BmwSingle.

(** ** The memtable *)

Section MemtableScoring.
Context `{ItemPointerOps} `{DsaAllocator} `{HashSeq}.
Context (idf k1 b avg_doc_len : float4) (tenant_id : Z).

(** The length the scoring uses: the stored one, or 1 when there is none. *)
Definition scored_length (docs : list document) (ctid : ItemPointerData) : Z :=
  let len := match lengths_of docs !! ctid with Some e => dl_doc_length e | None => -1 end in
  if len <=? 0 then 1 else len.

Definition memtable_candidate (docs : list document) (e : TpPostingEntry) : candidate :=
  MemtableResult (pe_ctid e)
    (bm25_score idf (pe_frequency e) (scored_length docs (pe_ctid e)) k1 b avg_doc_len).

Definition tenant_entry_matches (e : TpPostingEntry) : Prop :=
  tenant_id = 0 \/ pe_tenant_id e = tenant_id.

#[export] Instance tenant_entry_matches_dec e : Decision (tenant_entry_matches e).
Proof. unfold tenant_entry_matches. apply _. Defined.

(** What the memtable offers for a term. *)
Definition memtable_candidates (docs : list document) (term : list byte) : list candidate :=
  memtable_candidate docs <$> filter tenant_entry_matches (postings_of docs (c_str term)).

Context (st : TpLocalIndexState) (frame : dsa_area) (docs : list document).
Context (Hholds : holds st frame docs).

(** The source that [tp_memtable_source_create] returns from [st]. *)
Definition source_of : TpDataSource :=
  mkDataSource (total_docs st) (total_len st)
    (memtable_get_postings (match string_table (memtable st) with Some _ => true | None => false end))
    (memtable_get_doc_length (match doc_lengths (memtable st) with Some _ => true | None => false end)).

Lemma source_doc_length_ok ctid :
  runs (fun st' => st' = st) (source_doc_length source_of ctid) st (scored_length docs ctid).
Proof.
  destruct (get_doc_length_ok st frame docs ctid Hholds) as (res & st' & E & -> & ->).
  unfold source_doc_length. apply ensures_bind. eexists _, st. split; [exact E|].
  by apply ensures_ret.
Qed.

Lemma score_memtable_postings_ok (es : list TpPostingEntry) count freq : forall n (k : nat) acc,
  (k + n = length es)%nat ->
  ensures (score_memtable_postings k1 b avg_doc_len tenant_id n (Z.of_nat k) source_of
             (mkPostingData (pe_ctid <$> es) (pe_frequency <$> es) (Some (pe_tenant_id <$> es))
                count freq) idf acc) st
    (fun res st' => st' = st /\ res.1 = foldl tp_topk_add acc.1
       (memtable_candidate docs <$> filter tenant_entry_matches (drop k es))).
Proof.
  induction n as [|n IH]; intros k acc Hn; cbn [score_memtable_postings].
  { rewrite drop_ge by lia. by apply ensures_ret. }
  destruct (lookup_lt_is_Some_2 es k) as [e He]; [lia|].
  assert (Hread : forall A (f : TpPostingEntry -> A), zread (f <$> es) (Z.of_nat k) = Ok (f e)).
  { intros A f. unfold zread. by rewrite zget_nat, list_lookup_fmap, He. }
  cbn [pd_ctids pd_frequencies].
  apply ensures_bind. eapply ensures_lift; [apply Hread|].
  apply ensures_bind. eapply ensures_lift; [apply Hread|].
  rewrite (drop_S _ _ _ He), filter_cons.
  replace (Z.of_nat k + 1) with (Z.of_nat (S k)) by lia.
  apply ensures_bind. eapply (ensures_lift _ _ (negb (bool_decide (tenant_entry_matches e)))).
  { unfold other_tenant. cbn [pd_tenant_ids]. rewrite Hread.
    destruct (Z.eqb_spec tenant_id 0) as [E0|N0].
    - rewrite bool_decide_true; [done|by left].
    - cbn [mbind res_bind]. do 2 f_equal. destruct (Z.eqb_spec (pe_tenant_id e) tenant_id) as [E|N].
      + symmetry. apply bool_decide_true. by right.
      + symmetry. apply bool_decide_false. by intros [?|?]. }
  destruct (decide (tenant_entry_matches e)) as [Hm|Hm].
  - rewrite bool_decide_true by done. cbn [negb].
    eapply ensures_bind_runs; [apply source_doc_length_ok|]. intros st' ->.
    destruct acc as [heap stats]. rewrite fmap_cons. cbn [foldl fst].
    set (score := bm25_score idf (pe_frequency e) _ k1 b avg_doc_len).
    eapply ensures_mono; [apply IH; lia|]. intros res st' [-> ->]. split; [done|].
    cbn [fst]. f_equal. destruct (tp_topk_dominated heap score) eqn:Ed; [|done].
    symmetry. by apply add_dominated.
  - rewrite bool_decide_false by done. cbn [negb]. apply IH. lia.
Qed.

Lemma score_memtable_ok acc term : c_str term <> [] ->
  ensures (score_memtable_single_term k1 b avg_doc_len tenant_id acc term idf) st
    (fun res st' => st' = st /\
       res.1 = foldl tp_topk_add acc.1 (memtable_candidates docs term)).
Proof.
  intros Hne. unfold score_memtable_single_term. apply ensures_bind.
  exists source_of, st. split; [done|].
  destruct (get_postings_ok st frame docs term Hholds Hne) as (res & st' & E & -> & ->).
  apply ensures_bind. eexists _, st. split; [exact E|]. unfold memtable_candidates.
  destruct (postings_of docs (c_str term)) as [|e es] eqn:Ep; [by apply ensures_ret|].
  rewrite posting_data_nonempty by done. cbn [pd_count].
  rewrite (proj2 (Z.eqb_neq _ _)) by (rewrite zlen_cons; pose proof (zlen_nonneg es); lia).
  unfold zlen at 1. rewrite Nat2Z.id.
  apply (score_memtable_postings_ok (e :: es) _ _ _ 0). done.
Qed.
End MemtableScoring.

(** ** The segments *)

(** What a segment of the index holds, and what a query for [tenant_id] finds in
    it: [v_range] is the range of documents to score, if there is one. *)
Record segment_view := mkView {
  v_header : TpSegmentHeader;
  v_stream : list byte;
  v_ctids : option (list Z * list Z);
  v_root : Z;
  v_terms : list (list byte);
  v_entries : list TpDictEntry;
  v_blocks : TpDictEntry -> blocks;
  v_tenant : Z -> Z;
  v_range : option (Z * Z);
}.

Section Query.
Context {R : Type} `{SegmentAccessLaws R} `{ItemPointerOps} `{DsaAllocator} `{HashSeq} `{QSort}.
Context (segment_open : Z -> res (option R)) (reader_root_block : R -> Z).
Context (open_ex : Z -> option (Z -> ItemPointerData)) (chain_fuel : nat).
Context (term : list byte) (idf k1 b avg_doc_len : float4) (tenant_id : Z).

Definition reads_view (v : segment_view) : R -> Prop :=
  reads_segment (v_header v) (v_stream v) (v_ctids v).

(** The segment is well formed, and its bounds are bounds (BmwSingle.prunable). *)
Record view_ok (v : segment_view) : Prop := {
  vo_dictionary : dictionary_at (v_header v) (v_stream v) (v_terms v) (v_entries v);
  vo_range : forall r, reads_view v r ->
    runs (reads_view v) (segment_range tenant_id) r (v_range v);
  vo_term : forall mn mx (i : nat) de, v_range v = Some (mn, mx) ->
    v_terms v !! i = Some (c_str term) -> v_entries v !! i = Some de ->
    let bls := v_blocks v de in
    blocks_at (v_stream v) de bls /\ blocks_sorted bls /\
    Forall (ctids_cover (v_ctids v)) (all_postings bls) /\ prunable bls idf k1 b avg_doc_len /\
    (tenant_id <> 0 ->
       tenants_recorded (v_header v) (v_stream v) (v_ctids v) bls tenant_id mn mx (v_tenant v));
}.

(** The chain that starts at a block holds these segments. *)
Inductive chain_of : Z -> list segment_view -> Prop :=
  | chain_end : chain_of InvalidBlockNumber []
  | chain_segment head r v vs :
      head <> InvalidBlockNumber -> segment_open head = Ok (Some r) -> reads_view v r ->
      reader_root_block r = v_root v -> view_ok v ->
      chain_of (next_segment (v_header v)) vs -> chain_of head (v :: vs).

Definition view_candidates (v : segment_view) : list candidate :=
  match v_range v with
  | None => []
  | Some (mn, mx) =>
      exhaustive (v_root v) idf k1 b avg_doc_len tenant_id mn mx (v_tenant v)
        (term_postings (v_terms v) (v_entries v) (v_blocks v) term)
  end.

Lemma score_one_segment_ok v r (acc : scoring_state) :
  view_ok v -> reads_view v r -> reader_root_block r = v_root v ->
  ensures (score_one_segment reader_root_block term idf k1 b avg_doc_len tenant_id acc) r
    (fun res r' => reads_view v r' /\ res.1 = foldl tp_topk_add acc.1 (view_candidates v)).
Proof.
  intros Hv Hr Hroot. unfold score_one_segment. apply ensures_bind, ensures_gets.
  rewrite Hroot. eapply ensures_bind_runs; [by apply (vo_range v Hv)|]. intros r1 Hr1.
  unfold view_candidates. destruct (v_range v) as [[mn mx]|] eqn:Er; [|by apply ensures_ret].
  apply score_segment_ok; [apply (vo_dictionary v Hv)|done|].
  intros i de Hi He. by apply (vo_term v Hv mn mx i de).
Qed.

Lemma score_chain_ok : forall vs fuel head (acc : scoring_state),
  chain_of head vs -> (length vs < fuel)%nat ->
  exists acc', score_chain segment_open fuel
      (score_one_segment reader_root_block term idf k1 b avg_doc_len tenant_id) head acc = Ok acc' /\
    acc'.1 = foldl tp_topk_add acc.1 (vs ≫= view_candidates).
Proof.
  induction vs as [|v vs IH]; intros [|fuel] head acc Hch Hf; simpl in Hf; try lia;
    inversion Hch as [|? r ? ? Hne Hopen Hr Hroot Hv Hrest]; subst; cbn [score_chain].
  { rewrite Z.eqb_refl. by eexists. }
  rewrite (proj2 (Z.eqb_neq _ _)) by done. rewrite Hopen. cbn [mbind res_bind].
  destruct (score_one_segment_ok v r acc Hv Hr Hroot) as (acc1 & r1 & -> & Hr1 & Hacc).
  cbn [mbind res_bind]. destruct Hr1 as [Hd _]. rewrite (denotes_header _ _ _ Hd).
  destruct (IH fuel (next_segment (v_header v)) acc1 Hrest) as (acc' & -> & Hacc'); [lia|].
  exists acc'. split; [done|]. by rewrite Hacc', Hacc, bind_cons, foldl_app.
Qed.

Lemma score_levels_ok : forall levels heads (acc : scoring_state),
  Forall2 chain_of heads levels -> Forall (fun vs => length vs < chain_fuel)%nat levels ->
  exists acc', score_levels segment_open chain_fuel
      (score_one_segment reader_root_block term idf k1 b avg_doc_len tenant_id) heads acc = Ok acc' /\
    acc'.1 = foldl tp_topk_add acc.1 (concat levels ≫= view_candidates).
Proof.
  induction levels as [|vs levels IH]; intros heads acc Hch Hf;
    inversion Hch as [|head ? heads' ? Hc Hch']; subst; cbn [score_levels].
  { by eexists. }
  apply Forall_cons in Hf as [Hf1 Hf].
  destruct (score_chain_ok vs chain_fuel head acc Hc Hf1) as (acc1 & -> & Hacc1).
  cbn [mbind res_bind]. destruct (IH heads' acc1 Hch' Hf) as (acc' & -> & Hacc').
  exists acc'. split; [done|]. cbn [concat]. by rewrite Hacc', Hacc1, bind_app, foldl_app.
Qed.

End Query.

(** ** A witness: three documents in the memtable, three in one segment *)

Section Witnesses.
#[local] Existing Instances small_layout small_layout_laws first_fit first_fit_laws.
#[local] Existing Instances max_allocator max_allocator_laws.
#[local] Existing Instances BmwSingle.demo_access BmwSingle.demo_laws.

Definition demo_view : segment_view :=
  mkView demo_segment_header demo_bytes demo_ctids 7 demo_terms demo_entries (fun _ => demo_blocks)
    demo_tenant (Some (0, UINT32_MAX)).

Definition demo_open (block : Z) : res (option TpSegmentReader) :=
  if block =? 7 then Ok (Some demo_tenant_reader) else Ok None.

Lemma demo_view_ok : view_ok [x61] f4_one f4_one (f4_of_Z 0) (f4_of_Z 10) 5 demo_view.
Proof.
  split.
  - exact demo_dictionary.
  - intros r Hr. exists (Some (0, UINT32_MAX)), r. split; [|by split].
    unfold segment_range, mbind, rst_bind, rst_gets.
    destruct Hr as [(Hok & Hh & Hrest) Hc]. unfold sheader, BmwSingle.demo_access, reader_access.
    by rewrite Hh.
  - intros mn mx [|[|i]] de Hr Hi He; simplify_eq/=.
    split; [exact demo_blocks_at|]. split; [exact demo_blocks_sorted|].
    split; [exact demo_cover|]. split; [exact demo_prunable|].
    intros _. exact demo_tenants_recorded.
Qed.

End Witnesses.
