(* ===== verification/BmwTerms.v ===== *)
(** * Positions in posting lists, for WAND (src/query/bmw.c)

    What remains of a term's posting list at the position of its iterator
    ([remaining]); advancing drops the first remaining posting, and seeking drops
    exactly the postings below the target. *)
From S2P Require Import Prelude Postgres Float4 Fieldnorm TopK SegmentFormat Compression Storage.
From S2P Require Import SegmentIO Docmap SegmentScan ScanFacts Memtable Bmw BmwSingle.

Section Terms.
Context {R : Type} `{SegmentAccessLaws R} `{ItemPointerOps}.
Context (h : TpSegmentHeader) (s : list byte) (c : option (list Z * list Z)).
(** The blocks of a dictionary entry of the segment. *)
Context (blocks_of : TpDictEntry -> blocks).

(** What is left of the posting list at the position of an iterator. *)
Definition remaining_from (it : TpSegmentPostingIterator) : list TpBlockPosting :=
  if it_finished it then []
  else drop (Z.to_nat (it_current_in_block it)) (default [] (it_block_postings it)) ++
       all_postings (drop (S (Z.to_nat (it_current_block it))) (blocks_of (it_dict_entry it))).

Definition remaining (ts : TpTermState) : list TpBlockPosting :=
  if ts_found ts then remaining_from (ts_iter ts) else [].

(** A posting list WAND can work on. *)
Record list_ok (de : TpDictEntry) : Prop := {
  lo_blocks : blocks_at s de (blocks_of de);
  lo_sorted : blocks_sorted (blocks_of de);
  lo_count : de_block_count de < 2 ^ 16;
  lo_docs : Forall (fun p => 0 <= bp_doc_id p < UINT32_MAX) (all_postings (blocks_of de));
}.

(** Inside block [k], at the posting [j]. *)
Record inside (it : TpSegmentPostingIterator) (k j : nat) (ps : list TpBlockPosting) : Prop := {
  in_init : it_initialized it = true;
  in_block : it_current_block it = Z.of_nat k;
  in_pos : it_current_in_block it = Z.of_nat j;
  in_postings : it_block_postings it = Some ps;
  in_entry : blocks_of (it_dict_entry it) !! k = Some (it_skip_entry it, ps);
  in_bound : (j < length ps)%nat;
}.

Definition positioned (it : TpSegmentPostingIterator) : Prop :=
  list_ok (it_dict_entry it) /\ exists k j ps, inside it k j ps.

(** A term that is found and not exhausted is at a posting, and the last documents
    of its blocks are cached. *)
Definition term_ok (ts : TpTermState) : Prop :=
  ts_found ts = true -> it_finished (ts_iter ts) = false ->
  positioned (ts_iter ts) /\
  ts_block_last_doc_ids ts =
    Some (sk_last_doc_id <$> (blocks_of (it_dict_entry (ts_iter ts))).*1).

Lemma remaining_inside it k j ps : inside it k j ps -> it_finished it = false ->
  remaining_from it = drop j ps ++ all_postings (drop (S k) (blocks_of (it_dict_entry it))).
Proof.
  intros Hin Hf. unfold remaining_from. rewrite Hf, (in_block _ _ _ _ Hin), (in_pos _ _ _ _ Hin),
    (in_postings _ _ _ _ Hin), !Nat2Z.id. done.
Qed.

Lemma remaining_cons it k j ps p : inside it k j ps -> it_finished it = false -> ps !! j = Some p ->
  remaining_from it = p :: drop (S j) ps ++ all_postings (drop (S k) (blocks_of (it_dict_entry it))).
Proof. intros Hin Hf Hp. by rewrite (remaining_inside it k j ps Hin Hf), (drop_S _ _ _ Hp). Qed.

Lemma remaining_active ts : term_ok ts -> remaining ts <> [] ->
  ts_found ts = true /\ it_finished (ts_iter ts) = false.
Proof.
  intros _. unfold remaining, remaining_from. destruct (ts_found ts), (it_finished (ts_iter ts)); done.
Qed.

(** The current document is the first of those that remain. *)
Lemma current_doc_ok ts : term_ok ts ->
  term_current_doc_id ts =
    match remaining ts with [] => UINT32_MAX | p :: _ => bp_doc_id p end.
Proof.
  intros Hok. unfold term_current_doc_id, remaining.
  destruct (ts_found ts) eqn:Ef; cbn [negb orb]; [|done].
  destruct (it_finished (ts_iter ts)) eqn:Efin.
  { unfold remaining_from. by rewrite Efin. }
  destruct (Hok Ef Efin) as [[Hl (k & j & ps & Hin)] _].
  destruct (lookup_lt_is_Some_2 ps j (in_bound _ _ _ _ Hin)) as [p Hp].
  rewrite (remaining_cons _ k j ps p Hin Efin Hp).
  unfold tp_segment_posting_iterator_current_doc_id.
  rewrite (in_postings _ _ _ _ Hin), Efin, (in_init _ _ _ _ Hin), (in_pos _ _ _ _ Hin). cbn [negb orb].
  destruct (block_nonempty s _ _ (lo_blocks _ Hl) _ _ _ (in_entry _ _ _ _ Hin)) as [_ ->].
  pose proof (in_bound _ _ _ _ Hin).
  rewrite (proj2 (Z.leb_gt _ _)) by (unfold zlen; lia). by rewrite zget_nat, Hp.
Qed.

Lemma remaining_docs ts : term_ok ts ->
  Forall (fun p => 0 <= bp_doc_id p < UINT32_MAX) (remaining ts) /\
  StronglySorted (fun p q => bp_doc_id p < bp_doc_id q) (remaining ts).
Proof.
  intros Hok. unfold remaining. destruct (ts_found ts) eqn:Ef; [|split; constructor].
  destruct (it_finished (ts_iter ts)) eqn:Efin.
  { unfold remaining_from. rewrite Efin. split; constructor. }
  destruct (Hok Ef Efin) as [[Hl (k & j & ps & Hin)] _].
  rewrite (remaining_inside _ k j ps Hin Efin).
  pose proof (lo_docs _ Hl) as HF. destruct (lo_sorted _ Hl) as [Hs _].
  rewrite (all_postings_split _ k _ ps (in_entry _ _ _ _ Hin)) in HF, Hs.
  apply Forall_app in HF as [_ HF]. apply sorted_app_r in Hs.
  rewrite <- (take_drop j ps), <- app_assoc in HF, Hs.
  split; [by apply Forall_app in HF as [_ ?]|by apply sorted_app_r in Hs].
Qed.

(** ** Loading the next block *)

Definition moved_to (it it' : TpSegmentPostingIterator) : Prop :=
  it_dict_entry it' = it_dict_entry it /\ it_initialized it' = true.

(** What a move establishes: either the iterator is exhausted and nothing remains,
    or it is at the first of the postings that remain. *)
Definition lands (rem : list TpBlockPosting) (it : TpSegmentPostingIterator) (ok : bool) : Prop :=
  remaining_from it = rem /\ ok = bool_decide (rem <> []) /\
  (it_finished it = false -> positioned it) /\ it_finished it = negb ok.

Lemma load_next_block_ok it (k : nat) r :
  reads_segment h s c r -> list_ok (it_dict_entry it) -> it_initialized it = true ->
  it_finished it = false -> it_current_block it = Z.of_nat k ->
  ensures (load_next_block it) r (fun res r' => reads_segment h s c r' /\
    it_dict_entry res.2 = it_dict_entry it /\
    lands (all_postings (drop (S k) (blocks_of (it_dict_entry it)))) res.2 res.1).
Proof.
  intros Hr Hl Hinit Hfin Hk. unfold load_next_block. pose proof (lo_blocks _ Hl) as Hbl.
  rewrite (ba_count _ _ _ Hbl). cbn [it_current_block set_position]. rewrite Hk.
  set (bls := blocks_of (it_dict_entry it)) in *.
  destruct (Z.leb_spec (zlen bls) (Z.of_nat k + 1)) as [L|L].
  { apply ensures_ret. split; [done|]. split; [done|]. cbn [fst snd].
    rewrite drop_ge by (unfold zlen in L; lia). by repeat split. }
  destruct (lookup_lt_is_Some_2 bls (S k)) as [[sk ps] Hb]; [unfold zlen in L; lia|].
  eapply ensures_bind_runs.
  { apply (load_block_ok h s c (it_dict_entry it) bls Hbl _ (S k) sk ps); try done.
    cbn [it_current_block set_position]. lia. }
  intros r1 Hr1. apply ensures_ret. split; [done|]. split; [done|]. cbn [fst snd].
  cbn [it_finished it_initialized set_position]. rewrite Hfin, Hinit.
  destruct (block_nonempty s _ _ Hbl _ _ _ Hb) as [Hne _].
  assert (Hin : inside (mkIterator (it_dict_entry_idx it) (it_dict_entry it) true false
                  (Z.of_nat (S k)) 0 sk (Some ps)) (S k) 0 ps).
  { split; try done. destruct ps; [done|simpl; lia]. }
  split; [|split; [|split; [|done]]].
  - etransitivity; [exact (remaining_inside _ _ _ _ Hin eq_refl)|]. cbn [it_dict_entry]. fold bls.
    by rewrite (all_postings_drop _ _ _ _ Hb).
  - symmetry. apply bool_decide_true. rewrite (all_postings_drop _ _ _ _ Hb).
    destruct ps; [done|]. done.
  - intros _. split; [done|]. by exists (S k), 0%nat, ps.
Qed.

(** ** Advancing and seeking a term *)

(** Only the position of [ts'] differs from that of [ts]. *)
Definition same_list (ts ts' : TpTermState) : Prop :=
  ts' = set_iter ts (ts_iter ts') /\
  it_dict_entry (ts_iter ts') = it_dict_entry (ts_iter ts).

(** [ts'] is [ts] moved to where [rem] remains. *)
Record moves (ts : TpTermState) (rem : list TpBlockPosting) (ts' : TpTermState) (ok : bool) : Prop := {
  mv_ok : term_ok ts';
  mv_remaining : remaining ts' = rem;
  mv_active : ok = bool_decide (rem <> []);
  mv_same : same_list ts ts';
}.

Lemma lands_moves ts it rem ok :
  ts_found ts = true -> it_dict_entry it = it_dict_entry (ts_iter ts) ->
  ts_block_last_doc_ids ts =
    Some (sk_last_doc_id <$> (blocks_of (it_dict_entry (ts_iter ts))).*1) ->
  lands rem it ok -> moves ts rem (set_iter ts it) ok.
Proof.
  intros Hf Hde Hlast (Hrem & Hok & Hpos & Hfin). split; try done.
  - intros _ Hfin'. cbn [set_iter ts_iter ts_block_last_doc_ids] in *. split; [by apply Hpos|].
    by rewrite Hlast, Hde.
  - unfold remaining. cbn [set_iter ts_found ts_iter]. by rewrite Hf.
Qed.

Lemma advance_ok ts p rest r :
  reads_segment h s c r -> term_ok ts -> remaining ts = p :: rest ->
  ensures (advance_term_iterator ts) r (fun res r' =>
    reads_segment h s c r' /\ moves ts rest res.2 res.1).
Proof.
  intros Hr Hok Hrem. destruct (remaining_active ts Hok) as [Hf Hfin]; [by rewrite Hrem|].
  destruct (Hok Hf Hfin) as [[Hl (k & j & ps & Hin)] Hlast]. set (it := ts_iter ts) in *.
  destruct (lookup_lt_is_Some_2 ps j (in_bound _ _ _ _ Hin)) as [q Hq].
  assert (Hrest : rest = drop (S j) ps ++ all_postings (drop (S k) (blocks_of (it_dict_entry it)))).
  { unfold remaining in Hrem. rewrite Hf in Hrem. fold it in Hrem.
    rewrite (remaining_cons it k j ps q Hin Hfin Hq) in Hrem. congruence. }
  unfold advance_term_iterator. fold it. cbn [it_skip_entry it_current_in_block set_position].
  destruct (block_nonempty s _ _ (lo_blocks _ Hl) _ _ _ (in_entry _ _ _ _ Hin)) as [_ Hcount].
  rewrite Hcount, (in_pos _ _ _ _ Hin).
  pose proof (in_bound _ _ _ _ Hin).
  destruct (Z.leb_spec (zlen ps) (Z.of_nat j + 1)) as [L|L].
  - rewrite (drop_ge ps (S j)) in Hrest by (unfold zlen in L; lia). cbn [app] in Hrest. subst rest.
    apply ensures_bind. eapply ensures_mono.
    { apply (load_next_block_ok (set_position it (it_finished it) (it_current_block it)
        (Z.of_nat j + 1)) k); try done; [apply (in_init _ _ _ _ Hin)|apply (in_block _ _ _ _ Hin)]. }
    intros [ok it2] r1 (Hr1 & Hde & Hland). apply ensures_ret. split; [done|].
    by apply lands_moves.
  - apply ensures_ret. split; [done|]. apply lands_moves; try done. cbn [fst snd].
    assert (Hin' : inside (set_position it (it_finished it) (it_current_block it) (Z.of_nat j + 1))
                     k (S j) ps).
    { destruct Hin. split; try done; [cbn [it_current_in_block set_position]; lia|].
      unfold zlen in L. lia. }
    destruct (lookup_lt_is_Some_2 ps (S j)) as [q' Hq']; [unfold zlen in L; lia|].
    split; [|split; [|split]].
    + etransitivity; [exact (remaining_inside _ _ _ _ Hin' Hfin)|]. by rewrite Hrest.
    + symmetry. apply bool_decide_true. rewrite Hrest, (drop_S _ _ _ Hq'). done.
    + intros _. split; [done|]. by exists k, (S j), ps.
    + cbn [it_finished set_position]. by rewrite Hfin.
Qed.

(** In a sorted list the postings from a target on are a suffix. *)
Lemma filter_suffix target (l1 l2 : list TpBlockPosting) :
  StronglySorted (fun p q => bp_doc_id p < bp_doc_id q) (l1 ++ l2) ->
  Forall (fun p => bp_doc_id p < target) l1 ->
  (forall p, head l2 = Some p -> target <= bp_doc_id p) ->
  filter (fun p => target <= bp_doc_id p) (l1 ++ l2) = l2.
Proof.
  intros Hs Hlow Hhead. rewrite filter_app, filter_none; cycle 1.
  { forall_lia Hlow. }
  apply filter_all. apply sorted_app_r in Hs. destruct l2 as [|p l2]; [constructor|].
  inversion_clear Hs as [|? ? _ HF]. pose proof (Hhead p eq_refl). constructor; [done|].
  forall_lia HF.
Qed.

Lemma scan_loaded_block_ok ts it target k j ps r :
  reads_segment h s c r -> ts_found ts = true -> it_dict_entry it = it_dict_entry (ts_iter ts) ->
  ts_block_last_doc_ids ts =
    Some (sk_last_doc_id <$> (blocks_of (it_dict_entry (ts_iter ts))).*1) ->
  list_ok (it_dict_entry it) -> inside it k j ps -> it_finished it = false ->
  (target <= sk_last_doc_id (it_skip_entry it) \/ S k = length (blocks_of (it_dict_entry it))) ->
  ensures (scan_loaded_block ts it target) r (fun res r' =>
    reads_segment h s c r' /\
    moves ts (filter (fun p => target <= bp_doc_id p) (remaining_from it)) res.2 res.1).
Proof.
  intros Hr Hf Hde Hlast Hl Hin Hfin Hhere. unfold scan_loaded_block.
  set (bls := blocks_of (it_dict_entry it)) in *.
  pose proof (in_entry _ _ _ _ Hin) as Hb. fold bls in Hb.
  destruct (block_nonempty s _ _ (lo_blocks _ Hl) _ _ _ Hb) as [_ Hcount].
  rewrite Hcount, (in_postings _ _ _ _ Hin), (in_pos _ _ _ _ Hin). cbn [default from_option id].
  pose proof (in_bound _ _ _ _ Hin) as Hj.
  destruct (scan_block_ok ps target (zlen ps) (Z.to_nat (zlen ps)) (Z.of_nat j) eq_refl) as
    (i' & Hscan & Hi' & Hlow & Hhigh); [unfold zlen; lia..|].
  apply ensures_bind. eapply ensures_lift; [exact Hscan|].
  set (i := Z.to_nat i') in *. assert (Ei : i' = Z.of_nat i) by lia.
  destruct (lo_sorted _ Hl) as [Hs Hlasts]. fold bls in Hs, Hlasts.
  rewrite (all_postings_split bls k _ ps Hb) in Hs. apply sorted_app_r in Hs.
  assert (Erem : remaining_from it =
    take (i - j) (drop j ps) ++ drop i ps ++ all_postings (drop (S k) bls)).
  { rewrite (remaining_inside it k j ps Hin Hfin). fold bls. rewrite app_assoc. f_equal.
    rewrite <- (take_drop (i - j) (drop j ps)) at 1. rewrite drop_drop. do 2 f_equal. lia. }
  assert (Htake : Forall (fun p => bp_doc_id p < target) (take (i - j) (drop j ps))).
  { apply Forall_forall. intros p (m & Hm)%list_elem_of_lookup.
    apply lookup_take_Some in Hm as [Hm Hlt]. rewrite lookup_drop in Hm.
    apply (Hlow (Z.of_nat (j + m))); [lia|]. by rewrite zget_nat. }
  assert (Hsort : StronglySorted (fun p q => bp_doc_id p < bp_doc_id q) (remaining_from it)).
  { rewrite (remaining_inside it k j ps Hin Hfin). fold bls.
    rewrite <- (take_drop j ps), <- app_assoc in Hs. by apply sorted_app_r in Hs. }
  rewrite Erem in Hsort |- *. destruct (Z.ltb_spec i' (zlen ps)) as [L|L].
  - destruct (zget_is_Some ps i' ltac:(lia)) as [p Hp].
    pose proof (Hhigh p Hp) as Hge. rewrite Ei, zget_nat in Hp.
    rewrite filter_suffix; [|done..|]; cycle 1.
    { intros q. rewrite (drop_S _ _ _ Hp). cbn [app head]. congruence. }
    apply ensures_ret. split; [done|]. apply lands_moves; try done. cbn [fst snd].
    assert (Hin' : inside (set_position it (it_finished it) (it_current_block it) i') k i ps).
    { destruct Hin. split; try done. by apply lookup_lt_Some in Hp. }
    split; [|split; [|split]].
    + exact (remaining_inside _ _ _ _ Hin' Hfin).
    + symmetry. apply bool_decide_true. by rewrite (drop_S _ _ _ Hp).
    + intros _. split; [done|]. by exists k, i, ps.
    + done.
  - assert (Hi : i = length ps) by (unfold zlen in *; lia).
    destruct (Hlasts k _ ps Hb) as (q & Hq & Eq).
    assert (Hend : S k = length bls).
    { destruct Hhere as [Hle|]; [|done]. rewrite Eq in Hle.
      assert (Hq' : ps !! (length ps - 1)%nat = Some q).
      { rewrite last_lookup in Hq. rewrite <- Hq. f_equal. lia. }
      pose proof (Hlow (Z.of_nat (length ps - 1)) q) as Hlt. rewrite zget_nat in Hlt.
      specialize (Hlt ltac:(lia) Hq'). lia. }
    rewrite (drop_ge bls) by lia. rewrite (drop_ge ps i) by lia.
    change (all_postings []) with (@nil TpBlockPosting). cbn [app].
    replace (filter _ _) with (all_postings (drop (S k) bls)); cycle 1.
    { rewrite (drop_ge bls) by lia. change (all_postings []) with (@nil TpBlockPosting).
      rewrite (drop_ge bls), (drop_ge ps i) in Hsort by lia.
      symmetry. apply filter_none. apply Forall_app. split; [|constructor].
      forall_lia Htake. }
    apply ensures_bind. eapply ensures_mono.
    { apply (load_next_block_ok (set_position it (it_finished it) (it_current_block it) i') k);
        try done; [apply (in_init _ _ _ _ Hin)|apply (in_block _ _ _ _ Hin)]. }
    intros [ok it2] r1 (Hr1 & Hde2 & Hland). apply ensures_ret. split; [done|]. cbn [fst snd] in *.
    pose proof (proj2 (proj2 (proj2 Hland))) as Hfin2. rewrite Hfin2, negb_involutive, andb_diag.
    apply lands_moves; [done| |done|done]. rewrite Hde2. done.
Qed.

(** ** Seeking across blocks *)

(** Postings of a block come after those of the blocks before. *)
Lemma block_bound de (i : nat) sk ps p : list_ok de -> blocks_of de !! i = Some (sk, ps) ->
  p ∈ ps -> bp_doc_id p <= sk_last_doc_id sk.
Proof.
  intros Hl Hi Hp.
  apply (up_to_last s de (blocks_of de) (lo_blocks _ Hl) (lo_sorted _ Hl) i sk ps p Hi). set_solver.
Qed.

Lemma lasts_increase de (i m : nat) sk ps sk' ps' : list_ok de -> (i <= m)%nat ->
  blocks_of de !! i = Some (sk, ps) -> blocks_of de !! m = Some (sk', ps') ->
  sk_last_doc_id sk <= sk_last_doc_id sk'.
Proof.
  intros Hl Him Hi Hm. destruct (decide (i = m)) as [->|]; [by simplify_eq|].
  destruct (lo_sorted _ Hl) as [_ Hlasts]. destruct (Hlasts i sk ps Hi) as (q & Hq & ->).
  apply (up_to_last s de (blocks_of de) (lo_blocks _ Hl) (lo_sorted _ Hl) m sk' ps' q Hm).
  apply elem_of_app. left. unfold all_postings. apply list_elem_of_In, in_concat.
  exists ps. split; apply list_elem_of_In.
  - apply list_elem_of_fmap. exists (sk, ps). split; [done|].
    apply (list_elem_of_lookup_2 _ i). by rewrite lookup_take_lt by lia.
  - apply last_Some in Hq as [l ->]. set_solver.
Qed.

Lemma search_last_doc_ids_ok de target : list_ok de ->
  forall fuel (left right : nat), (left <= right < length (blocks_of de))%nat ->
  (right - left < fuel)%nat ->
  (forall sk ps, blocks_of de !! right = Some (sk, ps) ->
     (S right < length (blocks_of de))%nat -> target <= sk_last_doc_id sk) ->
  exists k : nat,
    search_last_doc_ids fuel (sk_last_doc_id <$> (blocks_of de).*1) target (Z.of_nat left)
      (Z.of_nat right) = Ok (Z.of_nat k) /\ (left <= k <= right)%nat /\
    (forall (i : nat) sk ps, blocks_of de !! i = Some (sk, ps) -> (left <= i < k)%nat ->
       sk_last_doc_id sk < target) /\
    (forall sk ps, blocks_of de !! k = Some (sk, ps) ->
       target <= sk_last_doc_id sk \/ S k = length (blocks_of de)).
Proof.
  intros Hl. set (bls := blocks_of de) in *.
  induction fuel as [|fuel IH]; intros left right Hlr Hf Hhi; [lia|]. cbn [search_last_doc_ids].
  destruct (Z.ltb_spec (Z.of_nat left) (Z.of_nat right)) as [L|L]; cycle 1.
  { exists left. assert (left = right) as -> by lia. split; [done|]. split; [lia|]. split; [lia|].
    intros sk ps Hk. destruct (decide (S right < length bls)%nat); [left|right; lia]. by eapply Hhi. }
  set (m := (left + (right - left) / 2)%nat).
  pose proof (Nat.div_mod_eq (right - left) 2).
  pose proof (Nat.mod_upper_bound (right - left) 2 ltac:(lia)).
  replace (Z.of_nat left + (Z.of_nat right - Z.of_nat left) / 2) with (Z.of_nat m) by (unfold m; lia).
  assert (Hm : (left <= m < right)%nat) by (unfold m; lia). cbv zeta.
  destruct (lookup_lt_is_Some_2 bls m) as [[sk ps] Hbm]; [lia|].
  unfold zread. rewrite zget_nat, !list_lookup_fmap, Hbm. cbn [fmap option_fmap option_map mbind res_bind fst].
  destruct (Z.ltb_spec (sk_last_doc_id sk) target) as [Lt|Ge].
  - destruct (IH (S m) right) as (k & E & Hk & Hlow & Hhigh); [lia|lia|done|].
    exists k. replace (Z.of_nat m + 1) with (Z.of_nat (S m)) by lia.
    split; [exact E|]. split; [lia|]. split; [|done].
    intros i sk' ps' Hi Hik. destruct (decide (S m <= i)%nat); [apply (Hlow i sk' ps' Hi); lia|].
    pose proof (lasts_increase de i m sk' ps' sk ps Hl ltac:(lia) Hi Hbm). lia.
  - destruct (IH left m) as (k & E & Hk & Hlow & Hhigh); [lia|lia| |].
    { intros sk' ps' Hi _. replace sk' with sk by congruence. done. }
    exists k. split; [exact E|]. split; [lia|]. by split.
Qed.

Lemma all_postings_app (b1 b2 : blocks) : all_postings (b1 ++ b2) = all_postings b1 ++ all_postings b2.
Proof. unfold all_postings. by rewrite fmap_app, concat_app. Qed.

(** The blocks from [a] to [b] are below the target when their last documents are. *)
Lemma blocks_below de (a b : nat) target : list_ok de ->
  (forall (i : nat) sk ps, blocks_of de !! i = Some (sk, ps) -> (a <= i < b)%nat ->
     sk_last_doc_id sk < target) ->
  filter (fun p => target <= bp_doc_id p) (all_postings (take (b - a) (drop a (blocks_of de)))) = [].
Proof.
  intros Hl Hlow. apply filter_none, Forall_forall. intros p Hp. unfold all_postings in Hp.
  apply list_elem_of_In, in_concat in Hp as (ps' & Hin & Hp%list_elem_of_In).
  apply list_elem_of_In, list_elem_of_fmap in Hin as ([sk' ps''] & -> & Hin).
  apply list_elem_of_lookup in Hin as [i Hi]. apply lookup_take_Some in Hi as [Hi Hlt].
  rewrite lookup_drop in Hi.
  pose proof (Hlow _ _ _ Hi ltac:(lia)). pose proof (block_bound de _ _ _ p Hl Hi Hp). lia.
Qed.

Lemma seek_ok ts target r :
  reads_segment h s c r -> term_ok ts -> remaining ts <> [] ->
  ensures (seek_term_to_doc ts target) r (fun res r' =>
    reads_segment h s c r' /\
    moves ts (filter (fun p => target <= bp_doc_id p) (remaining ts)) res.2 res.1).
Proof.
  intros Hr Hok Hne. destruct (remaining_active ts Hok Hne) as [Hf Hfin].
  destruct (Hok Hf Hfin) as [[Hl (k & j & ps & Hin)] Hlast]. unfold seek_term_to_doc.
  rewrite Hf, Hfin. cbn [negb orb]. set (it := ts_iter ts) in *.
  assert (Hrem : remaining ts = remaining_from it) by (unfold remaining; by rewrite Hf).
  pose proof (in_entry _ _ _ _ Hin) as Hb. set (bls := blocks_of (it_dict_entry it)) in *.
  pose proof (lookup_lt_Some _ _ _ Hb) as Hkl.
  destruct (Z.leb_spec target (sk_last_doc_id (it_skip_entry it))) as [Lin|Lout].
  { rewrite Hrem. apply (scan_loaded_block_ok ts it target k j ps); try done. by left. }
  rewrite Hlast, (ba_count _ _ _ (lo_blocks _ Hl)), (in_block _ _ _ _ Hin). fold bls.
  cbn [default from_option id].
  assert (Hcur : filter (fun p => target <= bp_doc_id p) (drop j ps) = []).
  { apply filter_none, Forall_forall. intros p Hp.
    pose proof (block_bound _ k _ ps p Hl Hb) as Hle.
    assert (p ∈ ps) by (rewrite <- (take_drop j ps); apply elem_of_app; by right).
    specialize (Hle ltac:(done)). lia. }
  pose proof (lo_count _ Hl) as Hc16. rewrite (ba_count _ _ _ (lo_blocks _ Hl)) in Hc16. fold bls in Hc16.
  destruct (decide (S k = length bls)) as [Hend|Hmore].
  - apply ensures_bind. eapply ensures_lift.
    { cbn [search_last_doc_ids]. rewrite (proj2 (Z.ltb_ge _ _)) by (unfold zlen; lia). reflexivity. }
    rewrite wrap_small, (proj2 (Z.leb_le _ _)) by (unfold zlen in *; lia).
    apply ensures_ret. split; [done|]. apply lands_moves; try done. cbn [fst snd].
    rewrite Hrem, (remaining_inside it k j ps Hin Hfin). fold bls.
    rewrite (drop_ge bls), app_nil_r, Hcur by lia. by repeat split.
  - destruct (search_last_doc_ids_ok (it_dict_entry it) target Hl (S (Z.to_nat (zlen bls))) (S k)
      (length bls - 1)) as (k' & E & Hk' & Hlow & Hhigh); fold bls; [lia|unfold zlen; lia|lia|].
    apply ensures_bind. eapply ensures_lift.
    { replace (Z.of_nat k + 1) with (Z.of_nat (S k)) by lia.
      replace (zlen bls - 1) with (Z.of_nat (length bls - 1)) by (unfold zlen; lia). exact E. }
    rewrite wrap_small by (unfold zlen in *; lia).
    rewrite (proj2 (Z.leb_gt _ _)) by (unfold zlen; lia).
    destruct (lookup_lt_is_Some_2 bls k') as [[sk' ps'] Hb']; [lia|].
    eapply ensures_bind_runs.
    { by apply (load_block_ok h s c (it_dict_entry it) bls (lo_blocks _ Hl) _ k' sk' ps'). }
    intros r1 Hr1. cbn [negb it_finished it_initialized set_position].
    destruct (block_nonempty s _ _ (lo_blocks _ Hl) _ _ _ Hb') as [Hne' _].
    set (it1 := mkIterator _ _ _ _ _ _ sk' (Some ps')).
    assert (Hin1 : inside it1 k' 0 ps').
    { split; try done; [apply (in_init _ _ _ _ Hin)|]. destruct ps'; [done|simpl; lia]. }
    assert (Erem1 : remaining_from it1 = all_postings (drop k' bls)).
    { rewrite (remaining_inside it1 k' 0 ps' Hin1 eq_refl). by rewrite (all_postings_drop _ _ _ _ Hb'). }
    replace (filter _ (remaining ts)) with
      (filter (fun p => target <= bp_doc_id p) (remaining_from it1)).
    { apply (scan_loaded_block_ok ts it1 target k' 0 ps'); try done. by apply (Hhigh sk' ps'). }
    rewrite Hrem, (remaining_inside it k j ps Hin Hfin), Erem1. fold bls.
    rewrite filter_app, Hcur. cbn [app].
    rewrite <- (take_drop (k' - S k) (drop (S k) bls)), all_postings_app, filter_app.
    unfold bls at 2. rewrite (blocks_below _ (S k) k' target Hl) by exact Hlow.
    cbn [app]. rewrite drop_drop. do 3 f_equal. lia.
Qed.
End Terms.
