(* ===== verification/BmwOrder.v ===== *)
(** * The ordered array of terms, for WAND (src/query/bmw.c)

    What one step of WAND does to the array of term states: some postings of some
    terms are passed, the array stays sorted by current document, and the count of
    active terms is right.  [progress P] says that only documents in [P] were
    passed; it composes, and every step of the loop is an instance. *)
From S2P Require Import Prelude Postgres Float4 Fieldnorm TopK SegmentFormat Compression Storage.
From S2P Require Import SegmentIO Docmap SegmentScan ScanFacts Memtable Bmw BmwSingle BmwTerms.

(** What a query term is in a segment, independently of the iterator. *)
Record query_term := mkQueryTerm {
  qt_idf : float4;
  qt_query_freq : Z;
  qt_blocks : blocks;
}.

Definition has_doc (d : Z) (qt : query_term) : Prop :=
  d ∈ bp_doc_id <$> all_postings (qt_blocks qt).

#[export] Instance has_doc_dec d qt : Decision (has_doc d qt).
Proof. unfold has_doc. apply _. Defined.

Section Order.
Context {R : Type} `{SegmentAccessLaws R} `{ItemPointerOps}.
Context (h : TpSegmentHeader) (s : list byte) (c : option (list Z * list Z)).
Context (blocks_of : TpDictEntry -> blocks).
Context (k1 b avg_doc_len : float4).

Definition static (ts : TpTermState) : query_term :=
  mkQueryTerm (ts_idf ts) (ts_query_freq ts)
    (if ts_found ts then blocks_of (it_dict_entry (ts_iter ts)) else []).

Definition entry_bound (qt : query_term) (sk : TpSkipEntry) : float4 :=
  tp_compute_block_max_score sk (qt_idf qt) k1 b avg_doc_len.

(** The bounds of a term: on all its documents, and on those of a block. *)
Definition term_bound (qt : query_term) : float4 :=
  f4_mul (foldl (fun m x => if f4_gt x m then x else m) (f4_of_Z 0) (entry_bound qt <$> (qt_blocks qt).*1))
    (f4_of_Z (qt_query_freq qt)).
Definition block_bound_of (qt : query_term) (sk : TpSkipEntry) : float4 :=
  f4_mul (entry_bound qt sk) (f4_of_Z (qt_query_freq qt)).

(** A term state as [init_segment_term_states] and the moves leave it. *)
Record term_ready (ts : TpTermState) : Prop := {
  rd_ok : term_ok s blocks_of ts;
  rd_max : remaining blocks_of ts <> [] -> ts_max_score ts = term_bound (static ts);
  rd_blocks : remaining blocks_of ts <> [] ->
    ts_block_max_scores ts = Some (entry_bound (static ts) <$> (qt_blocks (static ts)).*1);
}.

Abbreviation cur := term_current_doc_id.
Abbreviation rem := (remaining blocks_of).
Definition rem_docs (ts : TpTermState) : list Z := bp_doc_id <$> rem ts.

(** Sorted by current document; how many terms are at a document up to [x]; how
    many postings are ahead. *)
Definition doc_sorted (terms : list TpTermState) : Prop :=
  StronglySorted (fun ta tb => cur ta <= cur tb) terms.
Definition upto (x : Z) (terms : list TpTermState) : nat := length (filter (fun ts => cur ts <= x) terms).
Definition measure (terms : list TpTermState) : nat := length (terms ≫= remaining blocks_of).
Definition active (terms : list TpTermState) : nat := upto (UINT32_MAX - 1) terms.

(** No posting of [d] was passed. *)
Definition intact (d : Z) (terms : list TpTermState) : Prop :=
  forall ts, ts ∈ terms -> has_doc d (static ts) -> d ∈ rem_docs ts.

Record progress (P : Z -> Prop) (terms terms' : list TpTermState) : Prop := {
  pg_ready : Forall term_ready terms';
  pg_static : static <$> terms' ≡ₚ static <$> terms;
  pg_measure : (measure terms' <= measure terms)%nat;
  pg_upto : forall x, (upto x terms' <= upto x terms)%nat;
  pg_intact : forall d, ~ P d -> intact d terms -> intact d terms';
}.

Lemma progress_refl P terms : Forall term_ready terms -> progress P terms terms.
Proof. by split. Qed.

Lemma progress_trans P t1 t2 t3 : progress P t1 t2 -> progress P t2 t3 -> progress P t1 t3.
Proof.
  intros [A1 A2 A3 A4 A5] [B1 B2 B3 B4 B5].
  split; [done|by rewrite B2|lia|intros x; specialize (A4 x); specialize (B4 x); lia|auto].
Qed.

Lemma progress_mono (P Q : Z -> Prop) t1 t2 :
  (forall d, P d -> Q d) -> progress P t1 t2 -> progress Q t1 t2.
Proof. intros HPQ [A1 A2 A3 A4 A5]. split; auto. Qed.

(** ** Facts on the order *)

Lemma cur_rem ts : term_ready ts ->
  cur ts = match rem ts with [] => UINT32_MAX | p :: _ => bp_doc_id p end.
Proof. intros Hr. apply (current_doc_ok s), (rd_ok _ Hr). Qed.

Lemma cur_active ts : term_ready ts -> rem ts <> [] <-> cur ts < UINT32_MAX.
Proof.
  intros Hr. rewrite (cur_rem ts Hr). destruct (remaining_docs s blocks_of ts (rd_ok _ Hr)) as [HF _].
  destruct (rem ts) as [|p ps]; [split; [done|lia]|].
  apply Forall_cons in HF as [Hp _]. split; [lia|done].
Qed.

Lemma cur_le_rem ts d : term_ready ts -> d ∈ rem_docs ts -> cur ts <= d < UINT32_MAX.
Proof.
  intros Hr Hd. rewrite (cur_rem ts Hr). unfold rem_docs in Hd.
  destruct (remaining_docs s blocks_of ts (rd_ok _ Hr)) as [HF Hs].
  apply list_elem_of_fmap in Hd as (q & -> & Hq).
  rewrite Forall_forall in HF. pose proof (HF q Hq).
  destruct (rem ts) as [|p ps]; [by apply elem_of_nil in Hq|].
  inversion_clear Hs as [|? ? _ HF']. rewrite Forall_forall in HF'.
  apply elem_of_cons in Hq as [->|Hq]; [lia|]. pose proof (HF' q Hq). lia.
Qed.

Lemma sorted_upto x terms i ts : doc_sorted terms -> terms !! i = Some ts ->
  cur ts <= x <-> (i < upto x terms)%nat.
Proof.
  unfold doc_sorted, upto. intros Hs. revert i. induction Hs as [|t l Hs IH HF]; intros i Hi; [done|].
  rewrite filter_cons. destruct i as [|i]; simpl in Hi.
  - injection Hi as ->. case_decide as Hc; simpl; [lia|]. rewrite filter_none; [simpl; lia|].
    forall_lia HF.
  - case_decide as Hc; simpl; [rewrite IH by done; lia|].
    rewrite filter_none by (forall_lia HF).
    rewrite Forall_forall in HF. pose proof (HF ts (list_elem_of_lookup_2 _ _ _ Hi)). simpl. lia.
Qed.

Lemma upto_perm x t1 t2 : t1 ≡ₚ t2 -> upto x t1 = upto x t2.
Proof. intros Hp. unfold upto. by rewrite Hp. Qed.

Lemma upto_mono x y terms : x <= y -> (upto x terms <= upto y terms)%nat.
Proof.
  intros Hxy. unfold upto. induction terms as [|t l IH]; [done|].
  rewrite !filter_cons. repeat case_decide; simpl; lia.
Qed.

Lemma upto_length x terms : (upto x terms <= length terms)%nat.
Proof. unfold upto. apply length_filter. Qed.

Lemma sorted_active terms i ts : Forall term_ready terms -> doc_sorted terms ->
  terms !! i = Some ts -> rem ts <> [] <-> (i < active terms)%nat.
Proof.
  intros Hr Hs Hi. unfold active. rewrite <- sorted_upto by done.
  rewrite Forall_lookup in Hr. rewrite cur_active by (by eapply Hr). lia.
Qed.

(** ** Restoring the order *)

Lemma move_right_perm ts rest : move_right ts rest ≡ₚ ts :: rest.
Proof.
  induction rest as [|t rest IH]; [done|]. cbn [move_right]. case_match; [done|].
  rewrite IH. apply Permutation_swap.
Qed.

Lemma move_right_sorted ts rest : doc_sorted rest -> doc_sorted (move_right ts rest).
Proof.
  unfold doc_sorted. induction 1 as [|t rest Hs IH HF]; cbn [move_right]; [repeat constructor|].
  destruct (Z.leb_spec (cur ts) (cur t)) as [L|L].
  - constructor; [by constructor|]. constructor; [done|].
    forall_lia HF.
  - constructor; [done|]. rewrite move_right_perm. constructor; [lia|done].
Qed.

(** Replacing the term at [i] by one further on, and restoring the order. *)
Lemma restore_shape terms i ts ts' : terms !! i = Some ts ->
  restore_ordering (<[i := ts']> terms) i = take i terms ++ move_right ts' (drop (S i) terms).
Proof.
  intros Hi. pose proof (lookup_lt_Some _ _ _ Hi). unfold restore_ordering.
  rewrite insert_take_drop by done. rewrite drop_app_length' by (rewrite length_take; lia).
  by rewrite take_app_length' by (rewrite length_take; lia).
Qed.

Lemma restore_sorted terms i ts ts' : doc_sorted terms -> terms !! i = Some ts ->
  cur ts <= cur ts' -> doc_sorted (restore_ordering (<[i := ts']> terms) i).
Proof.
  intros Hs Hi Hle. rewrite (restore_shape _ _ ts) by done.
  unfold doc_sorted in *. rewrite <- (take_drop_middle _ _ _ Hi) in Hs.
  apply StronglySorted_app in Hs as (Hlr & Hs1 & Hs2). inversion_clear Hs2 as [|? ? Hs3 HF].
  apply StronglySorted_app. split; [|split; [done|by apply move_right_sorted]].
  intros x y Hx Hy. rewrite move_right_perm in Hy. apply elem_of_cons in Hy as [->|Hy].
  - transitivity (cur ts); [|done]. apply Hlr; [done|by left].
  - apply Hlr; [done|by right].
Qed.

Lemma restore_perm terms i ts ts' : terms !! i = Some ts ->
  restore_ordering (<[i := ts']> terms) i ≡ₚ ts' :: (take i terms ++ drop (S i) terms).
Proof.
  intros Hi. rewrite (restore_shape _ _ ts) by done. rewrite move_right_perm.
  by rewrite Permutation_middle.
Qed.

Lemma terms_perm (terms : list TpTermState) i ts : terms !! i = Some ts ->
  terms ≡ₚ ts :: (take i terms ++ drop (S i) terms).
Proof.
  intros Hi. rewrite <- (take_drop_middle _ _ _ Hi) at 1. by rewrite Permutation_middle.
Qed.

(** ** One term moves *)

Lemma moved_static ts rem' ts' ok : moves s blocks_of ts rem' ts' ok -> static ts' = static ts.
Proof.
  intros Hm. destruct (mv_same _ _ _ _ _ _ Hm) as [-> Hde]. unfold static.
  cbn [set_iter ts_idf ts_query_freq ts_found ts_iter] in *. by rewrite Hde.
Qed.

Lemma moved_ready ts rem' ts' ok : term_ready ts -> rem ts <> [] ->
  moves s blocks_of ts rem' ts' ok -> term_ready ts'.
Proof.
  intros Hr Hne Hm. pose proof (moved_static _ _ _ _ Hm) as Hst.
  destruct (mv_same _ _ _ _ _ _ Hm) as [E _].
  split; [apply (mv_ok _ _ _ _ _ _ Hm)| |]; intros _; rewrite Hst, E;
    [by apply (rd_max _ Hr)|by apply (rd_blocks _ Hr)].
Qed.

Lemma moved_cur ts rem' ts' ok dropped : term_ready ts -> rem ts <> [] ->
  moves s blocks_of ts rem' ts' ok -> rem ts = dropped ++ rem' -> cur ts <= cur ts'.
Proof.
  intros Hr Hne Hm Hsplit. pose proof (moved_ready _ _ _ _ Hr Hne Hm) as Hr'.
  destruct (decide (rem ts' = [])) as [E|N].
  - rewrite (cur_rem ts' Hr'), E. apply Z.lt_le_incl. by apply cur_active.
  - rewrite (cur_rem ts' Hr'). destruct (rem ts') as [|p ps] eqn:Ep; [done|].
    apply (cur_le_rem ts); [done|]. unfold rem_docs. rewrite Hsplit.
    rewrite (mv_remaining _ _ _ _ _ _ Hm) in Ep. rewrite Ep, fmap_app, elem_of_app. right. left.
Qed.

(** The result of moving the term [ts] at [i] past [n] postings, to [ts']. *)
Record replaced (P : Z -> Prop) (terms : list TpTermState) (i : nat) (ts ts' : TpTermState)
    (n : nat) (ok : bool) (terms' : list TpTermState) : Prop := {
  rp_progress : progress P terms terms';
  rp_sorted : doc_sorted terms';
  rp_before : take i terms' = take i terms;
  rp_measure : (measure terms' + n = measure terms)%nat;
  rp_active : active terms = (active terms' + (if ok then 0 else 1))%nat;
  rp_length : length terms' = length terms;
  rp_passed : forall x, cur ts <= x < cur ts' -> upto x terms = S (upto x terms');
}.

Lemma intact_perm d t1 t2 : t1 ≡ₚ t2 -> intact d t1 -> intact d t2.
Proof. intros Hp Hi ts Hts. apply Hi. by rewrite Hp. Qed.

Lemma replace_ok P terms i ts rem' ts' ok dropped :
  Forall term_ready terms -> doc_sorted terms -> terms !! i = Some ts -> rem ts <> [] ->
  moves s blocks_of ts rem' ts' ok -> rem ts = dropped ++ rem' ->
  Forall (fun p => P (bp_doc_id p)) dropped ->
  replaced P terms i ts ts' (length dropped) ok (restore_ordering (<[i := ts']> terms) i).
Proof.
  intros Hr Hs Hi Hne Hm Hsplit HP.
  pose proof (terms_perm terms i ts Hi) as Hp.
  pose proof (restore_perm terms i ts ts' Hi) as Hp'.
  set (others := take i terms ++ drop (S i) terms) in *.
  set (terms' := restore_ordering _ i) in *.
  assert (Hrs : term_ready ts /\ Forall term_ready others).
  { apply Forall_cons. by rewrite <- Hp. }
  destruct Hrs as [Hrts Hro]. pose proof (moved_ready _ _ _ _ Hrts Hne Hm) as Hrts'.
  pose proof (moved_cur _ _ _ _ _ Hrts Hne Hm Hsplit) as Hcur.
  pose proof (mv_remaining _ _ _ _ _ _ Hm) as Hrem.
  assert (Hmeas : (measure terms' + length dropped = measure terms)%nat).
  { unfold measure. rewrite Hp', Hp, !bind_cons, !length_app, Hrem, Hsplit, length_app. lia. }
  assert (Hupto : forall x, (upto x terms' + (if decide (cur ts <= x < cur ts')%Z then 1 else 0)
                             = upto x terms)%nat).
  { intros x. rewrite (upto_perm x _ _ Hp'), (upto_perm x _ _ Hp). unfold upto.
    rewrite !filter_cons. repeat case_decide; simpl; lia. }
  split.
  - split.
    + rewrite Hp'. by constructor.
    + rewrite Hp', Hp. csimpl. by rewrite (moved_static _ _ _ _ Hm).
    + lia.
    + intros x. specialize (Hupto x). case_decide; lia.
    + intros d Hd Hint. apply (intact_perm d (ts' :: others)); [by symmetry|].
      apply (intact_perm d _ _ Hp) in Hint. intros t [->|Ht]%elem_of_cons Hdoc; cycle 1.
      { apply Hint; [by right|done]. }
      rewrite (moved_static _ _ _ _ Hm) in Hdoc. specialize (Hint ts ltac:(by left) Hdoc).
      unfold rem_docs in *. rewrite Hrem. rewrite Hsplit, fmap_app in Hint.
      apply elem_of_app in Hint as [Hin|]; [|done].
      apply list_elem_of_fmap in Hin as (p & -> & Hin). rewrite Forall_forall in HP.
      by destruct Hd; apply HP.
  - by apply (restore_sorted terms i ts).
  - unfold terms'. rewrite (restore_shape terms i ts) by done.
    pose proof (lookup_lt_Some _ _ _ Hi). rewrite take_app_length' by (rewrite length_take; lia). done.
  - done.
  - unfold active. specialize (Hupto (UINT32_MAX - 1)).
    rewrite (mv_active _ _ _ _ _ _ Hm), <- Hrem.
    apply cur_active in Hne; [|done]. pose proof (cur_active ts' Hrts') as Ha.
    case_bool_decide as Hb; [apply Ha in Hb|assert (~ cur ts' < UINT32_MAX) by tauto];
      case_decide; lia.
  - rewrite Hp'. rewrite (Permutation_length Hp). done.
  - intros x Hx. specialize (Hupto x). rewrite decide_True in Hupto by done. lia.
Qed.

Lemma replaced_mono (P Q : Z -> Prop) terms i ts ts' n ok terms' : (forall d, P d -> Q d) ->
  replaced P terms i ts ts' n ok terms' -> replaced Q terms i ts ts' n ok terms'.
Proof. intros HPQ [A1 A2 A3 A4 A5 A6 A7]. split; try done. by eapply progress_mono. Qed.

(** A term of an intact document is active, at or before it. *)
Lemma has_doc_active d terms i ts : Forall term_ready terms -> doc_sorted terms ->
  intact d terms -> terms !! i = Some ts -> has_doc d (static ts) ->
  rem ts <> [] /\ cur ts <= d /\ (i < active terms)%nat.
Proof.
  intros HF Hs Hint Hi Hd. pose proof (Forall_lookup_1 _ _ _ _ HF Hi) as Hr.
  pose proof (Hint ts (list_elem_of_lookup_2 _ _ _ Hi) Hd) as Hrem.
  assert (Hne : rem ts <> []).
  { intros E. unfold rem_docs in Hrem. rewrite E in Hrem. by apply elem_of_nil in Hrem. }
  split; [done|]. split; [by apply cur_le_rem|]. by apply (sorted_active terms i ts HF Hs Hi).
Qed.
End Order.
