(* ===== verification/BmwSteps.v ===== *)
(** * The steps of WAND (src/query/bmw.c)

    The pivot, the seeks to it, the skip past blocks and the move past a document:
    what each does to the ordered array of terms (BmwOrder.progress), and by how
    much it advances. *)
From S2P Require Import Prelude Postgres Float4 Fieldnorm TopK SegmentFormat Compression Storage.
From S2P Require Import SegmentIO Docmap SegmentScan ScanFacts Memtable Bmw BmwSingle BmwTerms BmwOrder.

(** The sum of scores, in the order of the list. *)
Definition fsum (xs : list float4) : float4 := foldl f4_add (f4_of_Z 0) xs.

Lemma fsum_snoc xs x : fsum (xs ++ [x]) = f4_add (fsum xs) x.
Proof. unfold fsum. by rewrite foldl_app. Qed.

(** A sorted posting list is what is below the target, then what is not. *)
Lemma sorted_split target (l : list TpBlockPosting) :
  StronglySorted (fun p q => bp_doc_id p < bp_doc_id q) l ->
  l = filter (fun p => bp_doc_id p < target) l ++ filter (fun p => target <= bp_doc_id p) l.
Proof.
  induction 1 as [|p l Hs IH HF]; [done|]. rewrite !filter_cons.
  destruct (decide (bp_doc_id p < target)) as [L|L].
  - rewrite decide_False by lia. cbn [app]. by f_equal.
  - rewrite decide_True by lia. rewrite filter_none; cycle 1.
    { forall_lia HF. }
    cbn [app]. f_equal. symmetry. apply filter_all.
    forall_lia HF.
Qed.

Section Steps.
Context {R : Type} `{SegmentAccessLaws R} `{ItemPointerOps}.
Context (h : TpSegmentHeader) (s : list byte) (c : option (list Z * list Z)).
Context (blocks_of : TpDictEntry -> blocks).
Context (k1 b avg_doc_len : float4).

Abbreviation cur := term_current_doc_id.
Abbreviation rem := (remaining blocks_of).
Abbreviation ready := (term_ready s blocks_of k1 b avg_doc_len).
Abbreviation prog := (progress s blocks_of k1 b avg_doc_len).
Abbreviation meas := (measure blocks_of).
Abbreviation reads := (reads_segment h s c).

(** ** The pivot *)

Lemma count_at_doc_ok d terms : doc_sorted terms ->
  (forall ts, ts ∈ terms -> d <= cur ts) -> count_at_doc terms d = upto d terms.
Proof.
  unfold upto. induction 1 as [|t l Hs IH HF]; intros Hge; [done|].
  cbn [count_at_doc]. rewrite filter_cons. pose proof (Hge t ltac:(by left)).
  destruct (Z.eqb_spec (cur t) d) as [E|N].
  - rewrite decide_True by lia. cbn [length]. f_equal. apply IH. intros ts Hts. apply Hge. by right.
  - rewrite decide_False by lia. rewrite filter_none; [done|].
    forall_lia HF.
Qed.

(** The sum of the bounds of the first [i] terms does not exceed the threshold. *)
Definition below_bounds (terms : list TpTermState) (i : nat) (threshold : float4) : Prop :=
  i = 0%nat \/ f4_gt (fsum (ts_max_score <$> take i terms)) threshold = false.

(** The pivot term [i]: all terms before the pivot document are among the first
    [i], whose bounds do not exceed the threshold. *)
Definition pivot_at (terms : list TpTermState) (threshold : float4) (n : nat) (d : Z) : Prop :=
  n = upto d terms /\ d < UINT32_MAX /\ (0 < n)%nat /\
  exists i ts, terms !! i = Some ts /\ cur ts = d /\ (upto (d - 1) terms <= i)%nat /\
    below_bounds terms i threshold.

Lemma upto_app x t1 t2 : upto x (t1 ++ t2) = (upto x t1 + upto x t2)%nat.
Proof. unfold upto. by rewrite filter_app, length_app. Qed.

Lemma upto_all x terms : Forall (fun ts => cur ts <= x) terms -> upto x terms = length terms.
Proof. intros HF. unfold upto. by rewrite filter_all. Qed.

Lemma upto_none x terms : Forall (fun ts => x < cur ts) terms -> upto x terms = 0%nat.
Proof.
  intros HF. unfold upto. rewrite filter_none; [done|].
  forall_lia HF.
Qed.

Lemma find_pivot_from_ok threshold : forall rest pre,
  Forall ready (pre ++ rest) -> doc_sorted (pre ++ rest) ->
  Forall (fun ts => cur ts < UINT32_MAX) pre ->
  below_bounds (pre ++ rest) (length pre) threshold ->
  match find_pivot_from rest (length pre) (fsum (ts_max_score <$> pre)) threshold with
  | Some (n, d) => pivot_at (pre ++ rest) threshold n d
  | None => below_bounds (pre ++ rest) (active (pre ++ rest)) threshold
  end.
Proof.
  induction rest as [|ts rest IH]; intros pre Hr Hs Hact Hb; cbn [find_pivot_from].
  { rewrite app_nil_r in *. unfold active. rewrite upto_all; [done|].
    forall_lia Hact. }
  pose proof Hs as Hs'. unfold doc_sorted in Hs'. apply StronglySorted_app in Hs' as (Hlr & _ & Hs2).
  inversion_clear Hs2 as [|? ? Hs3 HF].
  assert (Hge : Forall (fun t => cur ts <= cur t) (ts :: rest)) by (by constructor).
  destruct (Z.eqb_spec (cur ts) UINT32_MAX) as [Emax|Nmax].
  { unfold active. rewrite upto_app, (upto_all _ pre), (upto_none _ (ts :: rest)); [by rewrite Nat.add_0_r| |].
    - forall_lia Hge.
    - forall_lia Hact. }
  assert (Hts : cur ts < UINT32_MAX).
  { apply (cur_active s blocks_of k1 b avg_doc_len); [by apply Forall_app in Hr as [_ [? _]%Forall_cons]|].
    intros E. apply Nmax. rewrite (cur_rem s blocks_of k1 b avg_doc_len), E; [done|].
    by apply Forall_app in Hr as [_ [? _]%Forall_cons]. }
  destruct (f4_gt _ threshold) eqn:Egt.
  - assert (Hupto : upto (cur ts) (pre ++ ts :: rest) = S (length pre + count_at_doc rest (cur ts))).
    { rewrite upto_app. rewrite (upto_all _ pre); cycle 1.
      { apply Forall_forall. intros t Ht. apply Hlr; [done|by left]. }
      rewrite (count_at_doc_ok (cur ts) rest Hs3); cycle 1.
      { intros t Ht. rewrite Forall_forall in HF. by apply HF. }
      unfold upto. rewrite filter_cons, decide_True by lia. simpl. lia. }
    split; [rewrite Hupto; done|]. split; [done|]. split; [lia|].
    exists (length pre), ts. split; [by apply list_lookup_middle|]. split; [done|].
    split; [|done]. rewrite upto_app, (upto_none _ (ts :: rest)); cycle 1.
    { forall_lia Hge. }
    pose proof (upto_length (cur ts - 1) pre). lia.
  - specialize (IH (pre ++ [ts])). rewrite <- !app_assoc in IH. cbn [app] in IH.
    rewrite length_app, Nat.add_1_r, fmap_app in IH. csimpl in IH. rewrite fsum_snoc in IH. apply IH; try done.
    + apply Forall_app. split; [done|]. by repeat constructor.
    + right.
      replace (take (S (length pre)) (pre ++ ts :: rest)) with (pre ++ [ts]); cycle 1.
      { rewrite (cons_middle ts pre rest), app_assoc. rewrite take_app_length'; [done|].
        rewrite length_app. simpl. lia. }
      rewrite fmap_app. csimpl. by rewrite fsum_snoc.
Qed.

Lemma find_wand_pivot_ok terms threshold : Forall ready terms -> doc_sorted terms ->
  match find_wand_pivot terms threshold with
  | Some (n, d) => pivot_at terms threshold n d
  | None => below_bounds terms (active terms) threshold
  end.
Proof.
  intros Hr Hs. apply (find_pivot_from_ok threshold terms []); try done. by left.
Qed.

(** ** Moving one term *)

(** The array after a step, with its count of active terms. *)
Record stepped (P : Z -> Prop) (terms terms' : list TpTermState) (active' : Z) : Prop := {
  sp_progress : prog P terms terms';
  sp_sorted : doc_sorted terms';
  sp_active : active' = Z.of_nat (active terms');
  sp_length : length terms' = length terms;
}.

Lemma stepped_refl P terms : Forall ready terms -> doc_sorted terms ->
  stepped P terms terms (Z.of_nat (active terms)).
Proof. intros Hr Hs. split; [by apply progress_refl|done..]. Qed.

Lemma stepped_trans P t1 t2 t3 a2 a3 : stepped P t1 t2 a2 -> stepped P t2 t3 a3 -> stepped P t1 t3 a3.
Proof.
  intros [A1 A2 A3 A4] [B1 B2 B3 B4]. split; [|done..|congruence].
  by eapply progress_trans.
Qed.

Lemma stepped_mono (P Q : Z -> Prop) t1 t2 a : (forall d, P d -> Q d) ->
  stepped P t1 t2 a -> stepped Q t1 t2 a.
Proof. intros HPQ [A1 A2 A3 A4]. split; try done. by eapply progress_mono. Qed.

Lemma replaced_stepped P terms i ts ts' n ok terms' a :
  replaced s blocks_of k1 b avg_doc_len P terms i ts ts' n ok terms' ->
  a = (if ok : bool then Z.of_nat (active terms) else Z.of_nat (active terms) - 1) ->
  stepped P terms terms' a.
Proof.
  intros Hrp ->. split; [apply Hrp|apply Hrp| |apply Hrp].
  pose proof (rp_active _ _ _ _ _ _ _ _ _ _ _ _ _ Hrp). destruct ok; lia.
Qed.

Lemma sorted_rem ts : ready ts ->
  StronglySorted (fun p q => bp_doc_id p < bp_doc_id q) (rem ts).
Proof. intros Hr. apply (remaining_docs s blocks_of ts), (rd_ok _ _ _ _ _ _ Hr). Qed.

(** The postings passed by a seek. *)
Definition passed (ts : TpTermState) (target : Z) : list TpBlockPosting :=
  filter (fun p => bp_doc_id p < target) (rem ts).

Lemma passed_docs ts target : ready ts ->
  Forall (fun p => cur ts <= bp_doc_id p < target) (passed ts target).
Proof.
  intros Hr. apply Forall_forall. intros p [Hlt Hp]%list_elem_of_filter. split; [|done].
  apply (cur_le_rem s blocks_of k1 b avg_doc_len ts); [done|]. by apply list_elem_of_fmap_2.
Qed.

Lemma passed_nonempty ts target : ready ts -> rem ts <> [] -> cur ts < target ->
  (0 < length (passed ts target))%nat.
Proof.
  intros Hr Hne Hlt. rewrite (cur_rem s blocks_of k1 b avg_doc_len ts Hr) in Hlt. unfold passed.
  destruct (rem ts) as [|p ps]; [done|]. rewrite filter_cons, decide_True by done. simpl. lia.
Qed.

Abbreviation moved := (replaced s blocks_of k1 b avg_doc_len).

Lemma seek_term_ok (P : Z -> Prop) terms i ts target r :
  reads r -> Forall ready terms -> doc_sorted terms -> terms !! i = Some ts -> rem ts <> [] ->
  Forall (fun p => P (bp_doc_id p)) (passed ts target) ->
  ensures (seek_term_to_doc ts target) r (fun res r' => reads r' /\
    moved P terms i ts res.2 (length (passed ts target)) res.1
      (restore_ordering (<[i := res.2]> terms) i) /\
    (target <= UINT32_MAX -> target <= cur res.2)).
Proof.
  intros Hr HF Hs Hi Hne HP. pose proof (Forall_lookup_1 _ _ _ _ HF Hi) as Hts.
  eapply ensures_mono; [exact (seek_ok h s c blocks_of ts target r Hr (rd_ok _ _ _ _ _ _ Hts) Hne)|].
  intros [ok ts'] r1 [Hr1 Hm]. cbn [fst snd] in *. split; [done|].
  pose proof (sorted_split target (rem ts) (sorted_rem ts Hts)) as Hsplit.
  split; [by eapply replace_ok|].
  intros Hmax. pose proof (moved_ready _ _ _ _ _ _ _ _ _ Hts Hne Hm) as Hts'.
  rewrite (cur_rem s blocks_of k1 b avg_doc_len ts' Hts'), (mv_remaining _ _ _ _ _ _ Hm).
  destruct (filter _ _) as [|p ps] eqn:Ef; [done|].
  assert (Hp : p ∈ filter (fun p => target <= bp_doc_id p) (rem ts)) by (rewrite Ef; left).
  by apply list_elem_of_filter in Hp as [? _].
Qed.

(** The same, in the loops: the count of active terms follows. *)
Lemma seek_at_ok terms i ts target r :
  reads r -> Forall ready terms -> doc_sorted terms -> terms !! i = Some ts -> rem ts <> [] ->
  target <= UINT32_MAX ->
  ensures (seek_at terms i target (Z.of_nat (active terms))) r (fun res r' => reads r' /\
    let terms' := restore_ordering res.2.1 i in
    stepped (fun x => cur ts <= x < target) terms terms' res.2.2 /\
    (res.1 = true -> active terms' = active terms) /\
    (cur ts < target -> (meas terms' < meas terms)%nat /\
       (upto (target - 1) terms' < upto (target - 1) terms)%nat)).
Proof.
  intros Hr HF Hs Hi Hne Hmax. unfold seek_at, term_at. rewrite Hi.
  apply ensures_bind. eapply ensures_lift; [done|]. apply ensures_bind.
  eapply ensures_mono.
  { apply (seek_term_ok (fun x => cur ts <= x < target) terms i ts target); try done.
    by apply passed_docs, (Forall_lookup_1 _ _ _ _ HF Hi). }
  intros [ok ts'] r1 (Hr1 & Hrp & Hcur). cbn [fst snd] in *. apply ensures_ret.
  split; [done|]. cbn [fst snd]. split; [by eapply replaced_stepped|]. split.
  - intros ->. pose proof (rp_active _ _ _ _ _ _ _ _ _ _ _ _ _ Hrp) as Ha. simpl in Ha. lia.
  - intros Hlt. pose proof (Forall_lookup_1 _ _ _ _ HF Hi) as Hts.
    pose proof (passed_nonempty ts target Hts Hne Hlt).
    pose proof (rp_measure _ _ _ _ _ _ _ _ _ _ _ _ _ Hrp). split; [lia|].
    specialize (Hcur Hmax).
    rewrite (rp_passed _ _ _ _ _ _ _ _ _ _ _ _ _ Hrp (target - 1)) by lia. lia.
Qed.

(** ** Step 2: the seeks to the pivot *)

Definition at_or_past (d : Z) (terms : list TpTermState) : Prop := upto (d - 1) terms = 0%nat.

Lemma at_or_past_cur d terms i ts : doc_sorted terms -> at_or_past d terms ->
  terms !! i = Some ts -> d <= cur ts.
Proof.
  intros Hs H0' Hi. destruct (Z.le_gt_cases (cur ts) (d - 1)) as [L|]; [|lia].
  apply (sorted_upto (d - 1) terms i ts Hs Hi) in L. unfold at_or_past in H0'. lia.
Qed.

Lemma active_lookup terms i : Forall ready terms -> doc_sorted terms -> (i < active terms)%nat ->
  exists ts, terms !! i = Some ts /\ rem ts <> [] /\ ready ts.
Proof.
  intros HF Hs Hi. pose proof (upto_length (UINT32_MAX - 1) terms) as Hl. unfold active in *.
  destruct (lookup_lt_is_Some_2 terms i) as [ts Hts]; [lia|]. exists ts. split; [done|].
  split; [by eapply sorted_active|by eapply Forall_lookup_1].
Qed.

(** What the seeks give: all terms at or past the pivot when none was exhausted;
    otherwise at least a posting was passed. *)
Definition seeks_done (n : nat) (d : Z) (terms terms' : list TpTermState) (ok : bool) : Prop :=
  if ok then at_or_past d terms' /\ (n <= active terms')%nat /\
             (terms' = terms \/ (meas terms' < meas terms)%nat)
  else (meas terms' < meas terms)%nat.

Lemma seek_pivot_loop_ok n d : (0 < n)%nat -> d < UINT32_MAX -> forall fuel i terms r,
  reads r -> Forall ready terms -> doc_sorted terms -> (n <= active terms)%nat ->
  (i <= n)%nat -> (i = 0%nat \/ at_or_past d terms) ->
  (upto (d - 1) terms + (n - i) < fuel)%nat ->
  ensures (seek_pivot_loop fuel terms n d i (Z.of_nat (active terms))) r (fun res r' =>
    reads r' /\ stepped (fun x => x < d) terms res.2.1 res.2.2 /\
    seeks_done n d terms res.2.1 res.1).
Proof.
  intros Hn Hd. induction fuel as [|fuel IH]; intros i terms r Hr HF Hs Hact Hi Hpast Hf; [lia|].
  cbn [seek_pivot_loop]. destruct (Nat.ltb_spec i n) as [Lt|Ge]; cycle 1.
  { apply ensures_ret. split; [done|]. split; [by apply stepped_refl|]. cbn [fst snd].
    destruct Hpast; [lia|]. split; [done|]. split; [done|by left]. }
  destruct (active_lookup terms i HF Hs ltac:(lia)) as (ts & Hts & Hne & Hrdy).
  apply ensures_bind. eapply ensures_lift; [unfold term_at; by rewrite Hts|].
  pose proof (proj1 (cur_active s blocks_of k1 b avg_doc_len ts Hrdy) Hne) as Hcur.
  rewrite (proj2 (Z.eqb_neq _ _)) by lia.
  destruct (Z.ltb_spec (cur ts) d) as [Ld|Ld]; cycle 1.
  { eapply ensures_mono; [apply (IH (S i) terms r); try done; try lia|done].
    right. destruct Hpast as [->|]; [|done]. unfold at_or_past.
    destruct (Nat.eq_dec (upto (d - 1) terms) 0) as [E|N]; [done|].
    assert (cur ts <= d - 1) by (apply (sorted_upto (d - 1) terms 0 ts); [done..|lia]). lia. }
  apply ensures_bind. eapply ensures_mono; [by apply (seek_at_ok terms i ts d); [..|lia]|].
  intros [ok [terms1 active1]] r1 (Hr1 & Hst & Hsame & Hprog). cbn [fst snd] in *.
  set (terms2 := restore_ordering terms1 i) in *. destruct (Hprog Ld) as [Hm Hu].
  assert (Hst' : stepped (fun x => x < d) terms terms2 active1).
  { eapply stepped_mono; [|exact Hst]. simpl. intros x Hx. lia. }
  destruct ok; cbn [negb]; [|by apply ensures_ret].
  rewrite (sp_active _ _ _ _ Hst'). eapply ensures_mono.
  { apply (IH i terms2 r1 Hr1 (pg_ready _ _ _ _ _ _ _ _ (sp_progress _ _ _ _ Hst'))
      (sp_sorted _ _ _ _ Hst')); [rewrite (Hsame eq_refl); lia|lia| |lia].
    left. destruct Hpast as [->|Hp]; [done|].
    pose proof (at_or_past_cur d terms i ts Hs Hp Hts). lia. }
  intros res r2 (Hr2 & Hst2 & Hdone). split; [done|].
  split; [by eapply stepped_trans|]. unfold seeks_done in *. destruct res.1; [|lia].
  destruct Hdone as (Ha & Hb & Hc). split; [done|]. split; [done|]. right.
  destruct Hc as [E|]; [rewrite E|]; lia.
Qed.

Lemma seek_to_pivot_ok n d terms r :
  reads r -> Forall ready terms -> doc_sorted terms -> n = upto d terms -> (0 < n)%nat ->
  d < UINT32_MAX ->
  ensures (seek_to_pivot terms n d (Z.of_nat (active terms))) r (fun res r' =>
    reads r' /\ stepped (fun x => x < d) terms res.2.1 res.2.2 /\
    seeks_done n d terms res.2.1 res.1).
Proof.
  intros Hr HF Hs Hn Hpos Hd. unfold seek_to_pivot.
  pose proof (upto_mono d (UINT32_MAX - 1) terms ltac:(lia)).
  pose proof (upto_mono (d - 1) d terms ltac:(lia)).
  apply seek_pivot_loop_ok; try done; unfold active; try lia.
Qed.

(** ** The position of an active term *)

Definition last_of (ts : TpTermState) : Z := sk_last_doc_id (it_skip_entry (ts_iter ts)).

(** The term is at posting [p] of block [k], and the cached arrays hold what the
    skip entry of that block says. *)
Record standing (ts : TpTermState) (k : nat) (ps : list TpBlockPosting) (p : TpBlockPosting) : Prop := {
  st_found : ts_found ts = true;
  st_running : it_finished (ts_iter ts) = false;
  st_block : it_current_block (ts_iter ts) = Z.of_nat k;
  st_inside : it_current_block (ts_iter ts) <? de_block_count (it_dict_entry (ts_iter ts)) = true;
  st_entry : qt_blocks (static blocks_of ts) !! k = Some (it_skip_entry (ts_iter ts), ps);
  st_posting : current_posting (ts_iter ts) = Ok p;
  st_head : exists rest, rem ts = p :: rest;
  st_member : p ∈ ps;
  st_list : blocks_at s (it_dict_entry (ts_iter ts)) (qt_blocks (static blocks_of ts)) /\
            blocks_sorted (qt_blocks (static blocks_of ts)) /\
            Forall (fun p => 0 <= bp_doc_id p < UINT32_MAX)
              (all_postings (qt_blocks (static blocks_of ts)));
  st_last : exists ids, ts_block_last_doc_ids ts = Some ids /\ zread ids (Z.of_nat k) = Ok (last_of ts);
  st_bound : exists scores, ts_block_max_scores ts = Some scores /\
    zread scores (Z.of_nat k) =
      Ok (entry_bound k1 b avg_doc_len (static blocks_of ts) (it_skip_entry (ts_iter ts)));
  st_rest : forall q, q ∈ rem ts -> q ∈ ps \/ last_of ts < bp_doc_id q;
}.

Lemma active_standing ts : ready ts -> rem ts <> [] -> exists k ps p, standing ts k ps p.
Proof.
  intros Hr Hne. pose proof (rd_blocks _ _ _ _ _ _ Hr Hne) as Hsc.
  destruct (remaining_active s blocks_of ts (rd_ok _ _ _ _ _ _ Hr) Hne) as [Hf Hfin].
  destruct (rd_ok _ _ _ _ _ _ Hr Hf Hfin) as [[Hl (k & j & ps & Hin)] Hlast].
  assert (Ebl : qt_blocks (static blocks_of ts) = blocks_of (it_dict_entry (ts_iter ts)))
    by (unfold static; by rewrite Hf).
  destruct (lookup_lt_is_Some_2 ps j (in_bound _ _ _ _ _ Hin)) as [p Hp].
  pose proof (in_entry _ _ _ _ _ Hin) as He. pose proof (lookup_lt_Some _ _ _ He).
  exists k, ps, p. split; rewrite ?Ebl; try done.
  - apply (in_block _ _ _ _ _ Hin).
  - rewrite (in_block _ _ _ _ _ Hin), (ba_count _ _ _ (lo_blocks _ _ _ Hl)). apply Z.ltb_lt.
    unfold zlen. lia.
  - unfold current_posting. rewrite (in_postings _ _ _ _ _ Hin), (in_pos _ _ _ _ _ Hin).
    cbn [default from_option id]. unfold zread. by rewrite zget_nat, Hp.
  - unfold remaining. rewrite Hf, (remaining_cons blocks_of _ k j ps p Hin Hfin Hp). by eexists.
  - by eapply list_elem_of_lookup_2.
  - split; [apply (lo_blocks _ _ _ Hl)|]. split; [apply (lo_sorted _ _ _ Hl)|apply (lo_docs _ _ _ Hl)].
  - eexists. split; [exact Hlast|]. unfold zread. by rewrite zget_nat, !list_lookup_fmap, He.
  - eexists. split; [exact Hsc|]. rewrite Ebl. unfold zread.
    by rewrite zget_nat, !list_lookup_fmap, He.
  - intros q. unfold remaining. rewrite Hf, (remaining_inside blocks_of _ k j ps Hin Hfin).
    intros [Hq|Hq]%elem_of_app.
    { left. rewrite <- (take_drop j ps). apply elem_of_app. by right. }
    right. destruct (lo_sorted _ _ _ Hl) as [Hs Hlasts].
    destruct (Hlasts k _ ps He) as (x & Hx & Ex). unfold last_of. rewrite Ex.
    rewrite (all_postings_split _ k _ ps He) in Hs. apply sorted_app_r in Hs.
    apply (StronglySorted_app_1_elem_of _ _ _ x q Hs); [|done].
    apply last_Some in Hx as [l ->]. set_solver.
Qed.

(** The current block ends at or after the current document. *)
Lemma standing_last ts k ps p : ready ts -> standing ts k ps p -> cur ts <= last_of ts < UINT32_MAX.
Proof.
  intros Hr Hst. destruct (st_head _ _ _ _ Hst) as [rest Hrem].
  rewrite (cur_rem s blocks_of k1 b avg_doc_len ts Hr), Hrem.
  destruct (st_list _ _ _ _ Hst) as (_ & [_ Hlasts] & Hdocs).
  pose proof (st_entry _ _ _ _ Hst) as He.
  destruct (Hlasts k _ ps He) as (x & Hx & Ex).
  assert (Hxin : x ∈ all_postings (qt_blocks (static blocks_of ts))).
  { rewrite (all_postings_split _ k _ ps He). apply last_Some in Hx as [l ->]. set_solver. }
  rewrite Forall_forall in Hdocs. pose proof (Hdocs x Hxin).
  unfold last_of. rewrite Ex. split; [|lia].
  destruct (st_list _ _ _ _ Hst) as (Hbl & Hsort & _). rewrite <- Ex.
  apply (up_to_last s (it_dict_entry (ts_iter ts)) _ Hbl Hsort k _ ps p He).
  apply elem_of_app. right. apply (st_member _ _ _ _ Hst).
Qed.

(** ** Step 3: the skip past the blocks *)

Lemma choose_scorer_ok : forall l i cc,
  Forall (fun ts => ready ts /\ rem ts <> []) l ->
  exists cc', choose_scorer l i cc = Ok cc' /\
    min_block_end cc' <= min_block_end cc /\
    Forall (fun ts => min_block_end cc' <= last_of ts) l /\
    (min_block_end cc' = min_block_end cc \/ exists ts, ts ∈ l /\ min_block_end cc' = last_of ts) /\
    (best_scorer cc' = best_scorer cc \/
     exists m, best_scorer cc' = Some (i + m)%nat /\ (m < length l)%nat) /\
    (best_scorer cc' = None -> best_scorer cc = None /\
       forall ts, head l = Some ts -> f4_gt (ts_max_score ts) (best_max_score cc) = false).
Proof.
  induction l as [|ts l IH]; intros i cc HF; cbn [choose_scorer].
  { exists cc. do 3 (split; [done || lia|]). split; [by left|]. split; [by left|]. done. }
  apply Forall_cons in HF as [[Hr Hne] HF].
  destruct (active_standing ts Hr Hne) as (k & ps & p & Hst).
  pose proof (proj1 (cur_active s blocks_of k1 b avg_doc_len ts Hr) Hne).
  rewrite (proj2 (Z.eqb_neq _ _)) by lia.
  destruct (st_last _ _ _ _ Hst) as (ids & -> & Hid).
  rewrite (st_inside _ _ _ _ Hst), (st_block _ _ _ _ Hst), Hid. cbn [mbind res_bind].
  set (c1 := if f4_gt _ _ then _ else cc). set (c2 := mkChoice _ _ _).
  assert (Hm2 : min_block_end c2 = Z.min (last_of ts) (min_block_end cc)).
  { unfold c2, c1. cbn [min_block_end]. destruct (f4_gt _ _); cbn [min_block_end];
      destruct (Z.ltb_spec (last_of ts) (min_block_end cc)); lia. }
  destruct (IH (S i) c2 HF) as (cc' & -> & Hle & Hall & Hatt & Hbest & Hnone).
  exists cc'. split; [done|]. rewrite Hm2 in *. split; [lia|]. split; [by constructor; [lia|]|].
  split; [|split].
  - destruct Hatt as [E|(t & Ht & E)]; [|right; exists t; split; [by right|done]].
    destruct (Z.min_spec (last_of ts) (min_block_end cc)) as [[? E']|[? E']]; [|left; congruence].
    right. exists ts. split; [by left|congruence].
  - destruct Hbest as [E|(m & E & Hm)]; cycle 1.
    { right. exists (S m). rewrite E. split; [f_equal; lia|simpl; lia]. }
    unfold c2, c1 in E. cbn [best_scorer] in E. destruct (f4_gt _ _); cbn [best_scorer] in E.
    + right. exists 0%nat. rewrite E. split; [f_equal; lia|simpl; lia].
    + by left.
  - intros E. destruct (Hnone E) as [E2 _]. unfold c2, c1 in E2. cbn [best_scorer] in E2.
    destruct (f4_gt _ _) eqn:Eg; cbn [best_scorer] in E2; [done|]. split; [done|].
    intros t [= <-]. done.
Qed.

(** The documents that the skip may pass. *)
Definition skippable (n : nat) (d : Z) (terms : list TpTermState) (x : Z) : Prop :=
  d <= x /\ (forall i ts, (i < n)%nat -> terms !! i = Some ts -> x <= last_of ts) /\
  (forall i ts, (n <= i)%nat -> terms !! i = Some ts -> x < cur ts).

Lemma upto_cur_lt d n terms i ts : doc_sorted terms -> (upto d terms <= n)%nat -> (n <= i)%nat ->
  terms !! i = Some ts -> d < cur ts.
Proof.
  intros Hs Hu Hn Hi. destruct (Z.le_gt_cases (cur ts) d) as [L|]; [|lia].
  apply (sorted_upto d terms i ts Hs Hi) in L. lia.
Qed.

Lemma block_max_skip_ok n d terms stats r :
  reads r -> Forall ready terms -> doc_sorted terms -> (0 < n)%nat -> (n <= active terms)%nat ->
  at_or_past d terms -> (upto d terms <= n)%nat -> 0 <= d < UINT32_MAX ->
  (forall ts, terms !! 0%nat = Some ts -> f4_gt (ts_max_score ts) (f4_of_Z (-1)) = true) ->
  ensures (block_max_skip_advance terms n (Z.of_nat (active terms)) stats) r (fun res r' =>
    reads r' /\ stepped (skippable n d terms) terms res.1.1 res.1.2 /\
    (n = upto d terms -> (meas res.1.1 < meas terms)%nat)).
Proof.
  intros Hr HF Hs Hn Hact Hpast Hupto Hd Hmax.
  assert (Hpre : forall i ts, (i < n)%nat -> terms !! i = Some ts -> ready ts /\ rem ts <> []).
  { intros i ts Hi Hts. destruct (active_lookup terms i HF Hs ltac:(lia)) as (ts' & ? & ? & ?).
    by simplify_eq. }
  assert (HFn : Forall (fun ts => ready ts /\ rem ts <> []) (take n terms)).
  { apply Forall_lookup. intros i ts [Hi Hlt]%lookup_take_Some. by apply (Hpre i). }
  unfold block_max_skip_advance.
  destruct (choose_scorer_ok (take n terms) 0 (mkChoice None (f4_of_Z (-1)) UINT32_MAX) HFn)
    as (cc & -> & Hle & Hall & Hatt & Hbest & Hnone). cbn [min_block_end best_scorer best_max_score] in *.
  apply ensures_bind. eapply ensures_lift; [done|].
  destruct (active_lookup terms 0 HF Hs ltac:(lia)) as (t0 & Ht0 & _ & _).
  destruct (best_scorer cc) as [best|] eqn:Eb; cycle 1.
  { destruct (Hnone eq_refl) as [_ Hno]. specialize (Hno t0).
    rewrite (Hmax t0 Ht0) in Hno. destruct terms; [done|]. destruct n; [lia|]. simpl in *.
    specialize (Hno ltac:(congruence)). done. }
  destruct Hbest as [?|(m & [= ->] & Hm)]; [done|]. cbn [Nat.add] in *.
  rewrite length_take in Hm. destruct (lookup_lt_is_Some_2 terms m) as [ts Hts]; [lia|].
  destruct (Hpre m ts ltac:(lia) Hts) as [Hrts Hnets].
  apply ensures_bind. eapply ensures_lift; [unfold term_at; by rewrite Hts|].
  assert (Hlast : forall i t, (i < n)%nat -> terms !! i = Some t ->
            d <= last_of t < UINT32_MAX /\ min_block_end cc <= last_of t).
  { intros i t Hi Ht. destruct (Hpre i t Hi Ht) as [Hrt Hnet].
    destruct (active_standing t Hrt Hnet) as (k & ps & p & Hst).
    pose proof (standing_last t k ps p Hrt Hst). pose proof (at_or_past_cur d terms i t Hs Hpast Ht).
    rewrite Forall_lookup in Hall. specialize (Hall i t ltac:(by apply lookup_take_Some)). lia. }
  assert (Hm0 : d <= min_block_end cc < UINT32_MAX).
  { destruct Hatt as [E|(t & Ht & E)].
    - specialize (Hlast m ts ltac:(lia) Hts). lia.
    - apply list_elem_of_lookup in Ht as [i Ht]. apply lookup_take_Some in Ht as [Ht Hi].
      specialize (Hlast i t Hi Ht). lia. }
  rewrite (proj2 (Z.eqb_neq (min_block_end cc) UINT32_MAX)) by lia.
  rewrite wrap_small by (unfold UINT32_MAX in *; lia). cbv zeta.
  set (target := match terms !! n with Some _ => _ | None => _ end).
  assert (Htarget : d + 1 <= target <= min_block_end cc + 1 /\
            forall t, terms !! n = Some t -> target <= cur t).
  { unfold target. destruct (terms !! n) as [t|] eqn:Et; [|split; [lia|done]].
    pose proof (upto_cur_lt d n terms n t Hs Hupto ltac:(lia) Et).
    destruct (Z.ltb_spec (cur t) (min_block_end cc + 1)); (split; [lia|]); intros t' [= <-]; lia. }
  destruct Htarget as [Ht1 Ht2].
  apply ensures_bind. eapply ensures_mono; [by apply (seek_at_ok terms m ts target); [..|lia]|].
  intros [ok [terms1 active1]] r1 (Hr1 & Hst & _ & Hprog). cbn [fst snd] in *.
  apply ensures_ret. split; [done|]. cbn [fst snd]. split.
  - eapply stepped_mono; [|exact Hst]. intros x [Hx1 Hx2].
    pose proof (at_or_past_cur d terms m ts Hs Hpast Hts). split; [lia|]. split.
    + intros i t Hi Ht. specialize (Hlast i t Hi Ht). lia.
    + intros i t Hi Ht. pose proof (lookup_lt_Some _ _ _ Ht).
      destruct (lookup_lt_is_Some_2 terms n) as [tn Htn]; [lia|].
      specialize (Ht2 tn Htn). destruct (decide (i = n)) as [->|]; [simplify_eq; lia|].
      pose proof (StronglySorted_lookup _ _ n i tn t Hs Htn Ht ltac:(lia)). simpl in *. lia.
  - intros ->. apply Hprog. enough (cur ts <= d) by lia.
    apply (sorted_upto d terms m ts Hs Hts). lia.
Qed.
End Steps.
