(* ===== verification/BmwSums.v ===== *)
(** * Scores and bounds of documents, for WAND (src/query/bmw.c)

    The score of a document is the sum of what its terms contribute, in the order
    the terms have in the array at that moment; the bounds are sums of term or
    block bounds in the same way.  Float addition is not associative, so that the
    bounds bound is a property of the numbers ([sums_bounded]): every arrangement
    of bounds that covers the terms of a document is at least its score in every
    arrangement.  Under it, the documents WAND passes without scoring cannot beat
    the threshold. *)
From S2P Require Import Prelude Postgres Float4 Fieldnorm TopK SegmentFormat Compression Storage.
From S2P Require Import SegmentIO Docmap SegmentScan ScanFacts Memtable Bmw BmwSingle BmwTerms BmwOrder.
From S2P Require Import BmwSteps.

Lemma f4_le_not_lt a b : f4_le a b = true -> f4_lt b a = false.
Proof.
  unfold f4_le, f4_lt, SpecFloat.SFleb, SpecFloat.SFltb.
  destruct a as [sa|[]| |[] ma ea], b as [sb|[]| |[] mb eb]; try done; cbn;
    destruct (Z.compare_spec ea eb), (Z.compare_spec eb ea); try lia; try done;
    change (Pos.compare_cont Eq ma mb) with (Pos.compare ma mb);
    change (Pos.compare_cont Eq mb ma) with (Pos.compare mb ma);
    rewrite (Pos.compare_antisym ma mb); destruct (Pos.compare ma mb); done.
Qed.

Lemma f4_not_le a b : is_nan a = false -> is_nan b = false -> f4_le a b = false -> f4_lt b a = true.
Proof.
  unfold f4_le, f4_lt, SpecFloat.SFleb, SpecFloat.SFltb.
  destruct a as [sa|[]| |[] ma ea], b as [sb|[]| |[] mb eb]; try done; cbn; intros _ _;
    destruct (Z.compare_spec ea eb), (Z.compare_spec eb ea); try lia; try done;
    change (Pos.compare_cont Eq ma mb) with (Pos.compare ma mb);
    change (Pos.compare_cont Eq mb ma) with (Pos.compare mb ma);
    rewrite (Pos.compare_antisym ma mb); destruct (Pos.compare ma mb); done.
Qed.

Section Sums.
Context (s : list byte) (blocks_of : TpDictEntry -> blocks).
Context (k1 b avg_doc_len : float4).

Abbreviation cur := term_current_doc_id.
Abbreviation rem := (remaining blocks_of).
Abbreviation ready := (term_ready s blocks_of k1 b avg_doc_len).
Abbreviation stat := (static blocks_of).

(** What a posting adds to the score of its document. *)
Definition contribution (qt : query_term) (p : TpBlockPosting) : float4 :=
  f4_mul (bm25_score (qt_idf qt) (bp_frequency p) (i32 (decode_fieldnorm (bp_fieldnorm p)))
            k1 b avg_doc_len) (f4_of_Z (qt_query_freq qt)).

Definition contribution_of (d : Z) (qt : query_term) : float4 :=
  match list_find (fun p => bp_doc_id p = d) (all_postings (qt_blocks qt)) with
  | Some (_, p) => contribution qt p
  | None => f4_of_Z 0
  end.

Definition doc_sum (d : Z) (qs : list query_term) : float4 := fsum (contribution_of d <$> qs).

Context (query : list query_term).

(** The terms of the query in a document, in some order, and the score in that
    order. *)
Definition doc_terms_of (d : Z) (qs : list query_term) : Prop := qs ≡ₚ filter (has_doc d) query.
Definition doc_total (d : Z) (sc : float4) : Prop :=
  exists qs, doc_terms_of d qs /\ sc = doc_sum d qs.
Definition mentioned (d : Z) : Prop := exists qt, qt ∈ query /\ has_doc d qt.

(** [u] is a bound the code may use for term [qt] when it decides on [d]: that of
    the term, or that of a block, the one with [d] if [d] has the term. *)
Definition bound_for (d : Z) (qt : query_term) (u : float4) : Prop :=
  u = term_bound k1 b avg_doc_len qt \/
  exists (k : nat) sk ps, qt_blocks qt !! k = Some (sk, ps) /\
    u = block_bound_of k1 b avg_doc_len qt sk /\ (has_doc d qt -> d ∈ bp_doc_id <$> ps).

(** [u] is the bound of the block that has [d]. *)
Definition block_bound_for (d : Z) (qt : query_term) (u : float4) : Prop :=
  exists (k : nat) sk ps, qt_blocks qt !! k = Some (sk, ps) /\ d ∈ bp_doc_id <$> ps /\
    u = block_bound_of k1 b avg_doc_len qt sk.

(** Bounds the code may add up when it decides on [d]. *)
Definition bounds_for (d : Z) (l : list (query_term * float4)) : Prop :=
  l.*1 ⊆+ query /\ forall qt u, (qt, u) ∈ l -> bound_for d qt u.
Definition block_bounds_for (d : Z) (l : list (query_term * float4)) : Prop :=
  forall qt u, (qt, u) ∈ l -> block_bound_for d qt u.

(** The bounds are bounds: of the score of a document, of the sums of block bounds
    for fewer terms; and no sum is a NaN. *)
Record sums_bounded : Prop := {
  sb_bound : forall d l qs, bounds_for d l -> doc_terms_of d qs -> qs ⊆+ l.*1 ->
    f4_lt (fsum l.*2) (doc_sum d qs) = false;
  sb_blocks : forall d l l', bounds_for d l -> block_bounds_for d l' -> l'.*1 ⊆+ l.*1 ->
    f4_lt (fsum l.*2) (fsum l'.*2) = false;
  sb_sum : forall d l, bounds_for d l -> is_nan (fsum l.*2) = false;
  sb_score : forall d qs, doc_terms_of d qs -> is_nan (doc_sum d qs) = false;
  sb_term : forall qt, qt ∈ query -> f4_gt (term_bound k1 b avg_doc_len qt) (f4_of_Z (-1)) = true;
}.

(** [d] can be passed over at threshold [th]: neither its score nor any sum of
    bounds of its blocks exceeds it. *)
Definition pruned (d : Z) (th : float4) : Prop :=
  (forall sc, doc_total d sc -> f4_lt th sc = false) /\
  (forall l, l.*1 ⊆+ filter (has_doc d) query -> block_bounds_for d l ->
     f4_lt th (fsum l.*2) = false).

Lemma block_bounds_bounds d l : l.*1 ⊆+ query -> block_bounds_for d l -> bounds_for d l.
Proof.
  intros Hl Hb. split; [done|]. intros qt u Hin. right.
  destruct (Hb qt u Hin) as (k & sk & ps & Hk & Hd & ->). by exists k, sk, ps.
Qed.

(** ** What the loops over the pivot terms compute *)

Lemma contribution_at ts k ps p : standing s blocks_of k1 b avg_doc_len ts k ps p ->
  contribution_of (bp_doc_id p) (stat ts) = contribution (stat ts) p.
Proof.
  intros Hst. unfold contribution_of. destruct (st_list _ _ _ _ _ _ _ _ _ Hst) as (_ & [Hs _] & _).
  set (all := all_postings (qt_blocks (stat ts))) in *.
  assert (Hp : p ∈ all).
  { unfold all. rewrite (all_postings_split _ k _ ps (st_entry _ _ _ _ _ _ _ _ _ Hst)).
    pose proof (st_member _ _ _ _ _ _ _ _ _ Hst). set_solver. }
  destruct (list_find _ all) as [[i q]|] eqn:E; cycle 1.
  { apply list_find_None in E. rewrite Forall_forall in E. by destruct (E p Hp). }
  apply list_find_Some in E as (Hi & Hq & _). apply list_elem_of_lookup in Hp as [j Hj].
  destruct (Nat.lt_trichotomy i j) as [L|[->|L]]; [|by simplify_eq|].
  - pose proof (StronglySorted_lookup _ _ _ _ _ _ Hs Hi Hj L) as Hlt. simpl in Hlt. lia.
  - pose proof (StronglySorted_lookup _ _ _ _ _ _ Hs Hj Hi L) as Hlt. simpl in Hlt. lia.
Qed.

Lemma standing_cur ts k ps p : ready ts ->
  standing s blocks_of k1 b avg_doc_len ts k ps p -> cur ts = bp_doc_id p.
Proof.
  intros Hr Hst. rewrite (cur_rem s blocks_of k1 b avg_doc_len ts Hr).
  by destruct (st_head _ _ _ _ _ _ _ _ _ Hst) as [rest ->].
Qed.

Lemma current_has_doc ts k ps p : ready ts ->
  standing s blocks_of k1 b avg_doc_len ts k ps p -> has_doc (cur ts) (stat ts).
Proof.
  intros Hr Hst. rewrite (standing_cur ts k ps p Hr Hst). unfold has_doc.
  rewrite (all_postings_split _ k _ ps (st_entry _ _ _ _ _ _ _ _ _ Hst)).
  apply list_elem_of_fmap_2. pose proof (st_member _ _ _ _ _ _ _ _ _ Hst). set_solver.
Qed.

Lemma add_contributions_ok d : forall l acc,
  Forall (fun ts => ready ts /\ rem ts <> [] /\ cur ts = d) l ->
  add_contributions k1 b avg_doc_len l acc = Ok (foldl f4_add acc (contribution_of d <$> (stat <$> l))).
Proof.
  induction l as [|ts l IH]; intros acc HF; [done|].
  apply Forall_cons in HF as [(Hr & Hne & Hcur) HF]. cbn [add_contributions].
  destruct (active_standing s blocks_of k1 b avg_doc_len ts Hr Hne) as (k & ps & p & Hst).
  rewrite (st_found _ _ _ _ _ _ _ _ _ Hst), (st_running _ _ _ _ _ _ _ _ _ Hst),
    (st_posting _ _ _ _ _ _ _ _ _ Hst). cbn [negb orb mbind res_bind]. rewrite IH by done.
  csimpl. do 2 f_equal. f_equal. rewrite (cur_rem s blocks_of k1 b avg_doc_len ts Hr) in Hcur.
  destruct (st_head _ _ _ _ _ _ _ _ _ Hst) as [rest Hrem]. rewrite Hrem in Hcur. subst d.
  symmetry. by apply (contribution_at ts k ps).
Qed.

Definition current_bound (ts : TpTermState) : float4 :=
  block_bound_of k1 b avg_doc_len (stat ts) (it_skip_entry (ts_iter ts)).

Lemma add_block_bounds_ok : forall l acc,
  Forall (fun ts => ready ts /\ rem ts <> []) l ->
  add_block_bounds l acc = Ok (foldl f4_add acc (current_bound <$> l)).
Proof.
  induction l as [|ts l IH]; intros acc HF; [done|].
  apply Forall_cons in HF as [[Hr Hne] HF]. cbn [add_block_bounds].
  destruct (active_standing s blocks_of k1 b avg_doc_len ts Hr Hne) as (k & ps & p & Hst).
  rewrite (st_found _ _ _ _ _ _ _ _ _ Hst), (st_running _ _ _ _ _ _ _ _ _ Hst). cbn [negb orb].
  destruct (st_bound _ _ _ _ _ _ _ _ _ Hst) as (scores & -> & Hsc).
  rewrite (st_inside _ _ _ _ _ _ _ _ _ Hst), (st_block _ _ _ _ _ _ _ _ _ Hst), Hsc.
  cbn [mbind res_bind]. rewrite IH by done. done.
Qed.

(** ** Documents that cannot beat the threshold *)

(** When no term from position [j] on has [d], its terms are among the first. *)
Lemma terms_among d terms j qs : stat <$> terms ≡ₚ query -> doc_terms_of d qs ->
  (forall i ts, (j <= i)%nat -> terms !! i = Some ts -> ~ has_doc d (stat ts)) ->
  qs ≡ₚ filter (has_doc d) (stat <$> take j terms).
Proof.
  intros Hq Hqs Hno. unfold doc_terms_of in Hqs. rewrite Hqs, <- Hq.
  rewrite <- (take_drop j terms) at 1. rewrite fmap_app, filter_app.
  rewrite (filter_none _ (stat <$> drop j terms)); [by rewrite app_nil_r|].
  apply Forall_fmap, Forall_lookup. intros i ts Hi. rewrite lookup_drop in Hi.
  unfold compose. apply (Hno (j + i)%nat); [lia|done].
Qed.

Lemma pruned_by (d : Z) (th : float4) terms j (bound : TpTermState -> float4) :
  sums_bounded -> stat <$> terms ≡ₚ query -> is_nan th = false ->
  (forall i ts, (j <= i)%nat -> terms !! i = Some ts -> ~ has_doc d (stat ts)) ->
  (forall i ts, (i < j)%nat -> terms !! i = Some ts -> bound_for d (stat ts) (bound ts)) ->
  f4_lt th (fsum (bound <$> take j terms)) = false -> pruned d th.
Proof.
  intros Hsb Hq Hth Hno Hbound Hle.
  set (l := (fun ts => (stat ts, bound ts)) <$> take j terms).
  assert (E1 : l.*1 = stat <$> take j terms) by (unfold l; by rewrite <- list_fmap_compose).
  assert (E2 : l.*2 = bound <$> take j terms) by (unfold l; by rewrite <- list_fmap_compose).
  assert (Hl : bounds_for d l).
  { split.
    - rewrite E1, <- Hq. apply sublist_submseteq, fmap_sublist, sublist_take.
    - intros qt u (ts & [= -> ->] & Hts)%list_elem_of_fmap.
      apply list_elem_of_lookup in Hts as [i Hi]. apply lookup_take_Some in Hi as [Hi Hj].
      by apply (Hbound i). }
  assert (Hsub : filter (has_doc d) query ⊆+ l.*1).
  { rewrite E1. rewrite (terms_among d terms j _ Hq (Permutation_refl _) Hno).
    apply sublist_submseteq, sublist_filter. }
  pose proof (sb_sum Hsb d l Hl) as Hnan. rewrite <- E2 in Hle. split.
  - intros sc (qs & Hqs & ->). apply (f4_ge_trans _ (fsum l.*2)); [by apply (sb_score Hsb d)|done|done| |done].
    apply (sb_bound Hsb d l qs Hl Hqs). unfold doc_terms_of in Hqs. by rewrite Hqs.
  - intros l' Hl' Hb'.
    assert (Hq' : l'.*1 ⊆+ query).
    { etransitivity; [exact Hl'|]. apply sublist_submseteq, sublist_filter. }
    apply (f4_ge_trans _ (fsum l.*2)); [by apply (sb_sum Hsb d), block_bounds_bounds|done|done| |done].
    apply (sb_blocks Hsb d l l' Hl Hb'). etransitivity; [exact Hl'|exact Hsub].
Qed.

(** A higher threshold prunes as much. *)
Lemma pruned_mono d th th' : sums_bounded -> is_nan th = false -> is_nan th' = false ->
  f4_lt th' th = false -> pruned d th -> pruned d th'.
Proof.
  intros Hsb Hn Hn' Hle [H1' H2']. split.
  - intros sc Hsc. pose proof Hsc as (qs & Hqs & ->).
    apply (f4_ge_trans _ th); [by apply (sb_score Hsb d)|done|done|by apply H1'|done].
  - intros l Hl Hb. apply (f4_ge_trans _ th); [|done..|by apply H2'|done].
    apply (sb_sum Hsb d), block_bounds_bounds; [|done].
    etransitivity; [exact Hl|]. apply sublist_submseteq, sublist_filter.
Qed.

(** When all terms of [d] are at it and their block bounds exceed the threshold,
    [d] was not pruned. *)
Lemma standing_not_pruned d th terms n : sums_bounded -> stat <$> terms ≡ₚ query ->
  is_nan th = false ->
  Forall (fun ts => ready ts /\ rem ts <> [] /\ cur ts = d) (take n terms) ->
  f4_le (fsum (current_bound <$> take n terms)) th = false -> ~ pruned d th.
Proof.
  intros Hsb Hq Hth HF Hle [_ Hpr].
  set (l := (fun ts => (stat ts, current_bound ts)) <$> take n terms).
  assert (E1 : l.*1 = stat <$> take n terms) by (unfold l; by rewrite <- list_fmap_compose).
  assert (E2 : l.*2 = current_bound <$> take n terms) by (unfold l; by rewrite <- list_fmap_compose).
  assert (Hdoc : Forall (has_doc d) (stat <$> take n terms) /\ block_bounds_for d l).
  { rewrite Forall_fmap. split.
    - eapply Forall_impl; [exact HF|]. intros ts (Hr & Hne & <-).
      destruct (active_standing s blocks_of k1 b avg_doc_len ts Hr Hne) as (k & ps & p & Hst).
      by apply (current_has_doc ts k ps p).
    - intros qt u (ts & [= -> ->] & Hts)%list_elem_of_fmap.
      rewrite Forall_forall in HF. destruct (HF ts Hts) as (Hr & Hne & <-).
      destruct (active_standing s blocks_of k1 b avg_doc_len ts Hr Hne) as (k & ps & p & Hst).
      exists k, (it_skip_entry (ts_iter ts)), ps. split; [apply (st_entry _ _ _ _ _ _ _ _ _ Hst)|].
      split; [|done]. rewrite (standing_cur ts k ps p Hr Hst).
      apply list_elem_of_fmap_2, (st_member _ _ _ _ _ _ _ _ _ Hst). }
  destruct Hdoc as [Hdoc Hb].
  assert (Hsub : l.*1 ⊆+ filter (has_doc d) query).
  { rewrite E1, <- Hq, <- (filter_all _ _ Hdoc).
    apply sublist_submseteq. rewrite <- (take_drop n terms) at 2.
    rewrite fmap_app, filter_app. by apply sublist_inserts_r. }
  rewrite <- E2 in Hle. specialize (Hpr l Hsub Hb).
  rewrite (f4_not_le _ _) in Hpr; [done| |done|done].
  apply (sb_sum Hsb d), block_bounds_bounds; [|done].
  etransitivity; [exact Hsub|]. apply sublist_submseteq, sublist_filter.
Qed.
End Sums.
