(* ===== verification/BmwPass.v ===== *)
(** * Moving past the pivot document, for WAND (src/query/bmw.c)

    Steps 5 and 7 of the loop: the pivot terms advance past a document that was
    scored, or past a document (or a whole block) of another tenant. *)
From S2P Require Import Prelude Postgres Float4 Fieldnorm TopK SegmentFormat Compression Storage.
From S2P Require Import SegmentIO Docmap SegmentScan ScanFacts Memtable Bmw BmwSingle BmwTerms BmwOrder.
From S2P Require Import BmwSteps.

Section Pass.
Context {R : Type} `{SegmentAccessLaws R} `{ItemPointerOps}.
Context (h : TpSegmentHeader) (s : list byte) (c : option (list Z * list Z)).
Context (blocks_of : TpDictEntry -> blocks).
Context (k1 b avg_doc_len : float4).
Context (tenant_id min_doc_id max_doc_id : Z) (tid : Z -> Z).

Abbreviation cur := term_current_doc_id.
Abbreviation rem := (remaining blocks_of).
Abbreviation ready := (term_ready s blocks_of k1 b avg_doc_len).
Abbreviation meas := (measure blocks_of).
Abbreviation reads := (reads_segment h s c).
Abbreviation stat := (static blocks_of).
Abbreviation stepped := (stepped s blocks_of k1 b avg_doc_len).
Abbreviation moved := (replaced s blocks_of k1 b avg_doc_len).
Abbreviation in_query := (doc_in_query tenant_id min_doc_id max_doc_id tid).

(** Advancing the term at [i], which is at [d]. *)
Lemma advance_term_ok terms i ts d r :
  reads r -> Forall ready terms -> doc_sorted terms -> terms !! i = Some ts -> rem ts <> [] ->
  cur ts = d ->
  ensures (advance_term_iterator ts) r (fun res r' => reads r' /\
    moved (fun x => x = d) terms i ts res.2 1 res.1 (restore_ordering (<[i := res.2]> terms) i) /\
    d < cur res.2).
Proof.
  intros Hr HF Hs Hi Hne Hcur. pose proof (Forall_lookup_1 _ _ _ _ HF Hi) as Hts.
  destruct (rem ts) as [|p rest] eqn:Hrem; [done|].
  eapply ensures_mono; [exact (advance_ok h s c blocks_of ts p rest r Hr (rd_ok _ _ _ _ _ _ Hts) Hrem)|].
  intros [ok ts'] r1 [Hr1 Hm]. cbn [fst snd] in *. split; [done|].
  rewrite (cur_rem s blocks_of k1 b avg_doc_len ts Hts), Hrem in Hcur.
  assert (Hne' : rem ts <> []) by (by rewrite Hrem).
  split.
  - eapply (replace_ok s blocks_of k1 b avg_doc_len _ terms i ts rest ts' ok [p]); try done.
    by constructor.
  - pose proof (moved_ready _ _ _ _ _ _ _ _ _ Hts Hne' Hm) as Hts'.
    destruct (remaining_docs s blocks_of ts (rd_ok _ _ _ _ _ _ Hts)) as [Hdocs Hsort].
    rewrite Hrem in Hdocs, Hsort. apply Forall_cons in Hdocs as [Hp _].
    inversion_clear Hsort as [|? ? _ HF'].
    rewrite (cur_rem s blocks_of k1 b avg_doc_len ts' Hts'), (mv_remaining _ _ _ _ _ _ Hm).
    destruct rest as [|q rest]; [lia|]. apply Forall_cons in HF' as [? _]. lia.
Qed.

(** What both loops establish, going down from [n]: all terms at [d] have moved. *)
Definition all_passed (P : Z -> Prop) (d : Z) (n : nat) (terms terms' : list TpTermState)
    (active' : Z) : Prop :=
  stepped P terms terms' active' /\ upto d terms' = 0%nat /\ (meas terms' + n <= meas terms)%nat.

Lemma term_at_pivot n d terms : Forall ready terms -> doc_sorted terms -> at_or_past d terms ->
  upto d terms = S n -> d < UINT32_MAX ->
  exists ts, terms !! n = Some ts /\ cur ts = d /\ rem ts <> [] /\ ready ts.
Proof.
  intros HF Hs Hpast Hn Hd. pose proof (upto_length d terms).
  destruct (lookup_lt_is_Some_2 terms n) as [ts Hts]; [lia|]. exists ts.
  pose proof (at_or_past_cur d terms n ts Hs Hpast Hts).
  assert (cur ts <= d) by (apply (sorted_upto d terms n ts Hs Hts); lia).
  pose proof (Forall_lookup_1 _ _ _ _ HF Hts) as Hr.
  split; [done|]. split; [lia|]. split; [|done].
  apply (cur_active s blocks_of k1 b avg_doc_len ts Hr). lia.
Qed.

(** One round of either loop. *)
Lemma pass_round P n d terms ts ts' m ok r' res' :
  doc_sorted terms -> at_or_past d terms -> upto d terms = S n -> terms !! n = Some ts -> cur ts = d ->
  d < cur ts' -> (0 < m)%nat ->
  moved P terms n ts ts' m ok (restore_ordering (<[n := ts']> terms) n) ->
  (let terms' := restore_ordering (<[n := ts']> terms) n in
   doc_sorted terms' -> at_or_past d terms' -> upto d terms' = n -> Forall ready terms' ->
   reads r' /\ all_passed P d n terms' res'.1 res'.2) ->
  reads r' /\ all_passed P d (S n) terms res'.1 res'.2.
Proof.
  intros Hs Hpast Hn Hi Hcur Hlt Hm Hrp Hrest. cbv zeta in Hrest.
  pose proof (rp_progress _ _ _ _ _ _ _ _ _ _ _ _ _ Hrp) as Hp.
  pose proof (pg_upto _ _ _ _ _ _ _ _ Hp (d - 1)).
  pose proof (rp_passed _ _ _ _ _ _ _ _ _ _ _ _ _ Hrp d ltac:(lia)) as Hu.
  destruct Hrest as (Hr & Hst & H0' & Hmeas).
  - apply Hrp.
  - unfold at_or_past in *. lia.
  - lia.
  - apply Hp.
  - split; [done|]. split; [|split; [done|]].
    + eapply stepped_trans; [|exact Hst]. by eapply replaced_stepped.
    + pose proof (rp_measure _ _ _ _ _ _ _ _ _ _ _ _ _ Hrp). lia.
Qed.

Lemma replaced_active P terms i ts ts' n ok terms' : moved P terms i ts ts' n ok terms' ->
  (if ok : bool then Z.of_nat (active terms) else Z.of_nat (active terms) - 1) = Z.of_nat (active terms').
Proof.
  intros Hrp. pose proof (rp_active _ _ _ _ _ _ _ _ _ _ _ _ _ Hrp). destruct ok; lia.
Qed.

(** ** Step 7 *)

Lemma advance_pivot_terms_ok d : d < UINT32_MAX -> forall n terms r,
  reads r -> Forall ready terms -> doc_sorted terms -> at_or_past d terms -> upto d terms = n ->
  ensures (advance_pivot_terms n d terms (Z.of_nat (active terms))) r (fun res r' =>
    reads r' /\ all_passed (fun x => x = d) d n terms res.1 res.2).
Proof.
  intros Hd. induction n as [|n IH]; intros terms r Hr HF Hs Hpast Hn; cbn [advance_pivot_terms].
  { apply ensures_ret. split; [done|]. split; [by apply stepped_refl|]. cbn [fst]. split; [done|lia]. }
  destruct (term_at_pivot n d terms HF Hs Hpast Hn Hd) as (ts & Hts & Hcur & Hne & Hrdy).
  apply ensures_bind. eapply ensures_lift; [unfold term_at; by rewrite Hts|].
  rewrite (proj2 (Z.eqb_eq (cur ts) d)) by done. apply ensures_bind.
  eapply ensures_mono; [by apply (advance_term_ok terms n ts d)|].
  intros [ok ts'] r1 (Hr1 & Hrp & Hlt). cbn [fst snd] in *.
  rewrite (replaced_active _ _ _ _ _ _ _ _ Hrp).
  set (terms' := restore_ordering _ n) in *.
  assert (Hpast' : at_or_past d terms').
  { pose proof (pg_upto _ _ _ _ _ _ _ _ (rp_progress _ _ _ _ _ _ _ _ _ _ _ _ _ Hrp) (d - 1)).
    unfold at_or_past in *. lia. }
  pose proof (rp_passed _ _ _ _ _ _ _ _ _ _ _ _ _ Hrp d ltac:(lia)).
  eapply ensures_mono; [apply (IH terms' r1 Hr1); [apply Hrp|apply Hrp|done|lia]|].
  intros res r2 Hres. by eapply (pass_round _ n d terms ts ts' 1 ok); [..|lia|exact Hrp|].
Qed.

(** ** Step 5 *)

Context (Htenant : tenant_id <> 0).

Definition term_tenants (qt : query_term) : Prop :=
  tenants_recorded h s c (qt_blocks qt) tenant_id min_doc_id max_doc_id tid.

(** A skippable block has no document of the query. *)
Lemma skippable_block_ok ts r :
  reads r -> ready ts -> rem ts <> [] -> term_tenants (stat ts) ->
  ensures (skippable_block tenant_id ts) r (fun res r' => reads r' /\
    forall last, res = Some last -> last = last_of ts /\
      forall q, q ∈ rem ts -> bp_doc_id q <= last -> ~ in_query (bp_doc_id q)).
Proof.
  intros Hr Hrdy Hne Htt. unfold skippable_block.
  destruct (active_standing s blocks_of k1 b avg_doc_len ts Hrdy Hne) as (k & ps & p & Hst).
  destruct (st_last _ _ _ _ _ _ _ _ _ Hst) as (ids & -> & Hid).
  rewrite (st_found _ _ _ _ _ _ _ _ _ Hst), (st_running _ _ _ _ _ _ _ _ _ Hst),
    (st_inside _ _ _ _ _ _ _ _ _ Hst), (st_block _ _ _ _ _ _ _ _ _ Hst). cbn [negb andb].
  destruct (st_list _ _ _ _ _ _ _ _ _ Hst) as (Hbl & _).
  pose proof (st_entry _ _ _ _ _ _ _ _ _ Hst) as He.
  eapply ensures_bind_runs; [by apply (read_skip_entry_ok h s c _ _ Hbl k _ ps)|].
  intros r1 Hr1. destruct (other_tenant_block _ _) eqn:Eo; [|by apply ensures_ret].
  apply ensures_bind. eapply ensures_lift; [exact Hid|]. apply ensures_ret. split; [done|].
  intros last [= <-]. split; [done|]. intros q Hq Hle [_ Hin].
  destruct (st_rest _ _ _ _ _ _ _ _ _ Hst q Hq) as [Hps|]; [|lia].
  unfold other_tenant_block in Eo. apply andb_true_iff in Eo as [Emode%Z.eqb_eq Elow].
  apply negb_true_iff, Z.eqb_neq in Elow. apply Elow.
  destruct Hin as [?|<-]; [done|]. by apply (tr_block _ _ _ _ _ _ _ _ Htt k _ ps).
Qed.

Lemma skip_wrong_tenant_ok d : 0 <= d < UINT32_MAX -> ~ in_query d -> forall n terms stats r,
  reads r -> Forall ready terms -> doc_sorted terms -> at_or_past d terms -> upto d terms = n ->
  Forall (fun ts => term_tenants (stat ts)) terms ->
  ensures (skip_wrong_tenant tenant_id n d terms (Z.of_nat (active terms)) stats) r (fun res r' =>
    reads r' /\ all_passed (fun x => ~ in_query x) d n terms res.1.1 res.1.2).
Proof.
  intros Hd Hnq. induction n as [|n IH]; intros terms stats r Hr HF Hs Hpast Hn Htt;
    cbn [skip_wrong_tenant].
  { apply ensures_ret. split; [done|]. split; [by apply stepped_refl|]. cbn [fst]. split; [done|lia]. }
  destruct (term_at_pivot n d terms HF Hs Hpast Hn ltac:(lia)) as (ts & Hts & Hcur & Hne & Hrdy).
  apply ensures_bind. eapply ensures_lift; [unfold term_at; by rewrite Hts|].
  rewrite (proj2 (Z.eqb_eq (cur ts) d)) by done. cbn [negb]. apply ensures_bind.
  eapply ensures_mono; [apply (skippable_block_ok ts r Hr Hrdy Hne), (Forall_lookup_1 _ _ _ _ Htt Hts)|].
  intros block r0 [Hr0 Hblock]. apply ensures_bind.
  apply (ensures_mono _ _ (fun res r' => reads r' /\ exists m, (0 < m)%nat /\
    moved (fun x => ~ in_query x) terms n ts res.2 m res.1
      (restore_ordering (<[n := res.2]> terms) n) /\ d < cur res.2)).
  - destruct block as [last|].
    + destruct (Hblock last eq_refl) as [-> Hskip].
      destruct (active_standing s blocks_of k1 b avg_doc_len ts Hrdy Hne) as (k & ps & p & Hst).
      pose proof (standing_last s blocks_of k1 b avg_doc_len ts k ps p Hrdy Hst) as Hl.
      rewrite wrap_small by (unfold UINT32_MAX in *; lia).
      eapply ensures_mono.
      { apply (seek_term_ok h s c blocks_of k1 b avg_doc_len (fun x => ~ in_query x) terms n ts
          (last_of ts + 1)); try done.
        apply Forall_forall. intros q [Hq1 Hq2]%list_elem_of_filter. apply Hskip; [done|lia]. }
      intros [ok ts'] r1 (Hr1 & Hrp & Hc). cbn [fst snd] in *. split; [done|].
      exists (length (passed blocks_of ts (last_of ts + 1))).
      split; [by apply (passed_nonempty s blocks_of k1 b avg_doc_len); [..|lia]|].
      split; [done|]. specialize (Hc ltac:(lia)). lia.
    + eapply ensures_mono; [by apply (advance_term_ok terms n ts d)|].
      intros [ok ts'] r1 (Hr1 & Hrp & Hlt). cbn [fst snd] in *. split; [done|].
      exists 1%nat. split; [lia|]. split; [|done].
      eapply replaced_mono; [|exact Hrp]. by intros x ->.
  - intros [ok ts'] r1 (Hr1 & m & Hm & Hrp & Hlt). cbn [fst snd] in *.
    rewrite (replaced_active _ _ _ _ _ _ _ _ Hrp).
    set (terms' := restore_ordering _ n) in *.
    pose proof (rp_progress _ _ _ _ _ _ _ _ _ _ _ _ _ Hrp) as Hp.
    assert (Hpast' : at_or_past d terms').
    { pose proof (pg_upto _ _ _ _ _ _ _ _ Hp (d - 1)). unfold at_or_past in *. lia. }
    pose proof (rp_passed _ _ _ _ _ _ _ _ _ _ _ _ _ Hrp d ltac:(lia)).
    eapply ensures_mono; [apply (IH terms' _ r1 Hr1); [apply Hrp|apply Hrp|done|lia|]|].
    + assert (Hall : Forall term_tenants (stat <$> terms')).
      { rewrite (pg_static _ _ _ _ _ _ _ _ Hp). by apply Forall_fmap. }
      rewrite Forall_fmap in Hall. exact Hall.
    + intros res r2 Hres. by eapply (pass_round _ n d terms ts ts' m ok); [..|exact Hrp|].
Qed.
End Pass.
