(* ===== verification/BmwWand.v ===== *)
(** * WAND is exact (src/query/bmw.c)

    The invariant of the WAND loop: every document of the query was visited with
    its full score, or cannot beat the threshold, or has not been passed by any
    term.  Every round keeps it and passes at least one posting, so the loop ends,
    and then no document is left. *)
From S2P Require Import Prelude Postgres Float4 Fieldnorm TopK SegmentFormat Compression Storage.
From S2P Require Import SegmentIO Docmap SegmentScan ScanFacts Memtable Bmw BmwSingle BmwTerms BmwOrder.
From S2P Require Import BmwSteps BmwSums BmwPass.

Lemma skippable_forall n d terms x : skippable n d terms x <->
  d <= x /\ Forall (fun ts => x <= last_of ts) (take n terms) /\
  Forall (fun ts => x < term_current_doc_id ts) (drop n terms).
Proof.
  unfold skippable. rewrite !Forall_lookup. split; intros (Hd & Hin & Hout).
  - split; [done|]. split.
    + intros i ts [Hts Hi]%lookup_take_Some. by apply (Hin i).
    + intros i ts Hts. rewrite lookup_drop in Hts. apply (Hout (n + i)%nat); [lia|done].
  - split; [done|]. split.
    + intros i ts Hi Hts. apply (Hin i). by apply lookup_take_Some.
    + intros i ts Hi Hts. apply (Hout (i - n)%nat). rewrite lookup_drop. rewrite <- Hts. f_equal. lia.
Qed.

#[export] Instance skippable_dec n d terms x : Decision (skippable n d terms x).
Proof.
  destruct (decide (d <= x /\ Forall (fun ts => x <= last_of ts) (take n terms) /\
    Forall (fun ts => x < term_current_doc_id ts) (drop n terms))) as [Hyes|Hno];
    [left|right]; by rewrite skippable_forall.
Defined.

Section Wand.
Context `{ItemPointerLaws}.
Context (s : list byte) (blocks_of : TpDictEntry -> blocks).
Context (k1 b avg_doc_len : float4).
Context (root_block tenant_id min_doc_id max_doc_id : Z) (tid : Z -> Z).
(** The terms of the query in the segment, and what the heap was offered before. *)
Context (query : list query_term) (k : nat) (offered : list candidate).

Abbreviation cur := term_current_doc_id.
Abbreviation rem := (remaining blocks_of).
Abbreviation ready := (term_ready s blocks_of k1 b avg_doc_len).
Abbreviation meas := (measure blocks_of).
Abbreviation stat := (static blocks_of).
Abbreviation stepped := (stepped s blocks_of k1 b avg_doc_len).
Abbreviation in_query := (doc_in_query tenant_id min_doc_id max_doc_id tid).
Abbreviation total := (doc_total k1 b avg_doc_len query).
Abbreviation pruned := (pruned k1 b avg_doc_len query).

(** The documents visited, with their scores; those with a positive score are
    offered to the heap. *)
Abbreviation visits := (list (Z * float4)).
Definition positive (x : Z * float4) : Prop := f4_gt x.2 (f4_of_Z 0) = true.
Definition visit_candidates (visited : visits) : list candidate :=
  (fun x => SegmentResult root_block x.1 x.2) <$> filter positive visited.
Definition heap_with (visited : visits) : TpTopKHeap :=
  foldl tp_topk_add (tp_topk_init k) (offered ++ visit_candidates visited).
Definition threshold_with (visited : visits) : float4 := tp_topk_threshold (heap_with visited).

(** A document needs no more attention. *)
Definition settled (visited : visits) (d : Z) : Prop :=
  d ∈ visited.*1 \/ pruned d (threshold_with visited).

(** A visited document is one of the query, with its score. *)
Definition well_visited (x : Z * float4) : Prop :=
  in_query x.1 /\ mentioned query x.1 /\ total x.1 x.2.

Record wand_inv (visited : visits) (st : wand_state) : Prop := {
  wi_ready : Forall ready (wd_terms st);
  wi_sorted : doc_sorted (wd_terms st);
  wi_active : wd_active st = Z.of_nat (active (wd_terms st));
  wi_static : stat <$> wd_terms st ≡ₚ query;
  wi_min : at_or_past min_doc_id (wd_terms st);
  wi_heap : (wd_acc st).1 = heap_with visited;
  wi_order : StronglySorted Z.lt visited.*1;
  wi_passed : Forall (fun x => upto x.1 (wd_terms st) = 0%nat) visited;
  wi_visited : Forall well_visited visited;
  wi_settled : forall d, in_query d -> mentioned query d ->
    settled visited d \/ intact blocks_of d (wd_terms st);
}.

(** ** Steps that visit no document *)

(** A step that passes only documents that are settled, or not of the query. *)
Lemma inv_step P `{forall d, Decision (P d)} visited terms terms' active active' heap stats stats' :
  stepped P terms terms' active' ->
  (forall d, P d -> in_query d -> mentioned query d -> intact blocks_of d terms -> settled visited d) ->
  wand_inv visited (mkWand terms active (heap, stats)) ->
  wand_inv visited (mkWand terms' active' (heap, stats')).
Proof.
  intros Hst HP [I1 I2 I3 I4 I5 I6 I7 I8 I9 I10]. cbn [wd_terms wd_active wd_acc fst] in *.
  pose proof (sp_progress _ _ _ _ _ _ _ _ _ Hst) as Hp.
  split; cbn [wd_terms wd_active wd_acc fst]; try done.
  - apply Hp.
  - apply Hst.
  - apply Hst.
  - by rewrite (pg_static _ _ _ _ _ _ _ _ Hp).
  - pose proof (pg_upto _ _ _ _ _ _ _ _ Hp (min_doc_id - 1)). unfold at_or_past in *. lia.
  - eapply Forall_impl; [exact I8|]. intros x Hx. simpl in Hx.
    pose proof (pg_upto _ _ _ _ _ _ _ _ Hp x.1). lia.
  - intros d Hq Hm. destruct (I10 d Hq Hm) as [|Hint]; [by left|].
    destruct (decide (P d)) as [HPd|HnP]; [left; by apply HP|].
    right. by apply (pg_intact _ _ _ _ _ _ _ _ Hp d HnP Hint).
Qed.

Context (Hk : (0 < k)%nat) (Hoffered : scores_ok offered).
Context (Hsums : sums_bounded k1 b avg_doc_len query).

(** ** The threshold *)

Lemma total_nan d sc : total d sc -> is_nan sc = false.
Proof. intros (qs & Hqs & ->). by apply (sb_score _ _ _ _ Hsums d). Qed.

Lemma visits_ok visited : Forall well_visited visited ->
  scores_ok (offered ++ visit_candidates visited).
Proof.
  intros HF. apply Forall_app. split; [done|]. apply Forall_fmap, Forall_forall.
  intros [d sc] [Hpos Hin]%list_elem_of_filter. rewrite Forall_forall in HF.
  destruct (HF _ Hin) as (_ & _ & Ht). cbn in *. split; [by eapply total_nan|].
  by apply f4_lt_asym.
Qed.

Lemma threshold_nan visited : Forall well_visited visited -> is_nan (threshold_with visited) = false.
Proof. intros HF. exact (proj1 (threshold_ok k _ Hk (visits_ok _ HF))). Qed.

(** Visiting one more document offers it to the heap. *)
Lemma heap_with_snoc visited d sc :
  heap_with (visited ++ [(d, sc)]) = add_pivot_document root_block (heap_with visited) d sc.
Proof.
  unfold heap_with, visit_candidates, add_pivot_document.
  rewrite filter_app, filter_cons, filter_nil.
  destruct (decide (positive (d, sc))) as [Hpos|Hpos]; unfold positive in Hpos; cbn [snd] in Hpos.
  - rewrite Hpos, fmap_app, app_assoc, foldl_app. cbn [fmap list_fmap foldl fst snd andb].
    set (heap := foldl _ _ _). destruct (tp_topk_dominated heap sc) eqn:Ed; cbn [negb]; [|done].
    by apply add_dominated.
  - rewrite app_nil_r, (not_true_is_false _ Hpos). done.
Qed.

Lemma settled_snoc visited x d : Forall well_visited (visited ++ [x]) -> settled visited d ->
  settled (visited ++ [x]) d.
Proof.
  intros HF [Hin|Hth]; [left; rewrite fmap_app; set_solver|]. right.
  pose proof HF as [HF0 _]%Forall_app.
  apply (pruned_mono _ _ _ _ _ (threshold_with visited)); try done; try by apply threshold_nan.
  pose proof (visits_ok _ HF) as Hok. unfold threshold_with, heap_with, visit_candidates in *.
  rewrite filter_app, filter_cons, filter_nil in *.
  destruct (decide (positive x)); [|rewrite app_nil_r; apply f4_lt_irrefl].
  rewrite fmap_app in *. rewrite app_assoc in *. by apply threshold_mono.
Qed.

(** ** The documents a round passes *)

Lemma prefix_settled visited terms j d :
  Forall ready terms -> doc_sorted terms -> stat <$> terms ≡ₚ query -> Forall well_visited visited ->
  (j <= active terms)%nat -> below_bounds terms j (threshold_with visited) ->
  intact blocks_of d terms -> mentioned query d ->
  (forall i ts, (j <= i)%nat -> terms !! i = Some ts -> ~ has_doc d (stat ts)) -> settled visited d.
Proof.
  intros HF Hs Hq Hv Hj Hb Hint Hm Hno. right.
  apply (pruned_by blocks_of k1 b avg_doc_len query d _ terms j ts_max_score); try done.
  - by apply threshold_nan.
  - intros i ts Hi Hts. left.
    destruct (active_lookup s blocks_of k1 b avg_doc_len terms i HF Hs ltac:(lia)) as (ts' & ? & ? & Hr).
    simplify_eq. by apply (rd_max _ _ _ _ _ _ Hr).
  - destruct Hb as [->|Hb]; [|done]. destruct Hm as (qt & Hqt & Hd). rewrite <- Hq in Hqt.
    apply list_elem_of_fmap in Hqt as (ts & -> & Hts). apply list_elem_of_lookup in Hts as [i Hi].
    by destruct (Hno i ts ltac:(lia) Hi).
Qed.

Lemma pivot_settled visited terms n d x :
  Forall ready terms -> doc_sorted terms -> stat <$> terms ≡ₚ query -> Forall well_visited visited ->
  pivot_at terms (threshold_with visited) n d -> x < d ->
  intact blocks_of x terms -> mentioned query x -> settled visited x.
Proof.
  intros HF Hs Hq Hv (Hn & Hd & Hpos & i & ts & Hi & Hcur & Hu & Hb) Hx Hint Hm.
  apply (prefix_settled visited terms i); try done.
  - enough (i < active terms)%nat by lia. unfold active.
    apply (sorted_upto _ _ _ ts Hs Hi). lia.
  - intros m t Hm' Ht Hdoc. destruct (has_doc_active s blocks_of k1 b avg_doc_len x terms m t HF Hs Hint Ht Hdoc) as (_ & Hle & _).
    assert (m < upto (d - 1) terms)%nat by (apply (sorted_upto _ _ _ t Hs Ht); lia). lia.
Qed.

Lemma skippable_settled visited terms n d x :
  Forall ready terms -> doc_sorted terms -> stat <$> terms ≡ₚ query -> Forall well_visited visited ->
  (n <= active terms)%nat ->
  f4_le (fsum (current_bound blocks_of k1 b avg_doc_len <$> take n terms)) (threshold_with visited) = true ->
  skippable n d terms x -> intact blocks_of x terms -> settled visited x.
Proof.
  intros HF Hs Hq Hv Hn Hle (Hd & Hin & Hout) Hint. right.
  apply (pruned_by blocks_of k1 b avg_doc_len query x _ terms n
    (current_bound blocks_of k1 b avg_doc_len)); try done.
  - by apply threshold_nan.
  - intros i ts Hi Hts Hdoc. destruct (has_doc_active s blocks_of k1 b avg_doc_len x terms i ts HF Hs Hint Hts Hdoc) as (_ & ? & _).
    pose proof (Hout i ts Hi Hts). lia.
  - intros i ts Hi Hts. right.
    destruct (active_lookup s blocks_of k1 b avg_doc_len terms i HF Hs ltac:(lia)) as (ts' & ? & Hne & Hr).
    simplify_eq. destruct (active_standing s blocks_of k1 b avg_doc_len ts Hr Hne) as (m & ps & p & Hst).
    exists m, (it_skip_entry (ts_iter ts)), ps. split; [apply (st_entry _ _ _ _ _ _ _ _ _ Hst)|].
    split; [done|]. intros Hdoc.
    pose proof (Hint ts (list_elem_of_lookup_2 _ _ _ Hts) Hdoc) as Hrem. unfold rem_docs in Hrem.
    apply list_elem_of_fmap in Hrem as (q & -> & Hq'). apply list_elem_of_fmap_2.
    destruct (st_rest _ _ _ _ _ _ _ _ _ Hst q Hq') as [|Hlt]; [done|].
    pose proof (Hin i ts Hi Hts). lia.
  - by apply f4_le_not_lt.
Qed.

(** ** The document that is scored *)

Definition at_pivot (d : Z) (ts : TpTermState) : Prop := ready ts /\ rem ts <> [] /\ cur ts = d.

Lemma at_pivot_doc d ts : at_pivot d ts -> has_doc d (stat ts).
Proof.
  intros (Hr & Hne & <-).
  destruct (active_standing s blocks_of k1 b avg_doc_len ts Hr Hne) as (m & ps & p & Hst).
  by eapply current_has_doc.
Qed.

(** All terms of an intact document are at it. *)
Lemma pivot_total d n terms :
  Forall ready terms -> doc_sorted terms -> stat <$> terms ≡ₚ query -> intact blocks_of d terms ->
  Forall (at_pivot d) (take n terms) -> (upto d terms <= n)%nat ->
  total d (doc_sum k1 b avg_doc_len d (stat <$> take n terms)).
Proof.
  intros HF Hs Hq Hint Hat Hn. eexists. split; [|done]. unfold doc_terms_of.
  rewrite (terms_among blocks_of query d terms n (filter (has_doc d) query) Hq (Permutation_refl _)).
  - rewrite filter_all; [done|]. apply Forall_fmap. eapply Forall_impl; [exact Hat|].
    intros ts. apply at_pivot_doc.
  - intros i ts Hi Hts Hdoc.
    destruct (has_doc_active s blocks_of k1 b avg_doc_len d terms i ts HF Hs Hint Hts Hdoc) as (_ & ? & _).
    pose proof (upto_cur_lt d n terms i ts Hs Hn Hi Hts). lia.
Qed.

Lemma visit_ok visited terms terms' active active' heap stats stats' d n :
  wand_inv visited (mkWand terms active (heap, stats)) ->
  (0 < n)%nat -> upto d terms = n -> Forall (at_pivot d) (take n terms) -> in_query d ->
  ~ pruned d (threshold_with visited) ->
  all_passed s blocks_of k1 b avg_doc_len (fun x => x = d) d n terms terms' active' ->
  let sc := doc_sum k1 b avg_doc_len d (stat <$> take n terms) in
  wand_inv (visited ++ [(d, sc)]) (mkWand terms' active' (add_pivot_document root_block heap d sc, stats')).
Proof.
  intros [I1 I2 I3 I4 I5 I6 I7 I8 I9 I10] Hn Hu Hat Hq Hnp (Hst & Hpast & _) sc.
  cbn [wd_terms wd_active wd_acc fst] in *.
  assert (Hm : mentioned query d).
  { pose proof (upto_length d terms). destruct (lookup_lt_is_Some_2 terms 0) as [ts Hts]; [lia|].
    exists (stat ts). split; [rewrite <- I4; by eapply list_elem_of_fmap_2, list_elem_of_lookup_2|].
    apply at_pivot_doc. rewrite Forall_lookup in Hat. apply (Hat 0%nat). by apply lookup_take_Some. }
  assert (Hint : intact blocks_of d terms).
  { destruct (I10 d Hq Hm) as [[Hin|?]|]; [|done|done].
    apply list_elem_of_fmap in Hin as (x & -> & Hx). rewrite Forall_forall in I8.
    specialize (I8 x Hx). simpl in I8. lia. }
  assert (Hv : Forall well_visited (visited ++ [(d, sc)])).
  { apply Forall_app. split; [done|]. constructor; [|done]. split; [done|]. split; [done|].
    apply (pivot_total d n); try done. by rewrite Hu. }
  pose proof (sp_progress _ _ _ _ _ _ _ _ _ Hst) as Hp.
  split; cbn [wd_terms wd_active wd_acc fst]; try done.
  - apply Hp.
  - apply Hst.
  - apply Hst.
  - by rewrite (pg_static _ _ _ _ _ _ _ _ Hp).
  - pose proof (pg_upto _ _ _ _ _ _ _ _ Hp (min_doc_id - 1)). unfold at_or_past in *. lia.
  - rewrite heap_with_snoc. by rewrite I6.
  - rewrite fmap_app. apply StronglySorted_app. split; [|split; [done|repeat constructor]].
    intros x y Hx Hy. cbn in Hy. apply list_elem_of_singleton in Hy as ->.
    apply list_elem_of_fmap in Hx as (z & -> & Hz). rewrite Forall_forall in I8.
    specialize (I8 z Hz). simpl in I8. destruct (Z.lt_ge_cases z.1 d) as [|L]; [done|].
    pose proof (upto_mono d z.1 terms L). lia.
  - apply Forall_app. split; [|by repeat constructor].
    eapply Forall_impl; [exact I8|]. intros x Hx. simpl in Hx.
    pose proof (pg_upto _ _ _ _ _ _ _ _ Hp x.1). lia.
  - intros x Hxq Hxm. destruct (decide (x = d)) as [->|Hne].
    + left. left. rewrite fmap_app. set_solver.
    + destruct (I10 x Hxq Hxm) as [Hset|Hx]; [left; by apply settled_snoc|].
      right. by apply (pg_intact _ _ _ _ _ _ _ _ Hp x Hne Hx).
Qed.
End Wand.
