(* ===== verification/BmwRound.v ===== *)
(** * The rounds of WAND, and the loop (src/query/bmw.c)

    Every round of the loop keeps the invariant of BmwWand and passes a posting,
    on each of its branches; so the loop ends, with every document settled. *)
From S2P Require Import Prelude Postgres Float4 Fieldnorm TopK SegmentFormat Compression Storage.
From S2P Require Import SegmentIO Docmap SegmentScan ScanFacts Memtable Bmw BmwSingle BmwTerms BmwOrder.
From S2P Require Import BmwSteps BmwSums BmwPass BmwWand.

Section Round.
Context {R : Type} `{SegmentAccessLaws R} `{ItemPointerLaws}.
Context (h : TpSegmentHeader) (s : list byte) (c : option (list Z * list Z)).
Context (blocks_of : TpDictEntry -> blocks).
Context (k1 b avg_doc_len : float4).
Context (root_block tenant_id min_doc_id max_doc_id : Z) (tid : Z -> Z).
Context (query : list query_term) (k : nat) (offered : list candidate).

Abbreviation cur := term_current_doc_id.
Abbreviation rem := (remaining blocks_of).
Abbreviation ready := (term_ready s blocks_of k1 b avg_doc_len).
Abbreviation meas := (measure blocks_of).
Abbreviation reads := (reads_segment h s c).
Abbreviation stat := (static blocks_of).
Abbreviation stepped := (stepped s blocks_of k1 b avg_doc_len).
Abbreviation in_query := (doc_in_query tenant_id min_doc_id max_doc_id tid).
Abbreviation inv := (wand_inv s blocks_of k1 b avg_doc_len root_block tenant_id min_doc_id max_doc_id
  tid query k offered).
Abbreviation settled := (settled k1 b avg_doc_len root_block query k offered).
Abbreviation threshold_with := (threshold_with root_block k offered).

Context (Hk : (0 < k)%nat) (Hoffered : scores_ok offered).
Context (Hsums : sums_bounded k1 b avg_doc_len query).
Context (Htenants : tenant_id <> 0 ->
  Forall (term_tenants h s c tenant_id min_doc_id max_doc_id tid) query).

(** The loop goes on, in a state where the invariant holds. *)
Definition goes_on (measured : wand_state -> Prop) (res : option wand_state) : Prop :=
  exists visited st', res = Some st' /\ inv visited st' /\ measured st'.

(** The terms at the pivot, once aligned. *)
Lemma aligned_at n d terms : Forall ready terms -> doc_sorted terms -> (n <= active terms)%nat ->
  verify_pivot_alignment terms n d = true -> Forall (at_pivot s blocks_of k1 b avg_doc_len d) (take n terms).
Proof.
  intros HF Hs Hn Hv. unfold verify_pivot_alignment in Hv. rewrite forallb_forall in Hv.
  apply Forall_lookup. intros i ts Hi. pose proof (list_elem_of_lookup_2 _ _ _ Hi) as Hin.
  apply list_elem_of_In, Hv, Z.eqb_eq in Hin. apply lookup_take_Some in Hi as [Hi Hlt].
  destruct (active_lookup s blocks_of k1 b avg_doc_len terms i HF Hs ltac:(lia)) as (ts' & ? & ? & ?).
  by simplify_eq.
Qed.

Lemma aligned_upto n d terms : doc_sorted terms -> at_or_past d terms -> (n <= length terms)%nat ->
  (upto d terms <= n)%nat -> Forall (at_pivot s blocks_of k1 b avg_doc_len d) (take n terms) ->
  upto d terms = n.
Proof.
  intros Hs Hpast Hn Hu Hat. destruct (decide (n = 0%nat)) as [->|]; [lia|].
  destruct (lookup_lt_is_Some_2 terms (n - 1)) as [ts Hts]; [lia|].
  rewrite Forall_lookup in Hat.
  destruct (Hat (n - 1)%nat ts) as (_ & _ & Hcur); [apply lookup_take_Some; split; [done|lia]|].
  assert (n - 1 < upto d terms)%nat by (apply (sorted_upto d terms _ ts Hs Hts); lia). lia.
Qed.

(** When no term is below [d] and the first [upto d] are active, they are at [d]. *)
Lemma all_at_pivot d terms : doc_sorted terms -> at_or_past d terms ->
  verify_pivot_alignment terms (upto d terms) d = true.
Proof.
  intros Hs Hpast. unfold verify_pivot_alignment. apply forallb_forall. intros ts Hin%list_elem_of_In.
  apply list_elem_of_lookup in Hin as [i Hi]. apply lookup_take_Some in Hi as [Hi Hlt].
  apply Z.eqb_eq. pose proof (at_or_past_cur d terms i ts Hs Hpast Hi).
  apply (sorted_upto d terms i ts Hs Hi) in Hlt. lia.
Qed.

(** Steps 5 to 7: the aligned pivot is passed over, or visited. *)
Definition finish_round (n : nat) (d : Z) (st : wand_state) : rst R (option wand_state) :=
  wrong ← wrong_tenant tenant_id max_doc_id d;
  if (wrong : bool) then
    '(terms1, active1, stats1) ←
      skip_wrong_tenant tenant_id n d (wd_terms st) (wd_active st) (wd_acc st).2;
    mret (Some (mkWand terms1 active1 ((wd_acc st).1, stats1)))
  else
    doc_score ← rst_lift (score_pivot_document k1 b avg_doc_len (wd_terms st) n);
    '(terms1, active1) ← advance_pivot_terms n d (wd_terms st) (wd_active st);
    mret (Some (mkWand terms1 active1
      (add_pivot_document root_block (wd_acc st).1 d doc_score, count_scored <$> (wd_acc st).2))).

Lemma finish_round_ok visited terms heap stats n d r :
  reads r -> inv visited (mkWand terms (Z.of_nat (active terms)) (heap, stats)) ->
  (0 < n)%nat -> (n <= active terms)%nat -> at_or_past d terms -> (upto d terms <= n)%nat ->
  0 <= d <= max_doc_id -> d < UINT32_MAX -> verify_pivot_alignment terms n d = true ->
  f4_le (fsum (current_bound blocks_of k1 b avg_doc_len <$> take n terms)) (threshold_with visited) = false ->
  let st := mkWand terms (Z.of_nat (active terms)) (heap, stats) in
  ensures (finish_round n d st) r (fun res r' => reads r' /\
    goes_on (fun st' => (meas (wd_terms st') < meas terms)%nat) res).
Proof.
  intros Hr Hinv Hn Hact Hpast Hu Hd Hd32 Halign Hle st.
  pose proof Hinv as [I1 I2 I3 I4 I5 I6 I7 I8 I9 I10]. cbn [wd_terms wd_active wd_acc fst] in *.
  pose proof (aligned_at n d terms I1 I2 Hact Halign) as Hat.
  pose proof (upto_length (UINT32_MAX - 1) terms) as Hlen. fold (active terms) in Hlen.
  pose proof (aligned_upto n d terms I2 Hpast ltac:(lia) Hu Hat) as Hun.
  destruct (lookup_lt_is_Some_2 terms 0) as [t0 Ht0]; [lia|].
  assert (Hat0 : at_pivot s blocks_of k1 b avg_doc_len d t0).
  { rewrite Forall_lookup in Hat. apply (Hat 0%nat). by apply lookup_take_Some. }
  pose proof (at_pivot_doc _ _ _ _ _ d t0 Hat0) as Hdoc.
  assert (Hmin : min_doc_id <= d).
  { destruct Hat0 as (_ & _ & <-). by apply (at_or_past_cur min_doc_id terms 0). }
  unfold has_doc in Hdoc. apply list_elem_of_fmap in Hdoc as (p & -> & Hp).
  unfold finish_round, st. cbn [wd_terms wd_active wd_acc fst snd].
  assert (Hq0 : stat t0 ∈ query) by (rewrite <- I4; by eapply list_elem_of_fmap_2, list_elem_of_lookup_2).
  eapply ensures_bind_runs.
  { apply (wrong_tenant_ok h s c (qt_blocks (stat t0)) tenant_id min_doc_id max_doc_id tid);
      [|done|done|lia].
    intros Ht. specialize (Htenants Ht). rewrite Forall_forall in Htenants. by apply Htenants. }
  intros r1 Hr1. destruct (decide (in_query (bp_doc_id p))) as [Hq|Hq].
  - unfold BmwSingle.in_query. rewrite bool_decide_true by done. cbn [negb].
    unfold score_pivot_document.
    apply ensures_bind. eapply ensures_lift.
    { by apply (add_contributions_ok s blocks_of k1 b avg_doc_len (bp_doc_id p)). }
    apply ensures_bind. eapply ensures_mono.
    { by apply (advance_pivot_terms_ok h s c blocks_of k1 b avg_doc_len 0 (fun _ => 0) (bp_doc_id p)). }
    intros [terms1 active1] r2 [Hr2 Hpassed]. cbn [fst snd] in *. apply ensures_ret. split; [done|].
    eexists _, _. split; [done|]. split; [|destruct Hpassed as (_ & _ & ?); cbn [wd_terms]; lia].
    eapply (visit_ok s blocks_of); try done.
    apply (standing_not_pruned s blocks_of k1 b avg_doc_len query _ _ terms n); try done.
    by eapply threshold_nan.
  - unfold BmwSingle.in_query. rewrite bool_decide_false by done. cbn [negb].
    assert (Ht : tenant_id <> 0).
    { intros E. apply Hq. split; [lia|]. by left. }
    apply ensures_bind. eapply ensures_mono.
    { apply (skip_wrong_tenant_ok h s c blocks_of k1 b avg_doc_len tenant_id min_doc_id max_doc_id tid Ht
        (bp_doc_id p)); try done; [lia|].
      specialize (Htenants Ht). rewrite <- I4 in Htenants. by rewrite Forall_fmap in Htenants. }
    intros [[terms1 active1] stats1] r2 (Hr2 & Hst & _ & Hm). cbn [fst snd] in *.
    apply ensures_ret. split; [done|]. exists visited. eexists. split; [done|].
    split; [|cbn [wd_terms]; lia].
    by eapply (inv_step s blocks_of k1 b avg_doc_len root_block tenant_id min_doc_id max_doc_id tid query
      k offered _ visited _ _ _ _ heap _ _ Hst); [|exact Hinv].
Qed.

(** Steps 3 to 7, after the seeks. *)
Lemma aligned_round_ok visited terms heap stats n d r :
  reads r -> inv visited (mkWand terms (Z.of_nat (active terms)) (heap, stats)) ->
  (0 < n)%nat -> (n <= active terms)%nat -> at_or_past d terms -> (upto d terms <= n)%nat ->
  0 <= d <= max_doc_id -> d < UINT32_MAX ->
  let st := mkWand terms (Z.of_nat (active terms)) (heap, stats) in
  ensures
    (block_upper ← rst_lift (compute_block_max_at_pivot terms n);
     if f4_le block_upper (tp_topk_threshold heap) then
       '(terms1, active1, stats1) ← block_max_skip_advance terms n (Z.of_nat (active terms)) stats;
       mret (Some (mkWand terms1 active1 (heap, stats1)))
     else
       let stats := count_scanned <$> stats in
       if negb (verify_pivot_alignment terms n d)
       then mret (Some (mkWand terms (Z.of_nat (active terms)) (heap, stats)))
       else finish_round n d (mkWand terms (Z.of_nat (active terms)) (heap, stats))) r
    (fun res r' => reads r' /\ goes_on (fun st' => (meas (wd_terms st') <= meas terms)%nat /\
       (n = upto d terms -> (meas (wd_terms st') < meas terms)%nat)) res).
Proof.
  intros Hr Hinv Hn Hact Hpast Hu Hd Hd32 st.
  pose proof Hinv as [I1 I2 I3 I4 I5 I6 I7 I8 I9 I10]. cbn [wd_terms wd_active wd_acc fst] in *.
  assert (HFn : Forall (fun ts => ready ts /\ rem ts <> []) (take n terms)).
  { apply Forall_lookup. intros i ts [Hi Hlt]%lookup_take_Some.
    destruct (active_lookup s blocks_of k1 b avg_doc_len terms i I1 I2 ltac:(lia)) as (ts' & ? & ? & ?).
    by simplify_eq. }
  apply ensures_bind. eapply ensures_lift; [by apply (add_block_bounds_ok s blocks_of k1 b avg_doc_len)|].
  change (foldl f4_add (f4_of_Z 0) ?l) with (fsum l).
  assert (Hth : tp_topk_threshold heap = threshold_with visited) by (by rewrite I6). rewrite Hth.
  destruct (f4_le _ _) eqn:Ele.
  - apply ensures_bind. eapply ensures_mono.
    { apply (block_max_skip_ok h s c blocks_of k1 b avg_doc_len n d terms stats r); try done; [lia|].
      intros ts Hts. destruct (active_lookup s blocks_of k1 b avg_doc_len terms 0 I1 I2 ltac:(lia))
        as (ts' & ? & Hne & Hrd). simplify_eq. rewrite (rd_max _ _ _ _ _ _ Hrd Hne).
      apply (sb_term _ _ _ _ Hsums). rewrite <- I4. by eapply list_elem_of_fmap_2, list_elem_of_lookup_2. }
    intros [[terms1 active1] stats1] r1 (Hr1 & Hst & Hm). cbn [fst snd] in *.
    apply ensures_ret. split; [done|]. exists visited. eexists. split; [done|].
    split; [|split; [apply (sp_progress _ _ _ _ _ _ _ _ _ Hst)|done]].
    eapply (inv_step s blocks_of k1 b avg_doc_len root_block tenant_id min_doc_id max_doc_id tid
        query k offered _ visited _ _ _ _ heap _ _ Hst); [|exact Hinv].
    intros x Hx _ _ Hint. by eapply skippable_settled.
  - cbv zeta. destruct (verify_pivot_alignment terms n d) eqn:Ev; cbn [negb]; cycle 1.
    + apply ensures_ret. split; [done|]. exists visited. eexists. split; [done|].
      split; [by destruct Hinv|]. split; [done|]. intros ->. by rewrite all_at_pivot in Ev.
    + eapply ensures_mono.
      { apply (finish_round_ok visited terms heap (count_scanned <$> stats) n d r); try done. }
      intros res r1 (Hr1 & v & st' & -> & Hinv' & Hm). split; [done|]. exists v, st'.
      split; [done|]. split; [done|]. split; [lia|done].
Qed.

(** A round: it goes on with fewer postings left, or every document is settled. *)
Lemma wand_round_ok visited st r :
  reads r -> inv visited st ->
  ensures (wand_round root_block k1 b avg_doc_len tenant_id max_doc_id st) r (fun res r' => reads r' /\
    (goes_on (fun st' => (meas (wd_terms st') < meas (wd_terms st))%nat) res \/
     res = None /\ forall d, in_query d -> mentioned query d -> settled visited d)).
Proof.
  destruct st as [terms act [heap stats]]. intros Hr Hinv.
  pose proof Hinv as [I1 I2 I3 I4 I5 I6 I7 I8 I9 I10]. cbn [wd_terms wd_active wd_acc fst snd] in *.
  subst act. unfold wand_round. cbn [wd_terms wd_active wd_acc].
  assert (Hth : tp_topk_threshold heap = threshold_with visited) by (by rewrite I6).
  pose proof (find_wand_pivot_ok s blocks_of k1 b avg_doc_len terms (tp_topk_threshold heap) I1 I2) as Hfind.
  destruct (find_wand_pivot terms _) as [[n d]|]; cycle 1.
  { apply ensures_ret. split; [done|]. right. split; [done|]. intros d Hq Hm.
    destruct (I10 d Hq Hm) as [|Hint]; [done|]. rewrite Hth in Hfind.
    apply (prefix_settled s blocks_of k1 b avg_doc_len root_block tenant_id min_doc_id max_doc_id tid
      query k offered Hk Hoffered Hsums visited terms (active terms)); try done.
    intros i ts Hi Hts Hdoc. destruct (has_doc_active s blocks_of k1 b avg_doc_len d terms i ts I1 I2
      Hint Hts Hdoc) as (_ & _ & ?). lia. }
  rewrite Hth in Hfind.
  assert (Hbelow : forall x, x < d -> in_query x -> mentioned query x -> intact blocks_of x terms ->
            settled visited x).
  { intros x Hx _ Hm Hint.
    by apply (pivot_settled s blocks_of k1 b avg_doc_len root_block tenant_id min_doc_id max_doc_id tid
      query k offered Hk Hoffered Hsums visited terms n d). }
  destruct (Z.ltb_spec max_doc_id d) as [Lmax|Lmax].
  { apply ensures_ret. split; [done|]. right. split; [done|]. intros x Hq Hm.
    destruct (I10 x Hq Hm) as [|Hint]; [done|]. apply Hbelow; [|done..]. destruct Hq. lia. }
  pose proof Hfind as (Hn & Hd32 & Hpos & i & ts & Hi & Hcur & _).
  assert (Hd0 : 0 <= d).
  { assert (Hact : (i < active terms)%nat) by (apply (sorted_upto _ terms i ts I2 Hi); lia).
    destruct (active_lookup s blocks_of k1 b avg_doc_len terms i I1 I2 Hact) as (ts' & ? & Hne & Hrd).
    assert (ts' = ts) as -> by congruence. rewrite <- Hcur, (cur_rem s blocks_of k1 b avg_doc_len ts Hrd).
    destruct (remaining_docs s blocks_of ts (rd_ok _ _ _ _ _ _ Hrd)) as [Hdocs _].
    destruct (rem ts); [done|]. by apply Forall_cons in Hdocs as [[? _] _]. }
  apply ensures_bind. eapply ensures_mono.
  { by apply (seek_to_pivot_ok h s c blocks_of k1 b avg_doc_len n d terms r). }
  intros [ok [terms1 active1]] r1 (Hr1 & Hst & Hdone). cbn [fst snd] in *.
  pose proof (inv_step s blocks_of k1 b avg_doc_len root_block tenant_id min_doc_id max_doc_id tid
    query k offered _ visited _ _ _ _ heap stats stats Hst Hbelow Hinv) as Hinv1.
  destruct ok; cbn [negb]; cycle 1.
  { apply ensures_ret. split; [done|]. left. exists visited. eexists. done. }
  destruct Hdone as (Hpast1 & Hact1 & Hmoved). rewrite (sp_active _ _ _ _ _ _ _ _ _ Hst) in *.
  pose proof (sp_progress _ _ _ _ _ _ _ _ _ Hst) as Hp.
  pose proof (pg_upto _ _ _ _ _ _ _ _ Hp d) as Hu1.
  eapply ensures_mono; [apply (aligned_round_ok visited terms1 heap stats n d r1); try done; lia|].
  intros res r2 (Hr2 & v & st' & -> & Hinv2 & Hle & Hlt). split; [done|]. left. exists v, st'.
  split; [done|]. split; [done|]. destruct Hmoved as [->|]; [by apply Hlt|lia].
Qed.

(** The loop ends, with every document settled. *)
Lemma wand_loop_ok : forall fuel visited st r,
  reads r -> inv visited st -> (meas (wd_terms st) < fuel)%nat ->
  ensures (wand_loop root_block k1 b avg_doc_len tenant_id max_doc_id fuel st) r (fun st' r' =>
    reads r' /\ exists visited', inv visited' st' /\
      forall d, in_query d -> mentioned query d -> settled visited' d).
Proof.
  induction fuel as [|fuel IH]; intros visited st r Hr Hinv Hf; [lia|]. cbn [wand_loop].
  destruct (Z.ltb_spec 0 (wd_active st)) as [L|L].
  - apply ensures_bind. eapply ensures_mono; [by apply (wand_round_ok visited)|].
    intros res r1 (Hr1 & [(v & st' & -> & Hinv' & Hm)|[-> Hall]]).
    + apply (IH v); [done..|lia].
    + apply ensures_ret. split; [done|]. by exists visited.
  - apply ensures_ret. split; [done|]. exists visited. split; [done|]. intros d Hq Hm.
    destruct (wi_settled _ _ _ _ _ _ _ _ _ _ _ _ _ _ _ Hinv d Hq Hm) as [|Hint]; [done|exfalso].
    destruct Hm as (qt & Hqt & Hd).
    rewrite <- (wi_static _ _ _ _ _ _ _ _ _ _ _ _ _ _ _ Hinv) in Hqt.
    apply list_elem_of_fmap in Hqt as (ts & -> & Hts). apply list_elem_of_lookup in Hts as [i Hi].
    destruct (has_doc_active s blocks_of k1 b avg_doc_len d (wd_terms st) i ts
      (wi_ready _ _ _ _ _ _ _ _ _ _ _ _ _ _ _ Hinv) (wi_sorted _ _ _ _ _ _ _ _ _ _ _ _ _ _ _ Hinv)
      Hint Hi Hd) as (_ & _ & Ha).
    rewrite (wi_active _ _ _ _ _ _ _ _ _ _ _ _ _ _ _ Hinv) in L. lia.
Qed.
End Round.
