(* ===== verification/BmwMulti.v ===== *)
(** * Several terms on a segment (src/query/bmw.c, score_segment_multi_term_bmw)

    The start of the loop: the term states of a segment, the sort and the seeks to
    the tenant's range establish the invariant; and the theorem on the whole
    function. *)
From S2P Require Import Prelude Postgres Float4 Fieldnorm TopK SegmentFormat Compression Storage.
From S2P Require Import SegmentIO Docmap SegmentScan ScanFacts Memtable Bmw BmwSingle BmwTerms BmwOrder.
From S2P Require Import BmwSteps BmwSums BmwPass BmwWand BmwRound.

(** ** Sorting the terms *)

Lemma compare_term_doc_id_le ta tb :
  compare_term_doc_id ta tb <= 0 <-> term_current_doc_id ta <= term_current_doc_id tb.
Proof.
  unfold compare_term_doc_id.
  destruct (Z.ltb_spec (term_current_doc_id ta) (term_current_doc_id tb)); [lia|].
  destruct (Z.ltb_spec (term_current_doc_id tb) (term_current_doc_id ta)); lia.
Qed.

Lemma sort_terms_ok `{QSortLaws} terms :
  sort_terms_by_doc_id terms ≡ₚ terms /\ doc_sorted (sort_terms_by_doc_id terms).
Proof.
  unfold sort_terms_by_doc_id. split; [apply qsort_perm|].
  assert (Hc : comparator_on compare_term_doc_id terms).
  { split; intros; rewrite ?compare_term_doc_id_le in *; lia. }
  pose proof (qsort_sorted _ _ _ Hc) as Hs. unfold doc_sorted.
  induction Hs as [|t l _ IH HF]; [constructor|]. constructor; [exact IH|].
  eapply Forall_impl; [exact HF|]. intros t' Ht. by apply compare_term_doc_id_le.
Qed.

Section Start.
Context {R : Type} `{SegmentAccessLaws R} `{ItemPointerLaws}.
Context (h : TpSegmentHeader) (s : list byte) (c : option (list Z * list Z)).
Context (terms_of_segment : list (list byte)) (entries_of_segment : list TpDictEntry).
Context (blocks_of : TpDictEntry -> blocks).
Context (k1 b avg_doc_len : float4).

Abbreviation cur := term_current_doc_id.
Abbreviation rem := (remaining blocks_of).
Abbreviation ready := (term_ready s blocks_of k1 b avg_doc_len).
Abbreviation meas := (measure blocks_of).
Abbreviation reads := (reads_segment h s c).
Abbreviation stat := (static blocks_of).

(** What a term of the query is in the segment. *)
Definition query_term_of (ts : TpTermState) : query_term :=
  mkQueryTerm (ts_idf ts) (ts_query_freq ts)
    (match list_find (fun t => t = c_str (ts_term ts)) terms_of_segment with
     | Some (i, _) => match entries_of_segment !! i with Some de => blocks_of de | None => [] end
     | None => []
     end).

(** What a term adds to the fuel of the loop. *)
Definition term_fuel (ts : TpTermState) : nat :=
  if ts_found ts then Z.to_nat (de_block_count (it_dict_entry (ts_iter ts)) * 255) else 0%nat.

Context (Hdict : dictionary_at h s terms_of_segment entries_of_segment).
Context (Hlists : Forall (list_ok s blocks_of) entries_of_segment).

Lemma query_term_at ts (i : nat) de : terms_of_segment !! i = Some (c_str (ts_term ts)) ->
  entries_of_segment !! i = Some de ->
  query_term_of ts = mkQueryTerm (ts_idf ts) (ts_query_freq ts) (blocks_of de).
Proof.
  intros Hi He. unfold query_term_of.
  destruct (list_find _ _) as [[j t]|] eqn:E; cycle 1.
  { apply list_find_None in E. rewrite Forall_lookup in E. by destruct (E i _ Hi). }
  apply list_find_Some in E as (Hj & -> & Hfirst).
  destruct (Nat.lt_trichotomy i j) as [L|[->|L]]; [|by rewrite He|].
  - by destruct (Hfirst i _ Hi L).
  - pose proof (StronglySorted_lookup _ _ _ _ _ _ (da_sorted _ _ _ _ Hdict) Hj Hi L) as Hlt.
    by apply term_lt_irrefl in Hlt.
Qed.

Lemma query_term_absent ts : c_str (ts_term ts) ∉ terms_of_segment ->
  query_term_of ts = mkQueryTerm (ts_idf ts) (ts_query_freq ts) [].
Proof.
  intros Hno. unfold query_term_of. destruct (list_find _ _) as [[i t]|] eqn:E; [|done].
  apply list_find_Some in E as (Hi & -> & _). destruct Hno. by eapply list_elem_of_lookup_2.
Qed.

Lemma all_postings_bound de bls : blocks_at s de bls -> (length (all_postings bls) <= length bls * 255)%nat.
Proof.
  intros Hbl. assert (Hall : Forall (fun x => (length x.2 <= 255)%nat) bls).
  { apply Forall_lookup. intros i [sk ps] Hi. pose proof (block_small s de bls Hbl i sk ps Hi). simpl. lia. }
  clear Hbl. unfold all_postings. induction Hall as [|[sk ps] l Hx _ IH]; [simpl; lia|].
  cbn [fmap list_fmap concat snd length] in *. rewrite length_app. cbn in *. lia.
Qed.

(** What [init_term_state] establishes. *)
Record started (ts ts' : TpTermState) : Prop := {
  sr_ready : ready ts';
  sr_static : stat ts' = query_term_of ts;
  sr_all : rem ts' = all_postings (qt_blocks (stat ts'));
  sr_fuel : (length (rem ts') <= term_fuel ts')%nat;
}.

Lemma not_found_started ts it : c_str (ts_term ts) ∉ terms_of_segment ->
  started ts (mkTermState (ts_term ts) (ts_idf ts) (ts_query_freq ts) (f4_of_Z 0) false it None None).
Proof.
  intros Hno. split; [by split| |done|simpl; lia]. by rewrite query_term_absent.
Qed.

Lemma init_term_state_ok ts r : reads r ->
  ensures (init_term_state k1 b avg_doc_len ts) r (fun res r' => reads r' /\ started ts res.2 /\
    (res.1 = true <-> rem res.2 <> [])).
Proof.
  intros Hr. unfold init_term_state. apply ensures_bind.
  eapply ensures_mono; [exact (init_ok h s c _ _ Hdict (ts_term ts) r Hr)|].
  intros [[] it] r1 [Hr1 Hres]; cbn [negb]; cycle 1.
  { apply ensures_ret. split; [done|]. split; [by apply not_found_started|done]. }
  destruct Hres as (i & de & Hi & He & ->). cbn [it_dict_entry].
  rewrite Forall_lookup in Hlists. pose proof (Hlists i de He) as Hl.
  pose proof (lo_blocks _ _ _ Hl) as Hbl. pose proof (query_term_at ts i de Hi He) as Hqt.
  rewrite (ba_count _ _ _ Hbl). destruct (blocks_of de) as [|[sk ps] bls] eqn:Ebl.
  { cbn [zlen length Z.of_nat Z.ltb Z.compare]. apply ensures_bind, ensures_ret. apply ensures_bind.
    eexists _, r1. split.
    { unfold tp_segment_posting_iterator_load_block. cbn [it_dict_entry it_current_block].
      rewrite (ba_count _ _ _ Hbl). reflexivity. }
    apply ensures_ret. split; [done|]. cbn [fst snd]. split; [|done].
    set (ts' := mkTermState _ _ _ _ _ _ _ _).
    assert (Es : stat ts' = query_term_of ts) by (rewrite Hqt; unfold static; cbn; by rewrite Ebl).
    assert (Er : rem ts' = []) by done.
    split; [split| | |]; rewrite ?Er; try done; [by rewrite Es, Hqt|simpl; lia]. }
  set (qt := mkQueryTerm (ts_idf ts) (ts_query_freq ts) ((sk, ps) :: bls)) in *.
  rewrite (proj2 (Z.ltb_lt 0 _)) by (unfold zlen; simpl; lia).
  apply ensures_bind. eapply ensures_bind_runs.
  { unfold zlen. rewrite Nat2Z.id.
    by apply (read_skip_entries_ok h s c de ((sk, ps) :: bls) Hbl (length ((sk, ps) :: bls)) 0). }
  intros r2 Hr2. apply ensures_ret. rewrite drop_0.
  eapply ensures_bind_runs.
  { by apply (load_block_ok h s c de ((sk, ps) :: bls) Hbl _ 0 sk ps). }
  intros r3 Hr3. apply ensures_ret. split; [done|]. cbn [fst snd].
  set (it := mkIterator _ _ _ _ _ _ sk (Some ps)). set (ts' := mkTermState _ _ _ _ _ it _ _).
  assert (Ef : it_finished it = false).
  { done. }
  destruct (block_nonempty s de _ Hbl 0 sk ps eq_refl) as [Hne _].
  assert (Hin : inside blocks_of it 0 0 ps).
  { split; try done; [cbn; by rewrite Ebl|]. destruct ps; [done|simpl; lia]. }
  assert (Es : stat ts' = qt) by (unfold static, ts', it; cbn; by rewrite Ebl).
  assert (Erem : rem ts' = all_postings (qt_blocks qt)).
  { unfold remaining. cbn [ts_found ts' ts_iter]. rewrite (remaining_inside blocks_of it 0 0 ps Hin Ef).
    cbn [it_dict_entry it]. rewrite Ebl. done. }
  split; [split; [split| | |]|].
  - intros _ _. split; [split; [exact Hl|by exists 0%nat, 0%nat, ps]|]. cbn. by rewrite Ebl.
  - intros _. rewrite Es. done.
  - intros _. rewrite Es. done.
  - by rewrite Es, Hqt.
  - by rewrite Erem, Es.
  - rewrite Erem. unfold term_fuel, ts', it. cbn [ts_found ts_iter it_dict_entry].
    rewrite (ba_count _ _ _ Hbl). pose proof (all_postings_bound de _ Hbl). unfold zlen, qt.
    cbn [qt_blocks]. lia.
  - rewrite Erem. split; [|done]. intros _. unfold qt, all_postings. cbn. by destruct ps.
Qed.

Lemma active_cons ts terms : ready ts ->
  active (ts :: terms) = ((if decide (rem ts <> []) then 1 else 0) + active terms)%nat.
Proof.
  intros Hr. unfold active, upto. rewrite filter_cons.
  pose proof (cur_active s blocks_of k1 b avg_doc_len ts Hr) as Ha.
  destruct (decide (rem ts <> [])) as [Hn|Hn].
  - rewrite decide_True; [done|]. apply Ha in Hn. lia.
  - rewrite decide_False; [done|]. intros Hc. apply Hn, Ha. lia.
Qed.

Lemma init_segment_term_states_ok : forall terms r, reads r ->
  ensures (init_segment_term_states k1 b avg_doc_len terms) r (fun res r' => reads r' /\
    Forall2 started terms res.2 /\ res.1 = Z.of_nat (active res.2)).
Proof.
  induction terms as [|ts terms IH]; intros r Hr; cbn [init_segment_term_states].
  { by apply ensures_ret. }
  apply ensures_bind. eapply ensures_mono; [by apply init_term_state_ok|].
  intros [act ts1] r1 (Hr1 & Hst & Hact). cbn [fst snd] in *.
  apply ensures_bind. eapply ensures_mono; [by apply IH|].
  intros [n terms1] r2 (Hr2 & Hall & Hn). cbn [fst snd] in *. apply ensures_ret.
  split; [done|]. split; [by constructor|]. cbn [fst snd].
  rewrite active_cons by apply (sr_ready _ _ Hst). rewrite Hn.
  destruct (decide (rem ts1 <> [])) as [Hd|Hd]; destruct act; try lia; [by apply Hact in Hd|].
  by destruct Hd; apply Hact.
Qed.

Lemma started_intact d terms terms1 : Forall2 started terms terms1 -> intact blocks_of d terms1.
Proof.
  intros HF ts Hts Hd. apply list_elem_of_lookup in Hts as [i Hi].
  destruct (Forall2_lookup_r _ _ _ _ _ HF Hi) as (ts0 & _ & Hs).
  unfold rem_docs. by rewrite (sr_all _ _ Hs).
Qed.

Lemma started_static terms terms1 : Forall2 started terms terms1 ->
  stat <$> terms1 = query_term_of <$> terms.
Proof.
  induction 1 as [|ts ts1 l l1 Hs _ IH]; [done|]. rewrite !fmap_cons, IH. by rewrite (sr_static _ _ Hs).
Qed.

Lemma started_ready terms terms1 : Forall2 started terms terms1 -> Forall ready terms1.
Proof. induction 1 as [|ts ts1 l l1 Hs _ IH]; [done|]. constructor; [apply (sr_ready _ _ Hs)|done]. Qed.

Lemma measure_cons ts terms : meas (ts :: terms) = (length (rem ts) + meas terms)%nat.
Proof. unfold measure. cbn [mbind list_bind]. by rewrite length_app. Qed.

Lemma started_fuel terms terms1 : Forall2 started terms terms1 ->
  (meas terms1 <= sum_list_with term_fuel terms1)%nat.
Proof.
  induction 1 as [|ts ts1 l l1 Hs _ IH]; [done|]. rewrite measure_cons. cbn [sum_list_with].
  pose proof (sr_fuel _ _ Hs). lia.
Qed.

(** ** The seeks to the range *)

Context (min_doc_id : Z).

(** What the seeks do to a term. *)
Record at_range (ts ts' : TpTermState) : Prop := {
  ar_ready : ready ts';
  ar_static : stat ts' = stat ts;
  ar_fuel : term_fuel ts' = term_fuel ts;
  ar_measure : (length (rem ts') <= length (rem ts))%nat;
  ar_min : min_doc_id <= UINT32_MAX -> min_doc_id <= cur ts';
  ar_docs : forall d, min_doc_id <= d -> d ∈ rem_docs blocks_of ts -> d ∈ rem_docs blocks_of ts';
}.

Lemma at_range_refl ts : ready ts -> (min_doc_id <= UINT32_MAX -> min_doc_id <= cur ts) -> at_range ts ts.
Proof. by split. Qed.

Lemma exhausted_iff ts : ready ts ->
  negb (ts_found ts) || it_finished (ts_iter ts) = true <-> rem ts = [].
Proof.
  intros Hr. unfold remaining. destruct (ts_found ts) eqn:Ef; cbn [negb orb]; [|done].
  destruct (it_finished (ts_iter ts)) eqn:Efin; [unfold remaining_from; by rewrite Efin|].
  split; [done|]. destruct (rd_ok _ _ _ _ _ _ Hr Ef Efin) as [[_ (m & j & ps & Hin)] _].
  destruct (lookup_lt_is_Some_2 ps j (in_bound _ _ _ _ _ Hin)) as [p Hp].
  by rewrite (remaining_cons blocks_of _ m j ps p Hin Efin Hp).
Qed.

Lemma seek_to_range ts r : reads r -> ready ts -> rem ts <> [] ->
  ensures (seek_term_to_doc ts min_doc_id) r (fun res r' => reads r' /\ at_range ts res.2 /\
    (res.1 = true <-> rem res.2 <> [])).
Proof.
  intros Hr Hrdy Hne.
  eapply ensures_mono; [exact (seek_ok h s c blocks_of ts min_doc_id r Hr (rd_ok _ _ _ _ _ _ Hrdy) Hne)|].
  intros [ok ts'] r1 [Hr1 Hm]. cbn [fst snd] in *. split; [done|].
  pose proof (moved_ready _ _ _ _ _ _ _ _ _ Hrdy Hne Hm) as Hrdy'.
  pose proof (mv_remaining _ _ _ _ _ _ Hm) as Hrem. split; [split|].
  - done.
  - by eapply moved_static.
  - destruct (mv_same _ _ _ _ _ _ Hm) as [E Hde]. unfold term_fuel. rewrite E. cbn [set_iter ts_found ts_iter].
    by rewrite Hde.
  - rewrite Hrem. apply length_filter.
  - intros Hmin. rewrite (cur_rem s blocks_of k1 b avg_doc_len ts' Hrdy'), Hrem.
    destruct (filter _ _) as [|p ps] eqn:Ef; [done|].
    assert (Hp : p ∈ filter (fun p => min_doc_id <= bp_doc_id p) (rem ts)) by (rewrite Ef; left).
    by apply list_elem_of_filter in Hp as [? _].
  - intros d Hd (q & -> & Hq)%list_elem_of_fmap. unfold rem_docs. rewrite Hrem.
    apply list_elem_of_fmap_2, list_elem_of_filter. done.
  - rewrite (mv_active _ _ _ _ _ _ Hm), Hrem. apply bool_decide_eq_true.
Qed.

Lemma seek_terms_to_min_ok : forall terms n r, reads r -> Forall ready terms ->
  ensures (seek_terms_to_min min_doc_id terms n) r (fun res r' => reads r' /\
    Forall2 at_range terms res.1 /\
    res.2 = n - Z.of_nat (active terms) + Z.of_nat (active res.1)).
Proof.
  induction terms as [|ts terms IH]; intros n r Hr HF; cbn [seek_terms_to_min].
  { apply ensures_ret. split; [done|]. split; [done|]. cbn. lia. }
  apply Forall_cons in HF as [Hrdy HF].
  apply ensures_bind. eapply (ensures_mono _ _ (fun res r' => reads r' /\ at_range ts res.1 /\
    res.2 = n - (if decide (rem ts <> []) then 1 else 0) + (if decide (rem res.1 <> []) then 1 else 0))).
  - destruct (negb _ || _) eqn:Eex.
    { apply ensures_ret. split; [done|]. cbn [fst snd]. split; [|case_decide; lia].
      apply at_range_refl; [done|]. rewrite (cur_rem s blocks_of k1 b avg_doc_len ts Hrdy).
      by rewrite (proj1 (exhausted_iff ts Hrdy) Eex). }
    assert (Hne : rem ts <> []) by (by rewrite <- exhausted_iff, Eex).
    destruct (Z.ltb_spec (cur ts) min_doc_id) as [L|L].
    + apply ensures_bind. eapply ensures_mono; [by apply seek_to_range|].
      intros [ok ts1] r1 (Hr1 & Har & Hok). cbn [fst snd] in *. apply ensures_ret. cbn [fst snd].
      split; [done|]. split; [done|]. rewrite decide_True by done.
      destruct (decide (rem ts1 <> [])) as [Hd|Hd]; destruct ok; try lia; [by apply Hok in Hd|].
      by destruct Hd; apply Hok.
    + apply ensures_ret. split; [done|]. cbn [fst snd]. split; [by apply at_range_refl|].
      case_decide; lia.
  - intros [ts1 n1] r1 (Hr1 & Har & Hn1). cbn [fst snd] in *.
    apply ensures_bind. eapply ensures_mono; [by apply IH|].
    intros [terms1 n2] r2 (Hr2 & Hall & Hn2). cbn [fst snd] in *. apply ensures_ret. cbn [fst snd].
    split; [done|]. split; [by constructor|].
    rewrite !active_cons by (done || apply (ar_ready _ _ Har)). rewrite Hn2, Hn1.
    repeat case_decide; lia.
Qed.

Lemma at_range_all terms terms' : Forall2 at_range terms terms' ->
  Forall ready terms' /\ stat <$> terms' = stat <$> terms /\
  sum_list_with term_fuel terms' = sum_list_with term_fuel terms /\ (meas terms' <= meas terms)%nat.
Proof.
  induction 1 as [|ts ts' l l' Ha _ (IH1 & IH2 & IH3 & IH4)]; [done|]. rewrite !fmap_cons, !measure_cons.
  cbn [sum_list_with]. rewrite IH2, IH3, (ar_static _ _ Ha), (ar_fuel _ _ Ha).
  pose proof (ar_measure _ _ Ha). split; [constructor; [apply (ar_ready _ _ Ha)|done]|].
  split; [done|]. split; [done|lia].
Qed.

Lemma at_range_intact d terms terms' : Forall2 at_range terms terms' -> min_doc_id <= d ->
  intact blocks_of d terms -> intact blocks_of d terms'.
Proof.
  intros HF Hd Hint ts' Hts Hdoc. apply list_elem_of_lookup in Hts as [i Hi].
  destruct (Forall2_lookup_r _ _ _ _ _ HF Hi) as (ts & Hts & Ha). rewrite (ar_static _ _ Ha) in Hdoc.
  apply (ar_docs _ _ Ha); [done|]. apply Hint; [by eapply list_elem_of_lookup_2|done].
Qed.

Lemma at_range_past terms terms' : Forall2 at_range terms terms' -> min_doc_id <= UINT32_MAX ->
  at_or_past min_doc_id terms'.
Proof.
  intros HF Hmax. apply upto_none, Forall_lookup. intros i ts' Hi.
  destruct (Forall2_lookup_r _ _ _ _ _ HF Hi) as (ts & _ & Ha). pose proof (ar_min _ _ Ha Hmax). lia.
Qed.

Lemma cur_nonneg ts : ready ts -> 0 <= cur ts.
Proof.
  intros Hr. rewrite (cur_rem s blocks_of k1 b avg_doc_len ts Hr).
  destruct (remaining_docs s blocks_of ts (rd_ok _ _ _ _ _ _ Hr)) as [HF _].
  destruct (rem ts); [done|]. by apply Forall_cons in HF as [[? _] _].
Qed.

(** ** What holds when the loop starts *)

Record loop_start (query : list query_term) (terms : list TpTermState) (n : Z) : Prop := {
  ls_ready : Forall ready terms;
  ls_sorted : doc_sorted terms;
  ls_active : n = Z.of_nat (active terms);
  ls_static : stat <$> terms ≡ₚ query;
  ls_min : at_or_past min_doc_id terms;
  ls_intact : forall d, min_doc_id <= d -> intact blocks_of d terms;
  ls_fuel : (meas terms < wand_fuel terms)%nat;
}.

Lemma measure_perm t1 t2 : t1 ≡ₚ t2 -> meas t1 = meas t2.
Proof. intros Hp. unfold measure. by rewrite Hp. Qed.

Context `{QSortLaws}.

Lemma sort_start query terms n : Forall ready terms -> n = Z.of_nat (active terms) ->
  stat <$> terms ≡ₚ query -> Forall (fun ts => min_doc_id <= cur ts) terms ->
  (forall d, min_doc_id <= d -> intact blocks_of d terms) ->
  (meas terms <= sum_list_with term_fuel terms)%nat ->
  loop_start query (sort_terms_by_doc_id terms) n.
Proof.
  intros HF Hn Hq Hmin Hint Hf. destruct (sort_terms_ok terms) as [Hp Hs].
  split; [by rewrite Hp|done| |by rewrite Hp| | |].
  - unfold active in *. by rewrite (upto_perm _ _ _ Hp).
  - unfold at_or_past. rewrite (upto_perm _ _ _ Hp). apply upto_none. forall_lia Hmin.
  - intros d Hd. eapply (intact_perm blocks_of d terms); [by symmetry|]. by apply Hint.
  - change (wand_fuel _) with (S (sum_list_with term_fuel (sort_terms_by_doc_id terms))).
    rewrite (measure_perm _ _ Hp). assert (Hsum : sum_list_with term_fuel (sort_terms_by_doc_id terms) =
      sum_list_with term_fuel terms) by (by rewrite Hp). lia.
Qed.

(** The start of the function, up to the loop: the states, or no term at all. *)
Definition start_terms (terms : list TpTermState) : rst R (option (list TpTermState * Z) * list TpTermState) :=
  '(active_count, terms1) ← init_segment_term_states k1 b avg_doc_len terms;
  if active_count =? 0 then mret (None, terms1)
  else
    let terms2 := sort_terms_by_doc_id terms1 in
    '(terms3, active3) ←
      (if 0 <? min_doc_id then
         '(terms3, active3) ← seek_terms_to_min min_doc_id terms2 active_count;
         mret (sort_terms_by_doc_id terms3, active3)
       else mret (terms2, active_count));
    mret (Some (terms3, active3), terms1).

Lemma start_terms_ok terms r : reads r -> min_doc_id <= UINT32_MAX ->
  let query := query_term_of <$> terms in
  ensures (start_terms terms) r (fun res r' => reads r' /\
    match res.1 with
    | Some (terms', n) => loop_start query terms' n
    | None => forall d, ~ mentioned query d
    end).
Proof.
  intros Hr Hmax query. unfold start_terms. apply ensures_bind.
  eapply ensures_mono; [by apply init_segment_term_states_ok|].
  intros [n terms1] r1 (Hr1 & Hst & Hn). cbn [fst snd] in *. subst n.
  pose proof (started_ready _ _ Hst) as Hrdy.
  pose proof (started_static _ _ Hst) as Hq.
  destruct (sort_terms_ok terms1) as [Hp Hs]. set (terms2 := sort_terms_by_doc_id terms1) in *.
  assert (Hrdy2 : Forall ready terms2) by (by rewrite Hp).
  assert (Hq2 : stat <$> terms2 ≡ₚ query) by (by rewrite Hp, Hq).
  assert (Hint2 : forall d, intact blocks_of d terms2).
  { intros d. eapply (intact_perm blocks_of d terms1); [by symmetry|]. by eapply started_intact. }
  assert (Ha2 : active terms2 = active terms1) by (unfold active; by apply upto_perm).
  assert (Hf2 : (meas terms2 <= sum_list_with term_fuel terms2)%nat).
  { rewrite (measure_perm _ _ Hp). assert (E : sum_list_with term_fuel terms2 = sum_list_with term_fuel terms1)
      by (by rewrite Hp). rewrite E. by eapply started_fuel. }
  destruct (Z.eqb_spec (Z.of_nat (active terms1)) 0) as [E0|N0].
  { apply ensures_ret. split; [done|]. cbn [fst]. intros d (qt & Hqt & Hd). rewrite <- Hq2 in Hqt.
    apply list_elem_of_fmap in Hqt as (ts & -> & Hts). apply list_elem_of_lookup in Hts as [i Hi].
    destruct (has_doc_active s blocks_of k1 b avg_doc_len d terms2 i ts Hrdy2 Hs (Hint2 d) Hi Hd)
      as (_ & _ & ?). lia. }
  destruct (Z.ltb_spec 0 min_doc_id) as [L|L].
  - apply ensures_bind. eapply ensures_bind.
    eapply ensures_mono; [by apply (seek_terms_to_min_ok terms2)|].
    intros [terms3 n3] r2 (Hr2 & Har & Hn3). cbn [fst snd] in *. apply ensures_ret, ensures_ret.
    split; [done|]. cbn [fst]. destruct (at_range_all _ _ Har) as (Hrdy3 & Hq3 & Hf3 & Hm3).
    apply sort_start; [done|lia|by rewrite Hq3| | |lia].
    + apply Forall_lookup. intros i ts' Hi.
      destruct (Forall2_lookup_r _ _ _ _ _ Har Hi) as (ts & _ & Ha). by apply (ar_min _ _ Ha).
    + intros d Hd. by eapply at_range_intact.
  - apply ensures_bind, ensures_ret, ensures_ret. split; [done|]. cbn [fst].
    split; try done; [by rewrite Ha2| |].
    + apply upto_none. eapply Forall_impl; [exact Hrdy2|]. intros ts Hts.
      pose proof (cur_nonneg ts Hts). lia.
    + change (wand_fuel _) with (S (sum_list_with term_fuel terms2)). lia.
Qed.

Context (root_block tenant_id max_doc_id : Z) (tid : Z -> Z).

Lemma score_segment_split acc terms r :
  score_segment_multi_term_bmw root_block k1 b avg_doc_len tenant_id min_doc_id max_doc_id acc terms r =
  ('(start, terms1) ← start_terms terms;
   match start with
   | None => mret (terms1, acc)
   | Some (terms3, active3) =>
       st ← wand_loop root_block k1 b avg_doc_len tenant_id max_doc_id (wand_fuel terms3)
              (mkWand terms3 active3 acc);
       mret (wd_terms st, wd_acc st)
   end) r.
Proof.
  unfold score_segment_multi_term_bmw, start_terms. unfold mbind, rst_bind.
  destruct (init_segment_term_states k1 b avg_doc_len terms r) as [[[n terms1] r1]|]; [|done].
  destruct (n =? 0); [done|]. destruct (0 <? min_doc_id); [|done].
  by destruct (seek_terms_to_min _ _ _ _) as [[[terms3 n3] r2]|].
Qed.

Abbreviation in_query := (doc_in_query tenant_id min_doc_id max_doc_id tid).

(** What the segment contributes: the documents visited, in order, each with its
    score, leave out only documents that cannot beat the threshold. *)
Record wand_result (query : list query_term) (k : nat) (offered : list candidate)
    (heap : TpTopKHeap) (visited : list (Z * float4)) : Prop := {
  wr_heap : heap = heap_with root_block k offered visited;
  wr_order : StronglySorted Z.lt visited.*1;
  wr_visited : Forall (well_visited k1 b avg_doc_len tenant_id min_doc_id max_doc_id tid query) visited;
  wr_complete : forall d sc, in_query d -> mentioned query d -> doc_total k1 b avg_doc_len query d sc ->
    d ∈ visited.*1 \/ f4_lt (tp_topk_threshold heap) sc = false;
}.

Lemma score_segment_multi_ok terms (acc : scoring_state) k offered r :
  let query := query_term_of <$> terms in
  reads r -> min_doc_id <= UINT32_MAX -> (0 < k)%nat -> scores_ok offered ->
  acc.1 = foldl tp_topk_add (tp_topk_init k) offered -> sums_bounded k1 b avg_doc_len query ->
  (tenant_id <> 0 -> Forall (term_tenants h s c tenant_id min_doc_id max_doc_id tid) query) ->
  ensures (score_segment_multi_term_bmw root_block k1 b avg_doc_len tenant_id min_doc_id max_doc_id acc terms) r
    (fun res r' => reads r' /\ exists visited, wand_result query k offered res.2.1 visited).
Proof.
  intros query Hr Hmax Hk Hoff Hacc Hsums Htt.
  assert (Hnil : heap_with root_block k offered [] = acc.1).
  { unfold heap_with, visit_candidates. cbn. by rewrite app_nil_r. }
  unfold ensures. rewrite score_segment_split. apply (ensures_bind (start_terms terms)).
  eapply ensures_mono; [by apply start_terms_ok|].
  intros [[[terms3 active3]|] terms1] r1 [Hr1 Hres]; cbn [fst] in Hres.
  - destruct Hres as [L1 L2 L3 L4 L5 L6 L7]. apply ensures_bind. eapply ensures_mono.
    { apply (wand_loop_ok h s c blocks_of k1 b avg_doc_len root_block tenant_id min_doc_id max_doc_id tid
        query k offered Hk Hoff Hsums Htt _ [] _ r1 Hr1); [|exact L7].
      split; cbn [wd_terms wd_active wd_acc]; try done; [constructor|].
      intros d [[Hd _] _] _. right. by apply L6. }
    intros st r2 (Hr2 & visited & [I1 I2 I3 I4 I5 I6 I7 I8 I9 I10] & Hall). apply ensures_ret.
    split; [done|]. exists visited. cbn [fst snd]. split; try done.
    intros d sc Hq Hm Hsc. destruct (Hall d Hq Hm) as [|[Hle _]]; [by left|]. right.
    rewrite I6. by apply Hle.
  - apply ensures_ret. split; [done|]. exists []. cbn [fst snd]. split; [by rewrite Hnil|constructor|done|].
    intros d sc _ Hm. by destruct (Hres d).
Qed.
End Start.

Section Properties.
Context {R : Type} `{SegmentAccessLaws R} `{ItemPointerLaws} `{QSortLaws}.

End Properties.

(** ** A witness: two terms on the demonstration segment *)

Section Witnesses.
#[local] Existing Instances small_layout small_layout_laws first_fit first_fit_laws.
#[local] Existing Instances ScanFacts.demo_access ScanFacts.demo_laws.

Definition demo_blocks_of (de : TpDictEntry) : blocks :=
  if de_block_count de =? 2 then demo_blocks else [].

(** The term of the segment, with weight 1 and with weight 2. *)
Definition demo_state (query_freq : Z) : TpTermState :=
  mkTermState [x61] f4_one query_freq (f4_of_Z 0) false iterator_reset None None.
Definition demo_query_term (query_freq : Z) : query_term := mkQueryTerm f4_one query_freq demo_blocks.
Definition demo_query : list query_term := [demo_query_term 1; demo_query_term 2].

Abbreviation demo_bounded := (sums_bounded f4_one (f4_of_Z 0) (f4_of_Z 10) demo_query).

Lemma demo_lists : Forall (list_ok demo_bytes demo_blocks_of) demo_entries.
Proof.
  repeat (apply Forall_cons; split); [..|constructor].
  - split; [exact demo_blocks_at| |done|unfold all_postings; cbn; forall_compute].
    split; [repeat (constructor; [|forall_compute]); constructor|].
    intros [|[|k]] sk ps Hk; simplify_eq/=; eauto.
  - split; [|split; [constructor|by intros k sk ps Hk]|done|constructor].
    split; [by vm_compute|done|]. by intros k sk ps Hk.
Qed.

(** The lists that can be made of two terms. *)
Lemma pairs_of_two {A B} (l : list (A * B)) (a b : A) : l.*1 ⊆+ [a; b] ->
  l = [] \/ (exists u, l = [(a, u)]) \/ (exists u, l = [(b, u)]) \/
  (exists u v, l = [(a, u); (b, v)]) \/ (exists u v, l = [(b, u); (a, v)]).
Proof.
  intros Hl. pose proof (submseteq_length _ _ Hl) as Hlen. rewrite length_fmap in Hlen.
  destruct l as [|[x u] [|[y v] [|? ?]]]; [by left|right..|simpl in Hlen; lia].
  - assert (Hx : x ∈ [a; b]) by (eapply elem_of_submseteq; [|exact Hl]; left).
    rewrite !elem_of_cons, elem_of_nil in Hx. destruct Hx as [->|[->|[]]]; eauto.
  - right; right. cbn in Hl.
    assert (Hp : [x; y] ≡ₚ [a; b]) by (by apply submseteq_length_Permutation).
    apply Permutation_length_2_inv in Hp as [Hp|Hp]; injection Hp as -> ->; eauto.
Qed.

Lemma demo_has_doc d n : has_doc d (demo_query_term n) <-> d = 1 \/ d = 4 \/ d = 9.
Proof. unfold has_doc. cbn. rewrite !elem_of_cons, elem_of_nil. intuition. Qed.

(** The bounds of a term, and that of the block of a document. *)
Definition bound_value (n : Z) (m : Z) : float4 := 
  f4_mul (f4_div (f4_of_Z (2 * m)) (f4_of_Z (m + 1))) (f4_of_Z n).

Lemma demo_bound d n u : n = 1 \/ n = 2 ->
  bound_for f4_one (f4_of_Z 0) (f4_of_Z 10) d (demo_query_term n) u ->
  u = bound_value n 3 \/ u = bound_value n 2 /\ d <> 1 /\ d <> 4.
Proof.
  intros Hn [->|(k & sk & ps & Hk & -> & Hd)].
  - left. destruct Hn as [->| ->]; by vm_compute.
  - destruct k as [|[|k]]; simplify_eq/=.
    + left. destruct Hn as [->| ->]; by vm_compute.
    + right. split; [destruct Hn as [->| ->]; by vm_compute|].
      rewrite demo_has_doc in Hd. rewrite elem_of_cons, elem_of_nil in Hd. 
      split; intros ->; destruct Hd; by auto.
Qed.

Lemma demo_block_bound d n u : n = 1 \/ n = 2 ->
  block_bound_for f4_one (f4_of_Z 0) (f4_of_Z 10) d (demo_query_term n) u ->
  (d = 1 \/ d = 4) /\ u = bound_value n 3 \/ d = 9 /\ u = bound_value n 2.
Proof.
  intros Hn (k & sk & ps & Hk & Hd & ->). destruct k as [|[|k]]; simplify_eq/=.
  - left. rewrite !elem_of_cons, elem_of_nil in Hd. split; [by intuition|].
    destruct Hn as [->| ->]; by vm_compute.
  - right. rewrite elem_of_cons, elem_of_nil in Hd. split; [by intuition|].
    destruct Hn as [->| ->]; by vm_compute.
Qed.

(** A bounds list: which terms it has, and the values. *)
Definition demo_values (d n : Z) (u : float4) : Prop :=
  u = bound_value n 3 \/ u = bound_value n 2 /\ d <> 1 /\ d <> 4.

Lemma demo_lists_of d l :
  bounds_for f4_one (f4_of_Z 0) (f4_of_Z 10) demo_query d l ->
  l = [] \/
  (exists u, l = [(demo_query_term 1, u)] /\ demo_values d 1 u) \/
  (exists u, l = [(demo_query_term 2, u)] /\ demo_values d 2 u) \/
  exists u v, (l = [(demo_query_term 1, u); (demo_query_term 2, v)] \/
               l = [(demo_query_term 2, v); (demo_query_term 1, u)]) /\
    demo_values d 1 u /\ demo_values d 2 v.
Proof.
  intros [Hl Hb].
  assert (H1 : forall u, (demo_query_term 1, u) ∈ l -> demo_values d 1 u).
  { intros u Hu. eapply demo_bound; [by left|by apply Hb]. }
  assert (H2 : forall u, (demo_query_term 2, u) ∈ l -> demo_values d 2 u).
  { intros u Hu. eapply demo_bound; [by right|by apply Hb]. }
  destruct (pairs_of_two l _ _ Hl) as [->|[[u ->]|[[u ->]|[(u & v & ->)|(u & v & ->)]]]].
  - by left.
  - right; left. exists u. split; [done|]. apply H1. left.
  - right; right; left. exists u. split; [done|]. apply H2. left.
  - right; right; right. exists u, v. split; [by left|]. split; [apply H1|apply H2]; set_solver.
  - right; right; right. exists v, u. split; [by right|]. split; [apply H1|apply H2]; set_solver.
Qed.

Lemma demo_sums_bounded : demo_bounded.
Proof.
  assert (Hne : demo_query_term 1 <> demo_query_term 2) by done.
  assert (Hall : forall d, d = 1 \/ d = 4 \/ d = 9 -> filter (has_doc d) demo_query = demo_query).
  { intros d Hd. apply filter_all. apply Forall_cons; split; [by apply demo_has_doc|].
    apply Forall_cons; split; [by apply demo_has_doc|constructor]. }
  assert (Hnone : forall d, ~ (d = 1 \/ d = 4 \/ d = 9) -> filter (has_doc d) demo_query = []).
  { intros d Hd. apply filter_none. apply Forall_cons; split; [by rewrite demo_has_doc|].
    apply Forall_cons; split; [by rewrite demo_has_doc|constructor]. }
  assert (Hqs : forall d qs, doc_terms_of demo_query d qs ->
    qs = [] \/ (d = 1 \/ d = 4 \/ d = 9) /\
      (qs = [demo_query_term 1; demo_query_term 2] \/ qs = [demo_query_term 2; demo_query_term 1])).
  { intros d qs Hq. unfold doc_terms_of in Hq.
    destruct (decide (d = 1 \/ d = 4 \/ d = 9)) as [Hd|Hd].
    - rewrite (Hall d Hd) in Hq. right. split; [done|]. symmetry in Hq.
      apply Permutation_length_2_inv in Hq as [->| ->]; auto.
    - rewrite (Hnone d Hd) in Hq. left. by apply Permutation_nil_r in Hq. }
  split.
  - intros d l qs Hl Hq Hsub. destruct (Hqs d qs Hq) as [->|[Hd Hor]].
    + destruct (demo_lists_of d l Hl) as [->|[(u & -> & Hu)|[(u & -> & Hu)|(u & v & Hor & Hu & Hv)]]];
        unfold demo_values in *; destruct_or?; destruct_and?; subst; by vm_compute.
    + pose proof (submseteq_length _ _ Hsub) as Hlen. rewrite length_fmap in Hlen.
      destruct (demo_lists_of d l Hl) as [->|[(u & -> & Hu)|[(u & -> & Hu)|(u & v & Hor' & Hu & Hv)]]];
        [destruct Hor; subst; simpl in Hlen; lia..|].
      unfold demo_values in *; destruct_or?; destruct_and?; subst; try done; by vm_compute.
  - intros d l l' Hl Hb' Hsub.
    assert (H1 : forall u, (demo_query_term 1, u) ∈ l' ->
              (d = 1 \/ d = 4) /\ u = bound_value 1 3 \/ d = 9 /\ u = bound_value 1 2).
    { intros u Hu. apply demo_block_bound; [by left|by apply Hb']. }
    assert (H2 : forall u, (demo_query_term 2, u) ∈ l' ->
              (d = 1 \/ d = 4) /\ u = bound_value 2 3 \/ d = 9 /\ u = bound_value 2 2).
    { intros u Hu. apply demo_block_bound; [by right|by apply Hb']. }
    pose proof (fun q Hq => elem_of_submseteq _ _ q Hq Hsub) as Hel.
    assert (Hsub' : l'.*1 ⊆+ demo_query) by (etransitivity; [exact Hsub|apply Hl]).
    assert (Hin1 : (exists u, (demo_query_term 1, u) ∈ l') -> demo_query_term 1 ∈ l.*1).
    { intros [u Hu]. apply Hel. by apply (list_elem_of_fmap_2 fst) in Hu. }
    assert (Hin2 : (exists u, (demo_query_term 2, u) ∈ l') -> demo_query_term 2 ∈ l.*1).
    { intros [u Hu]. apply Hel. by apply (list_elem_of_fmap_2 fst) in Hu. }
    clear Hel Hsub Hb'.
    destruct (pairs_of_two l' _ _ Hsub') as [->|[[x ->]|[[x ->]|[(x & y & ->)|(x & y & ->)]]]];
      [|specialize (H1 x ltac:(left)); specialize (Hin1 ltac:(exists x; left))
       |specialize (H2 x ltac:(left)); specialize (Hin2 ltac:(exists x; left))
       |specialize (H1 x ltac:(left)); specialize (H2 y ltac:(right; left));
        specialize (Hin1 ltac:(exists x; left)); specialize (Hin2 ltac:(exists y; right; left))
       |specialize (H1 y ltac:(right; left)); specialize (H2 x ltac:(left));
        specialize (Hin1 ltac:(exists y; right; left)); specialize (Hin2 ltac:(exists x; left))];
    (destruct (demo_lists_of d l Hl) as [->|[(u & -> & Hu)|[(u & -> & Hu)|(u & v & Hor' & Hu & Hv)]]];
      unfold demo_values in *; destruct_or?; destruct_and?; subst; try done; try lia;
      try (cbn in Hin1; rewrite ?elem_of_cons, ?elem_of_nil in Hin1; by destruct_or?);
      try (cbn in Hin2; rewrite ?elem_of_cons, ?elem_of_nil in Hin2; by destruct_or?);
      by vm_compute).
  - intros d l Hl.
    destruct (demo_lists_of d l Hl) as [->|[(u & -> & Hu)|[(u & -> & Hu)|(u & v & Hor & Hu & Hv)]]];
      unfold demo_values in *; destruct_or?; destruct_and?; subst; by vm_compute.
  - intros d qs Hq. destruct (Hqs d qs Hq) as [->|[Hd Hor]]; [by vm_compute|].
    destruct_or?; subst; by vm_compute.
  - intros qt Hqt. unfold demo_query in Hqt. rewrite !elem_of_cons, elem_of_nil in Hqt.
    destruct Hqt as [->|[->|[]]]; by vm_compute.
Qed.

End Witnesses.
