(* ===== verification/Metapage.v ===== *)
(** * The metapage, and the pages of document identifiers (src/state/metapage.c)

    Block 0 of an index holds its configuration, the heads of the segment chains
    and the head of two more chains of pages: the CTIDs of the documents that are
    only in the memtable, for crash recovery, and the statistics of the tenants.
    The pages are byte arrays; every access decodes or overwrites a struct.

    A backend remembers the last docid page it wrote in a cache of its own.  An
    operation is atomic: the slow path holds the metapage lock until it has the
    last page exclusively, and the fast path holds its page exclusively. *)
From S2P Require Import Prelude Postgres SegmentFormat Storage Memtable.

(** ** Structures *)

(** [k1] and [b] are the bits of the floats; padding bytes are fields. *)
Record TpIndexMetaPageData := mkMetaPage {
  mp_magic : Z;
  mp_version : Z;
  mp_text_config_oid : Z;
  mp_pad0 : Z;
  mp_total_docs : Z;
  mp_total_terms : Z;
  mp_total_len : Z;
  mp_k1 : Z;
  mp_b : Z;
  mp_root_blkno : Z;
  mp_term_stats_root : Z;
  mp_first_docid_page : Z;
  mp_level_heads : list Z;
  mp_level_counts : list Z;
  mp_tenant_column_attno : Z;
  mp_first_tenant_stats_page : Z;
  mp_indexed_type : Z;
  mp_pad1 : Z;
}.

Definition TP_MAX_LEVELS : nat := 8.
Definition TP_METAPAGE_BLKNO : Z := 0.

Definition metapage_layout : list nat :=
  [4; 4; 4; 4; 8; 8; 8; 4; 4; 4; 4; 4]%nat ++ replicate TP_MAX_LEVELS 4%nat ++
  replicate TP_MAX_LEVELS 2%nat ++ [4; 4; 1; 3]%nat.

Definition metapage_fields (m : TpIndexMetaPageData) : list Z :=
  [mp_magic m; mp_version m; mp_text_config_oid m; mp_pad0 m; mp_total_docs m; mp_total_terms m;
   mp_total_len m; mp_k1 m; mp_b m; mp_root_blkno m; mp_term_stats_root m; mp_first_docid_page m] ++
  mp_level_heads m ++ mp_level_counts m ++
  [mp_tenant_column_attno m; mp_first_tenant_stats_page m; mp_indexed_type m; mp_pad1 m].

Definition metapage_of_fields (fs : list Z) : TpIndexMetaPageData :=
  let f i := default 0 (fs !! i) in
  mkMetaPage (f 0%nat) (f 1%nat) (f 2%nat) (f 3%nat) (f 4%nat) (f 5%nat) (f 6%nat) (f 7%nat) (f 8%nat)
    (f 9%nat) (f 10%nat) (f 11%nat) (take 8 (drop 12 fs)) (take 8 (drop 20 fs))
    (f 28%nat) (f 29%nat) (f 30%nat) (f 31%nat).

Definition encode_metapage (m : TpIndexMetaPageData) : list byte :=
  encode_fields metapage_layout (metapage_fields m).
Definition decode_metapage (bs : list byte) : TpIndexMetaPageData :=
  metapage_of_fields (decode_fields metapage_layout bs).

Record TpDocidPageHeader := mkDocidHeader {
  dh_magic : Z;
  dh_version : Z;
  dh_num_docids : Z;
  dh_next_page : Z;
}.

Definition TpDocidPageHeader_layout : list nat := [4; 4; 4; 4]%nat.
Definition encode_docid_header (d : TpDocidPageHeader) : list byte :=
  encode_fields TpDocidPageHeader_layout [dh_magic d; dh_version d; dh_num_docids d; dh_next_page d].
Definition decode_docid_header (bs : list byte) : TpDocidPageHeader :=
  match decode_fields TpDocidPageHeader_layout bs with
  | [a; b; c; d] => mkDocidHeader a b c d
  | _ => mkDocidHeader 0 0 0 0
  end.

(** [bi_hi], [bi_lo], [ip_posid] *)
Definition encode_ctid (p : ItemPointerData) : list byte :=
  encode_fields [2; 2; 2]%nat [ip_blkid p / 65536; ip_blkid p mod 65536; ip_posid p].
Definition decode_ctid (bs : list byte) : ItemPointerData :=
  match decode_fields [2; 2; 2]%nat bs with
  | [hi; lo; pos] => mkItemPointer (hi * 65536 + lo) pos
  | _ => mkItemPointer 0 0
  end.

(** The writer's cache of a backend. *)
Record TpDocidWriterState := mkDocidWriter {
  dw_index_oid : Z;
  dw_last_page : Z;
  dw_num_docids : Z;
  dw_valid : bool;
}.

(** [docid_writer_cache.valid = false] *)
Definition tp_invalidate_docid_cache (c : TpDocidWriterState) : TpDocidWriterState :=
  mkDocidWriter (dw_index_oid c) (dw_last_page c) (dw_num_docids c) false.

Section Metapage.
Context `{PgLayout}.

(** ** The metapage *)

Definition tp_init_metapage (text_config_oid indexed_type : Z) : Page :=
  let page := PageInit 0 in
  let m := mkMetaPage TP_METAPAGE_MAGIC TP_METAPAGE_VERSION text_config_oid 0 0 0 0 0 0
    InvalidBlockNumber 0 InvalidBlockNumber (replicate TP_MAX_LEVELS InvalidBlockNumber)
    (replicate TP_MAX_LEVELS 0) 0 InvalidBlockNumber indexed_type 0 in
  mkPage (pd_special page) (overwrite 0 (encode_metapage m) (contents page)).

Definition rst_read_buffer (block : Z) : rst Storage Page := fun st =>
  match ReadBuffer st block with Ok p => Ok (p, st) | Err e => Err e end.

Definition overwrite_page (block off : Z) (bs : list byte) : rst Storage unit :=
  page ← rst_read_buffer block;
  rst_modify (fun st => put_page st block (mkPage (pd_special page) (overwrite off bs (contents page)))).

(** The struct on the page, without the checks of [tp_get_metapage]. *)
Definition read_metapage : rst Storage TpIndexMetaPageData :=
  page ← rst_read_buffer TP_METAPAGE_BLKNO;
  mret (decode_metapage (contents page)).

Definition write_metapage (m : TpIndexMetaPageData) : rst Storage unit :=
  overwrite_page TP_METAPAGE_BLKNO 0 (encode_metapage m).

Definition tp_get_metapage : rst Storage TpIndexMetaPageData :=
  m ← read_metapage;
  if negb (mp_magic m =? TP_METAPAGE_MAGIC) then rst_fail ERRCODE_INTERNAL_ERROR
  else if negb (mp_version m =? TP_METAPAGE_VERSION) then rst_fail ERRCODE_INTERNAL_ERROR
  else mret m.

Definition set_first_docid_page (m : TpIndexMetaPageData) (b : Z) : TpIndexMetaPageData :=
  mkMetaPage (mp_magic m) (mp_version m) (mp_text_config_oid m) (mp_pad0 m) (mp_total_docs m)
    (mp_total_terms m) (mp_total_len m) (mp_k1 m) (mp_b m) (mp_root_blkno m) (mp_term_stats_root m) b
    (mp_level_heads m) (mp_level_counts m) (mp_tenant_column_attno m) (mp_first_tenant_stats_page m)
    (mp_indexed_type m) (mp_pad1 m).

Definition set_first_tenant_stats_page (m : TpIndexMetaPageData) (b : Z) : TpIndexMetaPageData :=
  mkMetaPage (mp_magic m) (mp_version m) (mp_text_config_oid m) (mp_pad0 m) (mp_total_docs m)
    (mp_total_terms m) (mp_total_len m) (mp_k1 m) (mp_b m) (mp_root_blkno m) (mp_term_stats_root m)
    (mp_first_docid_page m) (mp_level_heads m) (mp_level_counts m) (mp_tenant_column_attno m) b
    (mp_indexed_type m) (mp_pad1 m).

Definition set_totals (m : TpIndexMetaPageData) (docs len : Z) : TpIndexMetaPageData :=
  mkMetaPage (mp_magic m) (mp_version m) (mp_text_config_oid m) (mp_pad0 m) docs
    (mp_total_terms m) len (mp_k1 m) (mp_b m) (mp_root_blkno m) (mp_term_stats_root m)
    (mp_first_docid_page m) (mp_level_heads m) (mp_level_counts m) (mp_tenant_column_attno m)
    (mp_first_tenant_stats_page m) (mp_indexed_type m) (mp_pad1 m).

(** [total_docs] and [total_len] are 64-bit unsigned. *)
Definition tp_update_metapage_stats (doc_delta len_delta : Z) : rst Storage unit :=
  m ← read_metapage;
  write_metapage (set_totals m (u64 (mp_total_docs m + doc_delta)) (u64 (mp_total_len m + len_delta))).

(** ** The chain of docid pages *)

Definition docids_offset : Z := 16.
Definition TP_DOCIDS_PER_PAGE : Z := (SEGMENT_DATA_PER_PAGE - docids_offset) / 6.

Definition read_docid_header (block : Z) : rst Storage TpDocidPageHeader :=
  page ← rst_read_buffer block;
  mret (decode_docid_header (contents page)).

Definition write_docid_header (block : Z) (d : TpDocidPageHeader) : rst Storage unit :=
  overwrite_page block 0 (encode_docid_header d).

Definition empty_docid_header : TpDocidPageHeader :=
  mkDocidHeader TP_DOCID_PAGE_MAGIC TP_DOCID_PAGE_VERSION 0 InvalidBlockNumber.

(** [ReadBuffer(index, P_NEW)], [PageInit] and the header. *)
Definition new_docid_page : rst Storage Z :=
  block ← (fun st => Ok (extend_relation st (PageInit 0)));
  _ ← write_docid_header block empty_docid_header;
  mret block.

(** The walk to the last page of the chain. *)
Fixpoint walk_docid_pages (fuel : nat) (current_page : Z) : rst Storage (Z * TpDocidPageHeader) :=
  match fuel with
  | O => rst_fail OUT_OF_FUEL
  | S fuel' =>
      header ← read_docid_header current_page;
      if dh_next_page header =? InvalidBlockNumber then mret (current_page, header)
      else walk_docid_pages fuel' (dh_next_page header)
  end.

(** The slow path: through the metapage. *)
Definition last_docid_page : rst Storage (Z * TpDocidPageHeader) :=
  m ← read_metapage;
  if mp_first_docid_page m =? InvalidBlockNumber then
    block ← new_docid_page;
    _ ← write_metapage (set_first_docid_page m block);
    mret (block, empty_docid_header)
  else
    fuel ← rst_gets (fun st => S (Z.to_nat (nblocks st)));
    walk_docid_pages fuel (mp_first_docid_page m).

(** The fast path: the cached page, if it still is a docid page with room. *)
Definition cached_docid_page (index_oid : Z) (cache : TpDocidWriterState)
    : rst Storage (option (Z * TpDocidPageHeader)) :=
  if dw_valid cache && (dw_index_oid cache =? index_oid)
     && negb (dw_last_page cache =? InvalidBlockNumber) && (dw_num_docids cache <? TP_DOCIDS_PER_PAGE)
  then
    header ← read_docid_header (dw_last_page cache);
    mret (if negb (dh_magic header =? TP_DOCID_PAGE_MAGIC)
             || (TP_DOCIDS_PER_PAGE <=? dh_num_docids header)
          then None else Some (dw_last_page cache, header))
  else mret None.

(** A full page gets a successor. *)
Definition page_with_room (page : Z * TpDocidPageHeader) : rst Storage (Z * TpDocidPageHeader) :=
  let '(target_page, header) := page in
  if TP_DOCIDS_PER_PAGE <=? dh_num_docids header then
    new_page ← new_docid_page;
    _ ← write_docid_header target_page
          (mkDocidHeader (dh_magic header) (dh_version header) (dh_num_docids header) new_page);
    mret (new_page, empty_docid_header)
  else mret page.

Definition tp_add_docid_to_pages (index_oid : Z) (ctid : ItemPointerData) (cache : TpDocidWriterState)
    : rst Storage TpDocidWriterState :=
  cached ← cached_docid_page index_oid cache;
  last ← match cached with Some page => mret page | None => last_docid_page end;
  '(target_page, header) ← page_with_room last;
  _ ← overwrite_page target_page (docids_offset + 6 * dh_num_docids header) (encode_ctid ctid);
  let num_docids := u32 (dh_num_docids header + 1) in
  _ ← write_docid_header target_page
        (mkDocidHeader (dh_magic header) (dh_version header) num_docids (dh_next_page header));
  mret (mkDocidWriter index_oid target_page num_docids true).

Definition tp_clear_docid_pages (cache : TpDocidWriterState) : rst Storage TpDocidWriterState :=
  m ← read_metapage;
  _ ← write_metapage (set_first_docid_page m InvalidBlockNumber);
  mret (tp_invalidate_docid_cache cache).

(** The documents recovery reads (src/state/state.c): every page of the chain, in
    order; a page without the magic number is an error. *)
Fixpoint read_docid_pages (fuel : nat) (current_page : Z) : rst Storage (list ItemPointerData) :=
  match fuel with
  | O => rst_fail OUT_OF_FUEL
  | S fuel' =>
      if current_page =? InvalidBlockNumber then mret []
      else
        header ← read_docid_header current_page;
        if negb (dh_magic header =? TP_DOCID_PAGE_MAGIC) then rst_fail ERRCODE_INTERNAL_ERROR
        else
          page ← rst_read_buffer current_page;
          let docids := decode_array 6 decode_ctid (Z.to_nat (dh_num_docids header))
                          (drop (Z.to_nat docids_offset) (contents page)) in
          rest ← read_docid_pages fuel' (dh_next_page header);
          mret (docids ++ rest)
  end.

Definition recovered_docids : rst Storage (list ItemPointerData) :=
  m ← tp_get_metapage;
  fuel ← rst_gets (fun st => S (S (Z.to_nat (nblocks st))));
  read_docid_pages fuel (mp_first_docid_page m).
End Metapage.
