(* ===== verification/MetapageFacts.v ===== *)
(** * The docid pages record the documents of the memtable (src/state/metapage.c)

    A chain of docid pages is an initial segment of full pages and a last page; a
    backend's cache points to the last page, or to one that is full.  Adding a
    document appends it, whichever backend does it and whichever path it takes, as
    long as no backend still caches a page of a chain that another one cleared; and
    a backend that does loses the document. *)
From S2P Require Import Prelude Postgres Float4 Fieldnorm SegmentFormat Compression Storage.
From S2P Require Import SegmentIO Docmap SegmentScan ScanFacts Memtable MemtableFacts SegmentWrite.
From S2P Require Import SegmentWriteFacts Metapage.

(** ** Structures at an offset *)

Lemma at_offset_drop (d : list byte) o bs : at_offset d o bs ->
  exists rest, drop (Z.to_nat o) d = bs ++ rest.
Proof.
  intros (Ho & Hle & Hs). exists (drop (length bs) (drop (Z.to_nat o) d)).
  rewrite <- Hs at 1. unfold sub_list. unfold zlen at 1. rewrite Nat2Z.id. by rewrite take_drop.
Qed.

Lemma decode_fields_fit : forall ws bs, (layout_size ws <= length bs)%nat ->
  Forall2 fits ws (decode_fields ws bs).
Proof.
  induction ws as [|w ws IH]; intros bs Hl; [constructor|]. unfold layout_size in *. simpl in *.
  constructor; [|apply IH; rewrite length_drop; lia].
  pose proof (le_value_range (take w bs)) as Hr. rewrite length_take in Hr.
  by replace (w `min` length bs)%nat with w in Hr by lia.
Qed.

Lemma length_decode_fields ws bs : length (decode_fields ws bs) = length ws.
Proof. revert bs. induction ws as [|w ws IH]; intros bs; [done|]. simpl. by rewrite IH. Qed.

Definition metapage_ok (m : TpIndexMetaPageData) : Prop :=
  Forall2 fits metapage_layout (metapage_fields m) /\
  length (mp_level_heads m) = TP_MAX_LEVELS /\ length (mp_level_counts m) = TP_MAX_LEVELS.

Lemma length_encode_metapage m : metapage_ok m -> length (encode_metapage m) = 120%nat.
Proof.
  intros (Hf & _ & _). unfold encode_metapage. rewrite length_encode_fields; [done|].
  by apply Forall2_length in Hf.
Qed.

Lemma metapage_of_fields_of m : metapage_ok m -> metapage_of_fields (metapage_fields m) = m.
Proof.
  intros (_ & Hh & Hc). destruct m as [a b c d e f g h i j k l hs cs o p q r]. cbn in Hh, Hc.
  do 8 (destruct hs as [|? hs]; [discriminate|]); destruct hs; [|discriminate].
  do 8 (destruct cs as [|? cs]; [discriminate|]); destruct cs; [|discriminate]. reflexivity.
Qed.

Lemma decode_metapage_at data m : metapage_ok m -> at_offset data 0 (encode_metapage m) ->
  decode_metapage data = m.
Proof.
  intros Hok Hat. destruct (at_offset_drop _ _ _ Hat) as [rest E]. rewrite drop_0 in E. rewrite E.
  unfold decode_metapage, encode_metapage. rewrite decode_encode_fields by apply Hok.
  by apply metapage_of_fields_of.
Qed.

(** What is read from a page is a metapage that can be written back. *)
Lemma decode_metapage_ok data : 120 <= zlen data -> metapage_ok (decode_metapage data).
Proof.
  intros Hl. unfold decode_metapage.
  pose proof (decode_fields_fit metapage_layout data) as Hf.
  pose proof (length_decode_fields metapage_layout data) as Hlen.
  remember (decode_fields metapage_layout data) as fs eqn:Efs. clear Efs.
  specialize (Hf ltac:(unfold zlen in Hl; change (layout_size metapage_layout) with 120%nat; lia)).
  change (length metapage_layout) with 32%nat in Hlen.
  do 32 (destruct fs as [|? fs]; [discriminate|]). destruct fs; [|discriminate].
  split; [exact Hf|]. split; reflexivity.
Qed.

Lemma set_first_docid_page_ok m b : metapage_ok m -> fits 4 b -> metapage_ok (set_first_docid_page m b).
Proof.
  intros (Hf & Hh & Hc) Hb. split; [|by split].
  change (metapage_fields (set_first_docid_page m b)) with (<[11%nat := b]> (metapage_fields m)).
  rewrite <- (list_insert_id metapage_layout 11 4%nat eq_refl). by apply Forall2_insert.
Qed.

Definition docid_header_ok (d : TpDocidPageHeader) : Prop :=
  Forall2 fits TpDocidPageHeader_layout [dh_magic d; dh_version d; dh_num_docids d; dh_next_page d].

Lemma decode_docid_header_at data d : docid_header_ok d -> at_offset data 0 (encode_docid_header d) ->
  decode_docid_header data = d.
Proof.
  intros Hok Hat. destruct (at_offset_drop _ _ _ Hat) as [rest E]. rewrite drop_0 in E. rewrite E.
  unfold decode_docid_header, encode_docid_header. rewrite decode_encode_fields by done. by destruct d.
Qed.

Lemma zlen_docid_header d : zlen (encode_docid_header d) = 16.
Proof. done. Qed.

(** A CTID as the server stores it. *)
Definition ctid_ok (p : ItemPointerData) : Prop := 0 <= ip_blkid p < 2 ^ 32 /\ 0 <= ip_posid p < 2 ^ 16.

Lemma zlen_ctid p : zlen (encode_ctid p) = 6.
Proof. done. Qed.

Lemma decode_encode_ctid p rest : ctid_ok p -> decode_ctid (encode_ctid p ++ rest) = p.
Proof.
  intros [Hb Hp]. unfold decode_ctid, encode_ctid. rewrite decode_encode_fields.
  - destruct p as [blk pos]. cbn [ip_blkid ip_posid]. f_equal.
    pose proof (Z.div_mod blk 65536 ltac:(lia)). lia.
  - repeat constructor; cbn; [apply Z.div_pos; lia|apply Z.div_lt_upper_bound; lia
      |apply Z.mod_pos_bound; lia|apply Z.mod_pos_bound; lia|lia|lia].
Qed.

(** The array of a page. *)
Definition ctids_at (data : list byte) (cs : list ItemPointerData) : Prop :=
  forall (i : nat) p, cs !! i = Some p -> at_offset data (docids_offset + 6 * Z.of_nat i) (encode_ctid p).

Lemma decode_ctids_from data : forall cs o, 0 <= o -> Forall ctid_ok cs ->
  (forall (i : nat) p, cs !! i = Some p -> at_offset data (o + 6 * Z.of_nat i) (encode_ctid p)) ->
  decode_array 6 decode_ctid (length cs) (drop (Z.to_nat o) data) = cs.
Proof.
  induction cs as [|p cs IH]; intros o Ho HF Hat; [done|]. cbn [length decode_array].
  apply Forall_cons in HF as [Hp HF]. f_equal.
  - pose proof (Hat 0%nat p eq_refl) as H0'. rewrite Z.mul_0_r, Z.add_0_r in H0'.
    destruct (at_offset_drop _ _ _ H0') as [rest ->].
    rewrite take_app_le, take_ge by done. rewrite <- (app_nil_r (encode_ctid p)). by apply decode_encode_ctid.
  - rewrite drop_drop. replace (Z.to_nat o + 6)%nat with (Z.to_nat (o + 6)) by lia.
    apply IH; [lia|done|]. intros i q Hq. specialize (Hat (S i) q Hq).
    by replace (o + 6 + 6 * Z.of_nat i) with (o + 6 * Z.of_nat (S i)) by lia.
Qed.

Section Pages.
Context `{PgLayoutLaws}.
(** A page has room for the metapage (BLCKSZ is at least 1024). *)
Context (Hroom : 120 <= SEGMENT_DATA_PER_PAGE).

Abbreviation cap := TP_DOCIDS_PER_PAGE.

Lemma cap_bounds : 0 < cap /\ docids_offset + 6 * cap <= SEGMENT_DATA_PER_PAGE /\ cap < 2 ^ 16.
Proof.
  unfold TP_DOCIDS_PER_PAGE, docids_offset.
  pose proof (Z.div_mod (SEGMENT_DATA_PER_PAGE - 16) 6 ltac:(lia)).
  pose proof (Z.mod_pos_bound (SEGMENT_DATA_PER_PAGE - 16) 6 ltac:(lia)).
  assert (SEGMENT_DATA_PER_PAGE <= 32768).
  { unfold SEGMENT_DATA_PER_PAGE. pose proof BLCKSZ_limit. pose proof SizeOfPageHeaderData_pos. lia. }
  lia.
Qed.

(** ** Pages in the relation *)

(** Every page holds a full data area. *)
Definition pages_full (st : Storage) : Prop :=
  Forall (fun p => zlen (contents p) = SEGMENT_DATA_PER_PAGE) (st_pages st).

Lemma zlen_page_data st b : pages_full st -> in_relation st b -> zlen (page_data st b) = SEGMENT_DATA_PER_PAGE.
Proof.
  intros HF Hb. unfold page_data, page_at. destruct (zget_is_Some (st_pages st) b Hb) as [p Hp]. rewrite Hp.
  unfold zget in Hp. destruct (0 <=? b); [|done]. by apply (Forall_lookup_1 _ _ _ _ HF Hp).
Qed.

Lemma read_page_ok st b (I : Storage -> Prop) : I st -> in_relation st b ->
  exists p, contents p = page_data st b /\ runs I (rst_read_buffer b) st p.
Proof.
  intros HI Hb. destruct (ReadBuffer_ok st b Hb) as (p & Hp & Hz). exists p. split.
  - unfold page_data, page_at. by rewrite Hz.
  - exists p, st. split; [|done]. unfold rst_read_buffer. by rewrite Hp.
Qed.

(** [st'] is [st] with the data of page [b] replaced. *)
Record page_written (st st' : Storage) (b : Z) (data : list byte) : Prop := {
  pw_full : pages_full st';
  pw_count : nblocks st' = nblocks st;
  pw_data : page_data st' b = data;
  pw_fsm : st_fsm st' = st_fsm st;
  pw_other : forall b', 0 <= b' -> b' <> b -> page_at st' b' = page_at st b';
}.

Lemma overwrite_page_ok st b off bs : pages_full st -> in_relation st b -> 0 <= off ->
  off + zlen bs <= SEGMENT_DATA_PER_PAGE ->
  ensures (overwrite_page b off bs) st (fun _ st' =>
    page_written st st' b (overwrite off bs (page_data st b))).
Proof.
  intros HF Hb Hoff Hlen. destruct (ReadBuffer_ok st b Hb) as (p & Hp & Hz).
  assert (Hc : contents p = page_data st b) by (unfold page_data, page_at; by rewrite Hz).
  unfold overwrite_page. apply ensures_bind. exists p, st. split; [unfold rst_read_buffer; by rewrite Hp|].
  apply ensures_modify. rewrite Hc. set (p' := mkPage _ _).
  assert (Hp' : zlen (contents p') = SEGMENT_DATA_PER_PAGE).
  { cbn [contents p']. rewrite length_overwrite; [by apply zlen_page_data|done|].
    by rewrite zlen_page_data. }
  split.
  - unfold pages_full, put_page. cbn. by apply Forall_insert.
  - apply nblocks_put.
  - by rewrite page_data_put_eq.
  - done.
  - intros b' Hb' Hne. apply page_at_put_ne; [apply Hb|done].
Qed.

(** ** The chain *)

Abbreviation docid_pages := (list (Z * list ItemPointerData)).

Definition page_header (cs : list ItemPointerData) (next : Z) : TpDocidPageHeader :=
  mkDocidHeader TP_DOCID_PAGE_MAGIC TP_DOCID_PAGE_VERSION (zlen cs) next.

Record docid_page (st : Storage) (b : Z) (cs : list ItemPointerData) (next : Z) : Prop := {
  dp_block : 0 < b < nblocks st;
  dp_header : at_offset (page_data st b) 0 (encode_docid_header (page_header cs next));
  dp_ctids : ctids_at (page_data st b) cs;
  dp_size : zlen cs <= cap;
  dp_valid : Forall ctid_ok cs;
}.

(** The page after position [i]. *)
Definition next_block (pages : docid_pages) (i : nat) : Z :=
  match pages !! i with Some (b, _) => b | None => InvalidBlockNumber end.

Record docid_chain (st : Storage) (first : Z) (pages : docid_pages) : Prop := {
  dc_first : first = next_block pages 0;
  dc_pages : forall (i : nat) b cs, pages !! i = Some (b, cs) -> docid_page st b cs (next_block pages (S i));
  dc_full : forall (i : nat) b cs, pages !! i = Some (b, cs) -> (S i < length pages)%nat -> zlen cs = cap;
  dc_nodup : NoDup pages.*1;
}.

Definition metapage_of (st : Storage) : TpIndexMetaPageData := decode_metapage (page_data st 0).

(** The state of the storage, as far as the docid pages are concerned. *)
Record docids_inv (st : Storage) (pages : docid_pages) : Prop := {
  di_full : pages_full st;
  di_count : 0 < nblocks st < InvalidBlockNumber;
  di_magic : mp_magic (metapage_of st) = TP_METAPAGE_MAGIC;
  di_version : mp_version (metapage_of st) = TP_METAPAGE_VERSION;
  di_chain : docid_chain st (mp_first_docid_page (metapage_of st)) pages;
}.

Definition docids (pages : docid_pages) : list ItemPointerData := concat pages.*2.

Lemma next_block_cases st first pages i : nblocks st < InvalidBlockNumber -> docid_chain st first pages ->
  next_block pages i = InvalidBlockNumber /\ (length pages <= i)%nat \/
  0 < next_block pages i < nblocks st /\ (i < length pages)%nat.
Proof.
  intros Hn Hc. unfold next_block. destruct (pages !! i) as [[b cs]|] eqn:E.
  - right. split; [apply (dp_block _ _ _ _ (dc_pages _ _ _ Hc i b cs E))|by apply lookup_lt_Some in E].
  - left. split; [done|by apply lookup_ge_None in E].
Qed.

Lemma page_header_ok st first pages i b cs : nblocks st < InvalidBlockNumber -> docid_chain st first pages ->
  pages !! i = Some (b, cs) -> docid_header_ok (page_header cs (next_block pages (S i))).
Proof.
  intros Hn Hc Hi. pose proof (dp_size _ _ _ _ (dc_pages _ _ _ Hc i b cs Hi)) as Hs.
  pose proof cap_bounds. pose proof (zlen_nonneg cs).
  assert (Hnext : fits 4 (next_block pages (S i))).
  { destruct (next_block_cases st first pages (S i) Hn Hc) as [[-> _]|[? _]]; [done|].
    unfold fits. change (256 ^ Z.of_nat 4) with (InvalidBlockNumber + 1). lia. }
  unfold docid_header_ok, page_header. cbn [dh_magic dh_version dh_num_docids dh_next_page].
  constructor; [done|]. constructor; [done|]. constructor; [|by constructor].
  unfold fits. change (256 ^ Z.of_nat 4) with (2 ^ 16 * 2 ^ 16). lia.
Qed.

Lemma read_docid_header_ok st pages i b cs : docids_inv st pages -> pages !! i = Some (b, cs) ->
  runs (fun st' => st' = st) (read_docid_header b) st (page_header cs (next_block pages (S i))).
Proof.
  intros Hinv Hi. pose proof (dc_pages _ _ _ (di_chain _ _ Hinv) i b cs Hi) as Hp.
  destruct (read_page_ok st b (fun st' => st' = st)) as (p & Hc & Hr); [done|split; [|]; apply Hp || pose proof (dp_block _ _ _ _ Hp); lia|].
  eapply ensures_bind_runs; [exact Hr|]. intros st' ->. apply ensures_ret. split; [|done].
  rewrite Hc. apply decode_docid_header_at; [|apply (dp_header _ _ _ _ Hp)].
  eapply page_header_ok; [apply (di_count _ _ Hinv)|apply (di_chain _ _ Hinv)|exact Hi].
Qed.

(** Between two storages, all pages but [b] are kept. *)
Record kept_but (b : Z) (st st' : Storage) : Prop := {
  kb_full : pages_full st';
  kb_count : nblocks st <= nblocks st';
  kb_fsm : st_fsm st' = st_fsm st;
  kb_page : forall b', in_relation st b' -> b' <> b -> page_at st' b' = page_at st b';
}.

Lemma kb_data b st st' b' : kept_but b st st' -> in_relation st b' -> b' <> b ->
  page_data st' b' = page_data st b'.
Proof. intros Hk Hb' Hne. by apply page_at_data, (kb_page _ _ _ Hk). Qed.

Lemma docid_page_kept b0 st st' b cs next : kept_but b0 st st' -> b <> b0 ->
  docid_page st b cs next -> docid_page st' b cs next.
Proof.
  intros Hk Hne [H1' H2' H3' H4' H5']. pose proof (kb_count _ _ _ Hk) as Hn.
  pose proof (kb_data _ _ _ b Hk ltac:(split; lia) Hne) as Hd.
  split; try done; [lia|by rewrite Hd|by rewrite Hd].
Qed.

(** Writing the header of a page whose array holds the documents. *)
Lemma write_header_ok st b cs next : pages_full st -> 0 < b < nblocks st ->
  ctids_at (page_data st b) cs -> zlen cs <= cap -> Forall ctid_ok cs ->
  ensures (write_docid_header b (page_header cs next)) st (fun _ st' =>
    kept_but b st st' /\ nblocks st' = nblocks st /\ docid_page st' b cs next).
Proof.
  intros HF Hb Hcs Hsize Hok. assert (Hin : in_relation st b) by (split; lia).
  pose proof (zlen_page_data st b HF Hin) as Hlen.
  eapply ensures_mono; [apply overwrite_page_ok; try done; rewrite zlen_docid_header; lia|].
  intros _ st' [Hf Hn Hd Hm Ho].
  split; [split; [done|lia|done|intros b' [? _]; by apply Ho]|]. split; [done|].
  split; [lia| | |done|done]; rewrite Hd.
  - apply at_offset_overwrite; [done|]. rewrite zlen_docid_header. lia.
  - intros i p Hi. apply at_offset_overwrite_other; [done|rewrite zlen_docid_header; lia|by apply Hcs|].
    right. rewrite zlen_docid_header. unfold docids_offset. lia.
Qed.

(** Appending to a page with room: the slot is written, then the count. *)
Lemma append_ctid_ok st b cs next p : pages_full st -> docid_page st b cs next -> zlen cs < cap ->
  ctid_ok p ->
  ensures (_ ← overwrite_page b (docids_offset + 6 * zlen cs) (encode_ctid p);
           write_docid_header b (page_header (cs ++ [p]) next)) st (fun _ st' =>
    kept_but b st st' /\ nblocks st' = nblocks st /\ docid_page st' b (cs ++ [p]) next).
Proof.
  intros HF [D1 D2 D3 D4 D5] Hlt Hp. assert (Hin : in_relation st b) by (split; lia).
  pose proof (zlen_page_data st b HF Hin) as Hlen. pose proof cap_bounds as (_ & Hcap & _).
  pose proof (zlen_nonneg cs) as Hnn. unfold docids_offset in *.
  apply ensures_bind. eapply ensures_mono.
  { apply (overwrite_page_ok st b (16 + 6 * zlen cs) (encode_ctid p)); try done; rewrite ?zlen_ctid; lia. }
  intros _ st1 [Hf1 Hn1 Hd1 Hm1 Ho1]. eapply ensures_mono.
  { apply (write_header_ok st1 b (cs ++ [p]) next); try done.
    - by rewrite Hn1.
    - rewrite Hd1. intros i q Hi. unfold docids_offset. apply lookup_app_Some in Hi as [Hi|[Hge Hi]].
      + apply at_offset_overwrite_other; rewrite ?zlen_ctid; try lia; [by apply (D3 i q)|].
        left. apply lookup_lt_Some in Hi. unfold zlen. lia.
      + destruct (i - length cs)%nat as [|n] eqn:E; [|done]. injection Hi as <-.
        replace (Z.of_nat i) with (zlen cs) by (unfold zlen; lia).
        apply at_offset_overwrite; rewrite ?zlen_ctid; lia.
    - rewrite zlen_app. unfold zlen at 2. simpl. lia.
    - apply Forall_app. split; [done|]. by constructor. }
  intros _ st2 ([Hf2 Hc2 Hm2 Hk2] & Hn2 & Hp2). split; [|split; [lia|done]].
  split; [done|lia|congruence|]. intros b' Hb' Hne. destruct Hb'.
  rewrite Hk2; [by apply Ho1|unfold in_relation in *; lia|done].
Qed.

Lemma zlen_PageInit : zlen (contents (PageInit 0)) = SEGMENT_DATA_PER_PAGE.
Proof. apply length_PageInit. Qed.

Lemma new_page_ok st : pages_full st -> 0 < nblocks st ->
  ensures new_docid_page st (fun b st' => b = nblocks st /\ nblocks st' = nblocks st + 1 /\
    pages_full st' /\ st_fsm st' = st_fsm st /\ docid_page st' b [] InvalidBlockNumber /\
    forall b', in_relation st b' -> page_at st' b' = page_at st b').
Proof.
  intros HF Hpos. unfold new_docid_page. apply ensures_bind.
  set (st1 := (extend_relation st (PageInit 0)).2).
  exists (nblocks st), st1. split; [done|].
  assert (Hn1 : nblocks st1 = nblocks st + 1).
  { unfold nblocks, zlen, st1. cbn. rewrite length_app. simpl. lia. }
  assert (HF1 : pages_full st1).
  { unfold pages_full, st1. cbn. apply Forall_app. split; [done|]. constructor; [apply zlen_PageInit|done]. }
  apply ensures_bind. eapply ensures_mono.
  { apply (write_header_ok st1 (nblocks st) [] InvalidBlockNumber); try done; [lia|].
    change (zlen []) with 0. pose proof cap_bounds. lia. }
  intros _ st2 ([Hf2 _ Hm2 Hk2] & Hn2 & Hp2). apply ensures_ret. split; [done|]. split; [lia|].
  split; [done|]. split; [done|]. split; [done|]. intros b' [Hb' Hlt]. rewrite Hk2 by (unfold in_relation; lia).
  unfold page_at, st1. cbn. rewrite !zget_lookup by done. rewrite lookup_app_l; [done|].
  unfold nblocks, zlen in Hlt. lia.
Qed.
End Pages.

(** ** Writing a page of a well formed relation *)

Section Replacing.
Context `{PgLayoutLaws}.
Abbreviation P := SEGMENT_DATA_PER_PAGE.

(** [st'] is [st] with the data of page [b] replaced, as whole pages. *)
Record page_replaced (st st' : Storage) (b : Z) (data : list byte) : Prop := {
  pr_wf : storage_wf st';
  pr_count : nblocks st' = nblocks st;
  pr_fsm : st_fsm st' = st_fsm st;
  pr_data : page_data st' b = data;
  pr_other : forall x, 0 <= x -> x <> b -> page_at st' x = page_at st x;
}.

Lemma overwrite_page_replaces st b off bs : storage_wf st -> in_relation st b -> 0 <= off ->
  off + zlen bs <= P ->
  ensures (overwrite_page b off bs) st (fun _ st' => page_replaced st st' b (overwrite off bs (page_data st b))).
Proof.
  intros Hwf Hb Hoff Hlen. destruct (ReadBuffer_ok st b Hb) as (p & Hp & Hz).
  assert (Hc : contents p = page_data st b) by (unfold page_data, page_at; by rewrite Hz).
  unfold overwrite_page. apply ensures_bind. exists p, st. split; [unfold rst_read_buffer; by rewrite Hp|].
  apply ensures_modify. rewrite Hc. set (p' := mkPage _ _). pose proof (length_page_data st b Hwf Hb) as Hl.
  assert (Hp' : zlen (contents p') = P) by (cbn [contents p']; by rewrite length_overwrite by lia).
  split; [by apply put_page_wf|apply nblocks_put|done|by rewrite page_data_put_eq|].
  intros x Hx Hne. apply page_at_put_ne; [apply Hb|done].
Qed.

(** ** The metapage *)

Lemma metapage_in_relation st : storage_wf st -> in_relation st TP_METAPAGE_BLKNO.
Proof. intros Hwf. split; [done|apply (swf_metapage _ Hwf)]. Qed.

Lemma write_metapage_replaces st m : storage_wf st -> 120 <= P -> metapage_ok m ->
  ensures (write_metapage m) st (fun _ st' => metapage_of st' = m /\
    exists data, page_replaced st st' TP_METAPAGE_BLKNO data).
Proof.
  intros Hwf HP Hm. pose proof (metapage_in_relation st Hwf) as Hin.
  pose proof (length_page_data st _ Hwf Hin) as Hl.
  assert (El : zlen (encode_metapage m) = 120) by (unfold zlen; by rewrite length_encode_metapage).
  eapply ensures_mono; [by apply overwrite_page_replaces; [..|rewrite El]|].
  intros [] st' Hr. cbv beta in Hr. split; [|by eexists]. unfold metapage_of.
  change (page_data st' 0) with (page_data st' TP_METAPAGE_BLKNO). rewrite (pr_data _ _ _ _ Hr). apply decode_metapage_at; [done|]. apply at_offset_overwrite; lia.
Qed.

Lemma read_metapage_runs st : storage_wf st -> runs (fun st' => st' = st) read_metapage st (metapage_of st).
Proof.
  intros Hwf. destruct (ReadBuffer_ok st _ (metapage_in_relation st Hwf)) as (p & Ep & Hp).
  exists (metapage_of st), st. split; [|done].
  unfold read_metapage, rst_read_buffer, mbind, rst_bind. rewrite Ep.
  unfold metapage_of. change (page_data st 0) with (page_data st TP_METAPAGE_BLKNO).
  unfold page_data, page_at. by rewrite Hp.
Qed.

Lemma metapage_of_ok st : storage_wf st -> 120 <= P -> metapage_ok (metapage_of st).
Proof.
  intros Hwf HP. apply decode_metapage_ok.
  change (page_data st 0) with (page_data st TP_METAPAGE_BLKNO).
  rewrite length_page_data; [lia|done|by apply metapage_in_relation].
Qed.

Lemma read_metapage_ok st : storage_wf st -> read_metapage st = Ok (metapage_of st, st).
Proof. intros Hwf. by destruct (read_metapage_runs st Hwf) as (? & ? & E & -> & ->). Qed.

Lemma write_metapage_ok st m : storage_wf st -> 120 <= P -> metapage_ok m ->
  exists st' data, write_metapage m st = Ok (tt, st') /\ metapage_of st' = m /\
    page_replaced st st' TP_METAPAGE_BLKNO data.
Proof.
  intros Hwf HP Hm. destruct (write_metapage_replaces st m Hwf HP Hm) as ([] & st' & E & Em & data & Hr).
  by exists st', data.
Qed.
End Replacing.
