(* ===== verification/DocidChain.v ===== *)
(** * Adding to, clearing and reading the docid pages (src/state/metapage.c)

    The operations on the chain of docid pages, each with the list of documents
    it leaves, and the pages it does not touch. *)
From S2P Require Import Prelude Postgres Float4 Fieldnorm SegmentFormat Compression Storage.
From S2P Require Import SegmentIO Docmap SegmentScan ScanFacts Memtable MemtableFacts SegmentWrite.
From S2P Require Import SegmentWriteFacts Metapage MetapageFacts.

Abbreviation docid_pages := (list (Z * list ItemPointerData)).

Lemma NoDup_in_range (l : list Z) n : NoDup l -> Forall (fun b => 0 <= b < n) l -> zlen l <= Z.max 0 n.
Proof.
  intros Hnd HF. assert (Hsub : l ⊆+ seqZ 0 n).
  { apply NoDup_submseteq; [done|]. intros b Hb. apply elem_of_seqZ.
    rewrite Forall_forall in HF. specialize (HF b Hb). lia. }
  apply submseteq_length in Hsub. rewrite length_seqZ in Hsub. unfold zlen. lia.
Qed.

Section Chain.
Context `{PgLayoutLaws}.
Context (Hroom : 120 <= SEGMENT_DATA_PER_PAGE).

(** ** The shape of the chain *)

Lemma next_block_blocks (pages pages' : docid_pages) i : pages.*1 = pages'.*1 ->
  next_block pages i = next_block pages' i.
Proof.
  intros E. assert (El : forall l : docid_pages, next_block l i = default InvalidBlockNumber (l.*1 !! i)).
  { intros l. unfold next_block. rewrite list_lookup_fmap. by destruct (l !! i) as [[??]|]. }
  by rewrite !El, E.
Qed.

Lemma next_block_last (init : docid_pages) x : next_block (init ++ [x]) (S (length init)) = InvalidBlockNumber.
Proof. unfold next_block. rewrite lookup_ge_None_2; [done|]. rewrite length_app. simpl. lia. Qed.

Lemma lookup_last_page (init : docid_pages) b cs : (init ++ [(b, cs)]) !! length init = Some (b, cs).
Proof. by rewrite lookup_app_r, Nat.sub_diag by lia. Qed.

Lemma chain_last st first init b cs : docid_chain st first (init ++ [(b, cs)]) ->
  docid_page st b cs InvalidBlockNumber.
Proof.
  intros Hc. pose proof (dc_pages _ _ _ Hc (length init) b cs (lookup_last_page init b cs)) as Hp.
  by rewrite next_block_last in Hp.
Qed.

Lemma chain_blocks st first pages b : docid_chain st first pages -> b ∈ pages.*1 -> 0 < b < nblocks st.
Proof.
  intros Hc ([b' cs] & -> & Hin)%list_elem_of_fmap. apply list_elem_of_lookup in Hin as [i Hi].
  apply (dp_block _ _ _ _ (dc_pages _ _ _ Hc i b' cs Hi)).
Qed.

Lemma chain_length st first pages : docid_chain st first pages -> zlen pages <= Z.max 0 (nblocks st).
Proof.
  intros Hc. assert (E : zlen pages = zlen pages.*1) by (unfold zlen; by rewrite length_fmap).
  rewrite E. apply NoDup_in_range; [apply (dc_nodup _ _ _ Hc)|].
  apply Forall_forall. intros b Hb. pose proof (chain_blocks _ _ _ b Hc Hb). lia.
Qed.

(** A page with room is the last one. *)
Lemma page_with_room_is_last st first pages i b cs : docid_chain st first pages ->
  pages !! i = Some (b, cs) -> zlen cs < TP_DOCIDS_PER_PAGE -> pages = take i pages ++ [(b, cs)].
Proof.
  intros Hc Hi Hlt. pose proof (lookup_lt_Some _ _ _ Hi) as Hlen.
  destruct (decide (S i < length pages)%nat) as [Hl|Hl].
  { pose proof (dc_full _ _ _ Hc i b cs Hi Hl). lia. }
  rewrite <- (take_drop i pages) at 1. f_equal. rewrite (drop_S _ _ _ Hi). rewrite drop_ge by lia. done.
Qed.

(** Other pages change: the chain stands. *)
Lemma chain_kept st st' first pages b0 : docid_chain st first pages -> kept_but b0 st st' ->
  b0 ∉ pages.*1 -> docid_chain st' first pages.
Proof.
  intros [Hf Hp Hfull Hnd] Hk Hni. split; try done. intros i b cs Hi.
  eapply docid_page_kept; [exact Hk| |by apply Hp]. intros ->. apply Hni.
  apply list_elem_of_fmap. exists (b0, cs). split; [done|]. by eapply list_elem_of_lookup_2.
Qed.

(** The last page changes. *)
Lemma chain_last_written st st' first init b cs cs' : docid_chain st first (init ++ [(b, cs)]) ->
  kept_but b st st' -> docid_page st' b cs' InvalidBlockNumber -> docid_chain st' first (init ++ [(b, cs')]).
Proof.
  intros [Hf Hp Hfull Hnd] Hk Hl.
  assert (E : (init ++ [(b, cs)]).*1 = (init ++ [(b, cs')]).*1) by by rewrite !fmap_app.
  assert (Hinit : forall i b' c', init !! i = Some (b', c') -> (init ++ [(b, cs)]) !! i = Some (b', c') /\ b' <> b).
  { intros i b' c' Hi. split; [by apply lookup_app_l_Some|]. intros ->.
    rewrite fmap_app in Hnd. apply NoDup_app in Hnd as (_ & Hd & _). eapply (Hd b); [|by left].
    apply list_elem_of_fmap. exists (b, c'). split; [done|]. by eapply list_elem_of_lookup_2. }
  split; [by rewrite Hf; apply next_block_blocks| | |by rewrite <- E].
  - intros i b' c' Hi. apply lookup_app_Some in Hi as [Hi|[Hge Hi]].
    + destruct (Hinit i b' c' Hi) as [Hi' Hne]. rewrite <- (next_block_blocks _ _ (S i) E).
      eapply docid_page_kept; [exact Hk|done|by apply Hp].
    + destruct (i - length init)%nat as [|n] eqn:Ei; [|done]. injection Hi as <- <-.
      replace i with (length init) by lia. by rewrite next_block_last.
  - intros i b' c' Hi Hlt. rewrite length_app in Hlt. simpl in Hlt.
    rewrite lookup_app_l in Hi by lia. destruct (Hinit i b' c' Hi) as [Hi' _].
    apply (Hfull i b' c' Hi'). rewrite length_app. simpl. lia.
Qed.

(** A page is linked behind the last one. *)
Lemma chain_extended st st' first init b cs n : docid_chain st first (init ++ [(b, cs)]) ->
  kept_but b st st' -> docid_page st' b cs n -> docid_page st' n [] InvalidBlockNumber ->
  nblocks st <= n -> zlen cs = TP_DOCIDS_PER_PAGE ->
  docid_chain st' first ((init ++ [(b, cs)]) ++ [(n, [])]).
Proof.
  intros Hc Hk Hb Hn Hge Hcap. pose proof Hc as [Hf Hp Hfull Hnd]. set (pages := init ++ [(b, cs)]) in *.
  assert (Hnx : forall i, (i < length pages)%nat -> next_block (pages ++ [(n, [])]) i = next_block pages i).
  { intros i Hi. unfold next_block. by rewrite lookup_app_l. }
  assert (Hlen : length pages = S (length init)) by (unfold pages; rewrite length_app; simpl; lia).
  split.
  - rewrite Hnx by lia. done.
  - intros i b' c' Hi. apply lookup_app_Some in Hi as [Hi|[Hgi Hi]].
    + destruct (decide (i = length init)) as [->|Hne].
      * unfold pages in Hi. rewrite lookup_last_page in Hi. injection Hi as <- <-.
        rewrite <- Hlen. unfold next_block. by rewrite lookup_app_r, Nat.sub_diag by lia.
      * pose proof (lookup_lt_Some _ _ _ Hi). rewrite Hnx by lia.
        eapply docid_page_kept; [exact Hk| |by apply Hp]. intros ->.
        assert (i = length init); [|done]. eapply (NoDup_lookup pages.*1 i (length init) b); [done| |].
        -- by rewrite list_lookup_fmap, Hi.
        -- unfold pages. by rewrite list_lookup_fmap, lookup_last_page.
    + destruct (i - length pages)%nat as [|k] eqn:Ei; [|done]. injection Hi as <- <-.
      replace i with (length pages) by lia. by rewrite next_block_last.
  - intros i b' c' Hi Hlt. rewrite length_app in Hlt. simpl in Hlt.
    rewrite lookup_app_l in Hi by lia. destruct (decide (i = length init)) as [->|Hne].
    + unfold pages in Hi. rewrite lookup_last_page in Hi. by injection Hi as <- <-.
    + apply (Hfull i b' c' Hi). lia.
  - rewrite fmap_app. apply NoDup_app. split; [done|]. split; [|apply NoDup_singleton].
    intros x Hx Hx'. apply list_elem_of_singleton in Hx'. simpl in Hx'. subst x.
    pose proof (chain_blocks _ _ _ n Hc Hx). lia.
Qed.
End Chain.

(** ** The operations *)

Section Operations.
Context `{PgLayoutLaws}.
Context (Hroom : 120 <= SEGMENT_DATA_PER_PAGE).

(** The last page of [pages] is [(b, header)]. *)
Definition ends_with (pages : docid_pages) (page : Z * TpDocidPageHeader) : Prop :=
  exists init cs, pages = init ++ [(page.1, cs)] /\ page.2 = page_header cs InvalidBlockNumber.

(** From [st] with [pages] to [st'] with [pages']: the chain only grows, by pages
    that are new, and all pages but the metapage and the chain are as before. *)
Record docids_step (st : Storage) (pages : docid_pages) (st' : Storage) (pages' : docid_pages) : Prop := {
  ds_inv : docids_inv st' pages';
  ds_count : nblocks st <= nblocks st';
  ds_grows : pages.*1 `prefix_of` pages'.*1;
  ds_new : forall b, b ∈ pages'.*1 -> b ∈ pages.*1 \/ nblocks st <= b;
  ds_fsm : st_fsm st' = st_fsm st;
  ds_meta : exists first, metapage_of st' = set_first_docid_page (metapage_of st) first;
  ds_frame : forall b, 0 < b < nblocks st -> b ∉ pages.*1 -> page_at st' b = page_at st b;
}.

Lemma same_metapage st st' : metapage_of st' = metapage_of st ->
  exists first, metapage_of st' = set_first_docid_page (metapage_of st) first.
Proof. intros ->. exists (mp_first_docid_page (metapage_of st)). by destruct (metapage_of st). Qed.

Lemma docids_step_refl st pages : docids_inv st pages -> docids_step st pages st pages.
Proof. intros Hi. split; try done; auto. by apply same_metapage. Qed.

Lemma docids_step_trans st pages st1 pages1 st2 pages2 :
  docids_step st pages st1 pages1 -> docids_step st1 pages1 st2 pages2 -> docids_step st pages st2 pages2.
Proof.
  intros [A1 A2 A3 A4 A5 [m1 A6] A7] [B1 B2 B3 B4 B5 [m2 B6] B7]. split; [done|lia|by etrans| |congruence| |].
  - intros b Hb. destruct (B4 b Hb) as [?|?]; [by apply A4|right; lia].
  - exists m2. by rewrite B6, A6.
  - intros b Hb Hn. rewrite B7; [by apply A7|lia|]. intros Hc. destruct (A4 b Hc); [done|lia].
Qed.

(** The metapage is not a docid page. *)
Lemma kept_metapage b0 st st' : kept_but b0 st st' -> 0 < b0 -> 0 < nblocks st -> metapage_of st' = metapage_of st.
Proof. intros Hk Hb Hn. unfold metapage_of. f_equal. apply (kb_data _ _ _ _ Hk); [split; lia|lia]. Qed.

Lemma inv_kept st st' pages pages' b0 : docids_inv st pages -> kept_but b0 st st' -> 0 < b0 ->
  nblocks st' < InvalidBlockNumber -> docid_chain st' (mp_first_docid_page (metapage_of st)) pages' ->
  docids_inv st' pages'.
Proof.
  intros [I1 I2 I3 I4 I5] Hk Hb Hn Hc. pose proof (kb_count _ _ _ Hk) as K2. pose proof (kb_full _ _ _ Hk) as K1.
  pose proof (kept_metapage _ _ _ Hk Hb ltac:(lia)) as E.
  split; rewrite ?E; try done; lia.
Qed.

Lemma step_last_written st init b cs cs' st' : docids_inv st (init ++ [(b, cs)]) -> kept_but b st st' ->
  nblocks st' = nblocks st -> docid_page st' b cs' InvalidBlockNumber ->
  docids_step st (init ++ [(b, cs)]) st' (init ++ [(b, cs')]).
Proof.
  intros Hinv Hk Hn Hp. pose proof (di_count _ _ Hinv) as Hc.
  pose proof (chain_last _ _ _ _ _ (di_chain _ _ Hinv)) as Hl.
  split; rewrite ?fmap_app; try done; try lia; auto.
  - eapply inv_kept; [exact Hinv|exact Hk|apply (dp_block _ _ _ _ Hl)|lia|].
    eapply chain_last_written; [apply (di_chain _ _ Hinv)|done|done].
  - apply Hk.
  - eapply same_metapage, kept_metapage; [exact Hk|apply (dp_block _ _ _ _ Hl)|lia].
  - intros b' Hb' Hni. apply (kb_page _ _ _ Hk); [split; lia|]. intros ->. apply Hni.
    simpl. set_solver.
Qed.

Lemma docids_read_metapage st pages : docids_inv st pages ->
  runs (fun st' => st' = st) read_metapage st (metapage_of st).
Proof.
  intros Hinv. destruct (read_page_ok st 0 (fun st' => st' = st)) as (p & Hc & Hr);
    [done|pose proof (di_count _ _ Hinv); split; lia|].
  eapply ensures_bind_runs; [exact Hr|]. intros st' ->. apply ensures_ret. split; [|done]. by rewrite Hc.
Qed.

(** Writing the head of the chain. *)
Lemma write_first_docid_page_ok st b : pages_full st -> 0 < nblocks st -> fits 4 b ->
  ensures (write_metapage (set_first_docid_page (metapage_of st) b)) st (fun _ st' =>
    kept_but 0 st st' /\ nblocks st' = nblocks st /\
    metapage_of st' = set_first_docid_page (metapage_of st) b).
Proof.
  intros HF Hn Hb. assert (Hin : in_relation st 0) by (split; lia).
  pose proof (zlen_page_data st 0 HF Hin) as Hlen. set (m := set_first_docid_page _ b).
  assert (Hm : metapage_ok m).
  { apply set_first_docid_page_ok; [apply decode_metapage_ok; lia|done]. }
  assert (Hz : zlen (encode_metapage m) = 120) by (unfold zlen; rewrite length_encode_metapage; done).
  eapply ensures_mono; [apply overwrite_page_ok; try done; lia|].
  intros _ st' [Pf Pn Pd Pm Po].
  split; [split; [done|lia|done|intros b' [? _]; by apply Po]|]. split; [done|].
  unfold metapage_of at 1. change (page_data st' 0) with (page_data st' TP_METAPAGE_BLKNO). rewrite Pd. apply decode_metapage_at; [done|].
  change (page_data st TP_METAPAGE_BLKNO) with (page_data st 0). apply at_offset_overwrite; lia.
Qed.

Lemma walk_docid_pages_ok st pages : docids_inv st pages -> forall fuel (i : nat) b cs,
  pages !! i = Some (b, cs) -> (length pages - i <= fuel)%nat ->
  ensures (walk_docid_pages fuel b) st (fun page st' => st' = st /\ ends_with pages page).
Proof.
  intros Hinv. pose proof (di_count _ _ Hinv) as Hn. pose proof (di_chain _ _ Hinv) as Hc.
  induction fuel as [|fuel IH]; intros i b cs Hi Hfuel;
    pose proof (lookup_lt_Some _ _ _ Hi) as Hlt; [lia|].
  cbn [walk_docid_pages]. eapply ensures_bind_runs; [by apply (read_docid_header_ok Hroom st pages i b cs)|].
  intros st' ->. cbn [dh_next_page page_header].
  destruct (next_block_cases st _ pages (S i) (proj2 Hn) Hc) as [[-> Hge]|[Hnx Hlt']].
  - apply ensures_ret. split; [done|]. exists (take i pages), cs. split; [|done].
    rewrite <- (take_drop i pages) at 1. by rewrite (drop_S _ _ _ Hi), drop_ge by lia.
  - destruct (Z.eqb_spec (next_block pages (S i)) InvalidBlockNumber); [lia|].
    destruct (lookup_lt_is_Some_2 pages (S i) Hlt') as [[b' cs'] Hi'].
    replace (next_block pages (S i)) with b' by (unfold next_block; by rewrite Hi').
    apply (IH (S i) b' cs'); [done|lia].
Qed.

(** The slow path finds the last page, or makes the first one. *)
Lemma last_docid_page_ok st pages : docids_inv st pages -> nblocks st + 1 < InvalidBlockNumber ->
  ensures last_docid_page st (fun page st' => exists pages', docids_step st pages st' pages' /\
    ends_with pages' page /\ docids pages' = docids pages /\ nblocks st' <= nblocks st + 1).
Proof.
  intros Hinv Hn1. pose proof Hinv as [I1 I2 I3 I4 I5].
  unfold last_docid_page. eapply ensures_bind_runs; [by apply (docids_read_metapage st pages)|]. intros st0 ->.
  rewrite (dc_first _ _ _ I5).
  destruct (next_block_cases st _ pages 0 (proj2 I2) I5) as [[E Hlen]|[E Hlen]].
  - rewrite E, Z.eqb_refl. destruct pages; [|simpl in Hlen; lia].
    apply ensures_bind. eapply ensures_mono; [apply (new_page_ok Hroom st); [done|lia]|].
    intros n st1 (-> & Hn & HF & Hf & Hp & Hk). apply ensures_bind.
    assert (E1 : metapage_of st1 = metapage_of st).
    { unfold metapage_of. f_equal. apply page_at_data, Hk. split; lia. }
    rewrite <- E1. eapply ensures_mono.
    { apply (write_first_docid_page_ok st1 (nblocks st)); [done|lia|].
      unfold fits. change (256 ^ Z.of_nat 4) with (InvalidBlockNumber + 1). lia. }
    intros _ st2 (K & Hn2 & E2). apply ensures_ret. exists [(nblocks st, [])].
    assert (Hp2 : docid_page st2 (nblocks st) [] InvalidBlockNumber).
    { eapply docid_page_kept; [exact K|lia|done]. }
    split; [|split; [by exists [], []|split; [done|lia]]]. split; try done; try lia.
    + split; rewrite ?E2, ?E1; try done; [by destruct K|lia|]. split; cbn.
      * done.
      * intros [|i] b cs Hi; [|done]. injection Hi as <- <-. done.
      * intros [|i] b cs Hi Hlt; [lia|done].
      * apply NoDup_singleton.
    + apply prefix_nil.
    + intros b Hb. right. apply list_elem_of_singleton in Hb. simpl in Hb. lia.
    + by rewrite (kb_fsm _ _ _ K).
    + eexists. by rewrite E2, E1.
    + intros b Hb _. rewrite (kb_page _ _ _ K) by (unfold in_relation; lia). apply Hk. split; lia.
  - destruct (Z.eqb_spec (next_block pages 0) InvalidBlockNumber); [lia|].
    apply ensures_bind, ensures_gets. destruct (lookup_lt_is_Some_2 pages 0 Hlen) as [[b cs] Hi].
    replace (next_block pages 0) with b by (unfold next_block; by rewrite Hi).
    pose proof (chain_length st _ pages I5) as Hcl. unfold zlen in Hcl.
    eapply ensures_mono; [apply (walk_docid_pages_ok st pages Hinv _ 0 b cs Hi); lia|].
    intros page st' [-> He]. exists pages. split; [by apply docids_step_refl|]. split; [done|]. split; [done|lia].
Qed.

(** A page with room at the end of the chain. *)
Lemma page_with_room_ok st pages page : docids_inv st pages -> ends_with pages page ->
  nblocks st + 1 < InvalidBlockNumber ->
  ensures (page_with_room page) st (fun page' st' => exists pages', docids_step st pages st' pages' /\
    ends_with pages' page' /\ dh_num_docids page'.2 < TP_DOCIDS_PER_PAGE /\
    docids pages' = docids pages /\ nblocks st' <= nblocks st + 1).
Proof.
  intros Hinv (init & cs & Epages & Ehd) Hn1. destruct page as [b hd]. cbn in Epages, Ehd.
  unfold page_with_room. rewrite Ehd. cbn [dh_num_docids dh_magic dh_version page_header].
  destruct (Z.leb_spec TP_DOCIDS_PER_PAGE (zlen cs)) as [Hfull|Hroom']; cycle 1.
  { apply ensures_ret. exists pages. split; [by apply docids_step_refl|].
    split; [by exists init, cs|]. cbn. split; [lia|]. split; [done|lia]. }
  pose proof Hinv as [I1 I2 I3 I4 I5]. rewrite Epages in I5.
  pose proof (chain_last _ _ _ _ _ I5) as [P1 P2 P3 P4 P5].
  apply ensures_bind. eapply ensures_mono; [apply (new_page_ok Hroom st); [done|lia]|].
  intros n st1 (-> & Hn & HF & Hf & Hp & Hk). apply ensures_bind.
  assert (Eb : page_data st1 b = page_data st b) by (apply page_at_data, Hk; split; lia).
  eapply ensures_mono.
  { apply (write_header_ok Hroom st1 b cs (nblocks st)); try done; [lia|by rewrite Eb]. }
  intros _ st2 (K & Hn2 & Hpb). apply ensures_ret.
  assert (K' : kept_but b st st2).
  { destruct K as [K1 K2 K3 K4]. split; [done|lia|congruence|]. intros b' Hb' Hne.
    rewrite K4; [by apply Hk|unfold in_relation in *; lia|done]. }
  assert (Hpn : docid_page st2 (nblocks st) [] InvalidBlockNumber).
  { eapply docid_page_kept; [exact K|lia|done]. }
  exists (pages ++ [(nblocks st, [])]). split; [|split; [by exists pages, []|]].
  - split; rewrite ?fmap_app; try lia.
    + rewrite Epages. eapply inv_kept; [exact Hinv|exact K'|lia|lia|].
      apply (chain_extended st); try done; lia.
    + by apply prefix_app_r.
    + intros b' [Hb'|Hb']%elem_of_app; [by left|]. right.
      apply list_elem_of_singleton in Hb'. simpl in Hb'. lia.
    + apply K'.
    + eapply same_metapage, kept_metapage; [exact K'|lia|lia].
    + intros b' Hb' Hni. apply (kb_page _ _ _ K'); [split; lia|]. intros ->. apply Hni.
      rewrite Epages, fmap_app. simpl. set_solver.
  - pose proof (cap_bounds Hroom). cbn. split; [lia|]. split; [|lia].
    unfold docids. rewrite fmap_app, concat_app. simpl. by rewrite app_nil_r.
Qed.

(** The fast path: a cache of this index points into the chain. *)
Definition cache_ok (oid : Z) (pages : docid_pages) (c : TpDocidWriterState) : Prop :=
  dw_valid c = true -> dw_index_oid c = oid -> dw_last_page c ∈ pages.*1.

Lemma cached_docid_page_ok st pages oid c : docids_inv st pages -> cache_ok oid pages c ->
  ensures (cached_docid_page oid c) st (fun r st' => st' = st /\
    forall page, r = Some page -> ends_with pages page /\ dh_num_docids page.2 < TP_DOCIDS_PER_PAGE).
Proof.
  intros Hinv Hc. unfold cached_docid_page.
  destruct (dw_valid c) eqn:Ev; cbn [andb]; [|by apply ensures_ret].
  destruct (Z.eqb_spec (dw_index_oid c) oid) as [Eo|]; cbn [andb]; [|by apply ensures_ret].
  destruct (negb (dw_last_page c =? InvalidBlockNumber)); cbn [andb]; [|by apply ensures_ret].
  destruct (dw_num_docids c <? TP_DOCIDS_PER_PAGE); [|by apply ensures_ret].
  pose proof (Hc Ev Eo) as ([b cs] & Eb & Hin)%list_elem_of_fmap. simpl in Eb. rewrite Eb.
  apply list_elem_of_lookup in Hin as [i Hi].
  eapply ensures_bind_runs; [by apply (read_docid_header_ok Hroom st pages i b cs)|]. intros st' ->.
  apply ensures_ret. split; [done|]. intros page. cbn [dh_magic dh_num_docids page_header].
  destruct (Z.leb_spec TP_DOCIDS_PER_PAGE (zlen cs)) as [|Hlt]; [done|]. intros [= <-].
  pose proof (page_with_room_is_last st _ pages i b cs (di_chain _ _ Hinv) Hi Hlt) as E. split; [|done].
  exists (take i pages), cs. split; [done|]. cbn. f_equal.
  replace (S i) with (length pages); [unfold next_block; by rewrite lookup_ge_None_2 by lia|].
  pose proof (lookup_lt_Some _ _ _ Hi). apply (f_equal length) in E.
  rewrite length_app, length_take in E. simpl in E. lia.
Qed.

Lemma docids_last (init : docid_pages) b cs : docids (init ++ [(b, cs)]) = docids init ++ cs.
Proof. unfold docids. rewrite fmap_app, concat_app. simpl. by rewrite app_nil_r. Qed.

(** A document is appended, on either path. *)
Lemma tp_add_docid_to_pages_ok st pages oid c p : docids_inv st pages -> cache_ok oid pages c ->
  ctid_ok p -> nblocks st + 2 < InvalidBlockNumber ->
  ensures (tp_add_docid_to_pages oid p c) st (fun c' st' => exists pages',
    docids_step st pages st' pages' /\ docids pages' = docids pages ++ [p] /\
    cache_ok oid pages' c' /\ nblocks st' <= nblocks st + 2).
Proof.
  intros Hinv Hc Hp Hn. unfold tp_add_docid_to_pages.
  apply ensures_bind. eapply ensures_mono; [by apply (cached_docid_page_ok st pages oid c)|].
  intros cached st0 [-> Hcached]. apply ensures_bind.
  eapply (ensures_mono _ _ (fun page st1 => exists pages1, docids_step st pages st1 pages1 /\
    ends_with pages1 page /\ docids pages1 = docids pages /\ nblocks st1 <= nblocks st + 1)).
  { destruct cached as [page|]; [|apply last_docid_page_ok; [done|lia]].
    apply ensures_ret. exists pages. destruct (Hcached page eq_refl) as [He _].
    split; [by apply docids_step_refl|]. split; [done|]. split; [done|lia]. }
  intros page st1 (pages1 & S1 & E1 & D1 & N1). apply ensures_bind. eapply ensures_mono.
  { apply (page_with_room_ok st1 pages1 page); [by destruct S1|done|lia]. }
  intros [b hd] st2 (pages2 & S2 & (init & cs & Ep & Eh) & Hlt & D2 & N2). cbn in Ep, Eh, Hlt. subst pages2 hd.
  cbn [dh_num_docids page_header] in Hlt. pose proof (ds_inv _ _ _ _ S2) as Hinv2.
  pose proof (chain_last _ _ _ _ _ (di_chain _ _ Hinv2)) as Hlast.
  cbn [dh_magic dh_version dh_num_docids dh_next_page page_header].
  assert (Eu : u32 (zlen cs + 1) = zlen (cs ++ [p])).
  { rewrite zlen_app. change (zlen [p]) with 1. pose proof (cap_bounds Hroom). pose proof (zlen_nonneg cs).
    unfold u32. rewrite Z.mod_small; lia. }
  rewrite Eu.
  destruct (append_ctid_ok Hroom st2 b cs InvalidBlockNumber p) as ([] & st3 & E & K & Hn3 & Hp3);
    [by destruct Hinv2|done|done|done|].
  apply ensures_bind. unfold mbind, rst_bind in E.
  destruct (overwrite_page b (docids_offset + 6 * zlen cs) (encode_ctid p) st2) as [[[] sta]|e] eqn:Ea; [|done].
  exists tt, sta. split; [exact Ea|]. apply ensures_bind. exists tt, st3. split; [exact E|].
  apply ensures_ret. exists (init ++ [(b, cs ++ [p])]).
  split; [|split; [|split; [|lia]]].
  - eapply docids_step_trans; [exact S1|]. eapply docids_step_trans; [exact S2|].
    by apply step_last_written.
  - by rewrite docids_last, app_assoc, <- (docids_last init b), D2, D1.
  - intros _ _. cbn. rewrite fmap_app. simpl. set_solver.
Qed.

(** Clearing empties the chain; no other page changes. *)
Lemma tp_clear_docid_pages_ok st pages c : docids_inv st pages ->
  ensures (tp_clear_docid_pages c) st (fun c' st' => docids_inv st' [] /\ dw_valid c' = false /\
    nblocks st' = nblocks st /\ forall b, 0 < b < nblocks st -> page_data st' b = page_data st b).
Proof.
  intros Hinv. pose proof Hinv as [I1 I2 I3 I4 I5]. unfold tp_clear_docid_pages.
  eapply ensures_bind_runs; [by apply (docids_read_metapage st pages)|]. intros st0 ->.
  apply ensures_bind. eapply ensures_mono.
  { apply (write_first_docid_page_ok st InvalidBlockNumber); [done|lia|done]. }
  intros _ st1 (K & Hn & Em). apply ensures_ret. split; [|split; [done|split; [done|]]].
  - split; rewrite ?Em; try done; [by destruct K|lia|]. split; try done. by constructor.
  - intros b Hb. apply (kb_data _ _ _ _ K); [split; lia|lia].
Qed.

(** Recovery reads the documents of the chain, in order. *)
Lemma read_docid_pages_ok st pages : docids_inv st pages -> forall fuel (i : nat),
  (S (length pages - i) <= fuel)%nat ->
  runs (fun st' => st' = st) (read_docid_pages fuel (next_block pages i)) st (docids (drop i pages)).
Proof.
  intros Hinv. pose proof (di_count _ _ Hinv) as Hn. pose proof (di_chain _ _ Hinv) as Hc.
  induction fuel as [|fuel IH]; intros i Hfuel; [lia|]. cbn [read_docid_pages].
  destruct (next_block_cases st _ pages i (proj2 Hn) Hc) as [[-> Hge]|[Hnx Hlt]].
  { rewrite Z.eqb_refl, drop_ge by lia. by apply ensures_ret. }
  destruct (Z.eqb_spec (next_block pages i) InvalidBlockNumber); [lia|].
  destruct (lookup_lt_is_Some_2 pages i Hlt) as [[b cs] Hi].
  replace (next_block pages i) with b by (unfold next_block; by rewrite Hi).
  eapply ensures_bind_runs; [by apply (read_docid_header_ok Hroom st pages i b cs)|]. intros st' ->.
  cbn [dh_magic dh_num_docids dh_next_page page_header]. rewrite Z.eqb_refl. cbn [negb].
  pose proof (dc_pages _ _ _ Hc i b cs Hi) as [P1 P2 P3 P4 P5].
  destruct (read_page_ok st b (fun st' => st' = st)) as (p & Ep & Hr); [done|split; lia|].
  eapply ensures_bind_runs; [exact Hr|]. intros st' ->.
  eapply ensures_bind_runs; [apply (IH (S i)); lia|]. intros st' ->. apply ensures_ret. split; [|done].
  rewrite (drop_S _ _ _ Hi). unfold docids. csimpl. f_equal. rewrite Ep.
  unfold zlen. rewrite Nat2Z.id. by apply decode_ctids_from.
Qed.

Lemma recovered_docids_ok st pages : docids_inv st pages ->
  runs (fun st' => st' = st) recovered_docids st (docids pages).
Proof.
  intros Hinv. pose proof Hinv as [I1 I2 I3 I4 I5]. unfold recovered_docids, tp_get_metapage.
  eapply (ensures_bind_runs (fun st' => st' = st)).
  { eapply ensures_bind_runs; [by apply (docids_read_metapage st pages)|]. intros st' ->.
    rewrite I3, I4, !Z.eqb_refl. cbn [negb]. by apply ensures_ret. }
  intros st' ->. apply ensures_bind, ensures_gets. rewrite (dc_first _ _ _ I5).
  pose proof (chain_length st _ pages I5) as Hl. unfold zlen in Hl.
  apply (read_docid_pages_ok st pages Hinv _ 0). lia.
Qed.
End Operations.
