(* ===== verification/DocidEvents.v ===== *)
(** * Backends that share the docid pages

    Each backend has a writer's cache of its own; the pages are shared.  A history
    is a sequence of operations, each atomic, by any of the backends.  As long as no
    backend adds through a cache that survived another backend's clear, the pages
    record exactly the documents added since the last clear, in order, and touch no
    other page; a backend that does so loses its document. *)
From S2P Require Import Prelude Postgres Float4 Fieldnorm SegmentFormat Compression Storage.
From S2P Require Import SegmentIO Docmap SegmentScan ScanFacts Memtable MemtableFacts SegmentWrite.
From S2P Require Import SegmentWriteFacts Metapage MetapageFacts DocidChain.

Inductive docid_event :=
  | AddDocid (backend : nat) (ctid : ItemPointerData)
  | ClearDocids (backend : nat)
  (** The backend adds a document to another index. *)
  | AddElsewhere (backend : nat) (index_oid last_page num_docids : Z)
  | StartBackend (backend : nat).

Abbreviation writer_caches := (gmap nat TpDocidWriterState).

(** [docid_writer_cache] as the process starts. *)
Definition initial_docid_cache : TpDocidWriterState := mkDocidWriter 0 InvalidBlockNumber 0 false.

Definition cache_of (cs : writer_caches) (backend : nat) : TpDocidWriterState :=
  default initial_docid_cache (cs !! backend).

(** ** The specification *)

Definition recorded (l : list ItemPointerData) (e : docid_event) : list ItemPointerData :=
  match e with
  | AddDocid _ p => l ++ [p]
  | ClearDocids _ => []
  | _ => l
  end.

(** The documents added since the last clear. *)
Definition recorded_docids (evs : list docid_event) : list ItemPointerData := foldl recorded [] evs.

(** [writers] hold a cache of the current chain, [stale] one of a chain that was
    cleared by another backend. *)
Record writer_sets := mkWriterSets { ws_writers : gset nat; ws_stale : gset nat }.

Definition writers_step (oid : Z) (w : writer_sets) (e : docid_event) : writer_sets :=
  match e with
  | AddDocid b _ => mkWriterSets ({[b]} ∪ ws_writers w) (ws_stale w)
  | ClearDocids b => mkWriterSets ∅ ((ws_writers w ∪ ws_stale w) ∖ {[b]})
  | AddElsewhere b _ _ _ | StartBackend b => mkWriterSets (ws_writers w ∖ {[b]}) (ws_stale w ∖ {[b]})
  end.

Definition event_allowed (oid : Z) (w : writer_sets) (e : docid_event) : bool :=
  match e with
  | AddDocid b p => bool_decide (b ∉ ws_stale w) && (0 <=? ip_blkid p) && (ip_blkid p <? 2 ^ 32)
                    && (0 <=? ip_posid p) && (ip_posid p <? 2 ^ 16)
  | AddElsewhere _ other _ _ => negb (other =? oid)
  | _ => true
  end.

(** No document is added through a stale cache. *)
Fixpoint no_stale_writer (oid : Z) (w : writer_sets) (evs : list docid_event) : bool :=
  match evs with
  | [] => true
  | e :: evs' => event_allowed oid w e && no_stale_writer oid (writers_step oid w e) evs'
  end.

Section Events.
Context `{PgLayout}.

(** ** The system *)

Definition docid_event_step (oid : Z) (cs : writer_caches) (e : docid_event) : rst Storage writer_caches :=
  match e with
  | AddDocid b p => c ← tp_add_docid_to_pages oid p (cache_of cs b); mret (<[b := c]> cs)
  | ClearDocids b => c ← tp_clear_docid_pages (cache_of cs b); mret (<[b := c]> cs)
  | AddElsewhere b other page n => mret (<[b := mkDocidWriter other page n true]> cs)
  | StartBackend b => mret (delete b cs)
  end.

Fixpoint run_docid_events (oid : Z) (cs : writer_caches) (evs : list docid_event)
    : rst Storage writer_caches :=
  match evs with
  | [] => mret cs
  | e :: evs' => cs' ← docid_event_step oid cs e; run_docid_events oid cs' evs'
  end.
End Events.

Section Refinement.
Context `{PgLayoutLaws}.
Context (Hroom : 120 <= SEGMENT_DATA_PER_PAGE) (oid : Z).

(** The cache of a backend that is not stale is one of the chain, if it is one of
    this index at all, and then the backend counts as a writer. *)
Definition caches_ok (pages : docid_pages) (w : writer_sets) (cs : writer_caches) : Prop :=
  forall b, dw_valid (cache_of cs b) = true -> dw_index_oid (cache_of cs b) = oid ->
    b ∈ ws_stale w \/ b ∈ ws_writers w /\ dw_last_page (cache_of cs b) ∈ pages.*1.

(** [base]: the pages the relation had before; they belong to segments. *)
Record events_inv (st0 : Storage) (w : writer_sets) (cs : writer_caches) (st : Storage)
    (pages : docid_pages) : Prop := {
  ei_inv : docids_inv st pages;
  ei_caches : caches_ok pages w cs;
  ei_mono : nblocks st0 <= nblocks st;
  ei_new : forall b, b ∈ pages.*1 -> nblocks st0 <= b;
  ei_kept : forall b, 0 < b < nblocks st0 -> page_data st b = page_data st0 b;
}.

Lemma cache_of_insert cs b c b' : cache_of (<[b := c]> cs) b' = if decide (b = b') then c else cache_of cs b'.
Proof. unfold cache_of. rewrite lookup_insert. by destruct (decide (b = b')). Qed.

Lemma cache_of_delete cs b b' :
  cache_of (delete b cs) b' = if decide (b = b') then initial_docid_cache else cache_of cs b'.
Proof. unfold cache_of. rewrite lookup_delete. by destruct (decide (b = b')). Qed.

Lemma add_event_ok st0 w cs st pages b p : events_inv st0 w cs st pages ->
  event_allowed oid w (AddDocid b p) = true -> nblocks st + 2 < InvalidBlockNumber ->
  ensures (docid_event_step oid cs (AddDocid b p)) st (fun cs' st' => exists pages',
    events_inv st0 (writers_step oid w (AddDocid b p)) cs' st' pages' /\
    docids pages' = docids pages ++ [p] /\ nblocks st' <= nblocks st + 2).
Proof.
  intros [I1 I2 I3 I4 I5] Ha Hn. cbn [event_allowed] in Ha.
  rewrite !andb_true_iff, bool_decide_eq_true, !Z.leb_le, !Z.ltb_lt in Ha.
  destruct Ha as ((((Hst & ?) & ?) & ?) & ?). unfold docid_event_step. apply ensures_bind.
  eapply ensures_mono.
  { apply (tp_add_docid_to_pages_ok Hroom st pages oid (cache_of cs b) p); [done| |split; lia|done].
    intros Hv Ho. by destruct (I2 b Hv Ho) as [?|[_ ?]]. }
  intros c st' (pages' & [S1 S2 S3 S4 _ _ S5] & D & Hc & Hn'). apply ensures_ret. exists pages'.
  split; [|done]. split; [done| |lia| |].
  - intros b' Hv Ho. cbn. rewrite cache_of_insert in *. destruct (decide (b = b')) as [->|Hne].
    + right. split; [set_solver|by apply Hc].
    + destruct (I2 b' Hv Ho) as [?|[? Hin]]; [by left|]. right. split; [set_solver|].
      destruct S3 as [k ->]. set_solver.
  - intros b' Hb'. destruct (S4 b' Hb'); [by apply I4|lia].
  - intros b' Hb'. rewrite (page_at_data _ _ _ (S5 b' ltac:(lia) ltac:(intros Hc'; specialize (I4 b' Hc'); lia))). by apply I5.
Qed.

Lemma clear_event_ok st0 w cs st pages b : events_inv st0 w cs st pages ->
  ensures (docid_event_step oid cs (ClearDocids b)) st (fun cs' st' =>
    events_inv st0 (writers_step oid w (ClearDocids b)) cs' st' [] /\ nblocks st' = nblocks st).
Proof.
  intros [I1 I2 I3 I4 I5]. unfold docid_event_step. apply ensures_bind.
  eapply ensures_mono; [by apply (tp_clear_docid_pages_ok Hroom st pages)|].
  intros c st' (C1 & C2 & C3 & C4). apply ensures_ret. split; [|done].
  split; [done| |lia|set_solver|].
  - intros b' Hv Ho. cbn. rewrite cache_of_insert in *. destruct (decide (b = b')); [congruence|].
    left. destruct (I2 b' Hv Ho) as [?|[? _]]; set_solver.
  - intros b' Hb'. rewrite C4 by lia. by apply I5.
Qed.

(** Any other event only changes the cache of its backend, to one of no page of
    this index. *)
Lemma forget_event_ok st0 w cs st pages b cs' : events_inv st0 w cs st pages ->
  (forall b', b <> b' -> cache_of cs' b' = cache_of cs b') ->
  ~ (dw_valid (cache_of cs' b) = true /\ dw_index_oid (cache_of cs' b) = oid) ->
  events_inv st0 (mkWriterSets (ws_writers w ∖ {[b]}) (ws_stale w ∖ {[b]})) cs' st pages.
Proof.
  intros [I1 I2 I3 I4 I5] Hother Hb. split; try done. intros b' Hv Ho.
  destruct (decide (b = b')) as [->|Hne]; [by destruct Hb|]. rewrite Hother in * by done.
  destruct (I2 b' Hv Ho) as [?|[? ?]]; [left; set_solver|right; split; set_solver].
Qed.

Lemma docid_event_ok st0 w cs st pages e : events_inv st0 w cs st pages ->
  event_allowed oid w e = true -> nblocks st + 2 < InvalidBlockNumber ->
  ensures (docid_event_step oid cs e) st (fun cs' st' => exists pages',
    events_inv st0 (writers_step oid w e) cs' st' pages' /\
    docids pages' = recorded (docids pages) e /\ nblocks st' <= nblocks st + 2).
Proof.
  intros Hinv Ha Hn. destruct e as [b p|b|b other page n|b].
  - by apply add_event_ok.
  - eapply ensures_mono; [by apply (clear_event_ok st0 w cs st pages)|].
    intros cs' st' [Hi E]. exists []. split; [done|]. split; [done|lia].
  - apply ensures_ret. exists pages. split; [|split; [done|lia]]. cbn in Ha.
    eapply (forget_event_ok st0 w cs); [done| |]; intros; rewrite cache_of_insert; destruct (decide _);
      try done. cbn. intros [_ E]. rewrite E, Z.eqb_refl in Ha. done.
  - apply ensures_ret. exists pages. split; [|split; [done|lia]].
    eapply (forget_event_ok st0 w cs); [done| |]; intros; rewrite cache_of_delete; destruct (decide _);
      try done. by intros [? _].
Qed.

Lemma run_docid_events_ok st0 : forall evs w cs st pages, events_inv st0 w cs st pages ->
  no_stale_writer oid w evs = true -> nblocks st + 2 * zlen evs < InvalidBlockNumber ->
  ensures (run_docid_events oid cs evs) st (fun cs' st' => exists w' pages',
    events_inv st0 w' cs' st' pages' /\ docids pages' = foldl recorded (docids pages) evs).
Proof.
  induction evs as [|e evs IH]; intros w cs st pages Hinv Hs Hn.
  { apply ensures_ret. by exists w, pages. }
  cbn [run_docid_events no_stale_writer foldl] in *. apply andb_prop in Hs as [Ha Hs].
  rewrite zlen_cons in Hn. pose proof (zlen_nonneg evs). apply ensures_bind.
  eapply ensures_mono; [apply (docid_event_ok st0 w cs st pages e Hinv Ha); lia|].
  intros cs' st' (pages' & Hinv' & E & Hn'). rewrite <- E. apply (IH _ cs' st' pages' Hinv' Hs). lia.
Qed.

(** An index whose metapage was just written has no docid pages. *)
Lemma fresh_index_ok st cfg ty : pages_full st -> fits 4 cfg -> fits 1 ty -> 0 < nblocks st < InvalidBlockNumber ->
  page_data st 0 = contents (tp_init_metapage cfg ty) -> docids_inv st [].
Proof.
  intros HF Hcfg Hty Hn E.
  set (m := mkMetaPage TP_METAPAGE_MAGIC TP_METAPAGE_VERSION cfg 0 0 0 0 0 0
    InvalidBlockNumber 0 InvalidBlockNumber (replicate TP_MAX_LEVELS InvalidBlockNumber)
    (replicate TP_MAX_LEVELS 0) 0 InvalidBlockNumber ty 0).
  assert (Hm : metapage_ok m).
  { split; [|by split]. unfold metapage_fields, metapage_layout, m. cbn. 
    repeat (apply Forall2_cons; split; [first [exact Hcfg|exact Hty|by vm_compute]|]). by apply Forall2_nil. }
  assert (Em : metapage_of st = m).
  { unfold metapage_of. apply decode_metapage_at; [done|]. rewrite E. cbn [tp_init_metapage contents].
    apply at_offset_overwrite; [done|]. unfold zlen at 1. rewrite length_encode_metapage by done.
    rewrite length_PageInit. lia. }
  split; rewrite ?Em; try done; try lia. split; try done. by constructor.
Qed.
End Refinement.

(** ** What recovery finds *)

Definition docid_test_layout : PgLayout := {| BLCKSZ := 144; SizeOfPageHeaderData := 24 |}.

Lemma docid_test_layout_laws : @PgLayoutLaws docid_test_layout.
Proof. by split. Qed.

(** An index of one page, just created. *)
Definition fresh_index : Storage := mkStorage [@tp_init_metapage docid_test_layout 3734 0] [] 0.

(** Two backends; the first fills more than a page. *)
Definition two_writers : list docid_event :=
  (AddDocid 1 ∘ mkItemPointer 7 ∘ Z.of_nat <$> seq 1 20) ++
  [AddDocid 2 (mkItemPointer 70000 1); ClearDocids 2; StartBackend 1] ++
  (AddDocid 1 ∘ mkItemPointer 8 ∘ Z.of_nat <$> seq 1 20) ++
  [AddElsewhere 1 999 5 2; AddDocid 2 (mkItemPointer 9 1); AddDocid 1 (mkItemPointer 9 2)].

(** C21: The docid pages are a log of the memtable.  Backends add documents, clear
    the pages, write to other indexes and restart, in any interleaving, from the
    moment the index was created; if none adds through a cache that outlived
    another's clear, every operation succeeds, recovery reads exactly the documents
    added since the last clear, in the order of their insertion, and no page that the
    index had before is written. *)
Theorem docid_chain_records_inserts `{PgLayoutLaws} (oid cfg ty : Z) (st : Storage)
    (evs : list docid_event) :
  120 <= SEGMENT_DATA_PER_PAGE -> fits 4 cfg -> fits 1 ty ->
  pages_full st -> page_data st 0 = contents (tp_init_metapage cfg ty) -> 0 < nblocks st ->
  nblocks st + 2 * zlen evs < InvalidBlockNumber ->
  no_stale_writer oid (mkWriterSets ∅ ∅) evs = true ->
  exists caches st', run_docid_events oid ∅ evs st = Ok (caches, st') /\
    recovered_docids st' = Ok (recorded_docids evs, st') /\
    forall b, 0 < b < nblocks st -> page_data st' b = page_data st b.
Proof.
  intros Hroom Hcfg Hty HF E Hpos Hn Hs. pose proof (zlen_nonneg evs).
  assert (Hinv : events_inv oid st (mkWriterSets ∅ ∅) ∅ st []).
  { split; try done; [apply (fresh_index_ok Hroom st cfg ty); auto; lia|set_solver]. }
  destruct (run_docid_events_ok Hroom oid st evs _ _ _ _ Hinv Hs Hn)
    as (cs' & st' & Hrun & w' & pages' & [I1 I2 I3 I4 I5] & D).
  exists cs', st'. split; [exact Hrun|]. split; [|exact I5].
  destruct (recovered_docids_ok Hroom st' pages' I1) as (l & st2 & Hr & -> & ->). rewrite Hr.
  unfold recorded_docids. by rewrite D.
Qed.

Lemma docid_chain_records_inserts_witness :
  exists caches st', @run_docid_events docid_test_layout 16385 ∅ two_writers fresh_index = Ok (caches, st') /\
    recovered_docids st' = Ok (recorded_docids two_writers, st') /\
    forall b, 0 < b < nblocks fresh_index -> page_data st' b = page_data fresh_index b.
Proof.
  apply (@docid_chain_records_inserts docid_test_layout docid_test_layout_laws 16385 3734 0).
  - by vm_compute.
  - by vm_compute.
  - by vm_compute.
  - constructor; [by vm_compute|constructor].
  - by vm_compute.
  - by vm_compute.
  - by vm_compute.
  - by vm_compute.
Defined.

