(* ===== verification/TenantPages.v ===== *)
(** * The pages of tenant statistics (src/state/metapage.c)

    The statistics of the tenants are kept in a chain of pages behind the metapage, so
    that they survive a restart.  Writing makes a new chain of all the entries; reading
    adds the entries of every page to the table, and stops at a page that is not one of
    the chain. *)
From S2P Require Import Prelude Postgres SegmentFormat Storage SegmentIO Memtable ScanFacts SegmentWriteFacts.
From S2P Require Import MemtableFacts Metapage MetapageFacts.

Definition TP_TENANT_STATS_PAGE_MAGIC : Z := 1414550611.

Record TpTenantStatsPageHeader := mkTenantStatsHeader {
  th_magic : Z;
  th_num_entries : Z;
  th_next_page : Z;
}.

Definition TpTenantStatsPageHeader_layout : list nat := [4; 4; 4]%nat.
Definition encode_tenant_stats_header (h : TpTenantStatsPageHeader) : list byte :=
  encode_fields TpTenantStatsPageHeader_layout [th_magic h; th_num_entries h; th_next_page h].
Definition decode_tenant_stats_header (bs : list byte) : TpTenantStatsPageHeader :=
  match decode_fields TpTenantStatsPageHeader_layout bs with
  | [a; b; c] => mkTenantStatsHeader a b c
  | _ => mkTenantStatsHeader 0 0 0
  end.

(** [total_len] is an [int64]. *)
Definition encode_stats_entry (e : TpTenantStatsEntry) : list byte :=
  encode_fields [4; 4; 8]%nat [ts_tenant_id e; ts_doc_count e; u64 (ts_total_len e)].
Definition decode_stats_entry (bs : list byte) : TpTenantStatsEntry :=
  match decode_fields [4; 4; 8]%nat bs with
  | [a; b; c] => mkTenantStatsEntry a b (i64 c)
  | _ => mkTenantStatsEntry 0 0 0
  end.

Section TenantPages.
Context `{PgLayout} `{HashSeq}.

(** [MAXALIGN(sizeof(TpTenantStatsPageHeader))] *)
Definition tenant_entries_offset : Z := MAXALIGN 12.
Definition TP_TENANT_STATS_PER_PAGE : Z := (SEGMENT_DATA_PER_PAGE - tenant_entries_offset) / 16.

(** A new page with its entries. *)
Definition new_tenant_stats_page (entries : list TpTenantStatsEntry) : rst Storage Z :=
  block ← (fun st => Ok (extend_relation st (PageInit 0)));
  _ ← overwrite_page block tenant_entries_offset (encode_array encode_stats_entry entries);
  _ ← overwrite_page block 0 (encode_tenant_stats_header
        (mkTenantStatsHeader TP_TENANT_STATS_PAGE_MAGIC (zlen entries) InvalidBlockNumber));
  mret block.

(** The loop over the pages: [first] and [prev] are the first and the last page so far. *)
Fixpoint write_tenant_stats_chain (fuel : nat) (entries : list TpTenantStatsEntry) (first prev : Z)
    : rst Storage Z :=
  match entries with
  | [] => mret first
  | _ =>
      match fuel with
      | O => rst_fail OUT_OF_FUEL
      | S fuel' =>
          let entries_this_page := Z.min (zlen entries) TP_TENANT_STATS_PER_PAGE in
          block ← new_tenant_stats_page (sub_list 0 entries_this_page entries);
          _ ← (if prev =? InvalidBlockNumber then mret tt else overwrite_page prev 8 (u32_bytes block));
          write_tenant_stats_chain fuel' (drop (Z.to_nat entries_this_page) entries)
            (if first =? InvalidBlockNumber then block else first) block
      end
  end.

Definition tp_write_tenant_stats_pages_from_array (entries : list TpTenantStatsEntry) : rst Storage unit :=
  if zlen entries =? 0 then mret tt
  else
    first_page ← write_tenant_stats_chain (length entries) entries InvalidBlockNumber InvalidBlockNumber;
    m ← read_metapage;
    write_metapage (set_first_tenant_stats_page m first_page).

Definition tp_write_tenant_stats_pages (state : TpLocalIndexState) : rst Storage unit :=
  '(entries, _) ← rst_lift (tp_tenant_stats_collect state);
  tp_write_tenant_stats_pages_from_array entries.

(** The chain from [current_page] on; a page without the magic number ends it with a
    warning. *)
Fixpoint read_tenant_stats_chain (fuel : nat) (current_page : Z) (table : gmap Z TpTenantStatsEntry)
    : rst Storage (gmap Z TpTenantStatsEntry) :=
  match fuel with
  | O => rst_fail OUT_OF_FUEL
  | S fuel' =>
      if current_page =? InvalidBlockNumber then mret table
      else
        page ← rst_read_buffer current_page;
        let header := decode_tenant_stats_header (contents page) in
        if negb (th_magic header =? TP_TENANT_STATS_PAGE_MAGIC) then mret table
        else
          let entries := decode_array 16 decode_stats_entry (Z.to_nat (th_num_entries header))
                           (drop (Z.to_nat tenant_entries_offset) (contents page)) in
          read_tenant_stats_chain fuel' (th_next_page header) (foldl accumulate_stats table entries)
  end.

(** The table of the memtable after the load. *)
Definition tp_read_tenant_stats_pages (state : TpLocalIndexState) : rst Storage TpLocalIndexState :=
  m ← tp_get_metapage;
  fuel ← rst_gets (fun st => S (S (Z.to_nat (nblocks st))));
  table ← read_tenant_stats_chain fuel (mp_first_tenant_stats_page m) (default ∅ (tenant_stats (memtable state)));
  let t := memtable state in
  mret (set_memtable state (mkMemtable (string_table t) (total_terms t) (total_postings t) (doc_lengths t) (Some table))).
End TenantPages.

(** ** What the pages hold *)

Definition stats_entry_ok (e : TpTenantStatsEntry) : Prop :=
  0 <= ts_tenant_id e < 2 ^ 32 /\ 0 <= ts_doc_count e < 2 ^ 32 /\ - 2 ^ 63 <= ts_total_len e < 2 ^ 63.

Lemma i64_u64 x : - 2 ^ 63 <= x < 2 ^ 63 -> i64 (u64 x) = x.
Proof.
  intros Hx. unfold swrap, wrap. change (64 - 1) with 63. rewrite Zplus_mod_idemp_l.
  rewrite Z.mod_small by lia. lia.
Qed.

Lemma decode_encode_stats_entry e : stats_entry_ok e -> decode_stats_entry (encode_stats_entry e) = e.
Proof.
  intros (Ht & Hc & Hl). unfold decode_stats_entry, encode_stats_entry.
  rewrite <- (app_nil_r (encode_fields _ _)), decode_encode_fields.
  - rewrite i64_u64 by done. by destruct e.
  - repeat constructor; cbn; try lia; apply (wrap_range 64); lia.
Qed.

Lemma length_encode_stats_entry e : length (encode_stats_entry e) = 16%nat.
Proof. by apply length_encode_fields. Qed.

Section Facts.
Context `{PgLayoutLaws}.
Context (Hroom : 120 <= SEGMENT_DATA_PER_PAGE).
Abbreviation P := SEGMENT_DATA_PER_PAGE.
Abbreviation cap := TP_TENANT_STATS_PER_PAGE.
Abbreviation entry := TpTenantStatsEntry.

Lemma stats_cap : 0 < cap /\ 16 + 16 * cap <= P /\ cap < 2 ^ 32.
Proof.
  unfold TP_TENANT_STATS_PER_PAGE. change tenant_entries_offset with 16.
  assert (P <= 32768) by (unfold SEGMENT_DATA_PER_PAGE; pose proof BLCKSZ_limit; pose proof SizeOfPageHeaderData_pos; lia).
  pose proof (Z.div_mod (P - 16) 16 ltac:(lia)). pose proof (Z.mod_pos_bound (P - 16) 16 ltac:(lia)).
  split; [apply Z.div_str_pos; lia|lia].
Qed.

Record stats_page (st : Storage) (b : Z) (es : list entry) (next : Z) : Prop := {
  sg_block : 0 < b < nblocks st;
  sg_header : at_offset (page_data st b) 0
    (encode_tenant_stats_header (mkTenantStatsHeader TP_TENANT_STATS_PAGE_MAGIC (zlen es) next));
  sg_entries : at_offset (page_data st b) 16 (encode_array encode_stats_entry es);
  sg_size : zlen es <= cap;
  sg_ok : Forall stats_entry_ok es;
}.

Fixpoint stats_chain (st : Storage) (first : Z) (pages : list (Z * list entry)) : Prop :=
  match pages with
  | [] => first = InvalidBlockNumber
  | (b, es) :: rest =>
      first = b /\ stats_page st b es (default InvalidBlockNumber (head rest.*1)) /\
      stats_chain st (default InvalidBlockNumber (head rest.*1)) rest
  end.

(** Pages that stay the same, and the relation that grows. *)
Record grown (st st' : Storage) (but : Z -> Prop) : Prop := {
  gr_wf : storage_wf st';
  gr_mono : nblocks st <= nblocks st';
  gr_fsm : st_fsm st' = st_fsm st;
  gr_keep : forall x, in_relation st x -> ~ but x -> page_at st' x = page_at st x;
}.

Lemma grown_refl st but : storage_wf st -> grown st st but.
Proof. by split. Qed.

Lemma grown_trans st1 st2 st3 but : grown st1 st2 but -> grown st2 st3 but -> grown st1 st3 but.
Proof.
  intros [W1 N1 F1 K1] [W2 N2 F2 K2]. split; [done|lia|congruence|]. intros x Hx Hb.
  rewrite K2; [by apply K1|unfold in_relation in *; lia|done].
Qed.

Lemma stats_page_kept st st' but b es next : grown st st' but -> ~ but b -> stats_page st b es next ->
  stats_page st' b es next.
Proof.
  intros [_ N _ K] Hb [H1' H2' H3' H4' H5'].
  assert (E : page_data st' b = page_data st b) by (apply page_at_data, K; [split; lia|done]).
  split; rewrite ?E; done || lia.
Qed.

Lemma stats_chain_blocks st pages : forall first b, stats_chain st first pages -> b ∈ pages.*1 -> 0 < b < nblocks st.
Proof.
  induction pages as [|[b' es] pages IH]; intros first b Hc Hb; [by apply not_elem_of_nil in Hb|].
  destruct Hc as (_ & Hp & Hc). csimpl in Hb. apply elem_of_cons in Hb as [->|Hb]; [apply (sg_block _ _ _ _ Hp)|].
  by eapply IH.
Qed.

Lemma zlen_stats_header h : zlen (encode_tenant_stats_header h) = 12.
Proof. done. Qed.

Lemma zlen_stats_entries (es : list entry) : zlen (encode_array encode_stats_entry es) = 16 * zlen es.
Proof. unfold zlen. rewrite (length_encode_array _ 16) by apply length_encode_stats_entry. lia. Qed.

Lemma at_offset_join (d : list byte) o b1 b2 : at_offset d o b1 -> at_offset d (o + zlen b1) b2 ->
  at_offset d o (b1 ++ b2).
Proof.
  intros (Ho & Hl1 & E1) (_ & Hl2 & E2). pose proof (zlen_nonneg b1). pose proof (zlen_nonneg b2).
  split; [done|]. rewrite zlen_app. split; [lia|]. by rewrite sub_list_split, E1, E2 by lia.
Qed.

Lemma encode_stats_header_split n next :
  encode_tenant_stats_header (mkTenantStatsHeader TP_TENANT_STATS_PAGE_MAGIC n next) =
  (u32_bytes TP_TENANT_STATS_PAGE_MAGIC ++ u32_bytes n) ++ u32_bytes next.
Proof. reflexivity. Qed.

Lemma new_stats_page_ok st es : storage_wf st -> zlen es <= cap -> Forall stats_entry_ok es ->
  ensures (new_tenant_stats_page es) st (fun b st' => b = nblocks st /\ nblocks st' = nblocks st + 1 /\
    grown st st' (fun _ => False) /\ stats_page st' b es InvalidBlockNumber).
Proof.
  intros Hwf Hn Hok. unfold new_tenant_stats_page. apply ensures_bind.
  destruct (extend_fresh st (PageInit 0) Hwf (length_PageInit 0)) as [Hwf1 [_ _ _ Hkeep _ _]].
  set (st1 := (extend_relation st (PageInit 0)).2) in *. exists (nblocks st), st1. split; [done|].
  assert (Hn1 : nblocks st1 = nblocks st + 1) by (unfold nblocks, zlen, st1; cbn; rewrite length_app; simpl; lia).
  pose proof (swf_metapage _ Hwf) as Hpos. assert (Hin : in_relation st1 (nblocks st)) by (split; lia).
  pose proof stats_cap. pose proof (zlen_stats_entries es) as Ez. change tenant_entries_offset with 16.
  pose proof (length_page_data st1 _ Hwf1 Hin) as Hl1.
  apply ensures_bind. eapply ensures_mono; [apply overwrite_page_replaces; [done..|lia]|].
  intros [] st2 [Hwf2 Hn2 Hf2 Hd2 Ho2]. assert (Hin2 : in_relation st2 (nblocks st)) by (split; lia).
  pose proof (length_page_data st2 _ Hwf2 Hin2) as Hl2.
  apply ensures_bind. eapply ensures_mono; [apply overwrite_page_replaces; [done..|rewrite zlen_stats_header; lia]|].
  intros [] st3 [Hwf3 Hn3 Hf3 Hd3 Ho3]. apply ensures_ret. split; [done|]. split; [lia|]. split.
  - split; [done|lia|by rewrite Hf3, Hf2|]. intros x [Hx Hlt] _. rewrite Ho3, Ho2 by lia.
    apply Hkeep; [by split|cbn; lia].
  - split; [lia| | |done|done]; rewrite Hd3.
    + apply at_offset_overwrite; rewrite ?zlen_stats_header; lia.
    + apply at_offset_overwrite_other; rewrite ?zlen_stats_header; try lia.
      rewrite Hd2. apply at_offset_overwrite; lia.
Qed.

Lemma link_stats_page_ok st prev es b : storage_wf st -> stats_page st prev es InvalidBlockNumber ->
  0 <= b < 2 ^ 32 ->
  ensures (overwrite_page prev 8 (u32_bytes b)) st (fun _ st' => nblocks st' = nblocks st /\
    grown st st' (fun x => x = prev) /\ stats_page st' prev es b).
Proof.
  intros Hwf [S1 S2 S3 S4 S5] Hb. assert (Hin : in_relation st prev) by (split; lia).
  pose proof (length_page_data st _ Hwf Hin) as Hl. pose proof (zlen_stats_entries es) as Ez.
  assert (E4 : zlen (u32_bytes b) = 4) by (unfold zlen; by rewrite length_u32_bytes).
  eapply ensures_mono; [apply overwrite_page_replaces; [done..|lia]|].
  intros [] st' [Hwf' Hn' Hf' Hd' Ho']. split; [done|]. split.
  { split; [done|lia|done|]. intros x [Hx _] Hne. by apply Ho'. }
  pose proof stats_cap. rewrite encode_stats_header_split in S2. split; [lia| | |done|done]; rewrite Hd'.
  - rewrite encode_stats_header_split. apply at_offset_join.
    + apply at_offset_overwrite_other; [lia|lia|by eapply at_offset_app_l|by left].
    + change (0 + zlen _) with 8. apply at_offset_overwrite; lia.
  - apply at_offset_overwrite_other; [lia|lia|done|right; lia].
Qed.

(** The entries of the next page, and the ones left. *)
Lemma next_stats_page (es : list entry) : es <> [] -> let n := Z.min (zlen es) cap in
  sub_list 0 n es = take (Z.to_nat n) es /\ zlen (take (Z.to_nat n) es) = n /\
  zlen (drop (Z.to_nat n) es) = zlen es - n /\ 0 < n <= zlen es /\ n <= cap.
Proof.
  intros Hne n. pose proof stats_cap as (Hcap & _).
  assert (Hz : 0 < zlen es) by (clear n; destruct es; [done|unfold zlen; simpl; lia]).
  subst n. unfold sub_list. rewrite drop_0. unfold zlen in *. rewrite length_take, length_drop. split; [done|lia].
Qed.

Lemma first_new_page st b es (pages : list (Z * list entry)) (n : Z) : b = nblocks st -> n = nblocks st + 1 ->
  NoDup pages.*1 -> Forall (fun x => n <= x) pages.*1 ->
  NoDup ((b, es) :: pages).*1 /\ Forall (fun x => nblocks st <= x) ((b, es) :: pages).*1.
Proof.
  intros -> -> Hnd HF. rewrite Forall_forall in HF. csimpl. split.
  - constructor; [|done]. intros Hb. specialize (HF _ Hb). lia.
  - constructor; [lia|]. apply Forall_forall. intros x Hx. specialize (HF x Hx). lia.
Qed.

(** The loop, behind a page that has no successor yet. *)
Lemma write_chain_ok fuel : forall st entries first prev es, storage_wf st ->
  stats_page st prev es InvalidBlockNumber -> Forall stats_entry_ok entries ->
  nblocks st + zlen entries < InvalidBlockNumber -> (length entries <= fuel)%nat ->
  first <> InvalidBlockNumber ->
  ensures (write_tenant_stats_chain fuel entries first prev) st (fun first' st' => first' = first /\
    grown st st' (fun x => x = prev) /\ nblocks st' <= nblocks st + zlen entries /\
    exists pages, stats_chain st' prev ((prev, es) :: pages) /\ concat pages.*2 = entries /\
      NoDup pages.*1 /\ Forall (fun b => nblocks st <= b) pages.*1).
Proof.
  induction fuel as [|fuel IH]; intros st entries first prev es Hwf Hp Hok Hlim Hf Hne;
    destruct entries as [|e entries]; try (simpl in Hf; lia); cbn [write_tenant_stats_chain];
    [apply ensures_ret; split; [done|]; split; [by apply grown_refl|]; split; [unfold zlen; simpl; lia|];
     exists []; split; [done|]; split; [done|]; split; constructor..|].
  cbv zeta. set (es' := e :: entries) in *. pose proof (sg_block _ _ _ _ Hp) as Hpb.
  destruct (next_stats_page es') as (Esub & Hzt & Hzd & Hn & Hncap); [done|].
  set (n := Z.min (zlen es') cap) in *.
  apply ensures_bind. rewrite Esub. eapply ensures_mono.
  { apply new_stats_page_ok; [done|lia|by apply Forall_take]. }
  intros b st1 (-> & Hn1 & Hg1 & Hnew). cbv beta.
  pose proof (stats_page_kept _ _ _ _ _ _ Hg1 (fun x => x) Hp) as Hp1. pose proof (gr_wf _ _ _ Hg1) as Hwf1.
  rewrite (proj2 (Z.eqb_neq prev _)), (proj2 (Z.eqb_neq first _)) by (done || lia).
  apply ensures_bind. eapply ensures_mono; [apply (link_stats_page_ok st1 prev es (nblocks st)); try done;
    unfold InvalidBlockNumber in Hlim; lia|].
  intros [] st2 (Hn2 & Hg2 & Hp2). pose proof (gr_wf _ _ _ Hg2) as Hwf2.
  assert (Hnew2 : stats_page st2 (nblocks st) (take (Z.to_nat n) es') InvalidBlockNumber)
    by (eapply stats_page_kept; [exact Hg2|cbn; lia|done]).
  eapply ensures_mono.
  { apply (IH st2 (drop (Z.to_nat n) es') first (nblocks st) _ Hwf2 Hnew2); try done.
    - by apply Forall_drop.
    - lia.
    - unfold zlen in Hzd. lia. }
  intros first' st' (-> & Hg3 & Hn3 & pages & Hc & Ecat & Hnd & HF). split; [done|].
  split; [|split; [lia|]].
  - split; [apply Hg3|pose proof (gr_mono _ _ _ Hg3); lia|by rewrite (gr_fsm _ _ _ Hg3), (gr_fsm _ _ _ Hg2), (gr_fsm _ _ _ Hg1)|].
    intros x [Hx Hlt] Hnx. rewrite (gr_keep _ _ _ Hg3), (gr_keep _ _ _ Hg2), (gr_keep _ _ _ Hg1);
      first [done|by split|cbn; lia|split; lia].
  - exists ((nblocks st, take (Z.to_nat n) es') :: pages). split; [|split; [csimpl; cbn [concat]; by rewrite Ecat, take_drop|]].
    2: { by apply (first_new_page st _ _ _ (nblocks st2)); [|lia|..]. }
    cbn [stats_chain]. csimpl. split; [done|]. split; [|exact Hc].
    eapply stats_page_kept; [exact Hg3|cbn; lia|done].
Qed.

(** From no page. *)
Lemma write_first_chain_ok fuel st entries : storage_wf st -> Forall stats_entry_ok entries -> entries <> [] ->
  nblocks st + zlen entries < InvalidBlockNumber -> (length entries <= S fuel)%nat ->
  ensures (write_tenant_stats_chain (S fuel) entries InvalidBlockNumber InvalidBlockNumber) st (fun first st' =>
    0 <= first < InvalidBlockNumber /\ grown st st' (fun _ => False) /\ nblocks st' <= nblocks st + zlen entries /\
    exists pages, stats_chain st' first pages /\ concat pages.*2 = entries /\ NoDup pages.*1).
Proof.
  intros Hwf Hok Hne Hlim Hf. cbn [write_tenant_stats_chain].
  destruct (next_stats_page entries Hne) as (Esub & Hzt & Hzd & Hn & Hncap).
  set (n := Z.min (zlen entries) cap) in *. pose proof (swf_metapage _ Hwf).
  destruct entries as [|e entries]; [done|]. set (es := e :: entries) in *. cbv zeta. fold n.
  apply ensures_bind. rewrite Esub. eapply ensures_mono.
  { apply new_stats_page_ok; [done|lia|by apply Forall_take]. }
  intros b st1 (-> & Hn1 & Hg1 & Hnew). cbv beta. pose proof (gr_wf _ _ _ Hg1) as Hwf1.
  rewrite Z.eqb_refl. apply ensures_bind, ensures_ret. eapply ensures_mono.
  { apply (write_chain_ok fuel st1 (drop (Z.to_nat n) es) (nblocks st) (nblocks st) _ Hwf1 Hnew); [|lia|unfold zlen in *; lia|lia].
    by apply Forall_drop. }
  intros first st' (-> & Hg & Hn' & pages & Hc & Ecat & Hnd & HF). split; [lia|]. split; [|split; [lia|]].
  - split; [apply Hg|pose proof (gr_mono _ _ _ Hg); lia|by rewrite (gr_fsm _ _ _ Hg), (gr_fsm _ _ _ Hg1)|].
    intros x [Hx Hlt] _. rewrite (gr_keep _ _ _ Hg), (gr_keep _ _ _ Hg1); first [done|by split|cbn; lia|split; lia|tauto].
  - eexists. split; [exact Hc|]. split; [csimpl; cbn [concat]; by rewrite Ecat, take_drop|].
    by apply (first_new_page st _ _ _ (nblocks st1)).
Qed.

Lemma stats_chain_kept st st' but pages : grown st st' but -> (forall b, b ∈ pages.*1 -> ~ but b) ->
  forall first, stats_chain st first pages -> stats_chain st' first pages.
Proof.
  intros Hg. induction pages as [|[b es] pages IH]; intros Hb first Hc; [done|].
  destruct Hc as (-> & Hp & Hc). csimpl in Hb. split; [done|]. split.
  - eapply stats_page_kept; [exact Hg| |done]. apply Hb. left.
  - apply IH; [|done]. intros x Hx. apply Hb. by right.
Qed.

Lemma set_first_tenant_stats_page_ok m b : metapage_ok m -> fits 4 b -> metapage_ok (set_first_tenant_stats_page m b).
Proof.
  intros (Hf & Hh & Hc) Hb. split; [|by split].
  destruct m as [a0 b0 c d e f g h i j k l hs cs o p q r]. cbn in Hh, Hc.
  do 8 (destruct hs as [|? hs]; [discriminate|]); destruct hs; [|discriminate].
  do 8 (destruct cs as [|? cs]; [discriminate|]); destruct cs; [|discriminate].
  match type of Hf with Forall2 _ _ ?fs =>
    change (Forall2 fits metapage_layout (<[29%nat := b]> fs)) end.
  rewrite <- (list_insert_id metapage_layout 29 4%nat eq_refl). by apply Forall2_insert.
Qed.

Lemma fits_block b : 0 <= b < InvalidBlockNumber -> fits 4 b.
Proof. intros Hb. split; [lia|]. change (256 ^ Z.of_nat 4) with (InvalidBlockNumber + 1). lia. Qed.

(** A whole chain. *)
Lemma write_from_array_ok st entries : storage_wf st -> entries <> [] -> Forall stats_entry_ok entries ->
  nblocks st + zlen entries < InvalidBlockNumber ->
  ensures (tp_write_tenant_stats_pages_from_array entries) st (fun _ st' =>
    exists pages, stats_chain st' (mp_first_tenant_stats_page (metapage_of st')) pages /\
      concat pages.*2 = entries /\ NoDup pages.*1 /\ grown st st' (fun x => x = TP_METAPAGE_BLKNO) /\
      nblocks st' <= nblocks st + zlen entries /\
      metapage_of st' = set_first_tenant_stats_page (metapage_of st) (mp_first_tenant_stats_page (metapage_of st'))).
Proof.
  intros Hwf Hne Hok Hlim. unfold tp_write_tenant_stats_pages_from_array.
  destruct (next_stats_page entries Hne) as (_ & _ & _ & Hz & _).
  rewrite (proj2 (Z.eqb_neq _ _)) by lia. destruct (length entries) as [|fuel] eqn:El; [by destruct entries|].
  apply ensures_bind. eapply ensures_mono; [apply write_first_chain_ok; [done..|lia]|].
  intros first st1 (Hfirst & Hg1 & Hn1 & pages & Hc & Ecat & Hnd). pose proof (gr_wf _ _ _ Hg1) as Hwf1.
  eapply ensures_bind_runs; [by apply read_metapage_runs|]. intros st1' ->.
  assert (Em : metapage_of st1 = metapage_of st).
  { unfold metapage_of. f_equal. apply page_at_data, (gr_keep _ _ _ Hg1); [|tauto].
    split; [lia|apply (swf_metapage _ Hwf)]. }
  rewrite Em. eapply ensures_mono.
  { apply write_metapage_replaces; [done|done|]. apply set_first_tenant_stats_page_ok;
      [by apply metapage_of_ok|apply fits_block; lia]. }
  intros [] st' (Em' & data & Hr). rewrite Em'. change (mp_first_tenant_stats_page _) with first.
  assert (Hg2 : grown st1 st' (fun x => x = TP_METAPAGE_BLKNO)).
  { destruct Hr as [Hwf' Hn' Hf' _ Ho']. split; [done|lia|done|]. intros x [Hx _] Hne'. by apply Ho'. }
  exists pages. split; [|split; [done|split; [done|split; [|split; [rewrite (pr_count _ _ _ _ Hr); lia|done]]]]].
  - eapply stats_chain_kept; [exact Hg2| |exact Hc]. intros b Hb.
    pose proof (stats_chain_blocks _ _ _ b Hc Hb). unfold TP_METAPAGE_BLKNO. lia.
  - split; [apply Hg2|pose proof (gr_mono _ _ _ Hg1); pose proof (gr_mono _ _ _ Hg2); lia
      |by rewrite (gr_fsm _ _ _ Hg2), (gr_fsm _ _ _ Hg1)|].
    intros x Hx Hne'. rewrite (gr_keep _ _ _ Hg2); [apply (gr_keep _ _ _ Hg1); [done|tauto]| |done].
    pose proof (gr_mono _ _ _ Hg1). unfold in_relation in *. lia.
Qed.

(** ** Reading *)

Lemma decode_stats_page data es next : 0 <= next < 2 ^ 32 -> zlen es <= cap -> Forall stats_entry_ok es ->
  at_offset data 0 (encode_tenant_stats_header (mkTenantStatsHeader TP_TENANT_STATS_PAGE_MAGIC (zlen es) next)) ->
  at_offset data 16 (encode_array encode_stats_entry es) ->
  decode_tenant_stats_header data = mkTenantStatsHeader TP_TENANT_STATS_PAGE_MAGIC (zlen es) next /\
  decode_array 16 decode_stats_entry (length es) (drop 16 data) = es.
Proof.
  intros Hnext Hn HF Hh He. pose proof stats_cap. pose proof (zlen_nonneg es). split.
  - destruct (at_offset_drop _ _ _ Hh) as [rest E]. rewrite drop_0 in E. rewrite E.
    unfold decode_tenant_stats_header, encode_tenant_stats_header. rewrite decode_encode_fields; [done|].
    assert (Hf : fits 4 (zlen es)) by (split; [lia|change (256 ^ Z.of_nat 4) with (2 ^ 32); lia]).
    do 3 (apply Forall2_cons; split; [done|]). constructor.
  - destruct (at_offset_drop _ _ _ He) as [rest E]. change (Z.to_nat 16) with 16%nat in E. rewrite E.
    apply decode_encode_array; [apply length_encode_stats_entry|]. intros e Hin.
    rewrite Forall_forall in HF. by apply decode_encode_stats_entry, HF.
Qed.

Lemma read_chain_ok st pages : nblocks st <= InvalidBlockNumber -> forall fuel first table,
  stats_chain st first pages -> (length pages < fuel)%nat ->
  runs (fun st' => st' = st) (read_tenant_stats_chain fuel first table) st
    (foldl accumulate_stats table (concat pages.*2)).
Proof.
  intros Hlim. induction pages as [|[b es] pages IH]; intros [|fuel] first table Hc Hf; try (simpl in Hf; lia);
    cbn [read_tenant_stats_chain].
  { cbn [stats_chain] in Hc. subst first. rewrite Z.eqb_refl. by apply ensures_ret. }
  destruct Hc as (-> & [S1 S2 S3 S4 S5] & Hc). rewrite fmap_cons. cbn [concat snd]. rewrite foldl_app.
  rewrite (proj2 (Z.eqb_neq _ _)) by lia.
  set (next := default InvalidBlockNumber (head pages.*1)) in *.
  assert (Hnext : 0 <= next < 2 ^ 32).
  { unfold next. destruct pages as [|[b' es'] pages]; [done|]. csimpl.
    pose proof (stats_chain_blocks st _ _ b' Hc ltac:(left)). unfold InvalidBlockNumber in Hlim. lia. }
  destruct (ReadBuffer_ok st b) as (p & Ep & Hp); [split; lia|].
  assert (Ec : contents p = page_data st b) by (unfold page_data, page_at; by rewrite Hp).
  destruct (decode_stats_page (contents p) es next Hnext S4 S5) as [Eh Ee]; [by rewrite Ec..|].
  apply ensures_bind. exists p, st. split; [unfold rst_read_buffer; by rewrite Ep|]. cbv beta zeta. rewrite Eh.
  cbn [th_magic th_num_entries th_next_page]. rewrite Z.eqb_refl. cbn [negb].
  change (Z.to_nat tenant_entries_offset) with 16%nat.
  replace (Z.to_nat (zlen es)) with (length es) by (unfold zlen; lia). rewrite Ee.
  apply IH; [exact Hc|simpl in Hf; lia].
Qed.

Lemma stats_chain_length st first pages : stats_chain st first pages -> NoDup pages.*1 ->
  (length pages <= Z.to_nat (nblocks st))%nat.
Proof.
  intros Hc Hnd. rewrite <- (length_fmap fst pages). apply length_nodup_blocks; [done|].
  apply Forall_forall. intros b Hb. by eapply stats_chain_blocks.
Qed.
End Facts.

(** ** The statistics survive *)

Section Survive.
Context `{PgLayoutLaws} `{HashSeqLaws}.

(** What the table of the statistics can hold. *)
Definition stats_table_ok (table : gmap Z TpTenantStatsEntry) : Prop :=
  forall tid e, table !! tid = Some e -> ts_tenant_id e = tid /\ stats_entry_ok e.

Lemma stats_table_empty : stats_table_ok ∅.
Proof. intros tid e. by rewrite lookup_empty. Qed.

(** The entries are those of the table, in the order of the scan. *)
Lemma stats_entries table : stats_table_ok table ->
  Forall stats_entry_ok (hash_seq table).*2 /\ zlen (hash_seq table).*2 = Z.of_nat (size table).
Proof.
  intros Htab. pose proof (hash_seq_perm _ _ table) as Hperm. split.
  - rewrite Hperm. apply Forall_fmap, Forall_forall.
    intros [tid e] Hin%elem_of_map_to_list. apply (Htab tid e Hin).
  - unfold zlen. by rewrite length_fmap, Hperm, length_map_to_list.
Qed.

Lemma write_stats_pages_ok st state table : storage_wf st -> 120 <= SEGMENT_DATA_PER_PAGE ->
  tenant_stats (memtable state) = Some table -> stats_table_ok table -> table <> ∅ ->
  nblocks st + Z.of_nat (size table) < InvalidBlockNumber ->
  ensures (tp_write_tenant_stats_pages state) st (fun _ st' =>
    exists pages, stats_chain st' (mp_first_tenant_stats_page (metapage_of st')) pages /\
      concat pages.*2 = (hash_seq table).*2 /\ NoDup pages.*1 /\ grown st st' (fun x => x = TP_METAPAGE_BLKNO) /\
      nblocks st' <= nblocks st + Z.of_nat (size table) /\
      metapage_of st' = set_first_tenant_stats_page (metapage_of st) (mp_first_tenant_stats_page (metapage_of st'))).
Proof.
  intros Hwf HP Est Htab Hne Hlim. destruct (stats_entries table Htab) as [Hok Hlen].
  set (entries := (hash_seq table).*2) in *.
  assert (Hnil : entries <> []).
  { intros E. rewrite E in Hlen. apply Hne, map_size_empty_inv. change (zlen []) with 0 in Hlen. lia. }
  unfold tp_write_tenant_stats_pages. apply ensures_bind. eapply ensures_lift.
  { unfold tp_tenant_stats_collect, mbind, rst_bind, rst_gets. by rewrite Est. }
  cbv beta iota. fold entries. rewrite <- Hlen. apply write_from_array_ok; [done..|lia].
Qed.

(** With or without tenants: only the metapage changes, and the relation grows. *)
Lemma write_stats_grows st state : storage_wf st -> 120 <= SEGMENT_DATA_PER_PAGE ->
  stats_table_ok (default ∅ (tenant_stats (memtable state))) ->
  nblocks st + Z.of_nat (size (default ∅ (tenant_stats (memtable state)))) < InvalidBlockNumber ->
  ensures (tp_write_tenant_stats_pages state) st (fun _ st' => exists b,
    grown st st' (fun x => x = TP_METAPAGE_BLKNO) /\
    nblocks st' <= nblocks st + Z.of_nat (size (default ∅ (tenant_stats (memtable state)))) /\
    metapage_of st' = set_first_tenant_stats_page (metapage_of st) b).
Proof.
  intros Hwf HP Htab Hlim. destruct (tenant_stats (memtable state)) as [table|] eqn:Est; cbn [default from_option id] in *.
  - destruct (decide (table = ∅)) as [E|Hne].
    + destruct (stats_entries table Htab) as [_ Hlen]. rewrite E, map_size_empty in Hlen.
      unfold tp_write_tenant_stats_pages. apply ensures_bind. eapply ensures_lift.
      { unfold tp_tenant_stats_collect, mbind, rst_bind, rst_gets. by rewrite Est. }
      cbv beta iota. unfold tp_write_tenant_stats_pages_from_array. rewrite E, Hlen, Z.eqb_refl.
      apply ensures_ret. exists (mp_first_tenant_stats_page (metapage_of st)).
      split; [by apply grown_refl|]. split; [lia|by destruct (metapage_of st)].
    + eapply ensures_mono; [by apply write_stats_pages_ok|]. intros [] st' (pages & _ & _ & _ & Hg & Hn & Em).
      by eexists.
  - unfold tp_write_tenant_stats_pages. apply ensures_bind. eapply ensures_lift.
    { unfold tp_tenant_stats_collect, mbind, rst_bind, rst_gets. by rewrite Est. }
    apply ensures_ret. exists (mp_first_tenant_stats_page (metapage_of st)).
    split; [by apply grown_refl|]. split; [lia|by destruct (metapage_of st)].
Qed.

(** C25: the tenant statistics survive a restart.  Writing the statistics of a
    memtable makes a chain of pages behind the metapage, touching no other page, and
    a memtable without statistics that reads the chain has the same table: every
    tenant with its number of documents and its total length, and no other tenant. *)
Theorem tenant_stats_survive (st : Storage) (state fresh : TpLocalIndexState)
    (table : gmap Z TpTenantStatsEntry) :
  storage_wf st -> 120 <= SEGMENT_DATA_PER_PAGE ->
  mp_magic (metapage_of st) = TP_METAPAGE_MAGIC -> mp_version (metapage_of st) = TP_METAPAGE_VERSION ->
  tenant_stats (memtable state) = Some table -> stats_table_ok table -> table <> ∅ ->
  nblocks st + Z.of_nat (size table) < InvalidBlockNumber -> tenant_stats (memtable fresh) = None ->
  ensures (tp_write_tenant_stats_pages state) st (fun _ st' =>
    (forall b, 0 < b < nblocks st -> page_at st' b = page_at st b) /\
    runs (fun st'' => st'' = st') (tp_read_tenant_stats_pages fresh) st'
      (let m := memtable fresh in
       set_memtable fresh (mkMemtable (string_table m) (total_terms m) (total_postings m) (doc_lengths m)
                             (Some table)))).
Proof.
  intros Hwf HP Hmag Hver Est Htab Hne Hlim Efresh.
  eapply ensures_mono; [by apply (write_stats_pages_ok st state table)|].
  intros [] st' (pages & Hc & Ecat & Hnd & Hg & Hn & Em). cbv beta. split.
  { intros b Hb. apply (gr_keep _ _ _ Hg); [split; lia|unfold TP_METAPAGE_BLKNO; lia]. }
  unfold tp_read_tenant_stats_pages, tp_get_metapage. pose proof (gr_wf _ _ _ Hg) as Hwf'.
  eapply (ensures_bind_runs (fun s => s = st')).
  { eapply ensures_bind_runs; [by apply read_metapage_runs|]. intros s ->. rewrite Em.
    cbn [mp_magic mp_version set_first_tenant_stats_page]. rewrite Hmag, Hver, !Z.eqb_refl. cbn [negb].
    rewrite <- Em. by apply ensures_ret. }
  intros s ->. apply ensures_bind, ensures_gets.
  eapply (ensures_bind_runs (fun s => s = st')); [apply read_chain_ok; [done|lia|exact Hc|]|].
  { pose proof (stats_chain_length _ _ _ Hc Hnd). lia. }
  intros s ->. apply ensures_ret. split; [|done]. rewrite Efresh, Ecat. cbv zeta. do 3 f_equal.
  apply map_eq. intros tid. cbn [default from_option id].
  rewrite accumulate_stats_map, lookup_empty by (intros; by eapply Htab). by destruct (table !! tid).
Qed.
End Survive.

(** ** Witness: fourteen tenants, on two pages *)

Section Witness.
#[local] Existing Instances wide_layout wide_layout_laws.

Definition demo_stats : gmap Z TpTenantStatsEntry :=
  list_to_map ((fun i => (i, mkTenantStatsEntry i (10 + i) (100 * i))) <$> seqZ 1 14).
Definition demo_stats_state : TpLocalIndexState :=
  mkIndexState 0 0 (mkMemtable None 0 0 None (Some demo_stats)) ∅ false 0 None.
Definition demo_fresh_state : TpLocalIndexState := mkIndexState 0 0 empty_memtable ∅ false 0 None.
Definition demo_metapage : Storage := mkStorage [tp_init_metapage 1 0; PageInit 0] [] 0.

Lemma demo_stats_ok : stats_table_ok demo_stats.
Proof.
  intros tid e Hl. unfold demo_stats in Hl.
  apply elem_of_list_to_map_2, list_elem_of_fmap in Hl as (i & [= -> ->] & Hi%elem_of_seqZ).
  split; [done|]. unfold stats_entry_ok. cbn. lia.
Qed.

Lemma demo_metapage_wf : storage_wf demo_metapage.
Proof. split; [forall_compute|constructor|constructor|by vm_compute]. Qed.

Lemma tenant_stats_survive_witness :
  stats_table_ok demo_stats /\
  ensures (tp_write_tenant_stats_pages demo_stats_state) demo_metapage (fun _ st' =>
    page_at st' 1 = page_at demo_metapage 1 /\
    exists state', tp_read_tenant_stats_pages demo_fresh_state st' = Ok (state', st') /\
      tenant_stats (memtable state') = Some demo_stats).
Proof.
  split; [exact demo_stats_ok|]. eapply ensures_mono.
  { apply (tenant_stats_survive demo_metapage demo_stats_state demo_fresh_state demo_stats).
    - exact demo_metapage_wf.
    - vm_compute. discriminate.
    - vm_compute. reflexivity.
    - vm_compute. reflexivity.
    - reflexivity.
    - exact demo_stats_ok.
    - intros E. apply (f_equal size) in E. vm_compute in E. discriminate.
    - vm_compute. reflexivity.
    - reflexivity. }
  intros [] st' [Hk (state' & st'' & E & -> & ->)]. split; [apply Hk; by vm_compute|].
  eexists. split; [exact E|reflexivity].
Defined.
End Witness.
