(* ===== verification/Merge.v ===== *)
(** * Merging the segments of a level (src/segment/merge.c)

    The dictionaries of the sources are merged term by term, the postings of each
    term are merged by CTID and renumbered through the merged document map, and the
    result is written as one segment of the next level; the metapage is switched to
    it and the pages of the sources are freed.

    A source's reader is a pointer that the term cursor, the posting cursors and the
    document pass share: the readers are state, an array indexed by source.  The
    storage changes while the merge writes, so every read names the storage it reads. *)
From S2P Require Import Prelude Postgres Fieldnorm SegmentFormat Compression Storage SegmentIO.
From S2P Require Import Docmap SegmentScan ScanFacts Memtable SegmentWrite Metapage.

(** ** Data *)

(** [current_term] is the C string; the reader is in the array of readers. *)
Record TpMergeSource := mkMergeSource {
  ms_current_idx : Z;
  ms_num_terms : Z;
  ms_current_term : list byte;
  ms_current_entry : TpDictEntry;
  ms_exhausted : bool;
  ms_string_offsets : list Z;
}.

Record TpTermSegmentRef := mkTermSegmentRef {
  sr_segment_idx : Z;
  sr_entry : TpDictEntry;
}.

Record TpMergedTerm := mkMergedTerm {
  mt_term : list byte;
  mt_segment_refs : list TpTermSegmentRef;
}.

Record TpMergePostingInfo := mkMergePosting {
  mp_ctid : ItemPointerData;
  mp_old_doc_id : Z;
  mp_frequency : Z;
  mp_fieldnorm : Z;
}.

Record TpPostingMergeSource := mkPostingSource {
  ps_source_idx : Z;
  ps_current : TpMergePostingInfo;
  ps_exhausted : bool;
  ps_skip_index_offset : Z;
  ps_block_count : Z;
  ps_current_block : Z;
  ps_current_in_block : Z;
  ps_skip_entry : TpSkipEntry;
  ps_block_postings : list TpBlockPosting;
}.

Record CollectedPosting := mkCollected {
  cp_ctid : ItemPointerData;
  cp_source_idx : Z;
  cp_old_doc_id : Z;
  cp_frequency : Z;
  cp_fieldnorm : Z;
  cp_tenant_id : Z;
}.

Abbreviation readers := (list TpSegmentReader).

(** A computation with the reader of source [i]. *)
Definition on_source {A} (i : Z) (m : rst TpSegmentReader A) : rst readers A := fun rs =>
  match zget rs i with
  | Some r => match m r with
              | Ok (a, r') => Ok (a, <[Z.to_nat i := r']> rs)
              | Err e => Err e
              end
  | None => Err OUT_OF_BOUNDS_ACCESS
  end.

Section Merge.
Context `{PgLayout} `{FreeSpaceMap} `{ItemPointerOps} `{QSort} `{HashSeq}.

Section Reading.
Context (st : Storage).
#[local] Instance access : SegmentAccess TpSegmentReader := reader_access st.
Abbreviation R := (rst TpSegmentReader).

(** ** Terms *)

Definition merge_read_term_at_index (source : TpMergeSource) (index : Z) : R (list byte) :=
  header ← rst_gets sheader;
  offset ← rst_lift (zread (ms_string_offsets source) index);
  let string_offset := u32 (strings_offset header + offset) in
  length ← read_u32 string_offset;
  text ← sread (u32 (string_offset + 4)) length;
  mret (c_str text).

Definition set_cursor (source : TpMergeSource) (idx : Z) (term : list byte) (entry : TpDictEntry)
    (exhausted : bool) : TpMergeSource :=
  mkMergeSource idx (ms_num_terms source) term entry exhausted (ms_string_offsets source).

Definition merge_source_advance (source : TpMergeSource) : R (bool * TpMergeSource) :=
  if ms_exhausted source then mret (false, source)
  else
    let idx := u32 (ms_current_idx source + 1) in
    if ms_num_terms source <=? idx
    then mret (false, set_cursor source idx [] (ms_current_entry source) true)
    else
      header ← rst_gets sheader;
      term ← merge_read_term_at_index source idx;
      entry ← read_dict_entry header idx;
      mret (true, set_cursor source idx term entry false).

(** [merge_source_init] on a reader that is open: [None] when there are no terms. *)
Definition merge_source_init : R (option TpMergeSource) :=
  header ← rst_gets sheader;
  let num_terms := SegmentFormat.num_terms header in
  if num_terms =? 0 then mret None
  else
    _ ← sread (dictionary_offset header) 4;
    bytes ← sread (u32 (dictionary_offset header + 4)) (u32 (4 * num_terms));
    let offsets := decode_array 4 le_value (Z.to_nat num_terms) bytes in
    '(ok, source) ← merge_source_advance
                      (mkMergeSource UINT32_MAX num_terms [] (mkDictEntry 0 0 0) false offsets);
    mret (if (ok : bool) then Some source else None).

(** The index of the smallest current term, from source [i] on. *)
Fixpoint find_min_source_from (i : Z) (min : option (Z * list byte)) (sources : list TpMergeSource)
    : option Z :=
  match sources with
  | [] => fst <$> min
  | source :: sources' =>
      let min' :=
        if ms_exhausted source then min
        else match min with
             | None => Some (i, ms_current_term source)
             | Some (_, min_term) =>
                 if strcmp (ms_current_term source) min_term <? 0
                 then Some (i, ms_current_term source) else min
             end in
      find_min_source_from (i + 1) min' sources'
  end.

Definition merge_find_min_source (sources : list TpMergeSource) : option Z :=
  find_min_source_from 0 None sources.

(** The sources that stand at the term are recorded and advanced. *)
Fixpoint collect_refs (term : list byte) (i : Z) (sources : list TpMergeSource)
    : rst readers (list TpTermSegmentRef * list TpMergeSource) :=
  match sources with
  | [] => mret ([], [])
  | source :: sources' =>
      if ms_exhausted source then
        '(refs, rest) ← collect_refs term (i + 1) sources';
        mret (refs, source :: rest)
      else if strcmp (ms_current_term source) term =? 0 then
        '(_, source1) ← on_source i (merge_source_advance source);
        '(refs, rest) ← collect_refs term (i + 1) sources';
        mret (mkTermSegmentRef i (ms_current_entry source) :: refs, source1 :: rest)
      else
        '(refs, rest) ← collect_refs term (i + 1) sources';
        mret (refs, source :: rest)
  end.

(** The N-way merge of the dictionaries. *)
Fixpoint merge_terms (fuel : nat) (sources : list TpMergeSource) : rst readers (list TpMergedTerm) :=
  match fuel with
  | O => rst_fail OUT_OF_FUEL
  | S fuel' =>
      match merge_find_min_source sources with
      | None => mret []
      | Some min_idx =>
          source ← rst_lift (zread sources min_idx);
          let term := ms_current_term source in
          '(refs, sources1) ← collect_refs term 0 sources;
          rest ← merge_terms fuel' sources1;
          mret (mkMergedTerm term refs :: rest)
      end
  end.

(** ** Postings *)

Definition merge_read_block (skip : TpSkipEntry) : R (list TpBlockPosting) :=
  if sk_flags skip =? TP_BLOCK_FLAG_DELTA then
    buf ← sread (sk_posting_offset skip) TP_MAX_COMPRESSED_BLOCK_SIZE;
    rst_lift (decompress_block (Z_of_byte <$> buf) (Z.to_nat (sk_doc_count skip)) 0)
  else
    decode_postings (sk_doc_count skip) <$> sread (sk_posting_offset skip) (sk_doc_count skip * 8).

Definition set_block (ps : TpPostingMergeSource) (current_in_block : Z) (skip : TpSkipEntry)
    (postings : list TpBlockPosting) : TpPostingMergeSource :=
  mkPostingSource (ps_source_idx ps) (ps_current ps) (ps_exhausted ps) (ps_skip_index_offset ps)
    (ps_block_count ps) (ps_current_block ps) current_in_block skip postings.

Definition set_place (ps : TpPostingMergeSource) (exhausted : bool) (block in_block : Z)
    : TpPostingMergeSource :=
  mkPostingSource (ps_source_idx ps) (ps_current ps) exhausted (ps_skip_index_offset ps)
    (ps_block_count ps) block in_block (ps_skip_entry ps) (ps_block_postings ps).

Definition posting_source_load_block (ps : TpPostingMergeSource) : R (bool * TpPostingMergeSource) :=
  if ps_block_count ps <=? ps_current_block ps then mret (false, ps)
  else
    skip ← tp_segment_read_skip_entry (mkDictEntry (ps_skip_index_offset ps) 0 0) (ps_current_block ps);
    postings ← merge_read_block skip;
    mret (true, set_block ps 0 skip postings).

Definition read_u16 (off : Z) : R Z := le_value <$> sread (u32 off) 2.

(** The CTID of a document, from the cached arrays or from the segment. *)
Definition read_ctid (doc_id : Z) : R ItemPointerData :=
  cached ← rst_gets sctids;
  match cached with
  | Some (pages, offsets) =>
      page ← rst_lift (zread pages doc_id);
      offset ← rst_lift (zread offsets doc_id);
      mret (mkItemPointer page offset)
  | None =>
      header ← rst_gets sheader;
      page ← read_u32 (ctid_pages_offset header + doc_id * 4);
      offset ← read_u16 (ctid_offsets_offset header + doc_id * 2);
      mret (mkItemPointer page offset)
  end.

Definition posting_source_convert_current (ps : TpPostingMergeSource) : R TpPostingMergeSource :=
  bp ← rst_lift (zread (ps_block_postings ps) (ps_current_in_block ps));
  ctid ← read_ctid (bp_doc_id bp);
  mret (mkPostingSource (ps_source_idx ps)
          (mkMergePosting ctid (bp_doc_id bp) (bp_frequency bp) (bp_fieldnorm bp)) (ps_exhausted ps)
          (ps_skip_index_offset ps) (ps_block_count ps) (ps_current_block ps) (ps_current_in_block ps)
          (ps_skip_entry ps) (ps_block_postings ps)).

Definition posting_source_init (source_idx : Z) (entry : TpDictEntry) : R TpPostingMergeSource :=
  let ps := mkPostingSource source_idx (mkMergePosting (mkItemPointer 0 0) 0 0 0)
              (de_block_count entry =? 0) (de_skip_index_offset entry) (de_block_count entry) 0 0
              (mkSkipEntry 0 0 0 0 0 0 0 0) [] in
  if ps_exhausted ps then mret ps
  else
    '(ok, ps1) ← posting_source_load_block ps;
    if (ok : bool) then posting_source_convert_current ps1
    else mret (set_place ps1 true (ps_current_block ps1) (ps_current_in_block ps1)).

(** [while (current_in_block >= doc_count)]: the block index grows to the count. *)
Fixpoint posting_source_next_block (fuel : nat) (ps : TpPostingMergeSource)
    : R (bool * TpPostingMergeSource) :=
  match fuel with
  | O => rst_fail OUT_OF_FUEL
  | S fuel' =>
      if sk_doc_count (ps_skip_entry ps) <=? ps_current_in_block ps then
        let ps1 := set_place ps (ps_exhausted ps) (ps_current_block ps + 1) (ps_current_in_block ps) in
        if ps_block_count ps1 <=? ps_current_block ps1
        then mret (false, set_place ps1 true (ps_current_block ps1) (ps_current_in_block ps1))
        else
          '(ok, ps2) ← posting_source_load_block ps1;
          if (ok : bool) then posting_source_next_block fuel' ps2
          else mret (false, set_place ps2 true (ps_current_block ps2) (ps_current_in_block ps2))
      else mret (true, ps)
  end.

Definition posting_source_advance (ps : TpPostingMergeSource) : R (bool * TpPostingMergeSource) :=
  if ps_exhausted ps then mret (false, ps)
  else
    let ps1 := set_place ps false (ps_current_block ps) (ps_current_in_block ps + 1) in
    '(ok, ps2) ← posting_source_next_block (S (S (Z.to_nat (ps_block_count ps)))) ps1;
    if negb ok then mret (false, ps2)
    else ps3 ← posting_source_convert_current ps2; mret (true, ps3).

(** The index of the smallest current CTID, from posting source [i] on. *)
Fixpoint find_min_posting_from (i : Z) (min : option (Z * ItemPointerData))
    (sources : list TpPostingMergeSource) : option Z :=
  match sources with
  | [] => fst <$> min
  | ps :: sources' =>
      let ctid := mp_ctid (ps_current ps) in
      let min' :=
        if ps_exhausted ps then min
        else match min with
             | None => Some (i, ctid)
             | Some (_, min_ctid) =>
                 if ItemPointerCompare ctid min_ctid <? 0 then Some (i, ctid) else min
             end in
      find_min_posting_from (i + 1) min' sources'
  end.

Definition find_min_posting_source (sources : list TpPostingMergeSource) : option Z :=
  find_min_posting_from 0 None sources.

Fixpoint init_posting_sources (refs : list TpTermSegmentRef) : rst readers (list TpPostingMergeSource) :=
  match refs with
  | [] => mret []
  | ref :: refs' =>
      ps ← on_source (sr_segment_idx ref) (posting_source_init (sr_segment_idx ref) (sr_entry ref));
      rest ← init_posting_sources refs';
      mret (ps :: rest)
  end.

(** Find the minimum, collect, advance. *)
Fixpoint collect_loop (fuel : nat) (psources : list TpPostingMergeSource)
    : rst readers (list CollectedPosting) :=
  match fuel with
  | O => rst_fail OUT_OF_FUEL
  | S fuel' =>
      match find_min_posting_source psources with
      | None => mret []
      | Some min_idx =>
          ps ← rst_lift (zread psources min_idx);
          let cur := ps_current ps in
          tenant ← on_source (ps_source_idx ps) (stenant_id (mp_old_doc_id cur));
          '(_, ps1) ← on_source (ps_source_idx ps) (posting_source_advance ps);
          rest ← collect_loop fuel' (<[Z.to_nat min_idx := ps1]> psources);
          mret (mkCollected (mp_ctid cur) (ps_source_idx ps) (mp_old_doc_id cur) (mp_frequency cur)
                  (mp_fieldnorm cur) tenant :: rest)
      end
  end.

(** At most 255 postings in a block. *)
Definition postings_bound (refs : list TpTermSegmentRef) : nat :=
  S (foldr (fun ref n => (256 * Z.to_nat (de_block_count (sr_entry ref)) + n)%nat) 0%nat refs).

Definition collect_term_postings (term : TpMergedTerm) : rst readers (list CollectedPosting) :=
  psources ← init_posting_sources (mt_segment_refs term);
  collect_loop (postings_bound (mt_segment_refs term)) psources.

(** ** Documents *)

Definition load_tenant_ids : R unit := fun r =>
  match tp_segment_load_tenant_ids st r with Ok r' => Ok (tt, r') | Err e => Err e end.

(** The documents [j], [j + 1], ... of a source, [n] of them. *)
Fixpoint add_source_docs (n : nat) (j : Z) (docmap : TpDocMapBuilder) : R TpDocMapBuilder :=
  match n with
  | O => mret docmap
  | S n' =>
      header ← rst_gets sheader;
      ctid ← read_ctid j;
      norm ← sread (u32 (fieldnorm_offset header + j)) 1;
      tid ← stenant_id j;
      '(_, docmap') ← rst_lift (tp_docmap_add docmap ctid (decode_fieldnorm (le_value norm)) tid);
      add_source_docs n' (j + 1) docmap'
  end.

Fixpoint add_sources (i : Z) (n : nat) (docmap : TpDocMapBuilder) : rst readers TpDocMapBuilder :=
  match n with
  | O => mret docmap
  | S n' =>
      header ← on_source i (rst_gets sheader);
      docmap' ←
        (if ctid_pages_offset header =? 0 then mret docmap
         else
           _ ← on_source i load_tenant_ids;
           on_source i (add_source_docs (Z.to_nat (SegmentFormat.num_docs header)) 0 docmap));
      add_sources (i + 1) n' docmap'
  end.

Fixpoint map_source_docs (n : nat) (j : Z) (docmap : TpDocMapBuilder) : R (list Z) :=
  match n with
  | O => mret []
  | S n' =>
      ctid ← read_ctid j;
      rest ← map_source_docs n' (j + 1) docmap;
      mret (tp_docmap_lookup docmap ctid :: rest)
  end.

(** [old_to_new], an array for each source. *)
Fixpoint map_sources (i : Z) (n : nat) (docmap : TpDocMapBuilder) : rst readers (list (list Z)) :=
  match n with
  | O => mret []
  | S n' =>
      header ← on_source i (rst_gets sheader);
      new_ids ←
        (if ctid_pages_offset header =? 0 then mret []
         else on_source i (map_source_docs (Z.to_nat (SegmentFormat.num_docs header)) 0 docmap));
      rest ← map_sources (i + 1) n' docmap;
      mret (new_ids :: rest)
  end.

Definition build_merged_docmap (num_sources : nat) : rst readers (TpDocMapBuilder * list (list Z)) :=
  docmap ← add_sources 0 num_sources tp_docmap_create;
  let docmap := tp_docmap_finalize docmap in
  mapping ← map_sources 0 num_sources docmap;
  mret (docmap, mapping).
End Reading.
End Merge.
