(* ===== verification/MergeWrite.v ===== *)
(** * Writing a merged segment, and compaction (src/segment/merge.c)

    [write_merged_segment] streams: the readers of the sources are read while the
    writer allocates pages, so its state is both.  [tp_merge_level_segments] replaces
    the segments of a level by one of the next, [tp_maybe_compact_level] repeats that
    as long as levels are full. *)
From S2P Require Import Prelude Postgres Fieldnorm SegmentFormat Compression Storage SegmentIO.
From S2P Require Import Docmap SegmentScan ScanFacts Memtable SegmentWrite Metapage Merge.

Section MergeWrite.
Context `{PgLayout} `{FreeSpaceMap} `{ItemPointerOps} `{QSort} `{HashSeq}.

Definition merge_state : Type := writer_state * readers.
Abbreviation M := (rst merge_state).

Definition on_writer {A} (m : rst writer_state A) : M A := fun '(stw, rs) =>
  match m stw with Ok (a, stw') => Ok (a, (stw', rs)) | Err e => Err e end.

(** The readers read the storage as it is at that moment. *)
Definition on_readers {A} (m : Storage -> rst readers A) : M A := fun '((st, w), rs) =>
  match m st rs with Ok (a, rs') => Ok (a, ((st, w), rs')) | Err e => Err e end.

(** ** Tenants *)

Definition decode_tenant_stats (bs : list byte) : TpTenantStats :=
  match decode_fields [4; 4; 8]%nat bs with
  | [t; n; l] => mkTenantStats t n l
  | _ => mkTenantStats 0 0 0
  end.

Definition read_segment_tenant_stats (st : Storage) : rst TpSegmentReader (list TpTenantStats) :=
  let access := reader_access st in
  header ← rst_gets sheader;
  if (Z.land (flags header) TP_FLAG_HAS_TENANT_DATA =? 0) || (tenant_stats_offset header =? 0)
  then mret []
  else
    count ← read_u32 (tenant_stats_offset header);
    if count =? 0 then mret []
    else
      bs ← sread (u32 (tenant_stats_offset header + 4)) (u32 (count * 16));
      mret (decode_array 16 decode_tenant_stats (Z.to_nat count) bs).

Definition add_tenant_stats (accum : gmap Z TpTenantStats) (s : TpTenantStats) : gmap Z TpTenantStats :=
  <[tst_tenant_id s :=
      match accum !! tst_tenant_id s with
      | None => s
      | Some e => mkTenantStats (tst_tenant_id e) (u32 (tst_num_docs e + tst_num_docs s))
                    (u64 (tst_total_tokens e + tst_total_tokens s))
      end]> accum.

Fixpoint merge_tenant_stats (st : Storage) (i : Z) (n : nat) (accum : gmap Z TpTenantStats)
    : rst readers (gmap Z TpTenantStats) :=
  match n with
  | O => mret accum
  | S n' =>
      stats ← on_source i (read_segment_tenant_stats st);
      merge_tenant_stats st (i + 1) n' (foldl add_tenant_stats accum stats)
  end.

(** The documents of a term by tenant; tenant 0 is not counted. *)
Definition count_collected (tht : gmap Z Z) (p : CollectedPosting) : gmap Z Z :=
  if cp_tenant_id p =? 0 then tht
  else <[cp_tenant_id p :=
          match tht !! cp_tenant_id p with None => 1 | Some df => u32 (df + 1) end]> tht.

Fixpoint merged_docfreqs (st : Storage) (terms : list TpMergedTerm) : rst readers (list (list (Z * Z))) :=
  match terms with
  | [] => mret []
  | term :: terms' =>
      tpostings ← collect_term_postings st term;
      rest ← merged_docfreqs st terms';
      mret (qsort compare_tenant_first (hash_seq (foldl count_collected ∅ tpostings)) :: rest)
  end.

Definition write_merged_tenant_sections (num_sources : nat) (terms : list TpMergedTerm) : M (Z * Z) :=
  stats_offset ← on_writer current_offset;
  accum ← on_readers (fun st => merge_tenant_stats st 0 num_sources ∅);
  let stats := (hash_seq accum).*2 in
  _ ← on_writer (write (u32_bytes (zlen stats)));
  _ ← on_writer (write_if (0 <? zlen stats)
                   (encode_array encode_tenant_stats (qsort compare_tenant_stats stats)));
  docfreq_offset ← on_writer current_offset;
  dfs ← on_readers (fun st => merged_docfreqs st terms);
  _ ← on_writer (write (encode_array u32_bytes (running_offsets 0 ((fun df => 4 + zlen df * 8) <$> dfs))));
  _ ← on_writer (write_tenant_dfs dfs);
  mret (stats_offset, docfreq_offset).

(** ** Postings *)

(** Document identifiers of the merged segment. *)
Fixpoint convert_collected (old_to_new : list (list Z)) (postings : list CollectedPosting)
    : res (list TpBlockPosting) :=
  match postings with
  | [] => Ok []
  | p :: postings' =>
      new_ids ← zread old_to_new (cp_source_idx p);
      new_doc_id ← zread new_ids (cp_old_doc_id p);
      rest ← convert_collected old_to_new postings';
      Ok (mkBlockPosting new_doc_id (cp_frequency p) (cp_fieldnorm p) :: rest)
  end.

Definition merge_cmp_block_posting_by_doc_id (a b : TpBlockPosting) : Z :=
  if bp_doc_id a <? bp_doc_id b then -1
  else if bp_doc_id b <? bp_doc_id a then 1 else 0.

Context (tp_compress_segments : bool).

(** One round of the streaming pass. *)
Definition write_merged_term (docmap : TpDocMapBuilder) (old_to_new : list (list Z))
    (skip_entries_count : Z) (term : TpMergedTerm) : M (TermBlockInfo * list TpSkipEntry) :=
  posting_offset ← on_writer current_offset;
  postings ← on_readers (fun st => collect_term_postings st term);
  let doc_count := zlen postings in
  if doc_count =? 0
  then mret (mkTermBlockInfo posting_offset 0 doc_count skip_entries_count, [])
  else
    let num_blocks := (doc_count + TP_BLOCK_SIZE - 1) / TP_BLOCK_SIZE in
    block_postings ← rst_lift (convert_collected old_to_new postings);
    skips ← on_writer (write_blocks tp_compress_segments (Z.to_nat num_blocks) true docmap
                         (qsort merge_cmp_block_posting_by_doc_id block_postings));
    mret (mkTermBlockInfo posting_offset (u16 num_blocks) doc_count skip_entries_count, skips).

Fixpoint write_merged_terms (docmap : TpDocMapBuilder) (old_to_new : list (list Z))
    (skip_entries_count : Z) (terms : list TpMergedTerm) : M (list TermBlockInfo * list TpSkipEntry) :=
  match terms with
  | [] => mret ([], [])
  | term :: terms' =>
      '(info, skips) ← write_merged_term docmap old_to_new skip_entries_count term;
      '(infos, skips') ← write_merged_terms docmap old_to_new (skip_entries_count + zlen skips) terms';
      mret (info :: infos, skips ++ skips')
  end.

(** ** The segment *)

Definition has_tenant_data (r : TpSegmentReader) : bool :=
  negb (Z.land (flags (r_header r)) TP_FLAG_HAS_TENANT_DATA =? 0).

(** The string pool needs the text and its length. *)
Definition merged_term_info (term : TpMergedTerm) : TermInfo :=
  mkTermInfo (mt_term term) (zlen (mt_term term)) InvalidDsaPointer.

Definition merged_initial_header (now num_terms level docs total : Z) : TpSegmentHeader :=
  mkSegmentHeader TP_SEGMENT_MAGIC TP_SEGMENT_FORMAT_VERSION now 0 0 level InvalidBlockNumber
    0 0 0 0 0 0 0 0 num_terms docs total 0 0 0 0 0 0.

(** The header fields that are updated on disk; the dictionary offset is one. *)
Definition merged_final_header (existing header : TpSegmentHeader) : TpSegmentHeader :=
  mkSegmentHeader (magic existing) (version existing) (created_at existing) (num_pages header)
    (data_size header) (level existing) (next_segment existing) (dictionary_offset header)
    (strings_offset header) (entries_offset header) (postings_offset header)
    (skip_index_offset header) (fieldnorm_offset header) (ctid_pages_offset header)
    (ctid_offsets_offset header) (SegmentFormat.num_terms existing)
    (SegmentFormat.num_docs header) (total_tokens existing) (page_index header)
    (tenant_map_offset header) (tenant_stats_offset header) (tenant_docfreq_offset header)
    (tenant_ranges_offset header) (flags header).

(** Everything that goes through the writer. *)
Definition write_merged_sections (now target_level total : Z) (num_sources : nat)
    (docmap : TpDocMapBuilder) (old_to_new : list (list Z)) (terms : list TpMergedTerm)
    : M (TpSegmentHeader * list TermBlockInfo) :=
  let h0 := merged_initial_header now (zlen terms) target_level (num_docs docmap) total in
  '(strings_off, entries_off, postings_off) ←
    on_writer (write_dictionary h0 (merged_term_info <$> terms));
  '(infos, skips) ← write_merged_terms docmap old_to_new 0 terms;
  '(skip_off, fieldnorm_off, pages_off, offsets_off, map_off) ←
    on_writer (write_document_sections true docmap skips);
  any_tenant ← rst_gets (fun s : merge_state => existsb has_tenant_data s.2);
  '(stats_off, docfreq_off) ←
    (if (any_tenant : bool) then write_merged_tenant_sections num_sources terms else mret (0, 0));
  ranges_off ← on_writer (write_tenant_ranges docmap);
  data_size ← on_writer current_offset;
  let flags := Z.lor (if (any_tenant : bool) then TP_FLAG_HAS_TENANT_DATA else 0)
                 (if tenant_ordered docmap && (0 <? zlen (tenant_ranges docmap))
                  then TP_FLAG_TENANT_ORDERED else 0) in
  mret (mkSegmentHeader (magic h0) (version h0) (created_at h0) 0 data_size (level h0)
          (next_segment h0) 104 strings_off entries_off postings_off skip_off
          fieldnorm_off pages_off offsets_off (SegmentFormat.num_terms h0) (num_docs docmap)
          (total_tokens h0) 0 map_off stats_off docfreq_off ranges_off flags,
        infos).

Definition write_merged_segment (now target_level total : Z) (terms : list TpMergedTerm)
    (st : Storage) (rs : readers) : res (Z * Storage) :=
  if zlen terms =? 0 then Ok (InvalidBlockNumber, st)
  else
    '(docmap, old_to_new, rs1) ← build_merged_docmap st (length rs) rs;
    '(st1, w) ← tp_segment_writer_init st;
    '(header, infos, ((st2, w2), _)) ←
      write_merged_sections now target_level total (length rs) docmap old_to_new terms ((st1, w), rs1);
    finish_segment merged_final_header st2 w2 header infos.

(** ** Levels *)

(** [merge_source_init]: the source opens a reader of its own. *)
Definition merge_source_open (st : Storage) (root : Z) : res (option (TpMergeSource * TpSegmentReader)) :=
  reader ← tp_segment_open st root;
  match reader with
  | None => Ok None
  | Some r =>
      match merge_source_init st r with
      | Ok (Some source, r') => Ok (Some (source, r'))
      | Ok (None, _) => Ok None
      | Err e => Err e
      end
  end.

Record LevelSources := mkLevelSources {
  ls_sources : list (TpMergeSource * TpSegmentReader);
  ls_total_tokens : Z;
  ls_segment_pages : list (list Z);
}.

(** The segments of the chain: their pages are tracked in an array of
    [segment_count], the ones with terms become sources. *)
Fixpoint open_sources (fuel : nat) (st : Storage) (segment_count current : Z) (acc : LevelSources)
    : res LevelSources :=
  match fuel with
  | O => Err OUT_OF_FUEL
  | S fuel' =>
      if (current =? InvalidBlockNumber) || (segment_count <=? zlen (ls_sources acc)) then Ok acc
      else
        reader ← tp_segment_open st current;
        match reader with
        | None => Ok acc
        | Some r =>
            let next := next_segment (r_header r) in
            let seg_tokens := total_tokens (r_header r) in
            if segment_count <=? zlen (ls_segment_pages acc) then Err OUT_OF_BOUNDS_ACCESS
            else
              pages ← tp_segment_collect_pages st current;
              let tracked := ls_segment_pages acc ++ [pages] in
              source ← merge_source_open st current;
              match source with
              | Some s =>
                  open_sources fuel' st segment_count next
                    (mkLevelSources (ls_sources acc ++ [s]) (u64 (ls_total_tokens acc + seg_tokens)) tracked)
              | None =>
                  open_sources fuel' st segment_count next
                    (mkLevelSources (ls_sources acc) (ls_total_tokens acc) tracked)
              end
        end
  end.

Definition set_levels (m : TpIndexMetaPageData) (heads counts : list Z) : TpIndexMetaPageData :=
  mkMetaPage (mp_magic m) (mp_version m) (mp_text_config_oid m) (mp_pad0 m) (mp_total_docs m)
    (mp_total_terms m) (mp_total_len m) (mp_k1 m) (mp_b m) (mp_root_blkno m) (mp_term_stats_root m)
    (mp_first_docid_page m) heads counts (mp_tenant_column_attno m) (mp_first_tenant_stats_page m)
    (mp_indexed_type m) (mp_pad1 m).

(** [seg_header->next_segment = next] *)
Definition set_next_segment (block next : Z) : rst Storage unit :=
  overwrite_page block 28 (u32_bytes next).

(** The metapage switches to the merged segment. *)
Definition switch_levels (level : nat) (new_segment : Z) : rst Storage unit :=
  m ← read_metapage;
  let heads := <[level := InvalidBlockNumber]> (mp_level_heads m) in
  let counts := <[level := 0]> (mp_level_counts m) in
  head ← rst_lift (zread heads (Z.of_nat level + 1));
  count ← rst_lift (zread counts (Z.of_nat level + 1));
  _ ← (if head =? InvalidBlockNumber then mret tt else set_next_segment new_segment head);
  write_metapage (set_levels m (<[S level := new_segment]> heads) (<[S level := u16 (count + 1)]> counts)).

(** The pages of the sources go to the free space map. *)
Fixpoint free_all (st : Storage) (segment_pages : list (list Z)) : res Storage :=
  match segment_pages with
  | [] => Ok st
  | pages :: rest => st1 ← tp_segment_free_pages st pages; free_all st1 rest
  end.

(** At most one term a round: as many rounds as the sources have terms. *)
Definition terms_bound (sources : list TpMergeSource) : nat :=
  S (foldr (fun s n => (Z.to_nat (ms_num_terms s) + n)%nat) 0%nat sources).

Definition tp_merge_level_segments (now : Z) (level : nat) : rst Storage Z := fun st =>
  if (TP_MAX_LEVELS - 1 <=? level)%nat then Ok (InvalidBlockNumber, st)
  else
    '(m, _) ← read_metapage st;
    first_segment ← zread (mp_level_heads m) (Z.of_nat level);
    segment_count ← zread (mp_level_counts m) (Z.of_nat level);
    if (first_segment =? InvalidBlockNumber) || (segment_count =? 0) then Ok (InvalidBlockNumber, st)
    else
      ls ← open_sources (S (S (Z.to_nat (nblocks st)))) st segment_count first_segment
             (mkLevelSources [] 0 []);
      if zlen (ls_sources ls) =? 0 then Ok (InvalidBlockNumber, st)
      else
        let sources := (ls_sources ls).*1 in
        '(terms, rs) ← merge_terms st (terms_bound sources) sources (ls_sources ls).*2;
        '(new_segment, st1) ←
          write_merged_segment now (Z.of_nat level + 1) (ls_total_tokens ls) terms st rs;
        if new_segment =? InvalidBlockNumber then Ok (InvalidBlockNumber, st1)
        else
          '(_, st2) ← switch_levels level new_segment st1;
          st3 ← free_all st2 (ls_segment_pages ls);
          Ok (new_segment, st3).

Context (tp_segments_per_level : Z).

(** [levels]: the levels from [level] on that can be merged. *)
Fixpoint compact_levels (now : Z) (levels level : nat) : rst Storage unit :=
  match levels with
  | O => mret tt
  | S levels' =>
      m ← read_metapage;
      level_count ← rst_lift (zread (mp_level_counts m) (Z.of_nat level));
      if level_count <? u16 tp_segments_per_level then mret tt
      else
        new_segment ← tp_merge_level_segments now level;
        if new_segment =? InvalidBlockNumber then mret tt
        else compact_levels now levels' (S level)
  end.

Definition tp_maybe_compact_level (now : Z) (level : nat) : rst Storage unit :=
  compact_levels now (TP_MAX_LEVELS - 1 - level) level.
End MergeWrite.
