(* ===== verification/Lifecycle.v ===== *)
(** * The life of an index (src/am/build.c, src/state/state.c)

    An open index is the state of its memtable, its pages and the docid cache of the
    backend.  A spill writes the memtable as a segment, clears it, makes the segment
    the head of level 0 and compacts; it happens after an insertion
    ([tp_auto_spill_if_needed]), on request ([tp_spill_memtable]) and before a commit
    ([tp_bulk_load_spill_check]). *)
From S2P Require Import Prelude Postgres SegmentFormat Storage SegmentIO Memtable SegmentWrite Metapage.
From S2P Require Import TenantPages Merge MergeWrite.

Record Index := mkIndex {
  ix_state : TpLocalIndexState;
  ix_storage : Storage;
  ix_docid_cache : TpDocidWriterState;
}.

(** ** Parts of an index *)

Definition on_state {A} (m : rst TpLocalIndexState A) : rst Index A := fun ix =>
  '(a, st) ← m (ix_state ix); Ok (a, mkIndex st (ix_storage ix) (ix_docid_cache ix)).

Definition on_storage {A} (m : rst Storage A) : rst Index A := fun ix =>
  '(a, st) ← m (ix_storage ix); Ok (a, mkIndex (ix_state ix) st (ix_docid_cache ix)).

(** An operation on the docid pages, which may change the cache. *)
Definition on_docids (m : TpDocidWriterState -> rst Storage TpDocidWriterState) : rst Index unit := fun ix =>
  '(cache, st) ← m (ix_docid_cache ix) (ix_storage ix); Ok (tt, mkIndex (ix_state ix) st cache).

Section Lifecycle.
Context `{PgLayout} `{FreeSpaceMap} `{ItemPointerOps} `{QSort} `{HashSeq} `{DsaAllocator}.
(** The settings. *)
Context (tp_compress_segments : bool) (tp_segments_per_level now : Z).

(** ** Spilling *)

Definition write_memtable : rst Index Z := fun ix =>
  '(segment_root, st) ← tp_write_segment tp_compress_segments now (ix_state ix) (ix_storage ix);
  Ok (segment_root, mkIndex (ix_state ix) st (ix_docid_cache ix)).

(** The new segment becomes the head of level 0; the statistics of the corpus are
    stored.  Returns the attribute number of the tenant column. *)
Definition push_level0 (segment_root total_docs total_len : Z) : rst Storage Z :=
  m ← read_metapage;
  head ← rst_lift (zread (mp_level_heads m) 0);
  count ← rst_lift (zread (mp_level_counts m) 0);
  _ ← (if head =? InvalidBlockNumber then mret tt else set_next_segment segment_root head);
  _ ← write_metapage
        (set_totals (set_levels m (<[0%nat := segment_root]> (mp_level_heads m))
                       (<[0%nat := u16 (count + 1)]> (mp_level_counts m)))
           (u64 total_docs) (u64 total_len));
  mret (mp_tenant_column_attno m).

(** A spill up to the compaction. *)
Definition spill_segment (clear_docids : bool) : rst Index Z :=
  segment_root ← write_memtable;
  if segment_root =? InvalidBlockNumber then mret segment_root
  else
    _ ← on_state tp_clear_memtable;
    _ ← (if clear_docids then on_docids tp_clear_docid_pages else mret tt);
    state ← rst_gets ix_state;
    tenant_attno ← on_storage (push_level0 segment_root (total_docs state) (total_len state));
    _ ← (if tenant_attno =? 0 then mret tt else on_storage (tp_write_tenant_stats_pages state));
    mret segment_root.

Definition spill (clear_docids : bool) : rst Index Z :=
  segment_root ← spill_segment clear_docids;
  if segment_root =? InvalidBlockNumber then mret segment_root
  else
    _ ← on_storage (tp_maybe_compact_level tp_compress_segments tp_segments_per_level now 0);
    mret segment_root.

Definition tp_auto_spill_if_needed (tp_memtable_spill_threshold : Z) : rst Index unit :=
  state ← rst_gets ix_state;
  if tp_memtable_spill_threshold <=? 0 then mret tt
  else if total_postings (memtable state) <? tp_memtable_spill_threshold then mret tt
  else _ ← spill true; mret tt.

(** [None] is SQL's NULL. *)
Definition tp_spill_memtable : rst Index (option Z) :=
  segment_root ← spill false;
  mret (if segment_root =? InvalidBlockNumber then None else Some segment_root).

(** The indexes of the backend, in the order of the scan of its cache. *)
Fixpoint tp_bulk_load_spill_check (tp_bulk_load_threshold : Z) (indexes : list Index) : res (list Index) :=
  if tp_bulk_load_threshold <=? 0 then Ok indexes
  else
    match indexes with
    | [] => Ok []
    | ix :: rest =>
        ix' ← (if terms_added_this_xact (ix_state ix) <? tp_bulk_load_threshold then Ok ix
               else '(_, ix1) ← spill false ix; Ok ix1);
        rest' ← tp_bulk_load_spill_check tp_bulk_load_threshold rest;
        Ok (ix' :: rest')
    end.

Definition tp_reset_bulk_load_counters (indexes : list Index) : list Index :=
  (fun ix =>
     let st := ix_state ix in
     mkIndex (mkIndexState (total_docs st) (total_len st) (memtable st) (dsa st) (is_build_mode st) 0
                (build_tenant_stats_accum st)) (ix_storage ix) (ix_docid_cache ix)) <$> indexes.

(** ** Documents as term vectors *)

(** Terms, frequencies and the length of the document, an [int]. *)
Definition tp_extract_terms_from_tsvector (tsvector : TSVector) : list (list byte) * list Z * Z :=
  let frequencies := (fun we => default 1 we.2) <$> tsvector in
  (tsvector.*1, frequencies, foldl (fun doc_length f => i32 (doc_length + f)) 0 frequencies).

(** The part that both kinds of documents share.  Without a threshold there is no
    automatic spill ([index_rel] is NULL). *)
Definition process_terms (spill_threshold : option Z) (ctid : ItemPointerData) (terms : list (list byte))
    (frequencies : list Z) (doc_length tenant_id : Z) : rst Index unit :=
  if 0 <? zlen terms then
    _ ← on_state (tp_add_document_terms ctid terms frequencies doc_length tenant_id);
    match spill_threshold with
    | Some threshold => tp_auto_spill_if_needed threshold
    | None => mret tt
    end
  else mret tt.

(** [None] is the result [false]; otherwise the length of the document. *)
Definition tp_process_document_tsvector (spill_threshold : option Z) (tsvector : TSVector)
    (ctid : ItemPointerData) (tenant_id : Z) : rst Index (option Z) :=
  if negb (ItemPointerIsValid ctid) then mret None
  else
    let '(terms, frequencies, doc_length) := tp_extract_terms_from_tsvector tsvector in
    _ ← process_terms spill_threshold ctid terms frequencies doc_length tenant_id;
    mret (Some doc_length).

(** ** Statistics of the terms

    The sum itself is never read; the operation also counts the terms. *)
Definition tp_calculate_idf_sum : rst TpLocalIndexState unit :=
  state ← rst_gets (fun state => state);
  let m := memtable state in
  if total_docs state =? 0 then mret tt
  else
    match string_table m with
    | None => mret tt
    | Some ht =>
        let term_count := zlen (filter (fun e => DsaPointerIsValid (key_posting_list e) = true) (hash_seq ht).*2) in
        rst_modify (fun st => set_memtable st
          (mkMemtable (string_table m) term_count (total_postings m) (doc_lengths m) (tenant_stats m)))
    end.

(** ** Inserting a document (tp_insert, after the document is vectorised)

    A document without terms is not added; its CTID is recorded all the same. *)
Definition tp_insert (tp_memtable_spill_threshold index_oid : Z) (ht_ctid : ItemPointerData)
    (terms : list (list byte)) (frequencies : list Z) (doc_length tenant_id : Z) : rst Index unit :=
  _ ← (if negb (ItemPointerIsValid ht_ctid) then mret tt
       else process_terms (Some tp_memtable_spill_threshold) ht_ctid terms frequencies doc_length tenant_id);
  _ ← on_docids (tp_add_docid_to_pages index_oid ht_ctid);
  on_state tp_calculate_idf_sum.

(** ** Recovery (src/state/state.c)

    A heap has a number of blocks and, for a CTID, perhaps a tuple: the bytes of the
    indexed column, unless it is NULL, and the tenant, unless it is NULL. *)
Record HeapTuple := mkHeapTuple {
  t_text : option (list byte);
  t_tenant : option Z;
}.

Record HeapRelation := mkHeapRelation {
  h_blocks : Z;
  heap_fetch : ItemPointerData -> option HeapTuple;
}.

Section Recovery.
(** The text search configuration, by its Oid. *)
Context (to_tsvector_byid : Z -> list byte -> TSVector).

Definition tp_process_document_text (spill_threshold : option Z) (document_text : list byte)
    (ctid : ItemPointerData) (text_config_oid tenant_id : Z) : rst Index (option Z) :=
  if negb (ItemPointerIsValid ctid) then mret None
  else
    let '(terms, frequencies, doc_length) :=
      tp_extract_terms_from_tsvector (to_tsvector_byid text_config_oid document_text) in
    _ ← process_terms spill_threshold ctid terms frequencies doc_length tenant_id;
    mret (Some doc_length).

(** A document is counted a second time; [tp_rebuild_index_from_disk] sets the totals. *)
Definition count_recovered (doc_length : Z) : rst TpLocalIndexState unit :=
  rst_modify (fun st =>
    mkIndexState (i32 (total_docs st + 1)) (i64 (total_len st + doc_length)) (memtable st) (dsa st)
      (is_build_mode st) (terms_added_this_xact st) (build_tenant_stats_accum st)).

(** One CTID of a docid page. *)
Definition recover_document (heap : HeapRelation) (m : TpIndexMetaPageData) (ctid : ItemPointerData) : rst Index unit :=
  if negb (ItemPointerIsValid ctid) then mret tt
  else if h_blocks heap <=? ip_blkid ctid then mret tt
  else
    match heap_fetch heap ctid with
    | None => mret tt
    | Some tuple =>
        match t_text tuple with
        | None => mret tt
        | Some document_text =>
            let tenant_id := if mp_tenant_column_attno m =? 0 then 0 else default 0 (t_tenant tuple) in
            processed ← tp_process_document_text None document_text ctid (mp_text_config_oid m) tenant_id;
            match processed with
            | Some doc_length => on_state (count_recovered doc_length)
            | None => mret tt
            end
        end
    end.

Fixpoint recover_documents (heap : HeapRelation) (m : TpIndexMetaPageData) (ctids : list ItemPointerData)
    : rst Index unit :=
  match ctids with
  | [] => mret tt
  | ctid :: rest => _ ← recover_document heap m ctid; recover_documents heap m rest
  end.

(** Recovering a document changes no page, so the chain is read at once; an error in
    it aborts the recovery. *)
Definition tp_rebuild_posting_lists_from_docids (heap : HeapRelation) (m : TpIndexMetaPageData) : rst Index unit :=
  if mp_first_docid_page m =? InvalidBlockNumber then mret tt
  else
    ctids ← on_storage (fuel ← rst_gets (fun st => S (S (Z.to_nat (nblocks st))));
                        read_docid_pages fuel (mp_first_docid_page m));
    _ ← recover_documents heap m ctids;
    on_state (rst_modify (fun st =>
      mkIndexState (total_docs st) (total_len st) (memtable st) (dsa st) (is_build_mode st) 0
        (build_tenant_stats_accum st))).

(** The state of an index that is opened, in the area of the registry. *)
Definition tp_create_shared_index_state : rst TpLocalIndexState unit :=
  rst_modify (fun st => mkIndexState 0 0 empty_memtable (dsa st) false 0 (build_tenant_stats_accum st)).

(** The totals of the metapage, 64-bit unsigned, become an [int32] and an [int64]. *)
Definition load_totals (m : TpIndexMetaPageData) : rst TpLocalIndexState unit :=
  rst_modify (fun st =>
    mkIndexState (i32 (mp_total_docs m)) (i64 (mp_total_len m)) (memtable st) (dsa st) (is_build_mode st)
      (terms_added_this_xact st) (build_tenant_stats_accum st)).

Definition read_tenant_stats : rst Index unit := fun ix =>
  '(state, st) ← tp_read_tenant_stats_pages (ix_state ix) (ix_storage ix);
  Ok (tt, mkIndex state st (ix_docid_cache ix)).

Definition tp_rebuild_index_from_disk (heap : HeapRelation) : rst Index unit :=
  m ← on_storage tp_get_metapage;
  head ← rst_lift (zread (mp_level_heads m) 0);
  if (h_blocks heap =? 0) && (0 <? mp_total_docs m) then on_state tp_create_shared_index_state
  else if (mp_total_docs m =? 0) && (mp_first_docid_page m =? InvalidBlockNumber) && (head =? InvalidBlockNumber)
  then on_state tp_create_shared_index_state
  else
    _ ← on_state tp_create_shared_index_state;
    _ ← tp_rebuild_posting_lists_from_docids heap m;
    _ ← on_state (load_totals m);
    _ ← (if negb (mp_tenant_column_attno m =? 0) && negb (mp_first_tenant_stats_page m =? InvalidBlockNumber)
         then read_tenant_stats else mret tt);
    on_state tp_calculate_idf_sum.
End Recovery.
End Lifecycle.
