(* ===== verification/MergeReaders.v ===== *)
(** * The readers of a merge

    A source of a merge is a segment on pages that stay as they are; its reader,
    opened without the CTIDs, is shared by the term cursor, the posting cursors and
    the document pass.  [source_reader] is what all of them keep true of it, and
    [merge_access_laws] makes it an instance of the interface the scan is proved
    against, so that the reads of the dictionary and of the blocks are those of
    ScanFacts. *)
From S2P Require Import Prelude Postgres Fieldnorm SegmentFormat Compression Storage SegmentIO.
From S2P Require Import Docmap SegmentScan ScanFacts Memtable SegmentWrite SegmentWriteFacts.
From S2P Require Import SegmentEmit SegmentLayout SegmentOpen SegmentContent Merge MergeWrite.

(** ** Sources *)

(** [so_dict]: the terms with their dictionary entries. *)
Record source := mkSource {
  so_pages : list Z;
  so_header : TpSegmentHeader;
  so_content : segment_content;
  so_dict : list (list byte * TpDictEntry);
}.

Abbreviation so_docs src := (sc_docs (so_content src)).

(** The tenants a reader of the source caches. *)
Definition source_tenants (src : source) : option (list Z) :=
  let h := so_header src in
  if (SegmentFormat.num_docs h =? 0) || (tenant_map_offset h =? 0)
     || (Z.land (flags h) TP_FLAG_HAS_TENANT_DATA =? 0)
  then None else Some (sd_tenant <$> so_docs src).

Section Readers.
Context `{PgLayoutLaws} `{FreeSpaceMapLaws} `{ItemPointerOps} `{QSort} `{HashSeq}.

(** The postings of the terms are where their entries say. *)
Record source_at (st : Storage) (src : source) : Prop := {
  sat_wf : storage_wf st;
  sat_in : Forall (in_relation st) (so_pages src);
  sat_holds : stream_holds (so_header src) (stream st (so_pages src)) (so_content src);
  sat_dict : dictionary_at (so_header src) (stream st (so_pages src)) (so_dict src).*1 (so_dict src).*2;
  sat_terms : (so_dict src).*1 = (sc_terms (so_content src)).*1;
  sat_blocks : forall t de, (t, de) ∈ so_dict src -> exists bls,
    blocks_at (stream st (so_pages src)) de bls /\
    all_postings bls = content_postings (so_content src) t;
}.

(** A segment is a source. *)
Lemma segment_source st block pages bs h c : segment_at st block pages bs h c ->
  exists dict, source_at st (mkSource pages h c dict).
Proof.
  intros [Hsp _ _ Hh]. destruct (sh_terms _ _ _ Hh) as [(entries & Hd & Hb) _].
  pose proof (da_lengths _ _ _ _ Hd) as El. exists (zip (sc_terms c).*1 entries).
  assert (E1 : (zip (sc_terms c).*1 entries).*1 = (sc_terms c).*1) by (apply fst_zip; lia).
  assert (E2 : (zip (sc_terms c).*1 entries).*2 = entries) by (apply snd_zip; lia).
  split; cbn [so_pages so_header so_content so_dict]; rewrite ?E1, ?E2; try done.
  - apply (sp_wf _ _ _ _ _ Hsp).
  - apply (sp_in _ _ _ _ _ Hsp).
  - intros t de (i & Hi)%list_elem_of_lookup.
    apply lookup_zip_with_Some in Hi as (t' & e' & [= <- <-] & Ht & He).
    rewrite list_lookup_fmap in Ht. destruct (sc_terms c !! i) as [[t' ps]|] eqn:Ei; [|done].
    injection Ht as <-. destruct (Hb i t' ps Ei) as (de' & bls & He' & Hbl & <-).
    exists bls. replace de with de' by congruence. split; [done|]. symmetry.
    apply (content_postings_lookup c i); [|done]. apply (da_sorted _ _ _ _ Hd).
Qed.

Record source_reader (st : Storage) (src : source) (r : TpSegmentReader) : Prop := {
  sr_ok : reader_ok st (so_pages src) r;
  sr_header : r_header r = so_header src;
  sr_ctids : r_cached_ctids r = None;
  sr_tenants : r_cached_tenant_ids r =
    if r_tenant_ids_loaded r then source_tenants src else None;
}.

(** Pages that keep their contents keep the source and its reader. *)
Record source_kept (st st' : Storage) (src : source) : Prop := {
  sk_wf : storage_wf st';
  sk_in : Forall (in_relation st') (so_pages src);
  sk_data : forall b, b ∈ so_pages src -> page_data st' b = page_data st b;
}.

Lemma source_at_kept st st' src : source_kept st st' src -> source_at st src -> source_at st' src.
Proof.
  intros [Hwf Hin Hd] [_ _ Hh Hdict Ht Hb].
  assert (E : stream st' (so_pages src) = stream st (so_pages src)) by by apply stream_ext.
  split; rewrite ?E; done.
Qed.

Lemma source_reader_kept st st' src r :
  source_kept st st' src -> source_reader st src r -> source_reader st' src r.
Proof.
  intros [_ Hin _] [[Em En Hr Hc] ? ? ?]. split; [|done..]. split; [done|done| |done].
  rewrite Forall_forall in *. intros b Hb. split; [by apply Hin|by apply Hr].
Qed.

Section Source.
Context (st : Storage) (src : source) (Hsrc : source_at st src).
Abbreviation h := (so_header src).
Abbreviation s := (stream st (so_pages src)).
#[local] Existing Instance reader_access.

#[local] Instance merge_access : SegmentAccess TpSegmentReader := reader_access st.

#[local] Program Instance merge_access_laws : SegmentAccessLaws TpSegmentReader := {|
  denotes r h' s' := source_reader st src r /\ h' = h /\ s' = s;
|}.
Next Obligation. intros r h' s' (Hr & -> & _). apply (sr_header _ _ _ Hr). Qed.
Next Obligation.
  intros r h' s' off len (Hr & -> & ->) Ho Hl Hin H32. destruct Hr as [Hok Hh Hc Ht].
  rewrite length_stream in Hin by (apply (sat_wf _ _ Hsrc) || apply (sat_in _ _ Hsrc)).
  destruct (tp_segment_read_ok st (so_pages src) r off len (sat_wf _ _ Hsrc) Hok) as (r' & E & Hok'); try done.
  pose proof (tp_segment_read_frame _ _ _ _ _ _ E) as (Eh & Ec & Et & El).
  eexists _, r'. split; [exact E|]. split; [done|]. split; [|done].
  split; [|done]. split; [done|congruence|congruence|by rewrite Et, El].
Qed.
Next Obligation.
  intros r h' s' off len (Hr & -> & ->) Ho Hl Hin H32 Hlt. pose proof (sr_ok _ _ _ Hr) as Hok.
  rewrite length_stream in Hin, Hlt by (apply (sat_wf _ _ Hsrc) || apply (sat_in _ _ Hsrc)).
  pose proof (get_direct_ok st (so_pages src) r off len (sat_wf _ _ Hsrc) Hok Ho Hl Hin H32 Hlt) as Hd.
  unfold ensures, sdirect, merge_access, reader_access.
  destruct (tp_segment_get_direct st r off len) as [[bytes|]|]; [..|done];
    eexists _, r; (split; [reflexivity|]); (split; [by split|]); (split; [done|]); done.
Qed.

Abbreviation I := (source_reader st src).

Lemma reads_source r : I r <-> reads_segment h s None r.
Proof.
  split; [|by intros [[Hr _] _]]. intros Hr. split; [by split|]. apply (sr_ctids _ _ _ Hr).
Qed.

Lemma source_reads {A} (m : rst TpSegmentReader A) r a :
  runs (reads_segment h s None) m r a -> runs I m r a.
Proof. intros Hr. eapply runs_ensures; [exact Hr|]. intros r' Hr'. split; [done|]. by apply reads_source. Qed.

Lemma source_size : zlen s < 2 ^ 32.
Proof. apply (sh_size _ _ _ (sat_holds _ _ Hsrc)). Qed.

Lemma source_sread r off bs : I r -> at_offset s off bs -> runs I (sread off (zlen bs)) r bs.
Proof. intros Hr Ha. apply source_reads, (sread_at h s None); [by apply reads_source|apply source_size|done]. Qed.

Lemma source_read_u32 r off v : I r -> 0 <= v < 2 ^ 32 -> at_offset s off (u32_bytes v) ->
  runs I (read_u32 off) r v.
Proof. intros Hr Hv Ha. apply source_reads, (read_u32_at h s None); [by apply reads_source|apply source_size|done..]. Qed.

Lemma source_read_u16 r off v : I r -> 0 <= v < 2 ^ 16 -> at_offset s off (u16_bytes v) ->
  runs I (read_u16 st off) r v.
Proof.
  intros Hr Hv Ha. unfold read_u16. rewrite <- (u16_bytes_value v Hv). apply runs_fmap.
  assert (E : zlen (u16_bytes v) = 2) by (unfold zlen; by rewrite length_u16_bytes).
  pose proof source_size. destruct Ha as (? & ? & ?). rewrite wrap_small by lia.
  rewrite <- E at 1. by apply source_sread.
Qed.

(** ** Documents *)

Lemma source_doc_range (i : nat) d : so_docs src !! i = Some d ->
  (0 <= ip_blkid (sd_ctid d) < 2 ^ 32 /\ 0 <= ip_posid (sd_ctid d) < 2 ^ 16) /\
  0 <= sd_fieldnorm d < 256 /\ 0 <= sd_tenant d < 2 ^ 32.
Proof. intros Hi. apply (Forall_lookup_1 _ _ _ _ (dat_ranges _ _ _ (sh_docs _ _ _ (sat_holds _ _ Hsrc))) Hi). Qed.

Lemma source_num_docs : SegmentFormat.num_docs h = zlen (so_docs src).
Proof.
  pose proof (dat_openable _ _ _ (sh_docs _ _ _ (sat_holds _ _ Hsrc))) as Hop.
  destruct (op_counts _ _ _ _ Hop) as [E _]. by rewrite zlen_fmap in E.
Qed.

Lemma read_ctid_ok r (i : nat) d : I r -> so_docs src !! i = Some d ->
  runs I (read_ctid st (Z.of_nat i)) r (sd_ctid d).
Proof.
  intros Hr Hi. pose proof (sh_docs _ _ _ (sat_holds _ _ Hsrc)) as [Hop _ _ _].
  destruct (source_doc_range i d Hi) as ([Hp Ho] & _).
  unfold read_ctid. apply ensures_bind, ensures_gets. change (sctids r) with (r_cached_ctids r).
  rewrite (sr_ctids _ _ _ Hr). apply ensures_bind, ensures_gets.
  change (sheader r) with (r_header r). rewrite (sr_header _ _ _ Hr).
  eapply (ensures_bind_runs I).
  { apply (source_read_u32 r _ (ip_blkid (sd_ctid d)) Hr Hp).
    eapply (at_offset_element u32_bytes 4); [apply length_u32_bytes| |apply (op_pages _ _ _ _ Hop)].
    by rewrite list_lookup_fmap, Hi. }
  intros r1 Hr1. eapply (ensures_bind_runs I).
  { apply (source_read_u16 r1 _ (ip_posid (sd_ctid d)) Hr1 Ho).
    eapply (at_offset_element u16_bytes 2); [apply length_u16_bytes| |apply (op_offsets _ _ _ _ Hop)].
    by rewrite list_lookup_fmap, Hi. }
  intros r2 Hr2. apply ensures_ret. by destruct (sd_ctid d).
Qed.

Lemma read_fieldnorm_ok r (i : nat) d : I r -> so_docs src !! i = Some d ->
  exists norm, le_value norm = sd_fieldnorm d /\
    runs I (sread (u32 (fieldnorm_offset h + Z.of_nat i)) 1) r norm.
Proof.
  intros Hr Hi. exists [byte_of_Z (sd_fieldnorm d)].
  destruct (source_doc_range i d Hi) as (_ & Hn & _). split.
  { unfold le_value. cbn. rewrite Z_of_byte_of_Z, Z.mod_small by lia. lia. }
  pose proof (dat_fieldnorms _ _ _ (sh_docs _ _ _ (sat_holds _ _ Hsrc))) as Ha.
  assert (Ha1 : at_offset s (fieldnorm_offset h + Z.of_nat i) [byte_of_Z (sd_fieldnorm d)]).
  { replace (Z.of_nat i) with (Z.of_nat i * Z.of_nat 1) by lia.
    apply (at_offset_element (fun b : byte => [b]) 1 (byte_of_Z ∘ sd_fieldnorm <$> so_docs src)); [done| |].
    - by rewrite list_lookup_fmap, Hi.
    - replace (encode_array _ _) with (byte_of_Z ∘ sd_fieldnorm <$> so_docs src); [done|].
      unfold encode_array. generalize (byte_of_Z ∘ sd_fieldnorm <$> so_docs src) as l.
      induction l as [|b l IH]; [done|]. csimpl. by rewrite <- IH. }
  pose proof source_size. pose proof Ha1 as (? & Hb & _). change (zlen [_]) with 1 in Hb.
  rewrite wrap_small by lia. by apply (source_sread r _ [_] Hr).
Qed.

Lemma source_tenant_case : source_tenants src = Some (sd_tenant <$> so_docs src) \/
  source_tenants src = None /\ Forall (fun d => sd_tenant d = 0) (so_docs src).
Proof.
  unfold source_tenants. pose proof (sh_docs _ _ _ (sat_holds _ _ Hsrc)) as [Hop _ [[Hz E]|(E & F & _)] _].
  - right. rewrite E. split; [|done]. by rewrite orb_true_r.
  - left. pose proof (op_docs _ _ _ _ Hop). rewrite !(proj2 (Z.eqb_neq _ _)) by lia. done.
Qed.

Lemma load_tenant_ids_runs r : I r -> runs (fun r' => I r' /\ r_tenant_ids_loaded r' = true)
  (load_tenant_ids st) r tt.
Proof.
  intros Hr. unfold runs, ensures, load_tenant_ids, tp_segment_load_tenant_ids.
  destruct (r_tenant_ids_loaded r) eqn:El; [by exists tt, r|]. cbv zeta.
  rewrite (sr_header _ _ _ Hr). pose proof (sr_tenants _ _ _ Hr) as Ht. rewrite El in Ht.
  destruct ((SegmentFormat.num_docs h =? 0) || (tenant_map_offset h =? 0)
            || (Z.land (flags h) TP_FLAG_HAS_TENANT_DATA =? 0)) eqn:Eb.
  { eexists tt, _. split; [done|]. split; [done|]. split; [|done]. destruct Hr as [[] ? ? ?].
    split; [done|done|done|]. cbn. unfold source_tenants. by rewrite Eb. }
  pose proof (sh_docs _ _ _ (sat_holds _ _ Hsrc)) as [Hop _ [[_ E]|(_ & _ & Ha)] Hrng].
  { rewrite E in Eb. by rewrite orb_true_r in Eb. }
  pose proof (op_docs _ _ _ _ Hop) as Hd. pose proof source_num_docs as En.
  assert (E4 : u32 (SegmentFormat.num_docs h * 4) = zlen (encode_array u32_bytes (sd_tenant <$> so_docs src))).
  { rewrite (zlen_encode_array _ 4), zlen_fmap by apply length_u32_bytes. rewrite En.
    rewrite wrap_small; rewrite <- En; lia. }
  rewrite E4.
  set (r0 := mkSegmentReader _ _ _ _ _ _ _ _ _ _).
  destruct (segment_read_at st (so_pages src) r0 (tenant_map_offset h)
    (encode_array u32_bytes (sd_tenant <$> so_docs src)) (sat_wf _ _ Hsrc))
    as (r1 & Er & Hok1 & (E1 & E2 & _)); [by destruct Hr as [[] _ _ _]|exact Ha|apply source_size|].
  rewrite Er. cbn [mbind res_bind].
  eexists tt, _. split; [reflexivity|]. split; [done|]. split; [|done].
  split; [by destruct Hok1|done|cbn; rewrite E2; apply (sr_ctids _ _ _ Hr)|].
  cbn [r_cached_tenant_ids r_tenant_ids_loaded].
  unfold source_tenants. rewrite Eb. f_equal.
  replace (Z.to_nat (SegmentFormat.num_docs h)) with (length (sd_tenant <$> so_docs src))
    by (rewrite En, length_fmap; unfold zlen; lia).
  rewrite (decode_array_encode u32_bytes) by apply length_u32_bytes.
  rewrite <- list_fmap_compose. apply list_fmap_ext. intros i d Hi. apply u32_bytes_value.
  apply (Forall_lookup_1 _ _ _ _ Hrng Hi).
Qed.

Lemma tenant_id_ok r (i : nat) d : I r -> so_docs src !! i = Some d ->
  runs I (stenant_id (Z.of_nat i)) r (sd_tenant d).
Proof.
  intros Hr Hi. unfold runs, ensures, stenant_id, merge_access, reader_access, tp_segment_get_tenant_id.
  destruct (load_tenant_ids_runs r Hr) as ([] & r1 & E1 & _ & Hr1 & Hl1).
  unfold load_tenant_ids in E1.
  assert (Eload : (if r_tenant_ids_loaded r then Ok r else tp_segment_load_tenant_ids st r) = Ok r1).
  { unfold tp_segment_load_tenant_ids in E1 |- *. destruct (r_tenant_ids_loaded r); [congruence|].
    by case_match; simplify_eq. }
  rewrite Eload. cbn [mbind res_bind]. rewrite (sr_tenants _ _ _ Hr1), Hl1.
  pose proof (lookup_lt_Some _ _ _ Hi).
  destruct source_tenant_case as [->|[-> Hz]].
  - rewrite (sr_header _ _ _ Hr1), source_num_docs, (proj2 (Z.leb_gt _ _)) by (unfold zlen; lia).
    unfold zread. rewrite zget_nat, list_lookup_fmap, Hi. cbn. by exists (sd_tenant d), r1.
  - exists 0, r1. split; [done|]. split; [|done]. symmetry. apply (Forall_lookup_1 _ _ _ _ Hz Hi).
Qed.
End Source.

(** ** All the readers *)

Section Sources.
Context (st : Storage) (srcs : list source) (Hsrcs : Forall (source_at st) srcs).

Definition readers_ok (rs : readers) : Prop := Forall2 (source_reader st) srcs rs.

Lemma on_source_ok {A} (i : nat) src (m : rst TpSegmentReader A) rs (Q : A -> Prop) :
  readers_ok rs -> srcs !! i = Some src ->
  (forall r, source_reader st src r -> ensures m r (fun a r' => source_reader st src r' /\ Q a)) ->
  ensures (on_source (Z.of_nat i) m) rs (fun a rs' => readers_ok rs' /\ Q a).
Proof.
  intros Hrs Hi Hm. destruct (Forall2_lookup_l _ _ _ _ _ Hrs Hi) as (r & Hr & Hok).
  destruct (Hm r Hok) as (a & r' & E & Hr' & HQ). exists a, (<[i := r']> rs).
  unfold on_source. rewrite zget_nat, Hr, E, Nat2Z.id. split; [done|]. split; [|done].
  unfold readers_ok. rewrite <- (list_insert_id srcs i src Hi). by apply Forall2_insert.
Qed.

Lemma on_source_runs {A} (i : nat) src (m : rst TpSegmentReader A) rs a :
  readers_ok rs -> srcs !! i = Some src ->
  (forall r, source_reader st src r -> runs (source_reader st src) m r a) ->
  runs readers_ok (on_source (Z.of_nat i) m) rs a.
Proof.
  intros Hrs Hi Hm. eapply ensures_mono.
  { apply (on_source_ok i src m rs (fun a' => a' = a)); [done..|]. intros r Hr.
    eapply ensures_mono; [by apply Hm|]. by intros a' r' [-> ?]. }
  by intros a' rs' [? ->].
Qed.

Lemma source_of (i : nat) src : srcs !! i = Some src -> source_at st src.
Proof. apply (Forall_lookup_1 _ _ _ _ Hsrcs). Qed.
End Sources.
End Readers.
