(* ===== verification/MergeTerms.v ===== *)
(** * The merge of the dictionaries

    [merge_terms] walks the dictionaries of all sources with cursors.  Each term of a
    source ends up in exactly one merged term, the merged terms are strictly sorted,
    and the references of a merged term are the entries of the sources that have it
    ([merged_terms]); the fuel, one round for each term, is enough. *)
From S2P Require Import Prelude Postgres Fieldnorm SegmentFormat Compression Storage SegmentIO.
From S2P Require Import Docmap SegmentScan ScanFacts Memtable SegmentWrite SegmentWriteFacts.
From S2P Require Import SegmentEmit SegmentLayout SegmentOpen SegmentContent Merge MergeWrite MergeReaders.

Abbreviation dict := (list (list byte * TpDictEntry)).

(** ** The cursor of one source *)

Section Cursor.
Context `{PgLayoutLaws} `{FreeSpaceMapLaws} `{ItemPointerOps} `{QSort} `{HashSeq}.
Context (st : Storage) (src : source) (Hsrc : source_at st src).
Abbreviation h := (so_header src).
Abbreviation s := (stream st (so_pages src)).
Abbreviation I := (source_reader st src).
#[local] Instance access : SegmentAccess TpSegmentReader := reader_access st.

(** The cached string offsets. *)
Definition offsets_cached (offsets : list Z) : Prop :=
  forall (k : nat) t e, so_dict src !! k = Some (t, e) -> exists off, offsets !! k = Some off /\
    at_offset s (strings_offset h + off) (u32_bytes (zlen t) ++ t).

(** The cursor stands before the terms [rem]. *)
Record term_cursor (ms : TpMergeSource) (rem : dict) : Prop := {
  tc_num : ms_num_terms ms = zlen (so_dict src);
  tc_offsets : offsets_cached (ms_string_offsets ms);
  tc_place : match rem with
    | [] => ms_exhausted ms = true
    | (t, e) :: _ => ms_exhausted ms = false /\ ms_current_term ms = t /\ ms_current_entry ms = e /\
        exists k : nat, ms_current_idx ms = Z.of_nat k /\ rem = drop k (so_dict src)
    end;
}.

Lemma dict_count : zlen (so_dict src).*1 = zlen (so_dict src).
Proof. apply zlen_fmap. Qed.

Lemma dict_limit : zlen (so_dict src) < 2 ^ 31.
Proof. rewrite <- dict_count. apply (da_limit _ _ _ _ (sat_dict _ _ Hsrc)). Qed.

Lemma read_term_ok ms (k : nat) t e r : I r -> offsets_cached (ms_string_offsets ms) ->
  so_dict src !! k = Some (t, e) -> runs I (merge_read_term_at_index st ms (Z.of_nat k)) r t.
Proof.
  intros Hr Hoff Hk. destruct (Hoff k t e Hk) as (off & Ho & Ha).
  unfold merge_read_term_at_index. apply ensures_bind, ensures_gets.
  change (sheader r) with (r_header r). rewrite (sr_header _ _ _ Hr).
  apply ensures_bind. eapply ensures_lift; [unfold zread; by rewrite zget_nat, Ho|].
  pose proof (source_size st src Hsrc) as H32. pose proof (zlen_nonneg t).
  pose proof (at_offset_app_l _ _ _ _ Ha) as Ha1. pose proof (at_offset_app_r _ _ _ _ Ha) as Ha2.
  pose proof Ha as (Ho1 & Hb1 & _). rewrite zlen_app in Hb1.
  assert (E4 : zlen (u32_bytes (zlen t)) = 4) by (unfold zlen; by rewrite length_u32_bytes).
  rewrite E4 in Hb1, Ha2. cbv zeta. rewrite !(wrap_small 32 (strings_offset h + off)) by lia.
  eapply (ensures_bind_runs I).
  { apply (source_read_u32 st src Hsrc r _ (zlen t) Hr); [lia|exact Ha1]. }
  intros r1 Hr1. rewrite wrap_small by lia.
  eapply (ensures_bind_runs I); [by apply (source_sread st src Hsrc r1 _ t)|].
  intros r2 Hr2. apply ensures_ret. split; [|done]. apply c_str_id.
  apply (Forall_lookup_1 (fun t => x00 ∉ t) (so_dict src).*1 k); [apply (da_no_nul _ _ _ _ (sat_dict _ _ Hsrc))|].
  by rewrite list_lookup_fmap, Hk.
Qed.

Lemma advance_to ms (k : nat) r : I r -> ms_num_terms ms = zlen (so_dict src) ->
  offsets_cached (ms_string_offsets ms) -> ms_exhausted ms = false ->
  u32 (ms_current_idx ms + 1) = Z.of_nat k -> 
  ensures (merge_source_advance st ms) r (fun res r' => I r' /\
    (res.1 = true <-> (k < length (so_dict src))%nat) /\ term_cursor res.2 (drop k (so_dict src))).
Proof.
  intros Hr Hn Hoff Hex Hk. unfold merge_source_advance. rewrite Hex, Hk, Hn. cbv zeta.
  destruct (Z.leb_spec (zlen (so_dict src)) (Z.of_nat k)) as [L|L].
  { apply ensures_ret. cbn [fst snd]. split; [done|]. unfold zlen in L.
    split; [split; [done|lia]|]. rewrite drop_ge by lia. by split. }
  destruct (lookup_lt_is_Some_2 (so_dict src) k) as [[t e] Hl]; [unfold zlen in L; lia|].
  apply ensures_bind, ensures_gets. change (sheader r) with (r_header r). rewrite (sr_header _ _ _ Hr).
  eapply (ensures_bind_runs I); [by eapply read_term_ok|]. intros r1 Hr1.
  eapply (ensures_bind_runs I).
  { eapply (source_reads st src Hsrc), (read_dict_entry_ok h s _ _ None (sat_dict _ _ Hsrc)).
    - by apply reads_source.
    - by rewrite list_lookup_fmap, Hl. }
  intros r2 Hr2. apply ensures_ret. split; [done|]. cbn [fst snd]. apply lookup_lt_Some in Hl as Hlt.
  split; [done|]. rewrite (drop_S _ _ _ Hl). split; [done|done|]. cbn. split; [done|]. split; [done|].
  split; [done|]. exists k. split; [done|]. symmetry. by apply drop_S.
Qed.

Lemma merge_cursor_advance_ok ms t e rem r : I r -> term_cursor ms ((t, e) :: rem) ->
  ensures (merge_source_advance st ms) r (fun res r' => I r' /\ term_cursor res.2 rem).
Proof.
  intros Hr [Hn Hoff (Hex & _ & _ & k & Hk & Hrem)].
  assert (Hlt : (k < length (so_dict src))%nat).
  { destruct (decide (k < length (so_dict src))%nat); [done|]. by rewrite drop_ge in Hrem by lia. }
  pose proof dict_limit. unfold zlen in *.
  eapply ensures_mono; [apply (advance_to ms (S k) r); try done; rewrite Hk, wrap_small by lia; lia|].
  intros res r' (Hr' & _ & Hc). split; [done|].
  replace rem with (drop (S k) (so_dict src)); [done|].
  destruct (lookup_lt_is_Some_2 _ _ Hlt) as [p Hp]. rewrite (drop_S _ _ _ Hp) in Hrem. by injection Hrem as _ ->.
Qed.

Lemma decode_array_lookup {A} w (dec : list byte -> A) n bs (i : nat) : (i < n)%nat ->
  decode_array w dec n bs !! i = Some (dec (take w (drop (w * i) bs))).
Proof.
  revert bs i. induction n as [|n IH]; intros bs i Hi; [lia|]. cbn [decode_array].
  destruct i as [|i]; [by rewrite Nat.mul_0_r, drop_0|]. rewrite lookup_cons.
  rewrite (IH (drop w bs) i) by lia. by rewrite drop_drop, Nat.mul_succ_r, Nat.add_comm.
Qed.

(** The offsets that [merge_source_init] caches. *)
Lemma offsets_of_stream : so_dict src <> [] ->
  let n := length (so_dict src) in
  let bs := sub_list (dictionary_offset h + 4) (4 * zlen (so_dict src)) s in
  at_offset s (dictionary_offset h + 4) bs /\ zlen bs = 4 * zlen (so_dict src) /\
  offsets_cached (decode_array 4 le_value n bs).
Proof.
  intros Hne n bs. pose proof (sat_dict _ _ Hsrc) as Hd. pose proof (zlen_nonneg (so_dict src)).
  assert (Hb : 0 <= dictionary_offset h + 4 /\
    dictionary_offset h + 4 + 4 * zlen (so_dict src) <= zlen s).
  { destruct (so_dict src) as [|p D] eqn:E using rev_ind; [done|]. clear IHD.
    destruct (da_strings _ _ _ _ Hd (length D) p.1) as (off & _ & (Ho & Hl & _) & _).
    { rewrite ?E, fmap_app, lookup_app_r, length_fmap, Nat.sub_diag by (by rewrite length_fmap). done. }
    destruct (da_count _ _ _ _ Hd) as (Hd0 & _).
    assert (E4 : zlen (u32_bytes off) = 4) by (unfold zlen; by rewrite length_u32_bytes).
    rewrite E4 in Hl. rewrite zlen_app. unfold zlen in *. simpl. lia. }
  destruct Hb as [Hb0 Hb].
  assert (Hz : zlen bs = 4 * zlen (so_dict src)) by (apply zlen_sub_list; lia).
  split; [split; [lia|]; split; [lia|by rewrite Hz]|]. split; [done|].
  intros k t e Hk. pose proof (lookup_lt_Some _ _ _ Hk) as Hlt.
  destruct (da_strings _ _ _ _ Hd k t) as (off & Hoff & (Ho & Hl & Hs) & Ha); [by rewrite list_lookup_fmap, Hk|].
  exists off. split; [|done]. rewrite decode_array_lookup by done. f_equal.
  rewrite <- (u32_bytes_value off Hoff). f_equal.
  assert (E4 : zlen (u32_bytes off) = 4) by (unfold zlen; by rewrite length_u32_bytes).
  rewrite E4 in Hs. rewrite <- Hs. unfold bs, sub_list.
  rewrite skipn_firstn_comm, drop_drop, take_take. f_equal; [unfold zlen; lia|]. f_equal. lia.
Qed.

(** Opening a cursor on a reader. *)
Lemma merge_cursor_init_ok r : I r -> so_dict src <> [] ->
  ensures (merge_source_init st) r (fun res r' => I r' /\
    exists ms, res = Some ms /\ term_cursor ms (so_dict src)).
Proof.
  intros Hr Hne. destruct (offsets_of_stream Hne) as (Ha & Hz & Hoff).
  pose proof (sat_dict _ _ Hsrc) as Hd. pose proof (source_size st src Hsrc) as H32.
  pose proof (da_num_terms _ _ _ _ Hd) as En. rewrite dict_count in En.
  assert (Hpos : 0 < zlen (so_dict src)) by (destruct (so_dict src); [done|rewrite zlen_cons; pose proof (zlen_nonneg l); lia]).
  unfold merge_source_init. apply ensures_bind, ensures_gets.
  change (sheader r) with (r_header r). rewrite (sr_header _ _ _ Hr), En, (proj2 (Z.eqb_neq _ _)) by lia.
  pose proof (da_count _ _ _ _ Hd) as Hcnt.
  assert (E4 : zlen (u32_bytes (zlen (so_dict src).*1)) = 4) by (unfold zlen; by rewrite length_u32_bytes).
  eapply (ensures_bind_runs I); [rewrite <- E4; by apply (source_sread st src Hsrc r)|].
  intros r1 Hr1. destruct Ha as (Ho & Hb & Hs).
  rewrite !wrap_small by (rewrite ?Hz in *; pose proof dict_limit; lia).
  eapply (ensures_bind_runs I); [rewrite <- Hz; by apply (source_sread st src Hsrc r1)|].
  intros r2 Hr2. replace (Z.to_nat (zlen (so_dict src))) with (length (so_dict src)) by (unfold zlen; lia).
  apply ensures_bind. eapply ensures_mono; [by apply (advance_to _ 0 r2)|].
  intros [ok ms] r3 (Hr3 & Hok & Hc). cbn [fst snd] in *. rewrite drop_0 in Hc.
  replace ok with true by (symmetry; apply Hok; unfold zlen in Hpos; lia).
  apply ensures_ret. split; [done|]. by exists ms.
Qed.
End Cursor.

(** ** The merged terms *)

Fixpoint dict_find (t : list byte) (d : dict) : option TpDictEntry :=
  match d with
  | [] => None
  | (t', e) :: d' => if decide (t' = t) then Some e else dict_find t d'
  end.

(** The entries of a term in the sources from [i] on. *)
Fixpoint refs_of (i : Z) (t : list byte) (ds : list dict) : list TpTermSegmentRef :=
  match ds with
  | [] => []
  | d :: ds' =>
      match dict_find t d with
      | Some e => mkTermSegmentRef i e :: refs_of (i + 1) t ds'
      | None => refs_of (i + 1) t ds'
      end
  end.

Record merged_terms (ds : list dict) (ts : list TpMergedTerm) : Prop := {
  mg_sorted : StronglySorted term_lt (mt_term <$> ts);
  mg_refs : Forall (fun mt => mt_segment_refs mt = refs_of 0 (mt_term mt) ds) ts;
  mg_terms : forall t, t ∈ mt_term <$> ts <-> exists d, d ∈ ds /\ t ∈ d.*1;
}.

Record wf_dict (d : dict) : Prop := {
  wd_sorted : StronglySorted term_lt d.*1;
  wd_no_nul : Forall (fun t => x00 ∉ t) d.*1;
}.

Definition drop_head (t : list byte) (d : dict) : dict :=
  match d with
  | [] => []
  | (t', _) :: d' => if decide (t' = t) then d' else d
  end.

(** No term of the dictionary is before [t]. *)
Definition at_min (t : list byte) (d : dict) : Prop :=
  match d with [] => True | (t', _) :: _ => bytes_compare t t' <= 0 end.

Lemma wf_dict_cons t e d : wf_dict ((t, e) :: d) ->
  x00 ∉ t /\ wf_dict d /\ Forall (fun p => term_lt t p.1) d.
Proof.
  intros [Hs Hn]. cbn in Hs, Hn. inversion_clear Hs as [|? ? Hs' HF].
  apply Forall_cons in Hn as [Ht Hn]. split; [done|]. split; [by split|]. by rewrite Forall_fmap in HF.
Qed.

Lemma dict_find_above t d : Forall (fun p => term_lt t p.1) d -> dict_find t d = None.
Proof.
  induction 1 as [|[t' e] d Hlt HF IH]; [done|]. simpl.
  case_decide as E; [|done]. subst. by apply term_lt_irrefl in Hlt.
Qed.

Lemma dict_find_min t d : wf_dict d -> at_min t d ->
  dict_find t d = match d with (t', e) :: _ => if decide (t' = t) then Some e else None | [] => None end.
Proof.
  destruct d as [|[t' e] d]; [done|]. intros (_ & _ & HF)%wf_dict_cons Hm. simpl in *.
  case_decide as E; [done|]. apply dict_find_above. eapply Forall_impl; [exact HF|].
  intros p Hp. eapply bytes_compare_lt_trans; [|exact Hp].
  destruct (Z.eq_dec (bytes_compare t t') 0) as [E0%bytes_compare_eq|]; [congruence|lia].
Qed.

Lemma drop_head_wf t d : wf_dict d -> wf_dict (drop_head t d).
Proof.
  destruct d as [|[t' e] d]; [done|]. intros Hwf. simpl. case_decide; [|done].
  by apply wf_dict_cons in Hwf as (_ & ? & _).
Qed.

(** What is left is after [t]. *)
Lemma drop_head_above t d : wf_dict d -> at_min t d -> Forall (fun p => term_lt t p.1) (drop_head t d).
Proof.
  destruct d as [|[t' e] d]; [by constructor|]. intros (_ & _ & HF)%wf_dict_cons Hm. simpl in *.
  case_decide as E; [by subst|].
  assert (Hlt : term_lt t t').
  { unfold term_lt. destruct (Z.eq_dec (bytes_compare t t') 0) as [E0%bytes_compare_eq|]; [congruence|lia]. }
  constructor; [done|]. eapply Forall_impl; [exact HF|]. intros p Hp. by eapply bytes_compare_lt_trans.
Qed.

Lemma dict_find_drop_head t t' d : t' <> t -> dict_find t' (drop_head t d) = dict_find t' d.
Proof.
  intros Hne. destruct d as [|[t0 e] d]; [done|]. simpl. case_decide as E; [|done].
  case_decide; [congruence|done].
Qed.

Lemma refs_of_drop_head t t' ds : forall i, t' <> t -> refs_of i t' (drop_head t <$> ds) = refs_of i t' ds.
Proof.
  induction ds as [|d ds IH]; intros i Hne; [done|]. csimpl. cbn [refs_of].
  rewrite dict_find_drop_head, IH by done. done.
Qed.

Lemma elem_of_drop_head t d x : wf_dict d -> at_min t d ->
  x ∈ d.*1 <-> x ∈ (drop_head t d).*1 \/ (x = t /\ exists e d', d = (t, e) :: d').
Proof.
  intros Hwf Hm. destruct d as [|[t' e] d]; simpl; [set_solver|]. case_decide as E; csimpl.
  - subst. rewrite elem_of_cons. split; [intros [->|?]; [right; split; [done|]; by exists e, d|by left]|].
    intros [?|[-> _]]; [by right|by left].
  - split; [by left|]. intros [?|[-> (e' & d' & [= ? ?])]]; done.
Qed.

Definition dict_sizes (ds : list dict) : nat := list_sum (length <$> ds).

Lemma drop_head_length t d : (length (drop_head t d) <= length d)%nat.
Proof. destruct d as [|[t' e] d]; [done|]. simpl. case_decide; simpl; lia. Qed.

Lemma dict_sizes_drop_head t ds (i : nat) e d : ds !! i = Some ((t, e) :: d) ->
  (dict_sizes (drop_head t <$> ds) < dict_sizes ds)%nat.
Proof.
  unfold dict_sizes. revert i. induction ds as [|d0 ds IH]; intros i Hi; [done|]. csimpl.
  pose proof (drop_head_length t d0). destruct i as [|i]; simpl in Hi.
  - injection Hi as ->. simpl. rewrite decide_True by done. clear.
    enough (list_sum (length <$> (drop_head t <$> ds)) <= list_sum (length <$> ds))%nat by lia.
    induction ds as [|d0 ds IH]; [done|]. csimpl. pose proof (drop_head_length t d0). lia.
  - specialize (IH i Hi). lia.
Qed.

(** One round: [t] is the least term, its references and what is left. *)
Lemma merged_terms_step ds t ts : Forall wf_dict ds -> Forall (at_min t) ds ->
  (exists d e d', d ∈ ds /\ d = (t, e) :: d') ->
  merged_terms (drop_head t <$> ds) ts -> merged_terms ds (mkMergedTerm t (refs_of 0 t ds) :: ts).
Proof.
  intros Hwf Hmin (d0 & e0 & d0' & Hd0 & E0) [Hs Hr Ht].
  rewrite Forall_forall in Hwf, Hmin.
  assert (Habove : forall x, x ∈ mt_term <$> ts -> term_lt t x).
  { intros x (d & (d1 & -> & Hd1)%list_elem_of_fmap & Hx)%Ht.
    pose proof (drop_head_above t d1 (Hwf _ Hd1) (Hmin _ Hd1)) as HF. rewrite Forall_forall in HF.
    apply list_elem_of_fmap in Hx as (p & -> & Hp). by apply HF. }
  split.
  - csimpl. constructor; [done|]. by apply Forall_forall.
  - constructor; [done|]. rewrite Forall_forall in Hr |- *. intros mt Hmt.
    rewrite (Hr mt Hmt). apply refs_of_drop_head. intros E.
    apply (term_lt_irrefl t). rewrite <- E at 2. apply Habove. by apply list_elem_of_fmap_2.
  - intros x. csimpl. rewrite elem_of_cons, Ht. split.
    + intros [->|(d & (d1 & -> & Hd1)%list_elem_of_fmap & Hx)].
      * exists d0. split; [done|]. rewrite E0. left.
      * exists d1. split; [done|]. apply (elem_of_drop_head t); auto.
    + intros (d & Hd & Hx). apply (elem_of_drop_head t) in Hx as [Hx|[-> _]]; auto.
      right. exists (drop_head t d). split; [by apply list_elem_of_fmap_2|done].
Qed.

Section MergeTerms.
Context `{PgLayoutLaws} `{FreeSpaceMapLaws} `{ItemPointerOps} `{QSort} `{HashSeq}.
Context (st : Storage) (srcs : list source) (Hsrcs : Forall (source_at st) srcs).

(** The cursor's term, as the comparisons see it. *)
Definition stands_at (ms : TpMergeSource) (d : dict) : Prop :=
  match d with
  | [] => ms_exhausted ms = true
  | (t, e) :: _ => ms_exhausted ms = false /\ ms_current_term ms = t /\ ms_current_entry ms = e
  end.

Lemma cursor_stands src ms d : term_cursor st src ms d -> stands_at ms d.
Proof. intros [_ _ Hp]. destruct d as [|[t e] d]; [done|]. by destruct Hp as (? & ? & ? & _). Qed.

Lemma find_min_ok mss : forall ds i min,
  Forall2 stands_at mss ds -> Forall wf_dict ds -> (forall m t, min = Some (m, t) -> x00 ∉ t) ->
  match find_min_source_from i min mss with
  | None => min = None /\ Forall (eq []) ds
  | Some m => exists t, x00 ∉ t /\
      (min = Some (m, t) \/ exists (j : nat) e d, m = i + Z.of_nat j /\ ds !! j = Some ((t, e) :: d)) /\
      (forall m' t', min = Some (m', t') -> bytes_compare t t' <= 0) /\ Forall (at_min t) ds
  end.
Proof.
  induction mss as [|ms mss IH]; intros ds i min HF Hwf Hnul; cbn [find_min_source_from].
  { apply Forall2_nil_inv_l in HF as ->. destruct min as [[m t]|]; cbn; [|by split].
    exists t. split; [by apply (Hnul m)|]. split; [by left|]. split; [|done].
    intros m' t' [= <- <-]. by rewrite (proj2 (bytes_compare_eq t t) eq_refl). }
  apply Forall2_cons_inv_l in HF as (d & ds' & Hd & HF & ->).
  apply Forall_cons in Hwf as [Hwd Hwf]. cbv zeta.
  destruct d as [|[t e] d]; cbn [stands_at] in Hd.
  { rewrite Hd. specialize (IH ds' (i + 1) min HF Hwf Hnul).
    destruct (find_min_source_from (i + 1) min mss) as [m|].
    - destruct IH as (t & Hnt & Hor & Hle & Hall). exists t. split; [done|]. split; [|by repeat constructor].
      destruct Hor as [?|(j & e & d & -> & Hj)]; [by left|]. right. exists (S j), e, d. split; [lia|done].
    - destruct IH as [? ?]. split; [done|by constructor]. }
  destruct Hd as (-> & -> & _). apply wf_dict_cons in Hwd as (Hnt & _).
  set (min' := match min with None => _ | Some _ => _ end).
  assert (Hmin' : (min' = Some (i, t) /\ forall m' t', min = Some (m', t') -> bytes_compare t t' <= 0) \/
    exists m0 t0, min = Some (m0, t0) /\ min' = min /\ bytes_compare t0 t <= 0).
  { unfold min'. destruct min as [[m0 t0]|]; [|left; by split].
    unfold strcmp. rewrite !c_str_id by (done || by apply (Hnul m0)).
    destruct (Z.ltb_spec (bytes_compare t t0) 0) as [L|L].
    - left. split; [done|]. intros m' t' [= <- <-]. lia.
    - right. exists m0, t0. split; [done|]. split; [done|]. rewrite bytes_compare_opp. lia. }
  assert (Hnul' : forall m t, min' = Some (m, t) -> x00 ∉ t).
  { intros m1 t1 E1. destruct Hmin' as [[E _]|(m0 & t0 & E & E2 & _)]; [congruence|].
    apply (Hnul m1). congruence. }
  specialize (IH ds' (i + 1) min' HF Hwf Hnul').
  destruct (find_min_source_from (i + 1) min' mss) as [m|].
  - destruct IH as (t1 & Hn1 & Hor & Hle & Hall). exists t1. split; [done|].
    assert (Ht1 : bytes_compare t1 t <= 0 /\ forall m' t', min = Some (m', t') -> bytes_compare t1 t' <= 0).
    { destruct Hmin' as [[E Hlt]|(m0 & t0 & E & E2 & Hle0)].
      - pose proof (Hle _ _ E) as Hl1. split; [done|]. intros m' t' E'.
        eapply bytes_compare_le_trans; [exact Hl1|by apply (Hlt m')].
      - rewrite E2 in Hle. split; [|done]. eapply bytes_compare_le_trans; [by apply (Hle m0)|done]. }
    destruct Ht1 as [Ht1 Ht2]. split; [|split; [done|by constructor]].
    destruct Hor as [E1|(j & e' & d' & -> & Hj)]; cycle 1.
    { right. exists (S j), e', d'. split; [lia|done]. }
    destruct Hmin' as [[E _]|(m0 & t0 & E & E2 & _)]; [|left; congruence].
    right. exists 0%nat, e, d. rewrite E1 in E. injection E as -> ->. split; [lia|done].
  - destruct IH as [IH _]. destruct Hmin' as [[E _]|(m0 & t0 & E & E2 & _)]; congruence.
Qed.

Abbreviation cursors := (Forall3 (term_cursor st)).

Lemma cursors_drop_S (i : nat) src : srcs !! i = Some src -> drop i srcs = src :: drop (S i) srcs.
Proof. apply drop_S. Qed.

Lemma collect_refs_ok t mss : x00 ∉ t -> forall ds (i : nat) rs,
  readers_ok st srcs rs -> cursors (drop i srcs) mss ds -> Forall wf_dict ds -> Forall (at_min t) ds ->
  ensures (collect_refs st t (Z.of_nat i) mss) rs (fun res rs' => readers_ok st srcs rs' /\
    res.1 = refs_of (Z.of_nat i) t ds /\ cursors (drop i srcs) res.2 (drop_head t <$> ds)).
Proof.
  intros Hnt. induction mss as [|ms mss IH]; intros ds i rs Hrs Hc Hwf Hmin; cbn [collect_refs].
  { inversion Hc; subst. apply ensures_ret. split; [done|]. split; [done|]. constructor. }
  inversion Hc as [|src ms' d srcs' mss' ds' Hcur Hc' Esrc]; subst ms' mss' ds.
  assert (Hi : srcs !! i = Some src) by (rewrite <- (Nat.add_0_r i), <- lookup_drop, <- Esrc; done).
  rewrite (cursors_drop_S i src Hi) in Esrc. injection Esrc as ->.
  apply Forall_cons in Hwf as [Hwd Hwf]. apply Forall_cons in Hmin as [Hm Hmin].
  replace (Z.of_nat i + 1) with (Z.of_nat (S i)) by lia.
  csimpl. cbn [refs_of]. rewrite (dict_find_min t d Hwd Hm). replace (Z.of_nat i + 1) with (Z.of_nat (S i)) by lia.
  rewrite ?(cursors_drop_S i src Hi).
  assert (Hskip : drop_head t d = d ->
    ensures ('(refs, rest) ← collect_refs st t (Z.of_nat (S i)) mss; mret (refs, ms :: rest)) rs
      (fun res rs' => readers_ok st srcs rs' /\ res.1 = refs_of (Z.of_nat (S i)) t ds' /\
         cursors (src :: drop (S i) srcs) res.2 (drop_head t d :: (drop_head t <$> ds')))).
  { intros Ed. apply ensures_bind. eapply ensures_mono; [by apply (IH ds' (S i) rs)|].
    intros [refs rest] rs1 (Hrs1 & Erefs & Hrest). apply ensures_ret. cbn [fst snd] in *.
    split; [done|]. split; [done|]. rewrite Ed. by constructor. }
  pose proof (cursor_stands _ _ _ Hcur) as Hst. destruct d as [|[t' e] d].
  { cbn [stands_at] in Hst. rewrite Hst. by apply Hskip. }
  cbn [stands_at] in Hst. destruct Hst as (-> & Et & Ee). pose proof (wf_dict_cons _ _ _ Hwd) as (Hnt' & _).
  rewrite Et. unfold strcmp. rewrite !c_str_id by done.
  destruct (Z.eqb_spec (bytes_compare t' t) 0) as [E|N].
  - apply bytes_compare_eq in E as ->. cbn [drop_head] in *. rewrite !decide_True in * by done.
    apply ensures_bind. eapply ensures_mono.
    { apply (on_source_ok st srcs i src (merge_source_advance st ms) rs
        (fun res => term_cursor st src res.2 d)); [done..|].
      intros r Hr. by apply (merge_cursor_advance_ok st src (source_of st srcs Hsrcs i src Hi) ms t e d r). }
    intros [ok ms1] rs1 [Hrs1 Hms1]. cbn [snd] in Hms1. apply ensures_bind.
    eapply ensures_mono; [by apply (IH ds' (S i) rs1)|].
    intros [refs rest] rs2 (Hrs2 & Erefs & Hrest). apply ensures_ret. cbn [fst snd] in *.
    split; [done|]. rewrite Ee, Erefs. split; [done|]. by constructor.
  - assert (Hne : t' <> t) by (intros ->; by rewrite (proj2 (bytes_compare_eq t t) eq_refl) in N).
    cbn [drop_head] in *. rewrite !decide_False in * by done. by apply Hskip.
Qed.

Lemma cursors_stand srcs' mss ds : cursors srcs' mss ds -> Forall2 stands_at mss ds.
Proof. induction 1; constructor; [by eapply cursor_stands|done]. Qed.

Lemma merge_terms_ok fuel : forall mss ds rs,
  readers_ok st srcs rs -> cursors srcs mss ds -> Forall wf_dict ds -> (dict_sizes ds < fuel)%nat ->
  ensures (merge_terms st fuel mss) rs (fun ts rs' => readers_ok st srcs rs' /\ merged_terms ds ts).
Proof.
  induction fuel as [|fuel IH]; intros mss ds rs Hrs Hc Hwf Hf; [lia|]. cbn [merge_terms].
  pose proof (find_min_ok mss ds 0 None (cursors_stand _ _ _ Hc) Hwf ltac:(done)) as Hmin.
  unfold merge_find_min_source. destruct (find_min_source_from 0 None mss) as [m|]; cycle 1.
  { destruct Hmin as [_ Hnil]. apply ensures_ret. split; [done|]. split; [constructor|constructor|].
    intros t. split; [by intros ?%not_elem_of_nil|]. intros (d & Hd & Ht). rewrite Forall_forall in Hnil.
    rewrite <- (Hnil d Hd) in Ht. by apply not_elem_of_nil in Ht. }
  destruct Hmin as (t & Hnt & [|(j & e & d & -> & Hj)] & _ & Hmin); [done|]. rewrite Z.add_0_l.
  destruct (Forall2_lookup_r _ _ _ _ _ (cursors_stand _ _ _ Hc) Hj) as (ms & Hms & (_ & Et & _)).
  apply ensures_bind. eapply ensures_lift; [unfold zread; by rewrite zget_nat, Hms|]. rewrite Et. cbv zeta.
  apply ensures_bind. eapply ensures_mono; [by apply (collect_refs_ok t mss Hnt ds 0 rs)|].
  intros [refs mss1] rs1 (Hrs1 & Erefs & Hc1). cbn [fst snd] in *. subst refs. apply ensures_bind. eapply ensures_mono.
  { apply (IH mss1 (drop_head t <$> ds) rs1 Hrs1 Hc1).
    - apply Forall_fmap. eapply Forall_impl; [exact Hwf|]. intros d0. apply drop_head_wf.
    - pose proof (dict_sizes_drop_head t ds j e d Hj). lia. }
  intros ts rs2 [Hrs2 Hts]. apply ensures_ret. split; [done|]. apply merged_terms_step; [done|done| |done].
  exists ((t, e) :: d), e, d. split; [|done]. by eapply list_elem_of_lookup_2.
Qed.

(** From the beginning. *)
Lemma merge_all_terms mss rs : readers_ok st srcs rs -> cursors srcs mss (so_dict <$> srcs) ->
  ensures (merge_terms st (terms_bound mss) mss) rs (fun ts rs' =>
    readers_ok st srcs rs' /\ merged_terms (so_dict <$> srcs) ts).
Proof.
  intros Hrs Hc. apply merge_terms_ok; [done|done| |].
  - apply Forall_fmap. eapply Forall_impl; [exact Hsrcs|]. intros src Hsrc. pose proof (sat_dict _ _ Hsrc) as Hd.
    split; [apply (da_sorted _ _ _ _ Hd)|apply (da_no_nul _ _ _ _ Hd)].
  - unfold terms_bound, dict_sizes. apply Nat.lt_succ_r. revert Hc. generalize (so_dict <$> srcs) as ds. clear.
    intros ds. induction 1 as [|src ms d srcs' mss ds Hcur Hc IH]; [done|]. csimpl.
    rewrite (tc_num _ _ _ _ Hcur). enough (length d <= length (so_dict src))%nat by (unfold zlen; lia).
    pose proof (tc_place _ _ _ _ Hcur) as Hp. destruct d as [|[t e] d]; [simpl; lia|].
    destruct Hp as (_ & _ & _ & k & _ & ->). rewrite length_drop. lia.
Qed.
End MergeTerms.
