(* ===== verification/MergePostings.v ===== *)
(** * The merge of the posting lists

    [collect_term_postings] walks the posting lists of a term in all its sources with
    cursors.  It returns what [merge_lists] makes of the lists themselves: a
    rearrangement of all their postings, each with the CTID and the tenant of its
    document.  The result does not depend on the storage or the readers, so that
    collecting a term twice gives the same. *)
From S2P Require Import Prelude Postgres Fieldnorm SegmentFormat Compression Storage SegmentIO.
From S2P Require Import Docmap SegmentScan ScanFacts Memtable SegmentWrite SegmentWriteFacts.
From S2P Require Import SegmentEmit SegmentLayout SegmentOpen SegmentContent Merge MergeWrite.
From S2P Require Import MergeReaders MergeTerms.

(** ** Merging lists *)

Section Lists.
Context `{ItemPointerOps}.

Fixpoint min_head_from (i : Z) (min : option (Z * ItemPointerData)) (rems : list (list CollectedPosting))
    : option Z :=
  match rems with
  | [] => fst <$> min
  | rem :: rems' =>
      let min' :=
        match rem with
        | [] => min
        | p :: _ =>
            match min with
            | None => Some (i, cp_ctid p)
            | Some (_, min_ctid) =>
                if ItemPointerCompare (cp_ctid p) min_ctid <? 0 then Some (i, cp_ctid p) else min
            end
        end in
      min_head_from (i + 1) min' rems'
  end.

Fixpoint merge_lists (fuel : nat) (rems : list (list CollectedPosting)) : list CollectedPosting :=
  match fuel with
  | O => []
  | S fuel' =>
      match min_head_from 0 None rems with
      | None => []
      | Some m =>
          match rems !! Z.to_nat m with
          | Some (p :: rest) => p :: merge_lists fuel' (<[Z.to_nat m := rest]> rems)
          | _ => []
          end
      end
  end.

Lemma min_head_ok rems : forall i min,
  match min_head_from i min rems with
  | None => min = None /\ Forall (eq []) rems
  | Some m => (exists c, min = Some (m, c)) \/
      exists (j : nat) p rest, m = i + Z.of_nat j /\ rems !! j = Some (p :: rest)
  end.
Proof.
  induction rems as [|rem rems IH]; intros i min; cbn [min_head_from].
  { destruct min as [[m c]|]; cbn; [left; by exists c|by split]. }
  cbv zeta. set (min' := match rem with [] => _ | _ => _ end).
  assert (Hm : min' = min /\ (rem = [] \/ min <> None) \/
    exists p rest, rem = p :: rest /\ min' = Some (i, cp_ctid p)).
  { unfold min'. destruct rem as [|p rest]; [left; auto|]. destruct min as [[m0 c0]|]; [|right; by eexists _, _].
    case_match; [right; by eexists _, _|left; split; [done|by right]]. }
  specialize (IH (i + 1) min'). destruct (min_head_from (i + 1) min' rems) as [m|].
  - destruct IH as [(c & E)|(j & p & rest & -> & Hj)]; cycle 1.
    { right. exists (S j), p, rest. split; [lia|done]. }
    destruct Hm as [[E1 _]|(p & rest & -> & E1)]; [left; exists c; congruence|].
    right. exists 0%nat, p, rest. rewrite E1 in E. injection E as -> _. split; [lia|done].
  - destruct IH as [E HF]. destruct Hm as [[E1 Hor]|(p & rest & -> & E1)]; [|congruence].
    split; [congruence|]. destruct Hor as [->|Hne]; [by constructor|]. congruence.
Qed.

Lemma concat_all_nil {A} (ls : list (list A)) : Forall (eq []) ls -> concat ls = [].
Proof. induction 1 as [|l ls <- HF IH]; [done|]. exact IH. Qed.

Lemma elem_of_concat {A} (x : A) (ls : list (list A)) : x ∈ concat ls <-> exists l, x ∈ l /\ l ∈ ls.
Proof.
  rewrite list_elem_of_In, in_concat. setoid_rewrite <- list_elem_of_In.
  split; intros (l & ? & ?); by exists l.
Qed.

Lemma concat_insert_tail {A} (ls : list (list A)) (j : nat) p rest : ls !! j = Some (p :: rest) ->
  concat ls ≡ₚ p :: concat (<[j := rest]> ls).
Proof.
  revert j. induction ls as [|l ls IH]; intros [|j] Hj; [done..| |]; simpl in *.
  - by injection Hj as ->.
  - rewrite (IH j Hj). symmetry. apply Permutation_middle.
Qed.

Lemma merge_lists_perm fuel : forall rems, (length (concat rems) < fuel)%nat ->
  merge_lists fuel rems ≡ₚ concat rems.
Proof.
  induction fuel as [|fuel IH]; intros rems Hf; [lia|]. cbn [merge_lists].
  pose proof (min_head_ok rems 0 None) as Hm. destruct (min_head_from 0 None rems) as [m|].
  - destruct Hm as [(? & ?)|(j & p & rest & -> & Hj)]; [done|]. rewrite Z.add_0_l, Nat2Z.id, Hj.
    pose proof (concat_insert_tail _ _ _ _ Hj) as Hp. rewrite Hp, IH; [done|].
    apply Permutation_length in Hp. simpl in Hp. lia.
  - destruct Hm as [_ HF]. by rewrite concat_all_nil.
Qed.
End Lists.

(** ** The cursor of one posting list *)

Definition doc_of (src : source) (doc_id : Z) : segment_doc :=
  default (mkSegmentDoc (mkItemPointer 0 0) 0 0) (zget (so_docs src) doc_id).

(** A posting as it is collected. *)
Definition collected (i : Z) (src : source) (p : TpBlockPosting) : CollectedPosting :=
  mkCollected (sd_ctid (doc_of src (bp_doc_id p))) i (bp_doc_id p) (bp_frequency p) (bp_fieldnorm p)
    (sd_tenant (doc_of src (bp_doc_id p))).

Section Cursor.
Context `{PgLayoutLaws} `{FreeSpaceMapLaws} `{ItemPointerOps} `{QSort} `{HashSeq}.
Context (st : Storage) (src : source) (Hsrc : source_at st src).
Abbreviation h := (so_header src).
Abbreviation s := (stream st (so_pages src)).
Abbreviation I := (source_reader st src).
#[local] Instance access : SegmentAccess TpSegmentReader := reader_access st.
Context (de : TpDictEntry) (bls : blocks) (Hbl : blocks_at s de bls).
Context (Hdocs : Forall (fun p => 0 <= bp_doc_id p < zlen (so_docs src)) (all_postings bls)).

Lemma merge_read_block_ok sk ps r : I r -> skip_entry_ok sk -> block_at s sk ps ->
  runs I (merge_read_block st sk) r ps.
Proof.
  intros Hr Hok (Hcount & Hne & HF & Hbody). unfold merge_read_block. rewrite Hcount.
  destruct (sk_flags sk =? TP_BLOCK_FLAG_DELTA).
  - destruct Hbody as (Hinc & _ & rest & Ha & Hlen).
    eapply (ensures_bind_runs I).
    { replace TP_MAX_COMPRESSED_BLOCK_SIZE with
        (zlen ((byte_of_Z <$> compress_block ps) ++ rest)) by (rewrite zlen_app, zlen_fmap; lia).
      by apply (source_sread st src Hsrc). }
    intros r1 Hr1. eapply ensures_lift; [|done].
    rewrite fmap_app, bytes_roundtrip by by apply bytes_of_compressed. unfold zlen. rewrite Nat2Z.id.
    apply decompress_compress; [done..|]. apply Forall_fmap, Forall_forall.
    intros b _. unfold compose, is_byte. apply Z_of_byte_range.
  - rewrite <- zlen_encode_postings.
    eapply ensures_mono; [apply (runs_fmap I); by apply (source_sread st src Hsrc)|].
    intros a r' [-> Hr']. split; [|done]. rewrite <- (app_nil_r (encode_array _ _)). by apply decode_postings_ok.
Qed.

Record posting_cursor (i : Z) (ps : TpPostingMergeSource) (rem : list TpBlockPosting) : Prop := {
  pc_source : ps_source_idx ps = i;
  pc_offset : ps_skip_index_offset ps = de_skip_index_offset de;
  pc_count : ps_block_count ps = zlen bls;
  pc_place : match rem with
    | [] => ps_exhausted ps = true
    | p :: _ => ps_exhausted ps = false /\
        ps_current ps = mkMergePosting (sd_ctid (doc_of src (bp_doc_id p))) (bp_doc_id p)
                          (bp_frequency p) (bp_fieldnorm p) /\
        exists k j : nat, ps_current_block ps = Z.of_nat k /\ ps_current_in_block ps = Z.of_nat j /\
          bls !! k = Some (ps_skip_entry ps, ps_block_postings ps) /\
          (j < length (ps_block_postings ps))%nat /\
          rem = drop j (ps_block_postings ps) ++ all_postings (drop (S k) bls)
    end;
}.

(** Only the offset of the entry is used. *)
Lemma read_skip_entry_offset (k : Z) :
  tp_segment_read_skip_entry (mkDictEntry (de_skip_index_offset de) 0 0) k = tp_segment_read_skip_entry de k.
Proof. unfold tp_segment_read_skip_entry. by cbn [de_skip_index_offset]. Qed.

Lemma load_ok ps (k : nat) sk bps r : I r -> ps_skip_index_offset ps = de_skip_index_offset de ->
  ps_block_count ps = zlen bls -> ps_current_block ps = Z.of_nat k -> bls !! k = Some (sk, bps) ->
  runs I (posting_source_load_block st ps) r (true, set_block ps 0 sk bps).
Proof.
  intros Hr Ho Hc Hk Hl. unfold posting_source_load_block. rewrite Hc, Hk.
  pose proof (lookup_lt_Some _ _ _ Hl). rewrite (proj2 (Z.leb_gt _ _)) by (unfold zlen; lia).
  destruct (ba_skip _ _ _ Hbl k sk bps Hl) as (Hok & _ & Hat).
  eapply (ensures_bind_runs I).
  { rewrite Ho. apply (source_reads st src Hsrc).
    rewrite read_skip_entry_offset.
    apply (read_skip_entry_ok h s None de bls Hbl k sk bps); [by apply reads_source|done]. }
  intros r1 Hr1. eapply (ensures_bind_runs I); [by apply merge_read_block_ok|].
  intros r2 Hr2. by apply ensures_ret.
Qed.

Lemma postings_in_block (k j : nat) sk bps p : bls !! k = Some (sk, bps) -> bps !! j = Some p ->
  0 <= bp_doc_id p < zlen (so_docs src).
Proof.
  intros Hk Hj. rewrite Forall_forall in Hdocs. apply Hdocs. unfold all_postings.
  apply list_elem_of_In, in_concat. exists bps. split; apply list_elem_of_In.
  - apply (list_elem_of_fmap_2 snd _ (sk, bps)). by eapply list_elem_of_lookup_2.
  - by eapply list_elem_of_lookup_2.
Qed.

(** Converting the current posting. *)
Lemma convert_ok i ps (k j : nat) p r : I r -> ps_source_idx ps = i ->
  ps_skip_index_offset ps = de_skip_index_offset de -> ps_block_count ps = zlen bls ->
  ps_exhausted ps = false -> ps_current_block ps = Z.of_nat k -> ps_current_in_block ps = Z.of_nat j ->
  bls !! k = Some (ps_skip_entry ps, ps_block_postings ps) -> ps_block_postings ps !! j = Some p ->
  ensures (posting_source_convert_current st ps) r (fun ps' r' => I r' /\
    posting_cursor i ps' (drop j (ps_block_postings ps) ++ all_postings (drop (S k) bls))).
Proof.
  intros Hr Hi Ho Hc Hex Hk Hj Hl Hp. unfold posting_source_convert_current.
  apply ensures_bind. eapply ensures_lift; [unfold zread; by rewrite Hj, zget_nat, Hp|].
  pose proof (postings_in_block _ _ _ _ _ Hl Hp) as Hrange.
  destruct (zget_is_Some (so_docs src) (bp_doc_id p) Hrange) as [d Hd]. pose proof Hd as Hd'.
  rewrite zget_lookup in Hd' by lia.
  eapply (ensures_bind_runs I).
  { replace (bp_doc_id p) with (Z.of_nat (Z.to_nat (bp_doc_id p))) by lia. by apply (read_ctid_ok st src Hsrc). }
  intros r1 Hr1. apply ensures_ret. split; [done|]. rewrite (drop_S _ _ _ Hp). cbn [app].
  split; [done|done|done|]. cbn. split; [done|]. split; [by unfold doc_of; rewrite Hd|].
  exists k, j. split; [done|]. split; [done|]. split; [done|].
  split; [by apply lookup_lt_Some in Hp|]. by rewrite (drop_S _ _ _ Hp).
Qed.

Lemma posting_init_ok i r : I r -> de_block_count de = zlen bls ->
  ensures (posting_source_init st i de) r (fun ps r' => I r' /\ posting_cursor i ps (all_postings bls)).
Proof.
  intros Hr Hc. unfold posting_source_init. rewrite Hc. cbv zeta. cbn [ps_exhausted].
  destruct (Z.eqb_spec (zlen bls) 0) as [E|N].
  { apply ensures_ret. split; [done|]. split; cbn; [done..|].
    destruct bls as [|x l]; [done|]. rewrite zlen_cons in E. pose proof (zlen_nonneg l). lia. }
  destruct (lookup_lt_is_Some_2 bls 0) as [[sk bps] Hl]; [unfold zlen in N; lia|].
  eapply (ensures_bind_runs I); [by apply (load_ok _ 0 sk bps)|]. intros r1 Hr1. cbv beta iota.
  destruct (block_nonempty s de bls Hbl 0 sk bps Hl) as [Hne _]. destruct bps as [|p bps]; [done|].
  replace (all_postings bls) with (drop 0 (p :: bps) ++ all_postings (drop 1 bls))
    by (symmetry; exact (all_postings_drop bls 0 _ _ Hl)).
  set (ps := set_block _ 0 sk (p :: bps)).
  change (ensures (posting_source_convert_current st ps) r1 (fun ps' r' => I r' /\
    posting_cursor i ps' (drop 0 (ps_block_postings ps) ++ all_postings (drop 1 bls)))).
  by apply (convert_ok i ps 0 0 p).
Qed.

Lemma posting_advance_ok i ps p rem r : I r -> posting_cursor i ps (p :: rem) ->
  ensures (posting_source_advance st ps) r (fun res r' => I r' /\ posting_cursor i res.2 rem).
Proof.
  intros Hr [Hi Ho Hc (Hex & _ & k & j & Hk & Hj & Hl & Hlt & Hrem)].
  destruct (block_nonempty s de bls Hbl k _ _ Hl) as [Hne Hcnt].
  assert (Hrem' : rem = drop (S j) (ps_block_postings ps) ++ all_postings (drop (S k) bls)).
  { destruct (lookup_lt_is_Some_2 _ _ Hlt) as [q Hq]. rewrite (drop_S _ _ _ Hq) in Hrem.
    by injection Hrem as _ ->. }
  unfold posting_source_advance. rewrite Hex. cbv zeta. cbn [posting_source_next_block].
  cbn [set_place ps_skip_entry ps_current_in_block ps_block_count ps_current_block ps_exhausted].
  rewrite Hcnt, Hj, Hk, Hc. unfold zlen at 1.
  destruct (Z.leb_spec (Z.of_nat (length (ps_block_postings ps))) (Z.of_nat j + 1)) as [L|L]; cycle 1.
  { destruct (lookup_lt_is_Some_2 (ps_block_postings ps) (S j)) as [q Hq]; [lia|].
    apply ensures_bind, ensures_ret. cbn [negb]. apply ensures_bind. eapply ensures_mono.
    { apply (convert_ok i _ k (S j) q r); try done; cbn; lia. }
    intros ps' r' [Hr' Hcur]. apply ensures_ret. split; [done|]. cbn [snd]. by rewrite Hrem'. }
  rewrite (drop_ge (ps_block_postings ps)) in Hrem' by lia. cbn [app] in Hrem'.
  destruct (Z.leb_spec (zlen bls) (Z.of_nat k + 1)) as [L2|L2].
  { apply ensures_bind, ensures_ret. cbn [negb]. apply ensures_ret. split; [done|]. cbn [snd].
    rewrite drop_ge in Hrem' by (unfold zlen in L2; lia). subst rem. by split. }
  destruct (lookup_lt_is_Some_2 bls (S k)) as [[sk' bps'] Hl']; [unfold zlen in L2; lia|].
  destruct (block_nonempty s de bls Hbl (S k) _ _ Hl') as [Hne' Hcnt'].
  apply ensures_bind. eapply (ensures_bind_runs I).
  { apply (load_ok _ (S k) sk' bps'); try done; cbn; lia. }
  intros r1 Hr1. cbv beta iota. destruct bps' as [|q bps']; [done|].
  cbn [set_block ps_skip_entry ps_current_in_block posting_source_next_block]. rewrite Hcnt', zlen_cons.
  pose proof (zlen_nonneg bps'). rewrite (proj2 (Z.leb_gt _ _)) by lia. apply ensures_ret. cbn [negb].
  apply ensures_bind. eapply ensures_mono.
  { apply (convert_ok i _ (S k) 0 q r1); try done; cbn; lia. }
  intros ps' r' [Hr' Hcur]. apply ensures_ret. split; [done|]. cbn [snd].
  by rewrite Hrem', (all_postings_drop bls _ _ _ Hl').
Qed.
End Cursor.

(** ** All the posting lists of a term *)

Section Collect.
Context `{PgLayoutLaws} `{FreeSpaceMapLaws} `{ItemPointerOps} `{QSort} `{HashSeq}.

Lemma source_postings_ok st src t : source_at st src ->
  postings_ok (zlen (so_docs src)) (content_postings (so_content src) t).
Proof.
  intros Hsrc. pose proof (tat_postings _ _ _ _ (sh_terms _ _ _ (sat_holds _ _ Hsrc))) as HF.
  unfold content_postings. induction HF as [|[t' ps] l [Hps _] HF IH]; [by split; constructor|].
  cbn [foldr fst snd]. by case_decide.
Qed.

Section Sources.
Context (srcs : list source).

(** The postings that a reference stands for. *)
Definition ref_postings (t : list byte) (ref : TpTermSegmentRef) : list CollectedPosting :=
  match zget srcs (sr_segment_idx ref) with
  | Some src => collected (sr_segment_idx ref) src <$> content_postings (so_content src) t
  | None => []
  end.

(** The collected postings of a merged term. *)
Definition term_postings (term : TpMergedTerm) : list CollectedPosting :=
  merge_lists (postings_bound (mt_segment_refs term))
    (ref_postings (mt_term term) <$> mt_segment_refs term).

Context (st : Storage) (Hsrcs : Forall (source_at st) srcs).

Definition ref_ok (t : list byte) (ref : TpTermSegmentRef) : Prop :=
  exists (n : nat) src, sr_segment_idx ref = Z.of_nat n /\ srcs !! n = Some src /\
    (t, sr_entry ref) ∈ so_dict src.

(** The posting source has the postings [rem] before it. *)
Definition stands_before (ps : TpPostingMergeSource) (rem : list CollectedPosting) : Prop :=
  exists (n : nat) src de bls rem0, srcs !! n = Some src /\
    blocks_at (stream st (so_pages src)) de bls /\
    Forall (fun p => 0 <= bp_doc_id p < zlen (so_docs src)) (all_postings bls) /\
    posting_cursor src de bls (Z.of_nat n) ps rem0 /\ rem = collected (Z.of_nat n) src <$> rem0.

Lemma find_min_posting_ok pss rems : Forall2 stands_before pss rems -> forall i min,
  find_min_posting_from i min pss = min_head_from i min rems.
Proof.
  induction 1 as [|ps rem pss rems Hps HF IH]; intros i min; [done|].
  cbn [find_min_posting_from min_head_from]. cbv zeta. rewrite IH. f_equal.
  destruct Hps as (n & src & de & bls & rem0 & _ & _ & _ & Hc & ->).
  pose proof (pc_place _ _ _ _ _ _ Hc) as Hp. destruct rem0 as [|p rem0]; csimpl; [by rewrite Hp|].
  destruct Hp as (-> & -> & _). done.
Qed.

Lemma ref_blocks t ref (n : nat) src : srcs !! n = Some src -> (t, sr_entry ref) ∈ so_dict src ->
  exists bls, blocks_at (stream st (so_pages src)) (sr_entry ref) bls /\
    all_postings bls = content_postings (so_content src) t /\
    Forall (fun p => 0 <= bp_doc_id p < zlen (so_docs src)) (all_postings bls).
Proof.
  intros Hn Hin. pose proof (source_of st srcs Hsrcs n src Hn) as Hsrc.
  destruct (sat_blocks _ _ Hsrc _ _ Hin) as (bls & Hbl & Eall). exists bls. split; [done|].
  split; [done|]. rewrite Eall. eapply Forall_impl; [apply (po_fields _ _ (source_postings_ok st src t Hsrc))|].
  by intros p [_ ?].
Qed.

Lemma init_posting_sources_ok t refs : forall rs, readers_ok st srcs rs -> Forall (ref_ok t) refs ->
  ensures (init_posting_sources st refs) rs (fun pss rs' => readers_ok st srcs rs' /\
    Forall2 stands_before pss (ref_postings t <$> refs)).
Proof.
  induction refs as [|ref refs IH]; intros rs Hrs HF; cbn [init_posting_sources].
  { apply ensures_ret. split; [done|constructor]. }
  apply Forall_cons in HF as [(n & src & En & Hn & Hin) HF].
  destruct (ref_blocks t ref n src Hn Hin) as (bls & Hbl & Eall & Hdocs).
  pose proof (source_of st srcs Hsrcs n src Hn) as Hsrc. rewrite En.
  apply ensures_bind. eapply ensures_mono.
  { apply (on_source_ok st srcs n src (posting_source_init st (Z.of_nat n) (sr_entry ref)) rs
      (fun ps => posting_cursor src (sr_entry ref) bls (Z.of_nat n) ps (all_postings bls))); [done..|].
    intros r Hr. apply (posting_init_ok st src Hsrc (sr_entry ref) bls Hbl Hdocs); [done|].
    apply (ba_count _ _ _ Hbl). }
  intros ps rs1 [Hrs1 Hps]. apply ensures_bind. eapply ensures_mono; [by apply IH|].
  intros pss rs2 [Hrs2 Hpss]. apply ensures_ret. split; [done|]. csimpl. constructor; [|done].
  unfold ref_postings at 1. rewrite En, zget_nat, Hn, <- Eall.
  by exists n, src, (sr_entry ref), bls, (all_postings bls).
Qed.

Lemma collect_loop_ok fuel : forall pss rems rs, readers_ok st srcs rs -> Forall2 stands_before pss rems ->
  (length (concat rems) < fuel)%nat ->
  runs (readers_ok st srcs) (collect_loop st fuel pss) rs (merge_lists fuel rems).
Proof.
  induction fuel as [|fuel IH]; intros pss rems rs Hrs HF Hf; [lia|]. cbn [collect_loop merge_lists].
  unfold find_min_posting_source. rewrite (find_min_posting_ok pss rems HF).
  pose proof (min_head_ok rems 0 None) as Hm. destruct (min_head_from 0 None rems) as [m|];
    [|by apply ensures_ret].
  destruct Hm as [(? & ?)|(j & p & rest & -> & Hj)]; [done|]. rewrite Z.add_0_l, Nat2Z.id, Hj.
  destruct (Forall2_lookup_r _ _ _ _ _ HF Hj) as (ps & Hps & n & src & de & bls & rem0 & Hn & Hbl & Hdocs & Hc & Erem).
  destruct rem0 as [|bp rem0]; [done|]. rewrite fmap_cons in Erem. injection Erem as -> ->.
  pose proof (source_of st srcs Hsrcs n src Hn) as Hsrc.
  pose proof Hc as [Ei _ _ (Hex & Ecur & k & j0 & _ & _ & Hl & Hlt & Ebp)].
  assert (Hrange : 0 <= bp_doc_id bp < zlen (so_docs src)).
  { destruct (lookup_lt_is_Some_2 _ _ Hlt) as [q Hq]. rewrite (drop_S _ _ _ Hq) in Ebp.
    injection Ebp as -> _. by apply (postings_in_block src bls Hdocs k j0 _ _ _ Hl). }
  apply ensures_bind. eapply ensures_lift; [unfold zread; by rewrite zget_nat, Hps|]. cbv zeta.
  rewrite Ecur, Ei. cbn [mp_old_doc_id mp_ctid mp_frequency mp_fieldnorm].
  destruct (zget_is_Some (so_docs src) (bp_doc_id bp) Hrange) as [d Hd].
  eapply (ensures_bind_runs (readers_ok st srcs)).
  { apply (on_source_runs st srcs n src _ rs (sd_tenant d)); [done..|]. intros r Hr.
    rewrite zget_lookup in Hd by lia. replace (bp_doc_id bp) with (Z.of_nat (Z.to_nat (bp_doc_id bp))) by lia.
    by apply (tenant_id_ok st src Hsrc). }
  intros rs1 Hrs1. apply ensures_bind. eapply ensures_mono.
  { apply (on_source_ok st srcs n src (posting_source_advance st ps) rs1
      (fun res => posting_cursor src de bls (Z.of_nat n) res.2 rem0)); [done..|].
    intros r Hr. by apply (posting_advance_ok st src Hsrc de bls Hbl Hdocs _ ps bp rem0). }
  intros [ok ps1] rs2 [Hrs2 Hps1]. cbn [snd] in Hps1.
  eapply (ensures_bind_runs (readers_ok st srcs)).
  { apply (IH (<[j:=ps1]> pss) (<[j := collected (Z.of_nat n) src <$> rem0]> rems)); [done| |].
    - apply Forall2_insert; [done|]. by exists n, src, de, bls, rem0.
    - pose proof (Permutation_length (concat_insert_tail _ _ _ _ Hj)) as Hlen. simpl in Hlen. lia. }
  intros rs3 Hrs3. apply ensures_ret. split; [|done]. f_equal. unfold collected, doc_of. by rewrite Hd.
Qed.

(** The fuel: a block has at most 255 postings. *)
Lemma blocks_few src de bls : blocks_at (stream st (so_pages src)) de bls ->
  (length (all_postings bls) <= 256 * Z.to_nat (de_block_count de))%nat.
Proof.
  intros Hbl. rewrite (ba_count _ _ _ Hbl). unfold zlen. rewrite Nat2Z.id.
  assert (HF : Forall (fun b : TpSkipEntry * list TpBlockPosting => (length b.2 <= 256)%nat) bls).
  { apply Forall_lookup_2. intros k [sk ps] Hk. destruct (ba_skip _ _ _ Hbl k sk ps Hk) as (Hok & _ & Hat).
    destruct Hat as (Hc & _). destruct Hok as (_ & Hcnt & _). unfold fits in Hcnt. cbn in Hcnt |- *.
    unfold zlen in Hc. lia. }
  clear Hbl. unfold all_postings. induction HF as [|b l Hb HF IH]; [simpl; lia|]. csimpl.
  rewrite length_app. lia.
Qed.

Lemma postings_bound_ok t refs : Forall (ref_ok t) refs ->
  (length (concat (ref_postings t <$> refs)) < postings_bound refs)%nat.
Proof.
  unfold postings_bound. intros HF. apply Nat.lt_succ_r.
  induction HF as [|ref refs (n & src & En & Hn & Hin) HF IH]; [done|].
  rewrite fmap_cons. cbn [concat foldr]. rewrite length_app.
  destruct (ref_blocks t ref n src Hn Hin) as (bls & Hbl & Eall & _).
  pose proof (blocks_few src _ _ Hbl). unfold ref_postings at 1. rewrite En, zget_nat, Hn, length_fmap, <- Eall. lia.
Qed.

Lemma collect_term_postings_ok term rs : readers_ok st srcs rs ->
  Forall (ref_ok (mt_term term)) (mt_segment_refs term) ->
  runs (readers_ok st srcs) (collect_term_postings st term) rs (term_postings term).
Proof.
  intros Hrs HF. unfold collect_term_postings. apply ensures_bind.
  eapply ensures_mono; [by apply init_posting_sources_ok|]. intros pss rs1 [Hrs1 Hpss].
  apply collect_loop_ok; [done|done|]. by apply postings_bound_ok.
Qed.

(** Nothing is lost or invented. *)
Lemma term_postings_perm term : Forall (ref_ok (mt_term term)) (mt_segment_refs term) ->
  term_postings term ≡ₚ concat (ref_postings (mt_term term) <$> mt_segment_refs term).
Proof. intros HF. apply merge_lists_perm. by apply postings_bound_ok. Qed.
End Sources.

(** The references of a merged term give the postings of the term in every source. *)
Lemma refs_of_ok t srcs : forall srcs' (i : nat), drop i srcs = srcs' ->
  Forall (ref_ok srcs t) (refs_of (Z.of_nat i) t (so_dict <$> srcs')).
Proof.
  induction srcs' as [|src srcs' IH]; intros i Hi; [constructor|]. csimpl. cbn [refs_of].
  assert (Hl : srcs !! i = Some src) by (rewrite <- (Nat.add_0_r i), <- lookup_drop, Hi; done).
  assert (Hi' : drop (S i) srcs = srcs') by (rewrite (drop_S _ _ _ Hl) in Hi; by injection Hi).
  replace (Z.of_nat i + 1) with (Z.of_nat (S i)) by lia.
  destruct (dict_find t (so_dict src)) as [e|] eqn:E; [|by apply IH]. constructor; [|by apply IH].
  exists i, src. split; [done|]. split; [done|]. cbn. revert E. generalize (so_dict src) as d.
  induction d as [|[t' e'] d IHd]; [done|]. simpl. case_decide as Et; [|by right; apply IHd].
  intros [= ->]. rewrite Et. left.
Qed.

Lemma dict_find_none t d : dict_find t d = None -> t ∉ d.*1.
Proof.
  induction d as [|[t' e] d IH]; [intros _; apply not_elem_of_nil|]. simpl. case_decide; [done|].
  intros E. csimpl. apply not_elem_of_cons. split; [congruence|by apply IH].
Qed.

Lemma refs_postings t srcs st : Forall (source_at st) srcs -> forall srcs' (i : nat), drop i srcs = srcs' ->
  concat (ref_postings srcs t <$> refs_of (Z.of_nat i) t (so_dict <$> srcs')) =
  concat (imap (fun j src => collected (Z.of_nat (i + j)) src <$> content_postings (so_content src) t) srcs').
Proof.
  intros Hsrcs. induction srcs' as [|src srcs' IH]; intros i Hi; [done|]. csimpl. cbn [refs_of].
  assert (Hl : srcs !! i = Some src) by (rewrite <- (Nat.add_0_r i), <- lookup_drop, Hi; done).
  assert (Hi' : drop (S i) srcs = srcs') by (rewrite (drop_S _ _ _ Hl) in Hi; by injection Hi).
  replace (Z.of_nat i + 1) with (Z.of_nat (S i)) by lia. specialize (IH (S i) Hi').
  rewrite Nat.add_0_r. rewrite (imap_ext _ (fun j src => collected (Z.of_nat (S i + j)) src <$>
    content_postings (so_content src) t) srcs') by (intros j x _; simpl; by rewrite Nat.add_succ_r).
  rewrite <- IH. destruct (dict_find t (so_dict src)) as [e|] eqn:E.
  - csimpl. f_equal. unfold ref_postings. cbn [sr_segment_idx]. by rewrite zget_nat, Hl.
  - rewrite content_postings_none; [done|]. pose proof (source_of st srcs Hsrcs i src Hl) as Hsrc.
    rewrite <- (sat_terms _ _ Hsrc). by apply dict_find_none.
Qed.
End Collect.
