(* ===== verification/MergeDocs.v ===== *)
(** * The documents of a merge

    [build_merged_docmap] adds the documents of all sources to one builder, with the
    lengths their fieldnorms decode to, and maps the document numbers of each source
    to those of the finalised map. *)
From S2P Require Import Prelude Postgres Fieldnorm SegmentFormat Compression Storage SegmentIO.
From S2P Require Import Docmap SegmentScan ScanFacts Memtable MemtableFacts SegmentWrite SegmentWriteFacts.
From S2P Require Import SegmentEmit SegmentLayout SegmentOpen SegmentContent SegmentDocs Merge MergeWrite.
From S2P Require Import MergeReaders.

Lemma decode_range b : 0 <= b < 256 -> 0 <= decode_fieldnorm b < 2 ^ 32.
Proof.
  intros Hb. pose proof (decode_mono 0 b). pose proof (decode_mono b 255).
  change (decode_fieldnorm 0) with 0 in *. change (decode_fieldnorm 255) with 2013265944 in *. lia.
Qed.

(** A document of a segment, as it is added again. *)
Definition merge_entry (d : segment_doc) : TpDocLengthEntry :=
  mkDocLengthEntry (sd_ctid d) (decode_fieldnorm (sd_fieldnorm d)) (sd_tenant d).

Definition merge_document (d : segment_doc) : document :=
  mkDocument (sd_ctid d) [] [] (decode_fieldnorm (sd_fieldnorm d)) (sd_tenant d).

Definition new_ids (docmap : TpDocMapBuilder) (docs : list segment_doc) : list Z :=
  (fun d => tp_docmap_lookup docmap (sd_ctid d)) <$> docs.

Section Documents.
Context `{PgLayoutLaws} `{FreeSpaceMapLaws} `{ItemPointerOps} `{QSort} `{HashSeq}.

Lemma add_to_docmap_app b ds1 ds2 :
  add_to_docmap b (ds1 ++ ds2) = b' ← add_to_docmap b ds1; add_to_docmap b' ds2.
Proof.
  revert b. induction ds1 as [|d ds1 IH]; intros b; [done|]. cbn [app add_to_docmap].
  destruct (tp_docmap_add b _ _ _) as [[id b1]|]; cbn [mbind res_bind]; [apply IH|done].
Qed.

Section Source.
Context (st : Storage) (src : source) (Hsrc : source_at st src).
Abbreviation I := (source_reader st src).

Lemma add_source_docs_ok docs : forall (j : nat) docmap docmap' r, I r ->
  drop j (so_docs src) = docs -> add_to_docmap docmap (merge_entry <$> docs) = Ok docmap' ->
  runs I (add_source_docs st (length docs) (Z.of_nat j) docmap) r docmap'.
Proof.
  induction docs as [|d docs IH]; intros j docmap docmap' r Hr Hj Hadd; cbn [length add_source_docs].
  { injection Hadd as <-. by apply ensures_ret. }
  assert (Hl : so_docs src !! j = Some d) by (rewrite <- (Nat.add_0_r j), <- lookup_drop, Hj; done).
  apply ensures_bind, ensures_gets. change (sheader r) with (r_header r). rewrite (sr_header _ _ _ Hr).
  eapply (ensures_bind_runs I); [by apply (read_ctid_ok st src Hsrc r j d)|]. intros r1 Hr1.
  destruct (read_fieldnorm_ok st src Hsrc r1 j d Hr1 Hl) as (norm & En & Hrun).
  eapply (ensures_bind_runs I); [exact Hrun|]. intros r2 Hr2.
  eapply (ensures_bind_runs I); [by apply (tenant_id_ok st src Hsrc r2 j d)|]. intros r3 Hr3. rewrite En.
  csimpl in Hadd. cbn [add_to_docmap merge_entry dl_ctid dl_doc_length dl_tenant_id] in Hadd.
  destruct (source_doc_range st src Hsrc j d Hl) as (_ & Hnorm & _).
  rewrite (wrap_small 32) in Hadd by by apply decode_range.
  destruct (tp_docmap_add docmap _ _ _) as [[id docmap1]|] eqn:Ea; [|done]. cbn [mbind res_bind] in Hadd.
  apply ensures_bind. eapply ensures_lift; [done|]. cbv beta iota.
  replace (Z.of_nat j + 1) with (Z.of_nat (S j)) by lia. apply IH; [done| |done].
  rewrite (drop_S _ _ _ Hl) in Hj. by injection Hj.
Qed.

Lemma map_source_docs_ok docmap docs : forall (j : nat) r, I r -> drop j (so_docs src) = docs ->
  runs I (map_source_docs st (length docs) (Z.of_nat j) docmap) r (new_ids docmap docs).
Proof.
  induction docs as [|d docs IH]; intros j r Hr Hj; cbn [length map_source_docs]; [by apply ensures_ret|].
  assert (Hl : so_docs src !! j = Some d) by (rewrite <- (Nat.add_0_r j), <- lookup_drop, Hj; done).
  eapply (ensures_bind_runs I); [by apply (read_ctid_ok st src Hsrc r j d)|]. intros r1 Hr1.
  replace (Z.of_nat j + 1) with (Z.of_nat (S j)) by lia.
  eapply (ensures_bind_runs I).
  { apply IH; [done|]. rewrite (drop_S _ _ _ Hl) in Hj. by injection Hj. }
  intros r2 Hr2. by apply ensures_ret.
Qed.

(** The header a source shows. *)
Lemma source_ctids_offset : (ctid_pages_offset (so_header src) =? 0) = false.
Proof.
  pose proof (op_pages_pos _ _ _ _ (dat_openable _ _ _ (sh_docs _ _ _ (sat_holds _ _ Hsrc)))).
  apply Z.eqb_neq. lia.
Qed.

Lemma source_doc_count : Z.to_nat (SegmentFormat.num_docs (so_header src)) = length (so_docs src).
Proof. rewrite (source_num_docs st src Hsrc). unfold zlen. lia. Qed.
End Source.

Section Sources.
Context (st : Storage) (srcs : list source) (Hsrcs : Forall (source_at st) srcs).
Abbreviation RI := (readers_ok st srcs).

Lemma source_header_ok (i : nat) src rs : RI rs -> srcs !! i = Some src ->
  runs RI (on_source (Z.of_nat i) (rst_gets (@sheader TpSegmentReader (reader_access st)))) rs (so_header src).
Proof.
  intros Hrs Hi. apply (on_source_runs st srcs i src); [done..|]. intros r Hr. apply ensures_gets.
  split; [|done]. apply (sr_header _ _ _ Hr).
Qed.

Lemma drop_cons_S {A} (l : list A) (i : nat) x l' : drop i l = x :: l' -> l !! i = Some x /\ drop (S i) l = l'.
Proof.
  intros E. assert (Hl : l !! i = Some x) by (rewrite <- (Nat.add_0_r i), <- lookup_drop, E; done).
  split; [done|]. rewrite (drop_S _ _ _ Hl) in E. by injection E.
Qed.

Lemma add_sources_ok srcs' : forall (i : nat) docmap docmap' rs, RI rs -> drop i srcs = srcs' ->
  add_to_docmap docmap (merge_entry <$> concat ((fun src => so_docs src) <$> srcs')) = Ok docmap' ->
  runs RI (add_sources st (Z.of_nat i) (length srcs') docmap) rs docmap'.
Proof.
  induction srcs' as [|src srcs' IH]; intros i docmap docmap' rs Hrs Hi Hadd; cbn [length add_sources].
  { injection Hadd as <-. by apply ensures_ret. }
  apply drop_cons_S in Hi as [Hl Hi]. pose proof (source_of st srcs Hsrcs i src Hl) as Hsrc.
  rewrite fmap_cons in Hadd. cbn [concat] in Hadd. rewrite fmap_app, add_to_docmap_app in Hadd.
  cbv beta in Hadd.
  destruct (add_to_docmap docmap (merge_entry <$> so_docs src)) as [docmap1|] eqn:E1; [|done].
  cbn [mbind res_bind] in Hadd.
  eapply (ensures_bind_runs RI); [by apply source_header_ok|]. intros rs1 Hrs1.
  rewrite (source_ctids_offset st src Hsrc), (source_doc_count st src Hsrc).
  eapply (ensures_bind_runs RI).
  { eapply (ensures_bind_runs RI).
    - apply (on_source_runs st srcs i src); [done..|]. intros r Hr. eapply ensures_mono.
      + by apply (load_tenant_ids_runs st src Hsrc).
      + by intros [] r' (_ & ? & _).
    - intros rs2 Hrs2. apply (on_source_runs st srcs i src); [done..|]. intros r Hr.
      by apply (add_source_docs_ok st src Hsrc (so_docs src) 0). }
  intros rs3 Hrs3. replace (Z.of_nat i + 1) with (Z.of_nat (S i)) by lia. by apply IH.
Qed.

Lemma map_sources_ok docmap srcs' : forall (i : nat) rs, RI rs -> drop i srcs = srcs' ->
  runs RI (map_sources st (Z.of_nat i) (length srcs') docmap) rs
    ((fun src => new_ids docmap (so_docs src)) <$> srcs').
Proof.
  induction srcs' as [|src srcs' IH]; intros i rs Hrs Hi; cbn [length map_sources]; [by apply ensures_ret|].
  apply drop_cons_S in Hi as [Hl Hi]. pose proof (source_of st srcs Hsrcs i src Hl) as Hsrc.
  eapply (ensures_bind_runs RI); [by apply source_header_ok|]. intros rs1 Hrs1.
  rewrite (source_ctids_offset st src Hsrc), (source_doc_count st src Hsrc).
  eapply (ensures_bind_runs RI).
  { apply (on_source_runs st srcs i src); [done..|]. intros r Hr.
    by apply (map_source_docs_ok st src Hsrc docmap (so_docs src) 0). }
  intros rs2 Hrs2. replace (Z.of_nat i + 1) with (Z.of_nat (S i)) by lia.
  eapply (ensures_bind_runs RI); [by apply IH|]. intros rs3 Hrs3. by apply ensures_ret.
Qed.

Lemma build_merged_docmap_ok b rs : RI rs ->
  add_to_docmap tp_docmap_create (merge_entry <$> concat ((fun src => so_docs src) <$> srcs)) = Ok b ->
  runs RI (build_merged_docmap st (length srcs)) rs
    (tp_docmap_finalize b, (fun src => new_ids (tp_docmap_finalize b) (so_docs src)) <$> srcs).
Proof.
  intros Hrs Hadd. unfold build_merged_docmap.
  eapply (ensures_bind_runs RI); [by apply (add_sources_ok srcs 0)|]. intros rs1 Hrs1. cbv zeta.
  eapply (ensures_bind_runs RI); [by apply (map_sources_ok _ srcs 0)|]. intros rs2 Hrs2.
  by apply ensures_ret.
Qed.
End Sources.
End Documents.
