(* ===== verification/MergeEmit.v ===== *)
(** * The bytes of a merged segment

    While the merge writes, it reads: [streams m data a bs] says that after [data] the
    computation [m] appends [bs] and returns [a], and that the sources and their
    readers are as good as before.  [merged_sections_emitted] is the counterpart of
    [sections_emitted]: a merged segment has the bytes of a plan too. *)
From S2P Require Import Prelude Postgres Fieldnorm SegmentFormat Compression Storage SegmentIO.
From S2P Require Import Docmap SegmentScan ScanFacts Memtable MemtableFacts SegmentWrite SegmentWriteFacts.
From S2P Require Import SegmentEmit SegmentLayout SegmentOpen SegmentContent SegmentDocs Merge MergeWrite.
From S2P Require Import MergeReaders MergeTerms MergePostings MergeDocs.

Section Streams.
Context `{PgLayoutLaws} `{FreeSpaceMapLaws} `{ItemPointerOps} `{QSort} `{HashSeq}.
Context (srcs : list source).

(** The sources are readable and their pages are not the writer's. *)
Record merge_ok (st : Storage) (w : TpSegmentWriter) (rs : readers) : Prop := {
  mk_sources : Forall (source_at st) srcs;
  mk_readers : readers_ok st srcs rs;
  mk_apart : forall src b, src ∈ srcs -> b ∈ so_pages src -> b ∉ st_fsm st /\ b ∉ w_pages w;
}.

Definition streams {A} (m : rst merge_state A) (data : list byte) (a : A) (bs : list byte) : Prop :=
  zlen data + zlen bs < 2 ^ 32 -> forall st w rs, writer_inv st w data -> merge_ok st w rs ->
  exists st' w' rs', m ((st, w), rs) = Ok (a, ((st', w'), rs')) /\ writer_inv st' w' (data ++ bs) /\
    writer_frame st w st' w' /\ merge_ok st' w' rs'.

(** What the writer does leaves the sources alone. *)
Lemma merge_ok_frame st w rs st' w' data : merge_ok st w rs -> writer_frame st w st' w' ->
  writer_inv st' w' data -> merge_ok st' w' rs.
Proof.
  intros [Hs Hr Ha] Hfr Hi.
  assert (Hkept : forall src, src ∈ srcs -> source_kept st st' src).
  { intros src Hsrc. rewrite Forall_forall in Hs. pose proof (sat_in _ _ (Hs src Hsrc)) as Hin.
    rewrite Forall_forall in Hin. pose proof (wf_blocks _ _ _ _ Hfr) as Hb.
    split; [apply (wi_storage _ _ _ Hi)| |].
    - apply Forall_forall. intros b Hb'. specialize (Hin b Hb'). unfold in_relation in *. lia.
    - intros b Hb'. destruct (Ha src b Hsrc Hb') as [? ?].
      by apply page_at_data, (wf_keep _ _ _ _ Hfr b (Hin b Hb')). }
  split.
  - rewrite Forall_forall in Hs |- *. intros src Hsrc. eapply source_at_kept; eauto.
  - unfold readers_ok in *. rewrite Forall2_lookup in Hr |- *. intros i. specialize (Hr i).
    destruct (srcs !! i) as [src|] eqn:Ei; inversion Hr as [? r Hsr|]; constructor.
    eapply source_reader_kept; [|done]. apply Hkept. by eapply list_elem_of_lookup_2.
  - intros src b Hsrc Hb. destruct (Ha src b Hsrc Hb) as [Hf Hw].
    split; [intros Hf'; by apply Hf, (wf_fsm _ _ _ _ Hfr)|].
    rewrite Forall_forall in Hs. pose proof (sat_in _ _ (Hs src Hsrc)) as Hin. rewrite Forall_forall in Hin.
    by apply (wf_keep _ _ _ _ Hfr b (Hin b Hb)).
Qed.

Lemma streams_ret {A} (a : A) data : streams (mret a) data a [].
Proof.
  intros _ st w rs Hi Hm. exists st, w, rs. rewrite app_nil_r. split; [done|]. split; [done|].
  split; [by apply writer_frame_refl|done].
Qed.

Lemma streams_bind {A B} (m : rst merge_state A) (f : A -> rst merge_state B) data a b b1 b2 :
  streams m data a b1 -> streams (f a) (data ++ b1) b b2 -> streams (m ≫= f) data b (b1 ++ b2).
Proof.
  intros Hm Hf H32 st w rs Hi Hok. rewrite zlen_app in H32. pose proof (zlen_nonneg b1).
  pose proof (zlen_nonneg b2).
  destruct (Hm ltac:(lia) st w rs Hi Hok) as (st1 & w1 & rs1 & E1 & Hi1 & Hfr1 & Hok1).
  destruct (Hf ltac:(rewrite zlen_app; lia) st1 w1 rs1 Hi1 Hok1) as (st2 & w2 & rs2 & E2 & Hi2 & Hfr2 & Hok2).
  exists st2, w2, rs2. unfold mbind, rst_bind. rewrite E1, E2, app_assoc.
  split; [done|]. split; [done|]. split; [by eapply writer_frame_trans|done].
Qed.

Lemma streams_bind_nil {A B} (m : rst merge_state A) (f : A -> rst merge_state B) data a b bs :
  streams m data a [] -> streams (f a) data b bs -> streams (m ≫= f) data b bs.
Proof.
  intros Hm Hf. change bs with ([] ++ bs). eapply streams_bind; [done|]. by rewrite app_nil_r.
Qed.

Lemma streams_bind_last {A B} (m : rst merge_state A) (f : A -> rst merge_state B) data a b bs :
  streams m data a bs -> streams (f a) (data ++ bs) b [] -> streams (m ≫= f) data b bs.
Proof. intros Hm Hf. rewrite <- (app_nil_r bs). by eapply streams_bind. Qed.

(** The writer's part. *)
Lemma streams_writer {A} (m : rst writer_state A) data a bs :
  emits m data a bs -> streams (on_writer m) data a bs.
Proof.
  intros Hm H32 st w rs Hi Hok. destruct (Hm H32 st w Hi) as (st' & w' & E & Hi' & Hfr).
  exists st', w', rs. unfold on_writer. rewrite E. split; [done|]. split; [done|]. split; [done|].
  by eapply merge_ok_frame.
Qed.

(** The readers' part. *)
Lemma streams_readers {A} (m : Storage -> rst readers A) data a :
  (forall st rs, Forall (source_at st) srcs -> readers_ok st srcs rs ->
     runs (readers_ok st srcs) (m st) rs a) ->
  streams (on_readers m) data a [].
Proof.
  intros Hm _ st w rs Hi [Hs Hr Ha]. destruct (Hm st rs Hs Hr) as (a' & rs' & E & -> & Hr').
  exists st, w, rs'. unfold on_readers. rewrite E, app_nil_r. split; [done|]. split; [done|].
  split; [by apply writer_frame_refl|by split].
Qed.

Lemma streams_lift {A} (r : res A) a data : r = Ok a -> streams (rst_lift r) data a [].
Proof.
  intros -> _ st w rs Hi Hok. exists st, w, rs. rewrite app_nil_r. split; [done|]. split; [done|].
  split; [by apply writer_frame_refl|done].
Qed.

Lemma streams_offset data : streams (on_writer current_offset) data (zlen data) [].
Proof. apply streams_writer, emits_offset. Qed.

Lemma streams_gets {A} (f : merge_state -> A) data a :
  (forall st w rs, Forall (source_at st) srcs -> readers_ok st srcs rs -> f ((st, w), rs) = a) ->
  streams (rst_gets f) data a [].
Proof.
  intros Hf _ st w rs Hi [Hs Hr Ha]. exists st, w, rs. rewrite app_nil_r. unfold rst_gets.
  rewrite (Hf st w rs Hs Hr). split; [done|]. split; [done|]. split; [by apply writer_frame_refl|by split].
Qed.

(** From one state of the data to the next. *)
Definition streams_to {A} (m : rst merge_state A) (data : list byte) (a : A) (data' : list byte) : Prop :=
  exists bs, data' = data ++ bs /\ streams m data a bs.

Lemma streams_to_intro {A} (m : rst merge_state A) data a bs data' :
  streams m data a bs -> data ++ bs = data' -> streams_to m data a data'.
Proof. intros Hm <-. by exists bs. Qed.

Lemma streams_to_bind {A B} (m : rst merge_state A) (f : A -> rst merge_state B) d a b d1 d2 :
  streams_to m d a d1 -> streams_to (f a) d1 b d2 -> streams_to (m ≫= f) d b d2.
Proof.
  intros (b1 & -> & Hm) (b2 & -> & Hf). exists (b1 ++ b2). rewrite app_assoc.
  split; [done|]. by eapply streams_bind.
Qed.

(** ** Tenants *)

Definition stored_stats (src : source) : list TpTenantStats :=
  (fun s => decode_tenant_stats (encode_tenant_stats s)) <$> default [] (sc_stats (so_content src)).

Lemma read_stats_ok st src r : source_at st src -> source_reader st src r ->
  runs (source_reader st src) (read_segment_tenant_stats st) r (stored_stats src).
Proof.
  intros Hsrc Hr. pose proof (sh_stats _ _ _ (sat_holds _ _ Hsrc)) as Hst. unfold stored_stats.
  unfold read_segment_tenant_stats. cbv zeta. apply ensures_bind, ensures_gets.
  change (@sheader TpSegmentReader (reader_access st) r) with (r_header r). rewrite (sr_header _ _ _ Hr).
  destruct (sc_stats (so_content src)) as [l|]; cbn [stats_at default from_option id] in Hst |- *.
  2: { rewrite Hst. by apply ensures_ret. }
  destruct Hst as (Hf & Ho & Hl & Ha). rewrite !(proj2 (Z.eqb_neq _ _)) by done. cbn [orb].
  pose proof (zlen_nonneg l).
  eapply (ensures_bind_runs (source_reader st src)).
  { apply (source_read_u32 st src Hsrc r _ (zlen l) Hr); [lia|]. by eapply at_offset_app_l. }
  intros r1 Hr1. destruct (Z.eqb_spec (zlen l) 0) as [E|N].
  { destruct l as [|x l]; [by apply ensures_ret|]. rewrite zlen_cons in E. pose proof (zlen_nonneg l). lia. }
  pose proof (at_offset_app_r _ _ _ _ Ha) as Ha2.
  replace (zlen (u32_bytes (zlen l))) with 4 in Ha2 by (unfold zlen; by rewrite length_u32_bytes).
  assert (E16 : zlen (encode_array encode_tenant_stats l) = zlen l * 16) by by apply (zlen_encode_array _ 16).
  pose proof (source_size st src Hsrc) as H32. pose proof Ha2 as (? & ? & _).
  rewrite !wrap_small by lia. rewrite <- E16.
  eapply (ensures_bind_runs (source_reader st src)); [by apply (source_sread st src Hsrc r1)|].
  intros r2 Hr2. apply ensures_ret. split; [|done].
  replace (Z.to_nat (zlen l)) with (length l) by (unfold zlen; lia). by apply decode_array_encode.
Qed.

Definition merged_tenant_table : gmap Z TpTenantStats :=
  foldl add_tenant_stats ∅ (concat (stored_stats <$> srcs)).

Lemma merge_tenant_stats_ok st srcs' : Forall (source_at st) srcs -> forall (i : nat) accum rs,
  readers_ok st srcs rs -> drop i srcs = srcs' ->
  runs (readers_ok st srcs) (merge_tenant_stats st (Z.of_nat i) (length srcs') accum) rs
    (foldl add_tenant_stats accum (concat (stored_stats <$> srcs'))).
Proof.
  intros Hsrcs. induction srcs' as [|src srcs' IH]; intros i accum rs Hrs Hi;
    cbn [length merge_tenant_stats]; [by apply ensures_ret|].
  apply drop_cons_S in Hi as [Hl Hi]. pose proof (source_of st srcs Hsrcs i src Hl) as Hsrc.
  eapply (ensures_bind_runs (readers_ok st srcs)).
  { apply (on_source_runs st srcs i src); [done..|]. intros r Hr. by apply read_stats_ok. }
  intros rs1 Hrs1. replace (Z.of_nat i + 1) with (Z.of_nat (S i)) by lia.
  rewrite fmap_cons. cbn [concat]. rewrite foldl_app. by apply IH.
Qed.

Definition term_docfreqs (term : TpMergedTerm) : list (Z * Z) :=
  qsort compare_tenant_first (hash_seq (foldl count_collected ∅ (term_postings srcs term))).

Context (terms : list TpMergedTerm).
Context (Hrefs : Forall (fun mt => Forall (ref_ok srcs (mt_term mt)) (mt_segment_refs mt)) terms).

Lemma merged_docfreqs_ok st rs : Forall (source_at st) srcs -> readers_ok st srcs rs ->
  runs (readers_ok st srcs) (merged_docfreqs st terms) rs (term_docfreqs <$> terms).
Proof.
  intros Hsrcs. clear -Hrefs Hsrcs H0 H2. revert rs.
  induction Hrefs as [|term ts Ht HF IH]; intros rs Hrs; cbn [merged_docfreqs]; [by apply ensures_ret|].
  eapply (ensures_bind_runs (readers_ok st srcs)); [by apply collect_term_postings_ok|].
  intros rs1 Hrs1. eapply (ensures_bind_runs (readers_ok st srcs)); [by apply IH|].
  intros rs2 Hrs2. by apply ensures_ret.
Qed.

Lemma streams_tenant_sections data :
  let stats := (hash_seq merged_tenant_table).*2 in
  streams (write_merged_tenant_sections (length srcs) terms) data
    (zlen data, zlen (data ++ tenant_stats_bytes stats))
    (tenant_stats_bytes stats ++ tenant_dfs_bytes (term_docfreqs <$> terms)).
Proof.
  intros stats. unfold write_merged_tenant_sections.
  eapply streams_bind_nil; [apply streams_offset|].
  eapply streams_bind_nil.
  { apply streams_readers. intros st rs Hs Hr. by apply (merge_tenant_stats_ok st srcs Hs 0). }
  cbv zeta. change (hash_seq (foldl _ _ _)).*2 with stats.
  assert (Est : tenant_stats_bytes stats = u32_bytes (zlen stats) ++
    if_bytes (0 <? zlen stats) (encode_array encode_tenant_stats (qsort compare_tenant_stats stats))).
  { unfold tenant_stats_bytes. destruct (Z.ltb_spec 0 (zlen stats)); [done|]. cbn [if_bytes].
    rewrite app_nil_r. f_equal. pose proof (zlen_nonneg stats). lia. }
  rewrite Est, <- !app_assoc.
  eapply streams_bind; [apply streams_writer, emits_write|].
  eapply streams_bind; [apply streams_writer, emits_write_if|].
  eapply streams_bind_nil; [apply streams_offset|].
  eapply streams_bind_nil; [apply streams_readers; intros st rs Hs Hr; by apply merged_docfreqs_ok|].
  unfold tenant_dfs_bytes.
  eapply streams_bind; [apply streams_writer, emits_write|].
  eapply streams_bind_last; [apply streams_writer, emits_write_tenant_dfs|].
  rewrite app_assoc. apply streams_ret.
Qed.
End Streams.

(** ** Postings *)

Section Terms.
Context `{PgLayoutLaws} `{FreeSpaceMapLaws} `{ItemPointerOps} `{QSortLaws} `{HashSeq}.
Context (srcs : list source) (docmap : TpDocMapBuilder) (terms : list TpMergedTerm).
Context (tp_compress_segments : bool).
Context (Hrefs : Forall (fun mt => Forall (ref_ok srcs (mt_term mt)) (mt_segment_refs mt)) terms).
Context (st0 : Storage) (Hsrcs : Forall (source_at st0) srcs).

(** The tenants are looked at only if there are some. *)
Definition tenants_stored (ht : bool) : Prop := tenant_ids docmap = None \/ ht = true.

Lemma block_tenant_mode_stored ht block : tenants_stored ht ->
  block_tenant_mode true docmap block = block_tenant_mode ht docmap block.
Proof. unfold block_tenant_mode. intros [Hn| ->]; [|done]. rewrite Hn. by destruct ht. Qed.

Lemma tenant_map_stored ht : tenants_stored ht -> tenant_map true docmap = tenant_map ht docmap.
Proof. unfold tenant_map. intros [Hn| ->]; [|done]. by rewrite Hn. Qed.

Lemma skips_from_stored ht offset cs : tenants_stored ht ->
  skips_from tp_compress_segments true docmap offset cs = skips_from tp_compress_segments ht docmap offset cs.
Proof.
  intros Hs. revert offset. induction cs as [|c cs IH]; intros offset; [done|]. cbn [skips_from].
  rewrite IH. unfold skip_of, tenant_mode_of. by rewrite (block_tenant_mode_stored ht).
Qed.

(** A collected posting in the merged segment. *)
Definition converted (p : CollectedPosting) : TpBlockPosting :=
  mkBlockPosting (tp_docmap_lookup docmap (cp_ctid p)) (cp_frequency p) (cp_fieldnorm p).

Definition merged_data (term : TpMergedTerm) : term_data :=
  let ps := term_postings srcs term in
  mkTermData (zlen ps) (term_docfreqs srcs term) (qsort cmp_block_posting_by_doc_id (converted <$> ps)).

Abbreviation old_to_new := ((fun src => new_ids docmap (so_docs src)) <$> srcs).

(** A collected posting belongs to a document of its source. *)
Definition from_source (t : list byte) (p : CollectedPosting) : Prop :=
  exists (n : nat) src bp, srcs !! n = Some src /\ bp ∈ content_postings (so_content src) t /\
    p = collected (Z.of_nat n) src bp.

Lemma term_postings_from_source term :
  Forall (ref_ok srcs (mt_term term)) (mt_segment_refs term) ->
  Forall (from_source (mt_term term)) (term_postings srcs term).
Proof.
  intros HF. rewrite (term_postings_perm srcs st0 Hsrcs term HF). apply Forall_forall.
  intros p (l & Hp & (ref & -> & Href)%list_elem_of_fmap)%elem_of_concat.
  rewrite Forall_forall in HF. destruct (HF ref Href) as (n & src & En & Hn & _).
  unfold ref_postings in Hp. rewrite En, zget_nat, Hn in Hp.
  apply list_elem_of_fmap in Hp as (bp & -> & Hbp). by exists n, src, bp.
Qed.

Lemma convert_collected_ok t ps : Forall (from_source t) ps ->
  convert_collected old_to_new ps = Ok (converted <$> ps).
Proof.
  induction 1 as [|p ps (n & src & bp & Hn & Hbp & ->) HF IH]; [done|]. cbn [convert_collected].
  pose proof (source_postings_ok st0 src t (source_of st0 srcs Hsrcs n src Hn)) as [_ Hok].
  rewrite Forall_forall in Hok. destruct (Hok bp Hbp) as [_ Hrange].
  destruct (zget_is_Some (so_docs src) (bp_doc_id bp) Hrange) as [d Hd].
  assert (Ez : zget (new_ids docmap (so_docs src)) (bp_doc_id bp) = Some (tp_docmap_lookup docmap (sd_ctid d))).
  { unfold new_ids. pose proof Hd as Hd2. rewrite zget_lookup in Hd2 by lia.
    by rewrite zget_lookup, list_lookup_fmap, Hd2 by lia. }
  unfold zread. cbn [collected cp_source_idx cp_old_doc_id]. rewrite zget_nat, list_lookup_fmap, Hn.
  cbn [fmap option_fmap option_map mbind res_bind]. rewrite Ez. cbn [mbind res_bind]. rewrite IH.
  csimpl. unfold converted at 2. cbn [collected cp_ctid cp_frequency cp_fieldnorm]. unfold doc_of. by rewrite Hd.
Qed.

Lemma streams_merged_term data start term : 
  Forall (ref_ok srcs (mt_term term)) (mt_segment_refs term) ->
  Forall (tenants_known true docmap) (td_chunks (merged_data term)) ->
  streams srcs (write_merged_term tp_compress_segments docmap old_to_new start term) data
    (info_of (zlen data) start (merged_data term),
     skips_from tp_compress_segments true docmap (zlen data) (td_chunks (merged_data term)))
    (blocks_bytes tp_compress_segments (td_chunks (merged_data term))).
Proof.
  intros HF Hten. unfold write_merged_term. eapply streams_bind_nil; [apply streams_offset|].
  set (ps := term_postings srcs term).
  assert (Ez : zlen (td_postings (merged_data term)) = zlen ps).
  { cbn [merged_data td_postings]. unfold zlen. by rewrite qsort_perm, length_fmap. }
  eapply streams_bind_nil.
  { apply streams_readers. intros st rs Hs Hr. by apply collect_term_postings_ok. }
  fold ps. cbv zeta. rewrite <- Ez. fold (num_blocks (merged_data term)).
  destruct (Z.eqb_spec (zlen (td_postings (merged_data term))) 0) as [E|N].
  { assert (En : num_blocks (merged_data term) = 0) by (unfold num_blocks; rewrite E; reflexivity).
    unfold td_chunks, info_of. rewrite En, Ez. apply streams_ret. }
  eapply streams_bind_nil.
  { apply streams_lift, (convert_collected_ok (mt_term term)). by apply term_postings_from_source. }
  eapply streams_bind_last; [by apply streams_writer, emits_write_blocks|].
  unfold info_of. cbn [merged_data td_doc_freq]. fold ps. rewrite <- Ez. apply streams_ret.
Qed.

(** The tenants of the documents of every block are known. *)
Context (Hten : Forall (fun term => Forall (tenants_known true docmap) (td_chunks (merged_data term))) terms).

Lemma streams_merged_terms_of ts : (forall term, term ∈ ts -> term ∈ terms) -> forall start data,
  streams srcs (write_merged_terms tp_compress_segments docmap old_to_new start ts) data
    (infos_from tp_compress_segments (zlen data) start (merged_data <$> ts),
     skips_from tp_compress_segments true docmap (zlen data) (all_chunks (merged_data <$> ts)))
    (blocks_bytes tp_compress_segments (all_chunks (merged_data <$> ts))).
Proof.
  induction ts as [|term ts IH]; intros Hin start data; cbn [write_merged_terms]; [apply streams_ret|].
  rewrite Forall_forall in Hrefs, Hten. assert (Hterm : term ∈ terms) by (apply Hin; left).
  unfold all_chunks. csimpl. fold (all_chunks (merged_data <$> ts)). rewrite blocks_bytes_app.
  eapply streams_bind; [by apply streams_merged_term; auto|]. cbv beta iota.
  eapply streams_bind_last; [by apply IH; intros x Hx; apply Hin; right|]. cbv beta iota.
  rewrite skips_from_app, zlen_app. cbn [infos_from].
  replace (zlen (skips_from tp_compress_segments true docmap (zlen data) (td_chunks (merged_data term))))
    with (num_blocks (merged_data term)); [apply streams_ret|].
  rewrite <- zlen_td_chunks. unfold zlen. by rewrite length_skips_from.
Qed.

(** ** The whole segment *)

(** The statistics of the tenants, if a source has tenants. *)
Definition merged_stats : option (list TpTenantStats) :=
  if existsb (fun src => has_stats (so_content src)) srcs
  then Some (hash_seq (merged_tenant_table srcs)).*2 else None.

Lemma has_merged_stats : has_tenants_table merged_stats = existsb (fun src => has_stats (so_content src)) srcs.
Proof. unfold merged_stats. by destruct (existsb _ _). Qed.

Lemma reader_has_stats st src r : source_at st src -> source_reader st src r ->
  MergeWrite.has_tenant_data r = has_stats (so_content src).
Proof.
  intros Hsrc Hr. unfold MergeWrite.has_tenant_data, has_stats. rewrite (sr_header _ _ _ Hr).
  pose proof (sh_stats _ _ _ (sat_holds _ _ Hsrc)) as Hst. destruct (sc_stats (so_content src)); cbn in Hst.
  - destruct Hst as (Hf & _). by rewrite (proj2 (Z.eqb_neq _ _)).
  - by rewrite Hst.
Qed.

Lemma any_tenant_ok st rs : Forall (source_at st) srcs -> readers_ok st srcs rs ->
  existsb MergeWrite.has_tenant_data rs = existsb (fun src => has_stats (so_content src)) srcs.
Proof.
  intros Hs Hrs. clear -Hs Hrs H0 H2. unfold readers_ok in Hrs. induction Hrs as [|src r srcs' rs Hr Hrs IH]; [done|].
  apply Forall_cons in Hs as [Hsrc Hs]. cbn [existsb]. by rewrite (reader_has_stats st src r), IH.
Qed.

Lemma merged_sections_emitted now level total :
  let ts := merged_data <$> terms in
  let infos := merged_term_info <$> terms in
  let h0 := merged_initial_header now (zlen terms) level (num_docs docmap) total in
  let ht := has_tenants_table merged_stats in
  tenants_stored ht ->
  streams_to srcs (write_merged_sections tp_compress_segments now level total (length srcs) docmap old_to_new terms) []
    (sections_header tp_compress_segments h0 merged_stats docmap infos ts,
     infos_from tp_compress_segments (zlen (to_postings h0 infos)) 0 ts)
    (segment_bytes tp_compress_segments h0 merged_stats docmap infos ts).
Proof.
  intros ts infos h0 ht Hht. unfold write_merged_sections. fold h0 infos.
  eapply streams_to_bind.
  { eapply streams_to_intro; [apply streams_writer, emits_write_dictionary|]. rewrite app_nil_l. reflexivity. }
  cbv beta iota. rewrite app_nil_l.
  change ((dictionary_head h0 infos ++ strings_bytes 0 infos) ++ placeholders infos) with (to_postings h0 infos).
  eapply streams_to_bind.
  { eapply streams_to_intro; [by apply (streams_merged_terms_of terms)|]. reflexivity. }
  cbv beta iota. fold ts. fold (to_skips tp_compress_segments h0 infos ts).
  rewrite (skips_from_stored ht) by done.
  fold (skips_written tp_compress_segments merged_stats docmap ts (zlen (to_postings h0 infos))).
  eapply (streams_to_bind _ _ _ _ _ _ (to_tenant_stats tp_compress_segments h0 merged_stats docmap infos ts)).
  { eapply streams_to_intro; [apply streams_writer, emits_document_sections|].
    unfold to_tenant_stats, tenant_map_bytes. rewrite (tenant_map_stored ht) by done. by rewrite !app_assoc. }
  cbv beta iota. rewrite (tenant_map_stored ht) by done.
  eapply streams_to_bind.
  { eapply streams_to_intro; [|apply app_nil_r]. apply (streams_gets srcs _ _ ht). intros st w rs Hs Hr. cbn [snd].
    unfold ht. rewrite has_merged_stats. by apply (any_tenant_ok st). }
  eapply (streams_to_bind _ _ _ _ _ _ (to_ranges tp_compress_segments h0 merged_stats docmap infos ts)).
  { apply (streams_to_intro _ _ _
      (if ht then zlen (to_tenant_stats tp_compress_segments h0 merged_stats docmap infos ts) else 0,
       if ht then zlen (to_tenant_dfs tp_compress_segments h0 merged_stats docmap infos ts) else 0)
      (if_bytes ht (tenant_stats_bytes (default [] merged_stats))
       ++ if_bytes ht (tenant_dfs_bytes (td_tenant_df <$> ts)))).
    - unfold to_tenant_dfs. fold ht. unfold ht, merged_stats. destruct (existsb _ _); [|apply streams_ret].
      unfold ts. rewrite <- list_fmap_compose. apply (streams_tenant_sections srcs terms Hrefs).
    - by rewrite app_assoc. }
  cbv beta iota. eapply streams_to_bind.
  { eapply streams_to_intro; [apply streams_writer, emits_tenant_ranges|]. reflexivity. }
  eapply streams_to_bind.
  { eapply streams_to_intro; [apply streams_offset|]. apply app_nil_r. }
  eapply streams_to_intro; [apply streams_ret|]. apply app_nil_r.
Qed.
End Terms.
