(* ===== verification/MergePlan.v ===== *)
(** * The plan of a merged segment

    What a merge writes is a plan ([merged_plan]), so the finished pages are a segment
    whose content is the union of the contents of the sources ([merged_of]): the same
    documents, and for every term the same postings, CTID by CTID. *)
From S2P Require Import Prelude Postgres Fieldnorm SegmentFormat Compression Storage SegmentIO.
From S2P Require Import Docmap SegmentScan ScanFacts Memtable MemtableFacts SegmentWrite SegmentWriteFacts.
From S2P Require Import SegmentEmit SegmentLayout SegmentOpen SegmentContent SegmentDocs SegmentRoundtrip.
From S2P Require Import Merge MergeWrite MergeReaders MergeTerms MergePostings MergeDocs MergeEmit.

(** ** The union of contents *)

Record merged_of (cs : list segment_content) (c : segment_content) : Prop := {
  md_docs : sc_docs c ≡ₚ concat (sc_docs <$> cs);
  md_results : forall t, content_results c t ≡ₚ concat ((fun c' => content_results c' t) <$> cs);
  md_terms : forall t, t ∈ (sc_terms c).*1 <-> exists c', c' ∈ cs /\ t ∈ (sc_terms c').*1;
  md_stats : has_stats c = existsb has_stats cs;
}.

Lemma concat_submseteq {A} (ls ks : list (list A)) : Forall2 submseteq ls ks -> concat ls ⊆+ concat ks.
Proof. induction 1 as [|l k ls ks Hlk HF IH]; [done|]. simpl. by apply submseteq_app. Qed.

Lemma fmap_concat {A B} (f : A -> B) (ls : list (list A)) : f <$> concat ls = concat ((fun l : list A => f <$> l) <$> ls).
Proof. induction ls as [|l ls IH]; [done|]. csimpl. by rewrite fmap_app, IH. Qed.

Lemma fmap_concat_imap {A B C} (f : B -> C) (F : nat -> A -> list B) (G : A -> list C) (l : list A) :
  (forall j x, f <$> F j x = G x) -> f <$> concat (imap F l) = concat (G <$> l).
Proof.
  revert F. induction l as [|x l IH]; intros F HF; [done|]. csimpl. rewrite fmap_app, HF. f_equal.
  apply IH. intros j y. apply HF.
Qed.

Section Plan.
Context `{PgLayoutLaws} `{FreeSpaceMapLaws} `{ItemPointerLaws} `{QSortLaws} `{HashSeqLaws}.
Context (srcs : list source) (st0 : Storage) (Hsrcs : Forall (source_at st0) srcs).

Definition all_docs : list segment_doc := concat ((fun src => so_docs src) <$> srcs).

(** Sources that can be merged: no document is in two of them, and the union fits
    the 16-bit count of the blocks of a term. *)
Record mergeable : Prop := {
  mb_some : srcs <> [];
  mb_disjoint : NoDup (sd_ctid <$> all_docs);
  mb_count : zlen all_docs <= 65535 * 128;
}.
Context (Hmb : mergeable).

Lemma all_docs_ranges : Forall (fun d => (0 <= ip_blkid (sd_ctid d) < 2 ^ 32 /\ 0 <= ip_posid (sd_ctid d) < 2 ^ 16) /\
    0 <= sd_fieldnorm d < 256 /\ 0 <= sd_tenant d < 2 ^ 32) all_docs.
Proof.
  apply Forall_concat, Forall_fmap. eapply Forall_impl; [exact Hsrcs|]. intros src Hsrc. cbn.
  apply (dat_ranges _ _ _ (sh_docs _ _ _ (sat_holds _ _ Hsrc))).
Qed.

Lemma all_docs_nonempty : all_docs <> [].
Proof.
  unfold all_docs. pose proof (mb_some Hmb). destruct srcs as [|src srcs']; [done|].
  apply Forall_cons in Hsrcs as [Hsrc _]. csimpl.
  pose proof (source_num_docs st0 src Hsrc) as En.
  pose proof (op_docs _ _ _ _ (dat_openable _ _ _ (sh_docs _ _ _ (sat_holds _ _ Hsrc)))) as Hd.
  destruct (so_docs src); [|done]. change (zlen []) with 0 in En. lia.
Qed.

Lemma merged_docmap : exists b,
  add_to_docmap tp_docmap_create (merge_entry <$> all_docs) = Ok b /\
  docmap_for (tp_docmap_finalize b) (merge_document <$> all_docs).
Proof.
  pose proof (mb_count Hmb) as Hc.
  apply docmap_of_entries.
  - by rewrite <- list_fmap_compose.
  - rewrite <- list_fmap_compose. apply (mb_disjoint Hmb).
  - intros E%fmap_nil_inv. by apply all_docs_nonempty.
  - apply Forall_fmap. eapply Forall_impl; [exact all_docs_ranges|]. intros d ([? ?] & _ & ?). done.
  - rewrite zlen_fmap. unfold UINT32_MAX. lia.
Qed.

Context (dm : TpDocMapBuilder) (Hdm : docmap_for dm (merge_document <$> all_docs)).

(** Where a document of a source is in the merged segment. *)
Lemma merged_position d : d ∈ all_docs -> exists i : nat,
  tp_docmap_lookup dm (sd_ctid d) = Z.of_nat i /\ (i < length all_docs)%nat /\
  ctid_pages dm !! i = Some (ip_blkid (sd_ctid d)) /\ ctid_offsets dm !! i = Some (ip_posid (sd_ctid d)) /\
  fieldnorms dm !! i = Some (sd_fieldnorm d) /\
  match tenant_ids dm with Some ids => ids !! i = Some (sd_tenant d) | None => sd_tenant d = 0 end.
Proof.
  intros Hd. destruct (df_doc _ _ Hdm (merge_document d)) as (i & Hl & Hlt & Hp & Ho & Hf & Ht);
    [by apply list_elem_of_fmap_2|]. cbn in Hl, Hp, Ho, Hf, Ht. rewrite length_fmap in Hlt.
  exists i. do 4 (split; [done|]). split; [|done]. rewrite Hf.
  pose proof all_docs_ranges as HF. rewrite Forall_forall in HF. destruct (HF d Hd) as (_ & Hn & _).
  rewrite (wrap_small 32) by by apply decode_range. by rewrite encode_decode by lia.
Qed.

(** ** The postings of a term *)

Lemma docs_at_ids src ids : NoDup ids -> Forall (fun i => 0 <= i < zlen (so_docs src)) ids ->
  doc_of src <$> ids ⊆+ so_docs src.
Proof.
  intros Hnd HF.
  assert (E : doc_of src <$> seqZ 0 (zlen (so_docs src)) = so_docs src).
  { apply list_eq. intros i. rewrite list_lookup_fmap.
    destruct (decide (i < length (so_docs src))%nat).
    - destruct (lookup_lt_is_Some_2 (so_docs src) i) as [d Hd]; [done|].
      rewrite lookup_seqZ_lt by (unfold zlen; lia). cbn. unfold doc_of. by rewrite Z.add_0_l, zget_nat, Hd.
    - rewrite (lookup_ge_None_2 (so_docs src)), lookup_seqZ_ge by (unfold zlen; lia). done. }
  rewrite <- E. apply fmap_submseteq, NoDup_submseteq; [done|]. intros i Hi.
  rewrite Forall_forall in HF. apply elem_of_seqZ. specialize (HF i Hi). lia.
Qed.

Lemma sorted_ids_nodup (ps : list TpBlockPosting) : StronglySorted by_doc_id ps -> NoDup (bp_doc_id <$> ps).
Proof.
  induction 1 as [|p ps Hs IH HF]; [constructor|]. csimpl. apply NoDup_cons. split; [|done].
  intros (q & E & Hq)%list_elem_of_fmap. rewrite Forall_forall in HF. specialize (HF q Hq). lia.
Qed.

Context (term : TpMergedTerm).
Context (Hrefs : mt_segment_refs term = refs_of 0 (mt_term term) (so_dict <$> srcs)).
Abbreviation ps := (term_postings srcs term).
Abbreviation t := (mt_term term).

Lemma term_refs_ok : Forall (ref_ok srcs t) (mt_segment_refs term).
Proof. rewrite Hrefs. by apply (refs_of_ok t srcs srcs 0). Qed.

Lemma term_postings_sources :
  ps ≡ₚ concat (imap (fun j src => collected (Z.of_nat j) src <$> content_postings (so_content src) t) srcs).
Proof.
  rewrite (term_postings_perm srcs st0 Hsrcs term term_refs_ok), Hrefs.
  change 0 with (Z.of_nat 0). by rewrite (refs_postings t srcs st0 Hsrcs srcs 0).
Qed.

(** What a posting says, whatever the source's place. *)
Lemma term_postings_fmap {A} (f : CollectedPosting -> A) (g : source -> TpBlockPosting -> A) :
  (forall (n : nat) src bp, f (collected (Z.of_nat n) src bp) = g src bp) ->
  f <$> ps ≡ₚ concat ((fun src => g src <$> content_postings (so_content src) t) <$> srcs).
Proof.
  intros Hfg. rewrite term_postings_sources. apply reflexive_eq, fmap_concat_imap.
  intros j src. rewrite <- list_fmap_compose. apply list_fmap_ext. intros. apply Hfg.
Qed.

Lemma term_ctids_sub : cp_ctid <$> ps ⊆+ sd_ctid <$> all_docs.
Proof.
  rewrite (term_postings_fmap cp_ctid (fun src bp => sd_ctid (doc_of src (bp_doc_id bp)))) by done.
  unfold all_docs. rewrite fmap_concat. apply concat_submseteq. rewrite <- list_fmap_compose.
  apply Forall2_fmap, Forall_Forall2_diag. eapply Forall_impl; [exact Hsrcs|]. intros src Hsrc. cbn.
  destruct (source_postings_ok st0 src t Hsrc) as [Hs HF].
  replace ((fun bp => sd_ctid (doc_of src (bp_doc_id bp))) <$> content_postings (so_content src) t)
    with (sd_ctid <$> (doc_of src <$> (bp_doc_id <$> content_postings (so_content src) t)))
    by by rewrite <- !list_fmap_compose.
  apply fmap_submseteq, docs_at_ids; [by apply sorted_ids_nodup|].
  apply Forall_fmap. eapply Forall_impl; [exact HF|]. by intros bp [_ ?].
Qed.

Lemma term_ctids_nodup : NoDup (cp_ctid <$> ps).
Proof.
  destruct (submseteq_Permutation _ _ term_ctids_sub) as [k Hk].
  pose proof (mb_disjoint Hmb) as Hnd. rewrite Hk in Hnd. by apply NoDup_app in Hnd as (? & _).
Qed.

Lemma zlen_term_postings : zlen ps <= zlen all_docs.
Proof.
  pose proof (submseteq_length _ _ term_ctids_sub) as Hl. rewrite !length_fmap in Hl. unfold zlen. lia.
Qed.

Lemma term_posting_doc p : p ∈ ps -> exists (n : nat) src bp, srcs !! n = Some src /\
  p = collected (Z.of_nat n) src bp /\ doc_of src (bp_doc_id bp) ∈ all_docs /\ block_posting_ok bp /\
  so_docs src !! Z.to_nat (bp_doc_id bp) = Some (doc_of src (bp_doc_id bp)) /\ 0 <= bp_doc_id bp.
Proof.
  intros Hp. pose proof (term_postings_from_source srcs st0 Hsrcs term term_refs_ok) as HF.
  rewrite Forall_forall in HF. destruct (HF p Hp) as (n & src & bp & Hn & Hbp & ->).
  exists n, src, bp. split; [done|]. split; [done|].
  pose proof (source_postings_ok st0 src t (source_of st0 srcs Hsrcs n src Hn)) as [_ Hok].
  rewrite Forall_forall in Hok. destruct (Hok bp Hbp) as [Hbpok Hrange].
  destruct (zget_is_Some (so_docs src) (bp_doc_id bp) Hrange) as [d Hd]. unfold doc_of. rewrite Hd. cbn.
  rewrite zget_lookup in Hd by lia. split; [|split; [done|split; [done|lia]]].
  apply elem_of_concat. exists (so_docs src). split; [by eapply list_elem_of_lookup_2|].
  apply (list_elem_of_fmap_2 (fun src => so_docs src)). by eapply list_elem_of_lookup_2.
Qed.

Abbreviation data := (merged_data srcs dm term).

Lemma merged_doc_ids : Forall (fun p => block_posting_ok p /\ 0 <= bp_doc_id p < num_docs dm) (converted dm <$> ps).
Proof.
  apply Forall_fmap, Forall_forall. intros p Hp.
  destruct (term_posting_doc p Hp) as (n & src & bp & _ & -> & Hd & (Hf1 & Hf2 & Hf3) & _).
  destruct (merged_position _ Hd) as (i & Hl & Hlt & _). unfold converted, block_posting_ok. cbn.
  rewrite Hl, (df_num _ _ Hdm), zlen_fmap. pose proof (mb_count Hmb). unfold zlen in *.
  split; [|lia]. split; [apply fits_u32; lia|done].
Qed.

Lemma merged_ids_nodup : NoDup (bp_doc_id <$> (converted dm <$> ps)).
Proof.
  apply (NoDup_fmap_1 (tp_docmap_get_ctid dm)).
  replace (tp_docmap_get_ctid dm <$> (bp_doc_id <$> (converted dm <$> ps))) with (Some <$> (cp_ctid <$> ps)).
  { apply (NoDup_fmap_2 Some), term_ctids_nodup. }
  rewrite <- !list_fmap_compose. apply list_fmap_ext. intros j p Hj%list_elem_of_lookup_2. cbn.
  destruct (term_posting_doc p Hj) as (n & src & bp & _ & -> & Hd & _).
  destruct (merged_position _ Hd) as (i & Hl & Hlt & Hp & Ho & _). cbn. rewrite Hl.
  unfold tp_docmap_get_ctid. rewrite !zget_nat, Hp, Ho. by destruct (sd_ctid _).
Qed.

Lemma merged_data_ok : postings_ok (num_docs dm) (td_postings data) /\
  0 <= td_doc_freq data < 2 ^ 32 /\ num_blocks data < 2 ^ 16 /\
  zlen (td_postings data) = zlen ps /\ Forall (tenants_known true dm) (td_chunks data).
Proof.
  assert (Hok : postings_ok (num_docs dm) (td_postings data)).
  { split; [apply qsort_by_doc_id, merged_ids_nodup|]. cbn. rewrite qsort_perm. apply merged_doc_ids. }
  assert (Ez : zlen (td_postings data) = zlen ps) by (cbn; unfold zlen; by rewrite qsort_perm, length_fmap).
  pose proof zlen_term_postings. pose proof (mb_count Hmb). pose proof (zlen_nonneg ps).
  split; [done|]. split; [change (td_doc_freq data) with (zlen ps); lia|]. split; [|split; [done|]].
  - unfold num_blocks, TP_BLOCK_SIZE. rewrite Ez. apply Z.div_lt_upper_bound; lia.
  - destruct (postings_chunks _ _ Hok) as (_ & _ & HF). eapply Forall_impl; [exact HF|]. intros c Hc.
    apply (tenants_known_in_range (merge_document <$> all_docs)); [done|]. by rewrite <- (df_num _ _ Hdm).
Qed.
End Plan.

(** ** All the terms *)

Section Merged.
Context `{PgLayoutLaws} `{FreeSpaceMapLaws} `{ItemPointerLaws} `{QSortLaws} `{HashSeqLaws}.
Context (srcs : list source) (st0 : Storage) (Hsrcs : Forall (source_at st0) srcs) (Hmb : mergeable srcs).
Context (dm : TpDocMapBuilder) (Hdm : docmap_for dm (merge_document <$> all_docs srcs)).
Context (terms : list TpMergedTerm) (Hterms : merged_terms (so_dict <$> srcs) terms).
Context (now level total : Z) (Hnow : 0 <= now < 2 ^ 64) (Hlevel : 0 <= level < 2 ^ 32)
  (Htotal : 0 <= total < 2 ^ 64) (Hfew : zlen terms < 2 ^ 32).

Abbreviation infos := (merged_term_info <$> terms).
Abbreviation ts := (merged_data srcs dm <$> terms).
Abbreviation stats := (merged_stats srcs).
Abbreviation ht := (has_tenants_table stats).
Abbreviation h0 := (merged_initial_header now (zlen terms) level (num_docs dm) total).
Abbreviation all := (all_docs srcs).

Lemma term_refs (mt : TpMergedTerm) : mt ∈ terms ->
  mt_segment_refs mt = refs_of 0 (mt_term mt) (so_dict <$> srcs).
Proof. intros Hmt. pose proof (mg_refs _ _ Hterms) as HF. rewrite Forall_forall in HF. by apply HF. Qed.

Lemma all_refs_ok : Forall (fun mt => Forall (ref_ok srcs (mt_term mt)) (mt_segment_refs mt)) terms.
Proof. apply Forall_forall. intros mt Hmt. by apply term_refs_ok, term_refs. Qed.

Lemma all_tenants_known : Forall (fun mt => Forall (tenants_known true dm) (td_chunks (merged_data srcs dm mt))) terms.
Proof.
  apply Forall_forall. intros mt Hmt.
  destruct (merged_data_ok srcs st0 Hsrcs Hmb dm Hdm mt (term_refs mt Hmt)) as (_ & _ & _ & _ & ?). done.
Qed.

(** A tenant is stored only if a source has statistics. *)
Lemma merged_tenants_stored : tenants_stored dm ht.
Proof.
  unfold tenants_stored. destruct (tenant_ids dm) as [ids|] eqn:E; [right|by left].
  destruct (df_tenants _ _ Hdm) as (x & (d & -> & Hd)%list_elem_of_fmap & Ht); [by rewrite E|].
  cbn in Ht. rewrite has_merged_stats. apply existsb_exists.
  apply elem_of_concat in Hd as (l & Hdl & (src & -> & Hsrc)%list_elem_of_fmap).
  exists src. split; [by apply list_elem_of_In|]. rewrite Forall_forall in Hsrcs. specialize (Hsrcs src Hsrc).
  pose proof (sh_docs _ _ _ (sat_holds _ _ Hsrcs)) as [_ _ [[Hz _]|(_ & Hf & _)] _].
  - rewrite Forall_forall in Hz. by rewrite (Hz d Hdl) in Ht.
  - pose proof (sh_stats _ _ _ (sat_holds _ _ Hsrcs)) as Hst. unfold has_stats.
    by destruct (sc_stats (so_content src)).
Qed.

Lemma source_terms_in t : t ∈ mt_term <$> terms <-> exists src, src ∈ srcs /\ t ∈ (sc_terms (so_content src)).*1.
Proof.
  rewrite (mg_terms _ _ Hterms). rewrite Forall_forall in Hsrcs. split.
  - intros (d & (src & -> & Hsrc)%list_elem_of_fmap & Ht). exists src. split; [done|].
    by rewrite <- (sat_terms _ _ (Hsrcs src Hsrc)).
  - intros (src & Hsrc & Ht). exists (so_dict src). split; [by apply list_elem_of_fmap_2|].
    by rewrite (sat_terms _ _ (Hsrcs src Hsrc)).
Qed.

(** A term of a source has postings there. *)
Lemma source_term_nonempty src t : src ∈ srcs -> t ∈ (sc_terms (so_content src)).*1 ->
  content_postings (so_content src) t <> [].
Proof.
  intros Hsrc ([t' pl] & -> & (i & Hi)%list_elem_of_lookup)%list_elem_of_fmap.
  rewrite Forall_forall in Hsrcs. specialize (Hsrcs src Hsrc).
  pose proof (sat_holds _ _ Hsrcs) as Hh. destruct (sh_terms _ _ _ Hh) as [(entries & Hd & _) HF].
  cbn. rewrite (content_postings_lookup _ i t' pl (da_sorted _ _ _ _ Hd) Hi).
  apply (Forall_lookup_1 _ _ _ _ HF Hi).
Qed.

Lemma merged_nonempty mt : mt ∈ terms -> td_postings (merged_data srcs dm mt) <> [].
Proof.
  intros Hmt E. destruct (merged_data_ok srcs st0 Hsrcs Hmb dm Hdm mt (term_refs mt Hmt)) as (_ & _ & _ & Ez & _).
  rewrite E in Ez. change (zlen []) with 0 in Ez.
  assert (Ht : mt_term mt ∈ mt_term <$> terms) by by apply list_elem_of_fmap_2.
  apply source_terms_in in Ht as (src & Hsrc & Ht). pose proof (source_term_nonempty src _ Hsrc Ht) as Hne.
  pose proof (term_postings_fmap srcs st0 Hsrcs mt (term_refs mt Hmt) (fun _ => tt) (fun _ _ => tt) ltac:(done)) as Hp.
  assert (En : term_postings srcs mt = []).
  { destruct (term_postings srcs mt) as [|p l]; [done|]. rewrite zlen_cons in Ez. pose proof (zlen_nonneg l). lia. }
  rewrite En in Hp. symmetry in Hp. apply Permutation_nil_r in Hp.
  destruct (content_postings (so_content src) (mt_term mt)) as [|bp l] eqn:Ec; [done|].
  assert (Hin : tt ∈ ([] : list unit)); [|by apply not_elem_of_nil in Hin].
  rewrite <- Hp. apply elem_of_concat. eexists. split; [|by apply list_elem_of_fmap_2].
  rewrite Ec. left.
Qed.

Lemma merged_header_ok : start_header h0 (zlen infos).
Proof.
  rewrite zlen_fmap. pose proof (zlen_nonneg terms). pose proof (mb_count srcs Hmb).
  assert (fits 4 (num_docs dm)).
  { rewrite (df_num _ _ Hdm), zlen_fmap. pose proof (zlen_nonneg all). apply fits_u32. lia. }
  assert (fits 4 (zlen terms)) by (apply fits_u32; lia). assert (fits 4 level) by by apply fits_u32.
  split; [|done|done]. unfold header_ok, merged_initial_header, TpSegmentHeader_layout. unfold_header. fits_fields.
  constructor.
Qed.

Lemma merged_plan : plan_ok h0 stats dm infos ts.
Proof.
  destruct (df_lengths _ _ Hdm) as (Elp & Elo & Elf & Eids). pose proof (df_num _ _ Hdm) as Enum.
  rewrite length_fmap in *. rewrite zlen_fmap in Enum.
  destruct (df_ranges _ _ Hdm) as (R1 & R2 & R3 & R4). pose proof (mb_count srcs Hmb) as Hmax.
  assert (Hpos : 0 < zlen all).
  { pose proof (all_docs_nonempty srcs st0 Hsrcs Hmb). destruct all as [|d l]; [done|].
    rewrite zlen_cons. pose proof (zlen_nonneg l). lia. }
  split.
  - apply merged_header_ok.
  - apply Forall_fmap, Forall_forall. intros mt Hmt. cbn. split; [done|].
    assert (Ht : mt_term mt ∈ mt_term <$> terms) by by apply list_elem_of_fmap_2.
    apply (mg_terms _ _ Hterms) in Ht as (d & (src & -> & Hsrc)%list_elem_of_fmap & Ht).
    rewrite Forall_forall in Hsrcs. pose proof (da_no_nul _ _ _ _ (sat_dict _ _ (Hsrcs src Hsrc))) as HF.
    rewrite Forall_forall in HF. by apply HF.
  - rewrite <- list_fmap_compose. apply (mg_sorted _ _ Hterms).
  - by rewrite !length_fmap.
  - apply Forall_fmap, Forall_forall. intros mt Hmt. cbn [compose].
    destruct (merged_data_ok srcs st0 Hsrcs Hmb dm Hdm mt (term_refs mt Hmt)) as (? & ? & ? & _ & _).
    split; [done|]. split; [by apply merged_nonempty|done].
  - lia.
  - unfold zlen in *. split; [lia|]. split; [lia|]. split; [lia|]. intros ids Hi. specialize (Eids ids Hi). lia.
  - by apply docmap_docs_ranges.
Qed.

Abbreviation content := (plan_content stats dm infos ts).

Lemma merged_docs_perm : sc_docs content ≡ₚ all.
Proof.
  cbn [sc_docs plan_content]. destruct (docmap_docs_arrays _ _ _ _ _ merged_plan) as (En & _ & _ & _ & Et).
  symmetry. apply submseteq_length_Permutation.
  - apply NoDup_submseteq; [apply (NoDup_fmap_1 sd_ctid), (mb_disjoint srcs Hmb)|]. intros d Hd.
    destruct (merged_position srcs st0 Hsrcs dm Hdm d Hd) as (i & _ & Hlt & Hp & Ho & Hf & Htid).
    destruct (docmap_docs_lookup _ _ _ _ _ merged_plan i _ _ _ Hp Ho Hf) as (tid & Hi).
    apply (list_elem_of_lookup_2 _ i). rewrite Hi. f_equal.
    enough (tid = sd_tenant d) as -> by by destruct d as [[] ? ?].
    assert (Etid : (sd_tenant <$> docmap_docs ht dm) !! i = Some tid) by by rewrite list_lookup_fmap, Hi.
    rewrite Et in Etid. unfold tenant_map in Etid. pose proof (pl_docs _ _ _ _ _ merged_plan) as Hpos.
    destruct (tenant_ids dm) as [ids|] eqn:Ei.
    + destruct merged_tenants_stored as [|Eht]; [congruence|]. rewrite Eht, (proj2 (Z.ltb_lt _ _)) in Etid by lia.
      cbn in Etid. congruence.
    + cbn in Etid. apply lookup_replicate in Etid as [-> _]. done.
  - rewrite (df_num _ _ Hdm), zlen_fmap in En. unfold zlen in En. lia.
Qed.

(** What a merged posting says. *)
Definition merged_triple (p : CollectedPosting) : ItemPointerData * Z * Z :=
  (cp_ctid p, cp_frequency p, u16 (decode_fieldnorm (cp_fieldnorm p))).

Lemma merged_posting_result mt p : mt ∈ terms -> p ∈ term_postings srcs mt ->
  result_triple (posting_result (sc_docs content) (converted dm p)) = merged_triple p.
Proof.
  intros Hmt Hp. destruct (term_posting_doc srcs st0 Hsrcs mt (term_refs mt Hmt) p Hp)
    as (n & src & bp & _ & -> & Hd & _).
  destruct (merged_position srcs st0 Hsrcs dm Hdm _ Hd) as (i & Hl & _ & Hpg & Ho & Hf & _).
  destruct (docmap_docs_lookup _ _ _ _ _ merged_plan i _ _ _ Hpg Ho Hf) as (tid & Hi).
  unfold result_triple, posting_result, merged_triple, converted.
  cbn [bp_doc_id bp_frequency bp_fieldnorm sp_ctid sp_frequency sp_doc_length collected cp_ctid cp_frequency
       cp_fieldnorm sc_docs plan_content].
  rewrite Hl, zget_nat, Hi. cbn. by destruct (sd_ctid _).
Qed.

Lemma merged_content_results t : content_results content t ≡ₚ
  concat ((fun c => content_results c t) <$> (so_content <$> srcs)).
Proof.
  destruct (decide (t ∈ mt_term <$> terms)) as [Ht|Ht].
  - apply list_elem_of_fmap in Ht as (mt & -> & Hmt). pose proof Hmt as (i & Hi)%list_elem_of_lookup.
    assert (Ep : content_postings content (mt_term mt) = td_postings (merged_data srcs dm mt)).
    { apply (content_postings_lookup _ i).
      - cbn [sc_terms plan_content]. rewrite fst_zip by by rewrite !length_fmap.
        rewrite <- list_fmap_compose. apply (mg_sorted _ _ Hterms).
      - cbn [sc_terms plan_content]. apply lookup_zip_with_Some. eexists _, _. split; [reflexivity|].
        by rewrite !list_lookup_fmap, Hi. }
    unfold content_results at 1. rewrite Ep. cbn [merged_data td_postings]. rewrite qsort_perm.
    rewrite <- !list_fmap_compose.
    rewrite (list_fmap_ext _ merged_triple (term_postings srcs mt)); cycle 1.
    { intros j p Hj%list_elem_of_lookup_2. by apply (merged_posting_result mt). }
    rewrite (term_postings_fmap srcs st0 Hsrcs mt (term_refs mt Hmt) merged_triple
      (fun src bp => merged_triple (collected 0 src bp))) by done.
    apply reflexive_eq. f_equal. apply list_fmap_ext. intros j src Hj. cbn. unfold content_results.
    rewrite <- list_fmap_compose. apply list_fmap_ext. intros k bp Hk%list_elem_of_lookup_2.
    destruct (source_postings_ok st0 src (mt_term mt) (source_of st0 srcs Hsrcs j src Hj)) as [_ HF].
    rewrite Forall_forall in HF. destruct (HF bp Hk) as [_ Hr].
    destruct (zget_is_Some (so_docs src) (bp_doc_id bp) Hr) as [d Hd].
    unfold merged_triple, collected, doc_of, result_triple, posting_result. cbn. by rewrite Hd.
  - assert (En : forall c, t ∉ (sc_terms c).*1 -> content_results c t = [])
      by (intros c Hc; unfold content_results; by rewrite content_postings_none).
    rewrite En.
    + apply reflexive_eq. symmetry. apply concat_all_nil, Forall_fmap, Forall_fmap, Forall_forall.
      intros src Hsrc. cbn. symmetry. apply En. intros Hin. apply Ht, source_terms_in. by exists src.
    + cbn [sc_terms plan_content]. rewrite fst_zip by by rewrite !length_fmap. by rewrite <- list_fmap_compose.
Qed.

Lemma merged_content : merged_of (so_content <$> srcs) content.
Proof.
  split.
  - rewrite merged_docs_perm. unfold all_docs. by rewrite <- list_fmap_compose.
  - apply merged_content_results.
  - intros t. cbn [sc_terms plan_content]. rewrite fst_zip by by rewrite !length_fmap.
    rewrite <- list_fmap_compose. rewrite (source_terms_in t). split.
    + intros (src & Hsrc & Ht). exists (so_content src). split; [by apply list_elem_of_fmap_2|done].
    + intros (c & (src & -> & Hsrc)%list_elem_of_fmap & Ht). by exists src.
  - unfold has_stats at 1. cbn [sc_stats plan_content].
    transitivity (has_tenants_table stats); [by destruct stats|]. rewrite has_merged_stats.
    clear. induction srcs as [|src l IH]; [done|]. csimpl. by rewrite <- IH.
Qed.
End Merged.
