(* ===== verification/MergeSegment.v ===== *)
(** * Writing a merged segment

    The sources' readers, the document map, the stream and the pages together: from
    the sources of a merge and their terms, [write_merged_segment] makes a segment of
    the union of their contents. *)
From S2P Require Import Prelude Postgres Fieldnorm SegmentFormat Compression Storage SegmentIO.
From S2P Require Import Docmap SegmentScan ScanFacts Memtable MemtableFacts SegmentWrite SegmentWriteFacts.
From S2P Require Import SegmentEmit SegmentLayout SegmentOpen SegmentContent SegmentDocs SegmentRoundtrip.
From S2P Require Import Merge MergeWrite MergeReaders MergeTerms MergePostings MergeDocs MergeEmit MergePlan.

Section MergeSegment.
Context `{PgLayoutLaws} `{FreeSpaceMapLaws} `{ItemPointerLaws} `{QSortLaws} `{HashSeqLaws}.
Context (tp_compress_segments : bool) (now level total : Z) (srcs : list source).
Abbreviation P := SEGMENT_DATA_PER_PAGE.

(** The plan of the merged segment fits. *)
Definition merge_fits (terms : list TpMergedTerm) (st : Storage) : Prop :=
  forall b, add_to_docmap tp_docmap_create (merge_entry <$> all_docs srcs) = Ok b ->
    let dm := tp_docmap_finalize b in
    let infos := merged_term_info <$> terms in
    let ts := merged_data srcs dm <$> terms in
    let h0 := merged_initial_header now (zlen terms) level (num_docs dm) total in
    data_fits tp_compress_segments (zlen (to_skips tp_compress_segments h0 infos ts))
      (segment_bytes tp_compress_segments h0 (merged_stats srcs) dm infos ts) st.

(** The pages of the sources are in use. *)
Definition sources_in_use (st : Storage) : Prop :=
  forall src b, src ∈ srcs -> b ∈ so_pages src -> b ∉ st_fsm st.

Lemma write_merged_segment_ok st rs terms :
  storage_wf st -> 104 <= P -> Forall (source_at st) srcs -> sources_in_use st -> readers_ok st srcs rs ->
  mergeable srcs -> merged_terms (so_dict <$> srcs) terms -> terms <> [] -> merge_fits terms st ->
  0 <= now < 2 ^ 64 -> 0 <= level < 2 ^ 32 -> 0 <= total < 2 ^ 64 ->
  exists block pages bs h c st',
    write_merged_segment tp_compress_segments now level total terms st rs = Ok (block, st') /\
    segment_written st st' block pages bs h c /\ merged_of (so_content <$> srcs) c /\
    SegmentFormat.level h = level /\ next_segment h = InvalidBlockNumber /\ total_tokens h = total.
Proof.
  intros Hwf HP104 Hsrcs Huse Hrs Hmb Hterms Hne Hfits Hnow Hlevel Htotal.
  destruct (merged_docmap srcs st Hsrcs Hmb) as (b & Eb & Hdm). set (dm := tp_docmap_finalize b) in *.
  pose proof (Hfits b Eb) as Hfit. cbv zeta in Hfit. fold dm in Hfit.
  set (infos := merged_term_info <$> terms) in *. set (ts := merged_data srcs dm <$> terms) in *.
  set (h0 := merged_initial_header now (zlen terms) level (num_docs dm) total) in *.
  pose proof Hfit as [H32 _ _]. pose proof data_per_page_pos.
  assert (Hcount : length ts = length infos) by (unfold ts, infos; by rewrite !length_fmap).
  pose proof (positions tp_compress_segments h0 (merged_stats srcs) dm infos ts Hcount) as (He & Hp & Hs & HsD).
  assert (Ei : zlen infos = zlen terms) by apply zlen_fmap. pose proof (zlen_nonneg terms).
  assert (Hfew : zlen terms < 2 ^ 32) by lia.
  unfold write_merged_segment. destruct (Z.eqb_spec (zlen terms) 0) as [E0|N0].
  { destruct terms; [done|]. rewrite zlen_cons in E0. pose proof (zlen_nonneg terms). lia. }
  rewrite <- (Forall2_length _ _ _ Hrs).
  destruct (build_merged_docmap_ok st srcs Hsrcs b rs Hrs Eb) as ([dm' o2n] & rs1 & -> & [= -> ->] & Hrs1).
  fold dm. cbn [mbind res_bind].
  destruct (tp_segment_writer_init_frame st Hwf) as (st1 & w1 & -> & Hi1 & Hfr1 & Hw1). cbn [mbind res_bind].
  set (w0 := mkSegmentWriter [] 0 [] 0 0 None) in *.
  assert (Hok0 : merge_ok srcs st w0 rs1).
  { split; [done|done|]. intros src x Hsrc Hx. split; [by eapply Huse|apply not_elem_of_nil]. }
  pose proof (merge_ok_frame _ _ _ _ _ _ _ Hok0 Hfr1 Hi1) as Hok1.
  destruct (merged_sections_emitted srcs dm terms tp_compress_segments (all_refs_ok srcs terms Hterms) st Hsrcs
    (all_tenants_known srcs st Hsrcs Hmb dm Hdm terms Hterms) now level total
    (merged_tenants_stored srcs st Hsrcs dm Hdm)) as (bytes & Ebytes & Hem).
  fold infos ts h0 in Ebytes, Hem. rewrite app_nil_l in Ebytes. subst bytes.
  destruct (Hem ltac:(change (zlen []) with 0; lia) st1 w1 rs1 Hi1 Hok1) as (st2 & w2 & rs2 & -> & Hi2 & Hfr2 & _).
  rewrite app_nil_l in Hi2. cbn [mbind res_bind].
  pose proof (merged_plan srcs st Hsrcs Hmb dm Hdm terms Hterms now level total Hnow Hlevel Htotal Hfew) as Hplan.
  destruct (finish_plan tp_compress_segments h0 (merged_stats srcs) dm infos ts st _ st2 w2 merged_final_header
    Hplan HP104 Hi2 (writer_frame_trans _ _ _ _ _ _ Hfr1 Hfr2) eq_refl Hfit)
    as (block & pages & bs & n & root & st' & Efin & Hw); [done|].
  exists block, pages, bs, (completed_header tp_compress_segments h0 (merged_stats srcs) dm infos ts n root),
    (plan_content (merged_stats srcs) dm infos ts), st'.
  split; [exact Efin|]. split; [exact Hw|]. split; [|done].
  by apply (merged_content srcs st Hsrcs Hmb dm Hdm terms Hterms now level total).
Qed.
End MergeSegment.
