(* ===== verification/MergeLevel.v ===== *)
(** * The segments of a level

    The segments of a level form a chain through their headers.  A merge opens the
    chain, tracks its pages, writes the merged segment, switches the metapage to it and
    gives the pages back.  This file proves each of these steps. *)
From S2P Require Import Prelude Postgres Fieldnorm SegmentFormat Compression Storage SegmentIO.
From S2P Require Import Docmap SegmentScan ScanFacts Memtable MemtableFacts SegmentWrite SegmentWriteFacts.
From S2P Require Import SegmentEmit SegmentLayout SegmentOpen SegmentContent SegmentDocs Metapage MetapageFacts.
From S2P Require Import Merge MergeWrite MergeReaders MergeTerms MergePostings MergeDocs MergeEmit.
From S2P Require Import MergePlan MergeSegment.

(** ** Segments on pages that are kept *)

Section Kept.
Context `{PgLayoutLaws} `{FreeSpaceMapLaws} `{QSortLaws} `{HashSeq} `{ItemPointerOps}.
Abbreviation P := SEGMENT_DATA_PER_PAGE.

(** The pages [bs] are the same in [st'] as in [st]. *)
Record pages_same (st st' : Storage) (bs : list Z) : Prop := {
  ps_wf : storage_wf st';
  ps_mono : nblocks st <= nblocks st' <= InvalidBlockNumber;
  ps_same : forall b, b ∈ bs -> page_at st' b = page_at st b;
}.

Lemma index_chain_same st st' bs : (forall b, b ∈ bs -> page_at st' b = page_at st b) ->
  forall cs, index_chain st bs cs -> index_chain st' bs cs.
Proof.
  induction bs as [|b bs IH]; intros Hs [|c cs]; cbn [index_chain]; try done. intros [Hb Hc].
  split; [|apply IH; [|done]; intros x Hx; apply Hs; by right].
  change (page_at st' b = Some (page_index_page c (default InvalidBlockNumber (head bs)))).
  rewrite Hs by left. exact Hb.
Qed.

Lemma segment_at_same st st' block pages bs h c : pages_same st st' (pages ++ bs) ->
  segment_at st block pages bs h c -> segment_at st' block pages bs h c.
Proof.
  intros [Hwf Hm Hs] [[_ [Hc Hr Hcat Hnd Hin _] Hin2 Hnd2 Hdis _] Hb Hn Hh].
  assert (Est : stream st' pages = stream st pages).
  { apply stream_ext. intros b Hb'. apply page_at_data, Hs, elem_of_app. by left. }
  split; rewrite ?Est; try done. split; try done.
  - split; try done.
    + eapply index_chain_same; [|done]. intros b Hb'. apply Hs, elem_of_app. by right.
    + eapply Forall_impl; [exact Hin|]. cbn. lia.
    + lia.
  - eapply Forall_impl; [exact Hin2|]. unfold in_relation. lia.
Qed.

(** The block of a segment is a page of it. *)
Lemma segment_block st block pages bs h c : segment_at st block pages bs h c ->
  block ∈ pages /\ 0 <= block < InvalidBlockNumber.
Proof.
  intros [Hsp Hb _ _]. pose proof (zget_Some _ _ _ Hb). rewrite zget_lookup in Hb by lia.
  apply list_elem_of_lookup_2 in Hb. split; [done|].
  pose proof (sp_in _ _ _ _ _ Hsp) as HF. rewrite Forall_forall in HF. specialize (HF block Hb).
  pose proof (pia_limit _ _ _ _ (sp_index _ _ _ _ _ Hsp)). unfold in_relation in HF. lia.
Qed.

(** ** Collecting the pages *)

Lemma collect_index_chain st bs : forall cs fuel, index_chain st bs cs -> (length bs < fuel)%nat ->
  Forall (fun c => zlen c <= tp_page_index_entries_per_page) cs ->
  Forall (fun b => 0 < b < nblocks st) bs -> nblocks st <= InvalidBlockNumber ->
  collect_index_pages fuel st (default InvalidBlockNumber (head bs)) = Ok bs.
Proof.
  induction bs as [|b bs IH]; intros [|c cs] [|fuel] Hc Hf Hcl Hbs Hn; simpl in Hc, Hf; try done; try lia.
  destruct Hc as [Hb Hc]. apply Forall_cons in Hbs as [Hbr Hbs]. apply Forall_cons in Hcl as [Hcl Hcs].
  cbn [collect_index_pages head default from_option id]. rewrite (proj2 (Z.eqb_neq _ _)) by lia.
  unfold ReadBuffer. rewrite Hb. cbn [mbind res_bind].
  assert (Hnext : block_number (default InvalidBlockNumber (head bs))).
  { destruct bs as [|b' bs']; simpl; [unfold block_number, InvalidBlockNumber; lia|].
    apply Forall_cons in Hbs as [? _]. unfold block_number, InvalidBlockNumber in *. lia. }
  rewrite (page_special_index_page c _ Hnext Hcl). cbn [index_special pi_magic pi_next_page].
  rewrite Z.eqb_refl. cbn [negb]. by rewrite (IH cs) by (done || lia).
Qed.

Lemma open_plain_segment st block pages bs h c : segment_at st block pages bs h c -> 104 <= P ->
  tp_segment_open st block = Ok (Some (fresh_reader st block h pages)).
Proof. intros [Hsp Hblock Hn [[Hop _ _ _] _ _ H32]] HP. by eapply tp_segment_open_plain_ok. Qed.

Lemma collect_pages_ok st block pages bs h c : segment_at st block pages bs h c -> 104 <= P ->
  tp_segment_collect_pages st block = Ok (pages ++ bs).
Proof.
  intros Hseg HP. unfold tp_segment_collect_pages. rewrite (open_plain_segment _ _ _ _ _ _ Hseg HP).
  cbn [mbind res_bind fresh_reader r_header r_page_map].
  pose proof (sp_index _ _ _ _ _ (sa_pages _ _ _ _ _ _ Hseg)) as [Hc Hr _ Hnd Hin Hl].
  rewrite Hr, (collect_index_chain st bs _ (S (Z.to_nat (nblocks st))) Hc); [|..|done|done].
  - done.
  - pose proof (length_nodup_blocks bs (nblocks st) Hnd Hin). lia.
  - apply Forall_fmap, Forall_forall. intros k _. apply zlen_index_chunk.
Qed.

(** ** Linking *)

Lemma overwrite_page_patch block off bs st :
  overwrite_page block off bs st = match patch_page st block off bs with Ok st' => Ok (tt, st') | Err e => Err e end.
Proof.
  unfold overwrite_page, patch_page, rst_read_buffer, mbind, rst_bind, res_bind, rst_modify.
  by destruct (ReadBuffer st block).
Qed.

(** A segment whose header can be linked to another one. *)
Definition relinkable (st : Storage) (pages : list Z) (h : TpSegmentHeader) (c : segment_content) : Prop :=
  forall next, fits 4 next ->
    stream_holds (with_next_segment h next) (overwrite 28 (u32_bytes next) (stream st pages)) c.

(** Linking a new segment to the next one. *)
Lemma relink_ok st block pages bs h c next : segment_at st block pages bs h c -> relinkable st pages h c ->
  0 <= next < 2 ^ 32 -> 104 <= P ->
  exists st', set_next_segment block next st = Ok (tt, st') /\ pages_kept st st' pages /\
    segment_at st' block pages bs (with_next_segment h next) c.
Proof.
  intros [Hsp Hb Hc Hh] Hre Hn HP.
  destruct (patch_page_ok st _ bs pages _ 0 block 28 (u32_bytes next) Hsp Hb) as (st' & Ep & Hsp' & Hk);
    [lia|rewrite zlen_u32; lia|].
  exists st'. unfold set_next_segment. rewrite overwrite_page_patch, Ep. split; [done|]. split; [done|].
  rewrite Z.mul_0_l, Z.add_0_l in Hsp'. pose proof (sp_stream _ _ _ _ _ Hsp') as Est.
  split; rewrite ?Est; [exact Hsp'|exact Hb|exact Hc|]. by apply Hre.
Qed.

(** A segment that is written but not linked, and its new place before [head]. *)
Lemma link_new_ok st block pages bs h c head : segment_at st block pages bs h c -> relinkable st pages h c ->
  next_segment h = InvalidBlockNumber -> fits 4 head -> 104 <= P ->
  exists st', (if head =? InvalidBlockNumber then mret tt else set_next_segment block head) st = Ok (tt, st') /\
    pages_kept st st' pages /\ segment_at st' block pages bs (with_next_segment h head) c.
Proof.
  intros Hseg Hre Hnext Hhf HP. destruct (Z.eqb_spec head InvalidBlockNumber) as [->|N].
  - exists st. split; [done|]. split; [apply pages_kept_refl|]. rewrite <- Hnext. by destruct h.
  - by apply relink_ok.
Qed.

(** Then the metapage is written. *)
Lemma link_and_write_ok st block pages bs h c head m : segment_at st block pages bs h c ->
  relinkable st pages h c -> next_segment h = InvalidBlockNumber -> fits 4 head -> metapage_ok m ->
  0 ∉ pages ++ bs -> 120 <= P ->
  exists st', (_ ← (if head =? InvalidBlockNumber then mret tt else set_next_segment block head);
               write_metapage m) st = Ok (tt, st') /\
    storage_wf st' /\ nblocks st' = nblocks st /\ st_fsm st' = st_fsm st /\ metapage_of st' = m /\
    segment_at st' block pages bs (with_next_segment h head) c /\
    forall b, 0 < b -> b ∉ pages -> page_at st' b = page_at st b.
Proof.
  intros Hseg Hre Hnext Hhf Hm Hz HP.
  destruct (link_new_ok _ _ _ _ _ _ _ Hseg Hre Hnext Hhf ltac:(lia)) as (st1 & E1 & (En & Ef & Hk) & Hs1).
  pose proof (sp_wf _ _ _ _ _ (sa_pages _ _ _ _ _ _ Hs1)) as Hwf1.
  destruct (write_metapage_ok st1 m Hwf1 HP Hm) as (st2 & data & E2 & Em2 & [Hwf2 En2 Ef2 _ Hk2]).
  exists st2. unfold mbind, rst_bind. rewrite E1, E2. split; [done|]. split; [done|]. split; [lia|].
  split; [congruence|]. split; [done|]. split.
  - eapply segment_at_same; [|exact Hs1]. split; [done| |].
    + pose proof (pia_limit _ _ _ _ (sp_index _ _ _ _ _ (sa_pages _ _ _ _ _ _ Hs1))). lia.
    + intros b Hb. assert (b <> 0) by (intros ->; done). apply Hk2; [|done].
      apply elem_of_app in Hb as [Hb|Hb].
      * pose proof (sp_in _ _ _ _ _ (sa_pages _ _ _ _ _ _ Hs1)) as HF. rewrite Forall_forall in HF.
        specialize (HF b Hb). unfold in_relation in HF. lia.
      * pose proof (pia_in _ _ _ _ (sp_index _ _ _ _ _ (sa_pages _ _ _ _ _ _ Hs1))) as HF.
        rewrite Forall_forall in HF. specialize (HF b Hb). lia.
  - intros b Hb Hnp. rewrite Hk2 by (unfold TP_METAPAGE_BLKNO; lia). unfold page_at. apply Hk; [lia|done].
Qed.

(** ** Giving pages back *)

Lemma free_pages_ok pages : 0 ∉ pages -> forall st,
  tp_segment_free_pages st pages = Ok (mkStorage (st_pages st) (reverse pages ++ st_fsm st) (pool_next st)).
Proof.
  induction pages as [|p pages IH]; intros H0p st; [by destruct st|].
  apply not_elem_of_cons in H0p as [Hp H0p]. cbn [tp_segment_free_pages].
  rewrite (proj2 (Z.eqb_neq _ _)) by done. rewrite IH by done. cbn [RecordFreeIndexPage st_pages st_fsm pool_next].
  by rewrite reverse_cons, <- app_assoc.
Qed.

Lemma free_all_ok pss : 0 ∉ concat pss -> forall st,
  free_all st pss = Ok (mkStorage (st_pages st) (reverse (concat pss) ++ st_fsm st) (pool_next st)).
Proof.
  induction pss as [|pages pss IH]; intros H0p st; [by destruct st|]. cbn [concat free_all] in *.
  apply not_elem_of_app in H0p as [Hp H0p]. rewrite free_pages_ok by done. cbn [mbind res_bind].
  rewrite IH by done. cbn [st_pages st_fsm pool_next]. by rewrite reverse_app, <- app_assoc.
Qed.
End Kept.

(** ** The chain of a level *)

(** A segment of a chain: the page of its header, the pages of its index, and what the
    merge sees of it. *)
Record chain_segment := mkChainSegment {
  cg_block : Z;
  cg_index : list Z;
  cg_source : source;
}.

Abbreviation cg_header g := (so_header (cg_source g)).
Abbreviation cg_content g := (so_content (cg_source g)).
Definition chain_pages (g : chain_segment) : list Z := so_pages (cg_source g) ++ cg_index g.

Section Chain.
Context `{PgLayoutLaws} `{FreeSpaceMapLaws} `{ItemPointerOps} `{QSortLaws} `{HashSeq}.
Abbreviation P := SEGMENT_DATA_PER_PAGE.

Record segment_of_chain (st : Storage) (g : chain_segment) : Prop := {
  sc_segment : segment_at st (cg_block g) (so_pages (cg_source g)) (cg_index g) (cg_header g) (cg_content g);
  sc_source : source_at st (cg_source g);
  sc_some : so_dict (cg_source g) <> [];
}.

(** The segments from [head] on, each with a term. *)
Fixpoint level_chain (st : Storage) (head : Z) (gs : list chain_segment) : Prop :=
  match gs with
  | [] => head = InvalidBlockNumber
  | g :: gs' => head = cg_block g /\ segment_of_chain st g /\ level_chain st (next_segment (cg_header g)) gs'
  end.

(** Their pages are in use, each by one of them. *)
Record level_apart (st : Storage) (gs : list chain_segment) : Prop := {
  la_nodup : NoDup (concat (chain_pages <$> gs));
  la_used : Forall (fun b => 0 < b < nblocks st /\ b ∉ st_fsm st) (concat (chain_pages <$> gs));
}.

(** The sum of the tokens, in 64 bits. *)
Definition chain_tokens (gs : list chain_segment) : Z :=
  foldl (fun n g => u64 (n + total_tokens (cg_header g))) 0 gs.

Lemma chain_tokens_range gs : 0 <= chain_tokens gs < 2 ^ 64.
Proof.
  unfold chain_tokens. enough (Hn : forall n, 0 <= n < 2 ^ 64 ->
    0 <= foldl (fun n g => u64 (n + total_tokens (cg_header g))) n gs < 2 ^ 64) by by apply Hn.
  induction gs as [|g gs IH]; intros n Hn; [done|]. apply IH, wrap_range. lia.
Qed.

(** What opening the chain has found. *)
Record opened (st : Storage) (gs : list chain_segment) (ls : LevelSources) : Prop := {
  od_cursors : Forall3 (term_cursor st) (cg_source <$> gs) (ls_sources ls).*1 (so_dict <$> (cg_source <$> gs));
  od_readers : readers_ok st (cg_source <$> gs) (ls_sources ls).*2;
  od_tokens : ls_total_tokens ls = chain_tokens gs;
  od_pages : ls_segment_pages ls = chain_pages <$> gs;
}.

Lemma opened_length st gs ls : opened st gs ls -> zlen (ls_sources ls) = zlen gs /\ zlen (ls_segment_pages ls) = zlen gs.
Proof.
  intros [_ Hr _ Hp]. apply Forall2_length in Hr. rewrite !length_fmap in Hr. rewrite Hp, zlen_fmap.
  unfold zlen. lia.
Qed.

Lemma Forall3_app_one {A B C} (R : A -> B -> C -> Prop) l k m x y z :
  Forall3 R l k m -> R x y z -> Forall3 R (l ++ [x]) (k ++ [y]) (m ++ [z]).
Proof. induction 1; intros; simpl; constructor; auto. constructor. Qed.

Lemma open_sources_ok st gs : 104 <= P -> forall before fuel current acc,
  opened st before acc -> level_chain st current gs -> (length gs < fuel)%nat ->
  exists ls, open_sources fuel st (zlen (before ++ gs)) current acc = Ok ls /\ opened st (before ++ gs) ls.
Proof.
  intros HP. induction gs as [|g gs IH]; intros before [|fuel] current acc Hacc Hc Hf; try (simpl in Hf; lia);
    cbn [open_sources].
  { cbn [level_chain] in Hc. subst current. rewrite Z.eqb_refl, app_nil_r. cbn [orb]. by exists acc. }
  destruct Hc as (-> & Hg & Hc). pose proof Hg as [Hseg Hsrc Hsome].
  destruct (segment_block _ _ _ _ _ _ Hseg) as [_ Hb]. destruct (opened_length _ _ _ Hacc) as [El Ep].
  assert (Hlt : (zlen (before ++ g :: gs) <=? zlen before) = false).
  { apply Z.leb_gt. rewrite zlen_app, zlen_cons. pose proof (zlen_nonneg gs). lia. }
  rewrite El, Ep, Hlt, (proj2 (Z.eqb_neq _ _)) by lia. cbn [orb].
  pose proof (open_plain_segment _ _ _ _ _ _ Hseg HP) as Eo.
  unfold merge_source_open. rewrite Eo. cbn [mbind res_bind].
  rewrite (collect_pages_ok _ _ _ _ _ _ Hseg HP). cbn [mbind res_bind].
  set (r := fresh_reader _ _ _ _) in *.
  assert (Hr : source_reader st (cg_source g) r).
  { split; [|done..]. apply fresh_reader_ok, (sat_in _ _ Hsrc). }
  destruct (merge_cursor_init_ok st (cg_source g) Hsrc r Hr Hsome) as (res & r' & -> & Hr' & ms & -> & Hms).
  cbn [mbind res_bind]. change (r_header r) with (cg_header g).
  rewrite (cons_middle g before gs), app_assoc. destruct Hacc as [Ac Ar At Apg].
  apply (IH (before ++ [g])); [|done|simpl in Hf; lia].
  split; cbn [ls_sources ls_total_tokens ls_segment_pages]; rewrite ?fmap_app; csimpl.
  - by apply Forall3_app_one.
  - by apply Forall2_app; [|constructor].
  - rewrite At. unfold chain_tokens. by rewrite foldl_app.
  - by rewrite Apg.
Qed.

Lemma opened_nil st : opened st [] (mkLevelSources [] 0 []).
Proof. split; try done; constructor. Qed.

Lemma chain_segments st head gs : level_chain st head gs -> Forall (segment_of_chain st) gs.
Proof.
  revert head. induction gs as [|g gs IH]; intros head Hc; [constructor|].
  destruct Hc as (_ & Hg & Hc). constructor; [done|by eapply IH].
Qed.

Lemma chain_block_page st g : segment_of_chain st g -> cg_block g ∈ chain_pages g.
Proof. intros [Hseg _ _]. apply elem_of_app. left. apply (segment_block _ _ _ _ _ _ Hseg). Qed.

Lemma segment_chain_blocks st gs : Forall (segment_of_chain st) gs -> level_apart st gs ->
  NoDup (cg_block <$> gs) /\ Forall (fun b => 0 < b < nblocks st) (cg_block <$> gs).
Proof.
  intros Hgs. induction Hgs as [|g gs Hg Hgs IH]; intros [Hnd HF]; [by split; constructor|].
  csimpl in *. apply NoDup_app in Hnd as (_ & Hd & Hnd).
  apply Forall_app in HF as [HF1 HF2]. destruct (IH ltac:(done)) as [IH1 IH2].
  pose proof (chain_block_page st g Hg) as Hb. rewrite Forall_forall in HF1. split; constructor; [|done| |done].
  - intros (g' & E & Hg')%list_elem_of_fmap. apply (Hd _ Hb), elem_of_concat.
    exists (chain_pages g'). split; [|by apply list_elem_of_fmap_2]. rewrite E.
    rewrite Forall_forall in Hgs. by apply (chain_block_page st), Hgs.
  - by apply HF1.
Qed.

(** The whole chain is opened. *)
Lemma open_chain_ok st head gs : 104 <= P -> level_chain st head gs -> level_apart st gs ->
  exists ls, open_sources (S (S (Z.to_nat (nblocks st)))) st (zlen gs) head (mkLevelSources [] 0 []) = Ok ls /\
    opened st gs ls.
Proof.
  intros HP Hc Ha. apply (open_sources_ok st gs HP []); [apply opened_nil|done|].
  destruct (segment_chain_blocks st gs (chain_segments _ _ _ Hc) Ha) as [Hnd HF].
  pose proof (length_nodup_blocks _ _ Hnd HF) as Hl. rewrite length_fmap in Hl. lia.
Qed.
End Chain.

(** ** The metapage *)

Section Switch.
Context `{PgLayoutLaws} `{FreeSpaceMapLaws} `{QSortLaws} `{HashSeq} `{ItemPointerOps}.
Abbreviation P := SEGMENT_DATA_PER_PAGE.

Lemma replicate_fits n w (l : list Z) : Forall2 fits (replicate n w) l -> Forall (fits w) l.
Proof.
  revert l. induction n as [|n IH]; intros [|x l] HF; inversion HF; subst; constructor; [done|by apply IH].
Qed.

Lemma metapage_levels m : metapage_ok m ->
  Forall (fits 4) (mp_level_heads m) /\ Forall (fits 2) (mp_level_counts m).
Proof.
  intros (Hf & Hh & Hc). unfold metapage_fields, metapage_layout in Hf.
  apply Forall2_app_inv in Hf as [_ Hf]; [|done]. apply Forall2_app_inv in Hf as [H1' Hf]; [|by rewrite Hh].
  apply Forall2_app_inv in Hf as [H2' _]; [|by rewrite Hc]. split; by eapply replicate_fits.
Qed.

Lemma set_levels_ok m heads counts : metapage_ok m ->
  length heads = TP_MAX_LEVELS -> length counts = TP_MAX_LEVELS ->
  Forall (fits 4) heads -> Forall (fits 2) counts -> metapage_ok (set_levels m heads counts).
Proof.
  intros (Hf & Hh & Hc) El Ec F1 F2. split; [|done]. unfold metapage_fields, metapage_layout in *.
  cbn [set_levels mp_magic mp_version mp_text_config_oid mp_pad0 mp_total_docs mp_total_terms mp_total_len
    mp_k1 mp_b mp_root_blkno mp_term_stats_root mp_first_docid_page mp_level_heads mp_level_counts
    mp_tenant_column_attno mp_first_tenant_stats_page mp_indexed_type mp_pad1].
  apply Forall2_app_inv in Hf as [H0' Hf]; [|done]. apply Forall2_app_inv in Hf as [_ Hf]; [|by rewrite Hh].
  apply Forall2_app_inv in Hf as [_ Hf]; [|by rewrite Hc].
  apply Forall2_app; [done|]. apply Forall2_app; [by apply Forall2_replicate_l|].
  apply Forall2_app; [by apply Forall2_replicate_l|done].
Qed.

(** The metapage after the switch. *)
Definition switched (m : TpIndexMetaPageData) (level : nat) (new_segment : Z) : TpIndexMetaPageData :=
  set_levels m (<[S level := new_segment]> (<[level := InvalidBlockNumber]> (mp_level_heads m)))
    (<[S level := u16 (nth (S level) (mp_level_counts m) 0 + 1)]> (<[level := 0]> (mp_level_counts m))).

Lemma switched_ok m level new_segment : metapage_ok m -> fits 4 new_segment -> metapage_ok (switched m level new_segment).
Proof.
  intros Hok Hn. destruct (metapage_levels m Hok) as [F1 F2]. pose proof Hok as (_ & Hh & Hc).
  apply set_levels_ok; [done|by rewrite !length_insert..| |].
  - apply Forall_insert; [|done]. by apply Forall_insert.
  - apply Forall_insert; [by apply Forall_insert|]. apply (wrap_range 16). lia.
Qed.

Abbreviation old_head m level := (nth (S level) (mp_level_heads m) 0).

Lemma switch_levels_ok st st' block pages bs h c (level : nat) :
  segment_written st st' block pages bs h c -> next_segment h = InvalidBlockNumber ->
  0 ∉ pages ++ bs -> 120 <= P -> (S level < TP_MAX_LEVELS)%nat ->
  let m := metapage_of st' in
  exists st'', switch_levels level block st' = Ok (tt, st'') /\ storage_wf st'' /\
    nblocks st'' = nblocks st' /\ st_fsm st'' = st_fsm st' /\ metapage_of st'' = switched m level block /\
    segment_at st'' block pages bs (with_next_segment h (old_head m level)) c /\
    forall b, 0 < b -> b ∉ pages -> page_at st'' b = page_at st' b.
Proof.
  intros Hw Hnext Hz HP Hlv m. pose proof (sw_at _ _ _ _ _ _ _ Hw) as Hseg.
  pose proof (sp_wf _ _ _ _ _ (sa_pages _ _ _ _ _ _ Hseg)) as Hwf.
  pose proof (metapage_of_ok st' Hwf HP) as Hm. fold m in Hm. pose proof Hm as (_ & Hlh & Hlc).
  destruct (metapage_levels m Hm) as [F1 F2]. destruct (segment_block _ _ _ _ _ _ Hseg) as [Hbp Hbr].
  assert (Hbfit : fits 4 block) by (apply fits_u32; unfold InvalidBlockNumber in Hbr; lia).
  destruct (lookup_lt_is_Some_2 (mp_level_heads m) (S level) ltac:(lia)) as [head Hhead].
  destruct (lookup_lt_is_Some_2 (mp_level_counts m) (S level) ltac:(lia)) as [count Hcount].
  assert (Eh : old_head m level = head) by by apply nth_lookup_Some.
  assert (Hhf : fits 4 head) by by apply (Forall_lookup_1 _ _ _ _ F1 Hhead).
  unfold switch_levels, mbind, rst_bind at 1. rewrite (read_metapage_ok st' Hwf). fold m. cbv zeta.
  replace (Z.of_nat level + 1) with (Z.of_nat (S level)) by lia.
  unfold zread. rewrite !zget_nat, !list_lookup_insert_ne, Hhead, Hcount by lia. cbn [rst_lift rst_bind].
  replace (set_levels m _ _) with (switched m level block)
    by (unfold switched; by rewrite (nth_lookup_Some _ _ 0 _ Hcount)).
  rewrite Eh. apply link_and_write_ok; try done; [intros next; apply (sw_relink _ _ _ _ _ _ _ Hw)|by apply switched_ok].
Qed.
End Switch.
