(* ===== verification/MergeProperties.v ===== *)
(** * Merging a level keeps its documents

    The refinement theorem of the merge: from a level whose chain is well formed,
    [tp_merge_level_segments] makes one segment of the next level whose content is the
    union of the contents of the chain, switches the metapage to it, gives the pages
    of the chain back and leaves every other page in use as it was. *)
From S2P Require Import Prelude Postgres Fieldnorm SegmentFormat Compression Storage SegmentIO.
From S2P Require Import Docmap SegmentScan ScanFacts Memtable MemtableFacts SegmentWrite SegmentWriteFacts.
From S2P Require Import SegmentEmit SegmentLayout SegmentOpen SegmentContent SegmentDocs SegmentRoundtrip.
From S2P Require Import Metapage MetapageFacts Merge MergeWrite MergeReaders MergeTerms MergePostings.
From S2P Require Import MergeDocs MergeEmit MergePlan MergeSegment MergeLevel.

Abbreviation level_head m level := (nth level (mp_level_heads m) 0).
Abbreviation level_count m level := (nth level (mp_level_counts m) 0).
Abbreviation sources gs := (cg_source <$> gs).
Abbreviation level_pages gs := (concat (chain_pages <$> gs)).

Section MergeProperties.
Context `{PgLayoutLaws} `{FreeSpaceMapLaws} `{ItemPointerLaws} `{QSortLaws} `{HashSeqLaws}.
Abbreviation P := SEGMENT_DATA_PER_PAGE.

(** The merged segment fits, whatever terms the merge finds. *)
Definition level_fits (tp_compress_segments : bool) (now : Z) (level : nat) (gs : list chain_segment)
    (st : Storage) : Prop :=
  forall ls terms rs,
    open_sources (S (S (Z.to_nat (nblocks st)))) st (zlen gs) (level_head (metapage_of st) level)
      (mkLevelSources [] 0 []) = Ok ls ->
    merge_terms st (terms_bound (ls_sources ls).*1) (ls_sources ls).*1 (ls_sources ls).*2 = Ok (terms, rs) ->
    merge_fits tp_compress_segments now (Z.of_nat level + 1) (ls_total_tokens ls) (sources gs) terms st.

(** A level that can be merged: the metapage counts its segments, no document is
    in two of them. *)
Record level_ready (tp_compress_segments : bool) (now : Z) (level : nat) (gs : list chain_segment)
    (st : Storage) : Prop := {
  lr_wf : storage_wf st;
  lr_level : (S level < TP_MAX_LEVELS)%nat;
  lr_chain : level_chain st (level_head (metapage_of st) level) gs;
  lr_count : level_count (metapage_of st) level = zlen gs;
  lr_apart : level_apart st gs;
  lr_mergeable : mergeable (sources gs);
  lr_fits : level_fits tp_compress_segments now level gs st;
}.

(** What the merge has done when it returns [new]. *)
Record level_merged (level : nat) (gs : list chain_segment) (st st' : Storage) (new : Z)
    (pages bs : list Z) (h : TpSegmentHeader) (c : segment_content) : Prop := {
  lm_segment : segment_at st' new pages bs h c;
  lm_content : merged_of (so_content <$> sources gs) c;
  lm_level : SegmentFormat.level h = Z.of_nat level + 1;
  lm_tokens : total_tokens h = chain_tokens gs;
  lm_next : next_segment h = level_head (metapage_of st) (S level);
  lm_metapage : metapage_of st' = switched (metapage_of st) level new;
  lm_used : forall b, b ∈ pages ++ bs -> b ∉ st_fsm st';
  lm_new : forall b, b ∈ pages ++ bs -> 0 < b < nblocks st' /\ (b ∈ st_fsm st \/ nblocks st <= b);
  lm_mono : nblocks st <= nblocks st';
  lm_freed : forall b, b ∈ level_pages gs -> b ∈ st_fsm st';
  lm_keep : forall b, 0 < b < nblocks st -> b ∉ st_fsm st -> b ∉ level_pages gs ->
    page_at st' b = page_at st b /\ b ∉ st_fsm st';
}.

Lemma chain_terms st gs terms : Forall (segment_of_chain st) gs -> gs <> [] ->
  merged_terms (so_dict <$> sources gs) terms -> terms <> [].
Proof.
  intros Hgs Hne Hm ->. destruct gs as [|g gs]; [done|]. apply Forall_cons in Hgs as [Hg _].
  pose proof (sc_some _ _ Hg) as Hd. destruct (so_dict (cg_source g)) as [|[t e] d] eqn:Ed; [done|].
  assert (Ht : t ∈ mt_term <$> ([] : list TpMergedTerm)); [|by apply not_elem_of_nil in Ht].
  apply (mg_terms _ _ Hm). exists (so_dict (cg_source g)). split; [left|]. rewrite Ed. left.
Qed.

Lemma new_pages_range st st' st2 block pages bs h h2 c b : storage_wf st -> segment_written st st' block pages bs h c ->
  segment_at st2 block pages bs h2 c -> b ∈ pages ++ bs ->
  0 < b < nblocks st2 /\ (b ∈ st_fsm st \/ nblocks st <= b).
Proof.
  intros Hwf Hw Hs Hb. destruct (sw_pages _ _ _ _ _ _ _ Hw b Hb) as [_ Hnew]. split; [|done].
  pose proof (swf_fsm _ Hwf) as HF. rewrite Forall_forall in HF. pose proof (swf_metapage _ Hwf).
  assert (0 < b) by (destruct Hnew as [Hf|]; [specialize (HF b Hf); lia|lia]). split; [done|].
  pose proof (sp_in _ _ _ _ _ (sa_pages _ _ _ _ _ _ Hs)) as HF1.
  pose proof (pia_in _ _ _ _ (sp_index _ _ _ _ _ (sa_pages _ _ _ _ _ _ Hs))) as HF2.
  rewrite Forall_forall in HF1, HF2. unfold in_relation in HF1.
  apply elem_of_app in Hb as [Hb|Hb]; [by apply HF1|by apply HF2].
Qed.

(** Switching and freeing, after the merged segment is written. *)
Lemma new_pages_apart st st' block pages bs h c gs b : segment_written st st' block pages bs h c ->
  level_apart st gs -> b ∈ pages ++ bs -> b ∉ level_pages gs.
Proof.
  intros Hw Hap Hb Hg. pose proof (la_used _ _ Hap) as HF. rewrite Forall_forall in HF.
  destruct (HF b Hg) as [Hr Hf]. destruct (sw_pages _ _ _ _ _ _ _ Hw b Hb) as [_ [|]]; [done|lia].
Qed.

Lemma freed_wf st gs st2 : storage_wf st2 -> level_apart st gs -> nblocks st <= nblocks st2 ->
  (forall b, b ∈ st_fsm st2 -> b ∈ st_fsm st) ->
  storage_wf (mkStorage (st_pages st2) (reverse (level_pages gs) ++ st_fsm st2) (pool_next st2)).
Proof.
  intros [W1 W2 W3 W4] [Hnd HF] Hn Hf. split; cbn [st_pages st_fsm]; try done.
  - apply Forall_app. split; [|done]. apply Forall_reverse. eapply Forall_impl; [exact HF|].
    intros b [Hb _]. unfold nblocks in *. cbn [st_pages]. lia.
  - apply NoDup_app. split; [by rewrite reverse_Permutation|]. split; [|done].
    intros b Hb Hb2. rewrite elem_of_reverse in Hb. rewrite Forall_forall in HF. by apply (HF b Hb), Hf.
Qed.

Lemma switch_and_free_ok (level : nat) gs st st1 new pages bs h c ls : storage_wf st ->
  segment_written st st1 new pages bs h c -> next_segment h = InvalidBlockNumber ->
  level_apart st gs -> (S level < TP_MAX_LEVELS)%nat -> 120 <= P -> opened st gs ls ->
  exists st2 st', switch_levels level new st1 = Ok (tt, st2) /\
    free_all st2 (ls_segment_pages ls) = Ok st' /\ storage_wf st' /\
    segment_at st' new pages bs (with_next_segment h (level_head (metapage_of st) (S level))) c /\
    metapage_of st' = switched (metapage_of st) level new /\
    st_fsm st' = reverse (level_pages gs) ++ st_fsm st1 /\ nblocks st1 <= nblocks st' /\
    forall b, 0 < b -> b ∉ pages -> page_at st' b = page_at st1 b.
Proof.
  intros Hwf Hw Hn Hap Hlv HP Hod. pose proof (sw_mono _ _ _ _ _ _ _ Hw) as Hmono.
  assert (Hz : 0 ∉ pages ++ bs).
  { intros Hb. destruct (sw_pages _ _ _ _ _ _ _ Hw 0 Hb) as [_ [Hf|Hlt]].
    - pose proof (swf_fsm _ Hwf) as HF. rewrite Forall_forall in HF. specialize (HF 0 Hf). lia.
    - pose proof (swf_metapage _ Hwf). lia. }
  assert (Hz0 : 0 ∉ st_fsm st).
  { intros Hf. pose proof (swf_fsm _ Hwf) as HF. rewrite Forall_forall in HF. specialize (HF 0 Hf). lia. }
  assert (Em : metapage_of st1 = metapage_of st).
  { unfold metapage_of. f_equal. apply page_at_data, (sw_keep _ _ _ _ _ _ _ Hw); [|done].
    split; [lia|apply (swf_metapage _ Hwf)]. }
  destruct (switch_levels_ok st st1 new pages bs h c level Hw Hn Hz HP Hlv)
    as (st2 & E2 & Hwf2 & En2 & Ef2 & Em2 & Hs2 & Hk2). rewrite Em in Em2, Hs2.
  exists st2. rewrite (od_pages _ _ _ Hod), free_all_ok; cycle 1.
  { intros Hb. pose proof (la_used _ _ Hap) as HF. rewrite Forall_forall in HF. destruct (HF 0 Hb). lia. }
  eexists. split; [exact E2|]. split; [reflexivity|]. set (st' := mkStorage _ _ _).
  assert (Hwf' : storage_wf st').
  { apply (freed_wf st gs st2); [done..|lia|]. intros b. rewrite Ef2. apply (sw_fsm _ _ _ _ _ _ _ Hw). }
  split; [done|]. split; [|split; [exact Em2|split; [cbn; by rewrite Ef2|split; [unfold nblocks in *; cbn; lia|exact Hk2]]]].
  eapply segment_at_same; [|exact Hs2]. split; [done| |done].
  pose proof (pia_limit _ _ _ _ (sp_index _ _ _ _ _ (sa_pages _ _ _ _ _ _ Hs2))) as Hl.
  unfold nblocks in *. cbn [st' st_pages]. lia.
Qed.

Lemma level_merge_ok (tp_compress_segments : bool) (now : Z) (level : nat) (gs : list chain_segment) (st : Storage) :
  level_ready tp_compress_segments now level gs st -> 120 <= P -> 0 <= now < 2 ^ 64 ->
  exists new st' pages bs h c,
    tp_merge_level_segments tp_compress_segments now level st = Ok (new, st') /\
    storage_wf st' /\ level_merged level gs st st' new pages bs h c.
Proof.
  intros [Hwf Hlv Hc Hcount Hap Hmb Hfits] HP Hnow. set (m := metapage_of st) in *.
  pose proof (metapage_of_ok st Hwf HP) as (Hmf & Hlh & Hlc). fold m in Hmf, Hlh, Hlc.
  pose proof (chain_segments _ _ _ Hc) as Hgs.
  assert (Hne : gs <> []) by (intros ->; by apply (mb_some _ Hmb)).
  destruct (lookup_lt_is_Some_2 (mp_level_heads m) level ltac:(lia)) as [first Hfirst].
  destruct (lookup_lt_is_Some_2 (mp_level_counts m) level ltac:(lia)) as [count Hct].
  pose proof (nth_lookup_Some _ _ 0 _ Hfirst) as Ef. pose proof (nth_lookup_Some _ _ 0 _ Hct) as Ec.
  unfold level_fits in Hfits. fold m in Hfits. rewrite Ef in Hc, Hfits. rewrite Ec in Hcount. subst count.
  unfold tp_merge_level_segments. rewrite (proj2 (Nat.leb_gt _ _)) by (unfold TP_MAX_LEVELS in *; lia).
  rewrite (read_metapage_ok st Hwf). cbn [mbind res_bind]. fold m. unfold zread.
  rewrite !zget_nat, Hfirst, Hct. cbn [mbind res_bind].
  assert (Hfne : (first =? InvalidBlockNumber) = false).
  { apply Z.eqb_neq. destruct gs as [|g gs']; [done|]. destruct Hc as (-> & [Hseg _ _] & _).
    pose proof (segment_block _ _ _ _ _ _ Hseg). lia. }
  assert (Hcne : (zlen gs =? 0) = false).
  { apply Z.eqb_neq. destruct gs; [done|]. rewrite zlen_cons. pose proof (zlen_nonneg gs). lia. }
  rewrite Hfne, Hcne. cbn [orb].
  destruct (open_chain_ok st first gs ltac:(lia) Hc Hap) as (ls & Els & Hod). rewrite Els. cbn [mbind res_bind].
  destruct (opened_length _ _ _ Hod) as [El _]. rewrite El, Hcne. cbv zeta.
  assert (Hsrcs : Forall (source_at st) (sources gs)).
  { apply Forall_fmap. eapply Forall_impl; [exact Hgs|]. intros g Hg. apply (sc_source _ _ Hg). }
  destruct (merge_all_terms st (sources gs) Hsrcs _ _ (od_readers _ _ _ Hod) (od_cursors _ _ _ Hod))
    as (terms & rs & Em & Hrs & Hterms).
  rewrite Em. cbn [mbind res_bind].
  assert (Huse : sources_in_use (sources gs) st).
  { intros src b (g & -> & Hg)%list_elem_of_fmap Hb. pose proof (la_used _ _ Hap) as HF.
    rewrite Forall_forall in HF. apply (HF b), elem_of_concat. exists (chain_pages g).
    split; [|by apply list_elem_of_fmap_2]. apply elem_of_app. by left. }
  destruct (write_merged_segment_ok tp_compress_segments now (Z.of_nat level + 1) (ls_total_tokens ls)
    (sources gs) st rs terms Hwf ltac:(lia) Hsrcs Huse Hrs Hmb Hterms (chain_terms st gs terms Hgs Hne Hterms)
    (Hfits ls terms rs Els Em) Hnow) as (new & pages & bs & h & c & st1 & Ew & Hw & Hmg & Hl & Hn & Ht).
  { unfold TP_MAX_LEVELS in Hlv. lia. }
  { rewrite (od_tokens _ _ _ Hod). apply chain_tokens_range. }
  rewrite Ew. cbn [mbind res_bind].
  destruct (segment_block _ _ _ _ _ _ (sw_at _ _ _ _ _ _ _ Hw)) as [Hnewp Hnew].
  rewrite (proj2 (Z.eqb_neq _ _)) by lia.
  destruct (switch_and_free_ok level gs st st1 new pages bs h c ls Hwf Hw Hn Hap Hlv HP Hod)
    as (st2 & st' & E2 & E3 & Hwf' & Hseg' & Hm' & Hfsm & Hn' & Hkeep).
  rewrite E2. cbn [mbind res_bind]. rewrite E3. cbn [mbind res_bind].
  eexists new, st', pages, bs, _, c. split; [reflexivity|]. split; [done|].
  assert (Hin : forall b, b ∈ pages ++ bs -> b ∉ level_pages gs) by (intros b; by eapply new_pages_apart).
  split; try done.
  - by rewrite <- (od_tokens _ _ _ Hod), <- Ht.
  - intros b Hb. rewrite Hfsm, elem_of_app, elem_of_reverse.
    destruct (sw_pages _ _ _ _ _ _ _ Hw b Hb) as [Hnf _]. intros [Hg|]; [by apply (Hin b)|done].
  - intros b Hb. by eapply new_pages_range.
  - pose proof (sw_mono _ _ _ _ _ _ _ Hw). lia.
  - intros b Hb. rewrite Hfsm, elem_of_app, elem_of_reverse. by left.
  - intros b Hb Hnf Hng. pose proof (sw_keep _ _ _ _ _ _ _ Hw b) as Hk.
    split.
    + rewrite Hkeep; [apply Hk; [unfold in_relation; lia|done]|lia|].
      intros Hbp. assert (Hb2 : b ∈ pages ++ bs) by (apply elem_of_app; by left).
      destruct (sw_pages _ _ _ _ _ _ _ Hw b Hb2) as [_ [|]]; [done|lia].
    + rewrite Hfsm, elem_of_app, elem_of_reverse. intros [|Hf]; [done|].
      by apply Hnf, (sw_fsm _ _ _ _ _ _ _ Hw).
Qed.
End MergeProperties.
