(* ===== verification/Levels.v ===== *)
(** * The levels of an index

    [index_ok] is the invariant of the segments of an index: the metapage has, for
    every level, the head of a well formed chain and its length, and no page is used
    twice.  Merging a level keeps it and keeps what the index holds; compacting does
    so too, and leaves a level that is not full. *)
From S2P Require Import Prelude Postgres Fieldnorm SegmentFormat Compression Storage SegmentIO.
From S2P Require Import Docmap SegmentScan ScanFacts Memtable MemtableFacts SegmentWrite SegmentWriteFacts.
From S2P Require Import SegmentEmit SegmentLayout SegmentOpen SegmentContent SegmentDocs SegmentRoundtrip.
From S2P Require Import Metapage MetapageFacts Merge MergeWrite MergeReaders MergeTerms MergePostings.
From S2P Require Import MergeDocs MergeEmit MergePlan MergeSegment MergeLevel MergeProperties.

Section Levels.
Context `{PgLayoutLaws} `{FreeSpaceMapLaws} `{ItemPointerLaws} `{QSortLaws} `{HashSeqLaws}.
Abbreviation P := SEGMENT_DATA_PER_PAGE.
Abbreviation segments := (list (list chain_segment)).

Record index_ok (st : Storage) (segs : segments) : Prop := {
  io_wf : storage_wf st;
  io_levels : length segs = TP_MAX_LEVELS;
  io_chain : forall l gs, segs !! l = Some gs -> level_chain st (level_head (metapage_of st) l) gs;
  io_count : forall l gs, segs !! l = Some gs -> level_count (metapage_of st) l = zlen gs;
  io_apart : level_apart st (concat segs);
}.

(** What an index holds: documents, and for a term what its segments have for it. *)
Definition index_docs (segs : segments) : list segment_doc := concat ((fun g => sc_docs (cg_content g)) <$> concat segs).
Definition index_results (segs : segments) (t : list byte) : list (ItemPointerData * Z * Z) :=
  concat ((fun g => content_results (cg_content g) t) <$> concat segs).

Record same_index (segs segs' : segments) : Prop := {
  si_docs : index_docs segs' ≡ₚ index_docs segs;
  si_results : forall t, index_results segs' t ≡ₚ index_results segs t;
}.

Lemma same_index_refl segs : same_index segs segs.
Proof. by split. Qed.

Lemma same_index_trans s1 s2 s3 : same_index s1 s2 -> same_index s2 s3 -> same_index s1 s3.
Proof. intros [D1 R1] [D2 R2]. split; [by rewrite D2|]. intros t. by rewrite R2. Qed.

(** ** Chains on pages that are kept *)

Lemma segment_of_chain_same st st' g : pages_same st st' (chain_pages g) ->
  segment_of_chain st g -> segment_of_chain st' g.
Proof.
  intros Hp [Hseg Hsrc Hd]. pose proof (segment_at_same _ _ _ _ _ _ _ Hp Hseg) as Hseg'.
  split; [done| |done]. eapply source_at_kept; [|exact Hsrc].
  split; [apply (ps_wf _ _ _ Hp)|apply (sp_in _ _ _ _ _ (sa_pages _ _ _ _ _ _ Hseg'))|].
  intros b Hb. apply page_at_data, (ps_same _ _ _ Hp), elem_of_app. by left.
Qed.

Lemma level_chain_same st st' gs : pages_same st st' (level_pages gs) -> forall head,
  level_chain st head gs -> level_chain st' head gs.
Proof.
  induction gs as [|g gs IH]; intros Hp head Hc; [done|]. destruct Hc as (-> & Hg & Hc).
  destruct Hp as [Hwf Hm Hs]. csimpl in Hs. split; [done|]. split.
  - eapply segment_of_chain_same; [|exact Hg]. split; [done|done|].
    intros b Hb. apply Hs. cbn [concat]. apply elem_of_app. by left.
  - apply IH; [|done]. split; [done|done|]. intros b Hb. apply Hs. cbn [concat]. apply elem_of_app. by right.
Qed.

(** ** Replacing levels *)

Lemma concat_insert {A} (ls : list (list A)) l x y : ls !! l = Some x ->
  concat (<[l := y]> ls) ++ x ≡ₚ concat ls ++ y.
Proof.
  intros Hl. pose proof (lookup_lt_Some _ _ _ Hl). rewrite insert_take_drop by done.
  rewrite <- (take_drop_middle ls l x Hl) at 3. rewrite !concat_app. cbn [concat]. solve_Permutation.
Qed.

(** The segments of [level] become one of the next level. *)
Definition merged_levels (segs : segments) (level : nat) (g : chain_segment) : segments :=
  <[S level := g :: nth (S level) segs []]> (<[level := []]> segs).

Lemma merged_levels_concat segs level gs g : segs !! level = Some gs -> (S level < length segs)%nat ->
  concat (merged_levels segs level g) ++ gs ≡ₚ g :: concat segs.
Proof.
  intros Hl Hlt. destruct (lookup_lt_is_Some_2 segs (S level) Hlt) as [gs' Hl'].
  unfold merged_levels. rewrite (nth_lookup_Some _ _ [] _ Hl').
  assert (E1 : <[level := []]> segs !! S level = Some gs') by (rewrite list_lookup_insert_ne; [done|lia]).
  pose proof (concat_insert _ _ _ (g :: gs') E1) as P1. pose proof (concat_insert segs level gs [] Hl) as P2.
  rewrite app_nil_r in P2. apply (Permutation_app_inv_r gs'). rewrite <- !app_assoc.
  rewrite (Permutation_app_comm gs gs'), app_assoc, P1. rewrite <- P2. solve_Permutation.
Qed.

Lemma level_parts (segs : segments) level gs : segs !! level = Some gs -> gs ⊆+ concat segs.
Proof.
  intros Hl. rewrite <- (take_drop_middle segs level gs Hl), concat_app. cbn [concat].
  apply submseteq_inserts_l, submseteq_inserts_r. done.
Qed.

(** The pages of a level are among those of the index. *)
Lemma level_apart_sub st (gs gs' : list chain_segment) : gs ⊆+ gs' -> level_apart st gs' -> level_apart st gs.
Proof.
  intros [k Hk]%submseteq_Permutation [Hnd HF]. rewrite Hk, fmap_app, concat_app in Hnd, HF.
  apply NoDup_app in Hnd as [Hnd _]. apply Forall_app in HF as [HF _]. by split.
Qed.

(** What a step must find for a level to be merged. *)
Record mergeable_level (tp_compress_segments : bool) (now : Z) (level : nat) (segs : segments) (st : Storage)
    : Prop := {
  ml_level : (S level < TP_MAX_LEVELS)%nat;
  ml_mergeable : mergeable (sources (nth level segs []));
  ml_room : zlen (nth (S level) segs []) + 1 < 2 ^ 16;
  ml_fits : level_fits tp_compress_segments now level (nth level segs []) st;
}.

Lemma index_level_ready b now level segs st : index_ok st segs -> mergeable_level b now level segs st ->
  level_ready b now level (nth level segs []) st.
Proof.
  intros [Hwf Hlen Hc Hn Hap] [Hlv Hm _ Hf].
  destruct (lookup_lt_is_Some_2 segs level ltac:(lia)) as [gs Hgs].
  rewrite (nth_lookup_Some _ _ [] _ Hgs) in *. split; try done; [by apply Hc|by apply Hn|].
  eapply level_apart_sub; [|done]. by eapply level_parts.
Qed.

(** The merged segment has a term. *)
Lemma merged_some b now level gs st st' new pages bs h c : level_ready b now level gs st ->
  level_merged level gs st st' new pages bs h c -> exists t, t ∈ (sc_terms c).*1.
Proof.
  intros Hr Hlm. pose proof (chain_segments _ _ _ (lr_chain _ _ _ _ _ Hr)) as Hgs.
  destruct gs as [|g gs]; [by destruct (mb_some _ (lr_mergeable _ _ _ _ _ Hr))|].
  apply Forall_cons in Hgs as [[_ Hsrc Hd] _].
  destruct (so_dict (cg_source g)) as [|[t e] d] eqn:Ed; [done|]. exists t.
  apply (md_terms _ _ (lm_content _ _ _ _ _ _ _ _ _ Hlm)). exists (cg_content g).
  split; [left|]. rewrite <- (sat_terms _ _ Hsrc), Ed. left.
Qed.

(** The heads and counts after the switch. *)
Lemma switched_at m level new (l : nat) : metapage_ok m -> (S level < TP_MAX_LEVELS)%nat ->
  level_head (switched m level new) l =
    (if decide (l = S level) then new else if decide (l = level) then InvalidBlockNumber else level_head m l) /\
  level_count (switched m level new) l =
    (if decide (l = S level) then u16 (level_count m (S level) + 1)
     else if decide (l = level) then 0 else level_count m l).
Proof.
  intros (_ & Hh & Hc) Hlv. cbn [switched set_levels mp_level_heads mp_level_counts]. rewrite !nth_lookup.
  destruct (decide (l = S level)) as [->|N1].
  { rewrite !list_lookup_insert_eq by (rewrite ?length_insert; lia). by cbn. }
  rewrite !(list_lookup_insert_ne _ (S level)) by done. destruct (decide (l = level)) as [->|N2].
  { by rewrite !list_lookup_insert_eq by lia. }
  by rewrite !(list_lookup_insert_ne _ level) by done.
Qed.

Section Merged.
Context (b : bool) (now : Z) (level : nat) (segs : segments) (st st' : Storage) (g : chain_segment).
Abbreviation gs := (nth level segs []).
Context (Hix : index_ok st segs) (Hready : level_ready b now level gs st) (Hwf' : storage_wf st').
Context (Hlm : level_merged level gs st st' (cg_block g) (so_pages (cg_source g)) (cg_index g)
  (cg_header g) (cg_content g)) (Hg : segment_of_chain st' g) (HP : 120 <= P)
  (Hroom : zlen (nth (S level) segs []) + 1 < 2 ^ 16).

Lemma level_lookup l gs' : segs !! l = Some gs' -> nth l segs [] = gs'.
Proof. apply nth_lookup_Some. Qed.

(** The pages of the other segments are kept. *)
Lemma others_same rest : concat segs ≡ₚ gs ++ rest -> pages_same st st' (level_pages rest) /\
  Forall (fun x => x ∉ st_fsm st') (level_pages rest).
Proof.
  intros Hp. pose proof (io_apart _ _ Hix) as [Hnd HF]. rewrite Hp, fmap_app, concat_app in Hnd, HF.
  apply NoDup_app in Hnd as (_ & Hd & _). apply Forall_app in HF as [_ HF]. rewrite Forall_forall in HF.
  assert (Hk : forall x, x ∈ level_pages rest -> page_at st' x = page_at st x /\ x ∉ st_fsm st').
  { intros x Hx. destruct (HF x Hx). apply (lm_keep _ _ _ _ _ _ _ _ _ Hlm); [done..|].
    intros Hxg. by apply (Hd x Hxg). }
  split; [split; [done| |]|].
  - pose proof (pia_limit _ _ _ _ (sp_index _ _ _ _ _ (sa_pages _ _ _ _ _ _ (lm_segment _ _ _ _ _ _ _ _ _ Hlm)))).
    pose proof (lm_mono _ _ _ _ _ _ _ _ _ Hlm). lia.
  - intros x Hx. by apply Hk.
  - apply Forall_forall. intros x Hx. by apply Hk.
Qed.

Lemma merged_apart rest : concat segs ≡ₚ gs ++ rest -> level_apart st' (g :: rest).
Proof.
  intros Hp. destruct (others_same rest Hp) as [Hs Hf]. pose proof (io_apart _ _ Hix) as [Hnd HF].
  rewrite Hp, fmap_app, concat_app in Hnd, HF. apply NoDup_app in Hnd as (_ & _ & Hnd).
  apply Forall_app in HF as [_ HF]. pose proof (ps_mono _ _ _ Hs) as Hn. rewrite Forall_forall in HF, Hf.
  assert (Hnew : forall x, x ∈ chain_pages g -> 0 < x < nblocks st' /\ x ∉ st_fsm st' /\
    (x ∈ st_fsm st \/ nblocks st <= x)).
  { intros x Hx. destruct (lm_new _ _ _ _ _ _ _ _ _ Hlm x Hx). split; [done|]. split; [|done].
    by apply (lm_used _ _ _ _ _ _ _ _ _ Hlm). }
  split; csimpl; cbn [concat].
  - apply NoDup_app. split; [|split; [|done]].
    + destruct (sa_pages _ _ _ _ _ _ (sc_segment _ _ Hg)) as [_ Hx _ Hnd2 Hdis _].
      apply NoDup_app. split; [done|]. split; [done|apply (pia_nodup _ _ _ _ Hx)].
    + intros x Hx Hxr. destruct (Hnew x Hx) as (_ & _ & Hor), (HF x Hxr) as [Hr Hnf].
      destruct Hor; [done|lia].
  - apply Forall_app. split; apply Forall_forall; intros x Hx.
    + destruct (Hnew x Hx) as (? & ? & _). done.
    + destruct (HF x Hx). split; [lia|by apply Hf].
Qed.

Lemma merged_level_at l gs' : merged_levels segs level g !! l = Some gs' ->
  (l = S level /\ gs' = g :: nth (S level) segs []) \/ (l = level /\ gs' = []) \/
  (l <> S level /\ l <> level /\ segs !! l = Some gs').
Proof.
  pose proof (lr_level _ _ _ _ _ Hready) as Hlv. pose proof (io_levels _ _ Hix) as Hlen. unfold merged_levels.
  destruct (decide (l = S level)) as [->|N1].
  { rewrite list_lookup_insert_eq by (rewrite length_insert; lia). intros [= <-]. by left. }
  rewrite list_lookup_insert_ne by done. destruct (decide (l = level)) as [->|N2].
  { rewrite list_lookup_insert_eq by lia. intros [= <-]. right. by left. }
  rewrite list_lookup_insert_ne by done. intros Hl. right. by right.
Qed.

(** Another level is among the rest. *)
Lemma other_level_same l gs' : l <> level -> segs !! l = Some gs' -> pages_same st st' (level_pages gs').
Proof.
  intros Hne Hl. pose proof (lr_level _ _ _ _ _ Hready) as Hlv. pose proof (io_levels _ _ Hix) as Hlen.
  destruct (lookup_lt_is_Some_2 segs level ltac:(lia)) as [gs0 Hgs].
  pose proof (concat_insert segs level gs0 [] Hgs) as Hp. rewrite app_nil_r in Hp.
  destruct (others_same (concat (<[level := []]> segs))) as [[_ Hm Hs] _].
  { rewrite (level_lookup _ _ Hgs), <- Hp. apply Permutation_app_comm. }
  split; [done|done|]. intros x Hx. apply Hs.
  assert (Hsub : gs' ⊆+ concat (<[level := []]> segs)) by (apply (level_parts _ l); by rewrite list_lookup_insert_ne).
  apply elem_of_concat in Hx as (pl & Hx & (g' & -> & Hg')%list_elem_of_fmap).
  apply elem_of_concat. exists (chain_pages g'). split; [done|].
  apply list_elem_of_fmap_2. by eapply elem_of_submseteq.
Qed.

Lemma merged_index_ok : index_ok st' (merged_levels segs level g).
Proof.
  pose proof (lr_level _ _ _ _ _ Hready) as Hlv. pose proof (io_levels _ _ Hix) as Hlen.
  pose proof (metapage_of_ok st (io_wf _ _ Hix) HP) as Hm.
  pose proof (lm_metapage _ _ _ _ _ _ _ _ _ Hlm) as Em.
  destruct (lookup_lt_is_Some_2 segs (S level) ltac:(lia)) as [gs' Hgs'].
  destruct (lookup_lt_is_Some_2 segs level ltac:(lia)) as [gs0 Hgs].
  split; [done|by unfold merged_levels; rewrite !length_insert|..].
  - intros l gl Hl. rewrite Em. destruct (switched_at (metapage_of st) level (cg_block g) l Hm Hlv) as [-> _].
    destruct (merged_level_at l gl Hl) as [[-> ->]|[[-> ->]|(N1 & N2 & Hl')]].
    + rewrite decide_True by done. split; [done|]. split; [done|]. rewrite (lm_next _ _ _ _ _ _ _ _ _ Hlm).
      rewrite (level_lookup _ _ Hgs'). eapply level_chain_same; [eapply other_level_same; [|done]; lia|].
      by apply (io_chain _ _ Hix).
    + rewrite decide_False, decide_True by lia. done.
    + rewrite !decide_False by done. eapply level_chain_same; [by eapply other_level_same|].
      by apply (io_chain _ _ Hix).
  - intros l gl Hl. rewrite Em. destruct (switched_at (metapage_of st) level (cg_block g) l Hm Hlv) as [_ ->].
    destruct (merged_level_at l gl Hl) as [[-> ->]|[[-> ->]|(N1 & N2 & Hl')]].
    + rewrite decide_True, (io_count _ _ Hix _ _ Hgs') by done. rewrite (level_lookup _ _ Hgs') in *.
      rewrite zlen_cons. pose proof (zlen_nonneg gs'). rewrite wrap_small by lia. lia.
    + rewrite decide_False, decide_True by lia. done.
    + rewrite !decide_False by done. by apply (io_count _ _ Hix).
  - pose proof (concat_insert segs level gs0 [] Hgs) as Hp. rewrite app_nil_r in Hp.
    eapply level_apart_sub; [|apply (merged_apart (concat (<[level := []]> segs)))].
    + pose proof (merged_levels_concat segs level gs0 g Hgs ltac:(lia)) as Hq. rewrite <- Hp in Hq.
      apply Permutation_submseteq. apply (Permutation_app_inv_r gs0). rewrite Hq. done.
    + rewrite (level_lookup _ _ Hgs), <- Hp. apply Permutation_app_comm.
Qed.
End Merged.

Lemma merge_step_ok (tp_compress_segments : bool) (now : Z) (level : nat) (segs : segments) (st : Storage) :
  index_ok st segs -> mergeable_level tp_compress_segments now level segs st -> 120 <= P -> 0 <= now < 2 ^ 64 ->
  exists st' g, tp_merge_level_segments tp_compress_segments now level st = Ok (cg_block g, st') /\
    index_ok st' (merged_levels segs level g) /\
    merged_of (so_content <$> sources (nth level segs [])) (cg_content g) /\
    level_merged level (nth level segs []) st st' (cg_block g) (so_pages (cg_source g)) (cg_index g)
      (cg_header g) (cg_content g).
Proof.
  intros Hix Hml HP Hnow. pose proof (index_level_ready _ _ _ _ _ Hix Hml) as Hready.
  destruct (level_merge_ok _ _ _ _ _ Hready HP Hnow) as (new & st' & pages & bs & h & c & E & Hwf' & Hlm).
  destruct (segment_source _ _ _ _ _ _ (lm_segment _ _ _ _ _ _ _ _ _ Hlm)) as [dict Hsrc].
  set (g := mkChainSegment new bs (mkSource pages h c dict)).
  exists st', g. split; [exact E|]. split; [|split; [apply (lm_content _ _ _ _ _ _ _ _ _ Hlm)|exact Hlm]].
  assert (Hd : dict <> []).
  { assert (Ht : exists t, t ∈ (sc_terms c).*1) by by eapply merged_some. destruct Ht as [t Ht]. intros ->.
    pose proof (sat_terms _ _ Hsrc) as Et. cbn in Et. rewrite <- Et in Ht. by apply not_elem_of_nil in Ht. }
  assert (Hg : segment_of_chain st' g) by (split; [apply (lm_segment _ _ _ _ _ _ _ _ _ Hlm)|done|done]).
  apply (merged_index_ok tp_compress_segments now level segs st st' g); try done. apply (ml_room _ _ _ _ _ Hml).
Qed.

(** ** The index holds the same *)

Lemma concat_permutation {A} (ls ks : list (list A)) : ls ≡ₚ ks -> concat ls ≡ₚ concat ks.
Proof.
  induction 1 as [|l ls ks Hp IH|l k ls|ls ks js H1' IH1 H2' IH2]; cbn [concat]; [done|by rewrite IH| |by etrans].
  rewrite !app_assoc. apply Permutation_app_tail, Permutation_app_comm.
Qed.

Lemma merged_levels_holds {A} (f : chain_segment -> list A) segs level g : (S level < length segs)%nat ->
  f g ≡ₚ concat (f <$> nth level segs []) ->
  concat (f <$> concat (merged_levels segs level g)) ≡ₚ concat (f <$> concat segs).
Proof.
  intros Hlt Hf. destruct (lookup_lt_is_Some_2 segs level ltac:(lia)) as [gs Hgs].
  rewrite (nth_lookup_Some _ _ [] _ Hgs) in Hf.
  pose proof (merged_levels_concat segs level gs g Hgs Hlt) as Hp.
  apply (Permutation_map f), concat_permutation in Hp. change (map f) with (fmap (M:=list) f) in Hp. rewrite fmap_app, fmap_cons, concat_app in Hp.
  cbn [concat] in Hp. rewrite Hf in Hp. rewrite Permutation_app_comm in Hp. by apply Permutation_app_inv_l in Hp.
Qed.

Lemma merged_same_index segs level g : (S level < length segs)%nat ->
  merged_of (so_content <$> sources (nth level segs [])) (cg_content g) ->
  same_index segs (merged_levels segs level g).
Proof.
  intros Hlt [Hd Hr _ _]. split.
  - unfold index_docs. apply merged_levels_holds; [done|]. rewrite Hd. by rewrite <- !list_fmap_compose.
  - intros t. unfold index_results. apply merged_levels_holds; [done|]. rewrite Hr.
    by rewrite <- !list_fmap_compose.
Qed.

(** ** Compaction *)

Section Compaction.
Context (tp_compress_segments : bool) (tp_segments_per_level now : Z).
Context (HP : 120 <= P) (Hnow : 0 <= now < 2 ^ 64) (Hper : 2 <= tp_segments_per_level <= 64).

(** Every full level that the compaction reaches can be merged. *)
Fixpoint compactable (levels level : nat) (segs : segments) (st : Storage) : Prop :=
  match levels with
  | O => True
  | S levels' =>
      zlen (nth level segs []) < tp_segments_per_level \/
      mergeable_level tp_compress_segments now level segs st /\
      forall st' g, tp_merge_level_segments tp_compress_segments now level st = Ok (cg_block g, st') ->
        index_ok st' (merged_levels segs level g) -> same_index segs (merged_levels segs level g) ->
        compactable levels' (S level) (merged_levels segs level g) st'
  end.

(** Two metapages that may differ in the levels only. *)
Definition same_but_levels (m m' : TpIndexMetaPageData) : Prop := set_levels m' [] [] = set_levels m [] [].

(** The levels from [level] on were merged up to [k], where there is room. *)
Record compacted (level : nat) (segs segs' : segments) (k : nat) : Prop := {
  cp_from : (level <= k < TP_MAX_LEVELS)%nat;
  cp_empty : forall l, (level <= l < k)%nat -> segs' !! l = Some [];
  cp_room : S k = TP_MAX_LEVELS \/ zlen (nth k segs' []) < tp_segments_per_level;
  cp_below : forall l, (l < level)%nat -> segs' !! l = segs !! l;
}.

Lemma read_level_count st segs level : index_ok st segs -> (level < TP_MAX_LEVELS)%nat ->
  zread (mp_level_counts (metapage_of st)) (Z.of_nat level) = Ok (zlen (nth level segs [])).
Proof.
  intros Hix Hlv. pose proof (metapage_of_ok st (io_wf _ _ Hix) HP) as (_ & _ & Hc).
  destruct (lookup_lt_is_Some_2 (mp_level_counts (metapage_of st)) level ltac:(lia)) as [n Hn].
  destruct (lookup_lt_is_Some_2 segs level ltac:(rewrite (io_levels _ _ Hix); lia)) as [gs Hgs].
  unfold zread. rewrite zget_nat, Hn, (nth_lookup_Some _ _ [] _ Hgs), <- (io_count _ _ Hix _ _ Hgs).
  by rewrite (nth_lookup_Some _ _ 0 _ Hn).
Qed.

Lemma compact_levels_ok levels : forall level segs st, index_ok st segs ->
  (level + levels + 1 = TP_MAX_LEVELS)%nat -> compactable levels level segs st ->
  exists st' segs' k, compact_levels tp_compress_segments tp_segments_per_level now levels level st = Ok (tt, st') /\
    index_ok st' segs' /\ same_index segs segs' /\ compacted level segs segs' k /\
    same_but_levels (metapage_of st) (metapage_of st').
Proof.
  induction levels as [|levels IH]; intros level segs st Hix Hn Hc; cbn [compact_levels].
  { exists st, segs, level. split; [done|]. split; [done|]. split; [apply same_index_refl|].
    split; [|done]. split; [unfold TP_MAX_LEVELS in *; lia|lia|left; lia|done]. }
  unfold mbind, rst_bind at 1. rewrite (read_metapage_ok st (io_wf _ _ Hix)).
  unfold rst_bind at 1. unfold rst_lift. rewrite (read_level_count st segs) by (done || lia).
  rewrite (wrap_small 16) by lia.
  destruct (Z.ltb_spec (zlen (nth level segs [])) tp_segments_per_level) as [L|L].
  { exists st, segs, level. split; [done|]. split; [done|]. split; [apply same_index_refl|].
    split; [|done]. split; [lia|lia|by right|done]. }
  destruct Hc as [|[Hml Hc]]; [lia|].
  destruct (merge_step_ok _ _ _ _ _ Hix Hml HP Hnow) as (st1 & g & E & Hix1 & Hm & Hlm).
  unfold rst_bind. rewrite E.
  destruct (segment_block _ _ _ _ _ _ (lm_segment _ _ _ _ _ _ _ _ _ Hlm)) as [_ Hb].
  rewrite (proj2 (Z.eqb_neq _ _)) by lia.
  assert (Hlt : (S level < length segs)%nat) by (rewrite (io_levels _ _ Hix); lia).
  pose proof (merged_same_index segs level g Hlt Hm) as Hsame.
  destruct (IH (S level) _ st1 Hix1 ltac:(lia) (Hc st1 g E Hix1 Hsame)) as (st' & segs' & k & E' & Hix' & Hs' & [K1 K2 K3 K4] & K5).
  exists st', segs', k. split; [exact E'|]. split; [done|].
  split; [by eapply same_index_trans|].
  split; [|unfold same_but_levels in *; by rewrite K5, (lm_metapage _ _ _ _ _ _ _ _ _ Hlm)].
  split; [lia| |done|].
  - intros l Hl. destruct (decide (l = level)) as [->|]; [|apply K2; lia]. rewrite K4 by lia.
    unfold merged_levels. rewrite list_lookup_insert_ne by lia. by rewrite list_lookup_insert_eq by lia.
  - intros l Hl. rewrite K4 by lia. unfold merged_levels. by rewrite !list_lookup_insert_ne by lia.
Qed.
End Compaction.
End Levels.
