(* ===== verification/SpillFacts.v ===== *)
(** * Spilling the memtable

    What a spill does to the index, up to the compaction: the memtable becomes the
    first segment of level 0, with the content of its documents, the memtable is empty,
    and the other segments stay as they are. *)
From S2P Require Import Prelude Postgres Fieldnorm SegmentFormat Compression Storage SegmentIO.
From S2P Require Import Docmap SegmentScan ScanFacts Memtable MemtableFacts SegmentWrite SegmentWriteFacts.
From S2P Require Import SegmentEmit SegmentLayout SegmentOpen SegmentContent SegmentDocs SegmentRoundtrip.
From S2P Require Import Metapage MetapageFacts TenantPages Merge MergeWrite Lifecycle MergeReaders MergeTerms.
From S2P Require Import MergePostings MergeDocs MergeEmit MergePlan MergeSegment MergeLevel MergeProperties Levels.

Abbreviation metapage_only := (fun b : Z => b = TP_METAPAGE_BLKNO).

(** ** The metapage *)

Section Metapages.
Context `{PgLayoutLaws} `{FreeSpaceMapLaws} `{ItemPointerLaws} `{QSortLaws} `{HashSeqLaws}.
Abbreviation P := SEGMENT_DATA_PER_PAGE.
Abbreviation segments := (list (list chain_segment)).

Lemma set_totals_ok m docs len : metapage_ok m -> fits 8 docs -> fits 8 len -> metapage_ok (set_totals m docs len).
Proof.
  intros (Hf & Hh & Hc) Hd Hl. split; [|by split].
  destruct m as [a0 b0 c d e f g h i j k l hs cs o p q r]. cbn in Hh, Hc.
  do 8 (destruct hs as [|? hs]; [discriminate|]); destruct hs; [|discriminate].
  do 8 (destruct cs as [|? cs]; [discriminate|]); destruct cs; [|discriminate].
  match type of Hf with Forall2 _ _ ?fs =>
    change (Forall2 fits metapage_layout (<[6%nat := len]> (<[4%nat := docs]> fs))) end.
  rewrite <- (list_insert_id metapage_layout 6 8%nat eq_refl).
  rewrite <- (list_insert_id metapage_layout 4 8%nat eq_refl) at 1.
  by apply Forall2_insert; [apply Forall2_insert|].
Qed.

(** The metapage after a segment became the head of level 0. *)
Definition pushed (m : TpIndexMetaPageData) (segment_root docs len : Z) : TpIndexMetaPageData :=
  set_totals (set_levels m (<[0%nat := segment_root]> (mp_level_heads m))
    (<[0%nat := u16 (level_count m 0 + 1)]> (mp_level_counts m))) (u64 docs) (u64 len).

Lemma pushed_ok m b docs len : metapage_ok m -> fits 4 b -> metapage_ok (pushed m b docs len).
Proof.
  intros Hm Hb. destruct (metapage_levels m Hm) as [F1 F2]. pose proof Hm as (_ & Hh & Hc).
  apply set_totals_ok; [|apply (wrap_range 64); lia..]. apply set_levels_ok; [done|by rewrite !length_insert..| |].
  - by apply Forall_insert.
  - apply Forall_insert; [done|]. apply (wrap_range 16). lia.
Qed.

Lemma pushed_at m b docs len (l : nat) : metapage_ok m ->
  level_head (pushed m b docs len) l = (if decide (l = 0%nat) then b else level_head m l) /\
  level_count (pushed m b docs len) l = (if decide (l = 0%nat) then u16 (level_count m 0 + 1) else level_count m l).
Proof.
  intros (_ & Hh & Hc). cbn [pushed set_totals set_levels mp_level_heads mp_level_counts]. rewrite !nth_lookup.
  destruct (decide (l = 0%nat)) as [->|N].
  { by rewrite !list_lookup_insert_eq by (unfold TP_MAX_LEVELS in *; lia). }
  by rewrite !(list_lookup_insert_ne _ 0) by done.
Qed.

(** ** Pages that stay *)

Lemma replaced_grown st st' data : page_replaced st st' TP_METAPAGE_BLKNO data -> grown st st' metapage_only.
Proof. intros [Hwf Hn Hf _ Ho]. split; [done|lia|done|]. intros x [Hx _] Hne. by apply Ho. Qed.

Lemma write_metapage_grows st m : storage_wf st -> 120 <= P -> metapage_ok m ->
  exists st', write_metapage m st = Ok (tt, st') /\ metapage_of st' = m /\ grown st st' metapage_only /\
    nblocks st' = nblocks st.
Proof.
  intros Hwf HP Hm. destruct (write_metapage_ok st m Hwf HP Hm) as (st' & data & E & Em & Hr).
  exists st'. split; [done|]. split; [done|]. split; [by eapply replaced_grown|apply Hr].
Qed.

Lemma clear_docid_pages_grows st c : storage_wf st -> 120 <= P -> exists c' st',
  tp_clear_docid_pages c st = Ok (c', st') /\ dw_valid c' = false /\ grown st st' metapage_only /\
  nblocks st' = nblocks st /\ metapage_of st' = set_first_docid_page (metapage_of st) InvalidBlockNumber.
Proof.
  intros Hwf HP. pose proof (metapage_of_ok st Hwf HP) as Hm.
  destruct (write_metapage_grows st (set_first_docid_page (metapage_of st) InvalidBlockNumber) Hwf HP)
    as (st' & E & Em & Hg & Hn); [by apply set_first_docid_page_ok|].
  exists (tp_invalidate_docid_cache c), st'. split; [|done].
  unfold tp_clear_docid_pages, mbind, rst_bind. by rewrite (read_metapage_ok st Hwf), E.
Qed.

Lemma grown_same st st' bs : grown st st' metapage_only -> nblocks st' <= InvalidBlockNumber ->
  Forall (fun b => 0 < b < nblocks st) bs -> pages_same st st' bs.
Proof.
  intros [Hwf Hn _ Hk] Hl HF. rewrite Forall_forall in HF. split; [done|lia|]. intros b Hb.
  destruct (HF b Hb). apply Hk; [split; lia|unfold TP_METAPAGE_BLKNO; lia].
Qed.

Lemma level_apart_grown st st' gs : grown st st' metapage_only -> level_apart st gs -> level_apart st' gs.
Proof.
  intros [_ Hn Hf _] [Hnd HF]. split; [done|]. eapply Forall_impl; [exact HF|]. intros b [Hb Hnf]. rewrite Hf. split; [lia|done].
Qed.

Lemma level_page_used (st : Storage) (segs : segments) l gs : index_ok st segs -> segs !! l = Some gs ->
  Forall (fun b => 0 < b < nblocks st) (level_pages gs).
Proof.
  intros Hix Hl. pose proof (la_used _ _ (level_apart_sub _ _ _ (level_parts _ _ _ Hl) (io_apart _ _ Hix))) as HF.
  eapply Forall_impl; [exact HF|]. by intros b [? _].
Qed.

(** What happens to the metapage only, as far as the levels are the same. *)
Lemma index_ok_grown st st' segs : index_ok st segs -> grown st st' metapage_only ->
  nblocks st' <= InvalidBlockNumber ->
  mp_level_heads (metapage_of st') = mp_level_heads (metapage_of st) ->
  mp_level_counts (metapage_of st') = mp_level_counts (metapage_of st) -> index_ok st' segs.
Proof.
  intros Hix Hg Hl Eh Ec. pose proof Hix as [Hwf Hlen Hc Hn Hap].
  split; [apply (gr_wf _ _ _ Hg)|done|..]; rewrite ?Eh, ?Ec; [|done|by eapply level_apart_grown].
  intros l gs Hgs. eapply level_chain_same; [|by apply Hc].
  apply grown_same; [done..|]. by eapply level_page_used.
Qed.

(** ** A segment that is not linked yet *)

Record pending (st : Storage) (segs : segments) (g : chain_segment) : Prop := {
  pd_segment : segment_at st (cg_block g) (so_pages (cg_source g)) (cg_index g) (cg_header g) (cg_content g);
  pd_relink : relinkable st (so_pages (cg_source g)) (cg_header g) (cg_content g);
  pd_next : next_segment (cg_header g) = InvalidBlockNumber;
  pd_pages : forall b, b ∈ chain_pages g -> 0 < b < nblocks st /\ b ∉ st_fsm st /\ b ∉ level_pages (concat segs);
}.

Lemma pending_grown st st' segs g : pending st segs g -> grown st st' metapage_only ->
  nblocks st' <= InvalidBlockNumber -> pending st' segs g.
Proof.
  intros [Hs Hr Hn Hp] Hg Hl.
  assert (Hsame : pages_same st st' (chain_pages g)).
  { apply grown_same; [done..|]. apply Forall_forall. intros b Hb. by destruct (Hp b Hb). }
  split; [by eapply segment_at_same| |done|].
  - unfold relinkable. rewrite (stream_ext st st'); [done|].
    intros b Hb. apply page_at_data, (ps_same _ _ _ Hsame), elem_of_app. by left.
  - intros b Hb. destruct (Hp b Hb) as (Hb1 & Hb2 & Hb3). destruct Hg as [_ Hm Hf _]. rewrite Hf. split; [lia|done].
Qed.

(** A segment that was written while the index stayed as it was. *)
Lemma written_index_ok st st' segs block pages bs h c : index_ok st segs -> 120 <= P ->
  segment_written st st' block pages bs h c -> index_ok st' segs /\ metapage_of st' = metapage_of st.
Proof.
  intros Hix HP Hw. pose proof Hix as [Hwf Hlen Hc Hn Hap]. pose proof (swf_fsm _ Hwf) as HF.
  rewrite Forall_forall in HF. pose proof (swf_metapage _ Hwf).
  pose proof (sw_mono _ _ _ _ _ _ _ Hw) as Hmono. pose proof (sw_at _ _ _ _ _ _ _ Hw) as Hs.
  assert (Em : metapage_of st' = metapage_of st).
  { unfold metapage_of. f_equal. apply page_at_data, (sw_keep _ _ _ _ _ _ _ Hw); [split; lia|].
    intros Hf. specialize (HF 0 Hf). lia. }
  assert (Hsame : forall gs l, segs !! l = Some gs -> pages_same st st' (level_pages gs)).
  { intros gs l Hl. split; [apply (sp_wf _ _ _ _ _ (sa_pages _ _ _ _ _ _ Hs))| |].
    - pose proof (pia_limit _ _ _ _ (sp_index _ _ _ _ _ (sa_pages _ _ _ _ _ _ Hs))). lia.
    - intros b Hb. pose proof (la_used _ _ (level_apart_sub _ _ _ (level_parts _ _ _ Hl) Hap)) as HF2.
      rewrite Forall_forall in HF2. destruct (HF2 b Hb). apply (sw_keep _ _ _ _ _ _ _ Hw); [split; lia|done]. }
  split; [|done]. split; rewrite ?Em; [apply (sp_wf _ _ _ _ _ (sa_pages _ _ _ _ _ _ Hs))|done| |done|].
  - intros l gs Hl. eapply level_chain_same; [by eapply Hsame|by apply Hc].
  - destruct Hap as [Hnd HF2]. split; [done|]. eapply Forall_impl; [exact HF2|]. intros b [Hb Hf].
    split; [lia|]. intros Hf'. by apply Hf, (sw_fsm _ _ _ _ _ _ _ Hw).
Qed.

Lemma written_pending st st' segs block pages bs h c dict : index_ok st segs ->
  segment_written st st' block pages bs h c -> next_segment h = InvalidBlockNumber ->
  pending st' segs (mkChainSegment block bs (mkSource pages h c dict)).
Proof.
  intros Hix Hw Hn. pose proof (sw_at _ _ _ _ _ _ _ Hw) as Hs.
  split; [done|exact (sw_relink _ _ _ _ _ _ _ Hw)|done|].
  intros b Hb. destruct (sw_pages _ _ _ _ _ _ _ Hw b Hb) as [Hf _]. split; [|split; [done|]].
  - destruct (new_pages_range st st' st' block pages bs h h c b (io_wf _ _ Hix) Hw Hs Hb) as [? _]. done.
  - by eapply new_pages_apart; [..|exact Hb]; [done|apply (io_apart _ _ Hix)].
Qed.
End Metapages.

(** ** The head of level 0 *)

Definition pushed_levels (segs : list (list chain_segment)) (g : chain_segment) : list (list chain_segment) :=
  <[0%nat := g :: nth 0 segs []]> segs.

Section Push.
Context `{PgLayoutLaws} `{FreeSpaceMapLaws} `{ItemPointerLaws} `{QSortLaws} `{HashSeqLaws}.
Abbreviation P := SEGMENT_DATA_PER_PAGE.
Abbreviation segments := (list (list chain_segment)).

Lemma pushed_levels_concat (segs : segments) g : segs <> [] -> concat (pushed_levels segs g) ≡ₚ g :: concat segs.
Proof. by destruct segs. Qed.

(** A pending segment that is linked, apart from the metapage and from its own header. *)
Section Linked.
Context (st st' : Storage) (segs : segments) (g g' : chain_segment) (docs len : Z).
Context (Hix : index_ok st segs) (Hpd : pending st segs g) (HP : 120 <= P)
  (Hroom : zlen (nth 0 segs []) + 1 < 2 ^ 16)
  (Hg : segment_of_chain st' g') (Hblock : cg_block g' = cg_block g)
  (Hpages : chain_pages g' = chain_pages g)
  (Hnext : next_segment (cg_header g') = level_head (metapage_of st) 0)
  (Hn : nblocks st' = nblocks st) (Hf : st_fsm st' = st_fsm st)
  (Hm : metapage_of st' = pushed (metapage_of st) (cg_block g') docs len)
  (Hkeep : forall b, 0 < b -> b ∉ so_pages (cg_source g) -> page_at st' b = page_at st b).

Lemma linked_level_same l gs : segs !! l = Some gs -> pages_same st st' (level_pages gs).
Proof using Hix Hpd Hg Hn Hkeep.
  intros Hl. pose proof (sc_segment _ _ Hg) as Hs. pose proof (sa_pages _ _ _ _ _ _ Hs) as Hsp.
  split; [apply (sp_wf _ _ _ _ _ Hsp)| |].
  - pose proof (pia_limit _ _ _ _ (sp_index _ _ _ _ _ Hsp)). lia.
  - intros b Hb. pose proof (level_page_used _ _ _ _ Hix Hl) as HF. rewrite Forall_forall in HF.
    destruct (HF b Hb). apply Hkeep; [done|]. intros Hbg.
    destruct (pd_pages _ _ _ Hpd b) as (_ & _ & Hno); [apply elem_of_app; by left|]. apply Hno.
    apply elem_of_concat in Hb as (pl & Hb & (x & -> & Hx)%list_elem_of_fmap).
    apply elem_of_concat. exists (chain_pages x). split; [done|]. apply list_elem_of_fmap_2.
    eapply elem_of_submseteq; [exact Hx|by eapply level_parts].
Qed.

Lemma linked_index_ok : index_ok st' (pushed_levels segs g').
Proof.
  pose proof Hix as [Hwf Hlen Hc Hcn Hap]. pose proof (metapage_of_ok st Hwf HP) as Hmok.
  pose proof (sc_segment _ _ Hg) as Hs. pose proof (sa_pages _ _ _ _ _ _ Hs) as Hsp.
  destruct (lookup_lt_is_Some_2 segs 0 ltac:(unfold TP_MAX_LEVELS in *; lia)) as [gs0 Hgs0].
  pose proof (nth_lookup_Some _ _ [] _ Hgs0) as E0. unfold pushed_levels. rewrite E0 in *.
  assert (Hat : forall l gs, <[0%nat := g' :: gs0]> segs !! l = Some gs ->
    (l = 0%nat /\ gs = g' :: gs0) \/ (l <> 0%nat /\ segs !! l = Some gs)).
  { intros l gs. destruct (decide (l = 0%nat)) as [->|N].
    - rewrite list_lookup_insert_eq by (unfold TP_MAX_LEVELS in *; lia). intros [= <-]. by left.
    - rewrite list_lookup_insert_ne by done. by right. }
  split; [apply (sp_wf _ _ _ _ _ Hsp)|by rewrite length_insert|..].
  - intros l gs Hl. rewrite Hm. destruct (pushed_at (metapage_of st) (cg_block g') docs len l Hmok) as [-> _].
    destruct (Hat l gs Hl) as [[-> ->]|[N Hl']].
    + split; [done|]. split; [done|]. rewrite Hnext.
      eapply level_chain_same; [by eapply linked_level_same|by apply Hc].
    + rewrite decide_False by done. eapply level_chain_same; [by eapply linked_level_same|by apply Hc].
  - intros l gs Hl. rewrite Hm. destruct (pushed_at (metapage_of st) (cg_block g') docs len l Hmok) as [_ ->].
    destruct (Hat l gs Hl) as [[-> ->]|[N Hl']].
    + rewrite (Hcn _ _ Hgs0), zlen_cons, decide_True by done. pose proof (zlen_nonneg gs0).
      rewrite wrap_small by lia. lia.
    + rewrite decide_False by done. by apply Hcn.
  - assert (Hp : concat (<[0%nat := g' :: gs0]> segs) ≡ₚ g' :: concat segs).
    { destruct segs as [|gs segs']; [done|]. cbn in E0. by subst gs. }
    eapply level_apart_sub; [by apply Permutation_submseteq, Hp|]. destruct Hap as [Hnd HF].
    split; csimpl; cbn [concat]; rewrite Hpages.
    + apply NoDup_app. split; [|split; [|done]].
      * rewrite <- Hpages. destruct Hsp as [_ Hx _ Hnd2 Hdis _].
        apply NoDup_app. split; [done|]. split; [done|apply (pia_nodup _ _ _ _ Hx)].
      * intros b Hb. by destruct (pd_pages _ _ _ Hpd b Hb) as (_ & _ & ?).
    + apply Forall_app. split; [apply Forall_forall; intros b Hb|].
      * destruct (pd_pages _ _ _ Hpd b Hb) as (? & ? & _). rewrite Hn, Hf. done.
      * eapply Forall_impl; [exact HF|]. intros b [? ?]. by rewrite Hn, Hf.
Qed.
End Linked.

Lemma push_level0_ok st segs g docs len : index_ok st segs -> pending st segs g ->
  (exists t, t ∈ (sc_terms (cg_content g)).*1) -> zlen (nth 0 segs []) + 1 < 2 ^ 16 -> 120 <= P ->
  exists st' g', push_level0 (cg_block g) docs len st = Ok (mp_tenant_column_attno (metapage_of st), st') /\
    index_ok st' (pushed_levels segs g') /\ cg_block g' = cg_block g /\ cg_content g' = cg_content g /\
    metapage_of st' = pushed (metapage_of st) (cg_block g) docs len /\ nblocks st' = nblocks st.
Proof.
  intros Hix Hpd [t Ht] Hroom HP. pose proof (io_wf _ _ Hix) as Hwf. set (m := metapage_of st) in *.
  pose proof (metapage_of_ok st Hwf HP) as Hmok. fold m in Hmok. pose proof Hmok as (_ & Hlh & Hlc).
  destruct (metapage_levels m Hmok) as [F1 F2].
  destruct (lookup_lt_is_Some_2 (mp_level_heads m) 0 ltac:(unfold TP_MAX_LEVELS in *; lia)) as [head Hhead].
  destruct (lookup_lt_is_Some_2 (mp_level_counts m) 0 ltac:(unfold TP_MAX_LEVELS in *; lia)) as [count Hcount].
  destruct (segment_block _ _ _ _ _ _ (pd_segment _ _ _ Hpd)) as [Hbp Hbr].
  assert (Hbfit : fits 4 (cg_block g)) by (apply fits_u32; unfold InvalidBlockNumber in Hbr; lia).
  destruct (link_and_write_ok st (cg_block g) (so_pages (cg_source g)) (cg_index g) (cg_header g) (cg_content g)
    head (pushed m (cg_block g) docs len) (pd_segment _ _ _ Hpd) (pd_relink _ _ _ Hpd) (pd_next _ _ _ Hpd))
    as (st' & E & Hwf' & Hn & Hf & Em & Hs & Hk);
    [by apply (Forall_lookup_1 _ _ _ _ F1 Hhead)|by apply pushed_ok| |done|].
  { intros Hz. destruct (pd_pages _ _ _ Hpd 0 Hz). lia. }
  destruct (segment_source _ _ _ _ _ _ Hs) as [dict Hsrc].
  set (g' := mkChainSegment (cg_block g) (cg_index g) (mkSource (so_pages (cg_source g))
    (with_next_segment (cg_header g) head) (cg_content g) dict)).
  exists st', g'. split; [|split; [|done]].
  - unfold push_level0, mbind, rst_bind at 1. rewrite (read_metapage_ok st Hwf). fold m.
    unfold zread. change (zget (mp_level_heads m) 0) with (zget (mp_level_heads m) (Z.of_nat 0)).
    change (zget (mp_level_counts m) 0) with (zget (mp_level_counts m) (Z.of_nat 0)).
    rewrite !zget_nat, Hhead, Hcount. cbn [rst_lift rst_bind].
    unfold pushed in E. rewrite (nth_lookup_Some _ _ 0 _ Hcount) in E.
    unfold mbind, rst_bind in *.
    set (link := if head =? InvalidBlockNumber then _ else _) in *.
    destruct (link st) as [[[] st1]|]; [|done]. by rewrite E.
  - assert (Hd : dict <> []).
    { intros ->. pose proof (sat_terms _ _ Hsrc) as Et. cbn in Et. rewrite <- Et in Ht. by apply not_elem_of_nil in Ht. }
    apply (linked_index_ok st st' segs g g' docs len); try done.
    fold m. by rewrite (nth_lookup_Some _ _ 0 _ Hhead).
Qed.
End Push.

(** ** Writing the memtable *)

Section Spill.
Context `{PgLayoutLaws} `{FreeSpaceMapLaws} `{ItemPointerLaws} `{QSortLaws} `{HashSeqLaws}.
Context `{DsaAllocatorLaws}.
Abbreviation P := SEGMENT_DATA_PER_PAGE.
Abbreviation segments := (list (list chain_segment)).
Context (tp_compress_segments : bool) (now : Z) (HP : 120 <= P) (Hnow : 0 <= now < 2 ^ 64).

Lemma write_memtable_ok state frame docs st segs : holds state frame docs -> indexable docs ->
  (exists t, postings_of docs t <> []) -> index_ok st segs ->
  segment_fits tp_compress_segments now state docs st ->
  exists g st', tp_write_segment tp_compress_segments now state st = Ok (cg_block g, st') /\
    index_ok st' segs /\ metapage_of st' = metapage_of st /\ pending st' segs g /\
    cg_content g = memtable_content state docs /\ content_of docs (cg_content g).
Proof.
  intros Hh Hidx Hne Hix Hfits.
  destruct (tp_write_segment_ok tp_compress_segments now state frame docs st Hh Hidx Hne (io_wf _ _ Hix)
    ltac:(lia) Hnow Hfits)
    as (dm & terms & block & pages & bs & h & st' & Hdm & Hplan & Hin & Ew & Hw & Hn & Ec).
  destruct (written_index_ok _ _ _ _ _ _ _ _ Hix HP Hw) as [Hix' Em].
  exists (mkChainSegment block bs (mkSource pages h (memtable_content state docs) [])), st'.
  rewrite Ec. split; [done|]. split; [done|]. split; [done|].
  split; [by apply (written_pending st)|]. split; [done|]. by eapply written_content.
Qed.

(** Operations on a part of the index. *)
Lemma ensures_on_state {A} (m : rst TpLocalIndexState A) ix Q :
  ensures m (ix_state ix) (fun a st' => Q a (mkIndex st' (ix_storage ix) (ix_docid_cache ix))) ->
  ensures (on_state m) ix Q.
Proof.
  intros (a & st' & E & Hq). exists a, (mkIndex st' (ix_storage ix) (ix_docid_cache ix)). split; [|done].
  unfold on_state, mbind, res_bind. by rewrite E.
Qed.

Lemma ensures_on_storage {A} (m : rst Storage A) ix Q :
  ensures m (ix_storage ix) (fun a st' => Q a (mkIndex (ix_state ix) st' (ix_docid_cache ix))) ->
  ensures (on_storage m) ix Q.
Proof.
  intros (a & st' & E & Hq). exists a, (mkIndex (ix_state ix) st' (ix_docid_cache ix)). split; [|done].
  unfold on_storage, mbind, res_bind. by rewrite E.
Qed.

Lemma ensures_on_docids (m : TpDocidWriterState -> rst Storage TpDocidWriterState) ix Q :
  ensures (m (ix_docid_cache ix)) (ix_storage ix) (fun c st' => Q tt (mkIndex (ix_state ix) st' c)) ->
  ensures (on_docids m) ix Q.
Proof.
  intros (c & st' & E & Hq). exists tt, (mkIndex (ix_state ix) st' c). split; [|done].
  unfold on_docids, mbind, res_bind. by rewrite E.
Qed.

(** What a spill must find. *)
Record spill_fits (state : TpLocalIndexState) (docs : list document) (st : Storage) (segs : segments) : Prop := {
  sf_segment : segment_fits tp_compress_segments now state docs st;
  sf_level : zlen (nth 0 segs []) + 1 < 2 ^ 16;
  sf_tenants : stats_table_ok (default ∅ (tenant_stats (memtable state)));
  sf_room : forall block st', tp_write_segment tp_compress_segments now state st = Ok (block, st') ->
    nblocks st' + Z.of_nat (size (default ∅ (tenant_stats (memtable state)))) < InvalidBlockNumber;
}.

(** The index after a spill, before the compaction. *)
Record spilled (ix ix' : Index) (frame : dsa_area) (docs : list document) (segs : segments)
    (g : chain_segment) (clear_docids : bool) : Prop := {
  sp_index_ok : index_ok (ix_storage ix') (pushed_levels segs g);
  sp_content : cg_content g = memtable_content (ix_state ix) docs;
  sp_content_of : content_of docs (cg_content g);
  sp_memtable : holds (ix_state ix') frame [];
  sp_state : total_docs (ix_state ix') = total_docs (ix_state ix) /\
    total_len (ix_state ix') = total_len (ix_state ix) /\
    tenants_cleared (ix_state ix) (ix_state ix');
  sp_totals : mp_total_docs (metapage_of (ix_storage ix')) = u64 (total_docs (ix_state ix)) /\
    mp_total_len (metapage_of (ix_storage ix')) = u64 (total_len (ix_state ix));
  sp_docids : mp_first_docid_page (metapage_of (ix_storage ix')) =
    (if clear_docids then InvalidBlockNumber else mp_first_docid_page (metapage_of (ix_storage ix)));
  sp_magic : mp_magic (metapage_of (ix_storage ix')) = mp_magic (metapage_of (ix_storage ix)) /\
    mp_version (metapage_of (ix_storage ix')) = mp_version (metapage_of (ix_storage ix));
  sp_mode : is_build_mode (ix_state ix') = is_build_mode (ix_state ix);
  sp_cache : clear_docids = true -> dw_valid (ix_docid_cache ix') = false;
}.

Lemma clear_docids_step (clear_docids : bool) state st cache : storage_wf st ->
  ensures (if clear_docids then on_docids tp_clear_docid_pages else mret tt) (mkIndex state st cache) (fun _ ix' =>
    exists cache' st', ix' = mkIndex state st' cache' /\ grown st st' metapage_only /\ nblocks st' = nblocks st /\
      metapage_of st' = (if clear_docids then set_first_docid_page (metapage_of st) InvalidBlockNumber
                         else metapage_of st) /\
      (clear_docids = true -> dw_valid cache' = false)).
Proof.
  intros Hwf. destruct clear_docids.
  - destruct (clear_docid_pages_grows st cache Hwf HP) as (c' & st' & E & Hc & Hg & Hn & Em).
    apply ensures_on_docids. exists c', st'. split; [exact E|]. by exists c', st'.
  - apply ensures_ret. exists cache, st. split; [done|]. split; [by apply grown_refl|done].
Qed.

Lemma tenants_step (attno : Z) state st cache : storage_wf st -> nblocks st <= InvalidBlockNumber ->
  stats_table_ok (default ∅ (tenant_stats (memtable state))) ->
  nblocks st + Z.of_nat (size (default ∅ (tenant_stats (memtable state)))) < InvalidBlockNumber ->
  ensures (if attno =? 0 then mret tt else on_storage (tp_write_tenant_stats_pages state)) (mkIndex state st cache)
    (fun _ ix' => exists st', ix' = mkIndex state st' cache /\ grown st st' metapage_only /\
      nblocks st' <= InvalidBlockNumber /\ exists b, metapage_of st' = set_first_tenant_stats_page (metapage_of st) b).
Proof.
  intros Hwf Hl Htab Hroom. destruct (Z.eqb_spec attno 0) as [_|_].
  - apply ensures_ret. exists st. split; [done|]. split; [by apply grown_refl|]. split; [done|].
    exists (mp_first_tenant_stats_page (metapage_of st)). by destruct (metapage_of st).
  - apply ensures_on_storage. cbn [ix_state ix_storage ix_docid_cache].
    eapply ensures_mono; [by apply write_stats_grows|].
    intros [] st' (b & Hg & Hn & Em). exists st'. split; [done|]. split; [done|]. split; [lia|by exists b].
Qed.

(** Making the pending segment the head of level 0 and storing the tenants. *)
Lemma link_spilled_ok state st cache segs g docs : index_ok st segs -> pending st segs g ->
  content_of docs (cg_content g) -> (exists t, postings_of docs t <> []) -> zlen (nth 0 segs []) + 1 < 2 ^ 16 ->
  nblocks st + Z.of_nat (size (default ∅ (tenant_stats (memtable state)))) < InvalidBlockNumber ->
  stats_table_ok (default ∅ (tenant_stats (memtable state))) ->
  ensures (tenant_attno ← on_storage (push_level0 (cg_block g) (total_docs state) (total_len state));
           if tenant_attno =? 0 then mret tt else on_storage (tp_write_tenant_stats_pages state))
    (mkIndex state st cache) (fun _ ix' => exists st' g' b, ix' = mkIndex state st' cache /\
      index_ok st' (pushed_levels segs g') /\ cg_block g' = cg_block g /\ cg_content g' = cg_content g /\
      metapage_of st' = set_first_tenant_stats_page
        (pushed (metapage_of st) (cg_block g) (total_docs state) (total_len state)) b).
Proof.
  intros Hix Hpd Hco [t Ht] Hlv Hroom Htab. apply ensures_bind, ensures_on_storage.
  cbn [ix_state ix_storage ix_docid_cache].
  destruct (push_level0_ok st segs g (total_docs state) (total_len state) Hix Hpd)
    as (st3 & g' & E3 & Hix3 & Ebl & Econt & Em3 & Hn3); [|done|done|].
  { exists t. by apply (co_terms _ _ Hco). }
  exists (mp_tenant_column_attno (metapage_of st)), st3. split; [exact E3|].
  eapply ensures_mono; [apply tenants_step; [apply (io_wf _ _ Hix3)|lia|done|lia]|].
  intros [] ix' (st' & -> & Hg & Hn & b & Em). exists st', g', b. split; [done|].
  split; [|split; [done|split; [done|by rewrite Em, Em3]]].
  apply (index_ok_grown st3 st'); [done|done|lia|by rewrite Em..].
Qed.

Lemma spill_segment_ok clear_docids ix frame docs segs : holds (ix_state ix) frame docs ->
  mode_ok (ix_state ix) frame -> indexable docs -> (exists t, postings_of docs t <> []) ->
  index_ok (ix_storage ix) segs -> spill_fits (ix_state ix) docs (ix_storage ix) segs ->
  ensures (spill_segment tp_compress_segments now clear_docids) ix (fun block ix' =>
    block <> InvalidBlockNumber /\ exists g, spilled ix ix' frame docs segs g clear_docids /\ cg_block g = block).
Proof.
  destruct ix as [state st cache]. cbn [ix_state ix_storage]. intros Hh Hb Hidx Hne Hix [F1 F2 F3 F4].
  destruct (write_memtable_ok state frame docs st segs Hh Hidx Hne Hix F1)
    as (g & st1 & Ew & Hix1 & Em1 & Hpd & Hc & Hco).
  specialize (F4 _ _ Ew). pose proof (io_wf _ _ Hix1) as Hwf1.
  destruct (segment_block _ _ _ _ _ _ (pd_segment _ _ _ Hpd)) as [_ Hblock].
  unfold spill_segment. apply ensures_bind. exists (cg_block g), (mkIndex state st1 cache).
  split; [unfold write_memtable, mbind, res_bind; cbn [ix_state ix_storage]; by rewrite Ew|].
  rewrite (proj2 (Z.eqb_neq _ _)) by lia. apply ensures_bind, ensures_on_state. cbn [ix_state].
  eapply ensures_mono; [by apply (clear_memtable_ok state frame docs)|].
  intros [] state' (Hh' & Ets & Etd & Etl & Ebm). cbn [ix_storage ix_docid_cache].
  apply ensures_bind. eapply ensures_mono; [by apply clear_docids_step|].
  intros [] ix2 (cache' & st2 & -> & Hg2 & Hn2 & Em2 & Hcache). apply ensures_bind, ensures_gets. cbn [ix_state].
  assert (Hix2 : index_ok st2 segs).
  { apply (index_ok_grown st1); [done|done|lia|rewrite Em2; by destruct clear_docids..]. }
  pose proof (pending_grown st1 st2 segs g Hpd Hg2 ltac:(lia)) as Hpd2.
  pose proof (link_spilled_ok state' st2 cache' segs g docs Hix2 Hpd2 Hco Hne F2) as Hlink.
  assert (Hten : stats_table_ok (default ∅ (tenant_stats (memtable state'))) /\
    Z.of_nat (size (default ∅ (tenant_stats (memtable state')))) <=
    Z.of_nat (size (default ∅ (tenant_stats (memtable state))))).
  { unfold tenants_cleared in Ets. destruct (is_build_mode state); destruct Ets as [-> _]; [|done].
    split; [apply stats_table_empty|]. change (size (default ∅ None)) with (size (∅ : gmap Z TpTenantStatsEntry)).
    rewrite map_size_empty. lia. }
  destruct Hten as [Hten Hsize]. specialize (Hlink ltac:(lia) Hten).
  assert (Hpost : forall ix' : Index, (exists st' g' b, ix' = mkIndex state' st' cache' /\
      index_ok st' (pushed_levels segs g') /\ cg_block g' = cg_block g /\ cg_content g' = cg_content g /\
      metapage_of st' = set_first_tenant_stats_page
        (pushed (metapage_of st2) (cg_block g) (total_docs state') (total_len state')) b) ->
    cg_block g <> InvalidBlockNumber /\
    exists g', spilled (mkIndex state st cache) ix' frame docs segs g' clear_docids /\ cg_block g' = cg_block g).
  { intros ix' (st' & g' & b & -> & Hix' & Ebl & Econt & Em). split; [lia|]. exists g'. split; [|done].
    split; cbn [ix_state ix_storage]; rewrite ?Em, ?Econt; try done.
    - by rewrite <- Etd, <- Etl.
    - cbn [set_first_tenant_stats_page pushed set_totals set_levels mp_first_docid_page].
      rewrite Em2, <- Em1. by destruct clear_docids.
    - cbn [set_first_tenant_stats_page pushed set_totals set_levels mp_magic mp_version].
      rewrite Em2, <- Em1. by destruct clear_docids.
    }
  apply ensures_bind. apply ensures_bind_inv in Hlink. eapply ensures_mono; [exact Hlink|].
  intros attno ix3 Hq. apply ensures_bind. eapply ensures_mono; [exact Hq|].
  intros [] ix' Hix'. apply ensures_ret. by apply Hpost.
Qed.
End Spill.
