(* ===== verification/IndexDocs.v ===== *)
(** * The documents of an index

    [index_holds] is what the segments of an index promise: they are well formed and
    hold exactly the given documents, whatever segment and level each is in.  Spilling
    adds the documents of the memtable, merging and compacting change nothing, and a
    search of all the chains returns the postings of the documents. *)
From S2P Require Import Prelude Postgres Fieldnorm SegmentFormat Compression Storage SegmentIO.
From S2P Require Import Docmap SegmentScan ScanFacts Memtable MemtableFacts SegmentWrite SegmentWriteFacts.
From S2P Require Import SegmentEmit SegmentLayout SegmentOpen SegmentContent SegmentDocs SegmentRoundtrip.
From S2P Require Import Metapage MetapageFacts TenantPages Merge MergeWrite Lifecycle MergeReaders MergeTerms.
From S2P Require Import MergePostings MergeDocs MergeEmit MergePlan MergeSegment MergeLevel MergeProperties Levels.
From S2P Require Import SpillFacts.

(** ** Searching every chain *)

Section Search.
Context `{PgLayout} `{ItemPointerOps}.

(** The postings of a term in the segments from [block] on. *)
Fixpoint search_chain (fuel limit : nat) (st : Storage) (t : list byte) (block : Z) : res (list TpSegmentPosting) :=
  match fuel with
  | O => Err OUT_OF_FUEL
  | S fuel' =>
      if block =? InvalidBlockNumber then Ok []
      else
        r ← tp_segment_open_ex st block true;
        match r with
        | None => Ok []
        | Some reader =>
            '(found, _) ← @search TpSegmentReader (reader_access st) _ t limit reader;
            rest ← search_chain fuel' limit st t (next_segment (r_header reader));
            Ok (found.2 ++ rest)
        end
  end.

Fixpoint search_chains (limit : nat) (st : Storage) (t : list byte) (heads : list Z) : res (list TpSegmentPosting) :=
  match heads with
  | [] => Ok []
  | head :: heads' =>
      ps ← search_chain (S (S (Z.to_nat (nblocks st)))) limit st t head;
      rest ← search_chains limit st t heads';
      Ok (ps ++ rest)
  end.

Definition search_index (limit : nat) (st : Storage) (t : list byte) : res (list TpSegmentPosting) :=
  '(m, _) ← read_metapage st;
  search_chains limit st t (mp_level_heads m).
End Search.

Section IndexDocs.
Context `{PgLayoutLaws} `{FreeSpaceMapLaws} `{ItemPointerLaws} `{QSortLaws} `{HashSeqLaws}.
Abbreviation P := SEGMENT_DATA_PER_PAGE.
Abbreviation segments := (list (list chain_segment)).

Record index_holds (st : Storage) (segs : segments) (docs : list document) : Prop := {
  ih_ok : index_ok st segs;
  ih_docs : segment_row <$> index_docs segs ≡ₚ document_row <$> docs;
  ih_results : forall t, index_results segs t ≡ₚ expected_results docs t;
}.

Lemma expected_results_app docs1 docs2 t : expected_results (docs1 ++ docs2) t = expected_results docs1 t ++ expected_results docs2 t.
Proof. unfold expected_results. by rewrite bind_app. Qed.

(** The memtable of [docs] became a segment of level 0. *)
Lemma holds_pushed st st' segs docs new g : index_holds st segs docs -> index_ok st' (pushed_levels segs g) ->
  content_of new (cg_content g) -> index_holds st' (pushed_levels segs g) (new ++ docs).
Proof.
  intros [Hok Hd Hr] Hok' [Cd Cr _]. assert (Hne : segs <> []).
  { intros ->. pose proof (io_levels _ _ Hok) as E. discriminate. }
  split; [done| |].
  - unfold index_docs. destruct segs as [|gs segs]; [done|]. unfold pushed_levels. cbn [nth list_insert insert].
    change (<[0%nat:=g :: gs]> (gs :: segs)) with ((g :: gs) :: segs). cbn [concat]. rewrite <- app_comm_cons. csimpl.
    rewrite fmap_app, Cd, (fmap_app document_row), <- Hd. apply Permutation_app_head.
    unfold index_docs. cbn [concat]. by rewrite fmap_app.
  - intros t. unfold index_results. destruct segs as [|gs segs]; [done|]. unfold pushed_levels. cbn [nth].
    change (<[0%nat:=g :: gs]> (gs :: segs)) with ((g :: gs) :: segs). cbn [concat]. rewrite <- app_comm_cons. csimpl.
    rewrite Cr, expected_results_app, <- Hr. apply Permutation_app_head.
    unfold index_results. cbn [concat]. by rewrite fmap_app.
Qed.

(** The same documents in other segments. *)
Lemma holds_same st st' segs segs' docs : index_holds st segs docs -> same_index segs segs' ->
  index_ok st' segs' -> index_holds st' segs' docs.
Proof.
  intros [Hok Hd Hr] [Sd Sr] Hok'. split; [done|by rewrite Sd|]. intros t. by rewrite Sr.
Qed.

(** ** Merging *)

Record distinct_documents (docs : list document) : Prop := {
  dd_ctids : NoDup (doc_ctid <$> docs);
  dd_count : zlen docs <= 65535 * 128;
}.

Lemma all_docs_sources (gs : list chain_segment) :
  all_docs (cg_source <$> gs) = concat ((fun g => sc_docs (cg_content g)) <$> gs).
Proof. unfold all_docs. by rewrite <- list_fmap_compose. Qed.

Lemma holds_mergeable st segs docs level : index_holds st segs docs -> distinct_documents docs ->
  nth level segs [] <> [] -> mergeable (sources (nth level segs [])).
Proof.
  intros [Hok Hd _] [Hnd Hc] Hne.
  assert (Hl : segs !! level = Some (nth level segs [])).
  { destruct (segs !! level) as [gs|] eqn:E; [by rewrite (nth_lookup_Some _ _ [] _ E)|].
    destruct Hne. apply nth_overflow. by apply lookup_ge_None. }
  assert (Hsub : all_docs (sources (nth level segs [])) ⊆+ index_docs segs).
  { rewrite all_docs_sources. unfold index_docs. rewrite <- (take_drop_middle segs level _ Hl) at 2.
    rewrite concat_app. cbn [concat]. rewrite !fmap_app, !concat_app.
    apply submseteq_inserts_l, submseteq_inserts_r. done. }
  assert (Hrow : forall l, sd_ctid <$> l = (segment_row <$> l).*1) by (intros l; by rewrite <- list_fmap_compose).
  split.
  - by destruct (nth level segs []).
  - apply submseteq_Permutation in Hsub as [k Hk].
    assert (Hi : NoDup (sd_ctid <$> index_docs segs)).
    { rewrite Hrow, Hd, <- list_fmap_compose. exact Hnd. }
    rewrite Hk, fmap_app in Hi. by apply NoDup_app in Hi as [? _].
  - apply submseteq_length in Hsub. apply Permutation_length in Hd. rewrite !length_fmap in Hd. unfold zlen in *. lia.
Qed.

(** What the merge of a level needs besides. *)
Record merge_room (tp_compress_segments : bool) (now : Z) (level : nat) (segs : segments) (st : Storage) : Prop := {
  mr_level : (S level < TP_MAX_LEVELS)%nat;
  mr_count : zlen (nth (S level) segs []) + 1 < 2 ^ 16;
  mr_fits : level_fits tp_compress_segments now level (nth level segs []) st;
}.

Lemma holds_mergeable_level b now level segs st docs : index_holds st segs docs -> distinct_documents docs ->
  nth level segs [] <> [] -> merge_room b now level segs st -> mergeable_level b now level segs st.
Proof. intros Hih Hdd Hne [? ? ?]. split; try done. by eapply holds_mergeable. Qed.

(** ** Compacting *)

Section Compaction.
Context (tp_compress_segments : bool) (tp_segments_per_level now : Z).
Context (HP : 120 <= P) (Hnow : 0 <= now < 2 ^ 64) (Hper : 2 <= tp_segments_per_level <= 64).

(** There is room for every merge that the compaction comes to. *)
Fixpoint compaction_room (levels level : nat) (segs : segments) (st : Storage) : Prop :=
  match levels with
  | O => True
  | S levels' =>
      zlen (nth level segs []) < tp_segments_per_level \/
      merge_room tp_compress_segments now level segs st /\
      forall st' g, tp_merge_level_segments tp_compress_segments now level st = Ok (cg_block g, st') ->
        index_ok st' (merged_levels segs level g) -> same_index segs (merged_levels segs level g) ->
        compaction_room levels' (S level) (merged_levels segs level g) st'
  end.

Lemma room_compactable docs levels : distinct_documents docs -> forall level segs st, index_holds st segs docs ->
  compaction_room levels level segs st ->
  compactable tp_compress_segments tp_segments_per_level now levels level segs st.
Proof.
  intros Hdd. induction levels as [|levels IH]; intros level segs st Hih Hroom; cbn [compactable compaction_room] in *; [done|].
  destruct (Z.lt_ge_cases (zlen (nth level segs [])) tp_segments_per_level) as [L|L]; [by left|].
  destruct Hroom as [|[Hroom Hnext]]; [lia|]. right. split.
  - eapply holds_mergeable_level; try done. intros E. rewrite E in L. change (zlen []) with 0 in L. lia.
  - intros st' g E Hix' Hs. apply IH; [by eapply holds_same|by apply Hnext].
Qed.

Lemma tp_maybe_compact_level_ok docs (level : nat) segs st : index_holds st segs docs -> distinct_documents docs ->
  (level < TP_MAX_LEVELS)%nat -> compaction_room (TP_MAX_LEVELS - 1 - level) level segs st ->
  exists st' segs' k, tp_maybe_compact_level tp_compress_segments tp_segments_per_level now level st = Ok (tt, st') /\
    index_holds st' segs' docs /\ compacted tp_segments_per_level level segs segs' k /\
    same_but_levels (metapage_of st) (metapage_of st').
Proof.
  intros Hih Hdd Hl Hroom.
  destruct (compact_levels_ok tp_compress_segments tp_segments_per_level now HP Hnow Hper
    (TP_MAX_LEVELS - 1 - level) level segs st (ih_ok _ _ _ Hih)) as (st' & segs' & k & E & Hix' & Hs & Hk & Hm);
    [unfold TP_MAX_LEVELS in *; lia|by eapply room_compactable|].
  exists st', segs', k. split; [exact E|]. split; [by eapply holds_same|done].
Qed.
End Compaction.

(** ** Spilling *)

Section Spilling.
Context `{DsaAllocatorLaws}.
Context (tp_compress_segments : bool) (tp_segments_per_level now : Z).

(** What a spill must find: documents that can be in one index, and room. *)
Record spill_ready (clear_docids : bool) (ix : Index) (segs : segments) (new old : list document) : Prop := {
  sy_indexable : indexable new;
  sy_term : exists t, postings_of new t <> [];
  sy_distinct : distinct_documents (new ++ old);
  sy_fits : spill_fits tp_compress_segments now (ix_state ix) new (ix_storage ix) segs;
  sy_room : forall block ix' g, spill_segment tp_compress_segments now clear_docids ix = Ok (block, ix') ->
    index_ok (ix_storage ix') (pushed_levels segs g) -> cg_content g = memtable_content (ix_state ix) new ->
    compaction_room tp_compress_segments tp_segments_per_level now (TP_MAX_LEVELS - 1) 0
      (pushed_levels segs g) (ix_storage ix');
}.

(** What a spill leaves. *)
Record spill_done (clear_docids : bool) (ix ix' : Index) (frame : dsa_area) (segs' : segments)
    (docs : list document) : Prop := {
  sn_holds : index_holds (ix_storage ix') segs' docs;
  sn_memtable : holds (ix_state ix') frame [];
  sn_mode : is_build_mode (ix_state ix') = is_build_mode (ix_state ix);
  sn_tenants : tenants_cleared (ix_state ix) (ix_state ix');
  sn_totals : total_docs (ix_state ix') = total_docs (ix_state ix) /\ total_len (ix_state ix') = total_len (ix_state ix);
  sn_meta : let m := metapage_of (ix_storage ix) in let m' := metapage_of (ix_storage ix') in
    mp_magic m' = mp_magic m /\ mp_version m' = mp_version m /\
    mp_total_docs m' = u64 (total_docs (ix_state ix)) /\ mp_total_len m' = u64 (total_len (ix_state ix)) /\
    mp_first_docid_page m' = if clear_docids then InvalidBlockNumber else mp_first_docid_page m;
  sn_cache : clear_docids = true -> dw_valid (ix_docid_cache ix') = false;
}.

Lemma spill_ok clear_docids ix frame segs new old : holds (ix_state ix) frame new ->
  mode_ok (ix_state ix) frame -> index_holds (ix_storage ix) segs old ->
  spill_ready clear_docids ix segs new old ->
  2 <= tp_segments_per_level <= 64 -> 120 <= P -> 0 <= now < 2 ^ 64 ->
  ensures (spill tp_compress_segments tp_segments_per_level now clear_docids) ix (fun block ix' =>
    block <> InvalidBlockNumber /\ exists segs', spill_done clear_docids ix ix' frame segs' (new ++ old)).
Proof.
  intros Hh Hb Hih [Hidx Hne Hdd Hfits Hroom] Hper HP Hnow. unfold spill. apply ensures_bind.
  destruct (spill_segment_ok tp_compress_segments now HP Hnow clear_docids ix frame new segs Hh Hb Hidx Hne
    (ih_ok _ _ _ Hih) Hfits) as (block & ix1 & E1 & Hbl & g & [S1 S2 S3 S4 (S5 & S6 & S6') (S7 & S8) S9 (S10 & S11) S12 S13] & _).
  exists block, ix1. split; [exact E1|]. rewrite (proj2 (Z.eqb_neq _ _)) by done.
  pose proof (holds_pushed _ _ _ _ _ _ Hih S1 S3) as Hih1. apply ensures_bind, ensures_on_storage.
  destruct (tp_maybe_compact_level_ok tp_compress_segments tp_segments_per_level now HP Hnow Hper (new ++ old) 0
    (pushed_levels segs g) (ix_storage ix1) Hih1 Hdd) as (st' & segs' & k & E & Hih' & _ & Hm);
    [unfold TP_MAX_LEVELS; lia|by eapply Hroom|].
  exists tt, st'. split; [exact E|]. apply ensures_ret. split; [done|]. exists segs'.
  split; cbn [ix_storage ix_state ix_docid_cache]; try done.
  unfold same_but_levels in Hm. cbv zeta. rewrite <- S7, <- S8, <- S9, <- S10, <- S11.
  assert (Hf : forall {A} (f : TpIndexMetaPageData -> A), (forall m, f (set_levels m [] []) = f m) ->
    f (metapage_of st') = f (metapage_of (ix_storage ix1))).
  { intros A f Hf. rewrite <- (Hf (metapage_of st')), Hm. apply Hf. }
  split; [by apply (Hf _ mp_magic)|]. split; [by apply (Hf _ mp_version)|]. split; [by apply (Hf _ mp_total_docs)|].
  split; [by apply (Hf _ mp_total_len)|by apply (Hf _ mp_first_docid_page)].
Qed.
End Spilling.

(** ** Searching *)

Lemma search_chain_ok st limit t : 104 <= P -> forall gs fuel head, level_chain st head gs -> (length gs < fuel)%nat ->
  Forall (fun g => length (content_results (cg_content g) (c_str t)) < limit)%nat gs ->
  exists ps, search_chain fuel limit st t head = Ok ps /\
    result_triple <$> ps = concat ((fun g => content_results (cg_content g) (c_str t)) <$> gs).
Proof.
  intros HP gs. induction gs as [|g gs IH]; intros [|fuel] head Hc Hf Hl; simpl in Hf; try lia; cbn [search_chain].
  { cbn [level_chain] in Hc. rewrite Hc, Z.eqb_refl. by exists []. }
  destruct Hc as (-> & [Hseg Hsrc Hsome] & Hc). apply Forall_cons in Hl as [Hl1 Hl].
  destruct (segment_block _ _ _ _ _ _ Hseg) as [_ Hb]. rewrite (proj2 (Z.eqb_neq _ _)) by lia.
  destruct (open_segment_at _ _ _ _ _ _ true Hseg HP) as (r & Eo & Hrok & Hrh & Hrc). rewrite Eo.
  cbn [mbind res_bind]. unfold content_results in Hl1. rewrite !length_fmap in Hl1.
  destruct (search_segment_ok st _ _ _ _ _ r t limit Hseg Hrok Hrh Hrc) as ([found out] & r' & Es & _ & Eout).
  { unfold zlen. lia. }
  cbn [snd] in Eout. rewrite Es. cbn [mbind res_bind]. rewrite Hrh.
  destruct (IH fuel _ Hc ltac:(lia) Hl) as (ps & -> & Eps). cbn [mbind res_bind].
  eexists. split; [reflexivity|]. csimpl. cbn [concat snd]. by rewrite fmap_app, Eps, Eout.
Qed.

Lemma search_chains_ok st limit t heads : 104 <= P -> forall segs,
  (forall l gs, segs !! l = Some gs -> level_chain st (nth l heads 0) gs) -> length heads = length segs ->
  Forall (fun gs => length gs < S (S (Z.to_nat (nblocks st))))%nat segs ->
  Forall (fun g => length (content_results (cg_content g) (c_str t)) < limit)%nat (concat segs) ->
  exists ps, search_chains limit st t heads = Ok ps /\ result_triple <$> ps = index_results segs (c_str t).
Proof.
  intros HP. induction heads as [|head heads IH]; intros [|gs segs] Hc Hlen Hf Hl; try done; cbn [search_chains].
  { by exists []. }
  apply Forall_cons in Hf as [Hf1 Hf]. cbn [concat] in Hl. apply Forall_app in Hl as [Hl1 Hl].
  destruct (search_chain_ok st limit t HP gs _ head (Hc 0%nat gs eq_refl) Hf1 Hl1) as (ps & -> & Eps).
  cbn [mbind res_bind].
  destruct (IH segs) as (rest & -> & Erest); [intros l gs' E; by apply (Hc (S l))|by injection Hlen|done|done|].
  cbn [mbind res_bind]. eexists. split; [reflexivity|].
  rewrite fmap_app, Eps, Erest. unfold index_results. cbn [concat]. by rewrite fmap_app, concat_app.
Qed.

(** The chains are shorter than the relation. *)
Lemma index_chains_short st segs : index_ok st segs ->
  Forall (fun gs => length gs < S (S (Z.to_nat (nblocks st))))%nat segs.
Proof.
  intros Hix. apply Forall_lookup_2. intros l gs Hl.
  pose proof (level_apart_sub _ _ _ (level_parts _ _ _ Hl) (io_apart _ _ Hix)) as Ha.
  destruct (segment_chain_blocks st gs (chain_segments _ _ _ (io_chain _ _ Hix _ _ Hl)) Ha) as [Hnd HF].
  pose proof (length_nodup_blocks _ _ Hnd HF) as Hle. rewrite length_fmap in Hle. lia.
Qed.

Lemma index_results_bound segs t : Forall (fun g => length (content_results (cg_content g) t) <= length (index_results segs t))%nat
  (concat segs).
Proof.
  apply Forall_forall. intros g Hg. unfold index_results.
  apply list_elem_of_lookup in Hg as [i Hi]. rewrite <- (take_drop_middle _ _ _ Hi), fmap_app, concat_app.
  csimpl. cbn [concat]. rewrite !length_app. lia.
Qed.

Lemma search_index_ok st segs docs limit t : 120 <= P -> index_holds st segs docs ->
  (length (expected_results docs (c_str t)) < limit)%nat ->
  exists ps, search_index limit st t = Ok ps /\ result_triple <$> ps ≡ₚ expected_results docs (c_str t).
Proof.
  intros HP [Hix _ Hr] Hlim. unfold search_index. rewrite (read_metapage_ok st (io_wf _ _ Hix)). cbn [mbind res_bind].
  pose proof (metapage_of_ok st (io_wf _ _ Hix) HP) as (_ & Hlh & _).
  destruct (search_chains_ok st limit t (mp_level_heads (metapage_of st)) ltac:(lia) segs) as (ps & E & Eps).
  - apply (io_chain _ _ Hix).
  - by rewrite Hlh, (io_levels _ _ Hix).
  - by apply index_chains_short.
  - eapply Forall_impl; [apply (index_results_bound segs (c_str t))|]. intros g Hg. cbn in Hg.
    specialize (Hr (c_str t)). apply Permutation_length in Hr. lia.
  - exists ps. split; [done|]. by rewrite Eps, Hr.
Qed.
End IndexDocs.
