(* ===== verification/IndexProperties.v ===== *)
(** * What spilling, merging and compacting promise

    The contract of the segments of an index: a spill moves the documents of the
    memtable to them, merging and compacting change where the documents are and
    nothing else, and a search of all the chains finds every document of the index. *)
From S2P Require Import Prelude Postgres Fieldnorm SegmentFormat Compression Storage SegmentIO.
From S2P Require Import Docmap SegmentScan ScanFacts Memtable MemtableFacts SegmentWrite SegmentWriteFacts.
From S2P Require Import SegmentEmit SegmentLayout SegmentOpen SegmentContent SegmentDocs SegmentRoundtrip.
From S2P Require Import Metapage MetapageFacts TenantPages Merge MergeWrite Lifecycle MergeReaders MergeTerms.
From S2P Require Import MergePostings MergeDocs MergeEmit MergePlan MergeSegment MergeLevel MergeProperties Levels.
From S2P Require Import DocidEvents SpillFacts IndexDocs.

Section IndexProperties.
Context `{PgLayoutLaws} `{FreeSpaceMapLaws} `{ItemPointerLaws} `{QSortLaws} `{HashSeqLaws}.
Context `{DsaAllocatorLaws}.
Abbreviation segments := (list (list chain_segment)).

(** C23: merging a level keeps the index.  A level with segments becomes one segment
    at the head of the next level; the index holds the same documents and a search of
    every chain still finds exactly them; the pages of the merged segments are free
    again, every other page in use is as it was, and in the metapage only the levels
    changed. *)
Theorem merge_keeps_documents (tp_compress_segments : bool) (now : Z) (level : nat) (st : Storage)
    (segs : segments) (docs : list document) :
  index_holds st segs docs -> distinct_documents docs -> nth level segs [] <> [] ->
  merge_room tp_compress_segments now level segs st ->
  120 <= SEGMENT_DATA_PER_PAGE -> 0 <= now < 2 ^ 64 ->
  ensures (tp_merge_level_segments tp_compress_segments now level) st (fun new st' => exists g,
    new = cg_block g /\ SegmentFormat.level (cg_header g) = Z.of_nat level + 1 /\
    index_holds st' (merged_levels segs level g) docs /\
    (forall b, b ∈ level_pages (nth level segs []) -> b ∈ st_fsm st') /\
    (forall b, 0 < b < nblocks st -> b ∉ st_fsm st -> b ∉ level_pages (nth level segs []) ->
      page_at st' b = page_at st b /\ b ∉ st_fsm st') /\
    same_but_levels (metapage_of st) (metapage_of st') /\
    forall t limit, (length (expected_results docs (c_str t)) < limit)%nat ->
      exists ps, search_index limit st' t = Ok ps /\ result_triple <$> ps ≡ₚ expected_results docs (c_str t)).
Proof.
  intros Hih Hdd Hne Hroom HP Hnow.
  pose proof (holds_mergeable_level _ _ _ _ _ _ Hih Hdd Hne Hroom) as Hml.
  destruct (merge_step_ok _ _ _ _ _ (ih_ok _ _ _ Hih) Hml HP Hnow) as (st' & g & E & Hix' & Hm & Hlm).
  assert (Hih' : index_holds st' (merged_levels segs level g) docs).
  { eapply holds_same; [done| |done]. apply merged_same_index; [|done].
    rewrite (io_levels _ _ (ih_ok _ _ _ Hih)). apply (mr_level _ _ _ _ _ Hroom). }
  exists (cg_block g), st'. split; [done|]. exists g. split; [done|]. split; [apply (lm_level _ _ _ _ _ _ _ _ _ Hlm)|].
  split; [done|]. split; [apply (lm_freed _ _ _ _ _ _ _ _ _ Hlm)|]. split; [apply (lm_keep _ _ _ _ _ _ _ _ _ Hlm)|].
  split; [unfold same_but_levels; by rewrite (lm_metapage _ _ _ _ _ _ _ _ _ Hlm)|].
  intros t limit Hlim. by eapply search_index_ok.
Qed.

(** C24: compaction ends, and ends where there is room.  [tp_maybe_compact_level]
    returns after merging the full levels from [level] on: the levels it merged are
    empty, the one it stopped at is not full or the last, the levels below were not
    touched, and the index holds the same documents. *)
Theorem compaction_ends_with_room (tp_compress_segments : bool) (tp_segments_per_level now : Z) (level : nat)
    (st : Storage) (segs : segments) (docs : list document) :
  index_holds st segs docs -> distinct_documents docs -> (level < TP_MAX_LEVELS)%nat ->
  2 <= tp_segments_per_level <= 64 ->
  compaction_room tp_compress_segments tp_segments_per_level now (TP_MAX_LEVELS - 1 - level) level segs st ->
  120 <= SEGMENT_DATA_PER_PAGE -> 0 <= now < 2 ^ 64 ->
  ensures (tp_maybe_compact_level tp_compress_segments tp_segments_per_level now level) st (fun _ st' =>
    exists segs' k, index_holds st' segs' docs /\ (level <= k < TP_MAX_LEVELS)%nat /\
      (forall l, (level <= l < k)%nat -> level_count (metapage_of st') l = 0) /\
      (S k = TP_MAX_LEVELS \/ level_count (metapage_of st') k < tp_segments_per_level) /\
      (forall l, (l < level)%nat -> segs' !! l = segs !! l) /\
      same_but_levels (metapage_of st) (metapage_of st')).
Proof.
  intros Hih Hdd Hl Hper Hroom HP Hnow.
  destruct (tp_maybe_compact_level_ok tp_compress_segments tp_segments_per_level now HP Hnow Hper docs level segs st
    Hih Hdd Hl Hroom) as (st' & segs' & k & E & Hih' & [K1 K2 K3 K4] & Hm).
  pose proof (ih_ok _ _ _ Hih') as Hix'.
  exists tt, st'. split; [exact E|]. exists segs', k. split; [done|]. split; [done|]. split; [|split; [|done]].
  - intros l Hlk. by rewrite (io_count _ _ Hix' l [] (K2 l Hlk)).
  - destruct K3 as [K3|K3]; [by left|right].
    destruct (lookup_lt_is_Some_2 segs' k ltac:(rewrite (io_levels _ _ Hix'); lia)) as [gs Hgs].
    by rewrite (io_count _ _ Hix' k gs Hgs), <- (nth_lookup_Some _ _ [] _ Hgs).
Qed.

(** C26: a spill keeps every document.  Spilling a memtable with terms writes it as a
    segment of level 0 and compacts: the segments then hold the documents they held
    and those of the memtable, the memtable is empty, the document count and the
    total length are stored in the metapage, the docid chain is cut exactly when asked
    to, and a search of every chain finds all the documents. *)
Theorem spill_keeps_documents (tp_compress_segments : bool) (tp_segments_per_level now : Z)
    (clear_docids : bool) (ix : Index) (frame : dsa_area) (segs : segments) (new old : list document) :
  holds (ix_state ix) frame new -> mode_ok (ix_state ix) frame -> index_holds (ix_storage ix) segs old ->
  spill_ready tp_compress_segments tp_segments_per_level now clear_docids ix segs new old ->
  2 <= tp_segments_per_level <= 64 -> 120 <= SEGMENT_DATA_PER_PAGE -> 0 <= now < 2 ^ 64 ->
  ensures (spill tp_compress_segments tp_segments_per_level now clear_docids) ix (fun block ix' =>
    block <> InvalidBlockNumber /\
    (exists segs', spill_done clear_docids ix ix' frame segs' (new ++ old)) /\
    forall t limit, (length (expected_results (new ++ old) (c_str t)) < limit)%nat ->
      exists ps, search_index limit (ix_storage ix') t = Ok ps /\
        result_triple <$> ps ≡ₚ expected_results (new ++ old) (c_str t)).
Proof.
  intros Hh Hb Hih Hready Hper HP Hnow.
  eapply ensures_mono; [by apply (spill_ok tp_compress_segments tp_segments_per_level now clear_docids ix frame segs new old)|].
  intros block ix' (Hbl & segs' & Hd). split; [done|]. split; [by exists segs'|].
  intros t limit Hlim. eapply search_index_ok; [done|apply (sn_holds _ _ _ _ _ _ Hd)|done].
Qed.
End IndexProperties.

(** ** Witnesses: an index that is filled by two spills *)

Section Witnesses.
#[local] Existing Instances max_allocator max_allocator_laws first_fit first_fit_laws wide_layout wide_layout_laws.

Definition demo_more_documents : list document :=
  [mkDocument (mkItemPointer 0 9) [[x61]; [x7a]] [7; 1] 8 5; mkDocument (mkItemPointer 0 7) [[x7a]] [3] 3 0].
Definition demo_empty_index : Storage := mkStorage [tp_init_metapage 1 0] [] 0.
Definition no_segments : list (list chain_segment) := replicate TP_MAX_LEVELS [].

(** The storage after the documents are spilled. *)
Definition demo_index (docs : list document) (st : Storage) : Index := mkIndex (indexed_state docs) st initial_docid_cache.
Definition demo_spilled (docs : list document) (st : Storage) : Storage :=
  match spill_segment false 7 true (demo_index docs st) with Ok (_, ix) => ix_storage ix | Err _ => st end.
Definition demo_one : Storage := Eval vm_compute in demo_spilled demo_documents demo_empty_index.
Definition demo_two : Storage := Eval vm_compute in demo_spilled demo_more_documents demo_one.

Lemma demo_empty_holds : index_holds demo_empty_index no_segments [].
Proof.
  assert (Hn : forall l gs, no_segments !! l = Some gs -> (l < 8)%nat /\ gs = []).
  { intros l gs [-> Hl]%lookup_replicate_1. by split. }
  split; [|done|done]. split.
  - split; [forall_compute|constructor|constructor|by vm_compute].
  - done.
  - intros l gs Hl. destruct (Hn l gs Hl) as [Hlt ->]. do 8 (destruct l as [|l]; [by vm_compute|]). lia.
  - intros l gs Hl. destruct (Hn l gs Hl) as [Hlt ->]. do 8 (destruct l as [|l]; [by vm_compute|]). lia.
  - split; constructor.
Qed.

Lemma demo_more_corpus : corpus_bounded (demo_state false demo_frame) demo_more_documents.
Proof.
  split.
  { repeat (apply Forall_cons; split; [split; [reflexivity|repeat (constructor; [discriminate|]); constructor]|]).
    constructor. }
  split; [forall_compute|]. by vm_compute.
Qed.

Lemma demo_more_indexable : indexable demo_more_documents.
Proof.
  split.
  - vm_compute. repeat (apply NoDup_cons; split; [set_solver|]). apply NoDup_nil_2.
  - repeat (apply Forall_cons; split;
      [vm_compute; repeat (apply NoDup_cons; split; [set_solver|]); apply NoDup_nil_2|]).
    by apply Forall_nil.
  - by vm_compute.
  - forall_compute.
Qed.

Lemma demo_distinct : distinct_documents (demo_more_documents ++ demo_documents).
Proof.
  split; [|by vm_compute].
  vm_compute. repeat (apply NoDup_cons; split; [set_solver|]). apply NoDup_nil_2.
Qed.

(** [spill_fits], decided. *)
Definition stats_table_bool (table : gmap Z TpTenantStatsEntry) : bool :=
  forallb (fun p => (ts_tenant_id p.2 =? p.1) && (0 <=? ts_tenant_id p.2) && (ts_tenant_id p.2 <? 2 ^ 32) &&
    (0 <=? ts_doc_count p.2) && (ts_doc_count p.2 <? 2 ^ 32) &&
    (- 2 ^ 63 <=? ts_total_len p.2) && (ts_total_len p.2 <? 2 ^ 63)) (map_to_list table).

Definition state_fits_bool (state : TpLocalIndexState) (docs : list document) (st : Storage) : bool :=
  let table := default ∅ (tenant_stats (memtable state)) in
  segment_fits_bool false 7 state docs st && stats_table_bool table &&
  match tp_write_segment false 7 state st with
  | Ok (_, st') => nblocks st' + Z.of_nat (size table) <? InvalidBlockNumber
  | Err _ => true
  end.

Definition spill_fits_bool (docs : list document) (st : Storage) : bool := state_fits_bool (indexed_state docs) docs st.

Lemma stats_table_decided table : stats_table_bool table = true -> stats_table_ok table.
Proof.
  intros E2 tid e Hin%elem_of_map_to_list. unfold stats_table_bool in E2. rewrite forallb_forall in E2.
  specialize (E2 (tid, e) (proj1 (list_elem_of_In _ _) Hin)). cbn in E2. unfold stats_entry_ok. lia.
Qed.

Lemma state_fits_decided state docs st segs : state_fits_bool state docs st = true ->
  zlen (nth 0 segs []) + 1 < 2 ^ 16 -> spill_fits false 7 state docs st segs.
Proof.
  unfold state_fits_bool. intros [[E1 E2]%andb_true_iff E3]%andb_true_iff Hl. split; [|done| |].
  - by apply segment_fits_decided.
  - by apply stats_table_decided.
  - intros block st' E. rewrite E in E3. by apply Z.ltb_lt in E3.
Qed.

Lemma spill_fits_decided docs st segs : spill_fits_bool docs st = true -> zlen (nth 0 segs []) + 1 < 2 ^ 16 ->
  spill_fits false 7 (indexed_state docs) docs st segs.
Proof. apply state_fits_decided. Qed.

Lemma demo_page_room : 120 <= SEGMENT_DATA_PER_PAGE.
Proof. vm_compute. discriminate. Qed.

Lemma demo_now : 0 <= 7 < 2 ^ 64.
Proof. lia. Qed.

(** The index is running. *)
Lemma demo_mode docs : is_build_mode (indexed_state docs) = false -> mode_ok (indexed_state docs) demo_frame.
Proof. intros E E'. congruence. Qed.

(** The steps that filled the index. *)
Lemma demo_step docs st segs old st' : corpus_bounded (demo_state false demo_frame) docs -> indexable docs ->
  (exists t, postings_of docs t <> []) -> index_holds st segs old -> spill_fits_bool docs st = true ->
  zlen (nth 0 segs []) + 1 < 2 ^ 16 -> mode_ok (indexed_state docs) demo_frame ->
  demo_spilled docs st = st' ->
  exists g, index_holds st' (pushed_levels segs g) (docs ++ old) /\
    cg_content g = memtable_content (indexed_state docs) docs.
Proof.
  intros Hc Hidx Hne Hih Hf Hl Hb <-.
  destruct (spill_segment_ok false 7 demo_page_room demo_now true (demo_index docs st) demo_frame docs segs
    (indexed_state_holds docs Hc) Hb Hidx Hne (ih_ok _ _ _ Hih) (spill_fits_decided _ _ _ Hf Hl))
    as (block & ix' & E & _ & g & Hs & _).
  unfold demo_spilled. rewrite E. exists g. split; [|apply (sp_content _ _ _ _ _ _ _ Hs)].
  apply (holds_pushed st _ segs old docs g Hih); [apply (sp_index_ok _ _ _ _ _ _ _ Hs)|apply (sp_content_of _ _ _ _ _ _ _ Hs)].
Qed.

Lemma demo_first : exists g, index_holds demo_one (pushed_levels no_segments g) demo_documents /\
  cg_content g = memtable_content (indexed_state demo_documents) demo_documents.
Proof.
  destruct (demo_step demo_documents demo_empty_index no_segments [] demo_one (demo_corpus false demo_frame)
    demo_indexable) as (g & Hg & Hc).
  - exists [x61]. vm_compute. discriminate.
  - exact demo_empty_holds.
  - vm_compute. reflexivity.
  - done.
  - by apply demo_mode.
  - vm_compute. reflexivity.
  - exists g. split; [exact Hg|exact Hc].
Qed.

Lemma demo_second : exists g1 g2,
  index_holds demo_two (pushed_levels (pushed_levels no_segments g1) g2) (demo_more_documents ++ demo_documents) /\
  cg_content g1 = memtable_content (indexed_state demo_documents) demo_documents /\
  cg_content g2 = memtable_content (indexed_state demo_more_documents) demo_more_documents.
Proof.
  destruct demo_first as (g1 & H1 & C1).
  destruct (demo_step demo_more_documents demo_one (pushed_levels no_segments g1) demo_documents demo_two
    demo_more_corpus demo_more_indexable) as (g2 & H2 & C2).
  - exists [x61]. vm_compute. discriminate.
  - exact H1.
  - vm_compute. reflexivity.
  - vm_compute. reflexivity.
  - by apply demo_mode.
  - vm_compute. reflexivity.
  - exists g1, g2. split; [exact H2|split; [exact C1|exact C2]].
Qed.

(** The two segments can be merged. *)
Lemma demo_level_fits g1 g2 : cg_content g1 = memtable_content (indexed_state demo_documents) demo_documents ->
  cg_content g2 = memtable_content (indexed_state demo_more_documents) demo_more_documents ->
  level_fits false 9 0 [g2; g1] demo_two.
Proof.
  destruct g1 as [bl1 ix1 [p1 h1 c1 d1]], g2 as [bl2 ix2 [p2 h2 c2 d2]]. cbn [cg_source so_content]. intros -> ->.
  intros ls terms rs E1 E2. vm_compute in E1. injection E1 as <-. vm_compute in E2. injection E2 as <- <-.
  intros b Eb. vm_compute in Eb. injection Eb as <-. apply data_fits_decided. vm_compute. reflexivity.
Qed.

(** What is found in the end: the term [a] in the documents of both spills. *)
Abbreviation demo_documents_all := (demo_more_documents ++ demo_documents).
Definition demo_found (st : Storage) : Prop :=
  exists ps, search_index 9 st [x61] = Ok ps /\ result_triple <$> ps ≡ₚ expected_results demo_documents_all [x61].

Lemma merge_keeps_documents_witness :
  ensures (tp_merge_level_segments false 9 0) demo_two (fun _ st' => demo_found st') /\
  expected_results demo_documents_all [x61] =
    [(mkItemPointer 0 9, 7, 8); (mkItemPointer 0 1, 2, 3); (mkItemPointer 0 2, 4, 4)].
Proof.
  split; [|vm_compute; reflexivity].
  destruct demo_second as (g1 & g2 & Hih & C1 & C2). eapply ensures_mono.
  { apply (merge_keeps_documents false 9 0 demo_two (pushed_levels (pushed_levels no_segments g1) g2)
      demo_documents_all Hih demo_distinct).
    - discriminate.
    - split; [vm_compute; lia|vm_compute; reflexivity|exact (demo_level_fits g1 g2 C1 C2)].
    - exact demo_page_room.
    - vm_compute. split; [discriminate|reflexivity]. }
  intros new st' (g & _ & _ & _ & _ & _ & _ & Hs). apply (Hs [x61] 9%nat). vm_compute. lia.
Defined.

Lemma compaction_ends_with_room_witness :
  ensures (tp_maybe_compact_level false 2 9 0) demo_two (fun _ st' => exists k,
    (k < TP_MAX_LEVELS)%nat /\ (S k = TP_MAX_LEVELS \/ level_count (metapage_of st') k < 2)).
Proof.
  destruct demo_second as (g1 & g2 & Hih & C1 & C2). eapply ensures_mono.
  { apply (compaction_ends_with_room false 2 9 0 demo_two (pushed_levels (pushed_levels no_segments g1) g2)
      demo_documents_all Hih demo_distinct).
    - vm_compute. lia.
    - lia.
    - right. split; [split; [vm_compute; lia|vm_compute; reflexivity|exact (demo_level_fits g1 g2 C1 C2)]|].
      intros st' g _ _ _. left. vm_compute. reflexivity.
    - exact demo_page_room.
    - vm_compute. split; [discriminate|reflexivity]. }
  intros u st' (segs' & k & _ & (_ & Hk) & _ & Hr & _). exists k. split; [exact Hk|exact Hr].
Defined.

(** The second spill, which compacts. *)
Lemma demo_spilled_two g1 block ix' g : index_holds demo_one (pushed_levels no_segments g1) demo_documents ->
  cg_content g1 = memtable_content (indexed_state demo_documents) demo_documents ->
  spill_segment false 7 true (demo_index demo_more_documents demo_one) = Ok (block, ix') ->
  cg_content g = memtable_content (indexed_state demo_more_documents) demo_more_documents ->
  compaction_room false 2 7 (TP_MAX_LEVELS - 1) 0 (pushed_levels (pushed_levels no_segments g1) g) (ix_storage ix').
Proof.
  intros Hih C1 E C2. right. split; [split; [vm_compute; lia|vm_compute; reflexivity|]|].
  - vm_compute in E. injection E as <- <-.
    destruct g1 as [bl1 ix1 [p1 h1 c1 d1]], g as [bl2 ix2 [p2 h2 c2 d2]]. cbn [cg_source so_content] in *. subst c1 c2.
    intros ls terms rs E1 E2. vm_compute in E1. injection E1 as <-. vm_compute in E2. injection E2 as <- <-.
    intros b Eb. vm_compute in Eb. injection Eb as <-. apply data_fits_decided. vm_compute. reflexivity.
  - intros st' g' _ _ _. left. vm_compute. reflexivity.
Qed.

Lemma spill_keeps_documents_witness :
  ensures (spill false 2 7 true) (demo_index demo_more_documents demo_one) (fun _ ix' =>
    demo_found (ix_storage ix') /\ mp_total_docs (metapage_of (ix_storage ix')) = 2 /\
    holds (ix_state ix') demo_frame []).
Proof.
  destruct demo_first as (g1 & Hih & C1). eapply ensures_mono.
  { apply (spill_keeps_documents false 2 7 true (demo_index demo_more_documents demo_one) demo_frame
      (pushed_levels no_segments g1) demo_more_documents demo_documents
      (indexed_state_holds demo_more_documents demo_more_corpus)).
    - apply demo_mode. reflexivity.
    - exact Hih.
    - split.
      + exact demo_more_indexable.
      + exists [x61]. vm_compute. discriminate.
      + exact demo_distinct.
      + apply spill_fits_decided; vm_compute; reflexivity.
      + intros block ix' g E _ Hc. exact (demo_spilled_two g1 block ix' g Hih C1 E Hc).
    - lia.
    - exact demo_page_room.
    - exact demo_now. }
  intros block ix' (_ & (segs' & [_ Hm _ _ _ (_ & _ & Ht & _)]) & Hs). split; [|split].
  - apply (Hs [x61] 9%nat). vm_compute. lia.
  - etransitivity; [exact Ht|vm_compute; reflexivity].
  - exact Hm.
Defined.
End Witnesses.
