(* ===== verification/SortDocs.v ===== *)
(** * The selection of the best documents (query/score.c)

    The exhaustive scoring path accumulates scores in a hash table and extracts its
    best [k] entries with a partial quicksort over an array of pointers to them:
    [doc_score_greater], the insertion sort of small ranges, the partition around a
    median of three, and the loop that only descends into the ranges that reach
    the first [k] positions.  The array is a list, accesses outside it are errors. *)
From S2P Require Import Prelude Postgres Float4 SegmentFormat Storage SegmentIO SegmentScan.

(** An entry of the hash table: its key and its value. *)
Abbreviation doc := (ItemPointerData * DocumentScoreEntry)%type.

Section SortDocs.
Context `{ItemPointerOps}.

(** Higher score first, then lower CTID. *)
Definition doc_score_greater (a b : doc) : bool :=
  if negb (f4_eq (dse_score a.2) (dse_score b.2)) then f4_gt (dse_score a.2) (dse_score b.2)
  else ItemPointerCompare a.1 b.1 <? 0.

Definition array_set (arr : list doc) (i : Z) (x : doc) : res (list doc) :=
  if (0 <=? i) && (i <? zlen arr) then Ok (<[Z.to_nat i := x]> arr) else Err OUT_OF_BOUNDS_ACCESS.

Definition swap_doc_ptrs (arr : list doc) (i j : Z) : res (list doc) :=
  tmp ← zread arr i;
  y ← zread arr j;
  arr ← array_set arr i y;
  array_set arr j tmp.

(** [while (j >= 0 && DOC_SCORE_GREATER(key, arr[j]))]: [n] is [j + 1]. *)
Fixpoint shift_docs (base : Z) (key : doc) (n : nat) (arr : list doc) : res (nat * list doc) :=
  match n with
  | O => Ok (O, arr)
  | S j =>
      x ← zread arr (base + Z.of_nat j);
      if doc_score_greater key x then
        arr ← array_set arr (base + Z.of_nat j + 1) x;
        shift_docs base key j arr
      else Ok (n, arr)
  end.

(** The rounds [i], ..., [i + count - 1] of the insertion sort at [arr + base]. *)
Fixpoint insert_docs (base : Z) (count i : nat) (arr : list doc) : res (list doc) :=
  match count with
  | O => Ok arr
  | S count =>
      key ← zread arr (base + Z.of_nat i);
      '(n, arr) ← shift_docs base key i arr;
      arr ← array_set arr (base + Z.of_nat n) key;
      insert_docs base count (S i) arr
  end.

Definition insertion_sort_docs (arr : list doc) (base n : Z) : res (list doc) :=
  insert_docs base (Z.to_nat (n - 1)) 1 arr.

(** Swap [i] and [j] if the entry at [a] is greater than the one at [b]. *)
Definition order_docs (arr : list doc) (a b i j : Z) : res (list doc) :=
  x ← zread arr a;
  y ← zread arr b;
  if doc_score_greater x y then swap_doc_ptrs arr i j else Ok arr.

(** [for (i = left; i < right; i++)], [count] rounds from [i]. *)
Fixpoint partition_loop (pivot : doc) (count : nat) (i store_idx : Z) (arr : list doc) : res (Z * list doc) :=
  match count with
  | O => Ok (store_idx, arr)
  | S count =>
      x ← zread arr i;
      if doc_score_greater x pivot then
        arr ← swap_doc_ptrs arr store_idx i;
        partition_loop pivot count (i + 1) (store_idx + 1) arr
      else partition_loop pivot count (i + 1) store_idx arr
  end.

Definition partition_docs (arr : list doc) (left right : Z) : res (Z * list doc) :=
  let mid := left + Z.quot (right - left) 2 in
  arr ← order_docs arr mid left left mid;
  arr ← order_docs arr right left left right;
  arr ← order_docs arr mid right mid right;
  pivot ← zread arr right;
  '(store_idx, arr) ← partition_loop pivot (Z.to_nat (right - left)) left left arr;
  arr ← swap_doc_ptrs arr store_idx right;
  mret (store_idx, arr).

(** The loop and its recursive call; every round shortens the range. *)
Fixpoint partial_quicksort_loop (fuel : nat) (arr : list doc) (left right k : Z) : res (list doc) :=
  match fuel with
  | O => Err OUT_OF_FUEL
  | S fuel =>
      if left <? right then
        if right - left <? 16 then insertion_sort_docs arr left (right - left + 1)
        else
          '(pivot_idx, arr) ← partition_docs arr left right;
          if k <=? pivot_idx then partial_quicksort_loop fuel arr left (pivot_idx - 1) k
          else
            arr ← (if left <? pivot_idx then partial_quicksort_loop fuel arr left (pivot_idx - 1) k
                   else Ok arr);
            partial_quicksort_loop fuel arr (pivot_idx + 1) right k
      else Ok arr
  end.

Definition partial_quicksort_docs (arr : list doc) (left right k : Z) : res (list doc) :=
  partial_quicksort_loop (S (Z.to_nat (right - left + 1))) arr left right k.

Definition sort_top_k_docs (arr : list doc) (n k : Z) : res (list doc) :=
  if (n <=? 1) || (k <=? 0) then Ok arr
  else partial_quicksort_docs arr 0 (n - 1) (if n <=? k then n else k).

(** The first [actual_count] entries, in order. *)
Definition tp_extract_and_sort_documents `{HashSeq} (doc_scores_hash : gmap ItemPointerData DocumentScoreEntry)
    (max_results : Z) : res (list doc) :=
  let all_docs := hash_seq doc_scores_hash in
  let total_count := zlen all_docs in
  if total_count =? 0 then Ok []
  else
    let result_count := if total_count <? max_results then total_count else max_results in
    sorted ← sort_top_k_docs all_docs total_count result_count;
    mret (take (Z.to_nat result_count) sorted).

(** [scored_count] results and [additional_count] CTIDs of score zero, written to
    the output arrays. *)
Definition tp_copy_results_to_output (sorted_docs : list doc) (additional_ctids : list ItemPointerData)
    : list (ItemPointerData * float4) :=
  ((fun d => (d.1, dse_score d.2)) <$> sorted_docs) ++ ((fun c => (c, f4_of_Z 0)) <$> additional_ctids).
End SortDocs.
