(* ===== verification/SortFacts.v ===== *)
(** * The partial quicksort of query/score.c selects the best documents

    On entries without NaN scores the array ends with its best [k] entries in front,
    in order, whatever the order it started in; hence what the exhaustive path
    extracts does not depend on the order of the hash table's scan. *)
From S2P Require Import Prelude Postgres Float4 SegmentFormat Storage SegmentIO SegmentScan SortDocs.

Section Sorting.
Context `{ItemPointerLaws}.

(** ** The order *)

Definition ranked (d : doc) : Prop := is_nan (dse_score d.2) = false.

(** [b] is not better than [a]. *)
Definition before (a b : doc) : Prop := doc_score_greater b a = false.

Lemma f4_eq_not_lt a b : f4_eq a b = true -> f4_lt a b = false /\ f4_lt b a = false.
Proof.
  unfold f4_eq, f4_lt, SpecFloat.SFeqb, SpecFloat.SFltb.
  destruct a as [sa|[]| |[] ma ea], b as [sb|[]| |[] mb eb]; try done; cbn;
    destruct (Z.compare_spec ea eb), (Z.compare_spec eb ea); try lia; try done;
    change (Pos.compare_cont Eq ma mb) with (Pos.compare ma mb);
    change (Pos.compare_cont Eq mb ma) with (Pos.compare mb ma);
    rewrite (Pos.compare_antisym ma mb); destruct (Pos.compare ma mb); done.
Qed.

Lemma greater_iff a b : ranked a -> ranked b ->
  doc_score_greater a b = true <->
    rank_lt (rank (dse_score b.2)) (rank (dse_score a.2)) \/
    (~ rank_lt (rank (dse_score a.2)) (rank (dse_score b.2)) /\ ip_lt a.1 b.1).
Proof.
  intros Ha Hb. unfold doc_score_greater, f4_gt. rewrite <- !f4_lt_rank by done.
  destruct (f4_eq (dse_score a.2) (dse_score b.2)) eqn:E; cbn [negb].
  - destruct (f4_eq_not_lt _ _ E) as [-> ->]. rewrite Z.ltb_lt, ItemPointerCompare_lt.
    split; [right; split; [done|done]|intros [?|[_ ?]]; done].
  - split; [by left|]. intros [?|[Hn _]]; [done|].
    destruct (f4_lt (dse_score b.2) (dse_score a.2)) eqn:E2; [done|].
    destruct (f4_lt (dse_score a.2) (dse_score b.2)) eqn:E1; [done|].
    by rewrite (f4_lt_total _ _ Ha Hb E1 E2) in E.
Qed.

Lemma before_iff a b : ranked a -> ranked b ->
  before a b <-> ~ rank_lt (rank (dse_score a.2)) (rank (dse_score b.2)) /\
    (rank_lt (rank (dse_score b.2)) (rank (dse_score a.2)) \/ ~ ip_lt b.1 a.1).
Proof.
  intros Ha Hb. unfold before. rewrite <- not_true_iff_false, greater_iff by done.
  unfold rank_lt, ip_lt. lia.
Qed.

Lemma before_trans a b c : ranked a -> ranked b -> ranked c -> before a b -> before b c -> before a c.
Proof.
  intros Ha Hb Hc. rewrite !before_iff by done. unfold rank_lt, ip_lt. lia.
Qed.

Lemma greater_before a b : ranked a -> ranked b -> doc_score_greater a b = true -> before a b.
Proof.
  intros Ha Hb. rewrite greater_iff, before_iff by done. unfold rank_lt, ip_lt. lia.
Qed.

Lemma before_antisym a b : ranked a -> ranked b -> before a b -> before b a -> a.1 = b.1.
Proof.
  intros Ha Hb. rewrite !before_iff by done. intros [H1 H2] [H3 H4].
  destruct (ip_lt_total a.1 b.1) as [?|[?|?]]; [|done|]; tauto.
Qed.

(** ** Array accesses in a split list *)

Lemma zread_at (a b : list doc) x i : i = zlen a -> zread (a ++ x :: b) i = Ok x.
Proof. intros ->. unfold zread, zlen. by rewrite zget_nat, list_lookup_middle. Qed.

Lemma array_set_at (a b : list doc) x y i : i = zlen a -> array_set (a ++ x :: b) i y = Ok (a ++ y :: b).
Proof.
  intros ->. unfold array_set. rewrite zlen_app, zlen_cons. pose proof (zlen_nonneg a). pose proof (zlen_nonneg b).
  destruct (_ && _) eqn:E; [|lia]. unfold zlen. rewrite Nat2Z.id.
  by rewrite insert_app_r_alt, Nat.sub_diag.
Qed.

Lemma swap_at (a m b : list doc) x y i j : i = zlen a -> j = zlen a + 1 + zlen m ->
  swap_doc_ptrs (a ++ x :: m ++ y :: b) i j = Ok (a ++ y :: m ++ x :: b).
Proof.
  intros -> ->. unfold swap_doc_ptrs. rewrite (zread_at a (m ++ y :: b) x (zlen a)) by done. cbn [mbind res_bind].
  assert (E : forall z, a ++ z :: m ++ y :: b = (a ++ z :: m) ++ y :: b) by (intros; by rewrite <- app_assoc).
  rewrite E, (zread_at (a ++ x :: m) b y), <- E by (rewrite zlen_app, zlen_cons; lia). cbn [mbind res_bind].
  rewrite (array_set_at a (m ++ y :: b)) by done. cbn [mbind res_bind].
  rewrite E, array_set_at by (rewrite zlen_app, zlen_cons; lia). by rewrite <- app_assoc.
Qed.

Lemma swap_same (a b : list doc) x i : i = zlen a -> swap_doc_ptrs (a ++ x :: b) i i = Ok (a ++ x :: b).
Proof.
  intros ->. unfold swap_doc_ptrs. rewrite zread_at by done. cbn [mbind res_bind].
  rewrite array_set_at by done. cbn [mbind res_bind]. by rewrite array_set_at.
Qed.

(** ** Insertion sort *)

Lemma shift_docs_spec base key n (pre A : list doc) h post : base = zlen pre -> n = length A ->
  exists A1 h' A2, A = A1 ++ A2 /\ Forall (fun x => doc_score_greater key x = true) A2 /\
    (forall x, last A1 = Some x -> doc_score_greater key x = false) /\
    shift_docs base key n (pre ++ A ++ h :: post) = Ok (length A1, pre ++ A1 ++ h' :: A2 ++ post).
Proof.
  intros -> ->. revert h post. induction A as [|x A IH] using rev_ind; intros h post.
  - exists [], h, []. repeat split; [constructor|done].
  - rewrite length_app, Nat.add_1_r. cbn [shift_docs].
    rewrite <- app_assoc. cbn [app]. rewrite app_assoc.
    rewrite zread_at by (rewrite zlen_app; unfold zlen; lia). cbn [mbind res_bind].
    destruct (doc_score_greater key x) eqn:Eg.
    + change (x :: h :: post) with ([x] ++ h :: post). rewrite (app_assoc _ [x]).
      rewrite array_set_at by (rewrite !zlen_app; unfold zlen; cbn; lia). cbn [mbind res_bind].
      rewrite <- !app_assoc. cbn [app].
      destruct (IH x (x :: post)) as (A1 & h' & A2 & -> & HF & Hl & ->).
      exists A1, h', (A2 ++ [x]). rewrite <- !app_assoc. split; [done|].
      split; [by apply Forall_app; split; [|constructor]|]. by split.
    + exists (A ++ [x]), h, []. rewrite app_nil_r. split; [done|]. split; [constructor|]. split.
      * intros y. rewrite last_snoc. by intros [= ->].
      * rewrite length_app, Nat.add_1_r, <- !app_assoc. done.
Qed.

Lemma sorted_insert A1 key A2 : Forall ranked (A1 ++ key :: A2) -> StronglySorted before (A1 ++ A2) ->
  Forall (fun x => doc_score_greater key x = true) A2 ->
  (forall x, last A1 = Some x -> doc_score_greater key x = false) ->
  StronglySorted before (A1 ++ key :: A2).
Proof.
  intros HF Hs HA2 Hl. apply Forall_app in HF as [HF1 HF2]. apply Forall_cons in HF2 as [Hk HF2].
  apply StronglySorted_app in Hs as (H12 & H1 & H2). apply StronglySorted_app. split; [|split; [done|]].
  - intros x y Hx Hy.
    assert (Hxk : before x key).
    { destruct A1 as [|z A1 _] using rev_ind; [by apply not_elem_of_nil in Hx|].
      assert (Hz : before z key) by (apply Hl; by rewrite last_snoc).
      apply elem_of_app in Hx as [Hx|Hx%list_elem_of_singleton]; [|by subst].
      apply StronglySorted_app in H1 as (H1 & _ & _). rewrite Forall_forall in HF1.
      apply (before_trans x z key); [apply HF1; set_solver..|done| |done]. apply H1; set_solver. }
    apply elem_of_cons in Hy as [->|Hy]; [done|]. by apply H12.
  - constructor; [done|]. rewrite Forall_forall in HF2, HA2 |- *. intros y Hy.
    apply greater_before; auto.
Qed.

Lemma insert_docs_spec (pre post : list doc) count : forall (S rest : list doc) i,
  i = length S -> count = length rest -> Forall ranked (S ++ rest) -> StronglySorted before S ->
  exists seg, insert_docs (zlen pre) count i (pre ++ S ++ rest ++ post) = Ok (pre ++ seg ++ post) /\
    seg ≡ₚ S ++ rest /\ StronglySorted before seg.
Proof.
  induction count as [|count IH]; intros S [|key rest] i -> Hc HF Hs; cbn in Hc; try lia; cbn [insert_docs].
  { exists S. by rewrite app_nil_r. }
  cbn [app]. rewrite app_assoc, zread_at by (rewrite zlen_app; unfold zlen; lia).
  cbn [mbind res_bind]. rewrite <- app_assoc.
  destruct (shift_docs_spec (zlen pre) key (length S) pre S key (rest ++ post) eq_refl eq_refl)
    as (A1 & h' & A2 & -> & HA2 & Hl & ->). cbn [mbind res_bind].
  rewrite app_assoc, array_set_at by (rewrite zlen_app; unfold zlen; lia). cbn [mbind res_bind].
  assert (P : (A1 ++ A2) ++ key :: rest ≡ₚ (A1 ++ key :: A2) ++ rest) by solve_Permutation.
  destruct (IH (A1 ++ key :: A2) rest (Datatypes.S (length (A1 ++ A2)))) as (seg & E & Pseg & Hseg).
  - rewrite !length_app. cbn. lia.
  - lia.
  - by rewrite <- P.
  - apply sorted_insert; try done. rewrite P in HF. by apply Forall_app in HF as [? _].
  - exists seg. split; [|split; [by rewrite Pseg, P|done]]. rewrite <- E. f_equal.
    by rewrite <- !app_assoc.
Qed.

Lemma insertion_sort_spec (pre seg post : list doc) : seg <> [] -> Forall ranked seg ->
  exists seg', insertion_sort_docs (pre ++ seg ++ post) (zlen pre) (zlen seg) = Ok (pre ++ seg' ++ post) /\
    seg' ≡ₚ seg /\ StronglySorted before seg'.
Proof.
  destruct seg as [|x seg]; [done|]. intros _ HF. unfold insertion_sort_docs.
  rewrite zlen_cons. replace (Z.to_nat (1 + zlen seg - 1)) with (length seg) by (unfold zlen; lia).
  apply (insert_docs_spec pre post (length seg) [x] seg 1); [done..|repeat constructor].
Qed.

(** ** Partition *)

Lemma swap_segment (pre seg post : list doc) i j : zlen pre <= i -> i <= j -> j < zlen pre + zlen seg ->
  exists seg', swap_doc_ptrs (pre ++ seg ++ post) i j = Ok (pre ++ seg' ++ post) /\ seg' ≡ₚ seg.
Proof.
  intros Hi Hij Hj. pose proof (zlen_nonneg pre).
  destruct (lookup_lt_is_Some_2 seg (Z.to_nat (i - zlen pre))) as [x Hx]; [unfold zlen in *; lia|].
  pose proof (take_drop_middle _ _ _ Hx) as E. apply lookup_lt_Some in Hx.
  set (a := take (Z.to_nat (i - zlen pre)) seg) in *. set (r := drop (S (Z.to_nat (i - zlen pre))) seg) in *.
  assert (Ha : i = zlen (pre ++ a)) by (unfold a; rewrite zlen_app; unfold zlen in *; rewrite length_take; lia).
  assert (Hr : zlen seg = zlen a + 1 + zlen r) by (rewrite <- E, zlen_app, zlen_cons; lia).
  rewrite zlen_app in Ha. rewrite <- E, <- !app_assoc. cbn [app].
  destruct (decide (i = j)) as [<-|Hne].
  - exists (a ++ x :: r). rewrite app_assoc, swap_same by (rewrite zlen_app; lia). by rewrite <- !app_assoc.
  - destruct (lookup_lt_is_Some_2 r (Z.to_nat (j - i - 1))) as [y Hy]; [unfold zlen in *; lia|].
    pose proof (take_drop_middle _ _ _ Hy) as E'. apply lookup_lt_Some in Hy.
    set (m := take (Z.to_nat (j - i - 1)) r) in *. set (b := drop (S (Z.to_nat (j - i - 1))) r) in *.
    assert (Hm : zlen m = j - i - 1) by (unfold m, zlen; rewrite length_take; lia).
    exists (a ++ y :: m ++ x :: b). rewrite <- E'. split; [|solve_Permutation].
    rewrite <- app_assoc. cbn [app]. rewrite app_assoc, swap_at by (rewrite zlen_app; lia).
    by rewrite <- !app_assoc, <- app_comm_cons, <- !app_assoc.
Qed.

Lemma zread_segment (pre seg post : list doc) i : zlen pre <= i < zlen pre + zlen seg ->
  exists x, zread (pre ++ seg ++ post) i = Ok x.
Proof.
  intros Hi. pose proof (zlen_nonneg pre).
  destruct (zget_is_Some (pre ++ seg ++ post) i) as [x Hx];
    [rewrite !zlen_app; pose proof (zlen_nonneg post); lia|].
  exists x. unfold zread. by rewrite Hx.
Qed.

Lemma order_docs_spec (pre seg post : list doc) a b i j :
  zlen pre <= a < zlen pre + zlen seg -> zlen pre <= b < zlen pre + zlen seg ->
  zlen pre <= i -> i <= j -> j < zlen pre + zlen seg ->
  exists seg', order_docs (pre ++ seg ++ post) a b i j = Ok (pre ++ seg' ++ post) /\ seg' ≡ₚ seg.
Proof.
  intros Ha Hb Hi Hij Hj. unfold order_docs.
  destruct (zread_segment pre seg post a Ha) as [x ->]. destruct (zread_segment pre seg post b Hb) as [y ->].
  cbn [mbind res_bind]. destruct (doc_score_greater x y); [by apply swap_segment|by exists seg].
Qed.

Lemma partition_loop_spec (pre post : list doc) pivot rest : forall (G L : list doc) count i store_idx,
  store_idx = zlen pre + zlen G -> i = zlen pre + zlen G + zlen L -> count = length rest ->
  Forall (fun x => doc_score_greater x pivot = true) G -> Forall (fun x => doc_score_greater x pivot = false) L ->
  exists G' L', partition_loop pivot count i store_idx (pre ++ G ++ L ++ rest ++ post) =
      Ok (zlen pre + zlen G', pre ++ G' ++ L' ++ post) /\ G' ++ L' ≡ₚ G ++ L ++ rest /\
    Forall (fun x => doc_score_greater x pivot = true) G' /\ Forall (fun x => doc_score_greater x pivot = false) L'.
Proof.
  induction rest as [|x rest IH]; intros G L count i st -> -> -> HG HL; cbn [length partition_loop].
  { exists G, L. by rewrite app_nil_r. }
  assert (E : pre ++ G ++ L ++ (x :: rest) ++ post = (pre ++ G ++ L) ++ x :: rest ++ post) by (by rewrite <- !app_assoc).
  rewrite E, zread_at, <- E by (rewrite !zlen_app; lia). cbn [mbind res_bind].
  destruct (doc_score_greater x pivot) eqn:Eg.
  - assert (Hs : exists L1, swap_doc_ptrs (pre ++ G ++ L ++ (x :: rest) ++ post) (zlen pre + zlen G)
      (zlen pre + zlen G + zlen L) = Ok (pre ++ (G ++ [x]) ++ L1 ++ rest ++ post) /\ L1 ≡ₚ L).
    { destruct L as [|y L].
      - exists []. rewrite zlen_nil, Z.add_0_r. cbn [app]. rewrite app_assoc, swap_same by (rewrite zlen_app; lia).
        by rewrite <- !app_assoc.
      - exists (L ++ [y]). split; [|solve_Permutation]. cbn [app]. rewrite app_assoc, zlen_cons.
        rewrite swap_at by (rewrite zlen_app; lia). by rewrite <- !app_assoc. }
    destruct Hs as (L1 & -> & PL). cbn [mbind res_bind].
    assert (EL : zlen L1 = zlen L) by (unfold zlen; by rewrite PL).
    destruct (IH (G ++ [x]) L1 (length rest) (zlen pre + zlen G + zlen L + 1) (zlen pre + zlen G + 1))
      as (G' & L' & -> & P & HG' & HL').
    + rewrite zlen_app, zlen_cons, zlen_nil. lia.
    + rewrite zlen_app, zlen_cons, zlen_nil. lia.
    + done.
    + apply Forall_app. split; [done|by constructor].
    + by rewrite PL.
    + exists G', L'. split; [done|]. split; [|done]. rewrite P, PL. solve_Permutation.
  - assert (E2 : pre ++ G ++ L ++ (x :: rest) ++ post = pre ++ G ++ (L ++ [x]) ++ rest ++ post)
      by (by rewrite <- !app_assoc).
    rewrite E2. destruct (IH G (L ++ [x]) (length rest) (zlen pre + zlen G + zlen L + 1) (zlen pre + zlen G))
      as (G' & L' & -> & P & HG' & HL'); [done|rewrite zlen_app, zlen_cons, zlen_nil; lia|done|done|
        apply Forall_app; split; [done|by constructor]|].
    exists G', L'. split; [done|]. split; [|done]. rewrite P. by rewrite <- !app_assoc.
Qed.

Lemma partition_docs_spec (pre seg post : list doc) left right : left = zlen pre ->
  right = zlen pre + zlen seg - 1 -> 2 <= zlen seg -> Forall ranked seg ->
  exists G pivot L, partition_docs (pre ++ seg ++ post) left right =
      Ok (zlen pre + zlen G, pre ++ G ++ pivot :: L ++ post) /\ G ++ pivot :: L ≡ₚ seg /\
    Forall (fun x => doc_score_greater x pivot = true) G /\ Forall (fun x => doc_score_greater x pivot = false) L.
Proof.
  intros -> -> Hn HF. unfold partition_docs. set (right := zlen pre + zlen seg - 1).
  set (mid := zlen pre + Z.quot (right - zlen pre) 2). pose proof (zlen_nonneg pre).
  assert (Hmid : zlen pre <= mid <= right)
    by (unfold mid; rewrite Z.quot_div_nonneg by lia; pose proof (Z.div_mod (right - zlen pre) 2); pose proof (Z.mod_pos_bound (right - zlen pre) 2); lia).
  destruct (order_docs_spec pre seg post mid (zlen pre) (zlen pre) mid) as (s1 & -> & P1); [lia..|]. cbn [mbind res_bind].
  assert (L1 : zlen s1 = zlen seg) by (unfold zlen; by rewrite P1).
  destruct (order_docs_spec pre s1 post right (zlen pre) (zlen pre) right) as (s2 & -> & P2); [lia..|]. cbn [mbind res_bind].
  assert (L2 : zlen s2 = zlen seg) by (unfold zlen in *; rewrite P2; lia).
  destruct (order_docs_spec pre s2 post mid right mid right) as (s3 & -> & P3); [lia..|]. cbn [mbind res_bind].
  assert (L3 : zlen s3 = zlen seg) by (unfold zlen in *; rewrite P3; lia).
  destruct s3 as [|pivot rest _] using rev_ind; [rewrite zlen_nil in L3; lia|].
  rewrite zlen_app in L3. change (zlen [pivot]) with 1 in L3.
  assert (E : pre ++ (rest ++ [pivot]) ++ post = (pre ++ rest) ++ pivot :: post) by (by rewrite <- !app_assoc).
  rewrite E, zread_at, <- E by (rewrite zlen_app; lia). cbn [mbind res_bind].
  destruct (partition_loop_spec pre (pivot :: post) pivot rest [] [] (Z.to_nat (right - zlen pre)) (zlen pre) (zlen pre))
    as (G & L & Eq & P & HG & HL); [rewrite zlen_nil; lia|rewrite !zlen_nil; lia|unfold zlen in *; lia|done|done|].
  cbn [app] in Eq. replace (pre ++ (rest ++ [pivot]) ++ post) with (pre ++ rest ++ pivot :: post) by (by rewrite <- !app_assoc).
  rewrite Eq. cbn [mbind res_bind].
  assert (Hlen : zlen G + zlen L = zlen rest) by (unfold zlen; rewrite <- Nat2Z.inj_add, <- length_app, P; done).
  assert (Hseg : G ++ pivot :: L ≡ₚ seg).
  { rewrite <- P1, <- P2, <- P3. cbn in P. rewrite <- P. solve_Permutation. }
  destruct L as [|y L].
  - exists G, pivot, []. rewrite zlen_nil in Hlen. cbn [app].
    rewrite app_assoc. replace right with (zlen pre + zlen G) by lia. rewrite swap_same by (rewrite zlen_app; lia).
    cbn [mbind res_bind mret res_ret]. by rewrite <- app_assoc.
  - exists G, pivot, (L ++ [y]). rewrite zlen_cons in Hlen. cbn [app]. rewrite app_assoc.
    rewrite swap_at by (rewrite zlen_app; lia). cbn [mbind res_bind mret res_ret].
    split; [by rewrite <- !app_assoc|]. split; [rewrite <- Hseg; solve_Permutation|]. split; [done|].
    apply Forall_cons in HL as [Hy HL]. apply Forall_app. by repeat constructor.
Qed.

(** ** The partial quicksort *)

(** The first [m] entries are sorted and none of the others is better. *)
Definition best_first (m : nat) (l : list doc) : Prop :=
  StronglySorted before (take m l) /\ forall a b, a ∈ take m l -> b ∈ drop m l -> before a b.

Lemma best_first_sorted m l : StronglySorted before l -> best_first m l.
Proof.
  intros Hs. rewrite <- (take_drop m l) in Hs. apply StronglySorted_app in Hs as (? & ? & _). done.
Qed.

Lemma best_first_short m l : zlen l <= 1 -> best_first m l.
Proof.
  intros Hl. apply best_first_sorted. destruct l as [|x [|y l]]; [constructor|repeat constructor|].
  rewrite !zlen_cons in Hl. pose proof (zlen_nonneg l). lia.
Qed.

(** What the partition says of its two sides. *)
Lemma partition_before G pivot (L : list doc) : Forall ranked (G ++ pivot :: L) ->
  Forall (fun x => doc_score_greater x pivot = true) G -> Forall (fun x => doc_score_greater x pivot = false) L ->
  forall a b, a ∈ G -> b ∈ pivot :: L -> before a b.
Proof.
  intros HF HG HL a b Ha Hb. rewrite Forall_forall in *.
  assert (Hap : before a pivot) by (apply greater_before; [apply HF; set_solver..|auto]).
  apply elem_of_cons in Hb as [->|Hb]; [done|].
  apply (before_trans a pivot b); [apply HF; set_solver..|done|by apply HL].
Qed.

(** Descending into the left side only. *)
Lemma best_first_left m G G' pivot (L : list doc) : G' ≡ₚ G -> (m <= length G)%nat ->
  (forall a b, a ∈ G -> b ∈ pivot :: L -> before a b) -> best_first m G' -> best_first m (G' ++ pivot :: L).
Proof.
  intros P Hm HGL [Hs Hb]. apply Permutation_length in P as Hlen. unfold best_first.
  rewrite take_app_le, drop_app_le by lia. split; [done|]. intros a b Ha [Hd|Hd]%elem_of_app; [by apply Hb|].
  apply HGL; [|done]. rewrite <- P, <- (take_drop m G'), elem_of_app. by left.
Qed.

(** Sorting the left side, then descending into the right one. *)
Lemma best_first_right m G G' pivot (L L' : list doc) : G' ≡ₚ G -> L' ≡ₚ L ->
  (forall a b, a ∈ G -> b ∈ pivot :: L -> before a b) -> Forall (fun x => doc_score_greater x pivot = false) L ->
  StronglySorted before G' -> best_first m L' -> best_first (length G + S m) (G' ++ pivot :: L').
Proof.
  intros P PL HGL HL Hs [Hs' Hb]. apply Permutation_length in P as Hlen. rewrite <- Hlen.
  assert (Hin : forall b, b ∈ L' -> before pivot b).
  { intros b Hd. rewrite PL in Hd. rewrite Forall_forall in HL. by apply HL. }
  assert (Htk : forall b, b ∈ take m L' -> b ∈ L').
  { intros b Hd. rewrite <- (take_drop m L'), elem_of_app. by left. }
  assert (Hdr : forall b, b ∈ drop m L' -> b ∈ L').
  { intros b Hd. rewrite <- (take_drop m L'), elem_of_app. by right. }
  assert (HGb : forall a b, a ∈ G' -> b ∈ L' -> before a b).
  { intros a b Ha Hd. rewrite P in Ha. rewrite PL in Hd. apply HGL; [done|by apply elem_of_cons; right]. }
  unfold best_first. rewrite take_app_add', drop_app_add' by done. cbn [take drop]. split.
  - apply StronglySorted_app. split; [|split; [done|]].
    + intros a b Ha [->|Hd]%elem_of_cons; [|by apply HGb; auto].
      apply HGL; [by rewrite <- P|apply list_elem_of_here].
    + constructor; [done|]. apply Forall_forall. auto.
  - intros a b [Ha|[->|Ha]%elem_of_cons]%elem_of_app Hd; auto.
Qed.

Lemma partial_quicksort_spec k fuel : forall (pre seg post : list doc) left right,
  left = zlen pre -> right = zlen pre + zlen seg - 1 -> (length seg < fuel)%nat -> Forall ranked seg ->
  exists seg', partial_quicksort_loop fuel (pre ++ seg ++ post) left right k = Ok (pre ++ seg' ++ post) /\
    seg' ≡ₚ seg /\ best_first (Z.to_nat (k - zlen pre)) seg'.
Proof.
  induction fuel as [|fuel IH]; intros pre seg post left right -> -> Hf HF; [lia|]. cbn [partial_quicksort_loop].
  destruct (Z.ltb_spec (zlen pre) (zlen pre + zlen seg - 1)) as [Hlt|Hge];
    [|exists seg; split; [done|]; split; [done|apply best_first_short; lia]].
  destruct (Z.ltb_spec (zlen pre + zlen seg - 1 - zlen pre) 16) as [Hsm|Hbig].
  { replace (zlen pre + zlen seg - 1 - zlen pre + 1) with (zlen seg) by lia.
    destruct (insertion_sort_spec pre seg post) as (seg' & E & P & Hs); [intros ->; rewrite zlen_nil in *; lia|done|].
    exists seg'. split; [done|]. split; [done|by apply best_first_sorted]. }
  destruct (partition_docs_spec pre seg post _ _ eq_refl eq_refl) as (G & pivot & L & -> & P & HG & HL); [lia|done|].
  cbn [mbind res_bind]. rewrite <- P in HF.
  pose proof (partition_before G pivot L HF HG HL) as HGL.
  pose proof HF as HF'. apply Forall_app in HF' as [HFG HFL]. apply Forall_cons in HFL as [_ HFL].
  assert (Hlen : length seg = (length G + S (length L))%nat) by (rewrite <- P, length_app; done).
  assert (HzG : zlen G = Z.of_nat (length G)) by done.
  destruct (Z.leb_spec k (zlen pre + zlen G)) as [Hk|Hk].
  - destruct (IH pre G (pivot :: L ++ post) (zlen pre) (zlen pre + zlen G - 1)) as (G' & -> & PG & Hb); [done|lia|lia|done|].
    exists (G' ++ pivot :: L). split; [by rewrite <- app_assoc|]. split; [by rewrite PG|].
    apply (best_first_left _ G); [done|lia|done|done].
  - assert (Hleft : exists G', (if zlen pre <? zlen pre + zlen G
        then partial_quicksort_loop fuel (pre ++ G ++ pivot :: L ++ post) (zlen pre) (zlen pre + zlen G - 1) k
        else Ok (pre ++ G ++ pivot :: L ++ post)) = Ok (pre ++ G' ++ pivot :: L ++ post) /\ G' ≡ₚ G /\
        StronglySorted before G').
    { destruct (Z.ltb_spec (zlen pre) (zlen pre + zlen G)) as [Hl|Hl].
      - destruct (IH pre G (pivot :: L ++ post) (zlen pre) (zlen pre + zlen G - 1)) as (G' & E & PG & [Hb _]); [done|lia|lia|done|].
        exists G'. split; [done|]. split; [done|]. apply Permutation_length in PG. rewrite take_ge in Hb by lia. done.
      - exists G. destruct G; [by repeat constructor|]. rewrite zlen_cons in Hl. pose proof (zlen_nonneg G). lia. }
    destruct Hleft as (G' & -> & PG & Hs). cbn [mbind res_bind].
    assert (HG' : length G' = length G) by (by rewrite PG).
    destruct (IH (pre ++ G' ++ [pivot]) L post (zlen pre + zlen G + 1) (zlen pre + zlen seg - 1)) as (L' & E & PL & Hb);
      [rewrite !zlen_app; unfold zlen; cbn; lia|rewrite !zlen_app; unfold zlen; cbn; lia|lia|done|].
    assert (Er : forall l, (pre ++ G' ++ [pivot]) ++ l ++ post = pre ++ G' ++ pivot :: l ++ post)
      by (intros; by rewrite <- !app_assoc).
    rewrite !Er in E. rewrite E. exists (G' ++ pivot :: L'). split; [by rewrite <- app_assoc|].
    split; [by rewrite PG, PL|].
    replace (Z.to_nat (k - zlen pre)) with (length G + S (Z.to_nat (k - zlen (pre ++ G' ++ [pivot]))))%nat
      by (rewrite !zlen_app; unfold zlen in *; cbn; lia).
    by apply (best_first_right _ G G' pivot L L').
Qed.

(** After the sort the first [k] entries are the best [k], in order. *)
Lemma sort_top_k_spec (arr : list doc) k : Forall ranked arr ->
  exists arr', sort_top_k_docs arr (zlen arr) k = Ok arr' /\ arr' ≡ₚ arr /\ best_first (Z.to_nat k) arr'.
Proof.
  intros HF. unfold sort_top_k_docs. destruct (Z.leb_spec (zlen arr) 1) as [Hl|Hl].
  { exists arr. split; [done|]. split; [done|by apply best_first_short]. }
  destruct (Z.leb_spec k 0) as [Hk|Hk]; cbn [orb].
  { exists arr. split; [done|]. split; [done|]. replace (Z.to_nat k) with 0%nat by lia.
    split; [constructor|]. intros a b Ha. by apply not_elem_of_nil in Ha. }
  unfold partial_quicksort_docs. set (k' := if zlen arr <=? k then zlen arr else k).
  destruct (partial_quicksort_spec k' (S (Z.to_nat (zlen arr - 1 - 0 + 1))) [] arr [] 0 (zlen arr - 1)) as (arr' & E & P & Hb);
    [done|done|unfold zlen; lia|done|].
  cbn [app] in E. rewrite !app_nil_r in E. exists arr'. split; [done|]. split; [done|].
  rewrite zlen_nil, Z.sub_0_r in Hb. unfold k' in Hb. destruct (Z.leb_spec (zlen arr) k); [|done].
  apply Permutation_length in P. destruct Hb as [Hs _]. rewrite take_ge in Hs by (unfold zlen; lia).
  by apply best_first_sorted.
Qed.

(** ** The extraction *)

Lemma sorted_exists (l : list doc) : Forall ranked l -> exists l', l' ≡ₚ l /\ StronglySorted before l'.
Proof.
  intros HF. destruct l as [|x l]; [exists []; by repeat constructor|].
  destruct (insertion_sort_spec [] (x :: l) []) as (l' & _ & P & Hs); [done|done|]. by exists l'.
Qed.

(** The best entries in front can be completed to a ranking of all. *)
Lemma best_first_ranking m (l : list doc) : Forall ranked l -> best_first m l ->
  exists ranking, ranking ≡ₚ l /\ StronglySorted before ranking /\ take m l = take m ranking.
Proof.
  intros HF [Hs Hb]. assert (HF2 : Forall ranked (drop m l)) by by apply Forall_drop.
  destruct (sorted_exists (drop m l) HF2) as (d & P & Hd). exists (take m l ++ d). split; [|split].
  - by rewrite P, take_drop.
  - apply StronglySorted_app. split; [|done]. intros a b Ha Hin. rewrite P in Hin. auto.
  - destruct (le_lt_dec m (length l)) as [Hm|Hm].
    + by rewrite take_app_length' by (rewrite length_take; lia).
    + assert (d = []) as ->; [|by rewrite app_nil_r, take_idemp].
      apply Permutation_length in P. rewrite length_drop in P. destruct d; [done|cbn in P; lia].
Qed.

Lemma ranking_unique (r1 r2 : list doc) : Forall ranked r1 -> NoDup r1.*1 -> r1 ≡ₚ r2 ->
  StronglySorted before r1 -> StronglySorted before r2 -> r1 = r2.
Proof.
  intros HF Hnd P H1 H2. eapply StronglySorted_unique_strong; [|done..].
  intros a b Ha Hb Hab Hba. rewrite <- P in Hb. rewrite Forall_forall in HF.
  assert (E : a.1 = b.1) by (apply before_antisym; auto).
  apply list_elem_of_lookup in Ha as [i Hi]. apply list_elem_of_lookup in Hb as [j Hj].
  assert (i = j) as ->; [|congruence].
  eapply NoDup_lookup; [exact Hnd|..]; rewrite list_lookup_fmap; [rewrite Hi; reflexivity|rewrite Hj; cbn; by rewrite E].
Qed.

Lemma extract_docs_spec `{HashSeqLaws} (table : gmap ItemPointerData DocumentScoreEntry) max_results :
  Forall ranked (map_to_list table) ->
  exists ranking, ranking ≡ₚ map_to_list table /\ StronglySorted before ranking /\
    tp_extract_and_sort_documents table max_results = Ok (take (Z.to_nat max_results) ranking).
Proof.
  intros HF. unfold tp_extract_and_sort_documents. pose proof (hash_seq_perm _ _ table) as P.
  set (docs := hash_seq table) in *. rewrite <- P in HF.
  destruct (Z.eqb_spec (zlen docs) 0) as [E|_].
  { exists []. destruct docs; [|done]. split; [by rewrite P|]. split; [constructor|by rewrite take_nil]. }
  set (n := if zlen docs <? max_results then zlen docs else max_results).
  destruct (sort_top_k_spec docs n HF) as (arr & -> & Pa & Hb). cbn [mbind res_bind mret res_ret].
  assert (HFa : Forall ranked arr) by (by rewrite Pa).
  destruct (best_first_ranking _ _ HFa Hb) as (ranking & Pr & Hs & ->).
  exists ranking. split; [by rewrite Pr, Pa|]. split; [done|]. f_equal. unfold n.
  destruct (Z.ltb_spec (zlen docs) max_results); [|done].
  assert (length ranking = length docs) by (by rewrite Pr, Pa). unfold zlen in *. rewrite !take_ge by lia. done.
Qed.

Lemma extract_front `{HashSeqLaws}
    (table : gmap ItemPointerData DocumentScoreEntry) max_results ranking :
  Forall ranked (map_to_list table) -> ranking ≡ₚ map_to_list table -> StronglySorted before ranking ->
  tp_extract_and_sort_documents table max_results = Ok (take (Z.to_nat max_results) ranking).
Proof.
  intros HF P Hs. destruct (extract_docs_spec table max_results HF) as (r & Pr & Hr & ->).
  do 2 f_equal. apply ranking_unique; [by rewrite Pr| |by rewrite Pr, P|done|done].
  rewrite Pr. apply NoDup_fst_map_to_list.
Qed.

(** ** Properties *)

(** The partial quicksort ends, accesses nothing outside its array, and leaves
    the array a permutation whose first [k] entries are sorted (score descending,
    then CTID ascending) and no worse than any entry behind them. *)
Theorem partial_quicksort_selects_best (arr : list doc) k : Forall ranked arr ->
  exists arr', sort_top_k_docs arr (zlen arr) k = Ok arr' /\ arr' ≡ₚ arr /\
    StronglySorted before (take (Z.to_nat k) arr') /\
    forall a b, a ∈ take (Z.to_nat k) arr' -> b ∈ drop (Z.to_nat k) arr' -> doc_score_greater b a = false.
Proof.
  intros HF. destruct (sort_top_k_spec arr k HF) as (arr' & E & P & Hs & Hb).
  exists arr'. split; [done|]. split; [done|]. split; [done|exact Hb].
Qed.

(** C36: What the exhaustive path extracts from its table of scores is the front of
    the one ranking of the table's documents, whatever the order of the hash
    table's scan. *)
Theorem extracted_documents_are_the_best `{HashSeqLaws}
    (table : gmap ItemPointerData DocumentScoreEntry) max_results ranking :
  Forall ranked (map_to_list table) -> ranking ≡ₚ map_to_list table -> StronglySorted before ranking ->
  tp_extract_and_sort_documents table max_results = Ok (take (Z.to_nat max_results) ranking).
Proof. apply extract_front. Qed.
End Sorting.

(** ** Witnesses *)

Definition example_doc (i : Z) : doc :=
  (mkItemPointer i 1, mkDocumentScore (f4_of_Z ((i * 7919 + 13) mod 31)) f4_one).
Definition example_docs : list doc := example_doc <$> seqZ 0 40.

Lemma example_docs_ranked : Forall ranked example_docs.
Proof. apply Forall_forall. intros d [i [-> _]]%list_elem_of_fmap. unfold ranked, example_doc. cbn [dse_score snd].
  pose proof (Z.mod_pos_bound (i * 7919 + 13) 31 ltac:(lia)) as Hm.
  assert (Hin : (i * 7919 + 13) mod 31 ∈ seqZ 0 31) by (apply elem_of_seqZ; lia).
  revert Hin. generalize ((i * 7919 + 13) mod 31). intros z Hz.
  assert (Ha : forallb (fun z => negb (is_nan (f4_of_Z z))) (seqZ 0 31) = true) by (vm_compute; reflexivity).
  rewrite forallb_forall in Ha. apply negb_true_iff, Ha, list_elem_of_In, Hz.
Qed.

Lemma partial_quicksort_selects_best_witness :
  exists arr', sort_top_k_docs example_docs 40 5 = Ok arr' /\ arr' ≡ₚ example_docs.
Proof.
  destruct (partial_quicksort_selects_best example_docs 5 example_docs_ranked) as (arr' & E & P & _).
  exists arr'. split; [exact E|exact P].
Defined.

Definition example_table : gmap ItemPointerData DocumentScoreEntry :=
  list_to_map [example_doc 0; example_doc 1; example_doc 2].

Lemma extracted_documents_are_the_best_witness :
  tp_extract_and_sort_documents example_table 2 = Ok [example_doc 1; example_doc 0].
Proof.
  etrans; [apply (extracted_documents_are_the_best example_table 2 [example_doc 1; example_doc 0; example_doc 2])|].
  - vm_compute. repeat constructor.
  - unfold example_table. rewrite map_to_list_to_map.
    { apply Permutation_swap. }
    apply (bool_decide_unpack _). vm_compute. exact I.
  - repeat (apply SSorted_cons; [|forall_compute]). apply SSorted_nil.
  - vm_compute. reflexivity.
Defined.
