(* ===== verification/Score.v ===== *)
(** * Scoring a query (query/score.c)

    [tp_score_documents] is what an index scan calls: it takes the statistics of
    the corpus or of the tenant, the frequency of every term over the memtable and
    all segments, and answers by block-max scoring (Bmw) or, when that is switched
    off, by accumulating the scores of all postings in a table and extracting the
    best (SortDocs). *)
From S2P Require Import Prelude Postgres Float4 TopK SegmentFormat Storage SegmentIO SegmentScan.
From S2P Require Import Memtable Bmw SortDocs.

#[local] Abbreviation M := (rst TpLocalIndexState).

Section Score.
Context {R : Type} `{SegmentAccess R} `{ItemPointerOps} `{DsaAllocator} `{HashSeq} `{QSort}.
(** [tp_segment_open_ex] and its field [root_block], the CTID look-up of a segment,
    the bound on the length of a chain, the C library's logarithm. *)
Context (segment_open_ex : Z -> bool -> res (option R)) (reader_root_block : R -> Z).
Context (open_ex : Z -> option (Z -> ItemPointerData)) (chain_fuel : nat).
Context (ln : float8 -> float8).

Definition tp_segment_open (root_block : Z) : res (option R) := segment_open_ex root_block false.

Definition tp_calculate_idf (doc_freq total_docs : Z) : float4 :=
  calculate_idf ln (i32 doc_freq) (i32 total_docs).

(** ** Document frequencies *)

(** [for (level = 0; level < TP_MAX_LEVELS; level++)], levels without segments left out. *)
Fixpoint for_levels {A} (f : Z -> A -> res A) (level_heads : list Z) (acc : A) : res A :=
  match level_heads with
  | [] => Ok acc
  | head :: heads =>
      acc ← (if head =? InvalidBlockNumber then Ok acc else f head acc);
      for_levels f heads acc
  end.

(** The memtable's share of a frequency. *)
Definition memtable_doc_freq (term : list byte) : M Z :=
  posting_list ← tp_get_posting_list term;
  mret (match posting_list with
        | Some (_, pl) => if 0 <? pl_doc_count pl then u32 (pl_doc_count pl) else 0
        | None => 0
        end).

Definition tp_get_unified_doc_freq (local_state : TpLocalIndexState) (term : list byte)
    (level_heads : list Z) : res Z :=
  '(doc_freq, _) ← memtable_doc_freq term local_state;
  for_levels (fun head doc_freq =>
      df ← tp_segment_get_doc_freq segment_open_ex chain_fuel head term;
      Ok (u32 (doc_freq + df))) level_heads doc_freq.

Fixpoint memtable_doc_freqs (f : list byte -> M Z) (terms : list (list byte)) : M (list Z) :=
  match terms with
  | [] => mret []
  | t :: rest => d ← f t; ds ← memtable_doc_freqs f rest; mret (d :: ds)
  end.

Definition tp_batch_get_unified_doc_freq (local_state : TpLocalIndexState)
    (terms : list (list byte)) (level_heads : list Z) : res (list Z) :=
  '(doc_freqs, _) ← memtable_doc_freqs memtable_doc_freq terms local_state;
  for_levels (fun head doc_freqs =>
      tp_batch_get_segment_doc_freq segment_open_ex chain_fuel head terms doc_freqs) level_heads doc_freqs.

(** The postings of the memtable that carry the tenant. *)
Definition memtable_tenant_doc_freq (tenant_id : Z) (term : list byte) : M Z :=
  posting_list ← tp_get_posting_list term;
  match posting_list with
  | Some (_, pl) =>
      if 0 <? pl_doc_count pl then
        entries ← tp_get_posting_entries pl;
        match entries with
        | None => rst_fail OUT_OF_BOUNDS_ACCESS
        | Some slots =>
            es ← rst_lift (read_slots (Z.to_nat (pl_doc_count pl)) slots);
            mret (u32 (zlen (filter (fun e => pe_tenant_id e = tenant_id) es)))
        end
      else mret 0
  | None => mret 0
  end.

Definition tp_get_tenant_doc_freq (local_state : TpLocalIndexState) (term : list byte)
    (level_heads : list Z) (tenant_id : Z) : res Z :=
  '(doc_freq, _) ← memtable_tenant_doc_freq tenant_id term local_state;
  for_levels (fun head doc_freq =>
      '(seg_df, has_v4) ← tp_segment_get_tenant_doc_freq segment_open_ex chain_fuel head term tenant_id;
      if 0 <? seg_df then Ok (u32 (doc_freq + seg_df))
      else if negb has_v4 then
        df ← tp_segment_get_doc_freq segment_open_ex chain_fuel head term;
        Ok (u32 (doc_freq + df))
      else Ok doc_freq) level_heads doc_freq.

Definition tp_batch_get_tenant_doc_freq (local_state : TpLocalIndexState)
    (terms : list (list byte)) (level_heads : list Z) (tenant_id : Z) : res (list Z) :=
  '(doc_freqs, _) ← memtable_doc_freqs (memtable_tenant_doc_freq tenant_id) terms local_state;
  for_levels (fun head doc_freqs =>
      tp_batch_get_segment_tenant_doc_freq segment_open_ex chain_fuel head terms doc_freqs tenant_id)
    level_heads doc_freqs.

(** ** Statistics of the corpus *)

Definition average_length (total_len total_docs : Z) : float4 :=
  f4_of_f8 (f8_div (f8_of_Z total_len) (f8_of_Z total_docs)).

(** [total_docs] and [avg_doc_len]; [None] when the query has no result whatever
    the index holds. *)
Definition corpus_statistics (local_state : TpLocalIndexState) (tenant_id : Z) : res (option (Z * float4)) :=
  let total_docs := total_docs local_state in
  if total_docs <=? 0 then Ok None
  else
    let avg_doc_len := average_length (total_len local_state) total_docs in
    '(stats, _) ← tp_get_tenant_stats tenant_id local_state;
    '(initialized, _) ← tp_tenant_stats_initialized local_state;
    let chosen :=
      if tenant_id =? 0 then Some (total_docs, avg_doc_len)
      else match stats with
           | Some (t_docs, t_len) =>
               if t_docs =? 0 then None else Some (i32 t_docs, average_length t_len t_docs)
           | None => if initialized : bool then None else Some (total_docs, avg_doc_len)
           end in
    Ok (match chosen with
        | Some (docs, avg) => if f4_le avg (f4_of_Z 0) then None else Some (docs, avg)
        | None => None
        end).

(** ** The exhaustive path *)

Section Exhaustive.
Context (total_docs : Z) (k1 b avg_doc_len : float4) (tenant_id : Z).

(** The scores of the memtable are computed in double precision too, with the
    frequency of the query term converted from an integer. *)
Definition memtable_term_score (idf tf doc_len : float4) (query_frequency : Z) : float4 :=
  let tf_d := f8_of_f4 tf in
  let one := f8_of_Z 1 in
  let numerator_d := f8_mul tf_d (f8_add (f8_of_f4 k1) one) in
  let denominator_d :=
    f8_add tf_d (f8_mul (f8_of_f4 k1)
      (f8_add (f8_sub one (f8_of_f4 b))
         (f8_mul (f8_of_f4 b) (f8_div (f8_of_f4 doc_len) (f8_of_f4 avg_doc_len))))) in
  f4_of_f8 (f8_mul (f8_mul (f8_of_f4 idf) (f8_div numerator_d denominator_d))
              (f8_of_Z query_frequency)).

Definition add_doc_score (ctid : ItemPointerData) (term_score doc_len : float4)
    (table : gmap ItemPointerData DocumentScoreEntry) : gmap ItemPointerData DocumentScoreEntry :=
  match table !! ctid with
  | None => <[ctid := mkDocumentScore term_score doc_len]> table
  | Some e => <[ctid := mkDocumentScore (f4_add (dse_score e) term_score) (dse_doc_length e)]> table
  end.

(** [for (i = 0; i < postings->count; i++)] *)
Fixpoint score_source_postings (n : nat) (i : Z) (source : TpDataSource) (postings : TpPostingData)
    (idf : float4) (query_frequency : Z) (table : gmap ItemPointerData DocumentScoreEntry)
    : M (gmap ItemPointerData DocumentScoreEntry) :=
  match n with
  | O => mret table
  | S n' =>
      ctid ← rst_lift (zread (pd_ctids postings) i);
      frequency ← rst_lift (zread (pd_frequencies postings) i);
      other ← rst_lift (other_tenant tenant_id postings i);
      if (other : bool) || negb (ItemPointerIsValid ctid)
      then score_source_postings n' (i + 1) source postings idf query_frequency table
      else
        doc_len_int ← get_doc_length source ctid;
        score_source_postings n' (i + 1) source postings idf query_frequency
          (if doc_len_int <=? 0 then table
           else add_doc_score ctid
                  (memtable_term_score idf (f4_of_Z frequency) (f4_of_Z doc_len_int) query_frequency)
                  (f4_of_Z doc_len_int) table)
  end.

(** The terms of the query in the memtable: their frequencies there, and the table. *)
Fixpoint score_source_terms (source : TpDataSource) (query : list (list byte * Z))
    (table : gmap ItemPointerData DocumentScoreEntry)
    : M (list Z * gmap ItemPointerData DocumentScoreEntry) :=
  match query with
  | [] => mret ([], table)
  | (term, query_frequency) :: rest =>
      postings ← get_postings source term;
      '(doc_freq, table) ←
        match postings with
        | None => mret (0, table)
        | Some ps =>
            if pd_count ps =? 0 then mret (0, table)
            else
              let doc_freq := u32 (pd_doc_freq ps) in
              let idf := tp_calculate_idf doc_freq total_docs in
              table ← score_source_postings (Z.to_nat (pd_count ps)) 0 source ps idf query_frequency table;
              mret (doc_freq, table)
        end;
      '(doc_freqs, table) ← score_source_terms source rest table;
      mret (doc_freq :: doc_freqs, table)
  end.

(** The table of scores: the memtable, then the segments of every level. *)
Definition doc_scores (local_state : TpLocalIndexState) (level_heads : list Z)
    (query : list (list byte * Z)) : res (gmap ItemPointerData DocumentScoreEntry) :=
  '(source, st) ← tp_memtable_source_create local_state;
  '(memtable_scores, _) ← score_source_terms source query ∅ st;
  '(_, table) ← for_levels (fun head '(doc_freqs, table) =>
      tp_score_all_terms_in_segment_chain segment_open_ex chain_fuel ln total_docs k1 b avg_doc_len
        tenant_id head query.*1 query.*2 doc_freqs table) level_heads memtable_scores;
  Ok table.
End Exhaustive.

(** ** The query *)

(** The results with their scores; [None] when the function returns 0 before it
    allocates the scores.  Multi-term block-max scoring never returns a negative
    count, so the exhaustive path runs only when [tp_enable_bmw] is off. *)
Definition tp_score_documents (tp_enable_bmw : bool) (local_state : TpLocalIndexState)
    (level_heads : list Z) (query : list (list byte * Z)) (k1 b : float4) (max_results tenant_id : Z)
    : res (option (list (ItemPointerData * float4))) :=
  if (zlen query <=? 0) || (max_results <=? 0) then Ok None
  else
    statistics ← corpus_statistics local_state tenant_id;
    match statistics with
    | None => Ok None
    | Some (total_docs, avg_doc_len) =>
        match tp_enable_bmw, query with
        | true, [(term, _)] =>
            doc_freq ← (if negb (tenant_id =? 0) then tp_get_tenant_doc_freq local_state term level_heads tenant_id
                        else tp_get_unified_doc_freq local_state term level_heads);
            if doc_freq =? 0 then Ok None
            else
              '(results, _) ← tp_score_single_term_bmw tp_segment_open reader_root_block open_ex chain_fuel
                local_state level_heads term (tp_calculate_idf doc_freq total_docs) k1 b avg_doc_len
                (Z.to_nat max_results) true tenant_id;
              Ok (Some results)
        | true, _ =>
            let terms := query.*1 in
            doc_freqs ← (if negb (tenant_id =? 0) then tp_batch_get_tenant_doc_freq local_state terms level_heads tenant_id
                         else tp_batch_get_unified_doc_freq local_state terms level_heads);
            if forallb (fun d => d =? 0) doc_freqs then Ok None
            else
              let idfs := (fun d => if 0 <? d then tp_calculate_idf d total_docs else f4_of_Z 0) <$> doc_freqs in
              '(results, _) ← tp_score_multi_term_bmw tp_segment_open reader_root_block open_ex chain_fuel
                local_state level_heads (zip query idfs) k1 b avg_doc_len (Z.to_nat max_results) true tenant_id;
              Ok (Some results)
        | false, _ =>
            table ← doc_scores total_docs k1 b avg_doc_len tenant_id local_state level_heads query;
            docs ← tp_extract_and_sort_documents table max_results;
            Ok (Some (tp_copy_results_to_output docs []))
        end
    end.
End Score.
