(* ===== verification/ScoreFacts.v ===== *)
(** * Scoring a query: proofs

    The frequency of a term that the query functions compute is the number of its
    postings in the memtable plus those recorded in the dictionaries of all
    segments; with it, a single-term query returns what the heap keeps of every
    posting in the index. *)
From S2P Require Import Prelude Postgres Float4 TopK SegmentFormat Compression Storage SegmentIO Docmap.
From S2P Require Import SegmentScan ScanFacts Memtable MemtableFacts SegmentWrite SegmentRoundtrip.
From S2P Require Import Bmw BmwSingle BmwQuery SortDocs Score.

Lemma u32_add_l a b : u32 (u32 a + b) = u32 (a + b).
Proof. unfold wrap. by rewrite Zplus_mod_idemp_l. Qed.

Lemma u32_add_r a b : u32 (a + u32 b) = u32 (a + b).
Proof. unfold wrap. by rewrite Zplus_mod_idemp_r. Qed.

Lemma u32_idemp a : u32 (u32 a) = u32 a.
Proof. unfold wrap. by rewrite Zmod_mod. Qed.

(** ** The memtable's share *)

Section MemtableShare.
Context `{DsaAllocatorLaws}.

Lemma memtable_doc_freq_ok st frame docs t : holds st frame docs -> c_str t <> [] ->
  ensures (memtable_doc_freq t) st (fun res st' =>
    st' = st /\ res = u32 (zlen (postings_of docs (c_str t)))).
Proof.
  intros Hh Hne. unfold memtable_doc_freq, tp_get_posting_list. apply ensures_bind, ensures_bind, ensures_gets.
  destruct (string_table (memtable st)) as [ht|] eqn:Eht.
  2:{ apply ensures_ret, ensures_ret. split; [done|].
      by rewrite (table_absent st frame docs) by (done || unfold table; by rewrite Eht). }
  assert (Et' : ht = table st) by (unfold table; by rewrite Eht). subst ht. unfold tp_string_table_lookup.
  rewrite (proj2 (Z.eqb_neq (zlen (c_str t)) 0))
    by (destruct (c_str t) as [|b s]; [done|]; rewrite zlen_cons; pose proof (zlen_nonneg s); lia).
  destruct (table st !! c_str t) as [e|] eqn:Et.
  - destruct (table_present st frame docs _ _ Hh Et) as (own & pl & Hl & Hat).
    pose proof (ta_list _ _ _ _ _ _ Hat) as Hlist. unfold DsaPointerIsValid.
    rewrite (proj2 (Z.eqb_neq _ _)) by apply (ta_valid _ _ _ _ _ _ Hat). cbn [negb].
    apply ensures_bind. eapply get_posting_list_ok; [apply (ta_postings _ _ _ _ _ _ Hat)|].
    apply ensures_ret, ensures_ret. split; [done|]. rewrite (plo_count _ _ _ Hlist).
    destruct (postings_of docs (c_str t)) as [|x l]; [done|].
    rewrite (proj2 (Z.ltb_lt _ _)); [done|]. rewrite zlen_cons. pose proof (zlen_nonneg l). lia.
  - apply ensures_ret, ensures_ret. split; [done|]. by rewrite (table_absent st frame docs).
Qed.
End MemtableShare.

(** ** The segments' share *)

Section SegmentShare.
Context {R : Type} `{SegmentAccessLaws R} `{ItemPointerOps} `{DsaAllocatorLaws} `{HashSeq} `{QSort}.
Context (segment_open_ex : Z -> bool -> res (option R)) (reader_root_block : R -> Z) (chain_fuel : nat).
Context (term : list byte) (idf k1 b avg_doc_len : float4) (tenant_id : Z).

(** The frequency of the term that the dictionary of a segment records. *)
Definition view_doc_freq (v : segment_view) : Z :=
  match list_find (fun t => t = c_str term) (v_terms v) with
  | Some (i, _) => match v_entries v !! i with Some de => de_doc_freq de | None => 0 end
  | None => 0
  end.

Definition segments_doc_freq (vs : list segment_view) : Z := foldr (fun v s => view_doc_freq v + s) 0 vs.

Abbreviation chain := (chain_of (tp_segment_open segment_open_ex) reader_root_block term idf k1 b avg_doc_len tenant_id).

Lemma term_doc_freq_ok v r doc_freq : view_ok term idf k1 b avg_doc_len tenant_id v -> reads_view v r ->
  ensures (term_doc_freq (v_header v) (zlen (v_terms v)) term doc_freq) r
    (fun res r' => reads_view v r' /\ u32 res = u32 (doc_freq + view_doc_freq v)).
Proof.
  intros Hv Hr. pose proof (vo_dictionary _ _ _ _ _ _ _ Hv) as Hdict. unfold term_doc_freq. apply ensures_bind.
  eapply ensures_mono; [by apply (find_term_ok (v_header v) (v_stream v) (v_terms v) (v_entries v) (v_ctids v) Hdict)|].
  intros [i|] r1 [Hr1 Hres]; cbn [search_result] in Hres; unfold view_doc_freq.
  - pose proof (zget_Some _ _ _ Hres) as Hi. rewrite zget_lookup in Hres by lia.
    destruct (lookup_lt_is_Some_2 (v_entries v) (Z.to_nat i)) as [de Hde].
    { rewrite (da_lengths _ _ _ _ Hdict). unfold zlen in Hi. lia. }
    replace i with (Z.of_nat (Z.to_nat i)) by lia.
    eapply ensures_bind_runs; [by apply (read_dict_entry_ok (v_header v) (v_stream v) (v_terms v) (v_entries v) (v_ctids v) Hdict (Z.to_nat i) de)|].
    intros r2 Hr2. apply ensures_ret. split; [done|]. rewrite u32_idemp.
    destruct (list_find _ (v_terms v)) as [[j t]|] eqn:E.
    + apply list_find_Some in E as (Hj & -> & Hfirst).
      assert (j = Z.to_nat i) as ->; [|by rewrite Hde].
      destruct (Nat.lt_trichotomy (Z.to_nat i) j) as [L|[->|L]]; [by destruct (Hfirst _ _ Hres L)|done|].
      pose proof (StronglySorted_lookup _ _ _ _ _ _ (da_sorted _ _ _ _ Hdict) Hj Hres L) as Hlt.
      by apply term_lt_irrefl in Hlt.
    + apply list_find_None in E. rewrite Forall_lookup in E. by destruct (E _ _ Hres).
  - apply ensures_ret. split; [done|]. destruct (list_find _ (v_terms v)) as [[j t]|] eqn:E; [|by rewrite Z.add_0_r].
    apply list_find_Some in E as (Hj & -> & _). destruct Hres. by eapply list_elem_of_lookup_2.
Qed.

(** One round of [tp_segment_get_doc_freq]. *)
Definition one_segment_doc_freq (doc_freq : Z) : rst R Z :=
  header ← rst_gets sheader;
  if (SegmentFormat.num_terms header =? 0) || (dictionary_offset header =? 0)
  then mret doc_freq
  else
    dict_num_terms ← read_u32 (dictionary_offset header);
    term_doc_freq header dict_num_terms term doc_freq.

Lemma segment_doc_freq_loop vs : forall fuel head acc, chain head vs -> (length vs < fuel)%nat ->
  exists df, chain_loop segment_open_ex fuel false
    one_segment_doc_freq head acc = Ok df /\
    u32 df = u32 (acc + segments_doc_freq vs).
Proof.
  induction vs as [|v vs IH]; intros [|fuel] head acc Hch Hf; cbn in Hf; try lia;
    inversion Hch as [|? r ? ? Hne Hopen Hr Hroot Hv Hrest]; subst; cbn [chain_loop].
  { rewrite Z.eqb_refl. exists acc. split; [done|]. cbn. by rewrite Z.add_0_r. }
  rewrite (proj2 (Z.eqb_neq _ _)) by done. unfold tp_segment_open in Hopen. rewrite Hopen. cbn [mbind res_bind].
  pose proof (vo_dictionary _ _ _ _ _ _ _ Hv) as Hdict.
  assert (Hseg : ensures (one_segment_doc_freq acc) r (fun df r' => reads_view v r' /\ u32 df = u32 (acc + view_doc_freq v))).
  { apply ensures_bind, ensures_gets. destruct (id Hr) as [Hd _]. rewrite (denotes_header _ _ _ Hd).
    rewrite (da_num_terms _ _ _ _ Hdict), (proj2 (Z.eqb_neq (dictionary_offset _) 0)) by apply (da_offset _ _ _ _ Hdict).
    rewrite orb_false_r. destruct (Z.eqb_spec (zlen (v_terms v)) 0) as [E|N].
    { apply ensures_ret. split; [done|]. unfold view_doc_freq. destruct (v_terms v); [by rewrite Z.add_0_r|done]. }
    pose proof (da_limit _ _ _ _ Hdict). pose proof (zlen_nonneg (v_terms v)).
    eapply ensures_bind_runs.
    { apply (read_u32_at (v_header v) (v_stream v) (v_ctids v) r _ (zlen (v_terms v)));
        [done|apply (da_size _ _ _ _ Hdict)|lia|apply (da_count _ _ _ _ Hdict)]. }
    intros r1 Hr1. by apply term_doc_freq_ok. }
  destruct Hseg as (df & r' & -> & Hr' & Hdf). cbn [mbind res_bind]. destruct Hr' as [Hd' _].
  rewrite (denotes_header _ _ _ Hd').
  destruct (IH fuel _ df Hrest) as (df' & -> & E); [lia|]. exists df'. split; [done|].
  rewrite E, <- u32_add_l, Hdf, u32_add_l. cbn [segments_doc_freq foldr]. fold (segments_doc_freq vs). f_equal. lia.
Qed.

Lemma for_levels_doc_freq : forall levels heads acc,
  Forall2 chain heads levels -> Forall (fun vs => length vs < chain_fuel)%nat levels ->
  u32 acc = acc ->
  for_levels (fun head doc_freq =>
      df ← tp_segment_get_doc_freq segment_open_ex chain_fuel head term;
      Ok (u32 (doc_freq + df))) heads acc = Ok (u32 (acc + segments_doc_freq (concat levels))).
Proof.
  induction levels as [|vs levels IH]; intros heads acc Hch Hf Hacc;
    inversion Hch as [|head ? heads' ? Hc Hch']; subst; cbn [for_levels].
  { by rewrite Z.add_0_r, Hacc. }
  apply Forall_cons in Hf as [Hf1 Hf].
  assert (Happ : segments_doc_freq (concat (vs :: levels)) = segments_doc_freq vs + segments_doc_freq (concat levels)).
  { cbn [concat]. clear. induction vs as [|v vs IH]; [done|]. cbn [app segments_doc_freq foldr].
    fold (segments_doc_freq (vs ++ concat levels)) (segments_doc_freq vs). lia. }
  destruct (Z.eqb_spec head InvalidBlockNumber) as [->|Hne].
  - inversion Hc as [|? r ? ? Hne' Hopen Hr Hroot Hv Hrest]; subst; [|done]. cbn [mbind res_bind]. by rewrite IH.
  - cbn beta. change (tp_segment_get_doc_freq segment_open_ex chain_fuel head term) with
      (chain_loop segment_open_ex chain_fuel false one_segment_doc_freq head 0).
    destruct (segment_doc_freq_loop vs chain_fuel head 0 Hc Hf1) as (df & Edf & E).
    rewrite Edf. cbn [mbind res_bind].
    rewrite IH by (done || apply u32_idemp). f_equal. rewrite u32_add_l.
    replace (acc + df + segments_doc_freq (concat levels)) with (acc + segments_doc_freq (concat levels) + df) by lia.
    rewrite <- u32_add_r, E, u32_add_r, Happ. f_equal. lia.
Qed.
End SegmentShare.

(** ** A single-term query, from the statistics to the results *)

Section Properties.
Context {R : Type} `{SegmentAccessLaws R} `{ItemPointerLaws} `{DsaAllocatorLaws} `{HashSeq} `{QSort}.
Context (segment_open_ex : Z -> bool -> res (option R)) (reader_root_block : R -> Z).
Context (open_ex : Z -> option (Z -> ItemPointerData)) (chain_fuel : nat) (ln : float8 -> float8).

(** The postings of a term that the memtable and the dictionaries count. *)
Definition index_doc_freq (docs : list document) (levels : list (list segment_view)) (term : list byte) : Z :=
  u32 (zlen (postings_of docs (c_str term)) + segments_doc_freq term (concat levels)).

End Properties.

(** ** A witness: the index of BmwQuery's *)

Section Witnesses.
#[local] Existing Instances small_layout small_layout_laws first_fit first_fit_laws.
#[local] Existing Instances max_allocator max_allocator_laws.
#[local] Existing Instances BmwSingle.demo_access BmwSingle.demo_laws.

Definition demo_avgdl : float4 := Eval vm_compute in average_length 8 3.
(** A logarithm that makes every term count alike. *)
Definition demo_ln (x : float8) : float8 := f8_of_Z 1.
Definition demo_idf : float4 := Eval vm_compute in calculate_idf demo_ln 5 3.

Lemma demo_prunable_avg : prunable demo_blocks demo_idf f4_one (f4_of_Z 0) demo_avgdl.
Proof.
  split.
  - intros [|[|k]] sk ps p Hk; cbn in Hk; simplify_eq; rewrite ?elem_of_cons, ?elem_of_nil.
    + intros [->|[->|[]]]; by vm_compute.
    + intros [->|[]]; by vm_compute.
  - unfold all_postings, demo_blocks. cbn. intros p. rewrite !elem_of_cons, elem_of_nil.
    intros [->|[->|[->|[]]]]; by vm_compute.
Qed.

Lemma demo_view_avg : view_ok [x61] demo_idf f4_one (f4_of_Z 0) demo_avgdl 0 demo_view.
Proof.
  split.
  - exact demo_dictionary.
  - intros r Hr. exists (Some (0, UINT32_MAX)), r. split; [done|by split].
  - intros mn mx [|[|i]] de Hr Hi He; simplify_eq/=.
    split; [exact demo_blocks_at|]. split; [exact demo_blocks_sorted|].
    split; [exact demo_cover|]. split; [exact demo_prunable_avg|done].
Qed.

End Witnesses.
