(* ===== verification/Query.v ===== *)
(** * The bm25query type and its operators (types/query.c, types/query.h)

    A [TpQuery] is the struct of query.h: the header fields and the text of the
    query, ended by a NUL.  The first half of the file is the type: construction,
    access, text and binary input and output, equality.  The second half is
    [<@>], which scores one row: it tokenises the document and the query, and
    keeps the IDF of the terms in a cache that lives in [fn_extra] for the
    duration of a statement, so the functions take the cache and return it. *)
From S2P Require Import Prelude Postgres Float4 Fieldnorm SegmentFormat Storage Vector Catalog.
From S2P Require Import SegmentScan Memtable Metapage SortDocs Score.
From Stdlib Require Import SpecFloat.

(** ** The structure *)

Record TpQuery := mkQuery {
  q_vl_len_ : Z;
  q_version : Z;
  q_flags : Z;
  q_index_oid : Z;
  q_query_text_len : Z;
  q_tenant_id : Z;
  q_query_config_oid : Z;
  q_data : list byte;
}.

#[global] Instance TpQuery_eq_dec : EqDecision TpQuery.
Proof. solve_decision. Defined.

Definition TPQUERY_VERSION : Z := 4.
Definition TPQUERY_FLAG_EXPLICIT_INDEX : Z := 1.
Definition offsetof_TpQuery_data : Z := 24.

(** A C string. *)
Definition get_tpquery_text (q : TpQuery) : list byte := c_str (q_data q).
Definition get_tpquery_index_oid (q : TpQuery) : Z := q_index_oid q.
Definition tpquery_has_index (q : TpQuery) : bool := OidIsValid (q_index_oid q).
Definition tpquery_is_explicit_index (q : TpQuery) : bool :=
  if q_version q <? 2 then false else negb (Z.land (q_flags q) TPQUERY_FLAG_EXPLICIT_INDEX =? 0).
Definition get_tpquery_tenant_id (q : TpQuery) : Z := if q_version q <? 3 then 0 else q_tenant_id q.
Definition get_tpquery_config_oid (q : TpQuery) : Z :=
  if q_version q <? 4 then InvalidOid else q_query_config_oid q.

Definition set_tenant_id (q : TpQuery) (tenant_id : Z) : TpQuery :=
  mkQuery (q_vl_len_ q) (q_version q) (q_flags q) (q_index_oid q) (q_query_text_len q) tenant_id
    (q_query_config_oid q) (q_data q).
Definition set_config_oid (q : TpQuery) (config_oid : Z) : TpQuery :=
  mkQuery (q_vl_len_ q) (q_version q) (q_flags q) (q_index_oid q) (q_query_text_len q) (q_tenant_id q)
    config_oid (q_data q).

(** One byte of a message of the server. *)
Class PqByteFormat := {
  pq_int8 : Z -> list byte;                          (** what [pq_sendint8] appends *)
  pq_getmsgbyte : list byte -> res (Z * list byte);
}.
Class PqByteFormatLaws `{PqByteFormat} : Prop :=
  pq_getmsgbyte_int8 n rest : 0 <= n < 256 -> pq_getmsgbyte (pq_int8 n ++ rest) = Ok (n, rest).

Section Type_.
Context `{Palloc} `{Catalog}.
Context (regconfigout : Z -> list byte) (get_ts_config_oid : list (list byte) -> res Z).

(** ** Construction *)

Definition create_tpquery_explicit (query_text : list byte) (index_oid : Z) (explicit_index : bool)
    : res TpQuery :=
  let query_text_len := i32 (strlen query_text) in
  let total_size := i32 (offsetof_TpQuery_data + query_text_len + 1) in
  result ← palloc0 total_size;
  data ← buf_write 0 (c_str query_text ++ [x00]) (drop (Z.to_nat offsetof_TpQuery_data) result);
  mret (mkQuery total_size TPQUERY_VERSION (if explicit_index then TPQUERY_FLAG_EXPLICIT_INDEX else 0)
          index_oid query_text_len 0 InvalidOid data).

Definition create_tpquery (query_text : list byte) (index_oid : Z) : res TpQuery :=
  create_tpquery_explicit query_text index_oid false.

(** [None] is the null pointer. *)
Definition create_tpquery_from_name (query_text : list byte) (index_name : option (list byte)) : res TpQuery :=
  match index_name with
  | Some index_name =>
      index_oid ← tp_resolve_index_name_shared index_name;
      if negb (OidIsValid index_oid) then Err ERRCODE_UNDEFINED_OBJECT
      else create_tpquery_explicit query_text index_oid true
  | None => create_tpquery_explicit query_text InvalidOid false
  end.

Definition create_tpquery_with_tenant (original : TpQuery) (tenant_id : Z) : res TpQuery :=
  _ ← palloc (q_vl_len_ original);
  mret (set_tenant_id original tenant_id).

Definition to_tpquery_text (query_text : list byte) : res TpQuery := create_tpquery query_text InvalidOid.

Definition to_tpquery_text_index (query_text index_name : list byte) : res TpQuery :=
  create_tpquery_from_name query_text (Some index_name).

Definition to_tpquery_text_index_language (query_text index_name language_name : list byte) : res TpQuery :=
  names ← stringToQualifiedNameList language_name;
  config_oid ← get_ts_config_oid names;
  result ← create_tpquery_from_name query_text (Some index_name);
  mret (set_config_oid result config_oid).

(** ** Text *)

Definition tpquery_in (cstring : list byte) : res TpQuery :=
  let str := c_str cstring in
  match strchr str colon with
  | Some colon_pos =>
      if colon_pos =? 0 then create_tpquery str InvalidOid
      else
        _ ← palloc (colon_pos + 1);
        create_tpquery_from_name (drop (Z.to_nat (colon_pos + 1)) str) (Some (sub_list 0 colon_pos str))
  | None => create_tpquery str InvalidOid
  end.

(** [%u] *)
Definition fmt_u (n : Z) : list byte := digits 10 n [].

(** "[oid=", "]" *)
Definition oid_prefix : list byte := [x5b; x6f; x69; x64; x3d].
Definition oid_suffix : list byte := [x5d].

Definition tpquery_out (q : TpQuery) : list byte :=
  if OidIsValid (q_index_oid q) then
    let cfg_oid := get_tpquery_config_oid q in
    match get_rel_name (q_index_oid q) with
    | Some index_name => index_name ++ colon :: get_tpquery_text q
    | None => oid_prefix ++ fmt_u (q_index_oid q) ++ oid_suffix ++ colon :: get_tpquery_text q
    end ++ (if OidIsValid cfg_oid then colon :: regconfigout cfg_oid else [])
  else get_tpquery_text q.

(** ** Binary form *)

Section Binary.
Context `{PqFormat} `{PqByteFormat}.

Definition MAX_RECEIVED_TEXT : Z := 1000000.

(** An [Oid] is an unsigned integer of four bytes. *)
Definition pq_oid (n : Z) : list byte := pq_int32 (i32 n).
Definition pq_getmsgoid (msg : list byte) : res (Z * list byte) :=
  '(n, msg) ← pq_getmsgint msg; mret (u32 n, msg).

Definition tpquery_send (q : TpQuery) : res (list byte) :=
  text ← buf_read 0 (q_query_text_len q) (q_data q);
  mret (pq_int8 TPQUERY_VERSION ++ pq_int8 (q_flags q) ++ pq_oid (q_index_oid q) ++
        pq_int32 (q_query_text_len q) ++ pq_oid (q_tenant_id q) ++ pq_oid (q_query_config_oid q) ++ text).

Definition tpquery_recv (msg : list byte) : res TpQuery :=
  '(version, msg) ← pq_getmsgbyte msg;
  if (version <? 1) || (4 <? version) then Err ERRCODE_DATA_EXCEPTION
  else
    '(flags, msg) ← (if 2 <=? version then pq_getmsgbyte msg else mret (0, msg));
    '(index_oid, msg) ← pq_getmsgoid msg;
    '(query_text_len, msg) ← pq_getmsgint msg;
    '(tenant_id, msg) ← (if 3 <=? version then pq_getmsgoid msg else mret (0, msg));
    '(query_config_oid, msg) ← (if 4 <=? version then pq_getmsgoid msg else mret (InvalidOid, msg));
    if (query_text_len <? 0) || (MAX_RECEIVED_TEXT <? query_text_len) then Err ERRCODE_INVALID_PARAMETER_VALUE
    else
      _ ← palloc (query_text_len + 1);
      '(query_text, _) ← pq_copymsgbytes query_text_len msg;
      let explicit_index := negb (Z.land flags TPQUERY_FLAG_EXPLICIT_INDEX =? 0) in
      result ← create_tpquery_explicit (query_text ++ [x00]) index_oid explicit_index;
      mret (set_config_oid (set_tenant_id result tenant_id) query_config_oid).
End Binary.

(** ** Equality *)

Definition tpquery_eq (a b : TpQuery) : bool :=
  if negb (q_index_oid a =? q_index_oid b) then false
  else if negb (q_query_text_len a =? q_query_text_len b) then false
  else strcmp (get_tpquery_text a) (get_tpquery_text b) =? 0.
End Type_.

(** ** Floats *)

(** A [float4] of a page, from its bits. *)
Definition f4_of_bits (z : Z) : float4 :=
  let s := Z.testbit z 31 in
  let e := Z.land (Z.shiftr z 23) 255 in
  let m := Z.land z (2 ^ 23 - 1) in
  if e =? 255 then (if m =? 0 then S754_infinity s else S754_nan)
  else match (if e =? 0 then m else m + 2 ^ 23) with
       | Zpos p => S754_finite s p (Z.max e 1 - 150)
       | _ => S754_zero s
       end.

(** [(int32)x]: truncation towards zero (C leaves values out of range open). *)
Definition int32_of_f4 (x : float4) : Z :=
  match x with
  | S754_finite s m e =>
      let v := if 0 <=? e then Zpos m * 2 ^ e else Zpos m / 2 ^ (- e) in
      i32 (if s then - v else v)
  | _ => 0
  end.

(** ** The cache of a statement *)

Definition NAMEDATALEN : Z := 64.
Definition MAX_CACHED_TERMS : Z := 64.

Record TermIdfEntry := mkTermIdf { te_term : list byte; te_doc_freq : Z; te_idf : float4 }.

(** [qc_terms] is the part of the array that has been filled. *)
Record QueryScoreCache := mkScoreCache {
  qc_index_oid : Z;
  qc_first_segment : Z;
  qc_total_docs : Z;
  qc_avg_doc_len : float4;
  qc_num_terms : Z;
  qc_terms : list TermIdfEntry;
}.

(** [i] is [num_terms - n]. *)
Fixpoint lookup_from (n : nat) (i : Z) (terms : list TermIdfEntry) (term : list byte) : res float4 :=
  match n with
  | O => Ok (f4_of_Z (-1))
  | S n =>
      e ← zread terms i;
      if strcmp (te_term e) term =? 0 then Ok (te_idf e) else lookup_from n (i + 1) terms term
  end.

Definition lookup_cached_idf (cache : QueryScoreCache) (term : list byte) : res float4 :=
  lookup_from (Z.to_nat (qc_num_terms cache)) 0 (qc_terms cache) term.

Definition set_terms (cache : QueryScoreCache) (n : Z) (terms : list TermIdfEntry) : QueryScoreCache :=
  mkScoreCache (qc_index_oid cache) (qc_first_segment cache) (qc_total_docs cache) (qc_avg_doc_len cache) n terms.

(** [strlcpy] keeps at most [NAMEDATALEN - 1] bytes. *)
Definition cache_term_idf (cache : QueryScoreCache) (term : list byte) (doc_freq : Z) (idf : float4)
    : QueryScoreCache :=
  if MAX_CACHED_TERMS <=? qc_num_terms cache then
    if qc_num_terms cache =? MAX_CACHED_TERMS
    then set_terms cache (qc_num_terms cache + 1) (qc_terms cache)
    else cache
  else
    set_terms cache (qc_num_terms cache + 1)
      (qc_terms cache ++ [mkTermIdf (take (Z.to_nat (NAMEDATALEN - 1)) (c_str term)) doc_freq idf]).

Definition cache_is_valid (cache : option QueryScoreCache) (index_oid first_segment total_docs : Z) : bool :=
  match cache with
  | None => false
  | Some cache =>
      (qc_index_oid cache =? index_oid) && (qc_first_segment cache =? first_segment) &&
      (qc_total_docs cache =? total_docs)
  end.

(** ** Scoring a row *)

(** [POSDATALEN], or 1 for an entry without positions. *)
Definition term_frequency (we : list byte * option Z) : Z := default 1 we.2.

Definition calculate_doc_length (tsvector : TSVector) : float4 :=
  foldl (fun doc_length we => f4_add doc_length (f4_of_Z (term_frequency we))) (f4_of_Z 0) tsvector.

Fixpoint find_term_frequency (tsvector : TSVector) (query_lexeme : list byte) : float4 :=
  match tsvector with
  | [] => f4_of_Z 0
  | we :: rest =>
      if bool_decide (we.1 = query_lexeme) then f4_of_Z (term_frequency we)
      else find_term_frequency rest query_lexeme
  end.

Definition calculate_term_score (tf idf doc_length avg_doc_len k1 b : float4) (query_freq : Z) : float4 :=
  let one := f8_of_Z 1 in
  let numerator_d := f8_mul (f8_of_f4 tf) (f8_add (f8_of_f4 k1) one) in
  let denominator_d :=
    if f4_gt avg_doc_len (f4_of_Z 0) then
      f8_add (f8_of_f4 tf) (f8_mul (f8_of_f4 k1)
        (f8_add (f8_sub one (f8_of_f4 b))
           (f8_mul (f8_of_f4 b) (f8_div (f8_of_f4 doc_length) (f8_of_f4 avg_doc_len)))))
    else f8_add (f8_of_f4 tf) (f8_of_f4 k1) in
  f4_of_f8 (f8_mul (f8_mul (f8_of_f4 idf) (f8_div numerator_d denominator_d)) (f8_of_Z query_freq)).

(** What a query is scored against: an index that was opened, its metapage, the
    state of an index, and the configuration documents are tokenised with. *)
Record Corpus := mkCorpus {
  co_index_rel : Z;
  co_metap : TpIndexMetaPageData;
  co_state : TpLocalIndexState;
  co_text_config_oid : Z;
}.

Definition co_first_segment (c : Corpus) : Z := default InvalidBlockNumber (head (mp_level_heads (co_metap c))).
Definition co_total_docs (c : Corpus) : Z := total_docs (co_state c).
Definition co_avg_doc_len (c : Corpus) : float4 :=
  if 0 <? co_total_docs c then average_length (total_len (co_state c)) (co_total_docs c) else f4_of_Z 0.

Section Operator.
Context {R : Type} `{SegmentAccess R} `{ItemPointerOps} `{DsaAllocator} `{HashSeq} `{Catalog}.
(** [tp_segment_open_ex] on an index, the bound on the length of a chain, the C
    library's logarithm, the text search parser and the Oid of [english]. *)
Context (segment_open_ex : Z -> Z -> bool -> res (option R)) (chain_fuel : nat).
Context (ln : float8 -> float8) (to_tsvector_byid : Z -> list byte -> TSVector) (english : res Z).
(** [index_open] and [tp_get_metapage]; [tp_get_local_index_state]. *)
Context (index_metapage : Z -> res TpIndexMetaPageData) (local_index_state : Z -> option TpLocalIndexState).

(** [unified_doc_freq] *)
Definition operator_doc_freq (c : Corpus) (term : list byte) : res Z :=
  '(memtable_df, _) ← memtable_doc_freq term (co_state c);
  segment_df ← for_levels (fun head segment_df =>
      df ← tp_segment_get_doc_freq (segment_open_ex (co_index_rel c)) chain_fuel head term;
      Ok (u32 (segment_df + df))) (mp_level_heads (co_metap c)) 0;
  Ok (u32 (memtable_df + segment_df)).

(** The IDF of a term, from the cache or computed and cached; [None] when no document has it. *)
Definition cached_idf (c : Corpus) (cache : QueryScoreCache) (query_lexeme : list byte)
    : res (option float4 * QueryScoreCache) :=
  idf ← lookup_cached_idf cache query_lexeme;
  if f4_lt idf (f4_of_Z 0) then
    unified_doc_freq ← operator_doc_freq c query_lexeme;
    if unified_doc_freq =? 0 then Ok (None, cache)
    else
      let idf := tp_calculate_idf ln unified_doc_freq (co_total_docs c) in
      Ok (Some idf, cache_term_idf cache query_lexeme unified_doc_freq idf)
  else Ok (Some idf, cache).

(** The loop over the terms of the query. *)
Fixpoint score_query_terms (c : Corpus) (tsvector : TSVector) (doc_length : float4) (query : TSVector)
    (cache : QueryScoreCache) (result : float8) : res (float8 * QueryScoreCache) :=
  match query with
  | [] => Ok (result, cache)
  | we :: rest =>
      let tf := find_term_frequency tsvector we.1 in
      if f4_eq tf (f4_of_Z 0) then score_query_terms c tsvector doc_length rest cache result
      else
        '(idf, cache) ← cached_idf c cache we.1;
        score_query_terms c tsvector doc_length rest cache
          (match idf with
           | None => result
           | Some idf =>
               f8_add result (f8_of_f4 (calculate_term_score tf idf doc_length (co_avg_doc_len c)
                 (f4_of_bits (mp_k1 (co_metap c))) (f4_of_bits (mp_b (co_metap c))) (term_frequency we)))
           end)
  end.

(** From the cache in [fn_extra] on; ascending order puts the best score first. *)
Definition score_row (index_oid : Z) (c : Corpus) (tsvector query : TSVector) (fn_extra : option QueryScoreCache)
    : res (float8 * QueryScoreCache) :=
  let cache :=
    match fn_extra with
    | Some cache =>
        if cache_is_valid fn_extra index_oid (co_first_segment c) (co_total_docs c) then cache
        else mkScoreCache index_oid (co_first_segment c) (co_total_docs c) (co_avg_doc_len c) 0 []
    | None => mkScoreCache index_oid (co_first_segment c) (co_total_docs c) (co_avg_doc_len c) 0 []
    end in
  let doc_length := f4_of_Z (decode_fieldnorm (encode_fieldnorm (u32 (int32_of_f4 (calculate_doc_length tsvector))))) in
  '(result, cache) ← score_query_terms c tsvector doc_length query cache (f8_of_Z 0);
  Ok (if f4_gt result (f8_of_Z 0) then SFopp result else result, cache).

(** The index that is opened, and the index of the query. *)
Definition validate_and_open_index (query : TpQuery) : res (Z * Z) :=
  let index_oid := get_tpquery_index_oid query in
  if negb (OidIsValid index_oid) then Err ERRCODE_INVALID_PARAMETER_VALUE
  else if Byte.eqb (get_rel_relkind index_oid) RELKIND_PARTITIONED_INDEX then
    let child_index_oid := find_first_child_index index_oid in
    if negb (OidIsValid child_index_oid) then Err ERRCODE_OBJECT_NOT_IN_PREREQUISITE_STATE
    else Ok (child_index_oid, index_oid)
  else Ok (index_oid, index_oid).

Definition indexed_attribute (index_oid : Z) : Z :=
  match pg_index index_oid with
  | Some idx => if 1 <=? indnatts idx then first_attnum idx else 0
  | None => 0
  end.

(** The corpus of [text <@> bm25query]: of the first partition of a partitioned
    index, and of a child's index when the index itself is empty. *)
Definition text_corpus (query : TpQuery) : res (Z * Corpus) :=
  '(index_rel, index_oid) ← validate_and_open_index query;
  metap ← index_metapage index_rel;
  let config := mp_text_config_oid metap in
  if Byte.eqb (get_rel_relkind index_oid) RELKIND_PARTITIONED_INDEX then
    match local_index_state index_rel with
    | None => Err ERRCODE_INTERNAL_ERROR
    | Some state => Ok (index_oid, mkCorpus index_rel metap state config)
    end
  else
    match local_index_state index_oid with
    | None => Err ERRCODE_INTERNAL_ERROR
    | Some state =>
        let indexed_attnum := indexed_attribute index_oid in
        let parent := Ok (index_oid, mkCorpus index_rel metap state config) in
        if (total_docs state =? 0) && negb (indexed_attnum =? 0) then
          let first_child_idx := find_first_child_bm25_index index_oid indexed_attnum in
          if OidIsValid first_child_idx then
            match local_index_state first_child_idx with
            | None => parent
            | Some child_state =>
                child_metap ← index_metapage first_child_idx;
                Ok (index_oid, mkCorpus first_child_idx child_metap child_state config)
            end
          else parent
        else parent
    end.

Definition bm25_text_bm25query_score (text_arg : list byte) (query : TpQuery) (fn_extra : option QueryScoreCache)
    : res (float8 * QueryScoreCache) :=
  '(index_oid, c) ← text_corpus query;
  let query_cfg := get_tpquery_config_oid query in
  let query_text_config := if OidIsValid query_cfg then query_cfg else co_text_config_oid c in
  score_row index_oid c (to_tsvector_byid (co_text_config_oid c) text_arg)
    (to_tsvector_byid query_text_config (get_tpquery_text query)) fn_extra.

Definition tsvector_corpus (query : TpQuery) : res (Z * Corpus) :=
  '(index_rel, index_oid) ← validate_and_open_index query;
  metap ← index_metapage index_rel;
  match local_index_state index_rel with
  | None => Err ERRCODE_INTERNAL_ERROR
  | Some state => Ok (index_oid, mkCorpus index_rel metap state (mp_text_config_oid metap))
  end.

Definition bm25_tsvector_bm25query_score (tsvector : TSVector) (query : TpQuery)
    (fn_extra : option QueryScoreCache) : res (float8 * QueryScoreCache) :=
  '(index_oid, c) ← tsvector_corpus query;
  let query_cfg := get_tpquery_config_oid query in
  query_text_config ← (if OidIsValid query_cfg then Ok query_cfg
                       else if OidIsValid (co_text_config_oid c) then Ok (co_text_config_oid c)
                       else english);
  score_row index_oid c tsvector (to_tsvector_byid query_text_config (get_tpquery_text query)) fn_extra.
End Operator.

(** Never called: the planner replaces the operator. *)
Definition bm25_text_text_score : res float8 := Err ERRCODE_UNDEFINED_OBJECT.
