(* ===== verification/QueryFacts.v ===== *)
(** * Facts about the bm25query type and its operators (Query)

    A query is built from its text, an index and options; what the constructors
    build is sent and received unchanged up to a megabyte, and prints as a text that
    reads back when nothing but the index is to be told.  The operators compute
    the same scores whether or not a term is in the cache of the statement, as
    long as the terms fit into it. *)
From S2P Require Import Prelude Postgres Float4 Fieldnorm SegmentFormat Storage Vector VectorFacts.
From S2P Require Import Catalog CatalogFacts SegmentIO SegmentScan ScanFacts Memtable MemtableFacts.
From S2P Require Import SegmentWrite SegmentRoundtrip BmwSingle Metapage SortDocs Score Query.
From Stdlib Require Import SpecFloat.

(** ** The type *)

(** What [create_tpquery_explicit] makes. *)
Definition made (text : list byte) (index_oid : Z) (explicit_index : bool) : TpQuery :=
  mkQuery (25 + zlen text) TPQUERY_VERSION (if explicit_index then TPQUERY_FLAG_EXPLICIT_INDEX else 0)
    index_oid (zlen text) 0 InvalidOid (text ++ [x00]).

Definition with_options (q : TpQuery) (tenant_id config_oid : Z) : TpQuery :=
  set_config_oid (set_tenant_id q tenant_id) config_oid.

Definition text_fits (text : list byte) : Prop := x00 ∉ text /\ zlen text <= MaxAllocSize - 25.

Definition oid_range (n : Z) : Prop := 0 <= n < 2 ^ 32.

Lemma get_made_text text oid e : x00 ∉ text -> get_tpquery_text (made text oid e) = text.
Proof. apply c_str_terminated. Qed.

Lemma oid_wraps n : oid_range n -> u32 (i32 n) = n.
Proof. intros Hn. unfold oid_range in Hn. unfold swrap, wrap. rewrite Zminus_mod_idemp_l.
  replace (n + 2 ^ (32 - 1) - 2 ^ (32 - 1)) with n by lia. by apply Z.mod_small. Qed.

Section Type_.
Context `{PallocLaws} `{Catalog}.

Lemma create_tpquery_ok cstr text oid e : c_str cstr = text -> text_fits text ->
  create_tpquery_explicit cstr oid e = Ok (made text oid e).
Proof.
  intros Ht [Hz Hl]. unfold create_tpquery_explicit, strlen. rewrite Ht.
  pose proof (zlen_nonneg text). unfold MaxAllocSize, offsetof_TpQuery_data in *.
  rewrite (swrap_small 32 (zlen text)), (swrap_small 32 (24 + zlen text + 1)) by lia.
  unfold palloc0. rewrite (proj2 (palloc_ok_iff _)) by (unfold MaxAllocSize; lia). cbn [mbind res_bind].
  rewrite drop_replicate.
  replace (Z.to_nat (24 + zlen text + 1) - Z.to_nat 24)%nat with (Z.to_nat (zlen text + 1)) by lia.
  change (replicate _ x00) with (zeros (zlen text + 1)). change (buf_write 0) with (buf_write TPVECTOR_INDEX_NAME_PTR).
  rewrite buf_write_start by (rewrite zlen_app, zlen_cons, zlen_nil; lia).
  cbn [mbind res_bind mret res_ret].
  assert (El : zlen (text ++ [x00]) = zlen text + 1) by apply zlen_app. rewrite El, Z.sub_diag.
  change (zeros 0) with (@nil byte).
  unfold made. rewrite app_nil_r. do 2 f_equal; lia.
Qed.

Section Binary.
Context `{PqFormatLaws} `{PqByteFormatLaws}.

Lemma getmsgoid n rest : oid_range n -> pq_getmsgoid (pq_oid n ++ rest) = Ok (n, rest).
Proof.
  intros Hn. unfold pq_getmsgoid, pq_oid. rewrite pq_getmsgint_int32 by apply i32_range.
  cbn [mbind res_bind mret res_ret]. by rewrite oid_wraps.
Qed.

Lemma send_made text oid e tenant cfg :
  tpquery_send (with_options (made text oid e) tenant cfg) =
    Ok (pq_int8 TPQUERY_VERSION ++ pq_int8 (if e then TPQUERY_FLAG_EXPLICIT_INDEX else 0) ++ pq_oid oid ++
        pq_int32 (zlen text) ++ pq_oid tenant ++ pq_oid cfg ++ text).
Proof.
  unfold tpquery_send. cbn [with_options set_config_oid set_tenant_id made q_query_text_len q_data].
  rewrite (buf_read_middle [] text [x00] : buf_read 0 (zlen text) (text ++ [x00]) = Ok text). done.
Qed.

Lemma recv_sent text oid e tenant cfg msg rest : text_fits text ->
  oid_range oid -> oid_range tenant -> oid_range cfg ->
  tpquery_send (with_options (made text oid e) tenant cfg) = Ok msg ->
  tpquery_recv (msg ++ rest) =
    if zlen text <=? MAX_RECEIVED_TEXT then Ok (with_options (made text oid e) tenant cfg)
    else Err ERRCODE_INVALID_PARAMETER_VALUE.
Proof.
  intros [Hz Hl] Ho Ht Hc Em. rewrite send_made in Em. injection Em as <-.
  unfold tpquery_recv. rewrite <- !app_assoc. pose proof (zlen_nonneg text). unfold MaxAllocSize in Hl.
  rewrite pq_getmsgbyte_int8 by done. cbn [mbind res_bind TPQUERY_VERSION Z.ltb Z.leb Z.compare Pos.compare Pos.compare_cont orb].
  rewrite pq_getmsgbyte_int8 by (destruct e; done). cbn [mbind res_bind].
  rewrite getmsgoid by done. cbn [mbind res_bind]. rewrite pq_getmsgint_int32 by lia. cbn [mbind res_bind].
  rewrite getmsgoid by done. cbn [mbind res_bind]. rewrite getmsgoid by done. cbn [mbind res_bind].
  rewrite (proj2 (Z.ltb_ge (zlen text) 0)) by lia. cbn [orb].
  rewrite Z.ltb_antisym. destruct (Z.leb_spec (zlen text) MAX_RECEIVED_TEXT) as [Hm|Hm]; cbn [negb]; [|done].
  unfold palloc, MAX_RECEIVED_TEXT in *. rewrite (proj2 (palloc_ok_iff _)) by (unfold MaxAllocSize; lia).
  cbn [mbind res_bind]. rewrite pq_copymsgbytes_ok. cbn [mbind res_bind].
  rewrite (create_tpquery_ok _ text); [|by apply c_str_terminated|split; [done|unfold MaxAllocSize; lia]].
  by destruct e.
Qed.
End Binary.

Lemma identifier_no_colon name : plain_identifier name = true -> colon ∉ name.
Proof.
  unfold plain_identifier. rewrite !andb_true_iff, forallb_forall. intros [_ Hb] Hin.
  apply list_elem_of_In, Hb in Hin. done.
Qed.

(** The index is told, an override of the language is taken for text. *)
Lemma read_printed `{!CatalogLaws} regconfigout text oid e name tenant cfg :
  text_fits (text ++ if OidIsValid cfg then colon :: regconfigout cfg else []) ->
  get_rel_name oid = Some name -> RelationIsVisible oid = true -> plain_identifier name = true ->
  OidIsValid oid = true ->
  tpquery_in (tpquery_out regconfigout (with_options (made text oid e) tenant cfg)) =
    Ok (made (text ++ if OidIsValid cfg then colon :: regconfigout cfg else []) oid true).
Proof.
  intros Hf Hn Hv Hp Ho. set (shown := text ++ _) in *.
  destruct (identifier_no_nul _ Hp) as [Hz Hne].
  assert (Hzt : x00 ∉ text) by (intros ?; destruct Hf as [[] _]; apply elem_of_app; by left).
  unfold tpquery_out, get_tpquery_text, get_tpquery_config_oid.
  cbn [with_options set_config_oid set_tenant_id made q_index_oid q_data q_version q_query_config_oid].
  rewrite Ho, Hn.
  rewrite c_str_terminated by done.
  change (TPQUERY_VERSION <? 4) with false. cbv iota. rewrite <- app_assoc. cbn [app]. fold shown.
  unfold tpquery_in. rewrite c_str_id.
  2:{ intros [?|[?|?]%elem_of_cons]%elem_of_app; [done..|]. by destruct Hf. }
  rewrite strchr_app by by apply identifier_no_colon.
  assert (Hl : 1 <= zlen name <= 63).
  { unfold plain_identifier in Hp. rewrite !andb_true_iff in Hp. lia. }
  rewrite (proj2 (Z.eqb_neq (zlen name) 0)) by lia.
  rewrite palloc_small by (unfold MaxAllocSize; lia). cbn [mbind res_bind].
  replace (drop _ _) with shown.
  2:{ replace (Z.to_nat (zlen name + 1)) with (length name + 1)%nat by (unfold zlen; lia).
      rewrite <- drop_drop. by rewrite drop_app_length. }
  rewrite sub_list_app_l, sub_list_0_all by lia.
  unfold create_tpquery_from_name, tp_resolve_index_name_shared.
  rewrite (proj2 (strchr_none name dot)) by by apply identifier_no_dot. cbn [mbind res_bind].
  rewrite (RelnameGetRelid_visible oid name) by done. rewrite Ho. cbn [negb].
  apply create_tpquery_ok; [by apply c_str_id; destruct Hf|done].
Qed.

Lemma read_printed_no_index regconfigout text e : text_fits text -> colon ∉ text \/ head text = Some colon ->
  tpquery_in (tpquery_out regconfigout (made text InvalidOid e)) = Ok (made text InvalidOid false).
Proof.
  intros Hf Hc. unfold tpquery_out. cbn [made q_index_oid]. change (OidIsValid InvalidOid) with false. cbv iota.
  rewrite get_made_text by by destruct Hf. unfold tpquery_in. rewrite c_str_id by by destruct Hf.
  assert (E : match strchr text colon with Some p => p = 0 | None => True end).
  { destruct Hc as [Hc|Hc]; [by rewrite (proj2 (strchr_none text colon))|]. destruct text; [done|].
    cbn in Hc. injection Hc as ->. done. }
  destruct (strchr text colon) as [p|]; [subst p; cbn [Z.eqb]|];
    (apply create_tpquery_ok; [by apply c_str_id; destruct Hf|done]).
Qed.

Lemma tpquery_eq_made t1 o1 e1 n1 c1 t2 o2 e2 n2 c2 : x00 ∉ t1 -> x00 ∉ t2 ->
  tpquery_eq (with_options (made t1 o1 e1) n1 c1) (with_options (made t2 o2 e2) n2 c2) =
    bool_decide (o1 = o2 /\ t1 = t2).
Proof.
  intros H1' H2'. unfold tpquery_eq, strcmp, get_tpquery_text.
  cbn [with_options set_config_oid set_tenant_id made q_index_oid q_query_text_len q_data].
  rewrite !c_str_terminated by done. rewrite !(c_str_id _ H1'), !(c_str_id _ H2').
  destruct (Z.eqb_spec o1 o2) as [->|Ho]; cbn [negb]; [|rewrite bool_decide_eq_false_2; [done|tauto]].
  destruct (Z.eqb_spec (zlen t1) (zlen t2)) as [El|El]; cbn [negb].
  - case_bool_decide as E.
    + destruct E as [_ ->]. apply Z.eqb_eq. by apply bytes_compare_eq.
    + apply Z.eqb_neq. rewrite bytes_compare_eq. tauto.
  - rewrite bool_decide_eq_false_2; [done|]. intros [_ ->]. done.
Qed.
End Type_.

(** ** The operators *)

Section Operator.
Context {R : Type} `{SegmentAccess R} `{ItemPointerOps} `{DsaAllocator} `{HashSeq} `{Catalog}.
Context (segment_open_ex : Z -> Z -> bool -> res (option R)) (chain_fuel : nat).
Context (ln : float8 -> float8).

(** *** Frequencies: those of an index scan *)

Lemma for_levels_sum (g : Z -> res Z) heads : forall x s,
  for_levels (fun head acc => df ← g head; Ok (u32 (acc + df))) heads (u32 (x + s)) =
  (fun s => u32 (x + s)) <$> for_levels (fun head acc => df ← g head; Ok (u32 (acc + df))) heads s.
Proof.
  induction heads as [|head heads IH]; intros x s; cbn [for_levels]; [done|].
  destruct (head =? InvalidBlockNumber); cbn [mbind res_bind]; [apply IH|].
  destruct (g head) as [df|e]; cbn [mbind res_bind]; [|done].
  rewrite <- IH. f_equal. unfold wrap. rewrite Zplus_mod_idemp_l, Zplus_mod_idemp_r. f_equal. lia.
Qed.

Lemma memtable_doc_freq_u32 term state df state' :
  memtable_doc_freq term state = Ok (df, state') -> u32 df = df.
Proof.
  unfold memtable_doc_freq, mbind, rst_bind. destruct (tp_get_posting_list term state) as [[pl st]|]; [|done].
  unfold mret, rst_ret. intros [= <- _]. destruct pl as [[p pl]|]; [|done].
  destruct (0 <? pl_doc_count pl); [|done]. unfold wrap. apply Zmod_mod.
Qed.

Lemma operator_doc_freq_unified c term :
  operator_doc_freq segment_open_ex chain_fuel c term =
    tp_get_unified_doc_freq (segment_open_ex (co_index_rel c)) chain_fuel (co_state c) term
      (mp_level_heads (co_metap c)).
Proof.
  unfold operator_doc_freq, tp_get_unified_doc_freq.
  destruct (memtable_doc_freq term (co_state c)) as [[df state]|] eqn:Em; cbn [mbind res_bind]; [|done].
  pose proof (for_levels_sum (fun head => tp_segment_get_doc_freq (segment_open_ex (co_index_rel c)) chain_fuel head term)
    (mp_level_heads (co_metap c)) df 0) as E.
  rewrite Z.add_0_r, (memtable_doc_freq_u32 _ _ _ _ Em) in E. rewrite E.
  by destruct (for_levels _ _ 0).
Qed.

(** *** Scores without a cache *)

Definition term_idf (c : Corpus) (term : list byte) : res (option float4) :=
  df ← tp_get_unified_doc_freq (segment_open_ex (co_index_rel c)) chain_fuel (co_state c) term
         (mp_level_heads (co_metap c));
  Ok (if df =? 0 then None else Some (tp_calculate_idf ln df (co_total_docs c))).

Definition add_term_score (c : Corpus) (tf doc_length : float4) (query_freq : Z) (result : float8) (idf : float4) : float8 :=
  f8_add result (f8_of_f4 (calculate_term_score tf idf doc_length (co_avg_doc_len c)
    (f4_of_bits (mp_k1 (co_metap c))) (f4_of_bits (mp_b (co_metap c))) query_freq)).

(** The sum over the terms of the query the document has. *)
Fixpoint row_sum (c : Corpus) (tsvector : TSVector) (doc_length : float4) (query : TSVector) (result : float8) : res float8 :=
  match query with
  | [] => Ok result
  | we :: rest =>
      let tf := find_term_frequency tsvector we.1 in
      if f4_eq tf (f4_of_Z 0) then row_sum c tsvector doc_length rest result
      else
        idf ← term_idf c we.1;
        row_sum c tsvector doc_length rest
          (match idf with
           | None => result
           | Some idf => add_term_score c tf doc_length (term_frequency we) result idf
           end)
  end.

Definition negate (result : float8) : float8 := if f4_gt result (f8_of_Z 0) then SFopp result else result.

Definition quantised_length (tsvector : TSVector) : float4 :=
  f4_of_Z (decode_fieldnorm (encode_fieldnorm (u32 (int32_of_f4 (calculate_doc_length tsvector))))).

Definition row_score (c : Corpus) (query tsvector : TSVector) : res float8 :=
  negate <$> row_sum c tsvector (quantised_length tsvector) query (f8_of_Z 0).

(** A statement: one row after the other, with the cache in [fn_extra]. *)
Fixpoint statement {A} (score : A -> option QueryScoreCache -> res (float8 * QueryScoreCache))
    (rows : list A) (fn_extra : option QueryScoreCache) : res (list float8) :=
  match rows with
  | [] => Ok []
  | row :: rows =>
      '(result, cache) ← score row fn_extra;
      results ← statement score rows (Some cache);
      Ok (result :: results)
  end.

(** *** The cache *)

Lemma zread_middle {A} (a b : list A) x : zread (a ++ x :: b) (zlen a) = Ok x.
Proof.
  unfold zread. rewrite zget_lookup by apply zlen_nonneg. unfold zlen. by rewrite Nat2Z.id, list_lookup_middle.
Qed.

(** A lexeme that [strlcpy] does not cut. *)
Definition short_lexeme (t : list byte) : Prop := x00 ∉ t /\ zlen t < NAMEDATALEN.

Definition idf_not_negative (c : Corpus) (t : list byte) : Prop :=
  forall idf, term_idf c t = Ok (Some idf) -> f4_lt idf (f4_of_Z 0) = false.

(** The entries are those of different terms of the query, with their IDF. *)
Record cache_holds (c : Corpus) (lexemes : list (list byte)) (cache : QueryScoreCache) : Prop := mkCacheHolds {
  ch_count : qc_num_terms cache = zlen (qc_terms cache);
  ch_distinct : NoDup (te_term <$> qc_terms cache);
  ch_terms : Forall (fun e => te_term e ∈ lexemes /\ term_idf c (te_term e) = Ok (Some (te_idf e))) (qc_terms cache);
}.

Definition header_of (index_oid : Z) (c : Corpus) (cache : QueryScoreCache) : Prop :=
  cache_is_valid (Some cache) index_oid (co_first_segment c) (co_total_docs c) = true.

Lemma strcmp_short a b : short_lexeme a -> short_lexeme b -> (strcmp a b =? 0) = bool_decide (a = b).
Proof.
  intros [Ha _] [Hb _]. unfold strcmp. rewrite !c_str_id by done.
  case_bool_decide as E; [apply Z.eqb_eq|apply Z.eqb_neq]; by rewrite bytes_compare_eq.
Qed.

Lemma take_short t : short_lexeme t -> take (Z.to_nat (NAMEDATALEN - 1)) (c_str t) = t.
Proof. intros [Ht Hl]. rewrite c_str_id by done. apply take_ge. unfold zlen, NAMEDATALEN in *. lia. Qed.

Lemma lookup_from_spec term terms : forall pre, short_lexeme term -> Forall (fun e => short_lexeme (te_term e)) terms ->
  lookup_from (length terms) (zlen pre) (pre ++ terms) term =
    match list_find (fun e => te_term e = term) terms with
    | Some (_, e) => Ok (te_idf e)
    | None => Ok (f4_of_Z (-1))
    end.
Proof.
  induction terms as [|e terms IH]; intros pre Ht Hs; [done|].
  apply Forall_cons in Hs as [He Hs]. cbn [length lookup_from].
  rewrite (zread_middle pre terms e). cbn [mbind res_bind list_find].
  rewrite strcmp_short by done. case_bool_decide as E.
  - by rewrite decide_True.
  - rewrite decide_False by done. specialize (IH (pre ++ [e]) Ht Hs).
    rewrite zlen_app, <- app_assoc in IH. cbn [app] in IH. change (zlen [e]) with 1 in IH. rewrite IH.
    by destruct (list_find _ terms) as [[? ?]|].
Qed.

Context (c : Corpus) (query : TSVector).
Hypothesis (Hdistinct : NoDup query.*1) (Hshort : Forall short_lexeme query.*1).
Hypothesis (Hidf : Forall (idf_not_negative c) query.*1).

Lemma minus_one_negative : f4_lt (f4_of_Z (-1)) (f4_of_Z 0) = true.
Proof. by vm_compute. Qed.

Lemma lookup_holds cache term : cache_holds c query.*1 cache -> term ∈ query.*1 ->
  (exists e, e ∈ qc_terms cache /\ te_term e = term /\ lookup_cached_idf cache term = Ok (te_idf e)) \/
  (term ∉ te_term <$> qc_terms cache /\ lookup_cached_idf cache term = Ok (f4_of_Z (-1))).
Proof.
  intros [Hn Hd Ht] Hin.
  assert (Hs : Forall (fun e => short_lexeme (te_term e)) (qc_terms cache)).
  { eapply Forall_impl; [exact Ht|]. cbn. intros e [He _]. rewrite Forall_forall in Hshort. by apply Hshort. }
  assert (Hst : short_lexeme term) by (rewrite Forall_forall in Hshort; by apply Hshort).
  pose proof (lookup_from_spec term (qc_terms cache) [] Hst Hs) as El. cbn [app] in El.
  unfold lookup_cached_idf. rewrite Hn. unfold zlen. rewrite Nat2Z.id. rewrite zlen_nil in El. rewrite El. clear El.
  destruct (list_find _ _) as [[i e]|] eqn:E.
  - apply list_find_Some in E as (Hl & He & _). left. exists e. by split; [apply list_elem_of_lookup_2 in Hl|].
  - right. split; [|done]. apply list_find_None in E. intros (e & -> & He)%list_elem_of_fmap.
    rewrite Forall_forall in E. by apply (E e).
Qed.

(** A cached IDF is the computed one, and a new one finds a place. *)
Lemma cached_idf_ok index_oid cache term : zlen query <= MAX_CACHED_TERMS -> term ∈ query.*1 ->
  cache_holds c query.*1 cache -> header_of index_oid c cache ->
  match term_idf c term with
  | Ok idf => exists cache', cached_idf segment_open_ex chain_fuel ln c cache term = Ok (idf, cache') /\
                cache_holds c query.*1 cache' /\ header_of index_oid c cache'
  | Err e => cached_idf segment_open_ex chain_fuel ln c cache term = Err e
  end.
Proof.
  intros Hlen Hin Hc Hh. rewrite Forall_forall in Hidf. unfold cached_idf.
  destruct (lookup_holds cache term Hc Hin) as [(e & He & <- & ->)|[Hnew ->]]; cbn [mbind res_bind].
  - pose proof (ch_terms _ _ _ Hc) as Ht. rewrite Forall_forall in Ht. destruct (Ht e He) as [_ Ei]. rewrite Ei.
    rewrite (Hidf _ Hin _ Ei). by exists cache.
  - rewrite minus_one_negative, operator_doc_freq_unified. unfold term_idf.
    destruct (tp_get_unified_doc_freq _ _ _ _ _) as [df|e] eqn:Edf; cbn [mbind res_bind]; [|done].
    destruct (Z.eqb_spec df 0) as [Ez|Ez]; [by exists cache|].
    assert (Hi : term_idf c term = Ok (Some (tp_calculate_idf ln df (co_total_docs c)))).
    { unfold term_idf. rewrite Edf. cbn [mbind res_bind]. by rewrite (proj2 (Z.eqb_neq df 0)). }
    eexists. split; [done|]. destruct Hc as [Hn Hd Ht].
    assert (Hroom : zlen (qc_terms cache) < zlen query).
    { assert (Hs : NoDup (term :: (te_term <$> qc_terms cache))) by by constructor.
      assert (Hsub : term :: (te_term <$> qc_terms cache) ⊆ query.*1).
      { intros t [->|(e & -> & He)%list_elem_of_fmap]%elem_of_cons; [done|].
        rewrite Forall_forall in Ht. by apply Ht. }
      pose proof (submseteq_length _ _ (NoDup_submseteq _ _ Hs Hsub)) as Hl.
      cbn [length] in Hl. rewrite !length_fmap in Hl. unfold zlen. lia. }
    unfold cache_term_idf. rewrite (proj2 (Z.leb_gt _ _)) by lia.
    assert (Hst : short_lexeme term) by (rewrite Forall_forall in Hshort; by apply Hshort).
    rewrite take_short by done. split; [split|done]; cbn [set_terms qc_num_terms qc_terms].
    + rewrite zlen_app. change (zlen [_]) with 1. lia.
    + rewrite fmap_app. apply NoDup_app. split; [done|]. split; [|apply NoDup_singleton].
      intros t Ht' ->%list_elem_of_singleton. done.
    + apply Forall_app. split; [done|]. by apply Forall_singleton.
Qed.

Lemma score_query_terms_ok index_oid tsvector doc_length terms : zlen query <= MAX_CACHED_TERMS ->
  terms.*1 ⊆ query.*1 -> forall cache result, cache_holds c query.*1 cache -> header_of index_oid c cache ->
  match row_sum c tsvector doc_length terms result with
  | Ok sum => exists cache', score_query_terms segment_open_ex chain_fuel ln c tsvector doc_length terms cache result =
                               Ok (sum, cache') /\ cache_holds c query.*1 cache' /\ header_of index_oid c cache'
  | Err e => score_query_terms segment_open_ex chain_fuel ln c tsvector doc_length terms cache result = Err e
  end.
Proof.
  intros Hlen. induction terms as [|we terms IH]; intros Hsub cache result Hc Hh; cbn [row_sum score_query_terms];
    [by exists cache|].
  assert (Hin : we.1 ∈ query.*1) by (apply Hsub; left).
  assert (Hrest : terms.*1 ⊆ query.*1) by (intros t Ht; apply Hsub; by right).
  destruct (f4_eq _ _); [by apply IH|].
  pose proof (cached_idf_ok index_oid cache we.1 Hlen Hin Hc Hh) as Hi.
  destruct (term_idf c we.1) as [idf|e]; cbn [mbind res_bind].
  - destruct Hi as (cache' & -> & Hc' & Hh'). cbn [mbind res_bind]. by apply IH.
  - by rewrite Hi.
Qed.

Lemma score_row_ok index_oid tsvector fn_extra : zlen query <= MAX_CACHED_TERMS ->
  (forall cache, fn_extra = Some cache -> cache_holds c query.*1 cache) ->
  match row_score c query tsvector with
  | Ok score => exists cache, score_row segment_open_ex chain_fuel ln index_oid c tsvector query fn_extra =
                                Ok (score, cache) /\ cache_holds c query.*1 cache
  | Err e => score_row segment_open_ex chain_fuel ln index_oid c tsvector query fn_extra = Err e
  end.
Proof.
  intros Hlen Hf. unfold score_row, row_score. fold (quantised_length tsvector).
  set (fresh := mkScoreCache index_oid _ _ _ 0 []).
  assert (Hfresh : cache_holds c query.*1 fresh /\ header_of index_oid c fresh).
  { split; [split; [done|constructor|constructor]|].
    unfold header_of, cache_is_valid, fresh. cbn. by rewrite !Z.eqb_refl. }
  set (cache := match fn_extra with Some cache => _ | None => fresh end).
  assert (Hcache : cache_holds c query.*1 cache /\ header_of index_oid c cache).
  { unfold cache. destruct fn_extra as [old|]; [|done].
    destruct (cache_is_valid _ _ _ _) eqn:Ev; [|done]. split; [by apply Hf|done]. }
  destruct Hcache as [Hc Hh].
  pose proof (score_query_terms_ok index_oid tsvector (quantised_length tsvector) query Hlen
    (fun t Ht => Ht) cache (f8_of_Z 0) Hc Hh) as Hs.
  destruct (row_sum _ _ _ _ _) as [sum|e]; cbn [fmap res_fmap].
  - destruct Hs as (cache' & -> & Hc' & _). by exists cache'.
  - by rewrite Hs.
Qed.

Lemma statement_ok {A} (tokens : A -> TSVector) score index_oid rows : zlen query <= MAX_CACHED_TERMS ->
  (forall a e, score a e = score_row segment_open_ex chain_fuel ln index_oid c (tokens a) query e) ->
  forall fn_extra, (forall cache, fn_extra = Some cache -> cache_holds c query.*1 cache) ->
  statement score rows fn_extra = mapM (fun a => row_score c query (tokens a)) rows.
Proof.
  intros Hlen Hscore. induction rows as [|row rows IH]; intros fn_extra Hf; cbn [statement]; [done|].
  change (mapM (fun a => row_score c query (tokens a)) (row :: rows)) with
    (y ← row_score c query (tokens row); k ← mapM (fun a => row_score c query (tokens a)) rows; mret (y :: k)).
  pose proof (score_row_ok index_oid (tokens row) fn_extra Hlen Hf) as Hr. rewrite Hscore.
  destruct (row_score c query (tokens row)) as [score'|e]; cbn [mbind res_bind].
  - destruct Hr as (cache & -> & Hc). cbn [mbind res_bind]. rewrite IH by by intros ? [= <-]. done.
  - by rewrite Hr.
Qed.

(** *** More terms than the cache has room for *)

(** Every term is in the document and has an IDF. *)
Definition all_counted (tsvector : TSVector) (terms : TSVector) : Prop :=
  Forall (fun we => f4_eq (find_term_frequency tsvector we.1) (f4_of_Z 0) = false /\
                    exists idf, term_idf c we.1 = Ok (Some idf)) terms.

Lemma new_term_cached cache term idf : short_lexeme term -> Forall (fun e => short_lexeme (te_term e)) (qc_terms cache) ->
  qc_num_terms cache = zlen (qc_terms cache) -> term ∉ te_term <$> qc_terms cache ->
  term_idf c term = Ok (Some idf) ->
  exists df, cached_idf segment_open_ex chain_fuel ln c cache term = Ok (Some idf, cache_term_idf cache term df idf).
Proof.
  intros Ht Hs Hn Hnew Hi. unfold cached_idf, lookup_cached_idf. rewrite Hn. unfold zlen. rewrite Nat2Z.id.
  pose proof (lookup_from_spec term (qc_terms cache) [] Ht Hs) as El. cbn [app] in El. rewrite zlen_nil in El.
  rewrite El. clear El. destruct (list_find _ _) as [[i e]|] eqn:E.
  { apply list_find_Some in E as (Hl & He & _). destruct Hnew. rewrite <- He.
    apply list_elem_of_fmap_2. by apply list_elem_of_lookup_2 in Hl. }
  cbn [mbind res_bind]. rewrite minus_one_negative, operator_doc_freq_unified. unfold term_idf in Hi.
  destruct (tp_get_unified_doc_freq _ _ _ _ _) as [df|]; [|done]. cbn [mbind res_bind] in Hi |- *.
  destruct (df =? 0); [done|]. injection Hi as ->. by exists df.
Qed.

(** With 65 terms counted, the look-up of a term that is not among the first 64 reads
    behind the array. *)
Lemma lookup_overreads cache term : short_lexeme term -> Forall (fun e => short_lexeme (te_term e)) (qc_terms cache) ->
  zlen (qc_terms cache) = MAX_CACHED_TERMS -> qc_num_terms cache = MAX_CACHED_TERMS + 1 ->
  term ∉ te_term <$> qc_terms cache ->
  lookup_cached_idf cache term = Err OUT_OF_BOUNDS_ACCESS.
Proof.
  intros Ht Hs Hl Hn Hnew. unfold lookup_cached_idf. rewrite Hn. clear Hn.
  assert (Hgen : forall terms pre, Forall (fun e => short_lexeme (te_term e)) terms ->
    term ∉ te_term <$> terms ->
    lookup_from (S (length terms)) (zlen pre) (pre ++ terms) term = Err OUT_OF_BOUNDS_ACCESS).
  { induction terms as [|e terms IH]; intros pre Hts Hnt.
    - cbn [lookup_from length]. unfold zread. rewrite app_nil_r, zget_lookup by apply zlen_nonneg.
      unfold zlen. by rewrite Nat2Z.id, lookup_ge_None_2.
    - apply Forall_cons in Hts as [He Hts]. cbn [fmap list_fmap] in Hnt. apply not_elem_of_cons in Hnt as [Hne Hnt].
      cbn [length lookup_from]. rewrite (zread_middle pre terms e). cbn [mbind res_bind].
      rewrite strcmp_short by done. rewrite bool_decide_eq_false_2 by done.
      specialize (IH (pre ++ [e]) Hts Hnt). rewrite zlen_app, <- app_assoc in IH. exact IH. }
  specialize (Hgen (qc_terms cache) [] Hs Hnew).
  replace (Z.to_nat (MAX_CACHED_TERMS + 1)) with (S (length (qc_terms cache))); [done|].
  unfold zlen, MAX_CACHED_TERMS in *. lia.
Qed.

Lemma cached_shorts cache names : te_term <$> qc_terms cache = names -> Forall short_lexeme names ->
  Forall (fun e => short_lexeme (te_term e)) (qc_terms cache).
Proof. intros <- Hs. by rewrite Forall_fmap in Hs. Qed.

Lemma fill_cache tsvector doc_length terms : forall rest cache result,
  all_counted tsvector terms -> Forall short_lexeme ((te_term <$> qc_terms cache) ++ terms.*1) ->
  NoDup ((te_term <$> qc_terms cache) ++ terms.*1) ->
  qc_num_terms cache = zlen (qc_terms cache) -> zlen (qc_terms cache) + zlen terms <= MAX_CACHED_TERMS ->
  exists cache' result',
    score_query_terms segment_open_ex chain_fuel ln c tsvector doc_length (terms ++ rest) cache result =
      score_query_terms segment_open_ex chain_fuel ln c tsvector doc_length rest cache' result' /\
    te_term <$> qc_terms cache' = (te_term <$> qc_terms cache) ++ terms.*1 /\
    qc_num_terms cache' = zlen (qc_terms cache').
Proof.
  induction terms as [|we terms IH]; intros rest cache result Ha Hs Hd Hn Hl.
  { exists cache, result. cbn [app fmap list_fmap]. by rewrite app_nil_r. }
  apply Forall_cons in Ha as [[Htf (idf & Hi)] Ha]. cbn [fmap list_fmap] in Hs, Hd.
  rewrite zlen_cons in Hl. pose proof (zlen_nonneg terms).
  assert (Hst : short_lexeme we.1).
  { rewrite Forall_app in Hs. destruct Hs as [_ Hs]. by apply Forall_cons in Hs as [? _]. }
  destruct (new_term_cached cache we.1 idf Hst) as (df & Ec).
  { eapply cached_shorts; [done|]. rewrite Forall_app in Hs. by destruct Hs. }
  { done. }
  { apply NoDup_app in Hd as (_ & Hdis & _). intros Hin. apply (Hdis _ Hin). by left. }
  { done. }
  cbn [app score_query_terms]. rewrite Htf, Ec. cbn [mbind res_bind].
  set (cache1 := cache_term_idf cache we.1 df idf).
  assert (E1 : te_term <$> qc_terms cache1 = (te_term <$> qc_terms cache) ++ [we.1] /\
               qc_num_terms cache1 = zlen (qc_terms cache1)).
  { unfold cache1, cache_term_idf. rewrite (proj2 (Z.leb_gt _ _)) by lia. rewrite take_short by done.
    cbn [set_terms qc_terms qc_num_terms]. rewrite fmap_app, zlen_app. split; [done|]. rewrite Hn. done. }
  destruct E1 as [E1 En1].
  fold (add_term_score c (find_term_frequency tsvector we.1) doc_length (term_frequency we) result idf).
  destruct (IH rest cache1 (add_term_score c (find_term_frequency tsvector we.1) doc_length (term_frequency we) result idf))
    as (cache' & result' & -> & Et & En).
  - done.
  - by rewrite E1, <- app_assoc.
  - by rewrite E1, <- app_assoc.
  - done.
  - rewrite <- (zlen_fmap te_term), E1, zlen_app, zlen_fmap. change (zlen [we.1]) with 1. lia.
  - exists cache', result'. split; [done|]. split; [|done]. rewrite Et, E1, <- app_assoc. done.
Qed.

Lemma overread_row index_oid tsvector q1 t65 t66 rest : query = q1 ++ t65 :: t66 :: rest ->
  zlen q1 = MAX_CACHED_TERMS -> all_counted tsvector query ->
  score_row segment_open_ex chain_fuel ln index_oid c tsvector query None = Err OUT_OF_BOUNDS_ACCESS.
Proof.
  intros Eq Hl Ha. unfold score_row. fold (quantised_length tsvector).
  set (fresh := mkScoreCache index_oid _ _ _ 0 []). rewrite Eq in Ha, Hdistinct, Hshort |- *. clear Eq.
  apply Forall_app in Ha as [Ha1 Ha]. apply Forall_cons in Ha as [[Htf5 (i5 & Hi5)] Ha].
  apply Forall_cons in Ha as [[Htf6 (i6 & Hi6)] _].
  rewrite fmap_app in Hdistinct, Hshort. cbn [fmap list_fmap] in Hdistinct, Hshort.
  pose proof Hshort as Hsh. apply Forall_app in Hsh as [Hs1 Hsh]. apply Forall_cons in Hsh as [Hs5 Hsh].
  apply Forall_cons in Hsh as [Hs6 _].
  pose proof Hdistinct as Hdi. apply NoDup_app in Hdi as (Hd1 & Hdis & Hd5).
  destruct (fill_cache tsvector (quantised_length tsvector) q1 (t65 :: t66 :: rest) fresh (f8_of_Z 0))
    as (cache & result & -> & Et & En); [done|done|done|done| |].
  { rewrite Hl. done. }
  cbn [fresh qc_terms fmap list_fmap app] in Et. change (te_term <$> qc_terms cache = q1.*1) in Et.
  assert (Hlen : zlen (qc_terms cache) = MAX_CACHED_TERMS) by (rewrite <- (zlen_fmap te_term), Et, zlen_fmap; done).
  pose proof (cached_shorts cache _ Et Hs1) as Hcs.
  destruct (new_term_cached cache t65.1 i5 Hs5 Hcs En) as (df & Ec); [|done|].
  { rewrite Et. intros Hin. apply (Hdis _ Hin). by left. }
  cbn [score_query_terms]. rewrite Htf5, Ec. cbn [mbind res_bind]. rewrite Htf6.
  unfold cache_term_idf. rewrite En, Hlen. cbn [Z.leb Z.eqb Z.compare Pos.compare Pos.compare_cont MAX_CACHED_TERMS Pos.eqb].
  unfold cached_idf. rewrite lookup_overreads; [done|done|done|done|done|].
  cbn [set_terms qc_terms]. rewrite Et. intros Hin. apply (Hdis _ Hin). by right; left.
Qed.
End Operator.

(** ** The properties *)

(** A query that a constructor made, with any tenant and language, is sent in
    binary form and received again unchanged when its text has at most a million
    bytes; a longer one is sent but refused by [tpquery_recv]. *)
Theorem tpquery_binary_roundtrip `{PallocLaws} `{PqFormatLaws} `{PqByteFormatLaws}
    text oid explicit tenant cfg rest :
  text_fits text -> oid_range oid -> oid_range tenant -> oid_range cfg ->
  exists q msg, create_tpquery_explicit text oid explicit = Ok q /\
    tpquery_send (with_options q tenant cfg) = Ok msg /\
    tpquery_recv (msg ++ rest) =
      if zlen text <=? MAX_RECEIVED_TEXT then Ok (with_options q tenant cfg)
      else Err ERRCODE_INVALID_PARAMETER_VALUE.
Proof.
  intros Hf Ho Ht Hc. pose proof Hf as [Hz _]. eexists (made text oid explicit), _.
  split; [apply create_tpquery_ok; [by apply c_str_id|done]|]. split; [apply send_made|].
  by apply recv_sent; [..|apply send_made].
Qed.

(** A query on a visible index with a plain name prints as the text that reads as the
    same text on the same index; without an index, when the text has no colon or
    begins with one. *)
Theorem tpquery_text_roundtrip `{PallocLaws} `{CatalogLaws} regconfigout text oid explicit name :
  text_fits text -> get_rel_name oid = Some name -> RelationIsVisible oid = true ->
  plain_identifier name = true -> OidIsValid oid = true ->
  tpquery_in (tpquery_out regconfigout (made text oid explicit)) = Ok (made text oid true) /\
  (colon ∉ text \/ head text = Some colon ->
   tpquery_in (tpquery_out regconfigout (made text InvalidOid explicit)) = Ok (made text InvalidOid false)).
Proof.
  intros Hf Hn Hv Hp Ho. split; [|by apply read_printed_no_index].
  pose proof (read_printed regconfigout text oid explicit name 0 InvalidOid) as Hr.
  change (OidIsValid InvalidOid) with false in Hr. cbv iota in Hr. rewrite app_nil_r in Hr. by apply Hr.
Qed.


(** C38: a query of more than 65 different lexemes, all of them in the document and in
    the index, makes the operator read behind the array of its cache: the attempt to
    cache the 65th term counts it although it is not stored, and the look-up of the
    66th goes through one entry too many. *)
Theorem many_terms_read_past_the_cache {R : Type} `{SegmentAccess R} `{ItemPointerOps} `{DsaAllocator} `{HashSeq}
    (segment_open_ex : Z -> Z -> bool -> res (option R)) (chain_fuel : nat) (ln : float8 -> float8)
    index_oid c (query tsvector : TSVector) :
  MAX_CACHED_TERMS + 2 <= zlen query -> NoDup query.*1 -> Forall short_lexeme query.*1 ->
  all_counted segment_open_ex chain_fuel ln c tsvector query ->
  score_row segment_open_ex chain_fuel ln index_oid c tsvector query None = Err OUT_OF_BOUNDS_ACCESS.
Proof.
  intros Hl Hd Hs Ha. unfold MAX_CACHED_TERMS in Hl.
  destruct (drop 64 query) as [|t65 [|t66 rest]] eqn:E;
    try (apply (f_equal length) in E; rewrite length_drop in E; unfold zlen in Hl; simpl in E; lia).
  apply (overread_row segment_open_ex chain_fuel ln c query Hd Hs index_oid tsvector (take 64 query) t65 t66 rest).
  - by rewrite <- E, take_drop.
  - unfold zlen in *. rewrite length_take. unfold MAX_CACHED_TERMS. lia.
  - done.
Qed.

(** ** Witnesses *)

Section Witnesses.
#[local] Existing Instances max_allocator max_allocator_laws.
#[local] Existing Instances BmwSingle.demo_access.

#[local] Instance PqByteFormat_concrete : PqByteFormat := {|
  pq_int8 n := [byte_of_Z n];
  pq_getmsgbyte msg := match msg with b :: msg => Ok (Z_of_byte b, msg) | [] => Err ERRCODE_PROTOCOL_VIOLATION end;
|}.
#[local] Instance PqByteFormatLaws_concrete : PqByteFormatLaws.
Proof.
  intros n rest Hn. cbn [pq_getmsgbyte pq_int8 PqByteFormat_concrete app]. rewrite Z_of_byte_of_Z.
  by rewrite Z.mod_small.
Qed.

Lemma tpquery_binary_roundtrip_witness :
  exists q msg, create_tpquery_explicit [x61; x62] 101 true = Ok q /\
    tpquery_send (with_options q 7 9) = Ok msg /\ tpquery_recv (msg ++ [x01]) = Ok (with_options q 7 9).
Proof. apply (tpquery_binary_roundtrip [x61; x62] 101 true 7 9 [x01]); unfold oid_range; first [lia|split; by_deciding]. Defined.

Definition demo_regconfigout (cfg : Z) : list byte := [x65; x6e].

Lemma tpquery_text_roundtrip_witness :
  tpquery_in (tpquery_out demo_regconfigout (made [x61] 101 false)) = Ok (made [x61] 101 true) /\
  (colon ∉ [x61] \/ head [x61] = Some colon ->
   tpquery_in (tpquery_out demo_regconfigout (made [x61] InvalidOid false)) = Ok (made [x61] InvalidOid false)).
Proof. by apply (tpquery_text_roundtrip demo_regconfigout [x61] 101 false [x64; x31]); [split; by_deciding|by vm_compute..]. Defined.

(** A language becomes part of the text, a colon in the text the end of an index name. *)
Lemma language_read_as_text :
  tpquery_in (tpquery_out demo_regconfigout (with_options (made [x61] 101 true) 0 9)) =
    Ok (made [x61; x3a; x65; x6e] 101 true).
Proof. by vm_compute. Qed.

Lemma colon_read_as_index_name :
  tpquery_in (tpquery_out demo_regconfigout (made [x64; x31; x3a; x61] InvalidOid false)) = Ok (made [x61] 101 true).
Proof. by vm_compute. Qed.

(** Queries of different tenants and languages are equal. *)
Lemma equality_ignores_options :
  tpquery_eq (with_options (made [x61] 101 true) 1 0) (with_options (made [x61] 101 false) 2 9) = true.
Proof. by vm_compute. Qed.

(** The operator computes in double precision, an index scan in single precision: with
    the default parameters, for a term twice in a document of length 1, the scores
    differ in the last bit. *)
Lemma operator_rounds_differently :
  let k1 := f4_of_bits 1067030938 in
  let b := f4_of_bits 1061158912 in
  f4_eq (calculate_term_score (f4_of_Z 2) f4_one (f4_of_Z 1) (f4_of_Z 3) k1 b 1) (bm25_score f4_one 2 1 k1 b (f4_of_Z 3))
    = false.
Proof. by vm_compute. Qed.

(** An index with documents in the memtable and without segments. *)
Definition demo_metapage : TpIndexMetaPageData :=
  mkMetaPage TP_METAPAGE_MAGIC TP_METAPAGE_VERSION 5 0 0 0 0 1065353216 1061158912 InvalidBlockNumber 0
    InvalidBlockNumber (replicate TP_MAX_LEVELS InvalidBlockNumber) (replicate TP_MAX_LEVELS 0) 0
    InvalidBlockNumber 0 0.

Definition demo_corpus_of (docs : list document) : Corpus := mkCorpus 101 demo_metapage (indexed_state docs) 5.

(** The text is its own only lexeme. *)
Definition demo_tokens (cfg : Z) (text : list byte) : TSVector := [(text, Some 2)].

Definition no_segments_open (index block : Z) (load_ctids : bool) : res (option TpSegmentReader) := Ok None.

Definition constant_ln (x : float8) : float8 := f8_of_Z 1.


(** One document of 66 terms. *)
Definition many_terms : TSVector := (fun i => ([x61; byte_of_Z i], Some 1)) <$> seqZ 1 66.
Definition long_document : document := mkDocument (mkItemPointer 0 1) many_terms.*1 (replicate 66 1) 66 0.

Definition counted_term (c : Corpus) (tsvector : TSVector) (we : list byte * option Z) : bool :=
  negb (f4_eq (find_term_frequency tsvector we.1) (f4_of_Z 0)) &&
  match term_idf no_segments_open 1 constant_ln c we.1 with Ok (Some _) => true | _ => false end.

Lemma counted_terms c tsvector terms : forallb (counted_term c tsvector) terms = true ->
  all_counted no_segments_open 1 constant_ln c tsvector terms.
Proof.
  intros Hc. apply Forall_forall. intros we Hin. rewrite forallb_forall in Hc.
  apply list_elem_of_In, Hc, andb_true_iff in Hin as [Htf Hi]. split; [by apply negb_true_iff|].
  destruct (term_idf _ _ _ _ _) as [[idf|]|]; [by exists idf|done..].
Qed.

Lemma many_terms_read_past_the_cache_witness :
  score_row no_segments_open 1 constant_ln 101 (demo_corpus_of [long_document]) many_terms many_terms None =
    Err OUT_OF_BOUNDS_ACCESS.
Proof.
  apply (many_terms_read_past_the_cache no_segments_open 1 constant_ln 101 (demo_corpus_of [long_document])).
  - vm_compute. discriminate.
  - by_deciding.
  - apply Forall_fmap, Forall_forall. intros we (i & -> & Hi)%list_elem_of_fmap. split.
    + cbn. rewrite elem_of_seqZ in Hi. intros Hin. rewrite !elem_of_cons in Hin.
      destruct Hin as [?|[E|?%elem_of_nil]]; [done| |done]. apply (f_equal Z_of_byte) in E.
      rewrite Z_of_byte_of_Z, Z.mod_small in E by lia. cbn in E. lia.
    + done.
  - apply counted_terms. vm_compute. reflexivity.
Defined.
End Witnesses.
