(* ===== verification/IndexScan.v ===== *)
(** * The index scan (am/scan.c, am/am.h, memtable/scan.c, state/limit.c, types/vector.c, planner/cost.c)

    The executor begins a scan, gives it the key of the ORDER BY, and asks for rows
    until there are none.  The first request scores a batch of as many results as
    the LIMIT the planner left in a variable of the backend, or a default; when a
    batch is used up and was full, the query is scored again with twice the limit
    and the rows already returned are passed over.

    The state is the scan descriptor with its opaque part, and the two variables
    of the backend, the current limit and the last score. *)
From S2P Require Import Prelude Postgres Float4 SegmentFormat Storage Vector Catalog.
From S2P Require Import SegmentScan Memtable Metapage SortDocs Score Query.
From Stdlib Require Import SpecFloat.

Definition TP_DEFAULT_QUERY_LIMIT : Z := 1000.
Definition TP_MAX_QUERY_LIMIT : Z := 100000.
Definition TP_MAX_BLOCK_NUMBER : Z := 1000000.
Definition TEXTOID : Z := 25.

(** ** Limits *)

Record TpCurrentLimit := mkCurrentLimit { cl_index_oid : Z; cl_limit : Z; cl_is_valid : bool }.

Definition no_limit : TpCurrentLimit := mkCurrentLimit InvalidOid (-1) false.

Definition tp_store_query_limit (index_oid limit : Z) (current : TpCurrentLimit) : TpCurrentLimit :=
  mkCurrentLimit index_oid limit true.

Definition tp_get_query_limit (index_oid : Z) (current : TpCurrentLimit) : Z * TpCurrentLimit :=
  if negb (cl_is_valid current) then (-1, current)
  else if cl_index_oid current =? index_oid
  then (cl_limit current, mkCurrentLimit (cl_index_oid current) (cl_limit current) false)
  else (-1, current).

Definition tp_cleanup_query_limits (is_transaction_state : bool) (current : TpCurrentLimit) : TpCurrentLimit :=
  if negb is_transaction_state then current
  else if cl_is_valid current then no_limit else current.

(** The planner's path: how many ORDER BY expressions and index clauses it has. *)
Definition tp_can_pushdown_limit (indexorderbys indexclauses limit : Z) : bool :=
  if limit <=? 0 then false
  else if negb (indexorderbys =? 1) then false
  else negb (0 <? indexclauses).

(** What [tp_costestimate] does with a LIMIT of [limit_tuples] rows (-1: none). *)
Definition push_down_limit (index_oid indexorderbys indexclauses limit_tuples : Z) (current : TpCurrentLimit)
    : TpCurrentLimit :=
  if indexorderbys =? 0 then current
  else if (0 <? limit_tuples) && (limit_tuples <? 2 ^ 31 - 1) then
    if tp_can_pushdown_limit indexorderbys indexclauses limit_tuples
    then tp_store_query_limit index_oid limit_tuples current else current
  else current.

(** ** The scan *)

Record TpScanOpaqueData := mkScanOpaque {
  so_query_text : option (list byte);
  so_query_vector : option TpVector;
  so_index_oid : Z;
  so_result_ctids : option (list ItemPointerData);
  so_result_scores : option (list float4);
  so_result_count : Z;
  so_current_pos : Z;
  so_eof_reached : bool;
  so_limit : Z;
  so_max_results_used : Z;
  so_tenant_id : Z;
  so_query_config_oid : Z;
}.

Record IndexScanDesc := mkScan {
  indexRelation : Z;
  numberOfOrderBys : Z;
  scan_opaque : option TpScanOpaqueData;
  xs_heaptid : ItemPointerData;
  xs_orderbyval : option float4;   (** [None] while [xs_orderbynulls] is set *)
}.

Record Session := mkSession {
  tp_current_limit : TpCurrentLimit;
  tp_cached_score : float8;
  scan : IndexScanDesc;
}.

(** The right operand of the ORDER BY, by [sk_subtype]. *)
Inductive QueryArgument := ArgText (text : list byte) | ArgQuery (query : TpQuery).

Record ScanKey := mkScanKey { sk_strategy : Z; sk_argument : QueryArgument }.

Definition set_opaque (so : option TpScanOpaqueData) (s : Session) : Session :=
  mkSession (tp_current_limit s) (tp_cached_score s)
    (mkScan (indexRelation (scan s)) (numberOfOrderBys (scan s)) so (xs_heaptid (scan s)) (xs_orderbyval (scan s))).

Definition tp_get_cached_score (s : Session) : float8 := tp_cached_score s.

Abbreviation M := (rst Session).

(** [palloc0]: the null pointer and zero in every field not set. *)
Definition initial_opaque : TpScanOpaqueData :=
  mkScanOpaque None None InvalidOid None None 0 0 false (-1) 0 0 InvalidOid.

Definition invalid_tid : ItemPointerData := mkItemPointer 0 0.

Definition tp_beginscan (index norderbys : Z) : M unit :=
  rst_modify (fun s => mkSession (tp_current_limit s) (tp_cached_score s)
    (mkScan index norderbys (Some initial_opaque) invalid_tid None)).

(** The array of distances is given up when there is one. *)
Definition tp_endscan : M unit := rst_modify (fun s =>
  mkSession (tp_current_limit s) (tp_cached_score s)
    (mkScan (indexRelation (scan s)) (numberOfOrderBys (scan s)) None (xs_heaptid (scan s))
       (if 0 <? numberOfOrderBys (scan s) then None else xs_orderbyval (scan s)))).

Definition tp_rescan_cleanup_results (so : TpScanOpaqueData) : TpScanOpaqueData :=
  mkScanOpaque (so_query_text so) (so_query_vector so) (so_index_oid so) None None (so_result_count so)
    (so_current_pos so) (so_eof_reached so) (so_limit so) (so_max_results_used so) (so_tenant_id so)
    (so_query_config_oid so).

(** The limit of the query and the reset of the state. *)
Definition reset_scan (query_limit : Z) (so : TpScanOpaqueData) : TpScanOpaqueData :=
  let so := tp_rescan_cleanup_results so in
  mkScanOpaque (so_query_text so) None (so_index_oid so) (so_result_ctids so) (so_result_scores so) 0 0 false
    (if 0 <? query_limit then query_limit else -1) (so_max_results_used so) (so_tenant_id so) (so_query_config_oid so).

(** The text of a key, the tenant and the language it sets. *)
Definition set_query (text : list byte) (tenant_id config_oid index_oid result_count : Z) (so : TpScanOpaqueData)
    : TpScanOpaqueData :=
  mkScanOpaque (Some text) None index_oid (so_result_ctids so) (so_result_scores so) result_count
    (so_current_pos so) (so_eof_reached so) (so_limit so) (so_max_results_used so) tenant_id config_oid.

Section Scan.
Context `{Palloc} `{QSort} `{Catalog}.
(** [index_open] and [tp_get_metapage]; [tp_get_local_index_state]; the text search
    parser with a configuration and, of the text alone, with the default one. *)
Context (index_metapage : Z -> res TpIndexMetaPageData) (local_index_state : Z -> option TpLocalIndexState).
Context (to_tsvector_byid : Z -> list byte -> TSVector) (to_tsvector : list byte -> TSVector).
(** The variable [pg_textsearch.default_limit]. *)
Context (tp_default_limit : Z).

Fixpoint tp_rescan_process_orderby (index : Z) (orderbys : list ScanKey) (metap : TpIndexMetaPageData)
    (so : TpScanOpaqueData) : res TpScanOpaqueData :=
  match orderbys with
  | [] => Ok so
  | orderby :: rest =>
      if negb (sk_strategy orderby =? 1) then tp_rescan_process_orderby index rest metap so
      else
        let result_count := if 0 <? mp_total_docs metap then i32 (mp_total_docs metap) else so_result_count so in
        so ← match sk_argument orderby with
             | ArgText text =>
                 Ok (set_query (c_str text) (so_tenant_id so) (so_query_config_oid so) index result_count so)
             | ArgQuery query =>
                 _ ← (if tpquery_has_index query
                      then tp_rescan_validate_query_index (get_tpquery_index_oid query) index else Ok tt);
                 Ok (set_query (get_tpquery_text query) (get_tpquery_tenant_id query) (get_tpquery_config_oid query)
                       index result_count so)
             end;
        tp_rescan_process_orderby index rest metap so
  end.

Definition tp_rescan (orderbys : list ScanKey) : M unit := fun s =>
  match scan_opaque (scan s) with
  | None => Ok (tt, s)
  | Some so =>
      let index := indexRelation (scan s) in
      let '(query_limit, current) := tp_get_query_limit index (tp_current_limit s) in
      let so := reset_scan query_limit so in
      so ← (if bool_decide (orderbys = []) then Ok so
            else metap ← index_metapage index; tp_rescan_process_orderby index orderbys metap so);
      Ok (tt, set_opaque (Some so) (mkSession current (tp_cached_score s) (scan s)))
  end.

(** ** The vector of a query *)

Definition vector_of_tsvector (index_name : list byte) (tsvector : TSVector) : res TpVector :=
  create_tpvector_from_strings index_name (zlen tsvector)
    (if 0 <? zlen tsvector then Some (tsvector.*1, term_frequency <$> tsvector) else None).

(** "english" *)
Definition english_config : list byte := [x65; x6e; x67; x6c; x69; x73; x68].

(** Without a configuration the server's [to_tsvector] is called with the name of one
    and the text; it takes one argument, the text to parse, and gets the name. *)
Definition to_tpvector (input_text index_name : list byte) : res TpVector :=
  index_oid ← tp_resolve_index_name_shared index_name;
  if negb (OidIsValid index_oid) then Err ERRCODE_UNDEFINED_TABLE
  else
    metap ← index_metapage index_oid;
    let text_config_oid := mp_text_config_oid metap in
    vector_of_tsvector index_name
      (if OidIsValid text_config_oid then to_tsvector_byid text_config_oid input_text
       else to_tsvector english_config).

(** The vector [tp_execute_scoring_query] makes of the text. *)
Definition vector_of_query (index : Z) (so : TpScanOpaqueData) (query_text : list byte) : res TpVector :=
  let index_name := tp_get_qualified_index_name index (default [] (get_rel_name index)) in
  if OidIsValid (so_query_config_oid so)
  then vector_of_tsvector index_name (to_tsvector_byid (so_query_config_oid so) query_text)
  else to_tpvector query_text index_name.

(** ** A batch of results (memtable/scan.c) *)

(** The terms of the first [n] entries from offset [ptr], with their frequencies. *)
Fixpoint query_terms (v : TpVector) (n : nat) (ptr : Z) : res (list (list byte * Z)) :=
  match n with
  | O => Ok []
  | S n =>
      entry ← entry_at v ptr;
      rest ← query_terms v n (ptr + (sizeof_TpVectorEntry + MAXALIGN (lexeme_len entry)));
      Ok ((lexeme entry, frequency entry) :: rest)
  end.

(** Scoring, as [tp_score_documents] is called: on an index, with its state and the
    heads of its levels, the query, [k1], [b], the number of results and the tenant. *)
Context (score_documents : Z -> TpLocalIndexState -> list Z -> list (list byte * Z) -> float4 -> float4 ->
                           Z -> Z -> res (option (list (ItemPointerData * float4)))).

Definition set_results (ctids : list ItemPointerData) (scores : option (list float4)) (count max_results : Z)
    (so : TpScanOpaqueData) : TpScanOpaqueData :=
  mkScanOpaque (so_query_text so) (so_query_vector so) (so_index_oid so) (Some ctids) scores count 0
    (so_eof_reached so) (so_limit so) max_results (so_tenant_id so) (so_query_config_oid so).

(** The array of CTIDs has room for [max_results] and is zero behind the results. *)
Definition tp_memtable_search (index : Z) (index_state : TpLocalIndexState) (query_vector : TpVector)
    (metap : TpIndexMetaPageData) (so : TpScanOpaqueData) : res (bool * TpScanOpaqueData) :=
  let max_results := if 0 <? so_limit so then so_limit so else tp_default_limit in
  let n := entry_count query_vector in
  _ ← palloc (n * 8);
  _ ← palloc (n * 4);
  query ← query_terms query_vector (Z.to_nat n) (TPVECTOR_ENTRIES_PTR query_vector);
  _ ← palloc (max_results * 6);
  scored ← score_documents index index_state (mp_level_heads metap) query (f4_of_bits (mp_k1 metap))
             (f4_of_bits (mp_b metap)) max_results (so_tenant_id so);
  let results := default [] scored in
  if max_results <? zlen results then Err OUT_OF_BOUNDS_ACCESS
  else
    let ctids := results.*1 ++ replicate (Z.to_nat (max_results - zlen results)) invalid_tid in
    Ok (0 <? zlen results,
        set_results ctids ((fun l => l.*2) <$> scored) (zlen results) max_results so).

Definition set_vector (v : TpVector) (so : TpScanOpaqueData) : TpScanOpaqueData :=
  mkScanOpaque (so_query_text so) (Some v) (so_index_oid so) (so_result_ctids so) (so_result_scores so)
    (so_result_count so) (so_current_pos so) (so_eof_reached so) (so_limit so) (so_max_results_used so)
    (so_tenant_id so) (so_query_config_oid so).

Definition forget_results (so : TpScanOpaqueData) : TpScanOpaqueData :=
  mkScanOpaque (so_query_text so) (so_query_vector so) (so_index_oid so) None None 0 0 (so_eof_reached so)
    (so_limit so) (so_max_results_used so) (so_tenant_id so) (so_query_config_oid so).

Definition execute_scoring_query (index : Z) (so : TpScanOpaqueData) : res (bool * TpScanOpaqueData) :=
  match so_query_text so with
  | None => Ok (false, so)
  | Some query_text =>
      let so := forget_results so in
      metap ← index_metapage index;
      match local_index_state index with
      | None => Err ERRCODE_INTERNAL_ERROR
      | Some index_state =>
          query_vector ← match so_query_vector so with
                         | Some v => Ok v
                         | None => vector_of_query index so query_text
                         end;
          tp_memtable_search index index_state query_vector metap (set_vector query_vector so)
      end
  end.

Definition tp_execute_scoring_query : M bool := fun s =>
  match scan_opaque (scan s) with
  | None => Ok (false, s)
  | Some so =>
      '(success, so) ← execute_scoring_query (indexRelation (scan s)) so;
      Ok (success, set_opaque (Some so) s)
  end.

(** ** Rows *)

Definition get_so : M TpScanOpaqueData := fun s =>
  match scan_opaque (scan s) with Some so => Ok (so, s) | None => Err OUT_OF_BOUNDS_ACCESS end.

Definition update_so (f : TpScanOpaqueData -> TpScanOpaqueData) : M unit :=
  rst_modify (fun s => set_opaque (f <$> scan_opaque (scan s)) s).

Definition set_eof (so : TpScanOpaqueData) : TpScanOpaqueData :=
  mkScanOpaque (so_query_text so) (so_query_vector so) (so_index_oid so) (so_result_ctids so) (so_result_scores so)
    (so_result_count so) (so_current_pos so) true (so_limit so) (so_max_results_used so) (so_tenant_id so)
    (so_query_config_oid so).
Definition set_pos (pos : Z) (so : TpScanOpaqueData) : TpScanOpaqueData :=
  mkScanOpaque (so_query_text so) (so_query_vector so) (so_index_oid so) (so_result_ctids so) (so_result_scores so)
    (so_result_count so) pos (so_eof_reached so) (so_limit so) (so_max_results_used so) (so_tenant_id so)
    (so_query_config_oid so).
Definition set_limit (limit : Z) (so : TpScanOpaqueData) : TpScanOpaqueData :=
  mkScanOpaque (so_query_text so) (so_query_vector so) (so_index_oid so) (so_result_ctids so) (so_result_scores so)
    (so_result_count so) (so_current_pos so) (so_eof_reached so) limit (so_max_results_used so) (so_tenant_id so)
    (so_query_config_oid so).

(** Descending scores become ascending distances. *)
Definition distance (raw_score : float4) : float4 :=
  if f4_gt raw_score (f4_of_Z 0) then SFopp raw_score else raw_score.

Definition return_row (tid : ItemPointerData) (score : option float4) : M unit :=
  rst_modify (fun s => mkSession (tp_current_limit s)
    (match score with Some x => f8_of_f4 x | None => tp_cached_score s end)
    (mkScan (indexRelation (scan s)) (numberOfOrderBys (scan s)) (scan_opaque (scan s)) tid
       (match score with Some x => Some x | None => xs_orderbyval (scan s) end))).

(** The row at the current position; a CTID that cannot be one is passed over, and
    with the last one of the batch the scan answers that there are no rows. *)
Fixpoint current_row (fuel : nat) : M bool :=
  match fuel with
  | O => rst_fail OUT_OF_FUEL
  | S fuel =>
      so ← get_so;
      let pos := so_current_pos so in
      tid ← rst_lift (zread (default [] (so_result_ctids so)) pos);
      if (ip_blkid tid =? InvalidBlockNumber) || (TP_MAX_BLOCK_NUMBER <? ip_blkid tid) then
        _ ← update_so (set_pos (pos + 1));
        if so_result_count so <=? pos + 1 then mret false else current_row fuel
      else
        n ← rst_gets (fun s => numberOfOrderBys (scan s));
        score ← (if 0 <? n then raw_score ← rst_lift (zread (default [] (so_result_scores so)) pos);
                                mret (Some (distance raw_score))
                 else mret None);
        _ ← return_row tid score;
        _ ← update_so (set_pos (pos + 1));
        mret true
  end.

(** The batch that has the next row, when there is one. *)
Definition more_results : M bool :=
  so ← get_so;
  if (so_result_count so <=? so_current_pos so) || so_eof_reached so then
    if negb (so_eof_reached so) && (0 <? so_result_count so) &&
       (so_max_results_used so <=? so_result_count so) && (so_max_results_used so <? TP_MAX_QUERY_LIMIT) then
      let old_count := so_result_count so in
      let new_limit := Z.min (i32 (so_max_results_used so * 2)) TP_MAX_QUERY_LIMIT in
      _ ← update_so (set_limit new_limit);
      success ← tp_execute_scoring_query;
      so ← get_so;
      if (success : bool) && (old_count <? so_result_count so) then
        _ ← update_so (set_pos old_count); mret true
      else _ ← update_so set_eof; mret false
    else mret false
  else mret true.

Definition first_results : M bool :=
  so ← get_so;
  if bool_decide (so_result_ctids so = None) && negb (so_eof_reached so) then
    success ← tp_execute_scoring_query;
    so ← get_so;
    if (success : bool) && negb (bool_decide (so_result_ctids so = None)) then mret true
    else _ ← update_so set_eof; mret false
  else mret true.

Definition tp_gettuple : M bool :=
  first ← first_results;
  if (first : bool) then
    more ← more_results;
    if (more : bool) then
      so ← get_so;
      current_row (S (Z.to_nat (so_result_count so - so_current_pos so)))
    else mret false
  else mret false.
End Scan.
