(* ===== verification/IndexScanFacts.v ===== *)
(** * Facts about the index scan (IndexScan)

    The client's side of an interface: scoring a query with a limit [k] gives the
    first [k] entries of one ranking of the documents, the same for every [k].  Then
    asking the scan for rows returns the ranking in order, each document once,
    across the batches, and ends; the implementation's side is shown for the
    exhaustive scoring path, with the ranking of its table of scores. *)
From S2P Require Import Prelude Postgres Float4 SegmentFormat Storage Vector VectorFacts Catalog CatalogFacts.
From S2P Require Import SegmentIO SegmentScan ScanFacts Memtable MemtableFacts SegmentWrite SegmentRoundtrip.
From S2P Require Import TopK BmwSingle Metapage SortDocs SortFacts Score Query QueryFacts IndexScan.
From Stdlib Require Import SpecFloat.

Abbreviation scored_document := (ItemPointerData * float4)%type.

Section Scan.
Context `{PallocLaws} `{QSort} `{Catalog}.
Context (index_metapage : Z -> res TpIndexMetaPageData) (local_index_state : Z -> option TpLocalIndexState).
Context (to_tsvector_byid : Z -> list byte -> TSVector) (to_tsvector : list byte -> TSVector).
Context (tp_default_limit : Z).
Context (score_documents : Z -> TpLocalIndexState -> list Z -> list (list byte * Z) -> float4 -> float4 ->
                           Z -> Z -> res (option (list scored_document))).

Abbreviation execute := (execute_scoring_query index_metapage local_index_state to_tsvector_byid to_tsvector
  tp_default_limit score_documents).
Abbreviation gettuple := (tp_gettuple index_metapage local_index_state to_tsvector_byid to_tsvector
  tp_default_limit score_documents).

(** Asking for [n] rows. *)
Fixpoint drain (n : nat) : rst Session (list (ItemPointerData * option float4)) :=
  match n with
  | O => mret []
  | S n =>
      found ← gettuple;
      if (found : bool) then
        s ← rst_gets (fun s => s);
        rest ← drain n;
        mret ((xs_heaptid (scan s), xs_orderbyval (scan s)) :: rest)
      else mret []
  end.

(** What a scan with the query [text] on [index] works with. *)
Record scan_inputs (index : Z) (text : list byte) (tenant cfg : Z) := mkInputs {
  in_metap : TpIndexMetaPageData;
  in_state : TpLocalIndexState;
  in_vector : TpVector;
  in_query : list (list byte * Z);
  in_metapage_ok : index_metapage index = Ok in_metap;
  in_state_ok : local_index_state index = Some in_state;
  in_vector_ok so : so_query_config_oid so = cfg ->
    vector_of_query index_metapage to_tsvector_byid to_tsvector index so text = Ok in_vector;
  in_query_ok : query_terms in_vector (Z.to_nat (entry_count in_vector)) (TPVECTOR_ENTRIES_PTR in_vector) = Ok in_query;
  in_count_ok : 0 <= entry_count in_vector * 8 <= MaxAllocSize;
}.

(** The interface to scoring. *)
Definition ranks_with (index tenant : Z) (metap : TpIndexMetaPageData) (state : TpLocalIndexState)
    (query : list (list byte * Z)) (ranking : list scored_document) : Prop :=
  forall k, 0 < k -> exists r,
    score_documents index state (mp_level_heads metap) query (f4_of_bits (mp_k1 metap)) (f4_of_bits (mp_b metap))
      k tenant = Ok r /\ default [] r = take (Z.to_nat k) ranking.

Context (index : Z) (text : list byte) (tenant cfg : Z) (inputs : scan_inputs index text tenant cfg).
Context (ranking : list scored_document).
Hypothesis (Hranks : ranks_with index tenant (in_metap _ _ _ _ inputs) (in_state _ _ _ _ inputs)
                       (in_query _ _ _ _ inputs) ranking).
Hypothesis (Hblocks : Forall (fun r => ip_blkid r.1 <= TP_MAX_BLOCK_NUMBER) ranking).
#[local] Abbreviation v := (in_vector _ _ _ _ inputs).

Definition batch (m : Z) : list scored_document := take (Z.to_nat m) ranking.
Definition batch_ctids (m : Z) : list ItemPointerData :=
  (batch m).*1 ++ replicate (Z.to_nat (m - zlen (batch m))) invalid_tid.

(** The scan in a batch of [m], at position [p]. *)
Definition scanning (io lim m p : Z) (eof : bool) (scores : option (list float4)) : TpScanOpaqueData :=
  mkScanOpaque (Some text) (Some v) io (Some (batch_ctids m)) scores (zlen (batch m)) p eof lim m tenant cfg.

Definition session (cl : TpCurrentLimit) (cs : float8) (so : TpScanOpaqueData) (tid : ItemPointerData)
    (ob : option float4) : Session := mkSession cl cs (mkScan index 1 (Some so) tid ob).

Lemma zlen_batch m : 0 <= m -> zlen (batch m) = Z.min m (zlen ranking).
Proof. intros Hm. unfold batch, zlen. rewrite length_take. lia. Qed.

(** The limit in effect. *)
Definition effective (lim : Z) : Z := if 0 <? lim then lim else tp_default_limit.

(** The metapage, the state, the vector and its terms are there: what is left is to
    make room for the results and to score. *)
Lemma execute_search vec io ctids scores count pos eof lim used : vec = None \/ vec = Some v ->
  execute index (mkScanOpaque (Some text) vec io ctids scores count pos eof lim used tenant cfg) =
    (let m := effective lim in
     let metap := in_metap _ _ _ _ inputs in
     _ ← palloc (m * 6);
     scored ← score_documents index (in_state _ _ _ _ inputs) (mp_level_heads metap) (in_query _ _ _ _ inputs)
                (f4_of_bits (mp_k1 metap)) (f4_of_bits (mp_b metap)) m tenant;
     let results := default [] scored in
     if m <? zlen results then Err OUT_OF_BOUNDS_ACCESS
     else Ok (0 <? zlen results,
              mkScanOpaque (Some text) (Some v) io
                (Some (results.*1 ++ replicate (Z.to_nat (m - zlen results)) invalid_tid))
                ((fun l => l.*2) <$> scored) (zlen results) 0 eof lim m tenant cfg)).
Proof.
  intros Hvec. unfold execute_scoring_query. cbn [so_query_text].
  rewrite (in_metapage_ok _ _ _ _ inputs), (in_state_ok _ _ _ _ inputs). cbn [mbind res_bind].
  cbn [forget_results so_query_vector so_query_text so_index_oid so_eof_reached so_limit so_max_results_used
       so_tenant_id so_query_config_oid].
  set (vector := match vec with Some v => Ok v | None => _ end).
  assert (Ev : vector = Ok v).
  { unfold vector. destruct Hvec as [-> | ->]; [|done]. by apply (in_vector_ok _ _ _ _ inputs). }
  rewrite Ev. cbn [mbind res_bind]. unfold tp_memtable_search.
  cbn [set_vector forget_results so_query_vector so_query_text so_index_oid so_eof_reached so_limit
       so_max_results_used so_tenant_id so_query_config_oid].
  pose proof (in_count_ok _ _ _ _ inputs) as Hc. fold (effective lim). cbv zeta.
  rewrite (palloc_small (entry_count v * 8)), (palloc_small (entry_count v * 4)) by lia. cbn [mbind res_bind].
  rewrite (in_query_ok _ _ _ _ inputs). done.
Qed.

Lemma execute_ok vec io ctids scores count pos eof lim used :
  vec = None \/ vec = Some v -> 0 < effective lim -> effective lim * 6 <= MaxAllocSize ->
  exists scores',
    execute index (mkScanOpaque (Some text) vec io ctids scores count pos eof lim used tenant cfg) =
      Ok (0 <? zlen (batch (effective lim)), scanning io lim (effective lim) 0 eof scores') /\
    (batch (effective lim) <> [] -> scores' = Some (batch (effective lim)).*2).
Proof.
  intros Hvec Hm Hp. rewrite execute_search by done. cbv zeta.
  rewrite palloc_small by lia. cbn [mbind res_bind].
  destruct (Hranks (effective lim) Hm) as (r & -> & Er). cbn [mbind res_bind].
  fold (batch (effective lim)) in Er. rewrite Er.
  pose proof (zlen_batch (effective lim) ltac:(lia)) as Hl.
  rewrite (proj2 (Z.ltb_ge (effective lim) (zlen (batch (effective lim))))) by lia.
  exists ((fun l => l.*2) <$> r). split; [done|]. intros Hne. destruct r as [l|]; [by simpl in *; subst|].
  by simpl in Er.
Qed.

(** ** Rows *)

Definition row (r : scored_document) : ItemPointerData * option float4 := (r.1, Some (distance r.2)).

Lemma batch_lookup m p r : 0 <= m -> 0 <= p < zlen (batch m) -> ranking !! Z.to_nat p = Some r ->
  zread (batch_ctids m) p = Ok r.1 /\ zread (batch m).*2 p = Ok r.2.
Proof.
  intros Hm Hp Hr. pose proof (zlen_batch m Hm).
  assert (Eb : batch m !! Z.to_nat p = Some r) by (unfold batch; rewrite lookup_take_lt; [done|lia]).
  unfold zread, batch_ctids. rewrite !zget_lookup by lia. split.
  - rewrite lookup_app_l by (rewrite length_fmap; unfold zlen in *; lia). by rewrite list_lookup_fmap, Eb.
  - by rewrite list_lookup_fmap, Eb.
Qed.

Lemma row_step fuel cl cs io lim m p tid ob r : 0 <= m -> 0 <= p < zlen (batch m) ->
  ranking !! Z.to_nat p = Some r ->
  current_row (S fuel) (session cl cs (scanning io lim m p false (Some (batch m).*2)) tid ob) =
    Ok (true, session cl (f8_of_f4 (distance r.2)) (scanning io lim m (p + 1) false (Some (batch m).*2))
                r.1 (Some (distance r.2))).
Proof.
  intros Hm Hp Hr. destruct (batch_lookup m p r Hm Hp Hr) as [Et Es].
  assert (Hb : ip_blkid r.1 <= TP_MAX_BLOCK_NUMBER).
  { rewrite Forall_forall in Hblocks. apply Hblocks. by apply list_elem_of_lookup_2 in Hr. }
  cbn [current_row]. unfold mbind, rst_bind. cbn [get_so session scan scan_opaque scanning so_current_pos so_result_ctids].
  unfold rst_lift at 1. cbn [from_option id]. change (default [] (Some (batch_ctids m))) with (batch_ctids m).
  rewrite Et. unfold TP_MAX_BLOCK_NUMBER, InvalidBlockNumber in *.
  rewrite (proj2 (Z.eqb_neq (ip_blkid r.1) 4294967295)) by lia.
  rewrite (proj2 (Z.ltb_ge 1000000 (ip_blkid r.1))) by lia. cbn [orb].
  unfold rst_gets, rst_lift. cbn [numberOfOrderBys scan session scanning so_result_scores].
  change (0 <? 1) with true. cbv iota beta.
  change (default [] (Some (batch m).*2)) with (batch m).*2. by rewrite Es.
Qed.

Lemma rst_bind_step {A B} (m : rst Session A) (f : A -> rst Session B) s a s' :
  m s = Ok (a, s') -> (m ≫= f) s = f a s'.
Proof. intros E. unfold mbind, rst_bind. by rewrite E. Qed.

Lemma rst_bind_err {A B} (m : rst Session A) (f : A -> rst Session B) s e : m s = Err e -> (m ≫= f) s = Err e.
Proof. intros E. unfold mbind, rst_bind. by rewrite E. Qed.

Abbreviation first := (first_results index_metapage local_index_state to_tsvector_byid to_tsvector
  tp_default_limit score_documents).
Abbreviation more := (more_results index_metapage local_index_state to_tsvector_byid to_tsvector
  tp_default_limit score_documents).

Lemma first_scanning cl cs io lim m p eof scores tid ob :
  let s := session cl cs (scanning io lim m p eof scores) tid ob in first s = Ok (true, s).
Proof. done. Qed.

Lemma more_in_batch cl cs io lim m p scores tid ob : p < zlen (batch m) ->
  let s := session cl cs (scanning io lim m p false scores) tid ob in more s = Ok (true, s).
Proof.
  intros Hp s. unfold more_results. rewrite (rst_bind_step get_so _ s (scanning io lim m p false scores) s) by done.
  cbn [so_result_count so_current_pos so_eof_reached scanning].
  by rewrite (proj2 (Z.leb_gt (zlen (batch m)) p)) by lia.
Qed.

(** Where the rows of a scan in a batch of [m] end. *)
Definition bound (m : Z) : Z := Z.max m TP_MAX_QUERY_LIMIT.

Lemma gettuple_row cl cs io lim m p tid ob r : 0 <= m -> 0 <= p < zlen (batch m) ->
  ranking !! Z.to_nat p = Some r ->
  gettuple (session cl cs (scanning io lim m p false (Some (batch m).*2)) tid ob) =
    Ok (true, session cl (f8_of_f4 (distance r.2)) (scanning io lim m (p + 1) false (Some (batch m).*2))
                r.1 (Some (distance r.2))).
Proof.
  intros Hm Hp Hr. unfold tp_gettuple. erewrite rst_bind_step by apply first_scanning. cbv beta iota.
  erewrite rst_bind_step by (apply more_in_batch; lia). cbv beta iota.
  erewrite rst_bind_step by done. by apply row_step.
Qed.

(** The end of a batch that was not full, or that may not grow. *)
Lemma gettuple_last cl cs io lim m p scores tid ob : zlen (batch m) <= p ->
  zlen (batch m) < m \/ TP_MAX_QUERY_LIMIT <= m ->
  let s := session cl cs (scanning io lim m p false scores) tid ob in gettuple s = Ok (false, s).
Proof.
  intros Hp Hm s. unfold tp_gettuple. unfold s. erewrite rst_bind_step by apply first_scanning. cbv beta iota.
  fold s. assert (E : more s = Ok (false, s)).
  { unfold more_results. rewrite (rst_bind_step get_so _ s (scanning io lim m p false scores) s) by done.
    cbn [so_result_count so_current_pos so_eof_reached so_max_results_used scanning].
    rewrite (proj2 (Z.leb_le (zlen (batch m)) p)) by lia. cbn [orb negb].
    destruct (Z.ltb_spec 0 (zlen (batch m))), (Z.leb_spec m (zlen (batch m))), (Z.ltb_spec m TP_MAX_QUERY_LIMIT);
      cbn [andb]; try done; lia. }
  erewrite rst_bind_step by exact E. done.
Qed.

(** A full batch grows; the rows returned are passed over. *)
Lemma more_full cl cs io lim m tid ob : 0 < m < TP_MAX_QUERY_LIMIT -> zlen (batch m) = m ->
  let m' := Z.min (m * 2) TP_MAX_QUERY_LIMIT in
  let s := session cl cs (scanning io lim m m false (Some (batch m).*2)) tid ob in
  if m <? zlen ranking
  then more s = Ok (true, session cl cs (scanning io m' m' m false (Some (batch m').*2)) tid ob)
  else exists so', more s = Ok (false, session cl cs so' tid ob).
Proof.
  intros Hm Hb m' s. unfold TP_MAX_QUERY_LIMIT in *.
  assert (Hm' : m < m' <= 100000) by (unfold m'; lia).
  assert (Heff : effective m' = m') by (unfold effective; by rewrite (proj2 (Z.ltb_lt 0 m')) by lia).
  destruct (execute_ok (Some v) io (Some (batch_ctids m)) (Some (batch m).*2) (zlen (batch m)) m false m' m)
    as (scores' & Ex & Hs'); [by right|lia|unfold MaxAllocSize; lia|]. rewrite Heff in Ex, Hs'.
  pose proof (zlen_batch m ltac:(lia)). pose proof (zlen_batch m' ltac:(lia)).
  assert (Es : tp_execute_scoring_query index_metapage local_index_state to_tsvector_byid to_tsvector
                 tp_default_limit score_documents
                 (session cl cs (set_limit m' (scanning io lim m m false (Some (batch m).*2))) tid ob) =
               Ok (0 <? zlen (batch m'), session cl cs (scanning io m' m' 0 false scores') tid ob)).
  { unfold tp_execute_scoring_query. cbn [session scan scan_opaque indexRelation].
    unfold set_limit, scanning at 1. cbn [so_query_text so_query_vector so_index_oid so_result_ctids so_result_scores
      so_result_count so_current_pos so_eof_reached so_max_results_used so_tenant_id so_query_config_oid scanning].
    rewrite Ex. done. }
  assert (Em : more s = (success ← tp_execute_scoring_query index_metapage local_index_state to_tsvector_byid
                  to_tsvector tp_default_limit score_documents;
                so ← get_so;
                if (success : bool) && (m <? so_result_count so) then
                  _ ← update_so (set_pos m); mret true
                else _ ← update_so set_eof; mret false)
              (session cl cs (set_limit m' (scanning io lim m m false (Some (batch m).*2))) tid ob)).
  { unfold more_results. rewrite (rst_bind_step get_so _ s (scanning io lim m m false (Some (batch m).*2)) s) by done.
    cbn [so_result_count so_current_pos so_eof_reached so_max_results_used scanning]. rewrite Hb, Z.leb_refl.
    rewrite (proj2 (Z.ltb_lt 0 m)), (proj2 (Z.ltb_lt m _)) by (unfold TP_MAX_QUERY_LIMIT; lia). cbn [orb andb negb].
    rewrite (swrap_small 32 (m * 2)) by lia. fold m'. by erewrite rst_bind_step by done. }
  rewrite Em. erewrite rst_bind_step by exact Es. erewrite rst_bind_step by done.
  cbn [so_result_count scanning]. rewrite (proj2 (Z.ltb_lt 0 (zlen (batch m')))) by lia. cbn [andb].
  destruct (Z.ltb_spec m (zlen ranking)) as [Hr|Hr].
  - rewrite (proj2 (Z.ltb_lt m (zlen (batch m')))) by lia. erewrite rst_bind_step by done.
    rewrite Hs'; [done|]. intros Hn. rewrite Hn in *. rewrite zlen_nil in *. lia.
  - rewrite (proj2 (Z.ltb_ge m (zlen (batch m')))) by lia. eexists. by erewrite rst_bind_step by done.
Qed.

(** ** All rows *)

Lemma gettuple_next cl cs io lim m tid ob r : 0 < m < TP_MAX_QUERY_LIMIT -> zlen (batch m) = m ->
  ranking !! Z.to_nat m = Some r ->
  let m' := Z.min (m * 2) TP_MAX_QUERY_LIMIT in
  gettuple (session cl cs (scanning io lim m m false (Some (batch m).*2)) tid ob) =
    Ok (true, session cl (f8_of_f4 (distance r.2)) (scanning io m' m' (m + 1) false (Some (batch m').*2))
                r.1 (Some (distance r.2))).
Proof.
  intros Hm Hb Hr m'. pose proof (lookup_lt_Some _ _ _ Hr) as Hlt.
  unfold tp_gettuple. erewrite rst_bind_step by apply first_scanning. cbv beta iota.
  pose proof (more_full cl cs io lim m tid ob Hm Hb) as Hmore. cbv zeta in Hmore. fold m' in Hmore.
  rewrite (proj2 (Z.ltb_lt m (zlen ranking))) in Hmore by (unfold zlen; lia).
  erewrite rst_bind_step by exact Hmore. cbv beta iota. erewrite rst_bind_step by done.
  unfold TP_MAX_QUERY_LIMIT in *. apply row_step; [lia| |done].
  rewrite zlen_batch by lia. unfold zlen. lia.
Qed.

Lemma drop_next {A} (l : list A) (p k : nat) x : l !! p = Some x -> (p < k)%nat ->
  drop p (take k l) = x :: drop (S p) (take k l).
Proof. intros Hx Hk. apply drop_S. by rewrite lookup_take_lt. Qed.

Lemma drain_scanning n : forall cl cs io lim m p tid ob, 0 < m -> 0 <= p <= zlen (batch m) ->
  exists s', drain n (session cl cs (scanning io lim m p false (Some (batch m).*2)) tid ob) =
    Ok (row <$> take n (drop (Z.to_nat p) (take (Z.to_nat (bound m)) ranking)), s').
Proof.
  induction n as [|n IH]; intros cl cs io lim m p tid ob Hm Hp; [by eexists|].
  pose proof (zlen_batch m ltac:(lia)) as Hl. cbn [drain].
  destruct (decide (p < zlen (batch m))) as [Hlt|Hge].
  - assert (is_Some (ranking !! Z.to_nat p)) as [r Hr] by (apply lookup_lt_is_Some; unfold zlen in *; lia).
    erewrite rst_bind_step by (apply (gettuple_row cl cs io lim m p tid ob r); [lia..|done]). cbv beta iota.
    erewrite rst_bind_step by done.
    destruct (IH cl (f8_of_f4 (distance r.2)) io lim m (p + 1) r.1 (Some (distance r.2)) Hm ltac:(lia)) as (s' & E).
    erewrite rst_bind_step by exact E. exists s'.
    rewrite (drop_next ranking (Z.to_nat p) _ r) by (done || unfold bound; lia).
    replace (Z.to_nat (p + 1)) with (S (Z.to_nat p)) by lia. done.
  - assert (Hpe : p = zlen (batch m)) by lia.
    destruct (decide (zlen (batch m) < m \/ TP_MAX_QUERY_LIMIT <= m)) as [Hend|Hfull].
    + erewrite rst_bind_step by (apply gettuple_last; [lia|done]). cbv beta iota.
      rewrite (drop_ge (take _ _)); [by eexists|]. rewrite length_take.
      unfold bound, zlen in *. destruct Hend; lia.
    + assert (Em : p = m) by lia. rewrite Em in *. clear Em Hpe Hge.
      destruct (decide (m < zlen ranking)) as [Hmore|Hno].
      * assert (is_Some (ranking !! Z.to_nat m)) as [r Hr] by (apply lookup_lt_is_Some; unfold zlen in *; lia).
        erewrite rst_bind_step by (apply (gettuple_next cl cs io lim m tid ob r); [lia|lia|done]). cbv beta iota.
        erewrite rst_bind_step by done. unfold TP_MAX_QUERY_LIMIT in *.
        set (m' := Z.min (m * 2) 100000).
        destruct (IH cl (f8_of_f4 (distance r.2)) io m' m' (m + 1) r.1 (Some (distance r.2))) as (s' & E);
          [lia|rewrite zlen_batch; lia|].
        erewrite rst_bind_step by exact E. exists s'.
        replace (bound m') with (bound m) by (unfold bound, TP_MAX_QUERY_LIMIT; lia).
        rewrite (drop_next ranking (Z.to_nat m) _ r) by (done || unfold bound, TP_MAX_QUERY_LIMIT; lia).
        replace (Z.to_nat (m + 1)) with (S (Z.to_nat m)) by lia. done.
      * pose proof (more_full cl cs io lim m tid ob ltac:(lia) ltac:(lia)) as Hmf. cbv zeta in Hmf.
        rewrite (proj2 (Z.ltb_ge m (zlen ranking))) in Hmf by lia. destruct Hmf as (so' & E).
        assert (Eg : gettuple (session cl cs (scanning io lim m m false (Some (batch m).*2)) tid ob) =
                     Ok (false, session cl cs so' tid ob)).
        { unfold tp_gettuple. erewrite rst_bind_step by apply first_scanning. cbv beta iota.
          by erewrite rst_bind_step by exact E. }
        erewrite rst_bind_step by exact Eg. cbv beta iota. rewrite drop_ge; [by eexists|].
        rewrite length_take. unfold zlen in *. lia.
Qed.

(** From a scan that has a query and no results yet. *)
Definition ready (io lim count used : Z) (eof : bool) : TpScanOpaqueData :=
  mkScanOpaque (Some text) None io None None count 0 eof lim used tenant cfg.

Lemma drain_ready n cl cs io lim count used tid ob :
  0 < effective lim -> effective lim * 6 <= MaxAllocSize ->
  exists s', drain n (session cl cs (ready io lim count used false) tid ob) =
    Ok (row <$> take n (take (Z.to_nat (bound (effective lim))) ranking), s').
Proof.
  intros Hm Hp. destruct n as [|n]; [by eexists|].
  set (s := session cl cs (ready io lim count used false) tid ob). set (m := effective lim) in *.
  destruct (execute_ok None io None None count 0 false lim used) as (scores & Ex & Hs); [by left|done|done|].
  fold m in Ex, Hs. pose proof (zlen_batch m ltac:(lia)) as Hl.
  assert (Ef : first s = if 0 <? zlen (batch m)
            then Ok (true, session cl cs (scanning io lim m 0 false scores) tid ob)
            else Ok (false, session cl cs (scanning io lim m 0 true scores) tid ob)).
  { unfold first_results. rewrite (rst_bind_step get_so _ s (ready io lim count used false) s) by done.
    cbn [ready so_result_ctids so_eof_reached bool_decide decide_rel andb negb].
    rewrite bool_decide_eq_true_2 by done. cbn [andb].
    erewrite rst_bind_step.
    2:{ unfold tp_execute_scoring_query, s. cbn [session scan scan_opaque indexRelation]. unfold ready. by rewrite Ex. }
    erewrite rst_bind_step by done. cbn [so_result_ctids scanning]. rewrite bool_decide_eq_false_2 by done.
    destruct (0 <? zlen (batch m)); cbn [andb negb]; [done|]. by erewrite rst_bind_step by done. }
  destruct (Z.ltb_spec 0 (zlen (batch m))) as [Hne|He].
  - rewrite Hs in Ef by (intros E; apply (f_equal zlen) in E; rewrite zlen_nil in E; lia).
    destruct (drain_scanning (S n) cl cs io lim m 0 tid ob Hm ltac:(lia)) as (s' & E).
    change (Z.to_nat 0) with 0%nat in E. rewrite drop_0 in E.
    assert (Eg : gettuple s = gettuple (session cl cs (scanning io lim m 0 false (Some (batch m).*2)) tid ob)).
    { unfold tp_gettuple. erewrite rst_bind_step by exact Ef.
      symmetry. by erewrite rst_bind_step by apply first_scanning. }
    exists s'. rewrite <- E. cbn [drain]. unfold mbind at 1 3, rst_bind at 1 3. by rewrite Eg.
  - assert (Er : ranking = []) by (destruct ranking as [|r rs]; [done|]; rewrite zlen_cons in Hl; pose proof (zlen_nonneg rs); lia).
    eexists. cbn [drain]. erewrite rst_bind_step.
    2:{ unfold tp_gettuple. by erewrite rst_bind_step by exact Ef. }
    cbv beta iota. rewrite Er. by destruct (Z.to_nat (bound m)).
Qed.

(** A limit whose CTIDs the allocator has no room for. *)
Lemma drain_large n cl cs io lim count used tid ob : MaxAllocSize < effective lim * 6 ->
  drain (S n) (session cl cs (ready io lim count used false) tid ob) = Err ERRCODE_INTERNAL_ERROR.
Proof.
  intros Hl. set (s := session cl cs (ready io lim count used false) tid ob).
  assert (Ex : execute index (ready io lim count used false) = Err ERRCODE_INTERNAL_ERROR).
  { unfold ready. rewrite execute_search by by left. cbv zeta. unfold palloc.
    destruct (palloc_ok (effective lim * 6)) eqn:Ep; [|done]. apply palloc_ok_iff in Ep. lia. }
  assert (Ef : first s = Err ERRCODE_INTERNAL_ERROR).
  { unfold first_results. rewrite (rst_bind_step get_so _ s (ready io lim count used false) s) by done.
    cbn [ready so_result_ctids so_eof_reached]. rewrite bool_decide_eq_true_2 by done. cbn [andb negb].
    apply rst_bind_err. unfold tp_execute_scoring_query, s. cbn [session scan scan_opaque indexRelation].
    by rewrite Ex. }
  cbn [drain]. apply rst_bind_err. unfold tp_gettuple. by apply rst_bind_err.
Qed.
End Scan.

(** ** A whole scan *)

Section Whole.
Context `{PallocLaws} `{QSort} `{Catalog}.
Context (index_metapage : Z -> res TpIndexMetaPageData) (local_index_state : Z -> option TpLocalIndexState).
Context (to_tsvector_byid : Z -> list byte -> TSVector) (to_tsvector : list byte -> TSVector).
Context (tp_default_limit : Z).

(** The text, the tenant and the language that a key on [index] asks for. *)
Definition key_query (index : Z) (arg : QueryArgument) : res (list byte * Z * Z) :=
  match arg with
  | ArgText text => Ok (c_str text, 0, InvalidOid)
  | ArgQuery q =>
      _ ← (if tpquery_has_index q then tp_rescan_validate_query_index (get_tpquery_index_oid q) index else Ok tt);
      Ok (get_tpquery_text q, get_tpquery_tenant_id q, get_tpquery_config_oid q)
  end.

(** The executor: begin, one key, and [n] requests for rows. *)
Definition run_scan (score_documents : Z -> TpLocalIndexState -> list Z -> list (list byte * Z) -> float4 -> float4 ->
      Z -> Z -> res (option (list scored_document))) (index : Z) (arg : QueryArgument) (n : nat)
    : rst Session (list (ItemPointerData * option float4)) :=
  _ ← tp_beginscan index 1;
  _ ← tp_rescan index_metapage [mkScanKey 1 arg];
  drain index_metapage local_index_state to_tsvector_byid to_tsvector tp_default_limit score_documents n.

(** The LIMIT the planner left for the index, or the default. *)
Definition scan_limit (index : Z) (current : TpCurrentLimit) : Z :=
  effective tp_default_limit (fst (tp_get_query_limit index current)).

(** The limit a scan begins with. *)
Definition initial_limit (index : Z) (current : TpCurrentLimit) : Z :=
  let query_limit := fst (tp_get_query_limit index current) in if 0 <? query_limit then query_limit else -1.

Lemma effective_initial index current :
  effective tp_default_limit (initial_limit index current) = scan_limit index current.
Proof.
  unfold scan_limit, effective, initial_limit. set (q := fst _).
  destruct (Z.ltb_spec 0 q) as [Hq|Hq]; cbv iota zeta; [|done]. by rewrite (proj2 (Z.ltb_lt 0 q) Hq).
Qed.

Lemma rescan_ready index arg text tenant cfg metap s : index_metapage index = Ok metap ->
  key_query index arg = Ok (text, tenant, cfg) ->
  exists count, tp_rescan index_metapage [mkScanKey 1 arg]
      (mkSession (tp_current_limit s) (tp_cached_score s) (mkScan index 1 (Some initial_opaque) invalid_tid None)) =
    Ok (tt, session index (snd (tp_get_query_limit index (tp_current_limit s))) (tp_cached_score s)
              (ready text tenant cfg index (initial_limit index (tp_current_limit s)) count 0 false) invalid_tid None).
Proof.
  intros Hm Hk. unfold initial_limit, tp_rescan. cbn [scan scan_opaque indexRelation tp_current_limit].
  destruct (tp_get_query_limit index (tp_current_limit s)) as [ql current]. cbn [fst snd].
  rewrite bool_decide_eq_false_2 by done. rewrite Hm. cbn [mbind res_bind].
  cbn [tp_rescan_process_orderby sk_strategy sk_argument]. change (1 =? 1) with true. cbn [negb].
  destruct arg as [t|q]; cbn [key_query] in Hk.
  - injection Hk as <- <- <-. eexists. done.
  - destruct (if tpquery_has_index q then _ else _) as [[]|]; [|done]. cbn [mbind res_bind] in Hk |- *.
    injection Hk as <- <- <-. eexists. done.
Qed.

Lemma run_scan_ok score_documents index arg text tenant cfg
    (inputs : scan_inputs index_metapage local_index_state to_tsvector_byid to_tsvector index text tenant cfg)
    ranking n s :
  key_query index arg = Ok (text, tenant, cfg) ->
  ranks_with score_documents index tenant (in_metap _ _ _ _ _ _ _ _ inputs) (in_state _ _ _ _ _ _ _ _ inputs)
    (in_query _ _ _ _ _ _ _ _ inputs) ranking ->
  Forall (fun r => ip_blkid r.1 <= TP_MAX_BLOCK_NUMBER) ranking ->
  let m := scan_limit index (tp_current_limit s) in
  0 < m -> m * 6 <= MaxAllocSize ->
  ensures (run_scan score_documents index arg n) s (fun rows _ =>
    rows = row <$> take n (take (Z.to_nat (bound m)) ranking)).
Proof.
  intros Hk Hr Hb m Hm Hp. unfold run_scan. apply ensures_bind, ensures_modify, ensures_bind.
  destruct (rescan_ready index arg text tenant cfg _ s (in_metapage_ok _ _ _ _ _ _ _ _ inputs) Hk) as (count & Er).
  exists tt. eexists. split; [exact Er|].
  edestruct (drain_ready index_metapage local_index_state to_tsvector_byid to_tsvector tp_default_limit score_documents
    index text tenant cfg inputs ranking Hr Hb n) as (s' & E); [by rewrite effective_initial..|].
  rewrite effective_initial in E. eexists _, s'. split; [exact E|done].
Qed.

Lemma run_scan_large score_documents index arg text tenant cfg
    (inputs : scan_inputs index_metapage local_index_state to_tsvector_byid to_tsvector index text tenant cfg) n s :
  key_query index arg = Ok (text, tenant, cfg) ->
  MaxAllocSize < scan_limit index (tp_current_limit s) * 6 ->
  run_scan score_documents index arg (S n) s = Err ERRCODE_INTERNAL_ERROR.
Proof.
  intros Hk Hl. unfold run_scan. erewrite rst_bind_step by done.
  destruct (rescan_ready index arg text tenant cfg _ s (in_metapage_ok _ _ _ _ _ _ _ _ inputs) Hk) as (count & Er).
  erewrite rst_bind_step by exact Er.
  apply (drain_large _ _ _ _ _ _ index text tenant cfg inputs). by rewrite effective_initial.
Qed.

(** ** The exhaustive scoring path keeps the interface's promise *)

Context {R : Type} `{SegmentAccess R} `{ItemPointerLaws} `{DsaAllocator} `{HashSeqLaws}.
Context (segment_open_ex : Z -> Z -> bool -> res (option R)) (reader_root_block : R -> Z).
Context (open_ex : Z -> Z -> option (Z -> ItemPointerData)) (chain_fuel : nat) (ln : float8 -> float8).

(** [tp_score_documents] on the segments of an index. *)
Definition index_scorer (tp_enable_bmw : bool) (index : Z) (state : TpLocalIndexState) (heads : list Z)
    (query : list (list byte * Z)) (k1 b : float4) (max_results tenant_id : Z)
    : res (option (list scored_document)) :=
  tp_score_documents (segment_open_ex index) reader_root_block (open_ex index) chain_fuel ln tp_enable_bmw
    state heads query k1 b max_results tenant_id.

Definition scored (d : doc) : scored_document := (d.1, dse_score d.2).

(** The table of scores of a query, from the memtable and all segments. *)
Definition scores_of (index : Z) (state : TpLocalIndexState) (metap : TpIndexMetaPageData)
    (query : list (list byte * Z)) (tenant : Z) (table : gmap ItemPointerData DocumentScoreEntry) : Prop :=
  exists docs avg, corpus_statistics state tenant = Ok (Some (docs, avg)) /\
    doc_scores (segment_open_ex index) chain_fuel ln docs (f4_of_bits (mp_k1 metap)) (f4_of_bits (mp_b metap))
      avg tenant state (mp_level_heads metap) query = Ok table.

Lemma exhaustive_ranks index tenant metap state query table ranking :
  query <> [] -> scores_of index state metap query tenant table -> Forall ranked (map_to_list table) ->
  ranking ≡ₚ map_to_list table -> StronglySorted before ranking ->
  ranks_with (index_scorer false) index tenant metap state query (scored <$> ranking).
Proof.
  intros Hq (docs & avg & Ec & Ed) HF HP Hs k Hk.
  exists (Some (scored <$> take (Z.to_nat k) ranking)). split; [|cbn; by rewrite fmap_take].
  unfold index_scorer, tp_score_documents.
  rewrite (proj2 (Z.leb_gt (zlen query) 0)) by (destruct query as [|t query]; [done|]; rewrite zlen_cons; pose proof (zlen_nonneg query); lia).
  rewrite (proj2 (Z.leb_gt k 0)) by lia. cbn [orb]. rewrite Ec. cbn [mbind res_bind].
  rewrite Ed. cbn [mbind res_bind]. rewrite (extract_front _ _ ranking) by done. cbn [mbind res_bind].
  unfold tp_copy_results_to_output. cbn [fmap list_fmap]. by rewrite app_nil_r.
Qed.
End Whole.

(** ** Properties *)

Section Properties.
Context `{PallocLaws} `{QSort} `{Catalog} {R : Type} `{SegmentAccess R} `{ItemPointerLaws} `{DsaAllocator} `{HashSeqLaws}.
Context (index_metapage : Z -> res TpIndexMetaPageData) (local_index_state : Z -> option TpLocalIndexState).
Context (to_tsvector_byid : Z -> list byte -> TSVector) (to_tsvector : list byte -> TSVector).
Context (tp_default_limit : Z).
Context (segment_open_ex : Z -> Z -> bool -> res (option R)) (reader_root_block : R -> Z).
Context (open_ex : Z -> Z -> option (Z -> ItemPointerData)) (chain_fuel : nat) (ln : float8 -> float8).

Abbreviation run tp_enable_bmw := (run_scan index_metapage local_index_state to_tsvector_byid to_tsvector tp_default_limit
  (index_scorer segment_open_ex reader_root_block open_ex chain_fuel ln tp_enable_bmw)).


(** A LIMIT of 178956971 or more that the planner pushes down makes the scan
    fail, however few documents the index has: the array of CTIDs is allocated for
    the whole LIMIT. *)
Theorem large_limit_fails index arg text tenant cfg limit current tp_enable_bmw
    (inputs : scan_inputs index_metapage local_index_state to_tsvector_byid to_tsvector index text tenant cfg) n s :
  key_query index arg = Ok (text, tenant, cfg) -> 178956971 <= limit < 2 ^ 31 - 1 ->
  tp_current_limit s = push_down_limit index 1 0 limit current ->
  run tp_enable_bmw index arg (S n) s = Err ERRCODE_INTERNAL_ERROR.
Proof.
  intros Hk Hl Hs. apply (run_scan_large _ _ _ _ _ _ index arg text tenant cfg inputs); [done|].
  rewrite Hs. unfold push_down_limit, tp_can_pushdown_limit. change (1 =? 0) with false. cbv iota.
  rewrite (proj2 (Z.ltb_lt 0 limit)), (proj2 (Z.ltb_lt limit (2 ^ 31 - 1))), (proj2 (Z.leb_gt limit 0)) by lia.
  change (1 =? 1) with true. change (0 <? 0) with false. cbn [negb andb].
  unfold scan_limit, tp_get_query_limit, tp_store_query_limit. cbn [cl_is_valid cl_index_oid cl_limit negb].
  rewrite Z.eqb_refl. unfold effective. cbn [fst]. rewrite (proj2 (Z.ltb_lt 0 limit)) by lia.
  unfold MaxAllocSize. lia.
Qed.

(** Without a text search configuration the query that an index scan makes of a text
    does not depend on the text. *)
Theorem unconfigured_index_ignores_query index_name text1 text2 metap index_oid :
  tp_resolve_index_name_shared index_name = Ok index_oid -> index_metapage index_oid = Ok metap ->
  mp_text_config_oid metap = InvalidOid ->
  to_tpvector index_metapage to_tsvector_byid to_tsvector text1 index_name =
  to_tpvector index_metapage to_tsvector_byid to_tsvector text2 index_name.
Proof.
  intros Hr Hm Hc. unfold to_tpvector. rewrite Hr. cbn [mbind res_bind]. destruct (OidIsValid index_oid); [|done].
  cbn [negb]. rewrite Hm. cbn [mbind res_bind]. by rewrite Hc.
Qed.
End Properties.

(** ** Witnesses: the catalog of CatalogFacts and the memtable of MemtableFacts *)

Section Witnesses.
#[local] Existing Instances max_allocator max_allocator_laws.
#[local] Existing Instances BmwSingle.demo_access.

Definition demo_meta (index : Z) : res TpIndexMetaPageData := Ok demo_metapage.
Definition demo_states (index : Z) : option TpLocalIndexState := Some (indexed_state demo_documents).
Definition demo_default_tokens (text : list byte) : TSVector := demo_tokens 0 text.

Definition demo_query_vector : TpVector :=
  Eval vm_compute in match vector_of_tsvector [x64; x31] [([x62], Some 2)] with
                     | Ok v => v
                     | Err _ => mkTpVector 0 0 0 []
                     end.

Definition demo_inputs : scan_inputs demo_meta demo_states demo_tokens demo_default_tokens 101 [x62] 0 InvalidOid.
Proof.
  refine (mkInputs _ _ _ _ 101 [x62] 0 InvalidOid demo_metapage (indexed_state demo_documents) demo_query_vector
    [([x62], 2)] eq_refl eq_refl _ _ _).
  - intros so Hso. unfold vector_of_query. rewrite Hso. vm_compute. reflexivity.
  - vm_compute. reflexivity.
  - vm_compute. split; discriminate.
Defined.

Definition demo_table : gmap ItemPointerData DocumentScoreEntry :=
  Eval vm_compute in
    match doc_scores (no_segments_open 101) 1 constant_ln 3 (f4_of_bits (mp_k1 demo_metapage))
            (f4_of_bits (mp_b demo_metapage)) (average_length 8 3) 0 (indexed_state demo_documents)
            (mp_level_heads demo_metapage) [([x62], 2)] with
    | Ok table => table
    | Err _ => ∅
    end.
Definition demo_ranking : list doc :=
  Eval vm_compute in match tp_extract_and_sort_documents demo_table 10 with Ok l => l | Err _ => [] end.

Definition demo_session (current : TpCurrentLimit) : Session :=
  mkSession current (f8_of_Z 0) (mkScan 0 0 None invalid_tid None).


(** What block-max scoring keeps of two documents with the same score in different
    segments: the heap compares them by their numbers in the segments, and sorts the
    results by CTID. *)
Definition tied_candidates : list candidate := [SegmentResult 9 5 f4_one; SegmentResult 7 2 f4_one].
Definition tied_ctids (segment : Z) : option (Z -> ItemPointerData) :=
  Some (fun doc => mkItemPointer (if segment =? 9 then 1 else 2) doc).
Definition heap_scorer (index : Z) (state : TpLocalIndexState) (heads : list Z) (query : list (list byte * Z))
    (k1 b : float4) (max_results tenant_id : Z) : res (option (list scored_document)) :=
  Ok (Some (fst (tp_topk_extract (tp_topk_resolve_ctids tied_ctids
    (foldl tp_topk_add (tp_topk_init (Z.to_nat max_results)) tied_candidates))))).

(** When the limit is doubled, the first result of the new batch need not be the
    row that was returned from the old one: of two documents with the same score in
    different segments, the scan returns one twice and the other never. *)
Theorem tied_row_returned_twice :
  exists s', run_scan demo_meta demo_states demo_tokens demo_default_tokens 1 heap_scorer 101 (ArgText [x62]) 3
    (demo_session no_limit) =
  Ok ([(mkItemPointer 2 2, Some (distance f4_one)); (mkItemPointer 2 2, Some (distance f4_one))], s') /\
  fst (tp_topk_extract (tp_topk_resolve_ctids tied_ctids (foldl tp_topk_add (tp_topk_init 2) tied_candidates))) =
    [(mkItemPointer 1 5, f4_one); (mkItemPointer 2 2, f4_one)].
Proof. eexists. split; vm_compute; reflexivity. Qed.

Lemma large_limit_fails_witness :
  run_scan demo_meta demo_states demo_tokens demo_default_tokens 1000
    (index_scorer no_segments_open (fun _ => 0) (fun _ _ => None) 1 constant_ln true) 101 (ArgText [x62]) 1
    (demo_session (push_down_limit 101 1 0 200000000 no_limit)) = Err ERRCODE_INTERNAL_ERROR.
Proof.
  apply (large_limit_fails demo_meta demo_states demo_tokens demo_default_tokens 1000 no_segments_open (fun _ => 0)
    (fun _ _ => None) 1 constant_ln 101 (ArgText [x62]) [x62] 0 InvalidOid 200000000 no_limit true demo_inputs 0);
    [reflexivity|lia|reflexivity].
Defined.
End Witnesses.
