(* ===== verification/InsertFacts.v ===== *)
(** * Inserting a document

    [index_inv] is the invariant of an open index: the memtable holds some documents,
    the segments hold others, the docid chain is well formed and on pages of its own.
    An insertion adds one document to the memtable, which may spill, and its CTID to
    the docid chain. *)
From S2P Require Import Prelude Postgres Fieldnorm SegmentFormat Compression Storage SegmentIO.
From S2P Require Import Docmap SegmentScan ScanFacts Memtable MemtableFacts SegmentWrite SegmentWriteFacts.
From S2P Require Import SegmentEmit SegmentLayout SegmentOpen SegmentContent SegmentDocs SegmentRoundtrip.
From S2P Require Import Metapage MetapageFacts DocidChain DocidEvents TenantPages Merge MergeWrite Lifecycle.
From S2P Require Import MergeReaders MergeTerms MergePostings MergeDocs MergeEmit MergePlan MergeSegment.
From S2P Require Import MergeLevel MergeProperties Levels SpillFacts IndexDocs IndexProperties.

Section InsertFacts.
Context `{PgLayoutLaws} `{FreeSpaceMapLaws} `{ItemPointerLaws} `{QSortLaws} `{HashSeqLaws}.
Context `{DsaAllocatorLaws}.
Abbreviation P := SEGMENT_DATA_PER_PAGE.
Abbreviation segments := (list (list chain_segment)).

(** ** The docid pages and the segments *)

Definition docid_pages_apart (st : Storage) (segs : segments) (pages : docid_pages) : Prop :=
  forall b, b ∈ pages.*1 -> b ∉ st_fsm st /\ b ∉ level_pages (concat segs).

Lemma docids_step_wf st pages st' pages' : storage_wf st -> docids_step st pages st' pages' -> storage_wf st'.
Proof.
  intros [W1 W2 W3 W4] [[D1 D2 _ _ _] Hn _ _ Hf _ _]. split; rewrite ?Hf; [exact D1| |done|lia].
  eapply Forall_impl; [exact W2|]. cbn. lia.
Qed.

Lemma docids_step_index_ok st segs pages st' pages' : index_ok st segs -> docid_pages_apart st segs pages ->
  docids_step st pages st' pages' -> index_ok st' segs.
Proof.
  intros Hix Hap Hs. pose proof Hix as [Hwf Hlen Hc Hcn [Hnd HF]]. pose proof (docids_step_wf _ _ _ _ Hwf Hs) as Hwf'.
  pose proof (ds_count _ _ _ _ Hs) as Hn. pose proof (di_count _ _ (ds_inv _ _ _ _ Hs)) as Hl.
  destruct (ds_meta _ _ _ _ Hs) as [first Em].
  split; rewrite ?Em; cbn [set_first_docid_page mp_level_heads mp_level_counts]; try done.
  - intros l gs Hgs. eapply level_chain_same; [|by apply Hc].
    split; [done|lia|]. intros b Hb. pose proof (level_page_used _ _ _ _ Hix Hgs) as HF2.
    rewrite Forall_forall in HF2. apply (ds_frame _ _ _ _ Hs); [by apply HF2|]. intros Hb2.
    destruct (Hap b Hb2) as [_ Hno]. apply Hno. apply elem_of_concat in Hb as (pl & Hb & (x & -> & Hx)%list_elem_of_fmap).
    apply elem_of_concat. exists (chain_pages x). split; [done|]. apply list_elem_of_fmap_2.
    eapply elem_of_submseteq; [exact Hx|by eapply level_parts].
  - split; [done|]. eapply Forall_impl; [exact HF|]. intros b [? ?]. rewrite (ds_fsm _ _ _ _ Hs). split; [lia|done].
Qed.

Lemma docids_step_apart st segs pages st' pages' : index_ok st segs -> docid_pages_apart st segs pages ->
  docids_step st pages st' pages' -> docid_pages_apart st' segs pages'.
Proof.
  intros Hix Hap Hs b Hb. rewrite (ds_fsm _ _ _ _ Hs).
  destruct (ds_new _ _ _ _ Hs b Hb) as [Hold|Hnew]; [by apply Hap|].
  pose proof (swf_fsm _ (io_wf _ _ Hix)) as HF1. pose proof (la_used _ _ (io_apart _ _ Hix)) as HF2.
  rewrite Forall_forall in HF1, HF2. split; intros Hb2; [specialize (HF1 b Hb2)|destruct (HF2 b Hb2)]; lia.
Qed.

(** ** The invariant *)

Record index_inv (oid : Z) (ix : Index) (frame : dsa_area) (segs : segments) (mem old : list document)
    (pages : docid_pages) : Prop := {
  iv_memtable : holds (ix_state ix) frame mem;
  iv_mode : mode_ok (ix_state ix) frame;
  iv_segments : index_holds (ix_storage ix) segs old;
  iv_docids : docids_inv (ix_storage ix) pages;
  iv_apart : docid_pages_apart (ix_storage ix) segs pages;
  iv_cache : cache_ok oid pages (ix_docid_cache ix);
}.

(** Counting the terms changes neither documents nor totals. *)
Lemma calculate_idf_sum_ok st frame docs : holds st frame docs ->
  ensures tp_calculate_idf_sum st (fun _ st' => holds st' frame docs /\ is_build_mode st' = is_build_mode st /\
    total_docs st' = total_docs st /\ total_len st' = total_len st /\
    terms_added_this_xact st' = terms_added_this_xact st /\
    tenant_stats (memtable st') = tenant_stats (memtable st) /\
    build_tenant_stats_accum st' = build_tenant_stats_accum st).
Proof.
  intros [Hs Hl Hp]. unfold tp_calculate_idf_sum. apply ensures_bind, ensures_gets.
  destruct (total_docs st =? 0); [by apply ensures_ret|].
  destruct (string_table (memtable st)) as [ht|] eqn:Eht; [|by apply ensures_ret].
  apply ensures_modify. split; [|done]. split; cbn; [|done|done].
  destruct Hs as [own Hs]. exists own. unfold table in *. cbn. by rewrite Eht in *.
Qed.

(** ** The tenants during a build

    A build knows the tenants of the memtable from its table, those of the documents
    that were spilled from what clearing saved. *)

Definition tenants_known (m : option (gmap Z TpTenantStatsEntry)) (docs : list document) : Prop :=
  keyed m /\ forall tid, default ∅ m !! tid <> None <-> tid <> 0 /\ tid ∈ doc_tenant <$> docs.

Record build_tenants (st : TpLocalIndexState) (mem old : list document) : Prop := {
  bt_mode : is_build_mode st = true;
  bt_memtable : tenants_known (tenant_stats (memtable st)) mem;
  bt_saved : tenants_known (build_tenant_stats_accum st) old;
}.

Lemma tenants_known_none : tenants_known None [].
Proof.
  split; [intros tid e; cbn; by rewrite lookup_empty|]. intros tid. cbn. rewrite lookup_empty.
  split; [done|]. intros [_ Hin]. by apply not_elem_of_nil in Hin.
Qed.

Lemma build_tenants_add st st' mem old d : build_tenants st mem old -> is_build_mode st' = is_build_mode st ->
  build_tenant_stats_accum st' = build_tenant_stats_accum st ->
  (forall tid, tenant_entry st' tid =
     if (doc_tenant d =? tid) && negb (tid =? 0) then Some (bump_tenant (doc_length d) tid (tenant_entry st tid))
     else tenant_entry st tid) ->
  build_tenants st' (mem ++ [d]) old.
Proof.
  intros [Hb [Hk Hm] Hs] Eb Ea Ht. unfold tenant_entry in Ht. split; [congruence| |by rewrite Ea].
  split; intros tid.
  - intros e. rewrite Ht. destruct (_ && _); [|apply Hk]. intros [= <-].
    destruct (default ∅ (tenant_stats (memtable st)) !! tid) as [e|] eqn:E; [by apply Hk in E|done].
  - rewrite Ht, fmap_app, elem_of_app. cbn. rewrite list_elem_of_singleton.
    destruct (Z.eqb_spec (doc_tenant d) tid) as [E|N], (Z.eqb_spec tid 0) as [E0|N0]; cbn; rewrite ?Hm; naive_solver.
Qed.

Lemma build_tenants_spill st st' mem old : build_tenants st mem old -> is_build_mode st' = is_build_mode st ->
  tenants_cleared st st' -> build_tenants st' [] (mem ++ old).
Proof.
  intros [Hb [Hk Hm] [Hks Hs]] Eb Hc. unfold tenants_cleared in Hc. rewrite Hb in Hc. destruct Hc as [Et Hc].
  destruct (Hc Hk) as [Hk' Htot]. split; [congruence|rewrite Et; apply tenants_known_none|]. split; [by apply Hk'|].
  intros tid. specialize (Htot tid). unfold stat_total, tenant_entry in Htot. rewrite Et in Htot. cbn in Htot.
  rewrite lookup_empty in Htot. rewrite fmap_app, elem_of_app. specialize (Hm tid). specialize (Hs tid).
  destruct (default ∅ (build_tenant_stats_accum st') !! tid), (default ∅ (build_tenant_stats_accum st) !! tid),
    (default ∅ (tenant_stats (memtable st)) !! tid); cbn in Htot; simplify_eq; naive_solver.
Qed.

(** ** Adding the CTID *)

Lemma record_ctid_ok oid ix frame segs mem old pages p : 120 <= P -> index_inv oid ix frame segs mem old pages ->
  ctid_ok p -> nblocks (ix_storage ix) + 2 < InvalidBlockNumber ->
  ensures (on_docids (tp_add_docid_to_pages oid p)) ix (fun _ ix' => exists pages',
    index_inv oid ix' frame segs mem old pages' /\ docids pages' = docids pages ++ [p] /\
    ix_state ix' = ix_state ix).
Proof.
  intros HP [I1 I2 [I3 I4 I5] I6 I7 I8] Hp Hn. apply ensures_on_docids.
  eapply ensures_mono; [by apply (tp_add_docid_to_pages_ok HP (ix_storage ix) pages oid)|].
  intros c st' (pages' & Hs & Hd & Hc & _). exists pages'. split; [|done].
  split; cbn [ix_state ix_storage ix_docid_cache]; try done; [|apply (ds_inv _ _ _ _ Hs)|by eapply docids_step_apart].
  split; [by eapply docids_step_index_ok|done|done].
Qed.

(** ** Adding the terms *)

Section Insert.
Context (tp_compress_segments : bool) (tp_segments_per_level now threshold oid : Z).
Context (HP : 120 <= P) (Hnow : 0 <= now < 2 ^ 64) (Hper : 2 <= tp_segments_per_level <= 64).

(** The memtable of [docs] is over the threshold. *)
Definition spills (docs : list document) : bool := (0 <? threshold) && (threshold <=? index_size docs).

Lemma auto_spill_ok ix frame segs mem old pages : index_inv oid ix frame segs mem old pages ->
  (spills mem = true -> spill_ready tp_compress_segments tp_segments_per_level now true ix segs mem old) ->
  (forall ix', tp_auto_spill_if_needed tp_compress_segments tp_segments_per_level now threshold ix = Ok (tt, ix') ->
    nblocks (ix_storage ix') < InvalidBlockNumber) ->
  ensures (tp_auto_spill_if_needed tp_compress_segments tp_segments_per_level now threshold) ix (fun _ ix' =>
    total_docs (ix_state ix') = total_docs (ix_state ix) /\ total_len (ix_state ix') = total_len (ix_state ix) /\
    if spills mem then (exists segs', index_inv oid ix' frame segs' [] (mem ++ old) []) /\
      (build_tenants (ix_state ix) mem old -> build_tenants (ix_state ix') [] (mem ++ old))
    else ix' = ix).
Proof.
  intros Hiv Hready Hroom. pose proof Hiv as [I1 I2 I3 I4 I5 I6]. unfold spills in *.
  unfold tp_auto_spill_if_needed in *.
  assert (Ep : total_postings (memtable (ix_state ix)) = index_size mem) by apply (h_postings _ _ _ I1).
  destruct (Z.leb_spec threshold 0) as [L|L].
  { rewrite (proj2 (Z.ltb_ge 0 threshold)) by lia. apply ensures_bind, ensures_gets. by apply ensures_ret. }
  rewrite (proj2 (Z.ltb_lt 0 threshold)) in * by lia. cbn [andb] in *.
  destruct (Z.leb_spec threshold (index_size mem)) as [L2|L2]; cycle 1.
  { apply ensures_bind, ensures_gets. rewrite Ep, (proj2 (Z.ltb_lt _ _)) by lia. by apply ensures_ret. }
  destruct (spill_ok tp_compress_segments tp_segments_per_level now true ix frame segs mem old I1 I2 I3
    (Hready eq_refl) Hper HP Hnow) as (block & ix' & E & _ & segs' & [S1 S2 S3 S3' [S4 S5] (M1 & M2 & _ & _ & M3) S6]).
  exists tt, ix'.
  assert (Erun : (rst_gets ix_state ≫= fun state => if total_postings (memtable state) <? threshold then mret tt
    else spill tp_compress_segments tp_segments_per_level now true ≫= fun _ => mret tt) ix = Ok (tt, ix')).
  { unfold mbind, rst_bind, rst_gets. rewrite Ep, (proj2 (Z.ltb_ge _ _)) by lia. by rewrite E. }
  split; [exact Erun|]. split; [done|]. split; [done|].
  split; [exists segs'|intros Hbt; by eapply build_tenants_spill].
  pose proof (io_wf _ _ (ih_ok _ _ _ S1)) as Hwf. specialize (Hroom ix' Erun).
  split; try done.
  - intros Eb. apply I2. congruence.
  - split; [apply (swf_pages _ Hwf)|pose proof (swf_metapage _ Hwf); lia|rewrite M1; apply I4|rewrite M2; apply I4|].
    rewrite M3. split; [done|done|done|constructor].
  - intros b Hb. by apply not_elem_of_nil in Hb.
  - intros Hv. by rewrite S6 in Hv.
Qed.

(** The index after the terms of [d] are added, if that does not spill. *)
Definition with_document (ix : Index) (d : document) : Index :=
  match add_document d (ix_state ix) with
  | Ok (_, state) => mkIndex state (ix_storage ix) (ix_docid_cache ix)
  | Err _ => ix
  end.

(** What the insertion of [d] must find. *)
Record insert_ready (ix : Index) (segs : segments) (mem old : list document) (d : document) : Prop := {
  ir_document : document_ok d;
  ir_ctid : ItemPointerIsValid (doc_ctid d) = true /\ ctid_ok (doc_ctid d);
  ir_terms : doc_terms d <> [];
  ir_size : index_size (mem ++ [d]) < 2 ^ 30;
  ir_spill : spills (mem ++ [d]) = true ->
    spill_ready tp_compress_segments tp_segments_per_level now true (with_document ix d) segs (mem ++ [d]) old;
  ir_blocks : nblocks (ix_storage ix) + 2 < InvalidBlockNumber;
  ir_room : forall ix', tp_auto_spill_if_needed tp_compress_segments tp_segments_per_level now threshold
      (with_document ix d) = Ok (tt, ix') -> nblocks (ix_storage ix') + 2 < InvalidBlockNumber;
}.

Lemma process_terms_ok ix frame segs mem old pages d : index_inv oid ix frame segs mem old pages ->
  insert_ready ix segs mem old d ->
  ensures (process_terms tp_compress_segments tp_segments_per_level now (Some threshold) (doc_ctid d) (doc_terms d)
      (doc_frequencies d) (doc_length d) (doc_tenant d)) ix (fun _ ix' =>
    total_docs (ix_state ix') = i32 (total_docs (ix_state ix) + 1) /\
    total_len (ix_state ix') = i64 (total_len (ix_state ix) + doc_length d) /\
    nblocks (ix_storage ix') + 2 < InvalidBlockNumber /\
    if spills (mem ++ [d])
    then (exists segs', index_inv oid ix' frame segs' [] ((mem ++ [d]) ++ old) []) /\
      (build_tenants (ix_state ix) mem old -> build_tenants (ix_state ix') [] ((mem ++ [d]) ++ old))
    else index_inv oid ix' frame segs (mem ++ [d]) old pages /\
      (build_tenants (ix_state ix) mem old -> build_tenants (ix_state ix') (mem ++ [d]) old)).
Proof.
  intros Hiv [R1 _ R3 R4 R5 R6 R7]. pose proof Hiv as [I1 I2 I3 I4 I5 I6]. unfold process_terms.
  assert (Hpos : (0 <? zlen (doc_terms d)) = true).
  { apply Z.ltb_lt. destruct (doc_terms d) as [|t ts]; [done|]. rewrite zlen_cons. pose proof (zlen_nonneg ts). lia. }
  rewrite Hpos. apply ensures_bind, ensures_on_state.
  destruct (add_document_ok (ix_state ix) frame mem d I1 R1 R4) as ([] & state & E & Hh & Etd & Etl & Ebm & Eacc & _ & Hten).
  exists tt, state. split; [exact E|].
  assert (Ew : with_document ix d = mkIndex state (ix_storage ix) (ix_docid_cache ix)) by (unfold with_document; by rewrite E).
  rewrite Ew in *. set (ix1 := mkIndex state _ _) in *.
  assert (Hiv1 : index_inv oid ix1 frame segs (mem ++ [d]) old pages).
  { split; try done. intros Eb. apply I2. cbn in Eb. congruence. }
  assert (Hbt : build_tenants (ix_state ix) mem old -> build_tenants state (mem ++ [d]) old)
    by (intros Hbt; by eapply build_tenants_add).
  destruct (auto_spill_ok ix1 frame segs (mem ++ [d]) old pages Hiv1 R5) as ([] & ix' & E' & E1 & E2 & Hq).
  { intros ix' E'. specialize (R7 ix' E'). lia. }
  exists tt, ix'. split; [exact E'|]. rewrite E1, E2. split; [done|]. split; [done|]. split; [by apply R7|].
  destruct (spills (mem ++ [d])); [|by subst ix'].
  destruct Hq as [Hq Hbt']. split; [done|]. intros Hb. by apply Hbt', Hbt.
Qed.
End Insert.

(** The whole insertion. *)
Lemma tp_insert_ok (tp_compress_segments : bool) (tp_segments_per_level now threshold oid : Z)
    (ix : Index) (frame : dsa_area) (segs : segments) (mem old : list document) (pages : docid_pages)
    (d : document) :
  index_inv oid ix frame segs mem old pages ->
  insert_ready tp_compress_segments tp_segments_per_level now threshold ix segs mem old d ->
  2 <= tp_segments_per_level <= 64 -> 120 <= SEGMENT_DATA_PER_PAGE -> 0 <= now < 2 ^ 64 ->
  ensures (tp_insert tp_compress_segments tp_segments_per_level now threshold oid (doc_ctid d) (doc_terms d)
      (doc_frequencies d) (doc_length d) (doc_tenant d)) ix (fun _ ix' => exists segs' pages',
    (if spills threshold (mem ++ [d])
     then index_inv oid ix' frame segs' [] ((mem ++ [d]) ++ old) pages' /\ docids pages' = [doc_ctid d]
     else index_inv oid ix' frame segs' (mem ++ [d]) old pages' /\ docids pages' = docids pages ++ [doc_ctid d]) /\
    total_docs (ix_state ix') = i32 (total_docs (ix_state ix) + 1) /\
    total_len (ix_state ix') = i64 (total_len (ix_state ix) + doc_length d)).
Proof.
  intros Hiv Hready Hper HP Hnow. pose proof Hready as [_ [Hval Hctid] _ _ _ _ _]. unfold tp_insert.
  rewrite Hval. cbn [negb]. apply ensures_bind.
  eapply ensures_mono; [by apply (process_terms_ok tp_compress_segments tp_segments_per_level now threshold oid HP Hnow Hper)|].
  intros [] ix1 (Etd & Etl & Hn & Hq).
  assert (Hcase : exists segs1 mem1 old1 pages1, index_inv oid ix1 frame segs1 mem1 old1 pages1 /\
    if spills threshold (mem ++ [d]) then mem1 = [] /\ old1 = (mem ++ [d]) ++ old /\ pages1 = []
    else mem1 = mem ++ [d] /\ old1 = old /\ pages1 = pages).
  { destruct (spills threshold (mem ++ [d])); [destruct Hq as [[segs' Hq] _]|destruct Hq as [Hq _]]; by eexists _, _, _, _. }
  destruct Hcase as (segs1 & mem1 & old1 & pages1 & Hiv1 & Hc). apply ensures_bind.
  eapply ensures_mono; [by apply (record_ctid_ok oid ix1 frame segs1 mem1 old1 pages1)|].
  intros [] ix2 (pages2 & [J1 J2 J3 J4 J5 J6] & Hd & Es). apply ensures_on_state.
  eapply ensures_mono; [by apply (calculate_idf_sum_ok _ frame mem1)|].
  intros [] state (Hh & Hb & Htd & Htl & _ & _). exists segs1, pages2.
  assert (Hiv2 : index_inv oid (mkIndex state (ix_storage ix2) (ix_docid_cache ix2)) frame segs1 mem1 old1 pages2).
  { split; try done. cbn [ix_state]. intros E. apply J2. congruence. }
  split; [|cbn [ix_state]; by rewrite Htd, Htl, Es].
  destruct (spills threshold (mem ++ [d])); destruct Hc as (-> & -> & ->); by rewrite Hd.
Qed.

(** C27: an insertion keeps the index.  From an index whose memtable holds the
    documents [mem] and whose segments hold [old], inserting [d] leaves an index of
    the same kind: [d] is in the memtable behind the others, or, if the memtable comes
    to the threshold, all of them are in the segments and the memtable is empty.  The
    document count and the total length are counted up, and the CTID is the last of
    the docid chain, which is cut before if the memtable was spilled. *)
Theorem insert_keeps_documents (tp_compress_segments : bool) (tp_segments_per_level now threshold oid : Z)
    (ix : Index) (frame : dsa_area) (segs : segments) (mem old : list document) (pages : docid_pages)
    (d : document) :
  index_inv oid ix frame segs mem old pages ->
  insert_ready tp_compress_segments tp_segments_per_level now threshold ix segs mem old d ->
  2 <= tp_segments_per_level <= 64 -> 120 <= SEGMENT_DATA_PER_PAGE -> 0 <= now < 2 ^ 64 ->
  ensures (tp_insert tp_compress_segments tp_segments_per_level now threshold oid (doc_ctid d) (doc_terms d)
      (doc_frequencies d) (doc_length d) (doc_tenant d)) ix (fun _ ix' => exists segs' pages',
    (if spills threshold (mem ++ [d])
     then index_inv oid ix' frame segs' [] ((mem ++ [d]) ++ old) pages' /\ docids pages' = [doc_ctid d]
     else index_inv oid ix' frame segs' (mem ++ [d]) old pages' /\ docids pages' = docids pages ++ [doc_ctid d]) /\
    total_docs (ix_state ix') = i32 (total_docs (ix_state ix) + 1) /\
    total_len (ix_state ix') = i64 (total_len (ix_state ix) + doc_length d)).
Proof. apply tp_insert_ok. Qed.
End InsertFacts.

(** ** Witness: an insertion that spills and merges *)

Section Witness.
#[local] Existing Instances max_allocator max_allocator_laws first_fit first_fit_laws wide_layout wide_layout_laws.

Definition demo_in_memtable : document := mkDocument (mkItemPointer 0 9) [[x61]; [x7a]] [7; 1] 8 5.
Definition demo_inserted : document := mkDocument (mkItemPointer 0 7) [[x7a]] [3] 3 0.
Definition demo_open_index : Index := demo_index [demo_in_memtable] demo_one.

Lemma demo_open_holds : holds (ix_state demo_open_index) demo_frame [demo_in_memtable].
Proof.
  apply (indexed_state_holds [demo_in_memtable]). split.
  { repeat (apply Forall_cons; split; [split; [reflexivity|repeat (constructor; [discriminate|]); constructor]|]).
    constructor. }
  split; [forall_compute|]. by vm_compute.
Qed.

Lemma demo_open_inv g1 : index_holds demo_one (pushed_levels no_segments g1) demo_documents ->
  index_inv 16385 demo_open_index demo_frame (pushed_levels no_segments g1) [demo_in_memtable] demo_documents [].
Proof.
  intros Hih. pose proof (io_wf _ _ (ih_ok _ _ _ Hih)) as Hwf. split.
  - exact demo_open_holds.
  - intros E. discriminate E.
  - exact Hih.
  - split; [exact (swf_pages _ Hwf)|vm_compute; split; reflexivity|vm_compute; reflexivity|vm_compute; reflexivity|].
    split; [vm_compute; reflexivity|done|done|constructor].
  - intros b Hb. by apply not_elem_of_nil in Hb.
  - intros Hv. discriminate.
Qed.

Lemma insert_keeps_documents_witness :
  ensures (tp_insert false 2 7 3 16385 (mkItemPointer 0 7) [[x7a]] [3] 3 0) demo_open_index (fun _ ix' =>
    exists pages', docids_inv (ix_storage ix') pages' /\ docids pages' = [mkItemPointer 0 7]).
Proof.
  destruct demo_first as (g1 & Hih & C1). eapply ensures_mono.
  { apply (insert_keeps_documents false 2 7 3 16385 demo_open_index demo_frame (pushed_levels no_segments g1)
      [demo_in_memtable] demo_documents [] demo_inserted (demo_open_inv g1 Hih)).
    - assert (Ew : with_document demo_open_index demo_inserted = demo_index demo_more_documents demo_one)
        by (vm_compute; reflexivity).
      split; rewrite ?Ew.
      + split; [reflexivity|repeat (constructor; [discriminate|]); constructor].
      + split; [vm_compute; reflexivity|vm_compute; intuition discriminate].
      + discriminate.
      + vm_compute. reflexivity.
      + intros _. split.
        * exact demo_more_indexable.
        * exists [x61]. vm_compute. discriminate.
        * exact demo_distinct.
        * apply spill_fits_decided; vm_compute; reflexivity.
        * intros block ix' g E _ Hc. exact (demo_spilled_two g1 block ix' g Hih C1 E Hc).
      + vm_compute. reflexivity.
      + intros ix' E. vm_compute in E. injection E as <-. vm_compute. reflexivity.
    - lia.
    - exact demo_page_room.
    - exact demo_now. }
  intros u ix' (segs' & pages' & (Hiv & Hd) & _). exists pages'. split; [exact (iv_docids _ _ _ _ _ _ _ Hiv)|exact Hd].
Defined.
End Witness.
