(* ===== verification/Build.v ===== *)
(** * Building an index (src/am/build.c, src/state/state.c)

    [tp_build] checks the options, writes the metapage and, unless the build is worth
    workers, scans the table: every row goes into a memtable in an area private to the
    backend, which is spilled when it comes to the threshold and once more at the end;
    then the state moves to the shared area.  The catalog, the reloptions and the table
    are given by the server. *)
From S2P Require Import Prelude Postgres Float4 SegmentFormat Storage Memtable SegmentWrite Metapage.
From S2P Require Import TenantPages Merge MergeWrite Lifecycle.
From Stdlib Require Import SpecFloat.

(** ** Options and data *)

(** [None]: the option is not set (its offset is 0). *)
Record TpOptions := mkOptions {
  text_config : option (list byte);
  opt_k1 : float8;
  opt_b : float8;
  tenant_column : option (list byte);
}.

(** The doubles nearest to 1.2 and 0.75. *)
Definition TP_DEFAULT_K1 : float8 := S754_finite false 5404319552844595 (-52).
Definition TP_DEFAULT_B : float8 := S754_finite false 6755399441055744 (-53).

(** A [float4] on the metapage: sign, biased exponent, mantissa. *)
Definition float4_bits (x : float4) : Z :=
  let sign (s : bool) := if s then 2 ^ 31 else 0 in
  match x with
  | S754_zero s => sign s
  | S754_infinity s => sign s + 255 * 2 ^ 23
  | S754_nan => 255 * 2 ^ 23 + 2 ^ 22
  | S754_finite s m e =>
      sign s + (if Z.pos m <? 2 ^ 23 then Z.pos m else (e + 150) * 2 ^ 23 + (Z.pos m - 2 ^ 23))
  end.

Definition TP_INDEXED_TYPE_TEXT : Z := 0.
Definition TP_INDEXED_TYPE_TSVECTOR : Z := 1.
Definition TSVECTOROID : Z := 3614.
Definition InvalidAttrNumber : Z := 0.

(** A value of a column; an integer of any width is the datum itself. *)
Inductive Datum :=
  | TextDatum (document_text : list byte)
  | TSVectorDatum (tsvector : TSVector)
  | IntegerDatum (value : Z).

(** [None] is NULL. *)
Record TupleTableSlot := mkSlot {
  tts_tid : ItemPointerData;
  slot_getattr : Z -> option Datum;
}.

(** Reading a datum as a type it does not have is an access to arbitrary memory. *)
Definition DatumGetUInt32 (d : Datum) : res Z :=
  match d with IntegerDatum v => Ok (u32 v) | _ => Err OUT_OF_BOUNDS_ACCESS end.
Definition DatumGetTextPP (d : Datum) : res (list byte) :=
  match d with TextDatum t => Ok t | _ => Err OUT_OF_BOUNDS_ACCESS end.
Definition DatumGetTSVectorCopy (d : Datum) : res TSVector :=
  match d with TSVectorDatum v => Ok v | _ => Err OUT_OF_BOUNDS_ACCESS end.

(** The table: the catalog's knowledge of it, and the rows of the scan. *)
Record BuildHeap := mkBuildHeap {
  bh_atttype : Z -> Z;
  bh_attnum : list byte -> Z;
  bh_reltuples : float4;
  bh_blocks : Z;
  bh_rows : list TupleTableSlot;
}.

Record IndexInfo := mkIndexInfo {
  ii_IndexAttrNumber : Z;
  ii_ParallelWorkers : Z;
}.

Record IndexBuildResult := mkBuildResult {
  heap_tuples : Z;
  index_tuples : Z;
}.

Definition set_options (m : TpIndexMetaPageData) (k1 b : Z) : TpIndexMetaPageData :=
  mkMetaPage (mp_magic m) (mp_version m) (mp_text_config_oid m) (mp_pad0 m) (mp_total_docs m) (mp_total_terms m)
    (mp_total_len m) k1 b (mp_root_blkno m) (mp_term_stats_root m) (mp_first_docid_page m) (mp_level_heads m)
    (mp_level_counts m) (mp_tenant_column_attno m) (mp_first_tenant_stats_page m) (mp_indexed_type m) (mp_pad1 m).

Definition set_tenant_column (m : TpIndexMetaPageData) (attno : Z) : TpIndexMetaPageData :=
  mkMetaPage (mp_magic m) (mp_version m) (mp_text_config_oid m) (mp_pad0 m) (mp_total_docs m) (mp_total_terms m)
    (mp_total_len m) (mp_k1 m) (mp_b m) (mp_root_blkno m) (mp_term_stats_root m) (mp_first_docid_page m)
    (mp_level_heads m) (mp_level_counts m) attno (mp_first_tenant_stats_page m) (mp_indexed_type m) (mp_pad1 m).

(** ** The configuration of an index *)

Section Configuration.
(** [get_ts_config_oid] with [missing_ok = false]: an error for an unknown name. *)
Context (get_ts_config_oid : list byte -> res Z).

Definition text_config_of (options : option TpOptions) : res Z :=
  match options ≫= text_config with
  | Some name => get_ts_config_oid name
  | None => Ok InvalidOid
  end.

(** The Oid of the text configuration, [k1] and [b]. *)
Definition tp_build_extract_options (options : option TpOptions) : res (Z * float8 * float8) :=
  text_config_oid ← text_config_of options;
  Ok (match options with
      | Some o => (text_config_oid, opt_k1 o, opt_b o)
      | None => (text_config_oid, TP_DEFAULT_K1, TP_DEFAULT_B)
      end).

(** A text column needs a text configuration. *)
Definition column_kind (heap : BuildHeap) (info : IndexInfo) (text_config_oid : Z) : res Z :=
  if bh_atttype heap (ii_IndexAttrNumber info) =? TSVECTOROID then Ok TP_INDEXED_TYPE_TSVECTOR
  else if OidIsValid text_config_oid then Ok TP_INDEXED_TYPE_TEXT
  else Err ERRCODE_INVALID_PARAMETER_VALUE.

Definition tenant_attribute (heap : BuildHeap) (options : option TpOptions) : res Z :=
  match options ≫= tenant_column with
  | Some name =>
      let attnum := bh_attnum heap name in
      if attnum =? InvalidAttrNumber then Err ERRCODE_UNDEFINED_COLUMN else Ok attnum
  | None => Ok InvalidAttrNumber
  end.

(** The workers of a parallel build; [0] is a serial one. *)
Definition TP_MIN_PARALLEL_TUPLES : Z := 100000.
Definition TP_TUPLES_PER_PAGE_ESTIMATE : Z := 50.

Definition parallel_workers (heap : BuildHeap) (info : IndexInfo) : Z :=
  let reltuples := f8_of_f4 (bh_reltuples heap) in
  let reltuples :=
    if f4_lt reltuples (f8_of_Z 0) then f8_mul (f8_of_Z (bh_blocks heap)) (f8_of_Z TP_TUPLES_PER_PAGE_ESTIMATE)
    else reltuples in
  if (0 <? ii_ParallelWorkers info) && f4_le (f8_of_Z TP_MIN_PARALLEL_TUPLES) reltuples
  then ii_ParallelWorkers info else 0.

Section Metapage.
Context `{PgLayout}.

(** A new page with a metapage that has the options. *)
Definition new_metapage (text_config_oid : Z) (k1 b : float8) (indexed_type : Z) : Page :=
  let page := tp_init_metapage text_config_oid indexed_type in
  let m := set_options (decode_metapage (contents page)) (float4_bits (f4_of_f8 k1)) (float4_bits (f4_of_f8 b)) in
  mkPage (pd_special page) (overwrite 0 (encode_metapage m) (contents page)).

Definition tp_build_init_metapage (text_config_oid : Z) (k1 b : float8) (indexed_type : Z) : rst Storage unit :=
  rst_modify (fun st => (extend_relation st (new_metapage text_config_oid k1 b indexed_type)).2).

Definition store_tenant_column (attnum : Z) : rst Storage unit :=
  m ← read_metapage; write_metapage (set_tenant_column m attnum).

(** What a build is to do. *)
Record BuildPlan := mkBuildPlan {
  bp_text_config_oid : Z;
  bp_indexed_type : Z;
  bp_tenant_attnum : Z;
  bp_workers : Z;
}.

(** [tp_build] up to the choice between the serial and the parallel build. *)
Definition tp_build_prepare (heap : BuildHeap) (options : option TpOptions) (info : IndexInfo)
    : rst Storage BuildPlan :=
  if ii_IndexAttrNumber info =? 0 then rst_fail ERRCODE_FEATURE_NOT_SUPPORTED
  else
    '(text_config_oid, k1, b) ← rst_lift (tp_build_extract_options options);
    indexed_type ← rst_lift (column_kind heap info text_config_oid);
    _ ← tp_build_init_metapage text_config_oid k1 b indexed_type;
    tenant_attnum ← rst_lift (tenant_attribute heap options);
    _ ← (match options ≫= tenant_column with
         | Some _ => store_tenant_column (u32 tenant_attnum)
         | None => mret tt
         end);
    mret (mkBuildPlan text_config_oid indexed_type tenant_attnum (parallel_workers heap info)).

(** The initialisation fork of an unlogged index: the metapage of an empty index. *)
Definition tp_buildempty (options : option TpOptions) : rst Storage unit :=
  text_config_oid ← rst_lift (text_config_of options);
  tp_build_init_metapage text_config_oid TP_DEFAULT_K1 TP_DEFAULT_B TP_INDEXED_TYPE_TEXT.
End Metapage.
End Configuration.

(** ** The serial build *)

Section Build.
Context `{PgLayout} `{FreeSpaceMap} `{ItemPointerOps} `{QSort} `{HashSeq} `{DsaAllocator}.
(** The settings, and the text search of the server. *)
Context (tp_compress_segments : bool) (tp_segments_per_level now tp_memtable_spill_threshold : Z).
Context (to_tsvector_byid : Z -> list byte -> TSVector).

(** The state of a build: an empty memtable in a new private area. *)
Definition tp_create_build_index_state (accum : option (gmap Z TpTenantStatsEntry)) : TpLocalIndexState :=
  mkIndexState 0 0 empty_memtable ∅ true 0 accum.

(** One row: [false] if it is skipped. *)
Definition tp_process_document (info : IndexInfo) (plan : BuildPlan) (slot : TupleTableSlot) : rst Index bool :=
  match slot_getattr slot (ii_IndexAttrNumber info) with
  | None => mret false
  | Some col_datum =>
      tenant_id ← (if bp_tenant_attnum plan =? InvalidAttrNumber then mret 0
                   else match slot_getattr slot (bp_tenant_attnum plan) with
                        | Some tenant_datum => rst_lift (DatumGetUInt32 tenant_datum)
                        | None => mret 0
                        end);
      processed ←
        (if bp_indexed_type plan =? TP_INDEXED_TYPE_TSVECTOR then
           tsvector ← rst_lift (DatumGetTSVectorCopy col_datum);
           tp_process_document_tsvector tp_compress_segments tp_segments_per_level now
             (Some tp_memtable_spill_threshold) tsvector (tts_tid slot) tenant_id
         else
           document_text ← rst_lift (DatumGetTextPP col_datum);
           tp_process_document_text tp_compress_segments tp_segments_per_level now to_tsvector_byid
             (Some tp_memtable_spill_threshold) document_text (tts_tid slot) (bp_text_config_oid plan) tenant_id);
      mret (match processed with Some _ => true | None => false end)
  end.

(** The scan; [total_docs] counts the rows that were not skipped. *)
Fixpoint process_rows (info : IndexInfo) (plan : BuildPlan) (rows : list TupleTableSlot) (total_docs : Z)
    : rst Index Z :=
  match rows with
  | [] => mret total_docs
  | slot :: rows' =>
      processed ← tp_process_document info plan slot;
      process_rows info plan rows' (if (processed : bool) then u64 (total_docs + 1) else total_docs)
  end.

(** The totals of the state, 64-bit unsigned, replace the count of the rows. *)
Definition tp_build_finalize_and_update_stats : rst Index (Z * Z) :=
  _ ← on_state tp_calculate_idf_sum;
  state ← rst_gets ix_state;
  let docs := u64 (total_docs state) in
  let len := u64 (total_len state) in
  tenant_attno ← on_storage (m ← read_metapage;
                             _ ← write_metapage (set_totals m docs len);
                             mret (mp_tenant_column_attno m));
  _ ← (if tenant_attno =? 0 then mret tt else on_storage (tp_write_tenant_stats_pages state));
  mret (docs, len).

(** The last segment becomes the head of level 0, without a compaction. *)
Definition link_build_segment (segment_root : Z) : rst Storage unit :=
  m ← read_metapage;
  head ← rst_lift (zread (mp_level_heads m) 0);
  count ← rst_lift (zread (mp_level_counts m) 0);
  _ ← (if head =? InvalidBlockNumber then mret tt else set_next_segment segment_root head);
  write_metapage (set_levels m (<[0%nat := segment_root]> (mp_level_heads m))
                    (<[0%nat := u16 (count + 1)]> (mp_level_counts m))).

Definition build_final_spill : rst Index unit :=
  state ← rst_gets ix_state;
  if 0 <? total_postings (memtable state) then
    segment_root ← write_memtable tp_compress_segments now;
    if segment_root =? InvalidBlockNumber then mret tt else on_storage (link_build_segment segment_root)
  else mret tt.

(** [tp_build] after the choice of a serial build; [global] is the shared area. *)
Definition tp_build_serial (heap : BuildHeap) (info : IndexInfo) (plan : BuildPlan) (global : dsa_area)
    : rst Index IndexBuildResult :=
  _ ← on_state (rst_modify (fun st => tp_create_build_index_state (build_tenant_stats_accum st)));
  _ ← process_rows info plan (bh_rows heap) 0;
  '(total_docs, _) ← tp_build_finalize_and_update_stats;
  _ ← build_final_spill;
  _ ← on_state (tp_finalize_build_mode global);
  mret (mkBuildResult total_docs total_docs).

(** A finished serial build, or the workers to start. *)
Inductive BuildOutcome :=
  | BuildDone (result : IndexBuildResult)
  | BuildInParallel (plan : BuildPlan).

Definition tp_build (get_ts_config_oid : list byte -> res Z) (heap : BuildHeap) (options : option TpOptions)
    (info : IndexInfo) (global : dsa_area) : rst Index BuildOutcome :=
  _ ← rst_modify (fun ix => mkIndex (ix_state ix) (ix_storage ix) (tp_invalidate_docid_cache (ix_docid_cache ix)));
  plan ← on_storage (tp_build_prepare get_ts_config_oid heap options info);
  if bp_workers plan =? 0 then BuildDone <$> tp_build_serial heap info plan global
  else mret (BuildInParallel plan).

(** The end of an aborted transaction: every build of the backend is dropped with its
    area and its registration ([None]), the indexes that are open stay. *)
Definition tp_cleanup_build_mode_on_abort (states : list TpLocalIndexState) : list (option TpLocalIndexState) :=
  (fun st => if is_build_mode st then None
             else Some (mkIndexState (total_docs st) (total_len st) (memtable st) (dsa st) false
                          (terms_added_this_xact st) None)) <$> states.
End Build.
