(* ===== verification/BuildFacts.v ===== *)
(** * What a build leaves

    The metapage has the configuration; the segments hold every row of the table that
    has terms, whatever spilled on the way; the totals are those of the rows; and the
    server goes on with an empty memtable in the shared area.  The statistics of the
    tenants are not complete: see [build_forgets_tenants]. *)
From S2P Require Import Prelude Postgres Float4 Fieldnorm SegmentFormat Compression Storage SegmentIO.
From S2P Require Import Docmap SegmentScan ScanFacts Memtable MemtableFacts SegmentWrite SegmentWriteFacts.
From S2P Require Import SegmentEmit SegmentLayout SegmentOpen SegmentContent SegmentDocs SegmentRoundtrip.
From S2P Require Import Metapage MetapageFacts DocidChain DocidEvents TenantPages Merge MergeWrite Lifecycle.
From S2P Require Import MergeReaders MergeTerms MergePostings MergeDocs MergeEmit MergePlan MergeSegment.
From S2P Require Import MergeLevel MergeProperties Levels SpillFacts IndexDocs IndexProperties InsertFacts Build.

(** ** A new index *)

Section Fresh.
Context `{PgLayoutLaws} `{FreeSpaceMapLaws} `{ItemPointerLaws} `{QSortLaws} `{HashSeqLaws}.
Abbreviation P := SEGMENT_DATA_PER_PAGE.
Context (HP : 120 <= P).

Definition fresh_metapage (text_config_oid k1 b indexed_type tenant : Z) : TpIndexMetaPageData :=
  mkMetaPage TP_METAPAGE_MAGIC TP_METAPAGE_VERSION text_config_oid 0 0 0 0 k1 b
    InvalidBlockNumber 0 InvalidBlockNumber (replicate TP_MAX_LEVELS InvalidBlockNumber)
    (replicate TP_MAX_LEVELS 0) tenant InvalidBlockNumber indexed_type 0.

Lemma fresh_metapage_ok cfg k1 b ty ten : fits 4 cfg -> fits 4 k1 -> fits 4 b -> fits 1 ty -> fits 4 ten ->
  metapage_ok (fresh_metapage cfg k1 b ty ten).
Proof.
  intros ?????. split; [|by split]. unfold fresh_metapage, metapage_fields, metapage_layout. cbn.
  repeat (apply Forall2_cons; split; [first [assumption|by vm_compute]|]). by apply Forall2_nil.
Qed.

(** A relation of one page. *)
Record one_page (st : Storage) (m : TpIndexMetaPageData) : Prop := {
  op_wf : storage_wf st;
  op_fsm : st_fsm st = [];
  op_blocks : nblocks st = 1;
  op_meta : metapage_of st = m;
}.

Lemma fresh_index_holds st cfg k1 b ty ten : one_page st (fresh_metapage cfg k1 b ty ten) ->
  index_holds st no_segments [] /\ docids_inv st [].
Proof.
  intros [Hwf Hf Hn Hm].
  assert (Hno : forall l gs, no_segments !! l = Some gs -> (l < TP_MAX_LEVELS)%nat /\ gs = [])
    by (by intros l gs [-> Hl]%lookup_replicate_1).
  split.
  - split; [|done|done]. split; rewrite ?Hm; [done|done| |  |split; constructor].
    + intros l gs Hl. destruct (Hno l gs Hl) as [Hlt ->]. cbn [level_chain fresh_metapage mp_level_heads].
      by rewrite nth_lookup, lookup_replicate_2.
    + intros l gs Hl. destruct (Hno l gs Hl) as [Hlt ->]. cbn [fresh_metapage mp_level_counts].
      by rewrite nth_lookup, lookup_replicate_2.
  - split; rewrite ?Hm; [apply Hwf|rewrite Hn; unfold InvalidBlockNumber; lia|done|done|].
    split; [done..|by constructor].
Qed.

Lemma new_metapage_ok cfg k1 b ty : fits 4 cfg -> fits 1 ty ->
  fits 4 (float4_bits (f4_of_f8 k1)) -> fits 4 (float4_bits (f4_of_f8 b)) ->
  zlen (contents (new_metapage cfg k1 b ty)) = P /\
  decode_metapage (contents (new_metapage cfg k1 b ty)) =
    fresh_metapage cfg (float4_bits (f4_of_f8 k1)) (float4_bits (f4_of_f8 b)) ty 0.
Proof.
  intros Hc Ht Hk Hb. assert (Hz : fits 4 0) by (by vm_compute).
  set (bk := float4_bits (f4_of_f8 k1)) in *. set (bb := float4_bits (f4_of_f8 b)) in *.
  pose proof (fresh_metapage_ok cfg 0 0 ty 0 Hc Hz Hz Ht Hz) as M0.
  pose proof (fresh_metapage_ok cfg bk bb ty 0 Hc Hk Hb Ht Hz) as M1.
  assert (L : forall m, metapage_ok m -> zlen (encode_metapage m) = 120)
    by (intros m Hm; unfold zlen; by rewrite length_encode_metapage).
  assert (E0 : contents (tp_init_metapage cfg ty) =
    overwrite 0 (encode_metapage (fresh_metapage cfg 0 0 ty 0)) (contents (PageInit 0))) by done.
  assert (L0 : zlen (contents (tp_init_metapage cfg ty)) = P).
  { rewrite E0, length_overwrite; rewrite ?L, ?length_PageInit by done; lia. }
  assert (D0 : decode_metapage (contents (tp_init_metapage cfg ty)) = fresh_metapage cfg 0 0 ty 0).
  { apply decode_metapage_at; [done|]. rewrite E0. apply at_offset_overwrite; rewrite ?L, ?length_PageInit by done; lia. }
  unfold new_metapage. rewrite D0. cbn [contents]. fold bk bb.
  change (set_options (fresh_metapage cfg 0 0 ty 0) bk bb) with (fresh_metapage cfg bk bb ty 0).
  split; [by rewrite length_overwrite; rewrite ?L, ?L0 by done; lia|].
  apply decode_metapage_at; [done|]. apply at_offset_overwrite; rewrite ?L, ?L0 by done; lia.
Qed.

Definition new_relation (pool : Z) : Storage := mkStorage [] [] pool.

Lemma init_metapage_ok pool cfg k1 b ty : fits 4 cfg -> fits 1 ty ->
  fits 4 (float4_bits (f4_of_f8 k1)) -> fits 4 (float4_bits (f4_of_f8 b)) ->
  ensures (tp_build_init_metapage cfg k1 b ty) (new_relation pool) (fun _ st' =>
    one_page st' (fresh_metapage cfg (float4_bits (f4_of_f8 k1)) (float4_bits (f4_of_f8 b)) ty 0)).
Proof.
  intros Hc Ht Hk Hb. destruct (new_metapage_ok cfg k1 b ty Hc Ht Hk Hb) as [Hl Hd].
  apply ensures_modify. split; [|done|done|exact Hd]. split; [|constructor..|done].
  by constructor.
Qed.

Lemma store_tenant_column_ok st cfg k1 b ty ten : one_page st (fresh_metapage cfg k1 b ty 0) ->
  metapage_ok (fresh_metapage cfg k1 b ty ten) ->
  ensures (store_tenant_column ten) st (fun _ st' => one_page st' (fresh_metapage cfg k1 b ty ten)).
Proof.
  intros [Hwf Hf Hn Hm] Hok. apply ensures_bind.
  exists (metapage_of st), st. split; [by apply read_metapage_ok|]. rewrite Hm.
  change (set_tenant_column (fresh_metapage cfg k1 b ty 0) ten) with (fresh_metapage cfg k1 b ty ten).
  destruct (write_metapage_ok st _ Hwf HP Hok) as (st' & data & E & Em & [W1 W2 W3 _ _]).
  exists tt, st'. split; [exact E|]. by split; rewrite ?W2, ?W3.
Qed.

(** ** The configuration *)

Section Configuration.
Context (get_ts_config_oid : list byte -> res Z).

(** What the options, the catalog and the index definition come to. *)
Definition configured (heap : BuildHeap) (options : option TpOptions) (info : IndexInfo)
    : res (TpIndexMetaPageData * BuildPlan) :=
  if ii_IndexAttrNumber info =? 0 then Err ERRCODE_FEATURE_NOT_SUPPORTED
  else
    '(cfg, k1, b) ← tp_build_extract_options get_ts_config_oid options;
    ty ← column_kind heap info cfg;
    ten ← tenant_attribute heap options;
    Ok (fresh_metapage cfg (float4_bits (f4_of_f8 k1)) (float4_bits (f4_of_f8 b)) ty (u32 ten),
        mkBuildPlan cfg ty ten (parallel_workers heap info)).

Lemma fresh_metapage_fits cfg k1 b ty ten : metapage_ok (fresh_metapage cfg k1 b ty ten) ->
  fits 4 cfg /\ fits 4 k1 /\ fits 4 b /\ fits 1 ty /\ fits 4 ten.
Proof.
  intros (Hf & _ & _). unfold fresh_metapage, metapage_fields, metapage_layout in Hf. cbn in Hf.
  by repeat (apply Forall2_cons in Hf as [? Hf]).
Qed.

Lemma prepare_ok heap options info pool :
  match configured heap options info with
  | Err e => tp_build_prepare get_ts_config_oid heap options info (new_relation pool) = Err e
  | Ok (m, plan) => metapage_ok m ->
      ensures (tp_build_prepare get_ts_config_oid heap options info) (new_relation pool) (fun plan' st' =>
        plan' = plan /\ one_page st' m)
  end.
Proof.
  unfold configured, tp_build_prepare. destruct (ii_IndexAttrNumber info =? 0); [done|].
  destruct (tp_build_extract_options get_ts_config_oid options) as [[[cfg k1] b]|e] eqn:Eo; cbn [mbind res_bind];
    [|by unfold mbind, rst_bind, rst_lift].
  destruct (column_kind heap info cfg) as [ty|e] eqn:Et; cbn [mbind res_bind];
    [|by unfold mbind, rst_bind, rst_lift; rewrite Et].
  destruct (tenant_attribute heap options) as [ten|e] eqn:Ea; cbn [mbind res_bind]; cycle 1.
  { unfold mbind, rst_bind, rst_lift, tp_build_init_metapage, rst_modify. by rewrite Et. }
  intros Hm. destruct (fresh_metapage_fits _ _ _ _ _ Hm) as (Hc & Hk & Hb & Hty & Hten).
  apply ensures_bind. eapply ensures_lift; [done|]. cbv beta iota.
  apply ensures_bind. eapply ensures_lift; [exact Et|].
  apply ensures_bind. eapply ensures_mono; [by apply init_metapage_ok|]. intros [] st1 Hst1. cbv beta in Hst1.
  apply ensures_bind. eapply ensures_lift; [done|]. unfold tenant_attribute in Ea.
  apply ensures_bind. destruct (options ≫= tenant_column) as [name|].
  - eapply ensures_mono; [by apply store_tenant_column_ok|]. intros [] st2 Hst2. by apply ensures_ret.
  - injection Ea as <-. apply ensures_ret, ensures_ret. done.
Qed.

End Configuration.
End Fresh.

(** ** The rows *)

Section Rows.
Context `{PgLayoutLaws} `{FreeSpaceMapLaws} `{ItemPointerLaws} `{QSortLaws} `{HashSeqLaws}.
Context `{DsaAllocatorLaws}.
Abbreviation segments := (list (list chain_segment)).
Context (tp_compress_segments : bool) (tp_segments_per_level now threshold : Z).
Context (to_tsvector_byid : Z -> list byte -> TSVector) (info : IndexInfo) (plan : BuildPlan).

Definition row_tsvector (slot : TupleTableSlot) : res (option TSVector) :=
  match slot_getattr slot (ii_IndexAttrNumber info) with
  | None => Ok None
  | Some d =>
      if bp_indexed_type plan =? TP_INDEXED_TYPE_TSVECTOR then v ← DatumGetTSVectorCopy d; Ok (Some v)
      else t ← DatumGetTextPP d; Ok (Some (to_tsvector_byid (bp_text_config_oid plan) t))
  end.

Definition row_tenant (slot : TupleTableSlot) : res Z :=
  if bp_tenant_attnum plan =? InvalidAttrNumber then Ok 0
  else match slot_getattr slot (bp_tenant_attnum plan) with Some d => DatumGetUInt32 d | None => Ok 0 end.

Definition document_of_vector (ctid : ItemPointerData) (tenant : Z) (tsvector : TSVector) : option document :=
  let '(terms, frequencies, doc_length) := tp_extract_terms_from_tsvector tsvector in
  if ItemPointerIsValid ctid && (0 <? zlen terms) then Some (mkDocument ctid terms frequencies doc_length tenant) else None.

(** The document of a row: none for NULL, an invalid TID and a row without terms. *)
Definition document_of_row (slot : TupleTableSlot) : res (option document) :=
  v ← row_tsvector slot;
  match v with
  | None => Ok None
  | Some tsvector => tenant ← row_tenant slot; Ok (document_of_vector (tts_tid slot) tenant tsvector)
  end.

(** The documents in the memtable and those that were spilled. *)
Definition add_batch (batches : list document * list document) (d : document) : list document * list document :=
  let '(mem, old) := batches in
  if spills threshold (mem ++ [d]) then ([], (mem ++ [d]) ++ old) else (mem ++ [d], old).

Abbreviation add_document_terms d := (process_terms tp_compress_segments tp_segments_per_level now (Some threshold)
  (doc_ctid d) (doc_terms d) (doc_frequencies d) (doc_length d) (doc_tenant d)).

Lemma process_vector_ok v ctid tenant ix (Q : Index -> Prop) :
  match document_of_vector ctid tenant v with
  | Some d => ensures (add_document_terms d) ix (fun _ ix' => Q ix')
  | None => Q ix
  end ->
  ensures (tp_process_document_tsvector tp_compress_segments tp_segments_per_level now (Some threshold) v ctid tenant)
    ix (fun _ ix' => Q ix').
Proof.
  unfold document_of_vector, tp_process_document_tsvector.
  destruct (tp_extract_terms_from_tsvector v) as [[terms fs] len].
  destruct (ItemPointerIsValid ctid); cbn [negb andb]; [|intros HQ; by apply ensures_ret].
  destruct (0 <? zlen terms) eqn:Et; intros Hq; apply ensures_bind.
  - eapply ensures_mono; [exact Hq|]. intros [] ix' HQ. by apply ensures_ret.
  - unfold process_terms. rewrite Et. by apply ensures_ret, ensures_ret.
Qed.

Lemma process_document_ok slot od ix (Q : Index -> Prop) : document_of_row slot = Ok od ->
  match od with
  | Some d => ensures (add_document_terms d) ix (fun _ ix' => Q ix')
  | None => Q ix
  end ->
  ensures (tp_process_document tp_compress_segments tp_segments_per_level now threshold to_tsvector_byid info plan slot)
    ix (fun _ ix' => Q ix').
Proof.
  unfold document_of_row, row_tsvector, row_tenant, tp_process_document.
  destruct (slot_getattr slot (ii_IndexAttrNumber info)) as [col|]; [|intros [= <-] HQ; by apply ensures_ret].
  intros E HQ. apply ensures_bind.
  set (tenant := if bp_tenant_attnum plan =? InvalidAttrNumber then Ok 0 else _) in E.
  assert (Ht : exists t v, tenant = Ok t /\ od = document_of_vector (tts_tid slot) t v /\
    (if bp_indexed_type plan =? TP_INDEXED_TYPE_TSVECTOR then DatumGetTSVectorCopy col = Ok v
     else exists text, DatumGetTextPP col = Ok text /\ v = to_tsvector_byid (bp_text_config_oid plan) text)).
  { destruct (bp_indexed_type plan =? TP_INDEXED_TYPE_TSVECTOR).
    - destruct (DatumGetTSVectorCopy col) as [v|]; [|done]. cbn [mbind res_bind] in E.
      destruct tenant as [t|]; [|done]. injection E as <-. by exists t, v.
    - destruct (DatumGetTextPP col) as [text|]; [|done]. cbn [mbind res_bind] in E.
      destruct tenant as [t|]; [|done]. injection E as <-. eexists t, _. split; [done|]. split; [done|]. by exists text. }
  clear E. destruct Ht as (t & v & Et & -> & Hv). subst tenant.
  apply (ensures_mono _ _ (fun t' ix' => t' = t /\ ix' = ix)).
  { destruct (bp_tenant_attnum plan =? InvalidAttrNumber); [injection Et as <-; by apply ensures_ret|].
    destruct (slot_getattr slot (bp_tenant_attnum plan)) as [d|]; [by eapply ensures_lift|].
    injection Et as <-. by apply ensures_ret. }
  intros t' ix' [-> ->]. apply ensures_bind.
  eapply (ensures_mono _ _ (fun _ ix' => Q ix')); [|intros r ix' Hq; by apply ensures_ret].
  destruct (bp_indexed_type plan =? TP_INDEXED_TYPE_TSVECTOR).
  - apply ensures_bind. eapply ensures_lift; [exact Hv|]. by apply process_vector_ok.
  - destruct Hv as (text & Etext & ->). apply ensures_bind. eapply ensures_lift; [exact Etext|].
    by apply (process_vector_ok (to_tsvector_byid (bp_text_config_oid plan) text)).
Qed.

(** ** The scan *)

Definition row_documents (rows : list TupleTableSlot) : list document :=
  omap (fun slot => match document_of_row slot with Ok od => od | Err _ => None end) rows.

Definition batches (docs : list document) (b : list document * list document) : list document * list document :=
  foldl add_batch b docs.

Lemma batches_all docs : forall b, (batches docs b).1 ++ (batches docs b).2 ≡ₚ b.1 ++ b.2 ++ docs.
Proof.
  induction docs as [|d docs IH]; intros [mem old]; cbn [batches foldl].
  { by rewrite app_nil_r. }
  fold (batches docs (add_batch (mem, old) d)). rewrite IH. unfold add_batch.
  destruct (spills threshold (mem ++ [d])); cbn [fst snd]; solve_Permutation.
Qed.

(** What the scan must find: every row is of the types of the plan, and there is room
    for its document. *)
Fixpoint rows_ready (rows : list TupleTableSlot) (ix : Index) (segs : segments) (mem old : list document) : Prop :=
  match rows with
  | [] => True
  | slot :: rows' =>
      exists od, document_of_row slot = Ok od /\
      match od with
      | None => rows_ready rows' ix segs mem old
      | Some d =>
          insert_ready tp_compress_segments tp_segments_per_level now threshold ix segs mem old d /\
          forall ix' segs', add_document_terms d ix = Ok (tt, ix') ->
            index_inv 0 ix' ∅ segs' (add_batch (mem, old) d).1 (add_batch (mem, old) d).2 [] ->
            rows_ready rows' ix' segs' (add_batch (mem, old) d).1 (add_batch (mem, old) d).2
      end
  end.

(** A build in progress. *)
Record building (ix : Index) (segs : segments) (mem old : list document) : Prop := {
  bd_inv : index_inv 0 ix ∅ segs mem old [];
  bd_tenants : build_tenants (ix_state ix) mem old;
}.

Context (HP : 120 <= SEGMENT_DATA_PER_PAGE) (Hnow : 0 <= now < 2 ^ 64) (Hper : 2 <= tp_segments_per_level <= 64).

Lemma add_row_ok ix segs mem old d : building ix segs mem old ->
  insert_ready tp_compress_segments tp_segments_per_level now threshold ix segs mem old d ->
  ensures (add_document_terms d) ix (fun _ ix' => exists segs',
    building ix' segs' (add_batch (mem, old) d).1 (add_batch (mem, old) d).2 /\
    total_docs (ix_state ix') = i32 (total_docs (ix_state ix) + 1) /\
    total_len (ix_state ix') = i64 (total_len (ix_state ix) + doc_length d)).
Proof.
  intros [Hiv Hbt] Hready. eapply ensures_mono.
  { by apply (process_terms_ok tp_compress_segments tp_segments_per_level now threshold 0 HP Hnow Hper ix ∅ segs mem old []). }
  intros [] ix' (Etd & Etl & _ & Hq). unfold add_batch.
  destruct (spills threshold (mem ++ [d])); destruct Hq as [Hq Hb]; cbn [fst snd].
  - destruct Hq as [segs' Hq]. exists segs'. split; [split; [done|by apply Hb]|done].
  - exists segs. split; [split; [done|by apply Hb]|done].
Qed.

Lemma total_length_nonneg docs : Forall (fun d => 0 <= doc_length d) docs -> 0 <= total_length docs.
Proof. induction 1; unfold total_length in *; simpl; lia. Qed.

Lemma process_rows_ok rows : forall ix segs mem old n, building ix segs mem old ->
  rows_ready rows ix segs mem old -> Forall (fun d => 0 <= doc_length d) (row_documents rows) ->
  0 <= total_docs (ix_state ix) -> total_docs (ix_state ix) + zlen (row_documents rows) < 2 ^ 31 ->
  0 <= total_len (ix_state ix) -> total_len (ix_state ix) + total_length (row_documents rows) < 2 ^ 63 ->
  ensures (process_rows tp_compress_segments tp_segments_per_level now threshold to_tsvector_byid info plan rows n) ix
    (fun _ ix' => exists segs',
      let b := batches (row_documents rows) (mem, old) in building ix' segs' b.1 b.2 /\
      total_docs (ix_state ix') = total_docs (ix_state ix) + zlen (row_documents rows) /\
      total_len (ix_state ix') = total_len (ix_state ix) + total_length (row_documents rows)).
Proof.
  induction rows as [|slot rows IH]; intros ix segs mem old n Hb Hr HF Hd0 Hd1 Hl0 Hl1; cbn [process_rows].
  { apply ensures_ret. exists segs. split; [done|]. change (zlen (row_documents [])) with 0.
    change (total_length (row_documents [])) with 0. lia. }
  destruct Hr as (od & Eod & Hr). unfold row_documents in *. cbn [omap list_omap] in *. rewrite Eod in *.
  fold (row_documents rows) in *. apply ensures_bind. destruct od as [d|].
  - destruct Hr as (Hready & Hnext). apply Forall_cons in HF as [Hdl HF]. rewrite zlen_cons in *. cbn [total_length foldr] in *.
    fold (total_length (row_documents rows)) in *. pose proof (zlen_nonneg (row_documents rows)).
    destruct (add_row_ok ix segs mem old d Hb Hready) as ([] & ix1 & E & segs1 & Hb1 & Etd & Etl).
    eapply ensures_mono; [apply (process_document_ok slot (Some d) ix (fun ix' => ix' = ix1)); [done|by exists tt, ix1]|].
    intros processed ix' ->. 
    pose proof (total_length_nonneg _ HF).
    rewrite !swrap_small in Etd, Etl by lia.
    eapply ensures_mono.
    { apply (IH ix1 segs1 _ _ _ Hb1); [apply Hnext; [done|apply Hb1]|done|lia..]. }
    intros m ix2 (segs2 & Hb2 & F1 & F2). exists segs2. cbn [batches foldl].
    fold (batches (row_documents rows) (add_batch (mem, old) d)).
    rewrite <- surjective_pairing in Hb2. split; [done|]. lia.
  - eapply ensures_mono; [by apply (process_document_ok slot None ix (fun ix' => ix' = ix))|].
    intros processed ix' ->. by apply (IH _ segs).
Qed.

(** ** The end of the build *)

Abbreviation finalize := tp_build_finalize_and_update_stats.

(** What the end of the build must find; [mem] is the last batch. *)
Record final_ready (ix : Index) (segs : segments) (mem : list document) : Prop := {
  fi_tenants : stats_table_ok (default ∅ (tenant_stats (memtable (ix_state ix))));
  fi_blocks : nblocks (ix_storage ix) + Z.of_nat (size (default ∅ (tenant_stats (memtable (ix_state ix))))) <
    InvalidBlockNumber;
  fi_terms : mem <> [] -> indexable mem /\ exists t, postings_of mem t <> [];
  fi_level : mem <> [] -> zlen (nth 0 segs []) + 1 < 2 ^ 16;
  fi_segment : forall r ix', mem <> [] -> finalize ix = Ok (r, ix') ->
    segment_fits tp_compress_segments now (ix_state ix') mem (ix_storage ix');
}.

(** A build whose totals are on the metapage. *)
Record finalized (ix : Index) (segs : segments) (mem old : list document) (docs len : Z) : Prop := {
  fz_holds : holds (ix_state ix) ∅ mem;
  fz_tenants : build_tenants (ix_state ix) mem old;
  fz_index : index_holds (ix_storage ix) segs old;
  fz_totals : total_docs (ix_state ix) = docs /\ total_len (ix_state ix) = len;
  fz_meta : mp_total_docs (metapage_of (ix_storage ix)) = u64 docs /\
    mp_total_len (metapage_of (ix_storage ix)) = u64 len;
}.

Lemma index_holds_grown st st' segs docs : index_holds st segs docs -> grown st st' metapage_only ->
  nblocks st' <= InvalidBlockNumber ->
  mp_level_heads (metapage_of st') = mp_level_heads (metapage_of st) ->
  mp_level_counts (metapage_of st') = mp_level_counts (metapage_of st) -> index_holds st' segs docs.
Proof. intros [Hok Hd Hr] ????. split; [by eapply index_ok_grown|done|done]. Qed.

Lemma finalize_ok ix segs mem old : building ix segs mem old -> final_ready ix segs mem ->
  ensures finalize ix (fun r ix' => r = (u64 (total_docs (ix_state ix)), u64 (total_len (ix_state ix))) /\
    finalized ix' segs mem old (total_docs (ix_state ix)) (total_len (ix_state ix))).
Proof.
  intros [[I1 I2 I3 _ _ _] [B1 B2 B3]] [F1 F2 _ _ _]. pose proof (io_wf _ _ (ih_ok _ _ _ I3)) as Hwf.
  pose proof (metapage_of_ok _ Hwf HP) as Hmok. apply ensures_bind, ensures_on_state.
  eapply ensures_mono; [by apply (calculate_idf_sum_ok _ ∅ mem)|].
  intros [] state (Hh & Hb & Etd & Etl & _ & Et & Ea). apply ensures_bind, ensures_gets, ensures_bind, ensures_on_storage.
  cbn [ix_state ix_storage ix_docid_cache]. rewrite Etd, Etl. set (docs := u64 _). set (len := u64 _).
  set (m := metapage_of (ix_storage ix)) in *.
  assert (Hm' : metapage_ok (set_totals m docs len)).
  { apply set_totals_ok; [done|apply (wrap_range 64); lia..]. }
  destruct (write_metapage_grows (ix_storage ix) _ Hwf HP Hm') as (st1 & E1 & Em1 & Hg1 & Hn1).
  exists (mp_tenant_column_attno m), st1. split.
  { unfold mbind, rst_bind. rewrite (read_metapage_ok _ Hwf). fold m. by rewrite E1. }
  assert (Hst1 : index_holds st1 segs old).
  { eapply index_holds_grown; [done|done|lia|by rewrite Em1..]. }
  apply ensures_bind. eapply ensures_mono.
  { apply (tenants_step now HP Hnow (mp_tenant_column_attno m) state st1 (ix_docid_cache ix)); [apply Hg1|lia|by rewrite Et|rewrite Et; lia]. }
  intros [] ix' (st2 & -> & Hg2 & Hn2 & b & Em2). apply ensures_ret. split; [done|].
  split; cbn [ix_state ix_storage].
  - done.
  - split; [congruence|by rewrite Et|by rewrite Ea].
  - eapply index_holds_grown; [exact Hst1|done|done|by rewrite Em2..].
  - done.
  - rewrite Em2, Em1. done.
Qed.

Lemma link_build_segment_eq root docs len st m a st' : read_metapage st = Ok (m, st) ->
  mp_total_docs m = u64 docs -> mp_total_len m = u64 len -> push_level0 root docs len st = Ok (a, st') ->
  link_build_segment root st = Ok (tt, st').
Proof.
  intros Em Ed El. unfold push_level0, link_build_segment, mbind, rst_bind, rst_lift. rewrite Em, <- Ed, <- El.
  destruct (zread (mp_level_heads m) 0) as [head|]; [|done].
  destruct (zread (mp_level_counts m) 0) as [count|]; [|done].
  destruct ((if head =? InvalidBlockNumber then mret tt else set_next_segment root head) st) as [[[] st1]|]; [|done].
  set (m' := set_levels m _ _). change (set_totals m' (mp_total_docs m) (mp_total_len m)) with (set_totals m' (mp_total_docs m') (mp_total_len m')).
  replace (set_totals m' (mp_total_docs m') (mp_total_len m')) with m' by (by destruct m').
  by destruct (write_metapage m' st1) as [[[] st2]|]; [intros [= <- <-]|].
Qed.

Lemma final_spill_ok ix segs mem old docs len : finalized ix segs mem old docs len ->
  (mem <> [] -> indexable mem /\ exists t, postings_of mem t <> []) ->
  (mem <> [] -> zlen (nth 0 segs []) + 1 < 2 ^ 16) ->
  (mem <> [] -> segment_fits tp_compress_segments now (ix_state ix) mem (ix_storage ix)) ->
  ensures (build_final_spill tp_compress_segments now) ix (fun _ ix' => ix_state ix' = ix_state ix /\
    mp_total_docs (metapage_of (ix_storage ix')) = u64 docs /\ mp_total_len (metapage_of (ix_storage ix')) = u64 len /\
    exists segs', index_holds (ix_storage ix') segs' (mem ++ old)).
Proof.
  intros [Z1 Z2 Z3 [Z4 Z4'] [Z5 Z6]] Ht Hl Hs. apply ensures_bind, ensures_gets. rewrite (h_postings _ _ _ Z1).
  destruct (decide (mem = [])) as [->|Hne].
  { apply ensures_ret. split; [done|]. split; [done|]. split; [done|]. by exists segs. }
  specialize (Ht Hne) as [Hidx [t Hpt]]. specialize (Hl Hne). specialize (Hs Hne).
  assert (Hpos : 0 < index_size mem).
  { pose proof (postings_of_size mem t). destruct (postings_of mem t) as [|e l]; [done|].
    rewrite zlen_cons in *. pose proof (zlen_nonneg l). lia. }
  rewrite (proj2 (Z.ltb_lt _ _) Hpos).
  destruct (write_memtable_ok tp_compress_segments now HP Hnow (ix_state ix) ∅ mem (ix_storage ix) segs Z1 Hidx
    (ex_intro _ t Hpt) (ih_ok _ _ _ Z3) Hs) as (g & st1 & Ew & Hix1 & Em1 & Hpd & _ & Hco).
  destruct (segment_block _ _ _ _ _ _ (pd_segment _ _ _ Hpd)) as [_ Hblock].
  apply ensures_bind. exists (cg_block g), (mkIndex (ix_state ix) st1 (ix_docid_cache ix)).
  split; [unfold write_memtable, mbind, res_bind; by rewrite Ew|]. rewrite (proj2 (Z.eqb_neq _ _)) by lia.
  destruct (push_level0_ok st1 segs g docs len Hix1 Hpd) as (st2 & g' & E2 & Hix2 & _ & Ec & Em2 & _);
    [exists t; by apply (co_terms _ _ Hco)|done|done|].
  apply ensures_on_storage. cbn [ix_state ix_storage ix_docid_cache]. exists tt, st2. split.
  { eapply link_build_segment_eq; [apply read_metapage_ok, (io_wf _ _ Hix1)|by rewrite Em1..|exact E2]. }
  split; [done|]. rewrite Em2. split; [done|]. split; [done|]. exists (pushed_levels segs g').
  eapply (holds_pushed (ix_storage ix)); [done|done|by rewrite Ec].
Qed.

(** ** The whole build *)

(** What a finished build leaves; [old] are the documents that were spilled by the way. *)
Record built (ix : Index) (global : dsa_area) (docs old : list document) : Prop := {
  bu_index : exists segs, index_holds (ix_storage ix) segs docs;
  bu_memtable : holds (ix_state ix) global [];
  bu_mode : is_build_mode (ix_state ix) = false;
  bu_totals : total_docs (ix_state ix) = zlen docs /\ total_len (ix_state ix) = total_length docs;
  bu_meta : mp_total_docs (metapage_of (ix_storage ix)) = zlen docs /\
    mp_total_len (metapage_of (ix_storage ix)) = total_length docs;
  bu_tenants : tenants_known (tenant_stats (memtable (ix_state ix))) old;
}.

(** What a build must find: rows of the right types that fit, in numbers that fit. *)
Record build_ready (ix : Index) (heap : BuildHeap) : Prop := {
  br_rows : rows_ready (bh_rows heap) ix no_segments [] [];
  br_lengths : Forall (fun d => 0 <= doc_length d) (row_documents (bh_rows heap));
  br_count : zlen (row_documents (bh_rows heap)) < 2 ^ 31;
  br_length : total_length (row_documents (bh_rows heap)) < 2 ^ 63;
  br_final : forall ix' segs n, let b := batches (row_documents (bh_rows heap)) ([], []) in
    process_rows tp_compress_segments tp_segments_per_level now threshold to_tsvector_byid info plan
      (bh_rows heap) 0 ix = Ok (n, ix') ->
    building ix' segs b.1 b.2 -> final_ready ix' segs b.1;
}.

Lemma index_holds_perm st segs docs docs' : docs ≡ₚ docs' -> index_holds st segs docs -> index_holds st segs docs'.
Proof.
  intros Hp [Hok Hd Hr]. split; [done|by rewrite <- Hp|]. intros t. rewrite Hr. unfold expected_results. by rewrite Hp.
Qed.

Lemma finalize_mode_ok global st mem old : build_tenants st mem old ->
  ensures (tp_finalize_build_mode global) st (fun _ st' => holds st' global [] /\ is_build_mode st' = false /\
    total_docs st' = total_docs st /\ total_len st' = total_len st /\
    tenants_known (tenant_stats (memtable st')) old).
Proof.
  intros [_ _ [Hk Hs]]. apply ensures_modify.
  split; [split; [exists ∅; apply store_empty|done|done]|]. split; [done|]. split; [done|]. split; [done|].
  cbn. destruct (build_tenant_stats_accum st) as [acc|]; [|by split].
  assert (E : forall tid, foldl accumulate_stats ∅ (hash_seq acc).*2 !! tid = acc !! tid).
  { intros tid. rewrite accumulate_stats_map, lookup_empty by (intros k e; apply Hk). by destruct (acc !! tid). }
  split; intros tid; cbn; rewrite E; [apply Hk|apply Hs].
Qed.

Lemma tp_build_serial_ok ix heap global cfg k1 b ty ten :
  one_page (ix_storage ix) (fresh_metapage cfg k1 b ty ten) -> dw_valid (ix_docid_cache ix) = false ->
  build_tenant_stats_accum (ix_state ix) = None ->
  build_ready (mkIndex (tp_create_build_index_state None) (ix_storage ix) (ix_docid_cache ix)) heap ->
  ensures (tp_build_serial tp_compress_segments tp_segments_per_level now threshold to_tsvector_byid heap info plan global)
    ix (fun r ix' => let docs := row_documents (bh_rows heap) in
      r = mkBuildResult (zlen docs) (zlen docs) /\ built ix' global docs (batches docs ([], [])).2).
Proof.
  intros Hone Hcache Hacc [R1 R2 R3 R4 R5]. destruct (fresh_index_holds _ _ _ _ _ _ Hone) as [Hih Hdoc].
  set (docs := row_documents (bh_rows heap)) in *. set (bt := batches docs ([], [])) in *.
  apply ensures_bind, ensures_on_state, ensures_modify. rewrite Hacc.
  set (ix0 := mkIndex (tp_create_build_index_state None) _ _) in *.
  assert (Hb : building ix0 no_segments [] []).
  { split; [split; cbn [ix0 ix_state ix_storage ix_docid_cache]; try done|].
    - split; [exists ∅; apply store_empty|done|done].
    - intros x Hx. by apply not_elem_of_nil in Hx.
    - intros Hv. congruence.
    - split; [done|apply tenants_known_none|apply tenants_known_none]. }
  apply ensures_bind.
  destruct (process_rows_ok (bh_rows heap) ix0 no_segments [] [] 0 Hb R1 R2) as (n & ix1 & E1 & segs1 & Hb1 & Ed1 & El1);
    [done|done|done|done|]. exists n, ix1. split; [exact E1|]. fold docs bt in Hb1, Ed1, El1.
  specialize (R5 ix1 segs1 n E1 Hb1). pose proof (zlen_nonneg docs). pose proof (total_length_nonneg docs R2).
  change (total_docs (ix_state ix0)) with 0 in Ed1. change (total_len (ix_state ix0)) with 0 in El1.
  apply ensures_bind. destruct (finalize_ok ix1 segs1 bt.1 bt.2 Hb1 R5) as (r & ix2 & E2 & -> & Hfz).
  eexists _, ix2. split; [exact E2|]. cbv beta iota. rewrite Ed1, El1, !Z.add_0_l in *.
  apply ensures_bind. eapply ensures_mono.
  { apply (final_spill_ok ix2 segs1 bt.1 bt.2 _ _ Hfz); [apply R5|apply R5|].
    intros Hne. by apply (fi_segment _ _ _ R5 _ _ Hne E2). }
  intros [] ix3 (Es & Em1 & Em2 & segs3 & Hih3). destruct Hfz as [_ Z2 _ [Z4 Z5] _].
  apply ensures_bind, ensures_on_state. rewrite Es. eapply ensures_mono; [by eapply finalize_mode_ok|].
  intros [] st4 (Hh & Hm & Htd & Htl & Hten). apply ensures_ret. split; [by rewrite wrap_small by lia|].
  split; cbn [ix_state ix_storage]; [|done|done|by rewrite Htd, Htl, Z4, Z5| |done].
  - exists segs3. eapply index_holds_perm; [|exact Hih3]. apply (batches_all docs ([], [])).
  - rewrite Em1, Em2. split; apply wrap_small; lia.
Qed.
End Rows.

(** ** The claims *)

Section Properties.
Context `{PgLayoutLaws} `{FreeSpaceMapLaws} `{ItemPointerLaws} `{QSortLaws} `{HashSeqLaws}.
Context `{DsaAllocatorLaws}.
Context (tp_compress_segments : bool) (tp_segments_per_level now threshold : Z).
Context (to_tsvector_byid : Z -> list byte -> TSVector) (get_ts_config_oid : list byte -> res Z).

(** What a serial build must find. *)
Record serial_build_ready (ix : Index) (heap : BuildHeap) (options : option TpOptions) (info : IndexInfo)
    (m : TpIndexMetaPageData) (plan : BuildPlan) : Prop := {
  sb_relation : exists pool, ix_storage ix = new_relation pool;
  sb_configured : configured get_ts_config_oid heap options info = Ok (m, plan);
  sb_metapage : metapage_ok m;
  sb_serial : bp_workers plan = 0;
  sb_accum : build_tenant_stats_accum (ix_state ix) = None;
  sb_rows : forall st, tp_build_prepare get_ts_config_oid heap options info (ix_storage ix) = Ok (plan, st) ->
    build_ready tp_compress_segments tp_segments_per_level now threshold to_tsvector_byid info plan
      (mkIndex (tp_create_build_index_state None) st (tp_invalidate_docid_cache (ix_docid_cache ix))) heap;
}.

Lemma tp_build_ok ix heap options info m plan global : serial_build_ready ix heap options info m plan ->
  2 <= tp_segments_per_level <= 64 -> 120 <= SEGMENT_DATA_PER_PAGE -> 0 <= now < 2 ^ 64 ->
  ensures (tp_build tp_compress_segments tp_segments_per_level now threshold to_tsvector_byid get_ts_config_oid
      heap options info global) ix (fun outcome ix' =>
    let docs := row_documents to_tsvector_byid info plan (bh_rows heap) in
    outcome = BuildDone (mkBuildResult (zlen docs) (zlen docs)) /\
    built ix' global docs (batches threshold docs ([], [])).2).
Proof.
  intros [[pool Est] Hconf Hmok Hser Hacc Hrows] Hper HP Hnow. apply ensures_bind, ensures_modify.
  set (cache := tp_invalidate_docid_cache (ix_docid_cache ix)). apply ensures_bind, ensures_on_storage.
  cbn [ix_storage ix_state ix_docid_cache]. rewrite Est.
  pose proof (prepare_ok HP get_ts_config_oid heap options info pool) as Hprep. rewrite Hconf in Hprep.
  destruct (Hprep Hmok) as (plan' & st' & Eprep & -> & Hone). rewrite Est in Hrows. specialize (Hrows st' Eprep).
  exists plan, st'. split; [exact Eprep|]. rewrite Hser, Z.eqb_refl.
  assert (Em : exists cfg k1 b ty ten, m = fresh_metapage cfg k1 b ty ten).
  { unfold configured in Hconf. destruct (ii_IndexAttrNumber info =? 0); [done|].
    destruct (tp_build_extract_options _ _) as [[[cfg k1] b]|]; [|done]. cbn [mbind res_bind] in Hconf.
    destruct (column_kind _ _ _) as [ty|]; [|done]. cbn [mbind res_bind] in Hconf.
    destruct (tenant_attribute _ _) as [ten|]; [|done]. injection Hconf as <- _. by eexists _, _, _, _, _. }
  destruct Em as (cfg & k1 & b & ty & ten & ->). apply ensures_fmap.
  eapply ensures_mono.
  { apply (tp_build_serial_ok tp_compress_segments tp_segments_per_level now threshold to_tsvector_byid info plan HP Hnow Hper
      (mkIndex (ix_state ix) st' cache) heap global cfg k1 b ty ten); [exact Hone|done|done|exact Hrows]. }
  intros r ix' [-> Hb]. by split.
Qed.

(** A build configures the index.  On a new relation the checks of the options come
    to an error, which leaves no index, or to one page, the metapage, with exactly the
    text configuration, k1, b, column type and tenant column that the options and the
    catalog give, no segments, no docid pages and no documents. *)
Theorem build_configures_the_index (heap : BuildHeap) (options : option TpOptions) (info : IndexInfo) (pool : Z) :
  120 <= SEGMENT_DATA_PER_PAGE ->
  match configured get_ts_config_oid heap options info with
  | Err e => tp_build_prepare get_ts_config_oid heap options info (new_relation pool) = Err e
  | Ok (m, plan) => metapage_ok m ->
      ensures (tp_build_prepare get_ts_config_oid heap options info) (new_relation pool) (fun plan' st' =>
        plan' = plan /\ nblocks st' = 1 /\ metapage_of st' = m /\ index_holds st' no_segments [] /\ docids_inv st' [])
  end.
Proof.
  intros HP. pose proof (prepare_ok HP get_ts_config_oid heap options info pool) as Hprep. unfold configured in *.
  destruct (ii_IndexAttrNumber info =? 0); [done|].
  destruct (tp_build_extract_options _ _) as [[[cfg k1] b]|]; cbn [mbind res_bind] in *; [|done].
  destruct (column_kind _ _ _) as [ty|]; cbn [mbind res_bind] in *; [|done].
  destruct (tenant_attribute _ _) as [ten|]; cbn [mbind res_bind] in *; [|done].
  intros Hm. eapply ensures_mono; [by apply Hprep|]. intros plan' st' [-> Hone].
  destruct (fresh_index_holds _ _ _ _ _ _ Hone) as [? ?]. destruct Hone as [_ _ ? ?]. done.
Qed.

(** C30: a build indexes the table.  After the serial build of a table whose rows have the
    types of the index definition, the segments hold exactly the documents of the rows
    that are not NULL and have terms, whatever was spilled and compacted on the way; a
    search of every chain finds their postings; the totals of the metapage and of the
    state are theirs; the state is that of a running index with an empty memtable in
    the shared area.  The result counts the indexed documents only. *)
Theorem build_indexes_the_table (ix : Index) (heap : BuildHeap) (options : option TpOptions) (info : IndexInfo)
    (m : TpIndexMetaPageData) (plan : BuildPlan) (global : dsa_area) :
  serial_build_ready ix heap options info m plan ->
  2 <= tp_segments_per_level <= 64 -> 120 <= SEGMENT_DATA_PER_PAGE -> 0 <= now < 2 ^ 64 ->
  ensures (tp_build tp_compress_segments tp_segments_per_level now threshold to_tsvector_byid get_ts_config_oid
      heap options info global) ix (fun outcome ix' =>
    let docs := row_documents to_tsvector_byid info plan (bh_rows heap) in
    outcome = BuildDone (mkBuildResult (zlen docs) (zlen docs)) /\
    (exists segs, index_holds (ix_storage ix') segs docs) /\
    holds (ix_state ix') global [] /\ is_build_mode (ix_state ix') = false /\
    total_docs (ix_state ix') = zlen docs /\ mp_total_docs (metapage_of (ix_storage ix')) = zlen docs /\
    mp_total_len (metapage_of (ix_storage ix')) = total_length docs /\
    forall t limit, (length (expected_results docs (c_str t)) < limit)%nat ->
      exists ps, search_index limit (ix_storage ix') t = Ok ps /\
        result_triple <$> ps ≡ₚ expected_results docs (c_str t)).
Proof.
  intros Hready Hper HP Hnow. eapply ensures_mono; [by eapply tp_build_ok|].
  intros outcome ix' (-> & [[segs Bi] Bm Bb [Bd Bl] [Bmd Bml] _]). split; [done|]. split; [by exists segs|].
  do 5 (split; [done|]). intros t limit Hlim. eapply search_index_ok; [lia|exact Bi|done].
Qed.

(** C31: the tenants of the last batch are forgotten.  After a build the server knows only
    the tenants of documents that were spilled before the end of the scan: for any other
    one there are no statistics, although its documents are in the segments; and as soon
    as one tenant is known, the tenants that are not known count as empty. *)
Theorem build_forgets_tenants (ix : Index) (heap : BuildHeap) (options : option TpOptions) (info : IndexInfo)
    (m : TpIndexMetaPageData) (plan : BuildPlan) (global : dsa_area) :
  serial_build_ready ix heap options info m plan ->
  2 <= tp_segments_per_level <= 64 -> 120 <= SEGMENT_DATA_PER_PAGE -> 0 <= now < 2 ^ 64 ->
  ensures (tp_build tp_compress_segments tp_segments_per_level now threshold to_tsvector_byid get_ts_config_oid
      heap options info global) ix (fun _ ix' =>
    let docs := row_documents to_tsvector_byid info plan (bh_rows heap) in
    let spilled := (batches threshold docs ([], [])).2 in
    (forall tid, tid ∉ doc_tenant <$> spilled -> tp_get_tenant_stats tid (ix_state ix') = Ok (None, ix_state ix')) /\
    (forall tid, tid <> 0 -> tid ∈ doc_tenant <$> spilled ->
       tp_tenant_stats_initialized (ix_state ix') = Ok (true, ix_state ix'))).
Proof.
  intros Hready Hper HP Hnow. eapply ensures_mono; [by eapply tp_build_ok|].
  intros outcome ix' (_ & [_ _ _ _ _ [_ Bt]]). cbv zeta. set (spilled := (batches _ _ _).2) in *.
  unfold tp_get_tenant_stats, tp_tenant_stats_initialized, mbind, rst_bind, rst_gets.
  destruct (tenant_stats (memtable (ix_state ix'))) as [table|]; cbn [default from_option id] in Bt.
  - split; [|done]. intros tid Hno. destruct (table !! tid) eqn:E; [|done].
    destruct (Bt tid) as [Hb _]. destruct Hb as [_ Hin]; [by rewrite E|done].
  - split; [done|]. intros tid Hnz Hin. destruct (Bt tid) as [_ Hb]. by destruct Hb.
Qed.

(** Tenants that differ by a multiple of 2^32 are the same. *)
Lemma tenants_wrap (info : IndexInfo) (plan : BuildPlan) (slot slot' : TupleTableSlot) (n : Z) :
  bp_tenant_attnum plan <> InvalidAttrNumber ->
  slot_getattr slot (bp_tenant_attnum plan) = Some (IntegerDatum n) ->
  slot_getattr slot' (bp_tenant_attnum plan) = Some (IntegerDatum (n + 2 ^ 32)) ->
  row_tenant plan slot = row_tenant plan slot'.
Proof.
  intros Ha E E'. unfold row_tenant. rewrite (proj2 (Z.eqb_neq _ _) Ha), E, E'. cbn [DatumGetUInt32]. f_equal.
  unfold wrap. change (n + 2 ^ 32) with (n + 1 * 2 ^ 32). symmetry. by apply Z_mod_plus_full.
Qed.

(** The initialisation fork of an unlogged index keeps the text configuration only. *)
Lemma unlogged_index_loses_options (heap : BuildHeap) (options : option TpOptions) (info : IndexInfo) (pool : Z)
    (m : TpIndexMetaPageData) (plan : BuildPlan) :
  120 <= SEGMENT_DATA_PER_PAGE -> configured get_ts_config_oid heap options info = Ok (m, plan) -> metapage_ok m ->
  ensures (tp_buildempty get_ts_config_oid options) (new_relation pool) (fun _ st' =>
    one_page st' (fresh_metapage (mp_text_config_oid m) (float4_bits (f4_of_f8 TP_DEFAULT_K1))
      (float4_bits (f4_of_f8 TP_DEFAULT_B)) TP_INDEXED_TYPE_TEXT 0)).
Proof.
  intros HP Hconf Hm. unfold configured in Hconf. destruct (ii_IndexAttrNumber info =? 0); [done|].
  unfold tp_build_extract_options in Hconf. destruct (text_config_of get_ts_config_oid options) as [cfg|] eqn:Et; [|done].
  cbn [mbind res_bind] in Hconf. apply ensures_bind. eapply ensures_lift; [exact Et|].
  assert (Hc : fits 4 cfg /\ mp_text_config_oid m = cfg).
  { destruct options; cbn [mbind res_bind] in Hconf;
      (destruct (column_kind _ _ _) as [ty|]; [|done]); cbn [mbind res_bind] in Hconf;
      (destruct (tenant_attribute _ _) as [ten|]; [|done]); injection Hconf as <- _;
      by destruct (fresh_metapage_fits _ _ _ _ _ Hm) as [? _]. }
  destruct Hc as [Hc ->]. apply init_metapage_ok; [done|done|by vm_compute..].
Qed.
End Properties.

(** ** Witness: a table of four rows that spills once by the way *)

Section Witness.
#[local] Existing Instances max_allocator max_allocator_laws first_fit first_fit_laws wide_layout wide_layout_laws.

Definition demo_row (posid : Z) (v : option TSVector) (tenant : Z) : TupleTableSlot :=
  mkSlot (mkItemPointer 0 posid) (fun attno =>
    if attno =? 1 then TSVectorDatum <$> v else if attno =? 2 then Some (IntegerDatum tenant) else None).

(** The second row is NULL, the last one belongs to another tenant. *)
Definition demo_rows : list TupleTableSlot :=
  [demo_row 1 (Some [([x61], Some 2); ([x62], None)]) 5; demo_row 2 None 5; demo_row 3 (Some [([x62], Some 1)]) 5;
   demo_row 4 (Some [([x61], Some 4)]) 7].

Definition demo_heap : BuildHeap := mkBuildHeap (fun _ => TSVECTOROID) (fun _ => 2) (f4_of_Z 4) 1 demo_rows.
Definition demo_options : option TpOptions := Some (mkOptions None TP_DEFAULT_K1 TP_DEFAULT_B (Some [x74])).
Definition demo_info : IndexInfo := mkIndexInfo 1 0.
Definition demo_plan : BuildPlan := mkBuildPlan 0 TP_INDEXED_TYPE_TSVECTOR 2 0.
Definition demo_unbuilt : Index := mkIndex (demo_state false demo_frame) (new_relation 0) initial_docid_cache.
Definition no_configs : list byte -> res Z := fun _ => Err ERRCODE_UNDEFINED_OBJECT.
Definition no_vectors : Z -> list byte -> TSVector := fun _ _ => [].

Definition demo_meta : TpIndexMetaPageData :=
  fresh_metapage 0 (float4_bits (f4_of_f8 TP_DEFAULT_K1)) (float4_bits (f4_of_f8 TP_DEFAULT_B)) 1 2.

Lemma build_configures_the_index_witness :
  ensures (tp_build_prepare no_configs demo_heap demo_options demo_info) (new_relation 0) (fun plan' st' =>
    plan' = demo_plan /\ metapage_of st' = demo_meta) /\
  tp_build_prepare no_configs demo_heap (Some (mkOptions (Some [x78]) TP_DEFAULT_K1 TP_DEFAULT_B None)) demo_info
    (new_relation 0) = Err ERRCODE_UNDEFINED_OBJECT.
Proof.
  pose proof (build_configures_the_index no_configs demo_heap demo_options demo_info 0 demo_page_room) as Hb.
  pose proof (build_configures_the_index no_configs demo_heap (Some (mkOptions (Some [x78]) TP_DEFAULT_K1 TP_DEFAULT_B None))
    demo_info 0 demo_page_room) as He.
  split; [|exact He].
  assert (Hm : metapage_ok demo_meta) by (apply fresh_metapage_ok; vm_compute; split; discriminate || reflexivity).
  eapply ensures_mono; [exact (Hb Hm)|]. intros plan' st' (E1 & _ & E2 & _). split; [exact E1|exact E2].
Defined.

(** The documents: the first two are spilled together, the last one at the end. *)
Definition demo_d1 : document := mkDocument (mkItemPointer 0 1) [[x61]; [x62]] [2; 1] 3 5.
Definition demo_d3 : document := mkDocument (mkItemPointer 0 3) [[x62]] [1] 1 5.
Definition demo_d4 : document := mkDocument (mkItemPointer 0 4) [[x61]] [4] 4 7.

Definition demo_started : Index := Eval vm_compute in
  match tp_build_prepare no_configs demo_heap demo_options demo_info (new_relation 0) with
  | Ok (_, st) => mkIndex (tp_create_build_index_state None) st (tp_invalidate_docid_cache initial_docid_cache)
  | Err _ => demo_unbuilt
  end.

(** The index after a document, without a spill and with one. *)
Abbreviation demo_add d :=
  (process_terms false 2 7 (Some 3) (doc_ctid d) (doc_terms d) (doc_frequencies d) (doc_length d) (doc_tenant d)).
Definition demo_process (d : document) (ix : Index) : Index :=
  match demo_add d ix with
  | Ok (_, ix') => ix'
  | Err _ => ix
  end.
Definition demo_after1 : Index := Eval vm_compute in demo_process demo_d1 demo_started.
Definition demo_after3 : Index := Eval vm_compute in demo_process demo_d3 demo_after1.
Definition demo_after4 : Index := Eval vm_compute in demo_process demo_d4 demo_after3.

Lemma ok_pair {A B} (a a' : A) (b b' : B) : Ok (a, b) = Ok (a', b') -> a = a' /\ b = b'.
Proof. by intros [= -> ->]. Qed.

Lemma demo_runs :
  tp_build_prepare no_configs demo_heap demo_options demo_info (new_relation 0) = Ok (demo_plan, ix_storage demo_started) /\
  demo_add demo_d1 demo_started = Ok (tt, demo_after1) /\ demo_add demo_d3 demo_after1 = Ok (tt, demo_after3) /\
  process_rows false 2 7 3 no_vectors demo_info demo_plan demo_rows 0 demo_started = Ok (3, demo_after4).
Proof. repeat split; lazymatch goal with |- _ = ?r => vm_cast_no_check (eq_refl r) end. Qed.

Definition insert_ready_bool (ix : Index) (mem : list document) (d : document) : bool :=
  let after := with_document ix d in
  (nblocks (ix_storage ix) + 2 <? InvalidBlockNumber) &&
  (index_size (mem ++ [d]) <? 2 ^ 30) &&
  (negb (spills 3 (mem ++ [d])) || state_fits_bool (ix_state after) (mem ++ [d]) (ix_storage after)) &&
  match tp_auto_spill_if_needed false 2 7 3 after with
  | Ok (_, ix') => nblocks (ix_storage ix') + 2 <? InvalidBlockNumber
  | Err _ => true
  end.

Lemma insert_ready_decided ix segs mem old d : insert_ready_bool ix mem d = true -> document_ok d ->
  ItemPointerIsValid (doc_ctid d) = true /\ ctid_ok (doc_ctid d) -> doc_terms d <> [] ->
  (spills 3 (mem ++ [d]) = true -> indexable (mem ++ [d]) /\ (exists t, postings_of (mem ++ [d]) t <> []) /\
     distinct_documents ((mem ++ [d]) ++ old) /\ nth 0 segs [] = []) ->
  insert_ready false 2 7 3 ix segs mem old d.
Proof.
  unfold insert_ready_bool. intros [[[E1 E2]%andb_true_iff E3]%andb_true_iff E4]%andb_true_iff Hok Hc Ht Hs.
  split; [done|done|done|by apply Z.ltb_lt in E2| |by apply Z.ltb_lt in E1|].
  - intros Esp. destruct (Hs Esp) as (Hi & Hp & Hd & Hn). rewrite Esp in E3. cbn [negb orb] in E3.
    split; [done|done|done| |].
    + apply state_fits_decided; [done|]. by rewrite Hn.
    + intros block ix' g _ _ _. left. destruct segs as [|gs segs]; [done|]. cbn in Hn. by subst gs.
  - intros ix' E. rewrite E in E4. by apply Z.ltb_lt in E4.
Qed.

Lemma demo_documents_indexable : indexable [demo_d1; demo_d3] /\ indexable [demo_d4] /\
  distinct_documents [demo_d1; demo_d3].
Proof.
  split; [|split].
  - split; [vm_compute; repeat (apply NoDup_cons; split; [set_solver|]); apply NoDup_nil_2| |by vm_compute|forall_compute].
    repeat (apply Forall_cons; split;
      [vm_compute; repeat (apply NoDup_cons; split; [set_solver|]); apply NoDup_nil_2|]). by apply Forall_nil.
  - split; [vm_compute; repeat (apply NoDup_cons; split; [set_solver|]); apply NoDup_nil_2| |by vm_compute|forall_compute].
    repeat (apply Forall_cons; split;
      [vm_compute; repeat (apply NoDup_cons; split; [set_solver|]); apply NoDup_nil_2|]). by apply Forall_nil.
  - split; [|by vm_compute]. vm_compute. repeat (apply NoDup_cons; split; [set_solver|]). apply NoDup_nil_2.
Qed.

Lemma first_level_count st segs docs n : index_holds st segs docs -> level_count (metapage_of st) 0 = n ->
  zlen (nth 0 segs []) = n.
Proof.
  intros [Hok _ _] <-. destruct segs as [|gs segs]; [by pose proof (io_levels _ _ Hok)|]. cbn [nth].
  symmetry. by apply (io_count _ _ Hok 0%nat).
Qed.

Lemma demo_rows_ready : rows_ready false 2 7 3 no_vectors demo_info demo_plan demo_rows demo_started no_segments [] [].
Proof.
  destruct demo_documents_indexable as (Hi & _ & Hd).
  assert (Hok : forall d, d ∈ [demo_d1; demo_d3; demo_d4] -> document_ok d /\
    (ItemPointerIsValid (doc_ctid d) = true /\ ctid_ok (doc_ctid d)) /\ doc_terms d <> []).
  { intros d Hin. repeat (apply elem_of_cons in Hin as [->|Hin]); [..|by apply not_elem_of_nil in Hin];
      (split; [split; [reflexivity|repeat (constructor; [discriminate|]); constructor]|
       split; [split; [vm_compute; reflexivity|vm_compute; intuition discriminate]|discriminate]]). }
  exists (Some demo_d1). split; [reflexivity|]. destruct (Hok demo_d1 ltac:(set_solver)) as (O1 & O2 & O3).
  split; [apply insert_ready_decided; [vm_compute; reflexivity|done|done|done|vm_compute; discriminate]|].
  intros ix1 segs1 E1 Hiv1. rewrite (proj1 (proj2 demo_runs)) in E1. apply ok_pair in E1 as [_ <-].
  exists None. split; [reflexivity|].
  exists (Some demo_d3). split; [reflexivity|]. destruct (Hok demo_d3 ltac:(set_solver)) as (P1 & P2 & P3).
  split.
  { apply insert_ready_decided; [vm_compute; reflexivity|done|done|done|]. intros _. split; [exact Hi|].
    split; [exists [x61]; vm_compute; discriminate|]. split; [exact Hd|].
    pose proof (first_level_count _ _ _ 0 (iv_segments _ _ _ _ _ _ _ Hiv1) ltac:(vm_compute; reflexivity)) as En.
    destruct (nth 0 segs1 []) as [|g gs]; [done|]. rewrite zlen_cons in En. pose proof (zlen_nonneg gs). lia. }
  intros ix3 segs3 E3 Hiv3. rewrite (proj1 (proj2 (proj2 demo_runs))) in E3. apply ok_pair in E3 as [_ <-].
  exists (Some demo_d4). split; [reflexivity|]. destruct (Hok demo_d4 ltac:(set_solver)) as (Q1 & Q2 & Q3).
  split; [apply insert_ready_decided; [vm_compute; reflexivity|done|done|done|vm_compute; discriminate]|].
  done.
Qed.

Lemma demo_ready : serial_build_ready false 2 7 3 no_vectors no_configs demo_unbuilt demo_heap demo_options demo_info
  demo_meta demo_plan.
Proof.
  split.
  - by exists 0.
  - vm_compute. reflexivity.
  - apply fresh_metapage_ok; vm_compute; split; discriminate || reflexivity.
  - reflexivity.
  - reflexivity.
  - intros st E. change (ix_storage demo_unbuilt) with (new_relation 0) in E.
    rewrite (proj1 demo_runs) in E. apply ok_pair in E as [_ <-].
    change (mkIndex _ _ _) with demo_started. split.
    + exact demo_rows_ready.
    + forall_compute.
    + vm_compute. reflexivity.
    + vm_compute. reflexivity.
    + intros ix' segs n b E Hb. change (bh_rows demo_heap) with demo_rows in E. rewrite (proj2 (proj2 (proj2 demo_runs))) in E. apply ok_pair in E as [_ <-].
      destruct demo_documents_indexable as (_ & Hi & _). split.
      * apply stats_table_decided. vm_compute. reflexivity.
      * vm_compute. reflexivity.
      * intros _. split; [exact Hi|]. exists [x61]. vm_compute. discriminate.
      * intros _. rewrite (first_level_count _ _ _ 1 (iv_segments _ _ _ _ _ _ _ (bd_inv _ _ _ _ Hb))); [lia|].
        vm_compute. reflexivity.
      * intros r ix' _ E. assert (Ef : match tp_build_finalize_and_update_stats demo_after4 with
          | Ok (_, ix1) => segment_fits_bool false 7 (ix_state ix1) [demo_d4] (ix_storage ix1)
          | Err _ => true end = true) by (vm_compute; reflexivity).
        rewrite E in Ef. by apply segment_fits_decided.
Qed.

Lemma build_indexes_the_table_witness :
  ensures (tp_build false 2 7 3 no_vectors no_configs demo_heap demo_options demo_info demo_frame) demo_unbuilt
    (fun outcome ix' => outcome = BuildDone (mkBuildResult 3 3) /\
       exists ps, search_index 9 (ix_storage ix') [x61] = Ok ps /\
         result_triple <$> ps ≡ₚ [(mkItemPointer 0 1, 2, 3); (mkItemPointer 0 4, 4, 4)]).
Proof.
  eapply ensures_mono.
  { apply (build_indexes_the_table false 2 7 3 no_vectors no_configs demo_unbuilt demo_heap demo_options demo_info demo_meta
      demo_plan demo_frame demo_ready); [lia|exact demo_page_room|exact demo_now]. }
  intros outcome ix' (E & _ & _ & _ & _ & _ & _ & Hs). split; [exact E|]. apply (Hs [x61] 9%nat). vm_compute. lia.
Defined.

Lemma build_forgets_tenants_witness :
  ensures (tp_build false 2 7 3 no_vectors no_configs demo_heap demo_options demo_info demo_frame) demo_unbuilt
    (fun _ ix' => tp_get_tenant_stats 7 (ix_state ix') = Ok (None, ix_state ix') /\
       tp_tenant_stats_initialized (ix_state ix') = Ok (true, ix_state ix')).
Proof.
  eapply ensures_mono.
  { apply (build_forgets_tenants false 2 7 3 no_vectors no_configs demo_unbuilt demo_heap demo_options demo_info demo_meta
      demo_plan demo_frame demo_ready); [lia|exact demo_page_room|exact demo_now]. }
  intros outcome ix' [H1 H2]. split.
  - apply H1. vm_compute. intros Hin. repeat (apply elem_of_cons in Hin as [E|Hin]; [discriminate E|]).
    by apply not_elem_of_nil in Hin.
  - apply (H2 5); [discriminate|]. vm_compute. apply elem_of_cons. left. reflexivity.
Defined.
End Witness.
