(* ===== verification/Vacuum.v ===== *)
(** * Bulk deletion and vacuum (am/vacuum.c)

    [tp_bulkdelete] is what VACUUM and the validation of CREATE INDEX CONCURRENTLY
    call: it tells a callback of the server the CTID of every document.  The
    callback answers whether the row is dead; the answer is not looked at, and no
    document leaves the index. *)
From S2P Require Import Prelude Postgres Float4 Fieldnorm SegmentFormat Compression Storage SegmentIO.
From S2P Require Import Docmap SegmentScan ScanFacts Memtable MemtableFacts SegmentWrite SegmentWriteFacts.
From S2P Require Import SegmentEmit SegmentLayout SegmentOpen SegmentContent SegmentDocs SegmentRoundtrip.
From S2P Require Import Metapage MetapageFacts DocidChain DocidEvents TenantPages Merge MergeWrite Lifecycle.
From S2P Require Import MergeReaders MergeTerms MergePostings MergeDocs MergeEmit MergePlan MergeSegment.
From S2P Require Import MergeLevel MergeProperties Levels SpillFacts IndexDocs IndexProperties InsertFacts.

Record IndexBulkDeleteResult := mkBulkDeleteResult {
  num_pages : Z;
  num_index_tuples : float8;
  tuples_removed : float8;
  pages_deleted : Z;
  pages_free : Z;
}.

(** [palloc0] *)
Definition no_stats : IndexBulkDeleteResult := mkBulkDeleteResult 0 (f8_of_Z 0) (f8_of_Z 0) 0 0.

Section Vacuum.
Context `{PgLayout} `{ItemPointerOps} `{HashSeq}.
(** The callback: its state, and the answer for a CTID. *)
Context {CB : Type} (callback : ItemPointerData -> CB -> bool * CB).

(** One CTID: the callback's state and the count. *)
Definition report (ctid : ItemPointerData) (acc : CB * Z) : CB * Z :=
  if ItemPointerIsValid ctid then (snd (callback ctid (fst acc)), i64 (snd acc + 1)) else acc.

Definition tp_bulkdelete_memtable_ctids (state : TpLocalIndexState) (callback_state : CB) : CB * Z :=
  match doc_lengths (memtable state) with
  | None => (callback_state, 0)
  | Some table => foldl (fun acc e => report (fst e) acc) (callback_state, 0) (hash_seq table)
  end.

(** [for (i = 0; i < num_docs; i++)] *)
Fixpoint report_segment (n : nat) (i : Z) (st : Storage) (reader : TpSegmentReader) (acc : CB * Z)
    : res (TpSegmentReader * (CB * Z)) :=
  match n with
  | O => Ok (reader, acc)
  | S n =>
      '(ctid, reader) ← tp_segment_lookup_ctid st reader i;
      report_segment n (i + 1) st reader (report ctid acc)
  end.

Fixpoint report_chain (fuel : nat) (st : Storage) (segment_root : Z) (acc : CB * Z) : res (CB * Z) :=
  match fuel with
  | O => Err OUT_OF_FUEL
  | S fuel =>
      if segment_root =? InvalidBlockNumber then Ok acc
      else
        r ← tp_segment_open_ex st segment_root true;
        match r with
        | None => Ok acc
        | Some reader =>
            '(reader, acc) ← report_segment (Z.to_nat (SegmentFormat.num_docs (r_header reader))) 0 st reader acc;
            report_chain fuel st (next_segment (r_header reader)) acc
        end
  end.

Definition tp_bulkdelete_segment_ctids (st : Storage) (first_segment : Z) (callback_state : CB) : res (CB * Z) :=
  report_chain (S (S (Z.to_nat (nblocks st)))) st first_segment (callback_state, 0).

(** The loop over the levels. *)
Fixpoint report_levels (st : Storage) (level_heads : list Z) (callback_state : CB) : res CB :=
  match level_heads with
  | [] => Ok callback_state
  | head :: heads =>
      callback_state ← (if head =? InvalidBlockNumber then Ok callback_state
                        else fst <$> tp_bulkdelete_segment_ctids st head callback_state);
      report_levels st heads callback_state
  end.

(** The index is only read; [with_callback] is [callback != NULL], [index_state] is
    what [tp_get_local_index_state] returns. *)
Definition tp_bulkdelete (with_callback : bool) (index_state : option TpLocalIndexState) (st : Storage)
    (stats : option IndexBulkDeleteResult) (callback_state : CB) : res (CB * IndexBulkDeleteResult) :=
  let stats := default no_stats stats in
  '(metap, _) ← tp_get_metapage st;
  callback_state ← (if with_callback then
                      let callback_state := match index_state with
                                            | Some state => fst (tp_bulkdelete_memtable_ctids state callback_state)
                                            | None => callback_state
                                            end in
                      report_levels st (mp_level_heads metap) callback_state
                    else Ok callback_state);
  Ok (callback_state, mkBulkDeleteResult 1 (f8_of_Z (mp_total_docs metap)) (f8_of_Z 0) 0 (pages_free stats)).

Definition tp_vacuumcleanup (st : Storage) (stats : option IndexBulkDeleteResult) : res IndexBulkDeleteResult :=
  let stats := default no_stats stats in
  '(metap, _) ← tp_get_metapage st;
  Ok (mkBulkDeleteResult 1 (f8_of_Z (mp_total_docs metap)) (tuples_removed stats) (pages_deleted stats)
        (if (pages_deleted stats =? 0) && f4_eq (tuples_removed stats) (f8_of_Z 0) then 0 else pages_free stats)).
End Vacuum.

(** ** Every document is reported *)

Section Facts.
Context `{PgLayoutLaws} `{FreeSpaceMapLaws} `{ItemPointerLaws} `{QSortLaws} `{HashSeqLaws}.
Context {CB : Type} (callback : ItemPointerData -> CB -> bool * CB).

(** What the callback's state becomes. *)
Definition told (ctids : list ItemPointerData) (cb : CB) : CB := foldl (fun cb ctid => snd (callback ctid cb)) cb ctids.

Lemma told_app l1 l2 cb : told (l1 ++ l2) cb = told l2 (told l1 cb).
Proof. apply foldl_app. Qed.

Abbreviation valid_ctids := (Forall (fun c => ItemPointerIsValid c = true)).

Lemma report_told {A} (f : A -> ItemPointerData) (l : list A) acc : valid_ctids (f <$> l) ->
  fst (foldl (fun acc e => report callback (f e) acc) acc l) = told (f <$> l) (fst acc).
Proof.
  revert acc. induction l as [|e l IH]; intros acc Hv; [done|]. apply Forall_cons in Hv as [He Hv].
  cbn [foldl fmap list_fmap]. rewrite IH by done. unfold report. by rewrite He.
Qed.

Lemma fmap_fst_lengths docs : NoDup (doc_ctid <$> docs) ->
  (map_to_list (lengths_of docs)).*1 ≡ₚ doc_ctid <$> docs.
Proof.
  induction docs as [|d docs IH] using rev_ind; intros Hnd; [unfold lengths_of; cbn [foldl]; by rewrite map_to_list_empty|].
  rewrite fmap_app in Hnd |- *. apply NoDup_app in Hnd as (Hnd & Hdis & _).
  unfold lengths_of. rewrite foldl_app. cbn [foldl]. fold (lengths_of docs).
  rewrite map_to_list_insert; [|].
  - csimpl. rewrite IH by done. by rewrite Permutation_app_comm.
  - destruct (lengths_of docs !! doc_ctid d) as [e|] eqn:E; [|done]. exfalso.
    apply elem_of_map_to_list in E. apply (list_elem_of_fmap_2 fst) in E. rewrite IH in E by done.
    apply (Hdis _ E). csimpl. by left.
Qed.

Lemma memtable_told state frame docs cb : holds state frame docs -> NoDup (doc_ctid <$> docs) ->
  valid_ctids (doc_ctid <$> docs) ->
  exists reported, reported ≡ₚ doc_ctid <$> docs /\
    fst (tp_bulkdelete_memtable_ctids callback state cb) = told reported cb.
Proof.
  intros Hh Hnd Hv. unfold tp_bulkdelete_memtable_ctids. pose proof (h_lengths _ _ _ Hh) as El.
  destruct (doc_lengths (memtable state)) as [table|]; cbn [from_option id] in El.
  - change (table = lengths_of docs) in El. subst table. exists (hash_seq (lengths_of docs)).*1.
    assert (HP : (hash_seq (lengths_of docs)).*1 ≡ₚ doc_ctid <$> docs) by (by rewrite hash_seq_perm, fmap_fst_lengths).
    split; [done|]. rewrite report_told; [done|]. by rewrite HP.
  - exists []. split; [|done]. rewrite <- fmap_fst_lengths by done.
    change (∅ = lengths_of docs) in El. rewrite <- El. by rewrite map_to_list_empty.
Qed.

(** The documents of a segment, from the arrays loaded with it. *)
Lemma report_segment_told st reader docs : r_cached_ctids reader = Some ((fun d => ip_blkid (sd_ctid d)) <$> docs,
    (fun d => ip_posid (sd_ctid d)) <$> docs) -> valid_ctids (sd_ctid <$> docs) ->
  forall rest pre acc, docs = pre ++ rest ->
  exists count, report_segment callback (length rest) (zlen pre) st reader acc =
    Ok (reader, (told (sd_ctid <$> rest) (fst acc), count)).
Proof.
  intros Hc Hv rest. induction rest as [|d rest IH]; intros pre acc E; cbn [report_segment length].
  { exists (snd acc). by destruct acc. }
  unfold tp_segment_lookup_ctid. rewrite Hc.
  assert (Ez : forall {B} (f : segment_doc -> B), zread (f <$> docs) (zlen pre) = Ok (f d)).
  { intros B f. unfold zread. rewrite zget_fmap, zget_lookup by apply zlen_nonneg.
    unfold zlen. by rewrite E, Nat2Z.id, list_lookup_middle. }
  rewrite !Ez. cbn [mbind res_bind].
  assert (Hd : ItemPointerIsValid (sd_ctid d) = true).
  { rewrite E, fmap_app in Hv. apply Forall_app in Hv as [_ Hv]. by apply Forall_cons in Hv as [? _]. }
  destruct (IH (pre ++ [d]) (report callback (mkItemPointer (ip_blkid (sd_ctid d)) (ip_posid (sd_ctid d))) acc))
    as [count Er]; [by rewrite <- app_assoc|].
  rewrite zlen_app in Er. change (zlen [d]) with 1 in Er. rewrite Er. exists count. do 3 f_equal.
  replace (mkItemPointer _ _) with (sd_ctid d) by (by destruct (sd_ctid d)).
  unfold report. by rewrite Hd.
Qed.

Lemma report_chain_told st : 104 <= SEGMENT_DATA_PER_PAGE -> forall gs fuel head acc, level_chain st head gs ->
  (length gs < fuel)%nat -> valid_ctids (sd_ctid <$> concat ((fun g => sc_docs (cg_content g)) <$> gs)) ->
  exists count, report_chain callback fuel st head acc =
    Ok (told (sd_ctid <$> concat ((fun g => sc_docs (cg_content g)) <$> gs)) (fst acc), count).
Proof.
  intros HP gs. induction gs as [|g gs IH]; intros [|fuel] head acc Hc Hf Hv; simpl in Hf; try lia; cbn [report_chain].
  { cbn [level_chain] in Hc. rewrite Hc, Z.eqb_refl. exists (snd acc). by destruct acc. }
  destruct Hc as (-> & [Hseg Hsrc Hsome] & Hc). csimpl in Hv. cbn [concat] in Hv. rewrite fmap_app in Hv.
  apply Forall_app in Hv as [Hv1 Hv].
  destruct (segment_block _ _ _ _ _ _ Hseg) as [_ Hb]. rewrite (proj2 (Z.eqb_neq _ _)) by lia.
  destruct (open_segment_at _ _ _ _ _ _ true Hseg HP) as (r & Eo & Hrok & Hrh & Hrc). rewrite Eo.
  cbn [mbind res_bind]. rewrite Hrh.
  assert (En : Z.to_nat (SegmentFormat.num_docs (cg_header g)) = length (sc_docs (cg_content g))).
  { destruct Hseg as [_ _ _ [[Hop _ _ _] _ _ _]]. destruct (op_counts _ _ _ _ Hop) as [Ep _].
    rewrite zlen_fmap in Ep. unfold zlen in Ep. lia. }
  rewrite En. destruct (report_segment_told st r (sc_docs (cg_content g)) Hrc Hv1 (sc_docs (cg_content g)) [] acc eq_refl)
    as [count Er].
  change (zlen []) with 0 in Er. rewrite Er. cbn [mbind res_bind]. rewrite Hrh.
  destruct (IH fuel _ (told (sd_ctid <$> sc_docs (cg_content g)) (fst acc), count) Hc ltac:(lia) Hv) as [count' ->].
  exists count'. csimpl. cbn [concat]. by rewrite fmap_app, told_app.
Qed.

Lemma report_levels_told st heads : 104 <= SEGMENT_DATA_PER_PAGE -> forall segs cb,
  (forall l gs, segs !! l = Some gs -> level_chain st (nth l heads 0) gs) -> length heads = length segs ->
  Forall (fun gs => length gs < S (S (Z.to_nat (nblocks st))))%nat segs ->
  valid_ctids (sd_ctid <$> index_docs segs) ->
  report_levels callback st heads cb = Ok (told (sd_ctid <$> index_docs segs) cb).
Proof.
  intros HP. induction heads as [|head heads IH]; intros [|gs segs] cb Hc Hlen Hf Hv; try done; cbn [report_levels].
  apply Forall_cons in Hf as [Hf1 Hf]. unfold index_docs in Hv |- *. cbn [concat] in Hv |- *.
  rewrite fmap_app, concat_app, fmap_app in Hv |- *. apply Forall_app in Hv as [Hv1 Hv2].
  pose proof (Hc 0%nat gs eq_refl) as Hg. cbn [nth] in Hg.
  rewrite told_app. rewrite <- (IH segs (told _ cb)); [|intros l gs' E; by apply (Hc (S l))|by injection Hlen|done|done].
  destruct (Z.eqb_spec head InvalidBlockNumber) as [E|_]; cbn [mbind res_bind].
  - destruct gs as [|g gs]; [done|]. exfalso. destruct Hg as (Hh & [Hseg _ _] & _).
    destruct (segment_block _ _ _ _ _ _ Hseg) as [_ Hb]. lia.
  - unfold tp_bulkdelete_segment_ctids.
    destruct (report_chain_told st HP gs _ head (cb, 0) Hg Hf1 Hv1) as [count ->]. done.
Qed.
End Facts.

(** ** Properties *)

(** C40: bulk deletion on an open index tells the callback every document of the
    memtable and of the segments exactly once, whatever the callback answers, and
    removes nothing. *)
Theorem bulkdelete_reports_every_document `{PgLayoutLaws} `{FreeSpaceMapLaws} `{ItemPointerLaws} `{QSortLaws}
    `{HashSeqLaws} `{DsaAllocatorLaws} {CB : Type} (callback : ItemPointerData -> CB -> bool * CB) oid ix frame
    (segs : list (list chain_segment)) (mem old : list document) pages cb stats :
  index_inv oid ix frame segs mem old pages -> NoDup (doc_ctid <$> mem) ->
  Forall (fun d => ItemPointerIsValid (doc_ctid d) = true) (mem ++ old) -> 120 <= SEGMENT_DATA_PER_PAGE ->
  exists reported r,
    tp_bulkdelete callback true (Some (ix_state ix)) (ix_storage ix) stats cb =
      Ok (told callback reported cb, r) /\
    reported ≡ₚ doc_ctid <$> (mem ++ old) /\
    num_index_tuples r = f8_of_Z (mp_total_docs (metapage_of (ix_storage ix))) /\ tuples_removed r = f8_of_Z 0.
Proof.
  intros [Hh _ Hih Hdi _ _] Hnd Hv HP. set (st := ix_storage ix) in *.
  apply (Forall_fmap doc_ctid (fun c => ItemPointerIsValid c = true)) in Hv. rewrite fmap_app in Hv.
  apply Forall_app in Hv as [Hvm Hvo]. pose proof (ih_ok _ _ _ Hih) as Hix.
  pose proof (metapage_of_ok st (io_wf _ _ Hix) HP) as (_ & Hlh & _).
  destruct (memtable_told callback (ix_state ix) frame mem cb Hh Hnd Hvm) as (reported & HPm & Em).
  assert (Hseg : sd_ctid <$> index_docs segs ≡ₚ doc_ctid <$> old).
  { pose proof (fmap_Permutation fst _ _ (ih_docs _ _ _ Hih)) as E.
    by rewrite <- !list_fmap_compose in E. }
  exists (reported ++ (sd_ctid <$> index_docs segs)).
  exists (mkBulkDeleteResult 1 (f8_of_Z (mp_total_docs (metapage_of st))) (f8_of_Z 0) 0 (pages_free (default no_stats stats))).
  split; [|split; [by rewrite HPm, Hseg, fmap_app|done]].
  assert (HP' : 104 <= SEGMENT_DATA_PER_PAGE) by lia.
  unfold tp_bulkdelete, tp_get_metapage, mbind, rst_bind. rewrite (read_metapage_ok _ (io_wf _ _ Hix)).
  rewrite (di_magic _ _ Hdi), (di_version _ _ Hdi), !Z.eqb_refl. cbn [negb mret rst_ret res_bind].
  rewrite Em, (report_levels_told callback st (mp_level_heads (metapage_of st)) HP' segs).
  - cbn [res_bind]. by rewrite told_app.
  - apply (io_chain _ _ Hix).
  - by rewrite Hlh, (io_levels _ _ Hix).
  - by apply index_chains_short.
  - by rewrite Hseg.
Qed.

(** ** Witness: a callback that finds every row dead and notes its CTID *)

Section Witness.
#[local] Existing Instances max_allocator max_allocator_laws first_fit first_fit_laws wide_layout wide_layout_laws.

Definition note (ctid : ItemPointerData) (noted : list ItemPointerData) : bool * list ItemPointerData :=
  (true, noted ++ [ctid]).

Lemma told_note ctids noted : told note ctids noted = noted ++ ctids.
Proof.
  revert noted. induction ctids as [|c ctids IH]; intros noted; [by rewrite app_nil_r|].
  change (told note ctids (noted ++ [c]) = noted ++ c :: ctids). by rewrite IH, <- app_assoc.
Qed.

Lemma bulkdelete_reports_every_document_witness :
  exists reported r, tp_bulkdelete note true (Some (ix_state demo_open_index)) (ix_storage demo_open_index) None [] =
    Ok (reported, r) /\ reported ≡ₚ doc_ctid <$> ([demo_in_memtable] ++ demo_documents).
Proof.
  destruct demo_first as (g1 & Hih & C1).
  destruct (bulkdelete_reports_every_document note 16385 demo_open_index demo_frame (pushed_levels no_segments g1)
    [demo_in_memtable] demo_documents [] [] None (demo_open_inv g1 Hih)) as (reported & r & E & HP & _).
  - apply NoDup_singleton.
  - vm_compute. repeat constructor.
  - exact demo_page_room.
  - exists reported, r. rewrite told_note in E. split; [exact E|exact HP].
Defined.
End Witness.
