(* ===== verification/RecoveryFacts.v ===== *)
(** * Recovery

    After a restart the memtable is rebuilt: the documents of the docid chain that the
    heap still has are added to a fresh memtable, and the totals are those of the
    metapage. *)
From S2P Require Import Prelude Postgres SegmentFormat Storage SegmentIO Memtable ScanFacts SegmentWriteFacts.
From S2P Require Import MemtableFacts Metapage MetapageFacts DocidChain DocidEvents TenantPages Merge MergeWrite.
From S2P Require Import SegmentScan Lifecycle MergeLevel Levels SegmentRoundtrip SpillFacts IndexDocs IndexProperties InsertFacts.

Section RecoveryFacts.
Context `{PgLayoutLaws} `{FreeSpaceMapLaws} `{ItemPointerLaws} `{QSortLaws} `{HashSeqLaws}.
Context `{DsaAllocatorLaws}.
Context (to_tsvector_byid : Z -> list byte -> TSVector) (heap : HeapRelation).

(** The document recovery finds for a CTID, if any. *)
Definition recovered_document (m : TpIndexMetaPageData) (ctid : ItemPointerData) : option document :=
  if negb (ItemPointerIsValid ctid) || (h_blocks heap <=? ip_blkid ctid) then None
  else
    tuple ← heap_fetch heap ctid;
    document_text ← t_text tuple;
    let '(terms, frequencies, doc_length) :=
      tp_extract_terms_from_tsvector (to_tsvector_byid (mp_text_config_oid m) document_text) in
    if 0 <? zlen terms then
      Some (mkDocument ctid terms frequencies doc_length
              (if mp_tenant_column_attno m =? 0 then 0 else default 0 (t_tenant tuple)))
    else None.

Definition lexemes_ok (d : document) : Prop := Forall (fun t => c_str t <> []) (doc_terms d).

Lemma recovered_document_ok m ctid d : recovered_document m ctid = Some d -> lexemes_ok d -> document_ok d.
Proof.
  unfold recovered_document. destruct (_ || _); [done|]. intros E Hl.
  destruct (heap_fetch heap ctid) as [tuple|]; [|done]. cbn [mbind option_bind] in E.
  destruct (t_text tuple) as [text|]; [|done]. cbn [mbind option_bind tp_extract_terms_from_tsvector] in E.
  destruct (0 <? _); [|done]. injection E as <-. split; [|done]. cbn. by rewrite !length_fmap.
Qed.

Context (tp_compress_segments : bool) (tp_segments_per_level now : Z).
Abbreviation recover_one := (recover_document tp_compress_segments tp_segments_per_level now to_tsvector_byid heap).
Abbreviation recover_all := (recover_documents tp_compress_segments tp_segments_per_level now to_tsvector_byid heap).

(** Recovering documents changes the state only. *)
Record recovering (ix ix' : Index) (frame : dsa_area) (docs : list document) : Prop := {
  rc_storage : ix_storage ix' = ix_storage ix;
  rc_cache : ix_docid_cache ix' = ix_docid_cache ix;
  rc_mode : is_build_mode (ix_state ix') = is_build_mode (ix_state ix);
  rc_holds : holds (ix_state ix') frame docs;
}.

Lemma holds_same_memtable st st' frame docs : memtable st' = memtable st -> dsa st' = dsa st ->
  holds st frame docs -> holds st' frame docs.
Proof.
  intros Em Ed [[own Hs] Hl Hp]. split; [|by rewrite Em|by rewrite Em]. exists own. unfold table in *. by rewrite Em, Ed.
Qed.

Lemma recover_document_ok ix frame docs m ctid : holds (ix_state ix) frame docs ->
  (forall d, recovered_document m ctid = Some d -> lexemes_ok d /\ index_size (docs ++ [d]) < 2 ^ 30) ->
  ensures (recover_one m ctid) ix (fun _ ix' =>
    recovering ix ix' frame (docs ++ omap (recovered_document m) [ctid])).
Proof.
  intros Hh Hd. assert (Hno : recovered_document m ctid = None -> recovering ix ix frame (docs ++ omap (recovered_document m) [ctid])).
  { intros E. split; try done. cbn. by rewrite E, app_nil_r. }
  unfold recover_document. destruct (ItemPointerIsValid ctid) eqn:Ev; cbn [negb]; [|apply ensures_ret, Hno; unfold recovered_document; by rewrite Ev].
  destruct (h_blocks heap <=? ip_blkid ctid) eqn:Eb; [apply ensures_ret, Hno; unfold recovered_document; by rewrite Ev, Eb|].
  assert (Er : recovered_document m ctid =
    (tuple ← heap_fetch heap ctid; document_text ← t_text tuple;
     let '(terms, frequencies, doc_length) :=
       tp_extract_terms_from_tsvector (to_tsvector_byid (mp_text_config_oid m) document_text) in
     if 0 <? zlen terms then Some (mkDocument ctid terms frequencies doc_length
         (if mp_tenant_column_attno m =? 0 then 0 else default 0 (t_tenant tuple))) else None))
    by (unfold recovered_document; by rewrite Ev, Eb).
  destruct (heap_fetch heap ctid) as [tuple|]; [|by apply ensures_ret, Hno]. cbn [mbind option_bind] in Er.
  destruct (t_text tuple) as [text|]; [|by apply ensures_ret, Hno]. cbn [mbind option_bind] in Er.
  apply ensures_bind. unfold tp_process_document_text. rewrite Ev. cbn [negb].
  destruct (tp_extract_terms_from_tsvector _) as [[terms freqs] len]. unfold process_terms.
  set (tenant := if mp_tenant_column_attno m =? 0 then 0 else _) in *.
  destruct (0 <? zlen terms) eqn:Et.
  - destruct (Hd _ Er) as [Hl Hs]. pose proof (recovered_document_ok m ctid _ Er Hl) as Hok.
    set (d := mkDocument ctid terms freqs len tenant) in *.
    apply ensures_bind, ensures_bind, ensures_on_state.
    destruct (add_document_ok (ix_state ix) frame docs d Hh Hok Hs) as ([] & st & E & Hh' & _ & _ & Hm & _).
    exists tt, st. split; [exact E|]. apply ensures_ret, ensures_ret, ensures_on_state, ensures_modify.
    cbn [omap list_omap]. rewrite Er. split; [done|done|exact Hm|by eapply holds_same_memtable, Hh'].
  - apply ensures_bind, ensures_ret, ensures_ret, ensures_on_state, ensures_modify.
    destruct (Hno Er) as [_ _ _ Hh']. split; [done|done|done|by eapply holds_same_memtable, Hh'].
Qed.

Lemma recover_documents_ok m ctids : forall ix frame docs, holds (ix_state ix) frame docs ->
  let found := omap (recovered_document m) ctids in
  Forall lexemes_ok found -> index_size (docs ++ found) < 2 ^ 30 ->
  ensures (recover_all m ctids) ix (fun _ ix' => recovering ix ix' frame (docs ++ found)).
Proof.
  induction ctids as [|ctid ctids IH]; intros ix frame docs Hh found Hl Hs; cbn [recover_documents].
  { apply ensures_ret. split; try done. unfold found. cbn. by rewrite app_nil_r. }
  assert (Ef : found = omap (recovered_document m) [ctid] ++ omap (recovered_document m) ctids)
    by (unfold found; cbn; by destruct (recovered_document m ctid)).
  rewrite Ef in *. rewrite Forall_app in Hl. destruct Hl as [Hl1 Hl2]. rewrite app_assoc in Hs.
  apply ensures_bind. eapply ensures_mono.
  { apply (recover_document_ok ix frame docs m ctid Hh). intros d E. cbn in Hl1, Hs. rewrite E in Hl1, Hs.
    split; [by apply Forall_cons in Hl1 as [? _]|]. rewrite index_size_app in Hs.
    pose proof (index_size_nonneg (omap (recovered_document m) ctids)). lia. }
  intros [] ix1 [R1 R2 R3 R4]. eapply ensures_mono; [by apply (IH ix1 frame)|].
  intros [] ix' [S1 S2 S3 S4]. rewrite app_assoc. split; [by rewrite S1|by rewrite S2|by rewrite S3|done].
Qed.

(** The chain of the docid pages, if there is one. *)
Lemma rebuild_posting_lists_ok ix frame pages : 120 <= SEGMENT_DATA_PER_PAGE -> docids_inv (ix_storage ix) pages ->
  let m := metapage_of (ix_storage ix) in
  let found := omap (recovered_document m) (docids pages) in
  holds (ix_state ix) frame [] -> Forall lexemes_ok found -> index_size found < 2 ^ 30 ->
  ensures (tp_rebuild_posting_lists_from_docids tp_compress_segments tp_segments_per_level now to_tsvector_byid heap m) ix
    (fun _ ix' => recovering ix ix' frame found /\ (terms_added_this_xact (ix_state ix) = 0 -> terms_added_this_xact (ix_state ix') = 0)).
Proof.
  intros HP Hinv m found Hh Hl Hs. pose proof (di_chain _ _ Hinv) as Hc. pose proof (di_count _ _ Hinv) as Hn.
  unfold tp_rebuild_posting_lists_from_docids. fold m in Hc. rewrite (dc_first _ _ _ Hc).
  destruct (next_block_cases (ix_storage ix) _ pages 0 (proj2 Hn) Hc) as [[E Hlen]|[E Hlen]].
  { rewrite E, Z.eqb_refl. apply ensures_ret. destruct pages; [|simpl in Hlen; lia]. split; [|done].
    by split. }
  rewrite (proj2 (Z.eqb_neq _ _)) by lia. apply ensures_bind, ensures_on_storage, ensures_bind, ensures_gets.
  pose proof (chain_length _ _ _ Hc) as Hcl. unfold zlen in Hcl.
  eapply runs_ensures; [apply (read_docid_pages_ok HP (ix_storage ix) pages Hinv _ 0); lia|].
  intros st ->. rewrite drop_0. apply ensures_bind. destruct ix as [state st cache]. cbn [ix_state ix_storage ix_docid_cache] in *.
  eapply ensures_mono; [by apply (recover_documents_ok m (docids pages) _ frame [])|].
  intros [] ix1 [R1 R2 R3 R4]. apply ensures_on_state, ensures_modify. split; [|done].
  split; cbn [ix_state ix_storage ix_docid_cache]; [by rewrite R1|by rewrite R2|exact R3|].
  by eapply holds_same_memtable, R4.
Qed.
End RecoveryFacts.

Section Recovered.
Context `{PgLayoutLaws} `{FreeSpaceMapLaws} `{ItemPointerLaws} `{QSortLaws} `{HashSeqLaws}.
Context `{DsaAllocatorLaws}.

End Recovered.

(** ** Witness and findings: crashes after an insertion *)

Section Crashes.
#[local] Existing Instances max_allocator max_allocator_laws first_fit first_fit_laws wide_layout wide_layout_laws.

(** A heap of one block with two documents, by their first byte. *)
Definition demo_vectors (cfg : Z) (text : list byte) : TSVector :=
  match text with
  | x61 :: _ => [([x61], Some 7); ([x7a], None)]
  | _ => [([x7a], Some 3)]
  end.
Definition demo_heap : HeapRelation := mkHeapRelation 1 (fun ctid =>
  if ip_posid ctid =? 9 then Some (mkHeapTuple (Some [x61]) (Some 5))
  else if ip_posid ctid =? 7 then Some (mkHeapTuple (Some [x7a]) None) else None).

(** The index after a restart: its pages are all that is left. *)
Definition restarted (st : Storage) : Index := mkIndex (demo_state false demo_frame) st initial_docid_cache.
Definition demo_recover (st : Storage) : res (unit * Index) :=
  tp_rebuild_index_from_disk false 2 7 demo_vectors demo_heap (restarted st).

(** One document, inserted into an empty index that never spills. *)
Definition demo_insert_one : res (unit * Index) :=
  tp_insert false 2 7 0 16385 (mkItemPointer 0 9) [[x61]; [x7a]] [7; 1] 8 5 (restarted demo_empty_index).
Definition demo_crashed : Storage :=
  Eval vm_compute in match demo_insert_one with Ok (_, ix) => ix_storage ix | Err _ => demo_empty_index end.

Lemma demo_crashed_inv : exists segs pages,
  index_holds demo_crashed segs [] /\ docids_inv demo_crashed pages /\ docid_pages_apart demo_crashed segs pages /\
  docids pages = [mkItemPointer 0 9].
Proof.
  destruct (tp_insert_ok false 2 7 0 16385 (restarted demo_empty_index) demo_frame no_segments [] [] []
    demo_in_memtable) as ([] & ix & E & segs & pages & ([_ _ I3 I4 I5 _] & Hd) & _).
  - split; [apply demo_state_holds|intros E; discriminate E|exact demo_empty_holds| |intros b Hb; by apply not_elem_of_nil in Hb|intros Hv; discriminate].
    split; [forall_compute|vm_compute; split; reflexivity|vm_compute; reflexivity|vm_compute; reflexivity|].
    split; [vm_compute; reflexivity|done|done|constructor].
  - split.
    + split; [reflexivity|repeat (constructor; [discriminate|]); constructor].
    + split; [vm_compute; reflexivity|vm_compute; intuition discriminate].
    + discriminate.
    + vm_compute. reflexivity.
    + discriminate.
    + vm_compute. reflexivity.
    + intros ix' E. assert (Hn : match tp_auto_spill_if_needed false 2 7 0 (with_document (restarted demo_empty_index)
          demo_in_memtable) with Ok (_, ix1) => nblocks (ix_storage ix1) + 2 <? InvalidBlockNumber | Err _ => true end = true)
        by (vm_compute; reflexivity).
      rewrite E in Hn. by apply Z.ltb_lt.
  - lia.
  - exact demo_page_room.
  - exact demo_now.
  - assert (Es : demo_crashed = match demo_insert_one with Ok (_, ix) => ix_storage ix | Err _ => demo_empty_index end)
      by (vm_compute; reflexivity).
    rewrite Es. unfold demo_insert_one. change (mkItemPointer 0 9) with (doc_ctid demo_in_memtable).
    change (tp_insert _ _ _ _ _ _ _ _ _ _ _) with (tp_insert false 2 7 0 16385 (doc_ctid demo_in_memtable)
      (doc_terms demo_in_memtable) (doc_frequencies demo_in_memtable) (doc_length demo_in_memtable)
      (doc_tenant demo_in_memtable) (restarted demo_empty_index)).
    rewrite E. exists segs, pages. split; [exact I3|]. split; [exact I4|]. split; [exact I5|exact Hd].
Qed.


(** What a search for a term finds in the memtable: its CTIDs. *)
Definition memtable_ctids (ix : Index) (t : list byte) : list ItemPointerData :=
  match (src ← tp_memtable_source_create; get_postings src t) (ix_state ix) with
  | Ok (Some pd, _) => pd_ctids pd
  | _ => []
  end.

(** ... and in the segments. *)
Definition segment_ctids (ix : Index) (t : list byte) : list ItemPointerData :=
  match search_index 9 (ix_storage ix) t with Ok ps => sp_ctid <$> ps | Err _ => [] end.


(** A document that made the memtable spill is recovered on top of its segment.
    The spill cuts the docid chain, but the insertion then adds the CTID of the
    document that was just written to a segment: after a restart the document is both
    in the segments and in the memtable, and a search of the index meets it twice. *)
Theorem recovery_repeats_spilled_document :
  match tp_insert false 2 7 3 16385 (mkItemPointer 0 7) [[x7a]] [3] 3 0 demo_open_index with
  | Ok (_, before) =>
      memtable_ctids before [x7a] = [] /\
      segment_ctids before [x7a] = [mkItemPointer 0 7; mkItemPointer 0 9] /\
      match tp_rebuild_index_from_disk false 2 7 demo_vectors demo_heap (restarted (ix_storage before)) with
      | Ok (_, after) =>
          memtable_ctids after [x7a] = [mkItemPointer 0 7] /\
          segment_ctids after [x7a] = [mkItemPointer 0 7; mkItemPointer 0 9]
      | Err _ => False
      end
  | Err _ => False
  end.
Proof. vm_compute. repeat split. Qed.
End Crashes.
